(* ===== verification/_CoqProject ===== *)
-Q . S2P
Prelude.v
GoMath.v
Params.v
World.v
WorldFacts.v
Rlp.v
RlpProofs.v
VmBase.v
Vm.v
VmFacts.v
State.v
StateProofs.v
Ideal.v
Demo.v
VmJump.v
VmSafe.v
VmCalls.v
VmOps.v
VmRun.v
VmFuel.v
StateThms.v
RlpRaw.v
RlpStream.v
RlpStreamFacts.v
RlpStreamThms.v
RlpLang.v
RlpDecode.v
Trie.v
TrieFacts.v
TrieCodec.v
TrieOps.v
TrieHash.v
TrieMerkle.v
TrieSpec.v
TrieThms.v
SecureTrie.v
VmThms.v
VmArith.v
Transition.v
TransitionThms.v
Heap.v
Types.v
Clique.v
CliqueFacts.v
CliqueChain.v
CliqueEngine.v
CliqueSeal.v
CliqueThms.v
Hashimoto.v
HashimotoSizes.v
HashimotoFacts.v
HashimotoThms.v
Transactions.v
TransactionThms.v
TransactionOrder.v
TxList.v
TxListFacts.v
TxListThms.v
Prque.v
TxPriced.v
TxPricedThms.v
ManagedState.v
TxPool.v
TxPoolInv.v
TxPoolLimits.v
TxPoolOps.v
TxPoolThms.v
Misc.v
Bzhash.v
BzhashRules.v
BzhashSeal.v
BzhashRewards.v
Bloom.v
ChainTypes.v
ChainCodec.v
ChainThms.v
StateRoot.v
StateRootThms.v
Filters.v
FiltersThms.v
