(* ===== verification/Prelude.v ===== *)
(** * A verification of the core of go-bazacoin

    go-bazacoin is a full node of an Ethereum-like network.  This library models the part of it
    that decides what a transaction does and which blocks are valid - the virtual machine, the
    state database under it, the state transition over it, encodings, tries, transactions and
    their pool, blocks and receipts, the two consensus engines and the search for logs - and
    proves that part correct.  Everything is a shallow embedding: a Go function is a function, a
    Go struct is a record, and a panic, an error or a lack of fuel is a value.

    ** The program's parts and where they are modelled

    Foundations:
    - [Prelude] (this file): machine integers at their width ([u64], [i64]), [big.Int] as [Z],
      bytes, slices and copies, with the tactics and generic lemmas of the library.
    - [GoMath]: [common/math/big.go], [common/math/integer.go], [common/bytes.go],
      [common/types.go].  A hash or an address is the number its bytes spell.
    - [Params]: [params/protocol_params.go], [params/gas_table.go], [params/config.go].
    - [Heap]: [container/heap] of the standard library, with its specification.
    - [Ideal], [Demo]: concrete digests and signatures, the first one free of collisions, at
      which the hypotheses of the theorems hold; the witnesses evaluate the models at them.

    Encodings:
    - [Rlp], [RlpProofs], [RlpRaw]: [rlp/encode.go], [rlp/raw.go] and [crypto.CreateAddress].  A
      Go value is a [value], what reflection finds in it.
    - [RlpStream]: [rlp/decode.go].  A [Stream] has the look-ahead, the stack of open lists and
      the limit of the source; a Go type is a [dtype], and [decode] is the decoder that
      [makeDecoder] builds for it.  [RlpStreamFacts], [RlpStreamThms] and [RlpLang] show that the
      decoder of a type recognises a language [lang] of pairs of byte strings and values;
      [RlpDecode] relates the language to the encoder.
    - [Trie]: [trie/encoding.go], [node.go], [trie.go], [hasher.go], [proof.go].  [TrieFacts],
      [TrieCodec], [TrieOps], [TrieHash], [TrieMerkle] are the proofs about keys, stored nodes,
      operations, hashing and proofs; [TrieSpec] says which finite map a trie stands for;
      [TrieThms] has the theorems.
    - [SecureTrie]: [trie/secure_trie.go], tries with hashed keys, and their theorems.

    Execution:
    - [World], [WorldFacts]: the interface [vm.StateDB] ([core/vm/interface.go]) as a class of
      operations [StateDBI], a class [StateDBSpec] of what they promise in terms of an abstract
      [world], and the invariants of worlds (balances are not negative, the supply is below
      [2 ^ 256]).
    - [State], [StateProofs], [StateThms]: [core/state/statedb.go], [state_object.go],
      [journal.go].  [StateDB] keeps the live objects, the dirty set, the journal and the
      revisions of the source; [StateProofs] discharges [StateDBSpec] for it.
    - [StateRoot], [StateRootThms]: what [statedb.go] and [state_object.go] write to the secure
      tries of accounts and storage and read from them, and the root of a state.  The finite
      maps that [State] keeps in their place are proved to stand for them.
    - [VmBase], [Vm]: [core/vm].  [VmBase] has the stack, the memory, contracts, the analysis of
      jump destinations, the memory and call fees and the precompiled contracts; [Vm] has the
      gas functions, every instruction, the jump table entry by entry, the four kinds of calls
      of [evm.go] and the main loop of [interpreter.go], all written against [StateDBI].
    - [VmFacts], [VmJump], [VmSafe], [VmCalls], [VmOps], [VmRun], [VmFuel]: the proofs about [Vm].
      A frame of the interpreter satisfies [frame_ok], the machine [W_ok]; each entry of the
      jump table satisfies [op_ok]; hence each iteration, the loop and every call are safe.
    - [VmThms], [VmArith]: the properties of the machine as a whole and of its instructions.
    - [Transition], [TransitionThms]: [core/state_transition.go], [core/gaspool.go],
      [core/evm.go].

    Transactions:
    - [Transactions], [TransactionThms], [TransactionOrder]: [core/types/transaction.go] and
      [transaction_signing.go]: hashes, signers, and the miner's order by price and nonce.
    - [TxList], [TxListFacts], [TxListThms], [TxPriced], [TxPricedThms]: [core/tx_list.go].
    - [ManagedState]: [core/state/managed_state.go].  [Prque]: the vendored priority queue.
    - [TxPool], [TxPoolInv], [TxPoolLimits], [TxPoolOps], [TxPoolThms]: [core/tx_pool.go].  An
      operation holds the pool's lock, so a run of the pool is a sequence of operations; the
      state of the chain and the clock are an argument [Env] of each of them.

    Blocks and consensus:
    - [Types]: headers and their hashes ([core/types/block.go]), and calls that fail or panic.
    - [Bloom]: [core/types/bloom9.go] and the receipts of [receipt.go].
    - [ChainTypes]: the RLP forms of transactions, headers, logs, receipts and blocks, the roots
      of lists ([derive_sha.go]), the making of blocks ([block.go]) and their checks
      ([core/block_validator.go]).  [ChainCodec] has one class [Codec] for what is encoded and
      decoded, with an instance per type; [ChainThms] has the theorems.
    - [Clique], [CliqueFacts], [CliqueChain], [CliqueEngine], [CliqueSeal], [CliqueThms]:
      [consensus/clique], proof of authority.
    - [Hashimoto], [HashimotoSizes], [HashimotoFacts], [HashimotoThms]: the proof-of-work
      function ([consensus/bzhash/algorithm.go]) and the tables of its sizes.
    - [Misc]: [consensus/misc], the rules of single forks.
    - [Bzhash], [BzhashRules], [BzhashSeal], [BzhashRewards]: the rest of [consensus/bzhash].
    - [Filters], [FiltersThms]: [bzc/filters/filter.go] and the mipmap of log blooms of
      [core/database_util.go]; the node behind a filter is the class [Backend].

    The parts interact as in the source: a message is applied by [Transition], which calls [Vm];
    [Vm] changes the world only through [StateDBI]; [State] implements that interface.  The
    theorems on [Vm] and [Transition] are proved from [StateDBSpec] alone, so they hold for
    every implementation of the interface, the journalled one among them.  Blocks are hashed
    with [Rlp] and [Trie], decoded with [RlpStream], and searched by [Filters] with the blooms
    that [ChainTypes] checks; the rewards of [Bzhash] and the move of [Misc] act on [State].

    ** What the theorems show

    - State database: every operation acts on the abstract world as specified, getters and
      caches agree with it, and reverting to a snapshot restores the world the snapshot was
      taken in after any sequence of operations, snapshots and reverts.
    - Interpreter: it terminates on every code, within one unit of fuel more than its gas, does
      not panic, never gains gas, keeps the stack within 1024 words of 256 bits and the memory
      paid for, creates no ether; the fuel does not influence the result.
    - Calls: [Call], [CallCode], [DelegateCall] and [Create] return no more gas than they were
      given, and one that fails leaves the world unchanged, but for the nonce of a creator and
      the unpaid deposit of a creation that is tolerated before Homestead.
    - Instructions and fees: signed division, sign extension, exponentiation and byte selection
      agree with arithmetic modulo [2 ^ 256]; loads return what stores put; the memory fee and
      the gas passed to calls are the documented formulas; the cached analysis admits exactly
      the valid jump destinations.
    - Transition: applying a message returns, gas used, refunded and charged to the block are
      within the protocol's bounds, and no ether is created.
    - RLP: the encoder produces the recursive encoding; the raw reader inverts it and accepts
      only canonical encodings; the stream decoder ends on every input and accepts exactly the
      language of its type, inverts the encoder but for long strings in raw values, whose header
      it spoils, and is canonical but for raw values and nil pointers.
    - Tries: lookup, insertion and deletion are those of a finite map, also on tries that are
      partly unloaded; the root depends on the content alone and determines it unless the
      digest collides; a committed trie can be reopened; Merkle proofs are sound, and complete
      for tries that are not empty and whose keys have one length.
    - State roots: [IntermediateRoot] does to the tries what the model does to the maps, and the
      root it returns determines every account and its storage unless the digest collides.
    - Transactions and pool: a signature names its signer and is of no use on another chain; the
      miner's order is by price within the order of nonces; the lists of the pool refine sorted
      lists; no sequence of operations makes the pool panic or breaks its invariant; the limits
      on pending and queued transactions hold after equalisation and after a reset.
    - Blocks: a valid block is determined by its hash unless the digest collides; blocks and
      receipts survive encoding; the blocks that [NewBlock] makes have the right roots, so that
      only what the chain knows and the engine's check of the uncles decide on them.
    - Proof of authority: tallies count standing votes, signers change by majority only and
      rotate, snapshots do not depend on the caches, headers are accepted exactly by the rules
      ([valid_header], which exempts the first blocks from the rotation, as the code does), and
      an authorised signer can always seal.
    - Proof of work: dataset and cache give the same function, the miner finds exactly the
      seals that verification accepts, prepared headers are accepted, the difficulty is bounded,
      uncles and rewards are limited.
    - Log search: a filter returns exactly the matching logs of its range, in order.
    - Parameters: the compatibility check of two configurations finds the right rewind point.
    - A group of theorems records behaviour that departs from what the source says or means,
      such as an update lost after a reverted touch, a creation that fails without an error, a
      memory fee that wraps, panics on short inputs, a decoder that never ends, a raw value that
      is not what was read, transactions that the pool knows but cannot use, and a mipmap that never lets a batch be skipped.

    ** Bounds and fuel

    The recursion of the interpreter is by fuel; fuel above the gas is enough, since every
    iteration that does not halt costs at least one unit of gas and passes on less than it
    took.  Gas is bounded by [GasCap], [3 * 2 ^ 32]: above it, memory of [2 ^ 32] words could be
    afforded, whose fee wraps at 64 bits ([memory_fee_wraps]); block gas limits are orders of
    magnitude below.  Data is shorter than [2 ^ 62] bytes.  The stream decoder has the fuel
    [decode_fuel]: the size of the type and of the input, which [DecodeBytes_exact] proves to be
    enough.  The search of a filter needs fuel [enough] for the blocks of its range, whose
    numbers are below [2 ^ 52], where the source's conversions to [float64] are exact.  The pool
    holds fewer than [2 ^ 24] transactions, up to where its [float32] priorities are exact.
    Other loops are structural, or have fuel that is part of the definition and proved
    sufficient.

    ** What is not modelled

    Keccak-256, Keccak-512, SHA-256, RIPEMD-160 and the recovery of public keys are parameters
    ([CryptoPrims]); the hypotheses on them are the lengths of their results and, where a theorem
    needs it, that the strings it is about do not collide ([CryptoOK], [no_collision]).  The
    state database keeps its tries as the finite maps they stand for, which [StateRootThms]
    justifies; [CommitTo] of the state database is not modelled.
    The reflection of [rlp] is replaced by types of values and types; types that contain
    themselves and the parsing of struct tags are left out.  Tracing, the pool of integers,
    logging and metrics are left out.  The processing of the transactions of a block in turn
    ([core/state_processor.go]), the import and reorganisation of the chain, its storage, downloads, the peer-to-peer network, light clients, the miner's workers, account stores, RPC
    and the command line are left out: they are concurrency and I/O around this core. *)

From stdpp Require Export base tactics option list gmap.
From Stdlib Require Export ZArith Lia.
From Stdlib Require Strings.Byte.

Export (notations) Byte.
#[global] Open Scope Z_scope.

Notation byte := Byte.byte.

(** ** Machine integers

    A Go [uint64] is a [Z] in [0, 2^64); every operation that can leave the range is
    followed by the explicit wrap-around [u64].  [int]/[int64] are two's complement. *)

Definition MaxUint64 : Z := 2 ^ 64 - 1.
Definition u64 (z : Z) : Z := z mod 2 ^ 64.
Definition i64 (z : Z) : Z :=
  let r := z mod 2 ^ 64 in if r <? 2 ^ 63 then r else r - 2 ^ 64.
Definition in_u64 (z : Z) : Prop := 0 <= z < 2 ^ 64.
Definition in_u256 (z : Z) : Prop := 0 <= z < 2 ^ 256.

(** ** Bytes *)

Definition byte_to_Z (b : byte) : Z := Z.of_N (Byte.to_N b).
Definition byte_of_Z (z : Z) : byte :=
  match Byte.of_N (Z.to_N (z mod 256)) with Some b => b | None => Byte.x00 end.

#[export] Instance byte_eqdec : EqDecision byte := Byte.byte_eq_dec.

Definition zeros (n : nat) : list byte := replicate n Byte.x00.
Definition zlen {A} (l : list A) : Z := Z.of_nat (length l).

(** ** [math/big.Int]: the operations the code uses

    A [*big.Int] is a [Z]. *)

Definition BitLen (z : Z) : Z := if z =? 0 then 0 else Z.log2 (Z.abs z) + 1.
Definition Sign (z : Z) : Z := Z.sgn z.
(** [Uint64] is the low 64 bits of the absolute value; [Int64] reapplies the sign. *)
Definition Uint64 (z : Z) : Z := u64 (Z.abs z).
Definition Int64 (z : Z) : Z :=
  if z <? 0 then i64 (- i64 (Z.abs z)) else i64 (Z.abs z).

(** [SetBytes]: big-endian value of a byte slice. *)
Definition SetBytes (bs : list byte) : Z :=
  fold_left (fun acc b => acc * 256 + byte_to_Z b) bs 0.

(** The [n] low-order bytes of [z], most significant first. *)
Fixpoint be_bytes (n : nat) (z : Z) : list byte :=
  match n with
  | O => []
  | S n' => be_bytes n' (z / 256) ++ [byte_of_Z z]
  end.

(** [Bytes]: the absolute value as a minimal big-endian slice. *)
Definition Bytes (z : Z) : list byte :=
  be_bytes (Z.to_nat ((BitLen z + 7) / 8)) (Z.abs z).

(** [Bits]: the absolute value as little-endian 64-bit words, without leading zero words. *)
Fixpoint le_words (n : nat) (z : Z) : list Z :=
  match n with
  | O => []
  | S n' => z mod 2 ^ 64 :: le_words n' (z / 2 ^ 64)
  end.
Definition Bits (z : Z) : list Z :=
  le_words (Z.to_nat ((BitLen z + 63) / 64)) (Z.abs z).

(** ** Slices

    [slice l a b] is [l[a:b]]; [None] where Go panics with "slice bounds out of range".
    A slice's capacity is taken to be its length. *)
Definition slice {A} (l : list A) (a b : Z) : option (list A) :=
  if (0 <=? a) && (a <=? b) && (b <=? zlen l)
  then Some (take (Z.to_nat (b - a)) (drop (Z.to_nat a) l)) else None.

(** [copy(dst[off:], src)] for [0 <= off <= len(dst)]. *)
Definition copy_at {A} (dst : list A) (off : nat) (src : list A) : list A :=
  take off dst ++ take (length dst - off) src ++ drop (off + length src) dst.

(** ** Tactics and hints *)

Create HintDb go_db.

(** Split the boolean tests of the goal or a hypothesis and turn them into arithmetic. *)
Ltac bdestr :=
  match goal with
  | |- context [?a <? ?b] => destruct (Z.ltb_spec a b)
  | |- context [?a <=? ?b] => destruct (Z.leb_spec a b)
  | |- context [?a =? ?b] => destruct (Z.eqb_spec a b)
  | |- context [?a >? ?b] => rewrite (Z.gtb_ltb a b)
  | |- context [?a >=? ?b] => rewrite (Z.geb_leb a b)
  end.
Ltac bdestr_in H :=
  match type of H with
  | context [?a <? ?b] => destruct (Z.ltb_spec a b)
  | context [?a <=? ?b] => destruct (Z.leb_spec a b)
  | context [?a =? ?b] => destruct (Z.eqb_spec a b)
  | context [?a >? ?b] => rewrite (Z.gtb_ltb a b) in H
  | context [?a >=? ?b] => rewrite (Z.geb_leb a b) in H
  end.

(** ** Generic lemmas: wrap-around *)

Lemma u64_small z : 0 <= z < 2 ^ 64 -> u64 z = z.
Proof. apply Z.mod_small. Qed.

Lemma u64_range z : 0 <= u64 z < 2 ^ 64.
Proof. apply Z.mod_pos_bound. lia. Qed.

Lemma u64_add_l a b : u64 (u64 a + b) = u64 (a + b).
Proof. apply Zplus_mod_idemp_l. Qed.

Lemma u64_sub_wrap a b :
  0 <= a < 2 ^ 64 -> 0 <= b < 2 ^ 64 -> a < b -> u64 (a - b) = a - b + 2 ^ 64.
Proof.
  intros Ha Hb Hlt. unfold u64. rewrite <- (Z.mod_add _ 1) by lia.
  rewrite Z.mod_small; lia.
Qed.

Lemma i64_small z : 0 <= z < 2 ^ 63 -> i64 z = z.
Proof.
  intros Hz. unfold i64. rewrite Z.mod_small by lia. bdestr; lia.
Qed.

Lemma Uint64_small z : 0 <= z < 2 ^ 64 -> Uint64 z = z.
Proof. intros Hz. unfold Uint64. by rewrite Z.abs_eq, u64_small by lia. Qed.

#[export] Hint Rewrite u64_small i64_small using (unfold in_u64 in *; lia) : go_db.

(** ** Generic lemmas: bytes *)

Lemma byte_to_Z_range b : 0 <= byte_to_Z b < 256.
Proof. unfold byte_to_Z. pose proof (Byte.to_N_bounded b). lia. Qed.

Lemma byte_to_of_Z z : byte_to_Z (byte_of_Z z) = z mod 256.
Proof.
  unfold byte_to_Z, byte_of_Z. pose proof (Z.mod_pos_bound z 256 ltac:(lia)) as Hb.
  destruct (Byte.of_N (Z.to_N (z mod 256))) as [b|] eqn:E.
  - apply Byte.to_of_N in E. rewrite E. lia.
  - apply Byte.of_N_None_iff in E. lia.
Qed.

Lemma byte_of_to_Z b : byte_of_Z (byte_to_Z b) = b.
Proof.
  unfold byte_of_Z, byte_to_Z. pose proof (Byte.to_N_bounded b).
  rewrite Z.mod_small, N2Z.id, Byte.of_to_N by lia. done.
Qed.

Lemma byte_to_Z_inj a b : byte_to_Z a = byte_to_Z b -> a = b.
Proof. intros H. rewrite <- (byte_of_to_Z a), H. apply byte_of_to_Z. Qed.

Lemma byte_of_Z_mod z : byte_of_Z (z mod 256) = byte_of_Z z.
Proof. unfold byte_of_Z. by rewrite Z.mod_mod by lia. Qed.

Lemma length_zeros n : length (zeros n) = n.
Proof. apply length_replicate. Qed.

(** ** Generic lemmas: big-endian encoding *)

Lemma SetBytes_from acc bs :
  fold_left (fun acc b => acc * 256 + byte_to_Z b) bs acc
  = acc * 256 ^ zlen bs + SetBytes bs.
Proof.
  unfold SetBytes, zlen. revert acc. induction bs as [|b bs IH]; intros acc.
  - simpl. lia.
  - cbn [fold_left length]. rewrite IH, (IH (0 * 256 + byte_to_Z b)).
    rewrite Nat2Z.inj_succ, Z.pow_succ_r by lia. lia.
Qed.

Lemma SetBytes_app l1 l2 :
  SetBytes (l1 ++ l2) = SetBytes l1 * 256 ^ zlen l2 + SetBytes l2.
Proof. unfold SetBytes at 1. rewrite fold_left_app. apply SetBytes_from. Qed.

Lemma SetBytes_singleton b : SetBytes [b] = byte_to_Z b.
Proof. reflexivity. Qed.

Lemma SetBytes_cons b bs : SetBytes (b :: bs) = byte_to_Z b * 256 ^ zlen bs + SetBytes bs.
Proof. change (b :: bs) with ([b] ++ bs). by rewrite SetBytes_app. Qed.

Lemma SetBytes_bound bs : 0 <= SetBytes bs < 256 ^ zlen bs.
Proof.
  induction bs as [|b bs IH] using rev_ind; [split; vm_compute; congruence|].
  rewrite SetBytes_app, SetBytes_singleton. unfold zlen in *.
  rewrite length_app, Nat2Z.inj_add, Z.pow_add_r by lia. cbn [length].
  change (256 ^ Z.of_nat 1) with 256.
  pose proof (byte_to_Z_range b). nia.
Qed.

Lemma length_be_bytes n z : length (be_bytes n z) = n.
Proof. revert z. induction n; intros z; cbn; [done|]. rewrite length_app, IHn. cbn. lia. Qed.

Lemma SetBytes_be_bytes n z : SetBytes (be_bytes n z) = z mod 256 ^ Z.of_nat n.
Proof.
  revert z. induction n as [|n IH]; intros z.
  - cbn. by rewrite Z.mod_1_r.
  - cbn [be_bytes]. rewrite SetBytes_app, IH, SetBytes_singleton, byte_to_of_Z.
    change (zlen [byte_of_Z z]) with 1. rewrite Nat2Z.inj_succ, Z.pow_succ_r by lia.
    rewrite Z.pow_1_r, (Z.rem_mul_r z 256) by (pose proof (Z.pow_pos_nonneg 256 (Z.of_nat n)); lia).
    lia.
Qed.

Lemma be_bytes_SetBytes bs : be_bytes (length bs) (SetBytes bs) = bs.
Proof.
  induction bs as [|b bs IH] using rev_ind; [done|].
  rewrite length_app, Nat.add_comm, SetBytes_app, SetBytes_singleton.
  cbn [Nat.add length be_bytes]. change (zlen [b]) with 1. rewrite Z.pow_1_r.
  pose proof (byte_to_Z_range b).
  rewrite Z.div_add_l, Z.div_small, Z.add_0_r, IH by lia. f_equal.
  rewrite <- byte_of_Z_mod, Z.add_comm, Z.mod_add, byte_of_Z_mod, byte_of_to_Z by lia. done.
Qed.

Lemma be_bytes_inj n a b :
  0 <= a < 256 ^ Z.of_nat n -> 0 <= b < 256 ^ Z.of_nat n -> be_bytes n a = be_bytes n b -> a = b.
Proof.
  intros Ha Hb H. apply (f_equal SetBytes) in H.
  by rewrite !SetBytes_be_bytes, !Z.mod_small in H.
Qed.

Lemma SetBytes_zeros n : SetBytes (zeros n) = 0.
Proof.
  induction n as [|n IH]; [done|]. change (zeros (S n)) with ([Byte.x00] ++ zeros n).
  rewrite SetBytes_app, IH. done.
Qed.

Lemma BitLen_nonneg z : 0 <= BitLen z.
Proof. unfold BitLen. bdestr; [lia|]. pose proof (Z.log2_nonneg (Z.abs z)). lia. Qed.

Lemma BitLen_bound z n : 0 <= z -> 0 <= n -> BitLen z <= n <-> z < 2 ^ n.
Proof.
  intros Hz Hn. unfold BitLen. bdestr.
  - subst. split; intros; [apply Z.pow_pos_nonneg; lia|lia].
  - rewrite Z.abs_eq, (Z.log2_lt_pow2 z n) by lia. lia.
Qed.

Lemma SetBytes_Bytes z : 0 <= z -> SetBytes (Bytes z) = z.
Proof.
  intros Hz. unfold Bytes. rewrite SetBytes_be_bytes, Z.abs_eq by done.
  pose proof (BitLen_nonneg z) as Hb. apply Z.mod_small. split; [done|].
  rewrite Z2Nat.id by (apply Z.div_pos; lia).
  change 256 with (2 ^ 8). rewrite <- Z.pow_mul_r by (try apply Z.div_pos; lia).
  apply BitLen_bound; [lia| |].
  - pose proof (Z.div_pos (BitLen z + 7) 8). lia.
  - pose proof (Z.div_mod (BitLen z + 7) 8). pose proof (Z.mod_pos_bound (BitLen z + 7) 8). lia.
Qed.

Lemma be_bytes_add a b z :
  be_bytes (a + b) z = be_bytes a (z / 256 ^ Z.of_nat b) ++ be_bytes b z.
Proof.
  revert z. induction b as [|b IH]; intros z.
  - rewrite Nat.add_0_r. cbn. by rewrite Z.div_1_r, app_nil_r.
  - rewrite Nat.add_succ_r. cbn [be_bytes]. rewrite IH, app_assoc. do 2 f_equal.
    rewrite Nat2Z.inj_succ, Z.pow_succ_r, Z.div_div by (try apply Z.pow_pos_nonneg; lia).
    done.
Qed.

Lemma be_bytes_0 n : be_bytes n 0 = zeros n.
Proof.
  induction n as [|n IH]; [done|]. cbn [be_bytes]. change (0 / 256) with 0. rewrite IH.
  unfold zeros. rewrite replicate_S_end. done.
Qed.

Lemma be_bytes_pad a b z :
  0 <= z < 256 ^ Z.of_nat b -> be_bytes (a + b) z = zeros a ++ be_bytes b z.
Proof. intros Hz. by rewrite be_bytes_add, Z.div_small, be_bytes_0. Qed.

Lemma be_bytes_mod n z : be_bytes n (z mod 256 ^ Z.of_nat n) = be_bytes n z.
Proof.
  rewrite <- (be_bytes_SetBytes (be_bytes n z)), length_be_bytes, SetBytes_be_bytes. done.
Qed.

Lemma be_bytes_drop k n z : drop k (be_bytes (k + n) z) = be_bytes n z.
Proof. rewrite be_bytes_add. apply drop_app_length'. by rewrite length_be_bytes. Qed.

(** The number little-endian words stand for. *)
Fixpoint words_val (ws : list Z) : Z :=
  match ws with [] => 0 | w :: ws' => w + 2 ^ 64 * words_val ws' end.

Lemma length_le_words n z : length (le_words n z) = n.
Proof. revert z. induction n; intros z; cbn; [done|]. by rewrite IHn. Qed.

Lemma words_val_le_words n z :
  0 <= z < 2 ^ (64 * Z.of_nat n) -> words_val (le_words n z) = z.
Proof.
  revert z. induction n as [|n IH]; intros z Hz.
  - change (2 ^ (64 * Z.of_nat 0)) with 1 in Hz. cbn. lia.
  - rewrite Nat2Z.inj_succ, Z.mul_succ_r, Z.pow_add_r in Hz by lia.
    cbn [le_words words_val]. rewrite IH.
    + rewrite (Z.div_mod z (2 ^ 64)) at 3 by lia. lia.
    + split; [apply Z.div_pos; lia|]. apply Z.div_lt_upper_bound; lia.
Qed.

Lemma words_val_Bits z : words_val (Bits z) = Z.abs z.
Proof.
  unfold Bits. pose proof (BitLen_nonneg z) as Hb.
  assert (BitLen (Z.abs z) = BitLen z) as Ha.
  { unfold BitLen. rewrite Z.abs_involutive. repeat bdestr; lia. }
  apply words_val_le_words. split; [lia|].
  apply BitLen_bound; rewrite ?Z2Nat.id, ?Ha by (apply Z.div_pos; lia); [lia| |];
    pose proof (Z.div_mod (BitLen z + 63) 64); pose proof (Z.mod_pos_bound (BitLen z + 63) 64); lia.
Qed.

Lemma le_words_range n z : Forall in_u64 (le_words n z).
Proof. revert z. induction n; intros z; cbn; constructor; [apply u64_range|done]. Qed.

Lemma Bits_range z : Forall in_u64 (Bits z).
Proof. apply le_words_range. Qed.

(** ** Generic lemmas: slices and copies *)

Lemma slice_Some {A} (l : list A) a b :
  0 <= a -> a <= b -> b <= zlen l ->
  slice l a b = Some (take (Z.to_nat (b - a)) (drop (Z.to_nat a) l)).
Proof.
  intros. unfold slice.
  destruct (Z.leb_spec 0 a), (Z.leb_spec a b), (Z.leb_spec b (zlen l)); try lia. done.
Qed.

Lemma slice_length {A} (l l' : list A) a b : slice l a b = Some l' -> zlen l' = b - a.
Proof.
  unfold slice, zlen.
  destruct (Z.leb_spec 0 a), (Z.leb_spec a b), (Z.leb_spec b (Z.of_nat (length l)));
    cbn; try discriminate.
  intros [= <-]. rewrite length_take, length_drop. lia.
Qed.

Lemma length_copy_at {A} (dst src : list A) off :
  (off <= length dst)%nat -> length (copy_at dst off src) = length dst.
Proof. intros. unfold copy_at. rewrite !length_app, !length_take, length_drop. lia. Qed.

Lemma slice_copy_at {A} (dst src : list A) (off : nat) :
  (off + length src <= length dst)%nat ->
  slice (copy_at dst off src) (Z.of_nat off) (Z.of_nat off + zlen src) = Some src.
Proof.
  intros H. unfold zlen. rewrite slice_Some; [|lia..|unfold zlen; rewrite length_copy_at; lia].
  rewrite Z.add_simpl_l, !Nat2Z.id. unfold copy_at.
  rewrite drop_app_length' by (rewrite length_take; lia).
  rewrite (take_ge src) by lia. by rewrite take_app_length.
Qed.
Lemma lookup_copy_at_ne {A} (dst src : list A) (off i : nat) :
  (off + length src <= length dst)%nat -> (i < off \/ off + length src <= i)%nat ->
  copy_at dst off src !! i = dst !! i.
Proof.
  intros H Hi. unfold copy_at. rewrite (take_ge src) by lia. destruct (decide (i < off)%nat).
  - rewrite lookup_app_l by (rewrite length_take; lia). by rewrite lookup_take_lt.
  - rewrite lookup_app_r, length_take by (rewrite length_take; lia).
    rewrite lookup_app_r by lia. rewrite lookup_drop. f_equal. lia.
Qed.

Lemma zlen_nonneg {A} (l : list A) : 0 <= zlen l.
Proof. unfold zlen. lia. Qed.

Lemma zlen_app {A} (l k : list A) : zlen (l ++ k) = zlen l + zlen k.
Proof. unfold zlen. rewrite length_app. lia. Qed.

Lemma zlen_cons {A} (x : A) l : zlen (x :: l) = zlen l + 1.
Proof. unfold zlen. cbn. lia. Qed.

#[export] Hint Resolve zlen_nonneg u64_range byte_to_Z_range : go_db.

(** ** Maps under a translation of their keys that is injective on the keys in use *)

Section kmap_on.
Context {A B V : Type} `{Countable A, Countable B} (f : A -> B) (P : A -> Prop).
Hypothesis (Hf : forall x y, P x -> P y -> f x = f y -> x = y).
Implicit Types m : gmap A V.

Definition keys_on m : Prop := map_Forall (fun k _ => P k) m.
Lemma keys_on_insert m k v : keys_on m -> P k -> keys_on (<[k := v]> m).
Proof. intros. by apply map_Forall_insert_2. Qed.
Lemma keys_on_delete m k : keys_on m -> keys_on (delete k m).
Proof. intros. by apply map_Forall_delete. Qed.

Lemma kmap_on_Some m h v : keys_on m -> (kmap f m : gmap B V) !! h = Some v <-> exists k, h = f k /\ m !! k = Some v.
Proof.
  intros Hm. unfold kmap. rewrite <- elem_of_list_to_map.
  - rewrite list_elem_of_fmap. split.
    + intros ([k v'] & [= -> ->] & Hin%elem_of_map_to_list). eauto.
    + intros (k & -> & E). exists (k, v). by rewrite elem_of_map_to_list.
  - rewrite <- list_fmap_compose. apply NoDup_fmap_2_strong; [|apply NoDup_map_to_list].
    intros [k1 v1] [k2 v2] H1%elem_of_map_to_list H2%elem_of_map_to_list E. cbn in E.
    apply Hf in E as ->; [by simplify_eq|exact (Hm _ _ H1)|exact (Hm _ _ H2)].
Qed.
Lemma kmap_on_lookup m k : keys_on m -> P k -> (kmap f m : gmap B V) !! f k = m !! k.
Proof.
  intros Hm Hk. apply option_eq. intros v. rewrite kmap_on_Some by done. split; [|eauto].
  intros (k' & E & Ev). apply Hf in E as ->; [done|done|exact (Hm _ _ Ev)].
Qed.
Lemma kmap_on_insert m k v : keys_on m -> P k -> (kmap f (<[k := v]> m) : gmap B V) = <[f k := v]> (kmap f m).
Proof.
  intros Hm Hk. pose proof (keys_on_insert m k v Hm Hk) as Hm'. apply map_eq. intros h. apply option_eq. intros x.
  rewrite kmap_on_Some by done. destruct (decide (h = f k)) as [->|Hne].
  - rewrite lookup_insert_eq. split.
    + intros (k' & E & Ev). assert (P k') as Hk' by exact (Hm' _ _ Ev). apply Hf in E as <-; [|done..]. by rewrite lookup_insert_eq in Ev.
    + intros [= <-]. exists k. by rewrite lookup_insert_eq.
  - rewrite lookup_insert_ne, kmap_on_Some by done. split; intros (k' & -> & Ev); exists k'; (split; [done|]).
    + rewrite lookup_insert_ne in Ev; [done|]. by intros ->.
    + rewrite lookup_insert_ne; [done|]. by intros ->.
Qed.
Lemma kmap_on_delete m k : keys_on m -> P k -> (kmap f (delete k m) : gmap B V) = delete (f k) (kmap f m).
Proof.
  intros Hm Hk. pose proof (keys_on_delete m k Hm) as Hm'. apply map_eq. intros h. apply option_eq. intros x.
  rewrite kmap_on_Some by done. destruct (decide (h = f k)) as [->|Hne].
  - rewrite lookup_delete_eq. split; [|done]. intros (k' & E & [Hne Ev]%lookup_delete_Some). apply Hf in E; [done|done|exact (Hm _ _ Ev)].
  - rewrite lookup_delete_ne, kmap_on_Some by done. split; intros (k' & -> & Ev); exists k'; (split; [done|]).
    + by apply lookup_delete_Some in Ev as [_ Ev].
    + apply lookup_delete_Some. split; [|done]. by intros ->.
Qed.
Lemma kmap_on_inj m1 m2 : keys_on m1 -> keys_on m2 -> (kmap f m1 : gmap B V) = kmap f m2 -> m1 = m2.
Proof.
  intros H1 H2 E. apply map_eq. intros k. apply option_eq. intros v.
  split; intros Ev.
  - rewrite <- (kmap_on_lookup m2 k H2 (H1 _ _ Ev)), <- E, kmap_on_lookup; [done|done|exact (H1 _ _ Ev)].
  - rewrite <- (kmap_on_lookup m1 k H1 (H2 _ _ Ev)), E, kmap_on_lookup; [done|done|exact (H2 _ _ Ev)].
Qed.
End kmap_on.
