(* ===== verification/GoMath.v ===== *)
(** * [common/math], [common/types.go], [common/bytes.go]

    256-bit arithmetic on big integers, overflow-checked [uint64] arithmetic, big-endian
    encodings, and the conversions between byte slices, hashes and addresses.  A
    [common.Hash] ([32]byte) and a [common.Address] ([20]byte) are the unsigned numbers they
    encode. *)

From S2P Require Import Prelude.

(** ** Constants ([common/math/big.go]) *)

Definition tt255 : Z := 2 ^ 255.
Definition tt256 : Z := 2 ^ 256.
Definition tt256m1 : Z := tt256 - 1.
Definition wordBits : nat := 64.
Definition wordBytes : nat := 8.

(** ** Big integers ([common/math/big.go]) *)

Definition BigMax (x y : Z) : Z := if x <? y then y else x.
Definition BigMin (x y : Z) : Z := if x >? y then y else x.

(** [for i := 0; i < v.BitLen(); i++ { if v.Bit(i) > 0 { return i } }] *)
Fixpoint firstBitSet_loop (n : nat) (v i : Z) : Z :=
  match n with
  | O => i
  | S n' => if Z.testbit v i then i else firstBitSet_loop n' v (i + 1)
  end.
Definition FirstBitSet (v : Z) : Z := firstBitSet_loop (Z.to_nat (BitLen v)) v 0.

(** [ReadBits] fills [buf] from its end.  [read_word] is the inner loop over the bytes of one
    word: it prepends up to [j] bytes to the part of [buf] already written ([acc]), stopping
    when the buffer index [i] reaches 0. *)
Fixpoint read_word (j i : nat) (d : Z) (acc : list byte) : nat * list byte :=
  match j, i with
  | S j', S i' => read_word j' i' (Z.shiftr d 8) (byte_of_Z d :: acc)
  | _, _ => (i, acc)
  end.
Fixpoint read_words (ws : list Z) (i : nat) (acc : list byte) : nat * list byte :=
  match ws with
  | [] => (i, acc)
  | d :: ws' => let '(i', acc') := read_word wordBytes i d acc in read_words ws' i' acc'
  end.
Definition ReadBits (bigint : Z) (buf : list byte) : list byte :=
  let '(i, written) := read_words (Bits bigint) (length buf) [] in take i buf ++ written.

Definition PaddedBigBytes (bigint : Z) (n : nat) : list byte :=
  if BitLen bigint / 8 >=? Z.of_nat n then Bytes bigint
  else ReadBits bigint (zeros n).

Definition bigEndianByteAt (bigint : Z) (n : nat) : byte :=
  match Bits bigint !! (n / wordBytes)%nat with
  | None => Byte.x00
  | Some word => byte_of_Z (Z.shiftr word (8 * (Z.of_nat n mod 8)))
  end.

(** [Byte] of the source. *)
Definition ByteAt (bigint : Z) (padlength n : nat) : byte :=
  if (padlength <=? n)%nat then Byte.x00 else bigEndianByteAt bigint (padlength - 1 - n).

Definition U256 (x : Z) : Z := Z.land x tt256m1.
Definition S256 (x : Z) : Z := if x <? tt255 then x else x - tt256.

(** [Exp] multiplies into [result] and squares [base] in place: the final value of the
    [base] argument is part of the result. *)
Fixpoint exp_word (n : nat) (word result base : Z) : Z * Z :=
  match n with
  | O => (result, base)
  | S n' =>
      let result := if Z.land word 1 =? 1 then U256 (result * base) else result in
      exp_word n' (Z.shiftr word 1) result (U256 (base * base))
  end.
Fixpoint exp_words (ws : list Z) (result base : Z) : Z * Z :=
  match ws with
  | [] => (result, base)
  | w :: ws' => let '(r, b) := exp_word wordBits w result base in exp_words ws' r b
  end.
Definition Exp (base exponent : Z) : Z * Z := exp_words (Bits exponent) 1 base.

(** ** Overflow-checked arithmetic ([common/math/integer.go]) *)

Definition SafeSub (x y : Z) : Z * bool := (u64 (x - y), x <? y).
Definition SafeAdd (x y : Z) : Z * bool := (u64 (x + y), y >? MaxUint64 - x).
Definition SafeMul (x y : Z) : Z * bool :=
  if (x =? 0) || (y =? 0) then (0, false) else (u64 (x * y), y >? MaxUint64 / x).

(** ** Bytes, hashes and addresses ([common/bytes.go], [common/types.go]) *)

Abbreviation Hash := Z (only parsing).
Abbreviation Address := Z (only parsing).

Definition RightPadBytes (s : list byte) (l : Z) : list byte :=
  if l <=? zlen s then s else copy_at (zeros (Z.to_nat l)) 0 s.
Definition LeftPadBytes (s : list byte) (l : Z) : list byte :=
  if l <=? zlen s then s else copy_at (zeros (Z.to_nat l)) (Z.to_nat (l - zlen s)) s.

(** [SetBytes] of a fixed array of [n] bytes: keep the last [n] bytes, right-aligned. *)
Definition setArray (n : nat) (b : list byte) : Z :=
  let b := if (n <? length b)%nat then drop (length b - n) b else b in
  SetBytes (copy_at (zeros n) (n - length b) b).
Definition BytesToHash (b : list byte) : Hash := setArray 32 b.
Definition BytesToAddress (b : list byte) : Address := setArray 20 b.
Definition BigToHash (b : Z) : Hash := BytesToHash (Bytes b).
Definition BigToAddress (b : Z) : Address := BytesToAddress (Bytes b).
Definition EmptyHash (h : Hash) : bool := h =? 0.

(** ** Lemmas *)

Lemma U256_mod x : U256 x = x mod 2 ^ 256.
Proof. unfold U256, tt256m1, tt256. rewrite <- Z.land_ones by lia. done. Qed.

Lemma U256_range x : in_u256 (U256 x).
Proof. rewrite U256_mod. apply Z.mod_pos_bound. lia. Qed.

Lemma U256_small x : in_u256 x -> U256 x = x.
Proof. rewrite U256_mod. apply Z.mod_small. Qed.

Lemma S256_range x : in_u256 x -> - 2 ^ 255 <= S256 x < 2 ^ 255.
Proof. unfold in_u256, S256, tt255, tt256. bdestr; lia. Qed.

Lemma U256_S256 x : in_u256 x -> U256 (S256 x) = x.
Proof.
  unfold in_u256, S256, tt255, tt256. intros Hx. rewrite U256_mod. bdestr.
  - apply Z.mod_small. lia.
  - rewrite <- (Z.mod_add _ 1), Z.mod_small; lia.
Qed.

Lemma S256_U256 x : - 2 ^ 255 <= x < 2 ^ 255 -> S256 (U256 x) = x.
Proof.
  intros Hx. rewrite U256_mod. unfold S256, tt255, tt256.
  destruct (Z_lt_ge_dec x 0).
  - rewrite <- (Z.mod_add _ 1), Z.mod_small by lia. bdestr; lia.
  - rewrite Z.mod_small by lia. bdestr; lia.
Qed.

#[export] Hint Resolve U256_range : go_db.

Lemma SafeAdd_spec x y :
  in_u64 x -> in_u64 y ->
  SafeAdd x y = (if x + y <? 2 ^ 64 then (x + y, false) else (x + y - 2 ^ 64, true)).
Proof.
  unfold in_u64, SafeAdd, MaxUint64. intros Hx Hy. rewrite Z.gtb_ltb.
  destruct (Z.ltb_spec (2 ^ 64 - 1 - x) y), (Z.ltb_spec (x + y) (2 ^ 64)); try lia; f_equal.
  - unfold u64. rewrite <- (Z.mod_add _ (-1)), Z.mod_small; lia.
  - apply u64_small. lia.
Qed.

Lemma SafeMul_spec x y :
  in_u64 x -> in_u64 y ->
  SafeMul x y = (u64 (x * y), negb (x * y <? 2 ^ 64)).
Proof.
  unfold in_u64, SafeMul, MaxUint64. intros Hx Hy.
  destruct (Z.eqb_spec x 0), (Z.eqb_spec y 0); subst; cbn [orb]; rewrite ?Z.mul_0_r, ?Z.mul_0_l;
    try reflexivity.
  f_equal. rewrite Z.gtb_ltb.
  pose proof (Z.div_mod (2 ^ 64 - 1) x ltac:(lia)).
  pose proof (Z.mod_pos_bound (2 ^ 64 - 1) x ltac:(lia)).
  repeat bdestr; cbn; try done; nia.
Qed.

Lemma SafeMul_small x y :
  in_u64 x -> in_u64 y -> x * y < 2 ^ 64 -> SafeMul x y = (x * y, false).
Proof.
  intros Hx Hy H. rewrite SafeMul_spec by done. unfold in_u64 in *.
  rewrite u64_small by nia. bdestr; [done|lia].
Qed.

(** *** Encoding loops *)

Lemma read_word_spec j i d acc :
  0 <= d ->
  read_word j i d acc = ((i - j)%nat, be_bytes (min j i) d ++ acc).
Proof.
  revert i d acc. induction j as [|j IH]; intros i d acc Hd; [by rewrite Nat.sub_0_r|].
  destruct i as [|i]; [done|]. cbn [read_word Nat.min Nat.sub be_bytes].
  rewrite IH, Z.shiftr_div_pow2 by (try apply Z.shiftr_nonneg; lia).
  change (2 ^ 8) with 256. by rewrite <- app_assoc.
Qed.

Lemma read_words_spec ws i acc :
  Forall in_u64 ws ->
  read_words ws i acc
  = ((i - 8 * length ws)%nat, be_bytes (min (8 * length ws) i) (words_val ws) ++ acc).
Proof.
  intros Hws. revert i acc. induction Hws as [|w ws Hw Hws IH]; intros i acc.
  - cbn. by rewrite Nat.sub_0_r.
  - cbn [read_words words_val length]. unfold in_u64 in Hw.
    rewrite read_word_spec by lia. unfold wordBytes. rewrite IH. f_equal; [lia|].
    rewrite app_assoc. f_equal.
    destruct (decide (8 <= i)%nat) as [Hi|Hi].
    + replace (min (8 * S (length ws)) i) with (min (8 * length ws) (i - 8) + 8)%nat by lia.
      replace (min 8 i) with 8%nat by lia.
      rewrite be_bytes_add. change (256 ^ Z.of_nat 8) with (2 ^ 64).
      rewrite (Z.mul_comm (2 ^ 64)), Z.div_add, Z.div_small, Z.add_0_l by lia.
      f_equal. rewrite <- (be_bytes_mod 8 (w + _)). change (256 ^ Z.of_nat 8) with (2 ^ 64).
      by rewrite Z.mod_add, Z.mod_small by lia.
    + replace (min (8 * length ws) (i - 8)) with 0%nat by lia.
      replace (min (8 * S (length ws)) i) with i by lia. replace (min 8 i) with i by lia.
      cbn [be_bytes app]. rewrite <- (be_bytes_mod i (w + _)), <- (be_bytes_mod i w).
      f_equal. replace (2 ^ 64) with (256 ^ Z.of_nat (8 - i) * 256 ^ Z.of_nat i).
      2:{ rewrite <- Z.pow_add_r by lia.
          replace (Z.of_nat (8 - i) + Z.of_nat i) with 8 by lia. done. }
      rewrite <- Z.mul_assoc, (Z.mul_comm (256 ^ Z.of_nat i)), Z.mul_assoc.
      rewrite Z.mod_add by (apply Z.pow_nonzero; lia). done.
Qed.

Lemma ReadBits_zeros z n : ReadBits z (zeros n) = be_bytes n (Z.abs z).
Proof.
  unfold ReadBits. rewrite length_zeros.
  rewrite read_words_spec, words_val_Bits, app_nil_r by apply Bits_range.
  unfold Bits. rewrite length_le_words.
  set (k := Z.to_nat ((BitLen z + 63) / 64)).
  destruct (decide (n <= 8 * k)%nat).
  - replace (n - 8 * k)%nat with 0%nat by lia. replace (min (8 * k) n) with n by lia. done.
  - replace (min (8 * k) n) with (8 * k)%nat by lia.
    replace n with ((n - 8 * k) + 8 * k)%nat at 3 by lia. rewrite be_bytes_pad.
    + f_equal. unfold zeros. rewrite take_replicate. f_equal. lia.
    + split; [lia|]. change 256 with (2 ^ 8). rewrite <- Z.pow_mul_r by lia.
      pose proof (words_val_Bits z) as Hv. unfold Bits in Hv. fold k in Hv.
      assert (BitLen (Z.abs z) <= 8 * Z.of_nat (8 * k)) as Hb.
      { unfold BitLen at 1. rewrite Z.abs_involutive. fold k.
        pose proof (BitLen_nonneg z). subst k.
        pose proof (Z.div_mod (BitLen z + 63) 64). pose proof (Z.mod_pos_bound (BitLen z + 63) 64).
        assert (0 <= (BitLen z + 63) / 64) by (apply Z.div_pos; lia).
        unfold BitLen in *. repeat bdestr; lia. }
      apply BitLen_bound; lia.
Qed.

Lemma PaddedBigBytes_spec z n : 0 <= z < 256 ^ Z.of_nat n -> PaddedBigBytes z n = be_bytes n z.
Proof.
  intros Hz. unfold PaddedBigBytes. rewrite Z.geb_leb.
  destruct (Z.leb_spec (Z.of_nat n) (BitLen z / 8)) as [Hb|]; [|rewrite ReadBits_zeros; f_equal; lia].
  assert (BitLen z <= 8 * Z.of_nat n) as Hle.
  { apply BitLen_bound; [lia..|]. rewrite Z.pow_mul_r by lia. apply Hz. }
  pose proof (Z.div_mod (BitLen z) 8 ltac:(lia)). pose proof (Z.mod_pos_bound (BitLen z) 8 ltac:(lia)).
  unfold Bytes. rewrite Z.abs_eq by lia. f_equal.
  assert (BitLen z = 8 * Z.of_nat n) as -> by lia.
  replace (8 * Z.of_nat n + 7) with (7 + Z.of_nat n * 8) by lia. rewrite Z.div_add by lia. change (7 / 8) with 0. lia.
Qed.

Lemma bigEndianByteAt_spec z n :
  byte_to_Z (bigEndianByteAt z n) = (Z.abs z / 256 ^ Z.of_nat n) mod 256.
Proof.
  rewrite <- words_val_Bits. unfold bigEndianByteAt.
  assert (forall ws k, Forall in_u64 ws ->
    byte_to_Z (match ws !! (k / 8)%nat with
               | None => Byte.x00
               | Some w => byte_of_Z (Z.shiftr w (8 * (Z.of_nat k mod 8))) end)
    = (words_val ws / 256 ^ Z.of_nat k) mod 256) as H.
  { intros ws k Hws. revert k. induction Hws as [|w ws Hw Hws IH]; intros k; [done|].
    unfold in_u64 in Hw. cbn [words_val].
    destruct (decide (k < 8)%nat) as [Hk|Hk].
    - rewrite Nat.div_small by done. cbn [lookup list_lookup].
      rewrite byte_to_of_Z, (Z.mod_small (Z.of_nat k) 8), Z.shiftr_div_pow2 by lia.
      rewrite Z.pow_mul_r by lia. change (2 ^ 8) with 256.
      replace (2 ^ 64 * words_val ws)
        with ((words_val ws * 256 ^ (7 - Z.of_nat k)) * 256 * 256 ^ Z.of_nat k).
      2:{ transitivity (words_val ws * (256 ^ (7 - Z.of_nat k) * 256 ^ Z.of_nat k) * 256); [lia|].
          rewrite <- Z.pow_add_r by lia.
          replace (7 - Z.of_nat k + Z.of_nat k) with 7 by lia.
          change (256 ^ 7) with (2 ^ 56). change (2 ^ 64) with (2 ^ 56 * 256). lia. }
      rewrite Z.div_add by (apply Z.pow_nonzero; lia). by rewrite Z.mod_add by lia.
    - specialize (IH (k - 8)%nat).
      assert ((k / 8)%nat = S ((k - 8) / 8)) as ->.
      { replace k with ((k - 8) + 1 * 8)%nat at 1 by lia. rewrite Nat.div_add by lia. lia. }
      assert (Z.of_nat k mod 8 = Z.of_nat (k - 8) mod 8) as ->.
      { replace (Z.of_nat k) with (Z.of_nat (k - 8) + 1 * 8) by lia. by rewrite Z.mod_add by lia. }
      change ((w :: ws) !! S ((k - 8) / 8)%nat) with (ws !! ((k - 8) / 8)%nat).
      rewrite IH. f_equal. replace (Z.of_nat k) with (8 + Z.of_nat (k - 8)) by lia.
      rewrite Z.pow_add_r, <- Z.div_div by (try apply Z.pow_pos_nonneg; lia).
      change (256 ^ 8) with (2 ^ 64).
      by rewrite (Z.mul_comm (2 ^ 64)), Z.div_add, (Z.div_small w (2 ^ 64)), Z.add_0_l by lia. }
  apply H, Bits_range.
Qed.

(** *** Exponentiation *)

Lemma mod_pow_congr a a' e m : 0 < m -> a mod m = a' mod m -> a ^ e mod m = a' ^ e mod m.
Proof. intros Hm Ha. by rewrite <- (Z.mod_pow_l a), Ha, Z.mod_pow_l. Qed.

Lemma exp_word_spec n word result base :
  0 <= word ->
  let M := 2 ^ 256 in
  let '(r, b) := exp_word n word result base in
  r mod M = (result * base ^ (word mod 2 ^ Z.of_nat n)) mod M /\
  b mod M = (base ^ (2 ^ Z.of_nat n)) mod M /\
  (in_u256 result -> in_u256 r).
Proof.
  intros Hw M. revert word result base Hw. induction n as [|n IH]; intros word result base Hw.
  - cbn [exp_word]. change (2 ^ Z.of_nat 0) with 1.
    by rewrite Z.mod_1_r, Z.pow_0_r, Z.mul_1_r, Z.pow_1_r.
  - cbn [exp_word]. assert (0 <= Z.shiftr word 1) as Hs by (apply Z.shiftr_nonneg; lia).
    specialize (IH (Z.shiftr word 1) (if Z.land word 1 =? 1 then U256 (result * base) else result)
                  (U256 (base * base)) Hs).
    destruct (exp_word _ _ _ _) as [r b]. destruct IH as (IHr & IHb & IHu).
    assert (forall e, 0 <= e -> (U256 (base * base)) ^ e mod M = base ^ (2 * e) mod M) as Hsq.
    { intros e He. rewrite Z.pow_mul_r, Z.pow_2_r by lia. apply mod_pow_congr; [lia|].
      rewrite U256_mod. fold M. apply Z.mod_mod. lia. }
    rewrite Nat2Z.inj_succ, Z.pow_succ_r by lia.
    assert (0 < 2 ^ Z.of_nat n) as Hp by (apply Z.pow_pos_nonneg; lia).
    split_and!.
    + rewrite IHr, <- Z.mul_mod_idemp_r, Hsq, Z.mul_mod_idemp_r by (try apply Z.mod_pos_bound; lia).
      rewrite Z.shiftr_div_pow2 by lia. change (2 ^ 1) with 2.
      rewrite (Z.rem_mul_r word 2) by lia.
      pose proof (Z.land_ones word 1 ltac:(lia)) as Hl. change (Z.ones 1) with 1 in Hl.
      change (2 ^ 1) with 2 in Hl. rewrite Hl.
      pose proof (Z.mod_pos_bound word 2 ltac:(lia)).
      pose proof (Z.mod_pos_bound (word / 2) (2 ^ Z.of_nat n) Hp).
      rewrite Z.pow_add_r by lia. bdestr.
      * replace (word mod 2) with 1 by lia. rewrite Z.pow_1_r, U256_mod. fold M.
        rewrite Z.mul_mod_idemp_l by lia. f_equal. lia.
      * replace (word mod 2) with 0 by lia. rewrite Z.pow_0_r. f_equal. lia.
    + by rewrite IHb, Hsq by lia.
    + intros Hu. apply IHu. bdestr; [apply U256_range|done].
Qed.

Lemma exp_words_spec ws result base :
  Forall in_u64 ws ->
  let M := 2 ^ 256 in
  (exp_words ws result base).1 mod M = (result * base ^ words_val ws) mod M /\
  (in_u256 result -> in_u256 (exp_words ws result base).1).
Proof.
  intros Hws M. revert result base. induction Hws as [|w ws Hw Hws IH]; intros result base.
  - cbn. by rewrite Z.mul_1_r.
  - cbn [exp_words words_val]. unfold in_u64 in Hw.
    pose proof (exp_word_spec wordBits w result base ltac:(lia)) as Hs. cbn zeta in Hs.
    destruct (exp_word wordBits w result base) as [r b]. destruct Hs as (Hr & Hb & Hu).
    destruct (IH r b) as [IHr IHu]. split; [|tauto].
    rewrite IHr. fold M in Hr, Hb. change (2 ^ Z.of_nat wordBits) with (2 ^ 64) in *.
    rewrite (Z.mod_small w) in Hr by (clear -Hw; lia).
    assert (0 <= words_val ws) as Hv.
    { clear -Hws. induction Hws as [|w ws Hw]; [cbn; lia|]. unfold in_u64 in Hw. cbn [words_val]. lia. }
    assert (M <> 0) as HM by (clear; lia).
    rewrite <- Z.mul_mod_idemp_l, Hr, Z.mul_mod_idemp_l by done.
    rewrite <- Z.mul_mod_idemp_r, (mod_pow_congr b (base ^ (2 ^ 64))) by (done || (clear; lia)).
    rewrite Z.mul_mod_idemp_r by done.
    by rewrite Z.pow_add_r, Z.pow_mul_r, Z.mul_assoc by (clear -Hw Hv; lia).
Qed.

Lemma Exp_fst base exponent :
  0 <= exponent -> (Exp base exponent).1 = base ^ exponent mod 2 ^ 256.
Proof.
  intros He. unfold Exp.
  destruct (exp_words_spec (Bits exponent) 1 base (Bits_range exponent)) as [Hr Hu].
  rewrite words_val_Bits, Z.abs_eq, Z.mul_1_l in Hr by done.
  rewrite <- Hr, Z.mod_small; [done|]. apply Hu. unfold in_u256. lia.
Qed.

(** *** Padding, hashes, addresses *)

Lemma RightPadBytes_spec s l : RightPadBytes s l = s ++ zeros (Z.to_nat (l - zlen s)).
Proof.
  unfold RightPadBytes, copy_at, zlen. bdestr.
  - replace (Z.to_nat (l - _)) with 0%nat by lia. cbn. by rewrite app_nil_r.
  - rewrite length_zeros, Nat.sub_0_r, Nat.add_0_l, (take_ge s) by lia.
    rewrite take_0, app_nil_l. f_equal. unfold zeros.
    rewrite drop_replicate. f_equal. lia.
Qed.

Lemma LeftPadBytes_spec s l : LeftPadBytes s l = zeros (Z.to_nat (l - zlen s)) ++ s.
Proof.
  unfold LeftPadBytes, copy_at, zlen. bdestr.
  - replace (Z.to_nat (l - _)) with 0%nat by lia. done.
  - rewrite length_zeros, (take_ge s), drop_ge, app_nil_r by (rewrite ?length_zeros; lia).
    f_equal. unfold zeros. rewrite take_replicate. f_equal. lia.
Qed.

Lemma setArray_spec n b : setArray n b = SetBytes b mod 256 ^ Z.of_nat n.
Proof.
  unfold setArray, copy_at. rewrite length_zeros.
  destruct (Nat.ltb_spec n (length b)) as [Hn|Hn].
  - rewrite length_drop. replace (length b - (length b - n))%nat with n by lia.
    rewrite Nat.sub_diag, Nat.sub_0_r, Nat.add_0_l, take_0, app_nil_l.
    rewrite (drop_ge (zeros n)), app_nil_r, take_ge by (rewrite ?length_drop, ?length_zeros; lia).
    pose proof (f_equal SetBytes (take_drop (length b - n) b)) as E.
    rewrite SetBytes_app in E. rewrite <- E.
    replace (zlen (drop _ b)) with (Z.of_nat n) by (unfold zlen; rewrite length_drop; lia).
    rewrite Z.add_comm, Z.mod_add, Z.mod_small; [done| |].
    + pose proof (SetBytes_bound (drop (length b - n) b)) as Hb.
      unfold zlen in Hb. rewrite length_drop in Hb.
      by replace (length b - (length b - n))%nat with n in Hb by lia.
    + apply Z.pow_nonzero; lia.
  - rewrite (take_ge b), (drop_ge (zeros n)), app_nil_r by (rewrite ?length_zeros; lia).
    unfold zeros at 1. rewrite take_replicate. change (replicate ?k Byte.x00) with (zeros k).
    rewrite SetBytes_app, SetBytes_zeros. rewrite Z.mod_small; [lia|].
    pose proof (SetBytes_bound b). split; [lia|].
    eapply Z.lt_le_trans; [apply H|]. apply Z.pow_le_mono_r; unfold zlen; lia.
Qed.

Lemma BytesToHash_range b : in_u256 (BytesToHash b).
Proof. unfold BytesToHash. rewrite setArray_spec. apply Z.mod_pos_bound. lia. Qed.
Lemma BytesToAddress_range b : in_u256 (BytesToAddress b).
Proof.
  unfold BytesToAddress, in_u256. rewrite setArray_spec.
  pose proof (Z.mod_pos_bound (SetBytes b) (256 ^ Z.of_nat 20) ltac:(lia)).
  assert (256 ^ Z.of_nat 20 < 2 ^ 256) by done. lia.
Qed.
Lemma BigToHash_mod b : 0 <= b -> BigToHash b = b mod 2 ^ 256.
Proof. intros. unfold BigToHash, BytesToHash. by rewrite setArray_spec, SetBytes_Bytes. Qed.

Lemma BigToAddress_mod b : 0 <= b -> BigToAddress b = b mod 2 ^ 160.
Proof. intros. unfold BigToAddress, BytesToAddress. by rewrite setArray_spec, SetBytes_Bytes. Qed.
