(* ===== verification/Params.v ===== *)
(** * [params]: protocol parameters, gas tables and the chain configuration

    The constants of [protocol_params.go], the gas tables of [gas_table.go], and the fork
    schedule of [config.go] with its compatibility check.  A nil [*big.Int] block number is
    [None]. *)

From S2P Require Import Prelude GoMath.

(** ** [protocol_params.go] *)

Definition CallValueTransferGas : Z := 9000.
Definition CallNewAccountGas : Z := 25000.
Definition TxGas : Z := 21000.
Definition TxGasContractCreation : Z := 53000.
Definition TxDataZeroGas : Z := 4.
Definition QuadCoeffDiv : Z := 512.
Definition SstoreSetGas : Z := 20000.
Definition LogDataGas : Z := 8.
Definition CallStipend : Z := 2300.
Definition EcrecoverGas : Z := 3000.
Definition Sha256WordGas : Z := 12.
Definition Sha3Gas : Z := 30.
Definition Sha256Gas : Z := 60.
Definition IdentityWordGas : Z := 3.
Definition Sha3WordGas : Z := 6.
Definition SstoreResetGas : Z := 5000.
Definition SstoreClearGas : Z := 5000.
Definition SstoreRefundGas : Z := 15000.
Definition JumpdestGas : Z := 1.
Definition IdentityGas : Z := 15.
Definition CreateDataGas : Z := 200.
Definition Ripemd160Gas : Z := 600.
Definition Ripemd160WordGas : Z := 120.
Definition CallCreateDepth : Z := 1024.
Definition LogGas : Z := 375.
Definition CopyGas : Z := 3.
Definition StackLimit : Z := 1024.
Definition LogTopicGas : Z := 375.
Definition CreateGas : Z := 32000.
Definition SuicideRefundGas : Z := 24000.
Definition MemoryGas : Z := 3.
Definition TxDataNonZeroGas : Z := 68.
Definition MaxCodeSize : Z := 24576.
Definition GasLimitBoundDivisor : Z := 1024.
Definition MinGasLimit : Z := 5000.
Definition GenesisGasLimit : Z := 4712388.
Definition DifficultyBoundDivisor : Z := 2048.
Definition GenesisDifficulty : Z := 131072.
Definition MinimumDifficulty : Z := 131072.
Definition DurationLimit : Z := 13.
Definition MaximumExtraDataSize : Z := 32.

(** ** [gas_table.go] *)

Record GasTable := mkGasTable {
  gt_ExtcodeSize : Z;
  gt_ExtcodeCopy : Z;
  gt_Balance : Z;
  gt_SLoad : Z;
  gt_Calls : Z;
  gt_Suicide : Z;
  gt_ExpByte : Z;
  gt_CreateBySuicide : Z;
}.

Definition GasTableHomestead : GasTable := {|
  gt_ExtcodeSize := 20; gt_ExtcodeCopy := 20; gt_Balance := 20; gt_SLoad := 50; gt_Calls := 40;
  gt_Suicide := 0; gt_ExpByte := 10; gt_CreateBySuicide := 0 |}.
Definition GasTableHomesteadGasRepriceFork : GasTable := {|
  gt_ExtcodeSize := 700; gt_ExtcodeCopy := 700; gt_Balance := 400; gt_SLoad := 200; gt_Calls := 700;
  gt_Suicide := 5000; gt_ExpByte := 10; gt_CreateBySuicide := 25000 |}.
Definition GasTableEIP158 : GasTable := {|
  gt_ExtcodeSize := 700; gt_ExtcodeCopy := 700; gt_Balance := 400; gt_SLoad := 200; gt_Calls := 700;
  gt_Suicide := 5000; gt_ExpByte := 50; gt_CreateBySuicide := 25000 |}.

(** ** [config.go] *)

Record ChainConfig := mkChainConfig {
  ChainId : option Z;
  HomesteadBlock : option Z;
  DAOForkBlock : option Z;
  DAOForkSupport : bool;
  EIP150Block : option Z;
  EIP150Hash : Hash;
  EIP155Block : option Z;
  EIP158Block : option Z;
  MetropolisBlock : option Z;
}.

Definition isForked (s head : option Z) : bool :=
  match s, head with Some s, Some head => s <=? head | _, _ => false end.
Definition configNumEqual (x y : option Z) : bool :=
  match x, y with
  | None, None => true
  | None, Some _ | Some _, None => false
  | Some x, Some y => x =? y
  end.
Definition isForkIncompatible (s1 s2 head : option Z) : bool :=
  (isForked s1 head || isForked s2 head) && negb (configNumEqual s1 s2).

Definition IsHomestead (c : ChainConfig) (num : Z) : bool := isForked (HomesteadBlock c) (Some num).
Definition IsDAOFork (c : ChainConfig) (num : Z) : bool := isForked (DAOForkBlock c) (Some num).
Definition IsEIP150 (c : ChainConfig) (num : Z) : bool := isForked (EIP150Block c) (Some num).
Definition IsEIP155 (c : ChainConfig) (num : Z) : bool := isForked (EIP155Block c) (Some num).
Definition IsEIP158 (c : ChainConfig) (num : Z) : bool := isForked (EIP158Block c) (Some num).
Definition IsMetropolis (c : ChainConfig) (num : Z) : bool := isForked (MetropolisBlock c) (Some num).

(** [ChainConfig.GasTable] *)
Definition gasTable (c : ChainConfig) (num : option Z) : GasTable :=
  match num with
  | None => GasTableHomestead
  | Some num =>
      if IsEIP158 c num then GasTableEIP158
      else if IsEIP150 c num then GasTableHomesteadGasRepriceFork
      else GasTableHomestead
  end.

Record Rules := mkRules {
  r_ChainId : Z;
  r_IsHomestead : bool; r_IsEIP150 : bool; r_IsEIP155 : bool; r_IsEIP158 : bool;
  r_IsMetropolis : bool }.
(** [ChainConfig.Rules] *)
Definition rules (c : ChainConfig) (num : Z) : Rules :=
  mkRules (default 0 (ChainId c)) (IsHomestead c num) (IsEIP150 c num) (IsEIP155 c num)
          (IsEIP158 c num) (IsMetropolis c num).

(** *** Configuration changes

    The error message of a [ConfigCompatError] is the check that raised it. *)
Inductive What :=
| WHomestead | WDAO | WDAOSupport | WEIP150 | WEIP155 | WEIP158 | WChainID | WMetropolis.
Record ConfigCompatError := mkCompatError {
  err_What : What; err_StoredConfig : option Z; err_NewConfig : option Z; err_RewindTo : Z }.

Definition newCompatError (what : What) (storedblock newblock : option Z) : ConfigCompatError :=
  let rew := match storedblock, newblock with
             | None, _ => newblock
             | Some s, None => storedblock
             | Some s, Some n => if s <? n then storedblock else newblock
             end in
  mkCompatError what storedblock newblock
    (match rew with
     | Some r => if Sign r >? 0 then u64 (Uint64 r - 1) else 0
     | None => 0
     end).

Definition checkCompatible (c newcfg : ChainConfig) (head : Z) : option ConfigCompatError :=
  let h := Some head in
  if isForkIncompatible (HomesteadBlock c) (HomesteadBlock newcfg) h
  then Some (newCompatError WHomestead (HomesteadBlock c) (HomesteadBlock newcfg))
  else if isForkIncompatible (DAOForkBlock c) (DAOForkBlock newcfg) h
  then Some (newCompatError WDAO (DAOForkBlock c) (DAOForkBlock newcfg))
  else if IsDAOFork c head && negb (Bool.eqb (DAOForkSupport c) (DAOForkSupport newcfg))
  then Some (newCompatError WDAOSupport (DAOForkBlock c) (DAOForkBlock newcfg))
  else if isForkIncompatible (EIP150Block c) (EIP150Block newcfg) h
  then Some (newCompatError WEIP150 (EIP150Block c) (EIP150Block newcfg))
  else if isForkIncompatible (EIP155Block c) (EIP155Block newcfg) h
  then Some (newCompatError WEIP155 (EIP155Block c) (EIP155Block newcfg))
  else if isForkIncompatible (EIP158Block c) (EIP158Block newcfg) h
  then Some (newCompatError WEIP158 (EIP158Block c) (EIP158Block newcfg))
  else if IsEIP158 c head && negb (configNumEqual (ChainId c) (ChainId newcfg))
  then Some (newCompatError WChainID (EIP158Block c) (EIP158Block newcfg))
  else if isForkIncompatible (MetropolisBlock c) (MetropolisBlock newcfg) h
  then Some (newCompatError WMetropolis (MetropolisBlock c) (MetropolisBlock newcfg))
  else None.

(** The unbounded loop of [CheckCompatible]; [None] when the fuel runs out. *)
Fixpoint compat_loop (fuel : nat) (c newcfg : ChainConfig) (bhead : Z)
    (lasterr : option ConfigCompatError) : option (option ConfigCompatError) :=
  match fuel with
  | O => None
  | S fuel' =>
      match checkCompatible c newcfg bhead with
      | None => Some lasterr
      | Some err =>
          match lasterr with
          | Some last => if err_RewindTo err =? err_RewindTo last then Some lasterr
                         else compat_loop fuel' c newcfg (err_RewindTo err) (Some err)
          | None => compat_loop fuel' c newcfg (err_RewindTo err) (Some err)
          end
      end
  end.
Definition CheckCompatible (fuel : nat) (c newcfg : ChainConfig) (height : Z)
  : option (option ConfigCompatError) := compat_loop fuel c newcfg height None.

(** ** Facts *)

Module ParamsFacts.

Lemma rewind_small what s n head :
  isForked s (Some head) = true \/ isForked n (Some head) = true -> 0 <= head < 2 ^ 64 ->
  let r := err_RewindTo (newCompatError what s n) in
  0 <= r <= head /\ (0 < head -> r < head).
Proof.
  intros H Hh. unfold newCompatError; cbn [err_RewindTo].
  assert (forall r, r <= head ->
    0 <= (if Sign r >? 0 then u64 (Uint64 r - 1) else 0) <= head /\
    (0 < head -> (if Sign r >? 0 then u64 (Uint64 r - 1) else 0) < head)) as Hr.
  { intros r Hr. unfold Sign. assert (Z.sgn r >? 0 = (0 <? r)) as ->.
    { destruct (Z.sgn_spec r) as [[? ->]|[[? ->]|[? ->]]]; lia. }
    destruct (Z.ltb_spec 0 r); [|lia]. unfold Uint64. rewrite Z.abs_eq by lia. rewrite (u64_small r), u64_small by lia. lia. }
  destruct s as [s|], n as [n|]; cbn in H; [destruct (s <? n) eqn:E| | |].
  - apply Hr. lia.
  - apply Hr. lia.
  - apply Hr. destruct H; [lia|done].
  - apply Hr. destruct H; [done|lia].
  - by destruct H.
Qed.

Lemma isForkIncompatible_forked s n head :
  isForkIncompatible s n head = true -> isForked s head = true \/ isForked n head = true.
Proof. unfold isForkIncompatible. destruct (isForked s head), (isForked n head); auto. Qed.

(** A conflict is rewound strictly below the head it was found at. *)
Lemma checkCompatible_rewind c newcfg head e :
  0 <= head < 2 ^ 64 -> checkCompatible c newcfg head = Some e ->
  0 <= err_RewindTo e <= head /\ (0 < head -> err_RewindTo e < head).
Proof.
  intros Hh. unfold checkCompatible.
  repeat match goal with
  | |- (if ?b then _ else _) = Some _ -> _ =>
      let E := fresh "E" in destruct b eqn:E;
      [ intros [= <-]; apply rewind_small; [|exact Hh];
        first [by apply isForkIncompatible_forked | apply andb_prop in E as [E _]; left; exact E] | ]
  end.
  done.
Qed.

Definition compat_post (c newcfg : ChainConfig) (head : Z) (last r : option ConfigCompatError) : Prop :=
  match r with
  | None => last = None /\ checkCompatible c newcfg head = None
  | Some e =>
      (exists h, checkCompatible c newcfg h = Some e \/ last = Some e) /\
      0 <= err_RewindTo e <= head /\
      (checkCompatible c newcfg (err_RewindTo e) = None \/ err_RewindTo e = 0)
  end.

Lemma compat_post_step c newcfg head e last r :
  checkCompatible c newcfg head = Some e -> err_RewindTo e <= head ->
  compat_post c newcfg (err_RewindTo e) (Some e) r -> compat_post c newcfg head last r.
Proof.
  intros E Hle. unfold compat_post. destruct r as [e'|]; [|by intros [??]].
  intros ((h & [Hc|[= <-]]) & Hb & Hd); (split_and!; [|lia|lia|done]); eauto.
Qed.

Lemma compat_loop_spec c newcfg head last fuel :
  0 <= head < 2 ^ 64 -> (Z.to_nat head + 1 < fuel)%nat ->
  (forall l, last = Some l -> err_RewindTo l = head) ->
  exists r, compat_loop fuel c newcfg head last = Some r /\ compat_post c newcfg head last r.
Proof.
  revert head last. induction fuel as [|fuel IH]; intros head last Hh Hf Hl; [lia|]. cbn [compat_loop].
  destruct (checkCompatible c newcfg head) as [e|] eqn:E.
  2:{ exists last. split; [done|]. destruct last as [l|]; [|done].
      split; [exists 0; by right|]. rewrite (Hl l eq_refl). split; [lia|by left]. }
  pose proof (checkCompatible_rewind _ _ _ _ Hh E) as [Hr1 Hr2].
  assert (0 < head ->
    exists r, compat_loop fuel c newcfg (err_RewindTo e) (Some e) = Some r /\
              compat_post c newcfg head last r) as Hrec.
  { intros Hpos. destruct (IH (err_RewindTo e) (Some e)) as (r & Er & Hr); [lia|lia|by intros ? [= <-]|].
    exists r. split; [done|]. eapply compat_post_step; [exact E|lia|done]. }
  destruct last as [l|].
  - pose proof (Hl l eq_refl) as Hll. destruct (Z.eqb_spec (err_RewindTo e) (err_RewindTo l)) as [Heq|Hne].
    + exists (Some l). split; [done|]. split; [exists 0; by right|]. split; [lia|]. right. lia.
    + apply Hrec. lia.
  - destruct (Z.eq_dec head 0) as [->|Hne0]; [|apply Hrec; lia].
    destruct fuel as [|fuel]; [lia|]. assert (err_RewindTo e = 0) as Hr0 by lia.
    cbn [compat_loop]. rewrite Hr0, E, Hr0. cbn. exists (Some e). split; [done|].
    split; [exists 0; by left|]. rewrite Hr0. split; [lia|by right].
Qed.

(** [CheckCompatible] terminates (within height + 2 iterations), reports no error exactly
    when the stored configuration agrees with the new one at the given height, and otherwise
    reports a conflict whose rewind target is a block at or below the height at which the two
    configurations agree, or the genesis block when they already differ there. *)
Theorem CheckCompatible_correct (c newcfg : ChainConfig) (height : Z) (fuel : nat) :
  0 <= height < 2 ^ 64 -> (Z.to_nat height + 2 <= fuel)%nat ->
  exists r, CheckCompatible fuel c newcfg height = Some r /\
    match r with
    | None => checkCompatible c newcfg height = None
    | Some e =>
        (exists h, checkCompatible c newcfg h = Some e) /\
        checkCompatible c newcfg height <> None /\ 0 <= err_RewindTo e <= height /\
        (checkCompatible c newcfg (err_RewindTo e) = None \/ err_RewindTo e = 0)
    end.
Proof.
  intros Hh Hf. destruct (compat_loop_spec c newcfg height None fuel Hh) as (r & E & Hr); [lia|done|].
  exists r. split; [exact E|]. destruct r as [e|]; [|by destruct Hr].
  destruct Hr as ((h & [Hc|[=]]) & Hb & Hd). split_and!; try lia; eauto.
  unfold CheckCompatible in E. destruct fuel; [done|]. cbn in E. intros E'. by rewrite E' in E.
Qed.

Lemma CheckCompatible_correct_witness :
  let c := mkChainConfig None (Some 3) None false None 0 None None None in
  let c' := mkChainConfig None (Some 5) None false None 0 None None None in
  (0 <= 9 < 2 ^ 64) /\
  exists r, CheckCompatible 11 c c' 9 = Some r /\
    match r with
    | None => checkCompatible c c' 9 = None
    | Some e =>
        (exists h, checkCompatible c c' h = Some e) /\
        checkCompatible c c' 9 <> None /\ 0 <= err_RewindTo e <= 9 /\
        (checkCompatible c c' (err_RewindTo e) = None \/ err_RewindTo e = 0)
    end.
Proof. split; [lia|]. apply CheckCompatible_correct; [lia|]. vm_compute. lia. Defined.

Lemma gasTable_cases c num :
  gasTable c num = GasTableHomestead \/ gasTable c num = GasTableHomesteadGasRepriceFork \/
  gasTable c num = GasTableEIP158.
Proof. unfold gasTable. destruct num; [|auto]. repeat case_match; auto. Qed.

End ParamsFacts.
