(* ===== verification/World.v ===== *)
(** * The world state as the virtual machine sees it

    The interface [vm.StateDB] ([core/vm/interface.go]) between the interpreter and the state
    database, with an abstract specification: a [world] is the map from addresses to accounts
    together with the refund counter, the logs and the recorded preimages.  The class
    [StateDBI] lists the operations, the class [StateDBSpec] says what they promise: each
    operation acts on the abstract world as its specification [w_*] does, and reverting to a
    snapshot restores the world the snapshot was taken in.  The interpreter is written and
    verified against these two classes; StateProofs.v discharges them for the
    journalled implementation of State.v. *)

From S2P Require Import Prelude GoMath.

(** ** Cryptographic primitives

    Keccak-256, the secp256k1 public key recovery, SHA-256 and RIPEMD-160 are parameters of
    the model. *)
Class CryptoPrims := {
  Keccak256Hash : list byte -> Hash;
  EcrecoverPub : list byte -> list byte -> option (list byte);
  Sha256 : list byte -> list byte;
  Ripemd160 : list byte -> list byte;
}.

(** What the code relies on: no two codes with the same hash are ever met, so that
    content-addressed caches are sound; a recovered public key has 65 bytes
    (crypto/secp256k1), and the digests have their fixed lengths. *)
Class CryptoOK `{CryptoPrims} : Prop := {
  keccak_inj : Inj (=) (=) Keccak256Hash;
  ecrecover_len h s p : EcrecoverPub h s = Some p -> length p = 65%nat;
  sha256_len d : length (Sha256 d) = 32%nat;
  ripemd160_len d : length (Ripemd160 d) = 20%nat;
}.

(** [crypto.Keccak256]: the digest as 32 bytes. *)
Definition Keccak256 `{CryptoPrims} (data : list byte) : list byte :=
  be_bytes 32 (Keccak256Hash data).
(** [core/state/state_object.go]: [emptyCodeHash = crypto.Keccak256(nil)] *)
Definition emptyCodeHash `{CryptoPrims} : Hash := Keccak256Hash [].

(** ** Logs ([core/types/log.go]) *)
Record Log := mkLog {
  log_Address : Address;
  log_Topics : list Hash;
  log_Data : list byte;
  log_BlockNumber : Z;
  log_TxHash : Hash;
  log_TxIndex : Z;
  log_BlockHash : Hash;
  log_Index : Z;
}.

(** ** Abstract worlds *)

Record acct := Acct {
  ac_nonce : Z;
  ac_balance : Z;
  ac_codehash : Hash;
  ac_code : list byte;
  ac_storage : gmap Hash Hash;   (* only non-zero values *)
  ac_suicided : bool;
}.

(** The part of a log entry that a contract determines. *)
Record evlog := EvLog {
  el_address : Address; el_topics : list Hash; el_data : list byte; el_block : Z }.

Record world := World {
  w_accts : gmap Address acct;
  w_refund : Z;
  w_logs : gmap Hash (list evlog);
  w_preimages : gmap Hash (list byte);
  w_thash : Hash;
}.

Definition set_accts (f : gmap Address acct -> gmap Address acct) (w : world) : world :=
  World (f (w_accts w)) (w_refund w) (w_logs w) (w_preimages w) (w_thash w).
Definition set_refund (r : Z) (w : world) : world :=
  World (w_accts w) r (w_logs w) (w_preimages w) (w_thash w).
Definition set_logs (l : gmap Hash (list evlog)) (w : world) : world :=
  World (w_accts w) (w_refund w) l (w_preimages w) (w_thash w).
Definition set_preimages (p : gmap Hash (list byte)) (w : world) : world :=
  World (w_accts w) (w_refund w) (w_logs w) p (w_thash w).

Definition ac_set_nonce (n : Z) (a : acct) : acct :=
  Acct n (ac_balance a) (ac_codehash a) (ac_code a) (ac_storage a) (ac_suicided a).
Definition ac_set_balance (b : Z) (a : acct) : acct :=
  Acct (ac_nonce a) b (ac_codehash a) (ac_code a) (ac_storage a) (ac_suicided a).
Definition ac_set_code (h : Hash) (c : list byte) (a : acct) : acct :=
  Acct (ac_nonce a) (ac_balance a) h c (ac_storage a) (ac_suicided a).
Definition store_put (k v : Hash) (m : gmap Hash Hash) : gmap Hash Hash :=
  if v =? 0 then delete k m else <[k := v]> m.
Definition ac_set_state (k v : Hash) (a : acct) : acct :=
  Acct (ac_nonce a) (ac_balance a) (ac_codehash a) (ac_code a)
       (store_put k v (ac_storage a)) (ac_suicided a).
Definition ac_set_suicided (b : bool) (a : acct) : acct :=
  Acct (ac_nonce a) (ac_balance a) (ac_codehash a) (ac_code a) (ac_storage a) b.

Section world_spec.
Context `{CryptoPrims}.

Definition new_acct : acct := Acct 0 0 emptyCodeHash [] ∅ false.

(** Apply [f] to the account at [a], creating it first when it does not exist. *)
Definition w_upd (a : Address) (f : acct -> acct) : world -> world :=
  set_accts (fun m => <[a := f (default new_acct (m !! a))]> m).

Definition w_acct (a : Address) (w : world) : option acct := w_accts w !! a.
Definition w_exist (a : Address) (w : world) : bool := bool_decide (is_Some (w_acct a w)).
Definition ac_empty (x : acct) : bool :=
  (ac_nonce x =? 0) && (ac_balance x =? 0) && (ac_codehash x =? emptyCodeHash).
Definition w_empty (a : Address) (w : world) : bool :=
  match w_acct a w with None => true | Some x => ac_empty x end.
Definition w_balance (a : Address) (w : world) : Z :=
  match w_acct a w with None => 0 | Some x => ac_balance x end.
Definition w_nonce (a : Address) (w : world) : Z :=
  match w_acct a w with None => 0 | Some x => ac_nonce x end.
Definition w_code (a : Address) (w : world) : list byte :=
  match w_acct a w with None => [] | Some x => ac_code x end.
Definition w_codehash (a : Address) (w : world) : Hash :=
  match w_acct a w with None => 0 | Some x => ac_codehash x end.
Definition w_state (a : Address) (k : Hash) (w : world) : Hash :=
  match w_acct a w with None => 0 | Some x => default 0 (ac_storage x !! k) end.
Definition w_suicided (a : Address) (w : world) : bool :=
  match w_acct a w with None => false | Some x => ac_suicided x end.

(** A fresh account that keeps the balance of the one it replaces. *)
Definition w_create (a : Address) (w : world) : world :=
  set_accts (fun m => <[a := ac_set_balance (w_balance a w) new_acct]> m) w.
Definition w_add_balance (a : Address) (v : Z) : world -> world :=
  w_upd a (fun x => ac_set_balance (ac_balance x + v) x).
Definition w_sub_balance (a : Address) (v : Z) : world -> world :=
  w_upd a (fun x => ac_set_balance (ac_balance x - v) x).
Definition w_set_nonce (a : Address) (n : Z) : world -> world := w_upd a (ac_set_nonce n).
Definition w_set_code (a : Address) (c : list byte) : world -> world :=
  w_upd a (ac_set_code (Keccak256Hash c) c).
Definition w_set_state (a : Address) (k v : Hash) : world -> world := w_upd a (ac_set_state k v).
Definition w_add_refund (g : Z) (w : world) : world := set_refund (w_refund w + g) w.
(** Suiciding clears the balance; it does nothing to an account that does not exist. *)
Definition w_suicide (a : Address) (w : world) : world :=
  match w_acct a w with
  | None => w
  | Some x => set_accts (fun m => <[a := ac_set_suicided true (ac_set_balance 0 x)]> m) w
  end.
Definition ev_of (l : Log) : evlog :=
  EvLog (log_Address l) (log_Topics l) (log_Data l) (log_BlockNumber l).
Definition w_add_log (l : Log) (w : world) : world :=
  set_logs (<[w_thash w := default [] (w_logs w !! w_thash w) ++ [ev_of l]]> (w_logs w)) w.
Definition w_add_preimage (h : Hash) (d : list byte) (w : world) : world :=
  match w_preimages w !! h with
  | Some _ => w
  | None => set_preimages (<[h := d]> (w_preimages w)) w
  end.

End world_spec.

(** ** The operations ([core/vm/interface.go]: [type StateDB interface])

    A getter may load an account into the live set, so it returns a state too.
    [RevertToSnapshot] is [None] where the code panics. *)
Class StateDBI (S : Type) := {
  CreateAccount : Address -> S -> S;
  SubBalance : Address -> Z -> S -> S;
  AddBalance : Address -> Z -> S -> S;
  GetBalance : Address -> S -> Z * S;
  GetNonce : Address -> S -> Z * S;
  SetNonce : Address -> Z -> S -> S;
  GetCodeHash : Address -> S -> Hash * S;
  GetCode : Address -> S -> list byte * S;
  SetCode : Address -> list byte -> S -> S;
  GetCodeSize : Address -> S -> Z * S;
  AddRefund : Z -> S -> S;
  GetRefund : S -> Z;
  WriteRefund : Z -> S -> S;   (* a write through the pointer that [GetRefund] returns *)
  GetState : Address -> Hash -> S -> Hash * S;
  SetState : Address -> Hash -> Hash -> S -> S;
  Suicide : Address -> S -> bool * S;
  HasSuicided : Address -> S -> bool * S;
  Exist : Address -> S -> bool * S;
  Empty : Address -> S -> bool * S;
  Snapshot : S -> Z * S;
  RevertToSnapshot : Z -> S -> option S;
  AddLog : Log -> S -> S;
  AddPreimage : Hash -> list byte -> S -> S;
}.

(** ** What the operations promise

    [later s s'] says that the revisions valid in [s] are still valid in [s']: [s'] was
    reached from [s] by operations, without reverting past [s]. *)
Section promises.
Context {S : Type} (wf : S -> Prop) (abs : S -> world) (later : S -> S -> Prop).

Definition upd_ok (f : S -> S) (g : world -> world) : Prop :=
  forall s, wf s -> wf (f s) /\ abs (f s) = g (abs s) /\ later s (f s).
Definition get_ok {A} (f : S -> A * S) (g : world -> A) : Prop :=
  forall s, wf s -> (f s).1 = g (abs s) /\ wf (f s).2 /\ abs (f s).2 = abs s /\ later s (f s).2.
End promises.

Class StateDBSpec (S : Type) `{CryptoPrims} `{StateDBI S} := {
  sd_wf : S -> Prop;
  sd_abs : S -> world;
  sd_later : S -> S -> Prop;
  sd_later_refl s : sd_wf s -> sd_later s s;
  sd_later_trans s1 s2 s3 : sd_later s1 s2 -> sd_later s2 s3 -> sd_later s1 s3;
  CreateAccount_ok a : upd_ok sd_wf sd_abs sd_later (CreateAccount a) (w_create a);
  SubBalance_ok a v : upd_ok sd_wf sd_abs sd_later (SubBalance a v) (w_sub_balance a v);
  AddBalance_ok a v : upd_ok sd_wf sd_abs sd_later (AddBalance a v) (w_add_balance a v);
  SetNonce_ok a n : upd_ok sd_wf sd_abs sd_later (SetNonce a n) (w_set_nonce a n);
  SetCode_ok a c : upd_ok sd_wf sd_abs sd_later (SetCode a c) (w_set_code a c);
  SetState_ok a k v : upd_ok sd_wf sd_abs sd_later (SetState a k v) (w_set_state a k v);
  AddRefund_ok g : upd_ok sd_wf sd_abs sd_later (AddRefund g) (w_add_refund g);
  AddLog_ok l : upd_ok sd_wf sd_abs sd_later (AddLog l) (w_add_log l);
  AddPreimage_ok h d : upd_ok sd_wf sd_abs sd_later (AddPreimage h d) (w_add_preimage h d);
  Suicide_ok a : upd_ok sd_wf sd_abs sd_later (fun s => (Suicide a s).2) (w_suicide a);
  GetBalance_ok a : get_ok sd_wf sd_abs sd_later (GetBalance a) (w_balance a);
  GetNonce_ok a : get_ok sd_wf sd_abs sd_later (GetNonce a) (w_nonce a);
  GetCodeHash_ok a : get_ok sd_wf sd_abs sd_later (GetCodeHash a) (w_codehash a);
  GetCode_ok a : get_ok sd_wf sd_abs sd_later (GetCode a) (w_code a);
  GetCodeSize_ok a : get_ok sd_wf sd_abs sd_later (GetCodeSize a) (fun w => zlen (w_code a w));
  GetState_ok a k : get_ok sd_wf sd_abs sd_later (GetState a k) (w_state a k);
  HasSuicided_ok a : get_ok sd_wf sd_abs sd_later (HasSuicided a) (w_suicided a);
  Exist_ok a : get_ok sd_wf sd_abs sd_later (Exist a) (w_exist a);
  Empty_ok a : get_ok sd_wf sd_abs sd_later (Empty a) (w_empty a);
  GetRefund_ok s : sd_wf s -> GetRefund s = w_refund (sd_abs s);
  WriteRefund_ok v s :
    sd_wf s -> sd_wf (WriteRefund v s) /\ sd_abs (WriteRefund v s) = set_refund v (sd_abs s);
  Snapshot_ok s id s1 :
    sd_wf s -> Snapshot s = (id, s1) ->
    sd_wf s1 /\ sd_abs s1 = sd_abs s /\ sd_later s s1 /\
    (forall s2, sd_wf s2 -> sd_later s1 s2 ->
       exists s3, RevertToSnapshot id s2 = Some s3 /\
                  sd_wf s3 /\ sd_abs s3 = sd_abs s /\ sd_later s s3);
  sd_code_hash s a x :
    sd_wf s -> w_accts (sd_abs s) !! a = Some x -> ac_codehash x = Keccak256Hash (ac_code x);
}.
