(* ===== verification/WorldFacts.v ===== *)
(** * Invariants of abstract worlds

    The total supply of a world, the invariant the virtual machine relies on (balances are not
    negative, the supply and the stored values fit in 256 bits), and their preservation by the
    operations the machine performs. *)

From S2P Require Import Prelude GoMath World.

Module WorldFacts.
Section facts.
Context `{C : CryptoPrims}.

(** ** Supply *)

Definition bal_sum (m : gmap Address acct) : Z := map_fold (fun _ x t => ac_balance x + t) 0 m.
Definition supply (w : world) : Z := bal_sum (w_accts w).

Lemma bal_sum_insert m a x : m !! a = None -> bal_sum (<[a := x]> m) = ac_balance x + bal_sum m.
Proof. intros H. unfold bal_sum. rewrite map_fold_insert_L; [done|intros; lia|done]. Qed.
Lemma bal_sum_delete m a x : m !! a = Some x -> bal_sum m = ac_balance x + bal_sum (delete a m).
Proof. intros H. unfold bal_sum. rewrite (map_fold_delete_L _ _ a x m); [done|intros; lia|done]. Qed.
Lemma bal_sum_nonneg m : map_Forall (fun _ x => 0 <= ac_balance x) m -> 0 <= bal_sum m.
Proof.
  induction m as [|a x m Ha IH] using map_ind; intros Hm; [done|].
  rewrite bal_sum_insert by done. apply map_Forall_insert in Hm as [H1 H2]; [|done].
  specialize (IH H2). lia.
Qed.

(** Replacing the account at [a] changes the supply by the difference of the balances. *)
Lemma supply_set a x w :
  supply (set_accts (fun m => <[a := x]> m) w) = supply w - w_balance a w + ac_balance x.
Proof.
  unfold supply, w_balance, w_acct; cbn. destruct (w_accts w !! a) as [y|] eqn:E.
  - rewrite <- insert_delete_eq, bal_sum_insert by apply lookup_delete_eq.
    rewrite (bal_sum_delete _ _ _ E). lia.
  - rewrite bal_sum_insert by done. lia.
Qed.

Lemma supply_upd a g w :
  (forall x, ac_balance (g x) = ac_balance x) -> supply (w_upd a g w) = supply w.
Proof.
  intros Hg. unfold w_upd.
  assert (set_accts (fun m => <[a := g (default new_acct (m !! a))]> m) w
    = set_accts (fun m => <[a := g (default new_acct (w_accts w !! a))]> m) w) as -> by done.
  rewrite supply_set, Hg. unfold w_balance, w_acct. destruct (w_accts w !! a); cbn; lia.
Qed.

(** ** The invariant *)

Record acct_inv (x : acct) : Prop := {
  ai_balance : 0 <= ac_balance x;
  ai_storage k v : ac_storage x !! k = Some v -> in_u256 v;
  ai_code : zlen (ac_code x) < 2 ^ 62 }.
Record world_inv (w : world) : Prop := {
  wi_accts : map_Forall (fun _ => acct_inv) (w_accts w);
  wi_supply : supply w < 2 ^ 256 }.

(** What an execution may do to a world. *)
Record wrel (w w' : world) : Prop := {
  wr_supply : supply w' <= supply w;
  wr_refund : w_refund w <= w_refund w';
  wr_thash : w_thash w' = w_thash w }.

Lemma wrel_refl w : wrel w w.
Proof. split; done || lia. Qed.
Lemma wrel_trans w1 w2 w3 : wrel w1 w2 -> wrel w2 w3 -> wrel w1 w3.
Proof. intros [] []. split; [lia|lia|congruence]. Qed.

Lemma new_acct_inv : acct_inv new_acct.
Proof. by split. Qed.

Lemma balance_le_supply a w : world_inv w -> 0 <= w_balance a w <= supply w.
Proof.
  intros [Ha _]. unfold w_balance, w_acct, supply.
  assert (map_Forall (fun _ x => 0 <= ac_balance x) (w_accts w)) as Hb
    by (eapply map_Forall_impl; [exact Ha|]; by intros ? ? []).
  destruct (w_accts w !! a) as [x|] eqn:E.
  - rewrite (bal_sum_delete _ _ _ E). pose proof (Hb _ _ E) as Hx; cbn beta in Hx.
    assert (0 <= bal_sum (delete a (w_accts w))); [|lia].
    apply bal_sum_nonneg. by apply map_Forall_delete.
  - pose proof (bal_sum_nonneg _ Hb). lia.
Qed.
Lemma balance_range a w : world_inv w -> in_u256 (w_balance a w).
Proof. intros H. pose proof (balance_le_supply a w H). destruct H. unfold in_u256. lia. Qed.
Lemma state_range a k w : world_inv w -> in_u256 (w_state a k w).
Proof.
  intros [Ha _]. unfold w_state, w_acct. destruct (w_accts w !! a) as [x|] eqn:E; [|unfold in_u256; lia].
  destruct (ac_storage x !! k) as [v|] eqn:Ev; cbn; [|unfold in_u256; lia].
  by eapply (ai_storage x (Ha _ _ E)).
Qed.
Lemma code_range a w : world_inv w -> zlen (w_code a w) < 2 ^ 62.
Proof.
  intros [Ha _]. unfold w_code, w_acct. destruct (w_accts w !! a) as [x|] eqn:E; [|done].
  by apply (Ha _ _ E).
Qed.

Lemma acct_inv_at a w : world_inv w -> acct_inv (default new_acct (w_accts w !! a)).
Proof.
  intros [Ha _]. destruct (w_accts w !! a) as [x|] eqn:E; [by apply (Ha _ _ E)|apply new_acct_inv].
Qed.

(** An update of one account that does not touch balances. *)
Lemma w_upd_inv a g w :
  (forall x, ac_balance (g x) = ac_balance x) -> (forall x, acct_inv x -> acct_inv (g x)) ->
  world_inv w -> world_inv (w_upd a g w) /\ wrel w (w_upd a g w).
Proof.
  intros Hb Hg Hw. pose proof (supply_upd a g w Hb) as Hs. split; [split|split]; try done; try lia.
  - apply map_Forall_insert_2; [|apply Hw]. apply Hg. by apply acct_inv_at.
  - rewrite Hs. apply Hw.
Qed.

Lemma w_set_nonce_inv a n w : world_inv w -> world_inv (w_set_nonce a n w) /\ wrel w (w_set_nonce a n w).
Proof. apply w_upd_inv; [done|]. intros x []. by split. Qed.
Lemma w_set_code_inv a c w :
  zlen c < 2 ^ 62 -> world_inv w -> world_inv (w_set_code a c w) /\ wrel w (w_set_code a c w).
Proof. intros Hc. apply w_upd_inv; [done|]. intros x []. by split. Qed.
Lemma w_set_state_inv a k v w :
  in_u256 v -> world_inv w -> world_inv (w_set_state a k v w) /\ wrel w (w_set_state a k v w).
Proof.
  intros Hv. apply w_upd_inv; [done|]. intros x [Hb Hs Hc]. split; cbn; try done.
  intros k' v'. unfold store_put. destruct (v =? 0).
  - intros [_ H]%lookup_delete_Some. by eapply Hs.
  - intros [[-> <-]|[_ H]]%lookup_insert_Some; [done|by eapply Hs].
Qed.

Lemma w_create_inv a w : world_inv w -> world_inv (w_create a w) /\ wrel w (w_create a w).
Proof.
  intros Hw. pose proof (balance_le_supply a w Hw) as Hb.
  assert (supply (w_create a w) = supply w) as Hs by (unfold w_create; rewrite supply_set; cbn; lia).
  split; [split|split]; try done; try lia.
  - apply map_Forall_insert_2; [|apply Hw]. split; cbn; [lia| |done].
    intros k v H. by rewrite lookup_empty in H.
  - rewrite Hs. apply Hw.
Qed.

(** Moving [v] from [a] to [b] keeps the supply. *)
Lemma w_balance_upd_ne a b g w : a <> b -> w_balance a (w_upd b g w) = w_balance a w.
Proof. intros H. unfold w_balance, w_acct, w_upd; cbn. by rewrite lookup_insert_ne. Qed.
Lemma w_balance_upd_eq a g w :
  w_balance a (w_upd a g w) = ac_balance (g (default new_acct (w_accts w !! a))).
Proof. unfold w_balance, w_acct, w_upd; cbn. by rewrite lookup_insert_eq. Qed.
Lemma supply_balance_upd a g d w :
  (forall x, ac_balance (g x) = ac_balance x + d) -> supply (w_upd a g w) = supply w + d.
Proof.
  intros Hg. change (w_upd a g w)
    with (set_accts (fun m => <[a := g (default new_acct (w_accts w !! a))]> m) w).
  rewrite supply_set, Hg. unfold w_balance, w_acct. destruct (w_accts w !! a); cbn; lia.
Qed.

Lemma upd_balance_accts a g d w :
  (forall x, g x = ac_set_balance (ac_balance x + d) x) -> 0 <= w_balance a w + d ->
  map_Forall (fun _ => acct_inv) (w_accts w) -> map_Forall (fun _ => acct_inv) (w_accts (w_upd a g w)).
Proof.
  intros Hg Hd Hw. apply map_Forall_insert_2; [|done]. rewrite Hg.
  unfold w_balance, w_acct in Hd. destruct (w_accts w !! a) as [x|] eqn:E; cbn [default].
  - destruct (Hw _ _ E). by split.
  - split; cbn; [lia| |done]. intros k v H. by rewrite lookup_empty in H.
Qed.

Lemma transfer_inv a b v w :
  0 <= v <= w_balance a w -> world_inv w ->
  world_inv (w_add_balance b v (w_sub_balance a v w)) /\
  wrel w (w_add_balance b v (w_sub_balance a v w)).
Proof.
  intros Hv Hw.
  assert (supply (w_add_balance b v (w_sub_balance a v w)) = supply w) as Hs.
  { unfold w_add_balance. rewrite (supply_balance_upd b _ v) by done.
    unfold w_sub_balance. rewrite (supply_balance_upd a _ (- v)) by (intros; cbn; lia). lia. }
  split; [split|split]; try done; try lia; [|rewrite Hs; apply Hw].
  assert (map_Forall (fun _ => acct_inv) (w_accts (w_sub_balance a v w))) as H1.
  { apply (upd_balance_accts a _ (- v)); [intros; f_equal; lia|lia|apply Hw]. }
  apply (upd_balance_accts b _ v); [done| |done].
  assert (0 <= w_balance b (w_sub_balance a v w)); [|lia].
  unfold w_balance, w_acct. destruct (_ !! b) as [x|] eqn:E; [|lia]. apply (H1 _ _ E).
Qed.

(** Self-destruction moves the balance, or burns it when the heir is the contract itself. *)
Lemma suicide_inv a b w :
  world_inv w ->
  world_inv (w_suicide a (w_add_balance b (w_balance a w) w)) /\
  wrel w (w_suicide a (w_add_balance b (w_balance a w) w)).
Proof.
  intros Hw. pose proof (balance_le_supply a w Hw) as Hb. pose proof (balance_le_supply b w Hw) as Hb'.
  set (w1 := w_add_balance b (w_balance a w) w).
  assert (supply w1 = supply w + w_balance a w) as Hs1
    by (unfold w1, w_add_balance; by rewrite (supply_balance_upd b _ (w_balance a w))).
  assert (map_Forall (fun _ => acct_inv) (w_accts w1)) as H1.
  { apply (upd_balance_accts b _ (w_balance a w)); [done|lia|apply Hw]. }
  assert (w_balance a w <= w_balance a w1) as Hba.
  { destruct (decide (a = b)) as [->|Hne].
    - unfold w1, w_add_balance. rewrite w_balance_upd_eq. cbn.
      unfold w_balance, w_acct. destruct (w_accts w !! b) as [x|] eqn:E; cbn; [|lia].
      pose proof (ai_balance x (wi_accts w Hw _ _ E)). lia.
    - unfold w1, w_add_balance. rewrite w_balance_upd_ne by done. lia. }
  assert (map_Forall (fun _ => acct_inv) (w_accts (w_suicide a w1)) /\ supply (w_suicide a w1) <= supply w)
    as [H2 Hs2].
  { unfold w_suicide, w_acct. destruct (w_accts w1 !! a) as [x|] eqn:E.
    - split.
      + apply map_Forall_insert_2; [|done]. destruct (H1 _ _ E). split; cbn; try done. 
      + rewrite supply_set. cbn. lia.
    - split; [done|]. unfold w_balance at 2, w_acct in Hba. rewrite E in Hba. lia. }
  split; [split; [done|]|split; [done| |]].
  - pose proof (wi_supply w Hw). lia.
  - unfold w_suicide, w_acct. by destruct (_ !! a).
  - unfold w_suicide, w_acct. by destruct (_ !! a).
Qed.

Lemma w_add_refund_inv g w :
  0 <= g -> world_inv w -> world_inv (w_add_refund g w) /\ wrel w (w_add_refund g w).
Proof. intros Hg []. split; [by split|]. split; cbn; done || lia. Qed.
Lemma w_add_log_inv l w : world_inv w -> world_inv (w_add_log l w) /\ wrel w (w_add_log l w).
Proof. intros []. split; [by split|]. split; cbn; done || lia. Qed.
Lemma w_add_preimage_inv h d w :
  world_inv w -> world_inv (w_add_preimage h d w) /\ wrel w (w_add_preimage h d w).
Proof.
  intros Hw. unfold w_add_preimage. destruct (w_preimages w !! h); [split; [done|apply wrel_refl]|].
  destruct Hw. split; [by split|]. split; cbn; done || lia.
Qed.
End facts.
End WorldFacts.
