(* ===== verification/Rlp.v ===== *)
(** * [rlp]: encoding and raw splitting

    The encoder of [rlp/encode.go], with its buffer that keeps list headers apart from the
    string data and two of its ways out ([toBytes], [toWriter]), and the raw reader of
    [rlp/raw.go].  The reflective type dispatch of [makeWriter] is the constructor of a
    [value]; pointers are represented by what they point to.  The specification is the
    recursive encoding of nested byte strings ([rlp]). *)

From S2P Require Import Prelude GoMath World.

Module Rlp.

(** ** Values, by the writer that encodes them ([makeWriter]) *)

Inductive value :=
| VRawValue (b : list byte)          (* writeRawValue *)
| VUint (i : Z)                      (* writeUint: an unsigned integer, 64 bits at most *)
| VBool (b : bool)                   (* writeBool *)
| VBigInt (i : option Z)             (* writeBigIntPtr, writeBigIntNoPtr *)
| VBytes (b : list byte)             (* writeBytes, writeByteArray, writeString *)
| VNilInterface                      (* writeInterface of nil *)
| VSlice (tail : bool) (l : list value)   (* makeSliceWriter *)
| VStruct (fields : list value)      (* makeStructWriter *)
| VNilStruct                         (* makePtrWriter: nil pointer to a struct or array *)
| VNilByteArray.                     (* makePtrWriter: nil pointer to a byte array *)

Definition b8 : Z -> byte := byte_of_Z.

(** ** Integers *)

Definition putint (i : Z) : list byte :=
  if i <? Z.shiftl 1 8 then [b8 i]
  else if i <? Z.shiftl 1 16 then [b8 (Z.shiftr i 8); b8 i]
  else if i <? Z.shiftl 1 24 then [b8 (Z.shiftr i 16); b8 (Z.shiftr i 8); b8 i]
  else if i <? Z.shiftl 1 32 then
    [b8 (Z.shiftr i 24); b8 (Z.shiftr i 16); b8 (Z.shiftr i 8); b8 i]
  else if i <? Z.shiftl 1 40 then
    [b8 (Z.shiftr i 32); b8 (Z.shiftr i 24); b8 (Z.shiftr i 16); b8 (Z.shiftr i 8); b8 i]
  else if i <? Z.shiftl 1 48 then
    [b8 (Z.shiftr i 40); b8 (Z.shiftr i 32); b8 (Z.shiftr i 24); b8 (Z.shiftr i 16);
     b8 (Z.shiftr i 8); b8 i]
  else if i <? Z.shiftl 1 56 then
    [b8 (Z.shiftr i 48); b8 (Z.shiftr i 40); b8 (Z.shiftr i 32); b8 (Z.shiftr i 24);
     b8 (Z.shiftr i 16); b8 (Z.shiftr i 8); b8 i]
  else
    [b8 (Z.shiftr i 56); b8 (Z.shiftr i 48); b8 (Z.shiftr i 40); b8 (Z.shiftr i 32);
     b8 (Z.shiftr i 24); b8 (Z.shiftr i 16); b8 (Z.shiftr i 8); b8 i].

(** [for size = 1; ; size++ { if i >>= 8; i == 0 { return size } }]: a [uint64] leaves the loop
    after at most eight rounds. *)
Fixpoint intsize_loop (fuel : nat) (i size : Z) : Z :=
  match fuel with
  | O => size
  | S fuel' => let i := Z.shiftr i 8 in if i =? 0 then size else intsize_loop fuel' i (size + 1)
  end.
Definition intsize (i : Z) : Z := intsize_loop 8 i 1.

Definition headsize (size : Z) : Z := if size <? 56 then 1 else 1 + intsize size.

(** The bytes [puthead] writes. *)
Definition puthead (smalltag largetag : Z) (size : Z) : list byte :=
  if size <? 56 then [b8 (smalltag + size)]
  else let enc := putint size in b8 (largetag + zlen enc) :: enc.

(** ** The buffer *)

Record listhead := mkHead { lh_offset : nat; lh_size : Z }.
Record encbuf := mkBuf { str : list byte; lheads : list listhead; lhsize : Z }.

Definition reset : encbuf := mkBuf [] [] 0.
Definition Write (b : list byte) (w : encbuf) : encbuf := mkBuf (str w ++ b) (lheads w) (lhsize w).
Definition size (w : encbuf) : Z := zlen (str w) + lhsize w.
Definition head_encode (h : listhead) : list byte := puthead 0xC0 0xF7 (lh_size h).

Definition encodeStringHeader (n : Z) (w : encbuf) : encbuf :=
  if n <? 56 then Write [b8 (0x80 + n)] w
  else let enc := putint n in Write (b8 (0xB7 + zlen enc) :: enc) w.
Definition encodeString (b : list byte) (w : encbuf) : encbuf :=
  match b with
  | [x] => if byte_to_Z x <=? 0x7F then Write [x] w
           else Write b (encodeStringHeader (zlen b) w)
  | _ => Write b (encodeStringHeader (zlen b) w)
  end.

(** [list] returns the index of the header it appended. *)
Definition list_begin (w : encbuf) : nat * encbuf :=
  (length (lheads w), mkBuf (str w) (lheads w ++ [mkHead (length (str w)) (lhsize w)]) (lhsize w)).
Definition listEnd (i : nat) (w : encbuf) : encbuf :=
  match lheads w !! i with
  | None => w
  | Some lh =>
      let n := size w - Z.of_nat (lh_offset lh) - lh_size lh in
      mkBuf (str w) (<[i := mkHead (lh_offset lh) n]> (lheads w))
            (if n <? 56 then lhsize w + 1 else lhsize w + (1 + intsize n))
  end.

(** ** Writers

    The boolean is [err == nil]. *)

Definition writeUint (i : Z) (w : encbuf) : encbuf :=
  if i =? 0 then Write [Byte.x80] w
  else if i <? 128 then Write [b8 i] w
  else let enc := putint i in Write (b8 (0x80 + zlen enc) :: enc) w.
Definition writeBool (b : bool) (w : encbuf) : encbuf :=
  Write [if b then Byte.x01 else Byte.x80] w.
Definition writeBigInt (i : Z) (w : encbuf) : encbuf * bool :=
  if i <? 0 then (w, false)
  else if i =? 0 then (Write [Byte.x80] w, true)
  else (encodeString (Bytes i) w, true).

Fixpoint writer (v : value) (w : encbuf) : encbuf * bool :=
  let fix elems (l : list value) (w : encbuf) : encbuf * bool :=
    match l with
    | [] => (w, true)
    | x :: l' => let '(w, ok) := writer x w in if ok then elems l' w else (w, false)
    end in
  match v with
  | VRawValue b => (Write b w, true)
  | VUint i => (writeUint i w, true)
  | VBool b => (writeBool b w, true)
  | VBigInt None => (Write [Byte.x80] w, true)
  | VBigInt (Some i) => writeBigInt i w
  | VBytes b => (encodeString b w, true)
  | VNilInterface => (Write [Byte.xc0] w, true)
  | VSlice tail l =>
      if tail then elems l w
      else (* the deferred listEnd also runs on errors *)
        let '(h, w) := list_begin w in let '(w, ok) := elems l w in (listEnd h w, ok)
  | VStruct l =>
      let '(h, w) := list_begin w in let '(w, ok) := elems l w in
      if ok then (listEnd h w, true) else (w, false)
  | VNilStruct => let '(h, w) := list_begin w in (listEnd h w, true)
  | VNilByteArray => (Write [Byte.x80] w, true)
  end.
Fixpoint writers (l : list value) (w : encbuf) : encbuf * bool :=
  match l with
  | [] => (w, true)
  | x :: l' => let '(w, ok) := writer x w in if ok then writers l' w else (w, false)
  end.

(** ** Output *)

(** Writing [b] into [out] at [pos]; [None] is an index panic. *)
Definition put_at (out : list byte) (pos : nat) (b : list byte) : option (list byte) :=
  if (pos + length b <=? length out)%nat then Some (copy_at out pos b) else None.

Fixpoint toBytes_loop (s : list byte) (heads : list listhead) (out : list byte) (pos strpos : nat)
  : option (list byte) :=
  match heads with
  | [] => match slice out (Z.of_nat pos) (zlen out), slice s (Z.of_nat strpos) (zlen s) with
          | Some _, Some rest => Some (copy_at out pos rest)
          | _, _ => None
          end
  | head :: heads' =>
      match slice out (Z.of_nat pos) (zlen out), slice s (Z.of_nat strpos) (Z.of_nat (lh_offset head)) with
      | Some room, Some piece =>
          let n := Nat.min (length room) (length piece) in
          let out := copy_at out pos piece in
          let pos := (pos + n)%nat in
          let strpos := (strpos + n)%nat in
          match put_at out pos (head_encode head) with
          | None => None
          | Some out => toBytes_loop s heads' out (pos + length (head_encode head)) strpos
          end
      | _, _ => None
      end
  end.
Definition toBytes (w : encbuf) : option (list byte) :=
  toBytes_loop (str w) (lheads w) (zeros (Z.to_nat (size w))) 0 0.

(** [toWriter] to a writer that accepts everything: the pieces written. *)
Fixpoint toWriter_loop (s : list byte) (heads : list listhead) (strpos : nat) : option (list (list byte)) :=
  match heads with
  | [] => if (strpos <? length s)%nat then
            match slice s (Z.of_nat strpos) (zlen s) with Some p => Some [p] | None => None end
          else Some []
  | head :: heads' =>
      if (strpos <? lh_offset head)%nat then
        match slice s (Z.of_nat strpos) (Z.of_nat (lh_offset head)) with
        | None => None
        | Some p => (fun ps => p :: head_encode head :: ps)
                      <$> toWriter_loop s heads' (strpos + length p)
        end
      else (fun ps => head_encode head :: ps) <$> toWriter_loop s heads' strpos
  end.
Definition toWriter (w : encbuf) : option (list (list byte)) := toWriter_loop (str w) (lheads w) 0.

(** [EncodeToBytes]: [None] is an error or a panic. *)
Definition EncodeToBytes (v : value) : option (list byte) :=
  let '(w, ok) := writer v reset in if ok then toBytes w else None.

(** ** Raw splitting ([raw.go]) *)

Inductive Kind := KByte | KString | KList.
Inductive rlpError := ErrUnexpectedEOF | ErrCanonSize | ErrValueTooLarge | ErrExpectedString | ErrExpectedList.
(** A Go call that may return an error or panic. *)
Inductive result (A : Type) := Ok (a : A) | Err (e : rlpError) | IndexPanic.
#[global] Arguments Ok {A} a.
#[global] Arguments Err {A} e.
#[global] Arguments IndexPanic {A}.

Definition readSize (b : list byte) (slen : Z) : result Z :=
  if slen >? zlen b then Err ErrUnexpectedEOF
  else
    let s := fold_left (fun acc x => Z.lor (Z.shiftl acc 8) (byte_to_Z x)) (take (Z.to_nat slen) b) 0 in
    if s <? 56 then Err ErrCanonSize
    else match b with
         | [] => IndexPanic
         | b0 :: _ => if byte_to_Z b0 =? 0 then Err ErrCanonSize else Ok s
         end.

Definition check_room (buf : list byte) (k : Kind) (tagsize contentsize : Z) : result (Kind * Z * Z) :=
  if contentsize >? u64 (zlen buf - tagsize) then Err ErrValueTooLarge else Ok (k, tagsize, contentsize).

Definition readKind (buf : list byte) : result (Kind * Z * Z) :=
  match buf with
  | [] => Err ErrUnexpectedEOF
  | b0 :: rest =>
      let b := byte_to_Z b0 in
      if b <? 0x80 then check_room buf KByte 0 1
      else if b <? 0xB8 then
        let contentsize := b - 0x80 in
        if contentsize =? 1 then
          match rest with
          | [] => IndexPanic
          | b1 :: _ => if byte_to_Z b1 <? 128 then Err ErrCanonSize else check_room buf KString 1 1
          end
        else check_room buf KString 1 contentsize
      else if b <? 0xC0 then
        match readSize rest (b - 0xB7) with
        | Ok contentsize => check_room buf KString (b - 0xB7 + 1) contentsize
        | Err e => Err e
        | IndexPanic => IndexPanic
        end
      else if b <? 0xF8 then check_room buf KList 1 (b - 0xC0)
      else
        match readSize rest (b - 0xF7) with
        | Ok contentsize => check_room buf KList (b - 0xF7 + 1) contentsize
        | Err e => Err e
        | IndexPanic => IndexPanic
        end
  end.

Definition Split (b : list byte) : result (Kind * list byte * list byte) :=
  match readKind b with
  | Ok (k, ts, cs) =>
      match slice b ts (u64 (ts + cs)), slice b (u64 (ts + cs)) (zlen b) with
      | Some content, Some rest => Ok (k, content, rest)
      | _, _ => IndexPanic
      end
  | Err e => Err e
  | IndexPanic => IndexPanic
  end.
Definition SplitString (b : list byte) : result (list byte * list byte) :=
  match Split b with
  | Ok (KList, _, _) => Err ErrExpectedString
  | Ok (_, content, rest) => Ok (content, rest)
  | Err e => Err e
  | IndexPanic => IndexPanic
  end.
Definition SplitList (b : list byte) : result (list byte * list byte) :=
  match Split b with
  | Ok (KList, content, rest) => Ok (content, rest)
  | Ok _ => Err ErrExpectedList
  | Err e => Err e
  | IndexPanic => IndexPanic
  end.

(** Every round of [CountValues] consumes at least one byte: [len(b)] rounds are enough. *)
Fixpoint count_loop (fuel : nat) (b : list byte) (i : Z) : result Z :=
  match b, fuel with
  | [], _ => Ok i
  | _, O => IndexPanic
  | _, S fuel' =>
      match readKind b with
      | Ok (_, tagsize, n) =>
          match slice b (u64 (tagsize + n)) (zlen b) with
          | Some b => count_loop fuel' b (i + 1)
          | None => IndexPanic
          end
      | Err e => Err e
      | IndexPanic => IndexPanic
      end
  end.
Definition CountValues (b : list byte) : result Z := count_loop (length b) b 0.

Definition ListSize (contentSize : Z) : Z := u64 (headsize contentSize + contentSize).

(** ** [crypto.CreateAddress]

    The error of [EncodeToBytes] is ignored: the data is then nil. *)
Definition CreateAddress `{CryptoPrims} (b : Address) (nonce : Z) : Address :=
  let data := default [] (EncodeToBytes (VSlice false [VBytes (be_bytes 20 b); VUint nonce])) in
  BytesToAddress (drop 12 (Keccak256 data)).

(** ** Specification *)

Inductive item := Raw (b : list byte) | Str (b : list byte) | Lst (l : list item).

Fixpoint rlp (x : item) : list byte :=
  match x with
  | Raw b => b
  | Str [b] => if byte_to_Z b <=? 0x7F then [b] else puthead 0x80 0xB7 1 ++ [b]
  | Str b => puthead 0x80 0xB7 (zlen b) ++ b
  | Lst l => let body := concat (map rlp l) in puthead 0xC0 0xF7 (zlen body) ++ body
  end.

(** What a value stands for; the elements of a tail slice are spliced into their parent. *)
Fixpoint items (v : value) : list item :=
  match v with
  | VRawValue b => [Raw b]
  | VUint i => [Str (Bytes i)]
  | VBool b => [Str (if b then [Byte.x01] else [])]
  | VBigInt None => [Str []]
  | VBigInt (Some i) => [Str (Bytes i)]
  | VBytes b => [Str b]
  | VNilInterface => [Lst []]
  | VSlice true l => flat_map items l
  | VSlice false l => [Lst (flat_map items l)]
  | VStruct l => [Lst (flat_map items l)]
  | VNilStruct => [Lst []]
  | VNilByteArray => [Str []]
  end.

(** Values that [encode] accepts: no negative integers. *)
Fixpoint encodable (v : value) : bool :=
  match v with
  | VBigInt (Some i) => 0 <=? i
  | VSlice _ l => forallb encodable l
  | VStruct l => forallb encodable l
  | _ => true
  end.
(** Unsigned integers fit in 64 bits. *)
Fixpoint uints_ok (v : value) : bool :=
  match v with
  | VUint i => (0 <=? i) && (i <? 2 ^ 64)
  | VSlice _ l => forallb uints_ok l
  | VStruct l => forallb uints_ok l
  | _ => true
  end.

End Rlp.
