(* ===== verification/RlpProofs.v ===== *)
(** * Correctness of the RLP encoder and of raw splitting

    The buffered encoder of [encode.go] produces the recursive encoding whatever the nesting,
    through each of its outputs, and [raw.go] splits an encoding back into its content. *)

From S2P Require Import Prelude GoMath World Rlp.

Module RlpProofs.
Import Rlp.

(** Induction over nested values. *)
Section value_ind.
Context (P : value -> Prop)
  (HRaw : forall b, P (VRawValue b)) (HUint : forall i, P (VUint i)) (HBool : forall b, P (VBool b))
  (HBig : forall i, P (VBigInt i)) (HBytes : forall b, P (VBytes b)) (HNI : P VNilInterface)
  (HSlice : forall t l, Forall P l -> P (VSlice t l)) (HStruct : forall l, Forall P l -> P (VStruct l))
  (HNS : P VNilStruct) (HNB : P VNilByteArray).
Fixpoint value_nested_ind (v : value) : P v :=
  let fix all (l : list value) : Forall P l :=
    match l with
    | [] => Forall_nil_2 P
    | x :: l' => Forall_cons_2 P x l' (value_nested_ind x) (all l')
    end in
  match v with
  | VRawValue b => HRaw b | VUint i => HUint i | VBool b => HBool b | VBigInt i => HBig i
  | VBytes b => HBytes b | VNilInterface => HNI | VSlice t l => HSlice t l (all l)
  | VStruct l => HStruct l (all l) | VNilStruct => HNS | VNilByteArray => HNB
  end.
End value_ind.

(** ** Integers *)

(** [k] is the number of bytes of [i]. *)
Definition nbytes (i : Z) (k : nat) : Prop := 256 ^ (Z.of_nat k - 1) <= i < 256 ^ Z.of_nat k.

Lemma nbytes_Bytes i k : (0 < k)%nat -> nbytes i k -> Bytes i = be_bytes k i.
Proof.
  intros Hk [H1 H2]. unfold Bytes.
  assert (0 < i) by (pose proof (Z.pow_pos_nonneg 256 (Z.of_nat k - 1)); lia).
  rewrite Z.abs_eq by lia. f_equal.
  assert (BitLen i <= 8 * Z.of_nat k).
  { apply BitLen_bound; [lia..|]. rewrite Z.pow_mul_r by lia. exact H2. }
  assert (8 * (Z.of_nat k - 1) < BitLen i).
  { apply Z.nle_gt. rewrite BitLen_bound by lia. rewrite Z.pow_mul_r by lia.
    change (2 ^ 8) with 256. lia. }
  assert ((BitLen i + 7) / 8 = Z.of_nat k) as ->; [|lia].
  symmetry. apply Z.div_unique with (BitLen i + 7 - 8 * Z.of_nat k); lia.
Qed.

Lemma intsize_loop_spec fuel i n :
  0 <= i < 256 ^ Z.of_nat fuel -> (0 < fuel)%nat ->
  exists k, (0 < k <= fuel)%nat /\ (0 < i -> nbytes i k) /\ (i = 0 -> k = 1%nat) /\
            intsize_loop fuel i n = n + Z.of_nat k - 1.
Proof.
  revert i n. induction fuel as [|fuel IH]; intros i n Hi Hf; [lia|]. cbn [intsize_loop].
  rewrite Z.shiftr_div_pow2 by lia. change (2 ^ 8) with 256.
  destruct (Z.eqb_spec (i / 256) 0) as [E|E].
  - apply Z.div_small_iff in E; [|lia]. exists 1%nat. unfold nbytes. cbn. split_and!; lia.
  - assert (256 <= i) by (destruct (Z.lt_ge_cases i 256); [rewrite Z.div_small in E; lia|lia]).
    rewrite Nat2Z.inj_succ, Z.pow_succ_r in Hi by lia.
    assert (0 < i / 256) by (apply Z.div_str_pos; lia).
    destruct fuel as [|fuel]; [cbn in Hi; lia|].
    destruct (IH (i / 256) (n + 1)) as (k & Hk & Hn & _ & ->);
      [split; [lia|apply Z.div_lt_upper_bound; lia]|lia|].
    specialize (Hn ltac:(lia)). exists (S k). split_and!; try lia. intros _. unfold nbytes in *.
    rewrite Nat2Z.inj_succ. replace (Z.succ (Z.of_nat k) - 1) with (Z.succ (Z.of_nat k - 1)) by lia.
    rewrite !Z.pow_succ_r by lia. pose proof (Z.div_mod i 256). pose proof (Z.mod_pos_bound i 256). nia.
Qed.

Lemma intsize_spec i :
  0 <= i < 2 ^ 64 ->
  exists k, (0 < k <= 8)%nat /\ (0 < i -> nbytes i k) /\ (i = 0 -> k = 1%nat) /\ intsize i = Z.of_nat k.
Proof.
  intros Hi. destruct (intsize_loop_spec 8 i 1) as (k & ? & ? & ? & E); [exact Hi|lia|].
  exists k. split_and!; try done; try lia. unfold intsize. lia.
Qed.

Lemma nbytes_unique i k k' : nbytes i k -> nbytes i k' -> k = k'.
Proof.
  intros [H1 H2] [H1' H2']. destruct (lt_eq_lt_dec k k') as [[H|H]|H]; [|done|].
  - pose proof (Z.pow_le_mono_r 256 (Z.of_nat k) (Z.of_nat k' - 1)). lia.
  - pose proof (Z.pow_le_mono_r 256 (Z.of_nat k') (Z.of_nat k - 1)). lia.
Qed.

Lemma putint_bytes i :
  0 <= i < 2 ^ 64 ->
  exists k, (0 < k <= 8)%nat /\ (0 < i -> nbytes i k) /\ (i = 0 -> k = 1%nat) /\ putint i = be_bytes k i.
Proof.
  intros Hi. unfold putint, b8, nbytes.
  repeat match goal with
  | |- context [Z.shiftl 1 ?n] =>
      let e := eval vm_compute in (Z.shiftl 1 n) in change (Z.shiftl 1 n) with e
  end.
  rewrite !Z.shiftr_div_pow2 by lia.
  repeat match goal with |- context [if ?a <? ?b then _ else _] => destruct (Z.ltb_spec a b) end;
  [exists 1%nat|exists 2%nat|exists 3%nat|exists 4%nat|exists 5%nat|exists 6%nat|exists 7%nat|exists 8%nat];
  (split_and!; [lia|lia| | lia |]); try (intros; cbn; lia);
  cbn [be_bytes app]; rewrite ?Z.div_div by lia; done.
Qed.

Lemma putint_intsize i : 0 <= i < 2 ^ 64 -> zlen (putint i) = intsize i /\ (0 < zlen (putint i) <= 8).
Proof.
  intros Hi. destruct (putint_bytes i Hi) as (k & Hk & Hn & H0 & ->).
  destruct (intsize_spec i Hi) as (k' & Hk' & Hn' & H0' & ->).
  unfold zlen. rewrite length_be_bytes. split; [|lia]. f_equal.
  destruct (Z.eq_dec i 0) as [E|E]; [rewrite H0, H0'; lia|]. eapply nbytes_unique; [apply Hn|apply Hn']; lia.
Qed.

Lemma putint_Bytes i : 0 < i < 2 ^ 64 -> putint i = Bytes i.
Proof.
  intros Hi. destruct (putint_bytes i) as (k & Hk & Hn & _ & ->); [lia|].
  symmetry. apply nbytes_Bytes; [lia|apply Hn; lia].
Qed.

Lemma Bytes_small i : 0 < i < 256 -> Bytes i = [byte_of_Z i].
Proof. intros H. rewrite (nbytes_Bytes i 1); [done|lia|]. unfold nbytes. cbn. lia. Qed.

Lemma zlen_puthead a b n : 0 <= n < 2 ^ 64 -> zlen (puthead a b n) = headsize n.
Proof.
  intros Hn. unfold puthead, headsize. destruct (Z.ltb_spec n 56); [done|].
  rewrite zlen_cons. destruct (putint_intsize n Hn). lia.
Qed.

(** ** Strings *)

Lemma Write_Write a b w : Write b (Write a w) = Write (a ++ b) w.
Proof. unfold Write; cbn. by rewrite app_assoc. Qed.

Lemma rlp_Str b :
  (exists x, b = [x] /\ byte_to_Z x <= 0x7F /\ rlp (Str b) = [x]) \/
  (rlp (Str b) = puthead 0x80 0xB7 (zlen b) ++ b /\
   forall x, b = [x] -> 0x7F < byte_to_Z x).
Proof.
  destruct b as [|x [|y b]]; [right; split; [done|by intros]| |right; split; [done|by intros]].
  cbn [rlp]. destruct (Z.leb_spec (byte_to_Z x) 0x7F).
  - left. by exists x.
  - right. split; [done|]. intros ? [= <-]. done.
Qed.

Lemma encodeString_spec b w : encodeString b w = Write (rlp (Str b)) w.
Proof.
  assert (forall n, encodeStringHeader n w = Write (puthead 0x80 0xB7 n) w) as Hh.
  { intros n. unfold encodeStringHeader, puthead. by destruct (n <? 56). }
  unfold encodeString. destruct b as [|x [|y b]]; rewrite ?Hh, ?Write_Write; try done.
  cbn [rlp]. destruct (byte_to_Z x <=? 0x7F); done.
Qed.

Lemma writeUint_spec i w : 0 <= i < 2 ^ 64 -> writeUint i w = Write (rlp (Str (Bytes i))) w.
Proof.
  intros Hi. unfold writeUint. destruct (Z.eqb_spec i 0) as [->|Hne]; [done|].
  destruct (Z.ltb_spec i 128).
  - rewrite Bytes_small by lia. cbn [rlp]. rewrite byte_to_of_Z, Z.mod_small by lia.
    destruct (Z.leb_spec i 127); [done|lia].
  - rewrite putint_Bytes by lia.
    destruct (putint_intsize i) as [_ Hl]; [lia|]. rewrite putint_Bytes in Hl by lia.
    destruct (rlp_Str (Bytes i)) as [(x & E & Hx & _)|[-> _]].
    + exfalso. pose proof (SetBytes_Bytes i) as Hs. rewrite E, SetBytes_singleton in Hs. lia.
    + unfold puthead. destruct (Z.ltb_spec (zlen (Bytes i)) 56); [done|lia].
Qed.

Lemma writeBigInt_spec i w : 0 <= i -> writeBigInt i w = (Write (rlp (Str (Bytes i))) w, true).
Proof.
  intros Hi. unfold writeBigInt. destruct (Z.ltb_spec i 0); [lia|].
  destruct (Z.eqb_spec i 0) as [->|]; [done|]. by rewrite encodeString_spec.
Qed.
(** ** Fragments: what a writer appends to a buffer, whatever the buffer *)

#[local] Opaque intsize.

Record frag := mkFrag { f_str : list byte; f_heads : list listhead }.

Definition shift (n : nat) (h : listhead) : listhead := mkHead (n + lh_offset h) (lh_size h).
Definition hsum (hs : list listhead) : Z := foldr (fun h a => headsize (lh_size h) + a) 0 hs.
Definition f_size (f : frag) : Z := zlen (f_str f) + hsum (f_heads f).
Definition f_nil : frag := mkFrag [] [].
Definition f_app (f g : frag) : frag :=
  mkFrag (f_str f ++ f_str g) (f_heads f ++ map (shift (length (f_str f))) (f_heads g)).
Definition f_list (f : frag) : frag := mkFrag (f_str f) (mkHead 0 (f_size f) :: f_heads f).
Definition add_frag (w : encbuf) (f : frag) : encbuf :=
  mkBuf (str w ++ f_str f) (lheads w ++ map (shift (length (str w))) (f_heads f))
        (lhsize w + hsum (f_heads f)).

(** The bytes of a fragment: string data with the headers put in. *)
Fixpoint emit_from (s : list byte) (pos : nat) (hs : list listhead) : list byte :=
  match hs with
  | [] => drop pos s
  | h :: hs' => take (lh_offset h - pos) (drop pos s) ++ head_encode h ++ emit_from s (lh_offset h) hs'
  end.
Definition emit (f : frag) : list byte := emit_from (f_str f) 0 (f_heads f).

(** Header offsets are ordered and within the string data; sizes are lengths. *)
Fixpoint heads_ok (pos : nat) (hs : list listhead) (n : nat) : Prop :=
  match hs with
  | [] => (pos <= n)%nat
  | h :: hs' => (pos <= lh_offset h)%nat /\ 0 <= lh_size h < 2 ^ 64 /\ heads_ok (lh_offset h) hs' n
  end.
Definition frag_ok (f : frag) : Prop := heads_ok 0 (f_heads f) (length (f_str f)).

Lemma shift_shift m n hs : map (shift m) (map (shift n) hs) = map (shift (m + n)) hs.
Proof.
  rewrite map_map. apply map_ext. intros h. unfold shift; cbn. f_equal. lia.
Qed.
Lemma hsum_app a b : hsum (a ++ b) = hsum a + hsum b.
Proof. induction a as [|h a IH]; [done|]. unfold hsum in *. cbn [app foldr]. lia. Qed.
Lemma hsum_shift n hs : hsum (map (shift n) hs) = hsum hs.
Proof. induction hs as [|h hs IH]; [done|]. unfold hsum in *. cbn [map foldr]. by rewrite IH. Qed.

Lemma add_frag_app w f g : add_frag (add_frag w f) g = add_frag w (f_app f g).
Proof.
  unfold add_frag, f_app; cbn. rewrite <- !app_assoc, map_app, shift_shift, length_app.
  rewrite hsum_app, hsum_shift. f_equal. lia.
Qed.
Lemma add_frag_nil w : add_frag w f_nil = w.
Proof. destruct w. unfold add_frag; cbn. rewrite !app_nil_r. f_equal. lia. Qed.
Lemma Write_frag b w : Write b w = add_frag w (mkFrag b []).
Proof. unfold Write, add_frag; cbn. rewrite app_nil_r. f_equal. lia. Qed.

(** Opening a list, appending a fragment and closing it appends the listed fragment. *)
Lemma list_frag w f :
  listEnd (list_begin w).1 (add_frag (list_begin w).2 f) = add_frag w (f_list f).
Proof.
  destruct w as [s hs n]. unfold listEnd, list_begin, add_frag, f_list, f_size, size; cbn.
  rewrite <- app_assoc. rewrite lookup_app_r, Nat.sub_diag by lia. cbn.
  rewrite insert_app_r_alt, Nat.sub_diag by lia. cbn. unfold zlen. rewrite length_app.
  replace (Z.of_nat (length s + length (f_str f)) + (n + hsum (f_heads f)) - Z.of_nat (length s) - n)
    with (Z.of_nat (length (f_str f)) + hsum (f_heads f)) by lia.
  f_equal; [unfold shift; cbn; do 3 f_equal; lia|].
  unfold headsize at 1. destruct (_ <? 56); unfold hsum; lia.
Qed.

Lemma heads_ok_app pos hs m hs' n :
  heads_ok pos hs m -> heads_ok 0 hs' n -> heads_ok pos (hs ++ map (shift m) hs') (m + n).
Proof.
  revert pos. induction hs as [|h hs IH]; intros pos; cbn [heads_ok app].
  - intros Hp. assert (forall p, heads_ok p hs' n -> forall q, (q <= m + p)%nat ->
      heads_ok q (map (shift m) hs') (m + n)) as Hs; [|intros H; apply (Hs 0%nat H); lia].
    induction hs' as [|h hs' IH]; intros p; cbn; [lia|]. intros (H1 & H2 & H3) q Hq.
    split_and!; [lia|lia|lia|]. by apply (IH (lh_offset h) H3).
  - intros (H1 & H2 & H3) H4. split_and!; [done|lia|lia|auto].
Qed.

Lemma emit_from_app s pos hs s' hs' :
  heads_ok pos hs (length s) -> heads_ok 0 hs' (length s') ->
  emit_from (s ++ s') pos (hs ++ map (shift (length s)) hs') = emit_from s pos hs ++ emit_from s' 0 hs'.
Proof.
  revert pos. induction hs as [|h hs IH]; intros pos; cbn [heads_ok app emit_from map].
  - intros Hp. assert (forall p, heads_ok p hs' (length s') ->
      emit_from (s ++ s') (length s + p) (map (shift (length s)) hs') = emit_from s' p hs') as Hs.
    { induction hs' as [|h hs' IH]; intros p; cbn [heads_ok emit_from map].
      - intros _. by rewrite drop_app_add'.
      - intros (H1 & H2 & H3). cbn [lh_offset shift]. rewrite IH by done.
        rewrite drop_app_add' by done.
        replace (length s + lh_offset h - (length s + p))%nat with (lh_offset h - p)%nat by lia. done. }
    intros H. destruct hs' as [|h hs']; cbn [map emit_from].
    + rewrite drop_app_le by lia. done.
    + cbn in H. destruct H as (H1 & H2 & H3). specialize (Hs 0%nat). cbn [map emit_from] in Hs.
      cbn [shift lh_offset] in *. rewrite Nat.add_0_r, drop_app_length, Nat.sub_0_r, drop_0 in Hs.
      rewrite drop_app_le by lia. rewrite take_app_ge by (rewrite length_drop; lia).
      rewrite length_drop, <- app_assoc. f_equal.
      replace (length s + lh_offset h - pos - (length s - pos))%nat
        with (length s + lh_offset h - length s)%nat by lia.
      rewrite Nat.sub_0_r. apply Hs. cbn. done.
  - intros (H1 & H2 & H3) H4. rewrite IH by done. rewrite !app_assoc. do 3 f_equal.
    assert (lh_offset h <= length s)%nat.
    { clear -H3. revert H3. generalize (lh_offset h). induction hs as [|x hs IH]; cbn; [done|].
      intros p (? & _ & H). specialize (IH _ H). lia. }
    rewrite drop_app_le, take_app_le by (rewrite ?length_drop; lia). done.
Qed.

Lemma emit_app f g : frag_ok f -> frag_ok g -> emit (f_app f g) = emit f ++ emit g.
Proof. apply emit_from_app. Qed.
Lemma frag_ok_app f g : frag_ok f -> frag_ok g -> frag_ok (f_app f g).
Proof.
  intros Hf Hg. unfold frag_ok, f_app in *; cbn. rewrite length_app. by apply heads_ok_app.
Qed.

Lemma heads_ok_le pos hs n : heads_ok pos hs n -> (pos <= n)%nat.
Proof.
  revert pos. induction hs as [|h hs IH]; intros pos; cbn; [done|]. intros (? & _ & H).
  specialize (IH _ H). lia.
Qed.

Lemma zlen_emit f : frag_ok f -> zlen (emit f) = f_size f.
Proof.
  unfold frag_ok, emit, f_size.
  assert (forall pos, heads_ok pos (f_heads f) (length (f_str f)) ->
    zlen (emit_from (f_str f) pos (f_heads f)) + Z.of_nat pos = zlen (f_str f) + hsum (f_heads f)) as H.
  { generalize (f_heads f). intros hs. induction hs as [|h hs IH]; intros pos Hok.
    - cbn in *. unfold zlen. rewrite length_drop. lia.
    - destruct Hok as (H1 & H2 & H3). specialize (IH _ H3). pose proof (heads_ok_le _ _ _ H3).
      cbn [emit_from]. rewrite !zlen_app. unfold head_encode. rewrite zlen_puthead by done.
      unfold zlen in *. rewrite length_take, length_drop. unfold hsum in *. cbn [foldr]. lia. }
  intros Hok. specialize (H 0%nat Hok). lia.
Qed.

Lemma emit_list f : emit (f_list f) = puthead 0xC0 0xF7 (f_size f) ++ emit f.
Proof. unfold emit, f_list; cbn. done. Qed.

Lemma frag_ok_list f : frag_ok f -> 0 <= f_size f < 2 ^ 64 -> frag_ok (f_list f).
Proof. intros H Hs. unfold frag_ok; cbn. split_and!; [lia|lia|lia|exact H]. Qed.

Definition atom (b : list byte) : frag := mkFrag b [].
Fixpoint frag_of (v : value) : frag :=
  match v with
  | VSlice true l => foldr (fun x => f_app (frag_of x)) f_nil l
  | VSlice false l | VStruct l => f_list (foldr (fun x => f_app (frag_of x)) f_nil l)
  | VNilStruct => f_list f_nil
  | _ => atom (concat (map rlp (items v)))
  end.
Definition frags (l : list value) : frag := foldr (fun x => f_app (frag_of x)) f_nil l.
Definition enc (v : value) : list byte := concat (map rlp (items v)).
Definition encs (l : list value) : list byte := concat (map rlp (flat_map items l)).

Lemma encs_cons x l : encs (x :: l) = enc x ++ encs l.
Proof. unfold encs, enc. cbn. by rewrite map_app, concat_app. Qed.

Definition writes (v : value) : Prop :=
  encodable v = true -> uints_ok v = true -> zlen (enc v) < 2 ^ 64 ->
  (forall w, writer v w = (add_frag w (frag_of v), true)) /\ frag_ok (frag_of v) /\
  emit (frag_of v) = enc v.

Lemma writer_slice l w :
  writer (VSlice false l) w
  = let '(h, w) := list_begin w in let '(w, ok) := writers l w in (listEnd h w, ok).
Proof. done. Qed.
Lemma writer_struct l w :
  writer (VStruct l) w
  = let '(h, w) := list_begin w in let '(w, ok) := writers l w in
    if ok then (listEnd h w, true) else (w, false).
Proof. done. Qed.

Lemma writers_frag l :
  Forall writes l -> forallb encodable l = true -> forallb uints_ok l = true -> zlen (encs l) < 2 ^ 64 ->
  (forall w, writers l w = (add_frag w (frags l), true)) /\ frag_ok (frags l) /\ emit (frags l) = encs l.
Proof.
  induction 1 as [|x l Hx _ IH]; cbn [forallb]; intros He Hu Hs.
  - split_and!; [|unfold frag_ok; cbn; lia|done]. intros w. by rewrite add_frag_nil.
  - apply andb_prop in He as [He1 He2], Hu as [Hu1 Hu2]. rewrite encs_cons, zlen_app in Hs.
    pose proof (zlen_nonneg (enc x)). pose proof (zlen_nonneg (encs l)).
    destruct (Hx He1 Hu1) as (Hw & Hok & Hem); [lia|].
    destruct IH as (Hw' & Hok' & Hem'); [done|done|lia|]. split_and!.
    + intros w. cbn. rewrite Hw, Hw', add_frag_app. done.
    + by apply frag_ok_app.
    + change (frags (x :: l)) with (f_app (frag_of x) (frags l)).
      rewrite emit_app by done. by rewrite encs_cons, Hem, Hem'.
Qed.

Lemma zlen_enc_list l : zlen (encs l) <= zlen (concat (map rlp [Lst (flat_map items l)])).
Proof.
  cbn. rewrite app_nil_r, zlen_app. pose proof (zlen_nonneg (puthead 192 247 (zlen (encs l)))).
  fold (encs l). lia.
Qed.

Lemma atom_writes v :
  (forall w, encodable v = true -> uints_ok v = true -> writer v w = (Write (enc v) w, true)) ->
  frag_of v = atom (enc v) -> writes v.
Proof.
  intros Hw Hf He Hu _. rewrite Hf. split_and!.
  - intros w. by rewrite Hw, Write_frag.
  - unfold frag_ok; cbn. lia.
  - done.
Qed.

Lemma enc_one x : concat (map rlp [x]) = rlp x.
Proof. cbn. apply app_nil_r. Qed.

(** A list of values written between [list] and [listEnd]. *)
Lemma list_writes l :
  Forall writes l -> forallb encodable l = true -> forallb uints_ok l = true ->
  zlen (concat (map rlp [Lst (flat_map items l)])) < 2 ^ 64 ->
  (forall w, writers l (list_begin w).2 = (add_frag (list_begin w).2 (frags l), true)) /\
  frag_ok (f_list (frags l)) /\ emit (f_list (frags l)) = concat (map rlp [Lst (flat_map items l)]).
Proof.
  intros Hl He Hu Hs. pose proof (zlen_enc_list l).
  destruct (writers_frag l Hl He Hu) as (Hw & Hok & Hem); [lia|].
  pose proof (zlen_emit _ Hok) as Hz. pose proof (zlen_nonneg (encs l)). rewrite Hem in Hz. split_and!.
  - intros w. apply Hw.
  - apply frag_ok_list; [done|lia].
  - rewrite emit_list, Hem, <- Hz, enc_one. done.
Qed.

Lemma writer_correct v : writes v.
Proof.
  induction v as [b|i|b|i|b| |t l IH|l IH| |] using value_nested_ind;
    try (apply atom_writes; [intros w He Hu; unfold enc; cbn [items]; rewrite ?enc_one|done]).
  - done.
  - cbn in *. rewrite writeUint_spec by lia. done.
  - by destruct b.
  - destruct i as [i|]; [|done]. unfold enc; cbn [items writer]. rewrite enc_one.
    apply writeBigInt_spec. cbn in He. lia.
  - cbn [writer]. by rewrite encodeString_spec.
  - done.
  - intros He Hu Hs. cbn in He, Hu. destruct t.
    + destruct (writers_frag l IH He Hu Hs) as (Hw & Hok & Hem). by split_and!.
    + destruct (list_writes l IH He Hu Hs) as (Hw & Hok & Hem). split_and!; try done.
      intros w. rewrite writer_slice. cbn [frag_of]. fold (frags l). rewrite <- list_frag.
      specialize (Hw w). destruct (list_begin w) as [h w1]. cbn [fst snd] in *. by rewrite Hw.
  - intros He Hu Hs. cbn in He, Hu.
    destruct (list_writes l IH He Hu Hs) as (Hw & Hok & Hem). split_and!; try done.
    intros w. rewrite writer_struct. cbn [frag_of]. fold (frags l). rewrite <- list_frag.
    specialize (Hw w). destruct (list_begin w) as [h w1]. cbn [fst snd] in *. by rewrite Hw.
  - intros _ _ _. split_and!; [|apply frag_ok_list; [unfold frag_ok; cbn; lia|done]|done].
    intros w. cbn [writer frag_of]. rewrite <- list_frag, add_frag_nil.
    by destruct (list_begin w).
  - done.
Qed.

(** ** Outputs *)

Lemma copy_at_fill (done piece : list byte) r :
  (length piece <= r)%nat ->
  copy_at (done ++ zeros r) (length done) piece = (done ++ piece) ++ zeros (r - length piece).
Proof.
  intros H. unfold copy_at. rewrite take_app_length, length_app, length_zeros.
  rewrite drop_app_add', take_ge by lia. rewrite <- app_assoc. do 2 f_equal.
  unfold zeros. by rewrite drop_replicate.
Qed.

Lemma slice_from {A} (l : list A) (n : nat) :
  (n <= length l)%nat -> slice l (Z.of_nat n) (zlen l) = Some (drop n l).
Proof.
  intros H. unfold slice, zlen. destruct (_ && _) eqn:E; [|lia]. f_equal.
  rewrite Nat2Z.id, take_ge; [done|]. rewrite length_drop. lia.
Qed.
Lemma slice_nat {A} (l : list A) (a b : nat) :
  (a <= b <= length l)%nat -> slice l (Z.of_nat a) (Z.of_nat b) = Some (take (b - a) (drop a l)).
Proof.
  intros H. unfold slice, zlen. destruct (_ && _) eqn:E; [|lia].
  rewrite <- Nat2Z.inj_sub by lia. by rewrite !Nat2Z.id.
Qed.

Lemma toBytes_loop_spec s heads strpos done r :
  heads_ok strpos heads (length s) -> r = length (emit_from s strpos heads) ->
  toBytes_loop s heads (done ++ zeros r) (length done) strpos
  = Some (done ++ emit_from s strpos heads).
Proof.
  revert strpos done r. induction heads as [|h hs IH]; intros strpos done r Hok ->;
    cbn [toBytes_loop emit_from] in *.
  - cbn in Hok. rewrite !slice_from by (rewrite ?length_app; lia).
    by rewrite copy_at_fill, Nat.sub_diag, app_nil_r by lia.
  - destruct Hok as (H1 & H2 & H3). pose proof (heads_ok_le _ _ _ H3).
    rewrite slice_from by (rewrite ?length_app; lia). rewrite slice_nat by lia.
    set (piece := take _ _). assert (length piece = lh_offset h - strpos)%nat as Hp
      by (unfold piece; rewrite length_take, length_drop; lia).
    rewrite drop_app_length, length_zeros, !length_app.
    rewrite Nat.min_r by lia. rewrite copy_at_fill by lia.
    unfold put_at. rewrite !length_app, length_zeros.
    destruct (Nat.leb_spec (length done + length piece + length (head_encode h))
      (length done + length piece + (length piece + (length (head_encode h) +
         length (emit_from s (lh_offset h) hs)) - length piece))) as [_|Hlt]; [|lia].
    rewrite <- (length_app done piece), copy_at_fill by lia.
    rewrite <- (length_app (done ++ piece)).
    replace (strpos + length piece)%nat with (lh_offset h) by lia.
    rewrite IH; [by rewrite <- !app_assoc|done|lia].
Qed.

Lemma toBytes_spec f : frag_ok f -> toBytes (add_frag reset f) = Some (emit f).
Proof.
  intros Hok. unfold toBytes, add_frag, reset, size; cbn [str lheads lhsize app].
  assert (map (shift (length (@nil byte))) (f_heads f) = f_heads f) as ->.
  { rewrite <- (map_id (f_heads f)) at 2. apply map_ext. by intros []. }
  apply (toBytes_loop_spec (f_str f) (f_heads f) 0 []); [exact Hok|].
  pose proof (zlen_emit f Hok) as Hz. unfold f_size, zlen, emit in *. lia.
Qed.

Lemma toWriter_loop_spec s heads strpos :
  heads_ok strpos heads (length s) ->
  exists ps, toWriter_loop s heads strpos = Some ps /\ concat ps = emit_from s strpos heads.
Proof.
  revert strpos. induction heads as [|h hs IH]; intros strpos Hok; cbn [toWriter_loop emit_from] in *.
  - cbn in Hok. destruct (Nat.ltb_spec strpos (length s)).
    + rewrite slice_from by lia. eexists. split; [done|]. cbn. apply app_nil_r.
    + exists []. split; [done|]. by rewrite drop_ge.
  - destruct Hok as (H1 & H2 & H3). pose proof (heads_ok_le _ _ _ H3).
    destruct (Nat.ltb_spec strpos (lh_offset h)).
    + rewrite slice_nat by lia. rewrite length_take, length_drop.
      replace (strpos + Nat.min (lh_offset h - strpos) (length s - strpos))%nat with (lh_offset h) by lia.
      destruct (IH _ H3) as (ps & -> & <-). eexists. by split.
    + assert (strpos = lh_offset h) as -> by lia. destruct (IH _ H3) as (ps & -> & <-).
      eexists. split; [done|]. by rewrite Nat.sub_diag.
Qed.

Lemma toWriter_spec f :
  frag_ok f -> exists ps, toWriter (add_frag reset f) = Some ps /\ concat ps = emit f.
Proof.
  intros Hok. unfold toWriter, add_frag, reset; cbn [str lheads app].
  assert (map (shift (length (@nil byte))) (f_heads f) = f_heads f) as ->.
  { rewrite <- (map_id (f_heads f)) at 2. apply map_ext. by intros []. }
  by apply toWriter_loop_spec.
Qed.

(** Encoding fails exactly on negative integers. *)
Lemma writer_ok v : forall w, (writer v w).2 = encodable v.
Proof.
  induction v as [b|i|b|i|b| |t l IH|l IH| |] using value_nested_ind; intros w; try done.
  - destruct i as [i|]; [|done]. cbn. unfold writeBigInt. repeat bdestr; try done; lia.
  - assert (forall w, (writers l w).2 = forallb encodable l) as Hl.
    { induction IH as [|x l Hx _ IHl]; intros w'; [done|]. cbn. specialize (Hx w').
      destruct (writer x w') as [w2 ok]. cbn in Hx. subst ok. by destruct (encodable x). }
    destruct t; [exact (Hl w)|]. rewrite writer_slice. destruct (list_begin w) as [h w1].
    specialize (Hl w1). destruct (writers l w1). exact Hl.
  - assert (forall w, (writers l w).2 = forallb encodable l) as Hl.
    { induction IH as [|x l Hx _ IHl]; intros w'; [done|]. cbn. specialize (Hx w').
      destruct (writer x w') as [w2 ok]. cbn in Hx. subst ok. by destruct (encodable x). }
    rewrite writer_struct. destruct (list_begin w) as [h w1].
    specialize (Hl w1). destruct (writers l w1) as [w2 ok]. cbn in Hl |- *. subst ok. by destruct (forallb _ _).
Qed.

Lemma EncodeToBytes_enc v :
  uints_ok v = true -> zlen (enc v) < 2 ^ 64 ->
  EncodeToBytes v = if encodable v then Some (enc v) else None.
Proof.
  intros Hu Hs. unfold EncodeToBytes. pose proof (writer_ok v reset) as Hok.
  destruct (writer v reset) as [w ok] eqn:E. cbn in Hok. subst ok.
  destruct (encodable v) eqn:He; [|done].
  destruct (writer_correct v He Hu Hs) as (Hw & Hf & Hem). rewrite Hw in E. injection E as <-.
  by rewrite toBytes_spec, Hem.
Qed.

End RlpProofs.
