(* ===== verification/VmBase.v ===== *)
(** * [core/vm]: stack, memory, contracts, jump destinations, precompiles

    The data of the virtual machine and the operations on it that do not touch the world
    state: [stack.go], [memory.go], [contract.go], [analysis.go], [common.go],
    [stack_table.go], [memory_table.go], [contracts.go], [errors.go], [opcodes.go].

    Popped [big.Int]s are mutated in place and recycled through the integer pool; no two stack
    slots share a cell (DUP copies, pushes allocate), so the stack is a list of values, top
    first.  An index or slice out of range is [Panic]. *)

From S2P Require Import Prelude GoMath Params World Rlp.

(** ** Outcomes of a Go call: a result, a panic, or fuel exhausted *)

Inductive outcome (A : Type) := Ret (a : A) | Panic | OutOfFuel.
#[global] Arguments Ret {A} a.
#[global] Arguments Panic {A}.
#[global] Arguments OutOfFuel {A}.

Definition obind {A B} (m : outcome A) (k : A -> outcome B) : outcome B :=
  match m with Ret a => k a | Panic => Panic | OutOfFuel => OutOfFuel end.
Declare Scope go_scope.
Delimit Scope go_scope with go.
Notation "'let*' x := m 'in' k" := (obind m (fun x => k))
  (at level 200, x pattern, m at level 100, k at level 200, right associativity) : go_scope.
#[global] Open Scope go_scope.

Definition or_panic {A} (o : option A) : outcome A := match o with Some a => Ret a | None => Panic end.

(** ** Errors ([errors.go], [jump_table.go], and the [fmt.Errorf]s of the interpreter) *)

Inductive vmError :=
| ErrOutOfGas | ErrCodeStoreOutOfGas | ErrDepth | ErrInsufficientBalance
| errGasUintOverflow
| errStackUnderflow (have want : Z)
| errStackLimit (have : Z)
| errInvalidOpcode (op : Z)
| errInvalidJump (nop : Z) (pos : Z).

(** ** Opcodes ([opcodes.go]) *)

Definition OpCode := Z.
Definition JUMPDEST : OpCode := 0x5b.
Definition PUSH1 : OpCode := 0x60.
Definition PUSH32 : OpCode := 0x7f.

(** ** [stack.go]: the head of the list is the top *)

Definition pop (st : list Z) : outcome (Z * list Z) :=
  match st with x :: st' => Ret (x, st') | [] => Panic end.
Definition Back (n : nat) (st : list Z) : outcome Z := or_panic (st !! n).
Definition stack_dup (n : nat) (st : list Z) : outcome (list Z) :=
  match n with O => Panic | S n' => let* x := Back n' st in Ret (x :: st) end.
Definition stack_swap (n : nat) (st : list Z) : outcome (list Z) :=
  match n with
  | O => Panic
  | S n' => let* x := Back n' st in let* y := Back 0 st in Ret (<[0%nat := x]> (<[n' := y]> st))
  end.
(** [stack.data[stack.len()-1] = v] *)
Definition stack_settop (v : Z) (st : list Z) : outcome (list Z) :=
  match st with [] => Panic | _ :: st' => Ret (v :: st') end.

(** [stack_table.go] *)
Definition require (n : Z) (st : list Z) : option vmError :=
  if zlen st <? n then Some (errStackUnderflow (zlen st) n) else None.
Definition makeStackFunc (pop push : Z) (st : list Z) : option vmError :=
  match require pop st with
  | Some e => Some e
  | None => if zlen st + push - pop >? StackLimit then Some (errStackLimit (zlen st)) else None
  end.

(** ** [memory.go]

    The field [lastReturn] is left out: the interpreter only ever stores nil in it and nothing
    reads it. *)

Record Memory := mkMemory { store : list byte; lastGasCost : Z }.
Definition NewMemory : Memory := mkMemory [] 0.

Definition mem_Len (m : Memory) : Z := zlen (store m).
Definition mem_Set (offset size : Z) (value : list byte) (m : Memory) : outcome Memory :=
  if size >? zlen (store m) then Panic
  else if size >? 0 then
    match slice (store m) offset (u64 (offset + size)) with
    | None => Panic
    | Some _ => Ret (mkMemory (copy_at (store m) (Z.to_nat offset) (take (Z.to_nat size) value))
                              (lastGasCost m))
    end
  else Ret m.
Definition mem_Resize (size : Z) (m : Memory) : Memory :=
  if mem_Len m <? size
  then mkMemory (store m ++ zeros (Z.to_nat (size - mem_Len m))) (lastGasCost m) else m.
Definition mem_Get (offset size : Z) (m : Memory) : outcome (list byte) :=
  if size =? 0 then Ret []
  else if zlen (store m) >? offset then or_panic (slice (store m) offset (i64 (offset + size)))
  else Ret [].
Definition mem_GetPtr (offset size : Z) (m : Memory) : outcome (list byte) :=
  if size =? 0 then Ret []
  else if zlen (store m) >? offset then or_panic (slice (store m) offset (i64 (offset + size)))
  else Ret [].
(** [memory.store[off] = b] *)
Definition mem_store (off : Z) (b : byte) (m : Memory) : outcome Memory :=
  if (0 <=? off) && (off <? zlen (store m))
  then Ret (mkMemory (<[Z.to_nat off := b]> (store m)) (lastGasCost m)) else Panic.

(** ** [common.go] *)

Definition calcMemSize (off l : Z) : Z := if Sign l =? 0 then 0 else off + l.
Definition getData (data : list byte) (start size : Z) : outcome (list byte) :=
  let dlen := zlen data in
  let s := BigMin start dlen in
  let e := BigMin (s + size) dlen in
  let* d := or_panic (slice data (Uint64 s) (Uint64 e)) in
  Ret (RightPadBytes d (i64 (Uint64 size))).
Definition bigUint64 (v : Z) : Z * bool := (Uint64 v, BitLen v >? 64).
Definition toWordSize (size : Z) : Z :=
  if size >? MaxUint64 - 31 then MaxUint64 / 32 + 1 else (size + 31) / 32.
Definition allZero (b : list byte) : bool := forallb (fun x => byte_to_Z x =? 0) b.

(** ** [analysis.go] *)

Definition set_bit (m : list byte) (pc : Z) : list byte :=
  alter (fun b => byte_of_Z (Z.lor (byte_to_Z b) (Z.shiftl 1 (pc mod 8)))) (Z.to_nat (pc / 8)) m.

(** The loop of [jumpdests]: the code from [pc] on is [code]. *)
Fixpoint jumpdests_loop (code : list byte) (skip : nat) (pc : Z) (m : list byte) : list byte :=
  match code with
  | [] => m
  | c :: code' =>
      match skip with
      | S skip' => jumpdests_loop code' skip' (pc + 1) m
      | O =>
          let op := byte_to_Z c in
          if op =? JUMPDEST then jumpdests_loop code' 0 (pc + 1) (set_bit m pc)
          else if (op >=? PUSH1) && (op <=? PUSH32)
          then jumpdests_loop code' (Z.to_nat (op - PUSH1 + 1)) (pc + 1) m
          else jumpdests_loop code' 0 (pc + 1) m
      end
  end.
Definition jumpdests (code : list byte) : list byte :=
  jumpdests_loop code 0 0 (zeros (length code / 8 + 1)).

Notation destinations := (gmap Hash (list byte)) (only parsing).
Definition dest_has (codehash : Hash) (code : list byte) (dest : Z) (d : destinations)
  : outcome (bool * destinations) :=
  let udest := Uint64 dest in
  if (BitLen dest >=? 63) || (udest >=? zlen code) then Ret (false, d)
  else
    let '(m, d) := match d !! codehash with
                   | Some m => (m, d)
                   | None => let m := jumpdests code in (m, <[codehash := m]> d)
                   end in
    let* b := or_panic (m !! Z.to_nat (udest / 8)) in
    Ret (negb (Z.land (byte_to_Z b) (Z.shiftl 1 (udest mod 8)) =? 0), d).

(** ** [contract.go] *)

(** The field [Args] is never used; the caller is kept only as far as [AsDelegate] reads it. *)
Record Contract := mkContract {
  CallerAddress : Address;
  self : Address;
  Code : list byte;
  CodeHash : Hash;
  CodeAddr : option Address;
  Input : list byte;
  Gas : Z;
  value : Z;
  DelegateCall : bool;
}.
Inductive ContractRef := AccountRef (a : Address) | ContractOf (c : Contract).
Definition ref_Address (r : ContractRef) : Address :=
  match r with AccountRef a => a | ContractOf c => self c end.

(** [NewContract], with the jump destinations the contract uses: those of its parent, or a new
    map when the caller is no contract. *)
Definition NewContract (caller : ContractRef) (object : Address) (v : Z) (gas : Z) (d : destinations)
  : Contract * destinations :=
  (mkContract (ref_Address caller) object [] 0 None [] gas v false,
   match caller with ContractOf _ => d | AccountRef _ => ∅ end).
(** [AsDelegate]: a type assertion that fails panics. *)
Definition AsDelegate (caller : ContractRef) (c : Contract) : outcome Contract :=
  match caller with
  | AccountRef _ => Panic
  | ContractOf parent =>
      Ret (mkContract (CallerAddress parent) (self c) (Code c) (CodeHash c) (CodeAddr c) (Input c)
                      (Gas c) (value parent) true)
  end.
Definition SetCallCode (addr : Address) (hash : Hash) (code : list byte) (c : Contract) : Contract :=
  mkContract (CallerAddress c) (self c) code hash (Some addr) (Input c) (Gas c) (value c) (DelegateCall c).
Definition set_gas (g : Z) (c : Contract) : Contract :=
  mkContract (CallerAddress c) (self c) (Code c) (CodeHash c) (CodeAddr c) (Input c) g (value c)
             (DelegateCall c).
Definition set_input (i : list byte) (c : Contract) : Contract :=
  mkContract (CallerAddress c) (self c) (Code c) (CodeHash c) (CodeAddr c) i (Gas c) (value c)
             (DelegateCall c).
Definition GetByte (c : Contract) (n : Z) : byte :=
  if n <? zlen (Code c) then default Byte.x00 (Code c !! Z.to_nat n) else Byte.x00.
Definition GetOp (c : Contract) (n : Z) : OpCode := byte_to_Z (GetByte c n).
Definition UseGas (gas : Z) (c : Contract) : bool * Contract :=
  if Gas c <? gas then (false, c) else (true, set_gas (u64 (Gas c - gas)) c).

(** ** [memory_table.go] *)

Definition memorySha3 (st : list Z) : outcome Z :=
  let* a := Back 0 st in let* b := Back 1 st in Ret (calcMemSize a b).
Definition memoryCalldataCopy (st : list Z) : outcome Z :=
  let* a := Back 0 st in let* b := Back 2 st in Ret (calcMemSize a b).
Definition memoryCodeCopy (st : list Z) : outcome Z :=
  let* a := Back 0 st in let* b := Back 2 st in Ret (calcMemSize a b).
Definition memoryExtCodeCopy (st : list Z) : outcome Z :=
  let* a := Back 1 st in let* b := Back 3 st in Ret (calcMemSize a b).
Definition memoryMLoad (st : list Z) : outcome Z := let* a := Back 0 st in Ret (calcMemSize a 32).
Definition memoryMStore8 (st : list Z) : outcome Z := let* a := Back 0 st in Ret (calcMemSize a 1).
Definition memoryMStore (st : list Z) : outcome Z := let* a := Back 0 st in Ret (calcMemSize a 32).
Definition memoryCreate (st : list Z) : outcome Z :=
  let* a := Back 1 st in let* b := Back 2 st in Ret (calcMemSize a b).
Definition memoryCall (st : list Z) : outcome Z :=
  let* a := Back 5 st in let* b := Back 6 st in
  let* c := Back 3 st in let* d := Back 4 st in
  Ret (BigMax (calcMemSize a b) (calcMemSize c d)).
Definition memoryDelegateCall (st : list Z) : outcome Z :=
  let* a := Back 4 st in let* b := Back 5 st in
  let* c := Back 2 st in let* d := Back 3 st in
  Ret (BigMax (calcMemSize a b) (calcMemSize c d)).
Definition memoryReturn (st : list Z) : outcome Z :=
  let* a := Back 0 st in let* b := Back 1 st in Ret (calcMemSize a b).
Definition memoryLog (st : list Z) : outcome Z :=
  let* mSize := Back 1 st in let* mStart := Back 0 st in Ret (calcMemSize mStart mSize).

(** ** Gas of memory and of calls ([gas_table.go], [gas.go]) *)

(** The new memory records the total fee charged so far. *)
Definition memoryGasCost (mem : Memory) (newMemSize : Z) : option Z * Memory :=
  if newMemSize >? MaxUint64 - 32 then (None, mem)
  else if newMemSize =? 0 then (Some 0, mem)
  else
    let newMemSizeWords := toWordSize newMemSize in
    let newMemSize := u64 (newMemSizeWords * 32) in
    if newMemSize >? mem_Len mem then
      let square := u64 (newMemSizeWords * newMemSizeWords) in
      let linCoef := u64 (newMemSizeWords * MemoryGas) in
      let quadCoef := square / QuadCoeffDiv in
      let newTotalFee := u64 (linCoef + quadCoef) in
      let fee := u64 (newTotalFee - lastGasCost mem) in
      (Some fee, mkMemory (store mem) newTotalFee)
    else (Some 0, mem).

(** [callGas]: [None] is [errGasUintOverflow]. *)
Definition callGas (gt : GasTable) (availableGas base callCost : Z) : option Z :=
  if gt_CreateBySuicide gt >? 0 then
    let availableGas := u64 (availableGas - base) in
    let gas := u64 (availableGas - availableGas / 64) in
    if (BitLen callCost >? 64) || (gas <? Uint64 callCost) then Some gas
    else if BitLen callCost >? 64 then None else Some (Uint64 callCost)
  else if BitLen callCost >? 64 then None
  else Some (Uint64 callCost).

(** ** Precompiled contracts ([contracts.go]) *)

Definition secp256k1_N : Z := 0xfffffffffffffffffffffffffffffffebaaedce6af48a03bbfd25e8cd0364141.
Definition secp256k1_halfN : Z := secp256k1_N / 2.
(** [crypto.ValidateSignatureValues] *)
Definition ValidateSignatureValues (v r s : Z) (homestead : bool) : bool :=
  if (r <? 1) || (s <? 1) then false
  else if homestead && (s >? secp256k1_halfN) then false
  else (r <? secp256k1_N) && (s <? secp256k1_N) && ((v =? 0) || (v =? 1)).

Inductive PrecompiledContract := ecrecover | sha256hash | ripemd160hash | dataCopy.
Definition PrecompiledContracts (a : Address) : option PrecompiledContract :=
  if a =? 1 then Some ecrecover
  else if a =? 2 then Some sha256hash
  else if a =? 3 then Some ripemd160hash
  else if a =? 4 then Some dataCopy
  else None.

Definition RequiredGas (p : PrecompiledContract) (input : list byte) : Z :=
  match p with
  | ecrecover => EcrecoverGas
  | sha256hash => u64 ((zlen input + 31) / 32 * Sha256WordGas + Sha256Gas)
  | ripemd160hash => u64 ((zlen input + 31) / 32 * Ripemd160WordGas + Ripemd160Gas)
  | dataCopy => u64 ((zlen input + 31) / 32 * IdentityWordGas + IdentityGas)
  end.

Section precompiles.
Context `{C : CryptoPrims}.

(** [ecrecover.Run]: the returned data and the caller's input buffer afterwards.
    [append(in[64:128], v)] writes into the buffer behind [in] where that is longer than 128
    bytes. *)
Definition ecrecover_Run (input : list byte) : outcome (list byte * list byte) :=
  let inp := RightPadBytes input 128 in
  let* rb := or_panic (slice inp 64 96) in
  let* sb := or_panic (slice inp 96 128) in
  let* vb := or_panic (inp !! 63%nat) in
  let* vz := or_panic (slice inp 32 63) in
  let r := SetBytes rb in
  let s := SetBytes sb in
  let v := (byte_to_Z vb - 27) mod 256 in
  if negb (allZero vz) || negb (ValidateSignatureValues v r s false) then Ret ([], input)
  else
    let input' := if zlen input >? 128 then <[128%nat := byte_of_Z v]> input else input in
    let* h := or_panic (slice inp 0 32) in
    let* sig := or_panic (slice inp 64 128) in
    match EcrecoverPub h (sig ++ [byte_of_Z v]) with
    | None => Ret ([], input')
    | Some pubKey =>
        let* tl := or_panic (slice pubKey 1 (zlen pubKey)) in
        Ret (LeftPadBytes (drop 12 (Keccak256 tl)) 32, input')
    end.

Definition precompile_Run (p : PrecompiledContract) (input : list byte) : outcome (list byte) :=
  match p with
  | ecrecover => let* r := ecrecover_Run input in Ret r.1
  | sha256hash => Ret (Sha256 input)
  | ripemd160hash => Ret (LeftPadBytes (Ripemd160 input) 32)
  | dataCopy => Ret input
  end.

Definition RunPrecompiledContract (p : PrecompiledContract) (input : list byte) (c : Contract)
  : outcome (list byte * option vmError * Contract) :=
  let gas := RequiredGas p input in
  let '(ok, c) := UseGas gas c in
  if ok then let* ret := precompile_Run p input in Ret (ret, None, c)
  else Ret ([], Some ErrOutOfGas, c).
End precompiles.
