(* ===== verification/Vm.v ===== *)
(** * [core/vm]: gas functions, instructions, calls, the interpreter

    [gas_table.go], [instructions.go], [jump_table.go], [evm.go], [interpreter.go] and the
    transfer functions of [core/evm.go], written against the state interface of World.v.

    The interpreter loop and the nested calls are one recursion over [fuel]: a step of the loop
    at fuel [S n] may run a nested contract, and goes on, at fuel [n].  The [abort] flag that
    [Cancel] sets concurrently is an arbitrary function of the number of iterations done.  The
    tracer of debug mode is left out. *)

From S2P Require Import Prelude GoMath Params World Rlp VmBase.

Module Vm.
Section vm.
Context `{C : CryptoPrims} {S : Type} `{SI : StateDBI S}.

(** ** Environment and machine state *)

(** [vm.Config] and [vm.Context]: what does not change during a transaction. *)
Record Env := mkEnv {
  NoRecursion : bool;
  DisableGasMetering : bool;
  EnablePreimageRecording : bool;
  chainConfig : ChainConfig;
  GetHash : Z -> Hash;
  Origin : Address;
  GasPrice : Z;
  Coinbase : Address;
  GasLimit : Z;
  BlockNumber : Z;
  Time : Z;
  Difficulty : Z;
  abort : nat -> bool;
}.

(** The mutable part of the EVM: the state database, the jump destination cache shared by the
    contracts of a call tree, the call depth, and the count of loop iterations. *)
Record W := mkW { sdb : S; dests : destinations; depth : Z; ticks : nat }.
Definition upd_sdb (f : S -> S) (w : W) : W := mkW (f (sdb w)) (dests w) (depth w) (ticks w).
Definition set_sdb (s : S) (w : W) : W := mkW s (dests w) (depth w) (ticks w).
Definition set_dests (d : destinations) (w : W) : W := mkW (sdb w) d (depth w) (ticks w).
Definition upd_depth (f : Z -> Z) (w : W) : W := mkW (sdb w) (dests w) (f (depth w)) (ticks w).
Definition tick (w : W) : W := mkW (sdb w) (dests w) (depth w) (ticks w + 1).

(** The locals of [Interpreter.Run]. *)
Record Frame := mkFrame { pc : Z; contract : Contract; memory : Memory; stack : list Z }.
Definition set_pc (p : Z) (f : Frame) : Frame := mkFrame p (contract f) (memory f) (stack f).
Definition set_contract (c : Contract) (f : Frame) : Frame := mkFrame (pc f) c (memory f) (stack f).
Definition set_memory (m : Memory) (f : Frame) : Frame := mkFrame (pc f) (contract f) m (stack f).
Definition set_stack (st : list Z) (f : Frame) : Frame := mkFrame (pc f) (contract f) (memory f) st.

Definition eip150 (env : Env) : bool := IsEIP150 (chainConfig env) (BlockNumber env).
Definition eip158 (env : Env) : bool := IsEIP158 (chainConfig env) (BlockNumber env).
Definition homestead (env : Env) : bool := IsHomestead (chainConfig env) (BlockNumber env).
Definition env_gasTable (env : Env) : GasTable := gasTable (chainConfig env) (Some (BlockNumber env)).

(** Use a getter of the state database. *)
Definition get {A} (g : S -> A * S) (w : W) : A * W := let '(a, s) := g (sdb w) in (a, set_sdb s w).

(** ** [core/evm.go] *)

Definition CanTransfer (addr : Address) (amount : Z) (s : S) : bool * S :=
  let '(b, s) := GetBalance addr s in (b >=? amount, s).
Definition Transfer (sender recipient : Address) (amount : Z) (s : S) : S :=
  AddBalance recipient amount (SubBalance sender amount s).

(** ** Gas functions ([gas_table.go])

    A gas function returns the cost, or [None] for an error, with the frame and the machine
    state it leaves. *)
Definition gasFunc := Env -> Frame -> W -> Z -> outcome (option Z * Frame * W).

Definition GasQuickStep : Z := 2.
Definition GasFastestStep : Z := 3.
Definition GasFastStep : Z := 5.
Definition GasMidStep : Z := 8.
Definition GasSlowStep : Z := 10.
Definition GasExtStep : Z := 20.

Definition constGasFunc (gas : Z) : gasFunc := fun _ f w _ => Ret (Some gas, f, w).

(** [if gas, overflow = math.SafeAdd(gas, x); overflow { return 0, err }] *)
Definition gas_add (gas x : Z) : option Z :=
  let '(r, overflow) := SafeAdd gas x in if overflow then None else Some r.
Definition gas_mul (x y : Z) : option Z :=
  let '(r, overflow) := SafeMul x y in if overflow then None else Some r.
Definition opt_bind {A B} (o : option A) (k : A -> option B) : option B :=
  match o with Some a => k a | None => None end.
(** [bigUint64] with its overflow turned into an error. *)
Definition to_uint64 (v : Z) : option Z := let '(u, overflow) := bigUint64 v in if overflow then None else Some u.

(** The fee for memory growth, with the memory that records it. *)
Definition with_memory_gas (f : Frame) (w : W) (memorySize : Z) (k : Z -> option Z)
  : outcome (option Z * Frame * W) :=
  let '(fee, mem) := memoryGasCost (memory f) memorySize in
  Ret (opt_bind fee k, set_memory mem f, w).

(** The common form of the copying instructions: base cost plus [perWord] for each word copied. *)
Definition gas_words (base perWord v gas : Z) : option Z :=
  opt_bind (gas_add gas base) (fun gas =>
  opt_bind (to_uint64 v) (fun words =>
  opt_bind (gas_mul (toWordSize words) perWord) (fun words => gas_add gas words))).

Definition gasCalldataCopy : gasFunc := fun _ f w memorySize =>
  let* v := Back 2 (stack f) in with_memory_gas f w memorySize (gas_words GasFastestStep CopyGas v).
Definition gasSha3 : gasFunc := fun _ f w memorySize =>
  let* v := Back 1 (stack f) in with_memory_gas f w memorySize (gas_words Sha3Gas Sha3WordGas v).
Definition gasCodeCopy : gasFunc := fun _ f w memorySize =>
  let* v := Back 2 (stack f) in with_memory_gas f w memorySize (gas_words GasFastestStep CopyGas v).
Definition gasExtCodeCopy : gasFunc := fun env f w memorySize =>
  let* v := Back 3 (stack f) in
  with_memory_gas f w memorySize (gas_words (gt_ExtcodeCopy (env_gasTable env)) CopyGas v).

Definition gasSStore : gasFunc := fun _ f w _ =>
  let* y := Back 1 (stack f) in
  let* x := Back 0 (stack f) in
  let '(val, w) := get (GetState (self (contract f)) (BigToHash x)) w in
  if EmptyHash val && negb (EmptyHash (BigToHash y)) then Ret (Some SstoreSetGas, f, w)
  else if negb (EmptyHash val) && EmptyHash (BigToHash y)
  then Ret (Some SstoreClearGas, f, upd_sdb (AddRefund SstoreRefundGas) w)
  else Ret (Some SstoreResetGas, f, w).

Definition makeGasLog (n : Z) : gasFunc := fun _ f w memorySize =>
  let* v := Back 1 (stack f) in
  match to_uint64 v with
  | None => Ret (None, f, w)
  | Some requestedSize =>
      with_memory_gas f w memorySize (fun gas =>
        opt_bind (gas_add gas LogGas) (fun gas =>
        opt_bind (gas_add gas (n * LogTopicGas)) (fun gas =>
        opt_bind (gas_mul requestedSize LogDataGas) (fun memorySizeGas =>
        gas_add gas memorySizeGas))))
  end.

Definition gasMLoad : gasFunc := fun _ f w memorySize =>
  with_memory_gas f w memorySize (fun gas => gas_add gas GasFastestStep).
Definition gasMStore8 : gasFunc := fun _ f w memorySize =>
  with_memory_gas f w memorySize (fun gas => gas_add gas GasFastestStep).
Definition gasMStore : gasFunc := fun _ f w memorySize =>
  with_memory_gas f w memorySize (fun gas => gas_add gas GasFastestStep).
Definition gasCreate : gasFunc := fun _ f w memorySize =>
  with_memory_gas f w memorySize (fun gas => gas_add gas CreateGas).
Definition gasBalance : gasFunc := fun env f w _ => Ret (Some (gt_Balance (env_gasTable env)), f, w).
Definition gasExtCodeSize : gasFunc := fun env f w _ => Ret (Some (gt_ExtcodeSize (env_gasTable env)), f, w).
Definition gasSLoad : gasFunc := fun env f w _ => Ret (Some (gt_SLoad (env_gasTable env)), f, w).
Definition gasExp : gasFunc := fun env f w _ =>
  let* e := Back 1 (stack f) in
  let expByteLen := (BitLen e + 7) / 8 in
  Ret (gas_add (u64 (expByteLen * gt_ExpByte (env_gasTable env))) GasSlowStep, f, w).
Definition gasReturn : gasFunc := fun _ f w memorySize => with_memory_gas f w memorySize Some.
Definition gasPush : gasFunc := constGasFunc GasFastestStep.
Definition gasSwap : gasFunc := constGasFunc GasFastestStep.
Definition gasDup : gasFunc := constGasFunc GasFastestStep.

(** The common end of the three call instructions: add the memory fee to [gas], compute the
    gas passed on and put it on top of the stack. *)
Definition call_gas (env : Env) (f : Frame) (w : W) (gas memoryGas : Z) : outcome (option Z * Frame * W) :=
  match gas_add gas memoryGas with
  | None => Ret (None, f, w)
  | Some gas =>
      let* requested := Back 0 (stack f) in
      match callGas (env_gasTable env) (Gas (contract f)) gas requested with
      | None => Ret (None, f, w)
      | Some cg =>
          let* st := stack_settop cg (stack f) in
          Ret (gas_add gas cg, set_stack st f, w)
      end
  end.

Definition gasCall : gasFunc := fun env f w memorySize =>
  let* v := Back 2 (stack f) in
  let* a := Back 1 (stack f) in
  let transfersValue := negb (Sign v =? 0) in
  let address := BigToAddress a in
  let gas := gt_Calls (env_gasTable env) in
  let '(gas, w) :=
    if eip158 env then
      let '(e, w) := get (Empty address) w in
      (if e && transfersValue then u64 (gas + CallNewAccountGas) else gas, w)
    else
      let '(x, w) := get (Exist address) w in
      (if negb x then u64 (gas + CallNewAccountGas) else gas, w) in
  let gas := if transfersValue then u64 (gas + CallValueTransferGas) else gas in
  let '(fee, mem) := memoryGasCost (memory f) memorySize in
  let f := set_memory mem f in
  match fee with
  | None => Ret (None, f, w)
  | Some memoryGas => call_gas env f w gas memoryGas
  end.

Definition gasCallCode : gasFunc := fun env f w memorySize =>
  let* v := Back 2 (stack f) in
  let gas := gt_Calls (env_gasTable env) in
  let gas := if negb (Sign v =? 0) then u64 (gas + CallValueTransferGas) else gas in
  let '(fee, mem) := memoryGasCost (memory f) memorySize in
  let f := set_memory mem f in
  match fee with
  | None => Ret (None, f, w)
  | Some memoryGas => call_gas env f w gas memoryGas
  end.

Definition gasDelegateCall : gasFunc := fun env f w memorySize =>
  let '(fee, mem) := memoryGasCost (memory f) memorySize in
  let f := set_memory mem f in
  match fee with
  | None => Ret (None, f, w)
  | Some gas => call_gas env f w gas (gt_Calls (env_gasTable env))
  end.

Definition gasSuicide : gasFunc := fun env f w _ =>
  let '(gas, w) :=
    if eip150 env then
      let gas := gt_Suicide (env_gasTable env) in
      match stack f with
      | [] => (None, w)
      | a :: _ =>
          let address := BigToAddress a in
          if eip158 env then
            let '(e, w) := get (Empty address) w in
            if e then
              let '(b, w) := get (GetBalance (self (contract f))) w in
              (Some (if negb (Sign b =? 0) then u64 (gas + gt_CreateBySuicide (env_gasTable env)) else gas), w)
            else (Some gas, w)
          else
            let '(x, w) := get (Exist address) w in
            (Some (if negb x then u64 (gas + gt_CreateBySuicide (env_gasTable env)) else gas), w)
      end
    else (Some 0, w) in
  match gas with
  | None => Panic
  | Some gas =>
      let '(d, w) := get (HasSuicided (self (contract f))) w in
      Ret (Some gas, f, if negb d then upd_sdb (AddRefund SuicideRefundGas) w else w)
  end.
(** ** Calls ([evm.go]) *)

(** What [Interpreter.Run] returns: data, error, the contract with its remaining gas, and the
    machine state.  The calls are written for an arbitrary interpreter; the recursion is tied
    below. *)
Definition RunResult : Type := list byte * option vmError * Contract * W.
Definition RunFn : Type := Contract -> list byte -> W -> outcome RunResult.
(** What a call returns: data, left-over gas, error. *)
Definition CallResult : Type := list byte * Z * option vmError * W.

(** [run]: precompiled contracts, with a fallback to the interpreter. *)
Definition run (Run : RunFn) (c : Contract) (input : list byte) (w : W) : outcome RunResult :=
  match CodeAddr c with
  | Some a =>
      match PrecompiledContracts a with
      | Some p => let* r := RunPrecompiledContract p input c in
                  let '(ret, err, c) := r in Ret (ret, err, c, w)
      | None => Run c input w
      end
  | None => Run c input w
  end.

(** The end of [Call], [CallCode] and [DelegateCall]: on an error, consume the gas and revert. *)
Definition finish_call (snapshot : Z) (r : RunResult) : outcome CallResult :=
  let '(ret, err, c, w) := r in
  match err with
  | None => Ret (ret, Gas c, None, w)
  | Some e =>
      let c := (UseGas (Gas c) c).2 in
      let* s := or_panic (RevertToSnapshot snapshot (sdb w)) in
      Ret (ret, Gas c, Some e, set_sdb s w)
  end.

(** Give a contract the code of [addr]. *)
Definition load_code (addr : Address) (c : Contract) (w : W) : Contract * W :=
  let '(h, w) := get (GetCodeHash addr) w in
  let '(code, w) := get (GetCode addr) w in
  (SetCallCode addr h code c, w).

Definition Call (Run : RunFn) (env : Env) (caller : ContractRef) (addr : Address) (input : list byte)
    (gas v : Z) (w : W) : outcome CallResult :=
  if NoRecursion env && (depth w >? 0) then Ret ([], gas, None, w)
  else if depth w >? CallCreateDepth then Ret ([], gas, Some ErrDepth, w)
  else
    let '(ok, w) := get (CanTransfer (ref_Address caller) v) w in
    if negb ok then Ret ([], gas, Some ErrInsufficientBalance, w)
    else
      let '(snapshot, w) := get Snapshot w in
      let '(x, w) := get (Exist addr) w in
      if negb x && (match PrecompiledContracts addr with None => true | Some _ => false end)
         && eip158 env && (Sign v =? 0)
      then Ret ([], gas, None, w)
      else
        let w := if x then w else upd_sdb (CreateAccount addr) w in
        let w := upd_sdb (Transfer (ref_Address caller) addr v) w in
        let '(c, d) := NewContract caller addr v gas (dests w) in
        let '(c, w) := load_code addr c (set_dests d w) in
        let* r := run Run c input w in
        finish_call snapshot r.

Definition CallCode (Run : RunFn) (env : Env) (caller : ContractRef) (addr : Address) (input : list byte)
    (gas v : Z) (w : W) : outcome CallResult :=
  if NoRecursion env && (depth w >? 0) then Ret ([], gas, None, w)
  else if depth w >? CallCreateDepth then Ret ([], gas, Some ErrDepth, w)
  else
    let '(ok, w) := get (CanTransfer (ref_Address caller) v) w in
    if negb ok then Ret ([], gas, Some ErrInsufficientBalance, w)
    else
      let '(snapshot, w) := get Snapshot w in
      let '(c, d) := NewContract caller (ref_Address caller) v gas (dests w) in
      let '(c, w) := load_code addr c (set_dests d w) in
      let* r := run Run c input w in
      finish_call snapshot r.

(** [NewContract(caller, to, nil, gas).AsDelegate()]: the nil value is replaced at once. *)
Definition EvmDelegateCall (Run : RunFn) (env : Env) (caller : ContractRef) (addr : Address)
    (input : list byte) (gas : Z) (w : W) : outcome CallResult :=
  if NoRecursion env && (depth w >? 0) then Ret ([], gas, None, w)
  else if depth w >? CallCreateDepth then Ret ([], gas, Some ErrDepth, w)
  else
    let '(snapshot, w) := get Snapshot w in
    let '(c, d) := NewContract caller (ref_Address caller) 0 gas (dests w) in
    let* c := AsDelegate caller c in
    let '(c, w) := load_code addr c (set_dests d w) in
    let* r := run Run c input w in
    finish_call snapshot r.

(** The end of [Create]: pay for the code and store it, or revert. *)
Definition finish_create (env : Env) (contractAddr : Address) (snapshot : Z) (r : RunResult)
  : outcome (list byte * Address * Z * option vmError * W) :=
  let '(ret, err, c, w) := r in
  let maxCodeSizeExceeded := zlen ret >? MaxCodeSize in
  let '(err, c, w) :=
    match err with
    | None =>
        if maxCodeSizeExceeded then (err, c, w)
        else
          let createDataGas := u64 (zlen ret * CreateDataGas) in
          let '(ok, c) := UseGas createDataGas c in
          if ok then (None, c, upd_sdb (SetCode contractAddr ret) w)
          else (Some ErrCodeStoreOutOfGas, c, w)
    | Some _ => (err, c, w)
    end in
  let revert :=
    maxCodeSizeExceeded ||
    match err with
    | None => false
    | Some e => homestead env || match e with ErrCodeStoreOutOfGas => false | _ => true end
    end in
  let ret := match err with None => ret | Some _ => [] end in
  if revert then
    let c := (UseGas (Gas c) c).2 in
    let* s := or_panic (RevertToSnapshot snapshot (sdb w)) in
    Ret (ret, contractAddr, Gas c, err, set_sdb s w)
  else Ret (ret, contractAddr, Gas c, err, w).

(** [Create] also returns the address of the new contract. *)
Definition Create (Run : RunFn) (env : Env) (caller : ContractRef) (code : list byte) (gas v : Z) (w : W)
  : outcome (list byte * Address * Z * option vmError * W) :=
  if NoRecursion env && (depth w >? 0) then Ret ([], 0, gas, None, w)
  else if depth w >? CallCreateDepth then Ret ([], 0, gas, Some ErrDepth, w)
  else
    let '(ok, w) := get (CanTransfer (ref_Address caller) v) w in
    if negb ok then Ret ([], 0, gas, Some ErrInsufficientBalance, w)
    else
      let '(nonce, w) := get (GetNonce (ref_Address caller)) w in
      let w := upd_sdb (SetNonce (ref_Address caller) (u64 (nonce + 1))) w in
      let '(snapshot, w) := get Snapshot w in
      let contractAddr := Rlp.CreateAddress (ref_Address caller) nonce in
      let w := upd_sdb (CreateAccount contractAddr) w in
      let w := if eip158 env then upd_sdb (SetNonce contractAddr 1) w else w in
      let w := upd_sdb (Transfer (ref_Address caller) contractAddr v) w in
      let '(c, d) := NewContract caller contractAddr v gas (dests w) in
      let c := SetCallCode contractAddr (Keccak256Hash code) code c in
      let* r := run Run c [] (set_dests d w) in
      finish_create env contractAddr snapshot r.

(** ** Instructions ([instructions.go]) *)

Inductive xres := XOk (res : list byte) (f : Frame) (w : W) | XErr (e : vmError) (f : Frame) (w : W).
Definition executionFunc : Type := RunFn -> Env -> Frame -> W -> outcome xres.

(** Instructions that only rearrange the stack. *)
Definition push_op (v : Env -> Frame -> Z) : executionFunc := fun _ env f w =>
  Ret (XOk [] (set_stack (v env f :: stack f) f) w).
Definition un_op (h : Z -> Z) : executionFunc := fun _ _ f w =>
  match stack f with
  | x :: st => Ret (XOk [] (set_stack (h x :: st) f) w)
  | _ => Panic
  end.
Definition bin_op (h : Z -> Z -> Z) : executionFunc := fun _ _ f w =>
  match stack f with
  | x :: y :: st => Ret (XOk [] (set_stack (h x y :: st) f) w)
  | _ => Panic
  end.
Definition tern_op (h : Z -> Z -> Z -> Z) : executionFunc := fun _ _ f w =>
  match stack f with
  | x :: y :: z :: st => Ret (XOk [] (set_stack (h x y z :: st) f) w)
  | _ => Panic
  end.
Definition b2z (b : bool) : Z := if b then 1 else 0.

Definition opAdd : executionFunc := bin_op (fun x y => U256 (x + y)).
Definition opSub : executionFunc := bin_op (fun x y => U256 (x - y)).
Definition opMul : executionFunc := bin_op (fun x y => U256 (x * y)).
Definition opDiv : executionFunc := bin_op (fun x y => if negb (Sign y =? 0) then U256 (x / y) else 0).
Definition opSdiv : executionFunc := bin_op (fun x y =>
  let x := S256 x in let y := S256 y in
  if Sign y =? 0 then 0
  else let n := if Sign (x * y) <? 0 then -1 else 1 in
       U256 ((Z.abs x / Z.abs y) * n)).
Definition opMod : executionFunc := bin_op (fun x y => if Sign y =? 0 then 0 else U256 (x mod y)).
Definition opSmod : executionFunc := bin_op (fun x y =>
  let x := S256 x in let y := S256 y in
  if Sign y =? 0 then 0
  else let n := if Sign x <? 0 then -1 else 1 in
       U256 ((Z.abs x mod Z.abs y) * n)).
Definition opExp : executionFunc := bin_op (fun base exponent => (Exp base exponent).1).
Definition opSignExtend : executionFunc := fun _ _ f w =>
  match stack f with
  | back :: st =>
      if back <? 31 then
        let bit := u64 (Uint64 back * 8 + 7) in
        match st with
        | num :: st =>
            let mask := Z.shiftl 1 bit - 1 in
            let num := if Z.testbit num bit then Z.lor num (Z.lnot mask) else Z.land num mask in
            Ret (XOk [] (set_stack (U256 num :: st) f) w)
        | [] => Panic
        end
      else Ret (XOk [] (set_stack st f) w)
  | [] => Panic
  end.
Definition opNot : executionFunc := un_op (fun x => U256 (Z.lnot x)).
Definition opLt : executionFunc := bin_op (fun x y => b2z (x <? y)).
Definition opGt : executionFunc := bin_op (fun x y => b2z (x >? y)).
Definition opSlt : executionFunc := bin_op (fun x y => b2z (S256 x <? S256 (S256 y))).
Definition opSgt : executionFunc := bin_op (fun x y => b2z (S256 x >? S256 y)).
Definition opEq : executionFunc := bin_op (fun x y => b2z (x =? y)).
Definition opIszero : executionFunc := un_op (fun x => if Sign x >? 0 then 0 else 1).
Definition opAnd : executionFunc := bin_op Z.land.
Definition opOr : executionFunc := bin_op Z.lor.
Definition opXor : executionFunc := bin_op Z.lxor.
Definition opByte : executionFunc := bin_op (fun th val =>
  if th <? 32 then byte_to_Z (ByteAt val 32 (Z.to_nat (Int64 th))) else 0).
Definition opAddmod : executionFunc := tern_op (fun x y z => if z >? 0 then U256 ((x + y) mod z) else 0).
Definition opMulmod : executionFunc := tern_op (fun x y z => if z >? 0 then U256 ((x * y) mod z) else 0).

Definition opSha3 : executionFunc := fun _ env f w =>
  match stack f with
  | offset :: size :: st =>
      let* data := mem_Get (Int64 offset) (Int64 size) (memory f) in
      let hash := Keccak256 data in
      let w := if EnablePreimageRecording env then upd_sdb (AddPreimage (BytesToHash hash) data) w else w in
      Ret (XOk [] (set_stack (SetBytes hash :: st) f) w)
  | _ => Panic
  end.

Definition opAddress : executionFunc := push_op (fun _ f => self (contract f)).
Definition opBalance : executionFunc := fun _ _ f w =>
  match stack f with
  | a :: st => let '(b, w) := get (GetBalance (BigToAddress a)) w in
               Ret (XOk [] (set_stack (b :: st) f) w)
  | _ => Panic
  end.
Definition opOrigin : executionFunc := push_op (fun env _ => Origin env).
Definition opCaller : executionFunc := push_op (fun _ f => CallerAddress (contract f)).
Definition opCallValue : executionFunc := push_op (fun _ f => value (contract f)).
Definition opCalldataLoad : executionFunc := fun _ _ f w =>
  match stack f with
  | x :: st => let* d := getData (Input (contract f)) x 32 in
               Ret (XOk [] (set_stack (SetBytes d :: st) f) w)
  | _ => Panic
  end.
Definition opCalldataSize : executionFunc := push_op (fun _ f => zlen (Input (contract f))).

(** [memory.Set(mOff, l, getData(data, cOff, l))] *)
Definition copy_to_memory (data : list byte) (mOff cOff l : Z) (m : Memory) : outcome Memory :=
  let* d := getData data cOff l in mem_Set (Uint64 mOff) (Uint64 l) d m.
Definition opCalldataCopy : executionFunc := fun _ _ f w =>
  match stack f with
  | mOff :: cOff :: l :: st =>
      let* m := copy_to_memory (Input (contract f)) mOff cOff l (memory f) in
      Ret (XOk [] (set_memory m (set_stack st f)) w)
  | _ => Panic
  end.
Definition opExtCodeSize : executionFunc := fun _ _ f w =>
  match stack f with
  | a :: st => let '(n, w) := get (GetCodeSize (BigToAddress a)) w in
               Ret (XOk [] (set_stack (n :: st) f) w)
  | _ => Panic
  end.
Definition opCodeSize : executionFunc := push_op (fun _ f => zlen (Code (contract f))).
Definition opCodeCopy : executionFunc := fun _ _ f w =>
  match stack f with
  | mOff :: cOff :: l :: st =>
      let* m := copy_to_memory (Code (contract f)) mOff cOff l (memory f) in
      Ret (XOk [] (set_memory m (set_stack st f)) w)
  | _ => Panic
  end.
Definition opExtCodeCopy : executionFunc := fun _ _ f w =>
  match stack f with
  | a :: mOff :: cOff :: l :: st =>
      let '(code, w) := get (GetCode (BigToAddress a)) w in
      let* m := copy_to_memory code mOff cOff l (memory f) in
      Ret (XOk [] (set_memory m (set_stack st f)) w)
  | _ => Panic
  end.
Definition opGasprice : executionFunc := push_op (fun env _ => GasPrice env).
Definition opBlockhash : executionFunc := fun _ env f w =>
  match stack f with
  | num :: st =>
      let n := BlockNumber env - 257 in
      let v := if (num >? n) && (num <? BlockNumber env) then GetHash env (Uint64 num) else 0 in
      Ret (XOk [] (set_stack (v :: st) f) w)
  | _ => Panic
  end.
Definition opCoinbase : executionFunc := push_op (fun env _ => Coinbase env).
Definition opTimestamp : executionFunc := push_op (fun env _ => U256 (Time env)).
Definition opNumber : executionFunc := push_op (fun env _ => U256 (BlockNumber env)).
Definition opDifficulty : executionFunc := push_op (fun env _ => U256 (Difficulty env)).
Definition opGasLimit : executionFunc := push_op (fun env _ => U256 (GasLimit env)).
Definition opPop : executionFunc := fun _ _ f w =>
  match stack f with _ :: st => Ret (XOk [] (set_stack st f) w) | _ => Panic end.
Definition opMload : executionFunc := fun _ _ f w =>
  match stack f with
  | offset :: st => let* d := mem_Get (Int64 offset) 32 (memory f) in
                    Ret (XOk [] (set_stack (SetBytes d :: st) f) w)
  | _ => Panic
  end.
Definition opMstore : executionFunc := fun _ _ f w =>
  match stack f with
  | mStart :: val :: st =>
      let* m := mem_Set (Uint64 mStart) 32 (PaddedBigBytes val 32) (memory f) in
      Ret (XOk [] (set_memory m (set_stack st f)) w)
  | _ => Panic
  end.
Definition opMstore8 : executionFunc := fun _ _ f w =>
  match stack f with
  | off :: val :: st =>
      let* m := mem_store (Int64 off) (byte_of_Z (Z.land (Int64 val) 0xff)) (memory f) in
      Ret (XOk [] (set_memory m (set_stack st f)) w)
  | _ => Panic
  end.
Definition opSload : executionFunc := fun _ _ f w =>
  match stack f with
  | k :: st => let '(v, w) := get (GetState (self (contract f)) (BigToHash k)) w in
               Ret (XOk [] (set_stack (v :: st) f) w)
  | _ => Panic
  end.
Definition opSstore : executionFunc := fun _ _ f w =>
  match stack f with
  | k :: val :: st =>
      Ret (XOk [] (set_stack st f) (upd_sdb (SetState (self (contract f)) (BigToHash k) (BigToHash val)) w))
  | _ => Panic
  end.

(** [contract.jumpdests.has(contract.CodeHash, contract.Code, pos)] and the jump. *)
Definition jump_to (pos : Z) (f : Frame) (w : W) : outcome xres :=
  let* r := dest_has (CodeHash (contract f)) (Code (contract f)) pos (dests w) in
  let '(ok, d) := r in
  let w := set_dests d w in
  if ok then Ret (XOk [] (set_pc (Uint64 pos) f) w)
  else Ret (XErr (errInvalidJump (GetOp (contract f) (Uint64 pos)) pos) f w).
Definition opJump : executionFunc := fun _ _ f w =>
  match stack f with pos :: st => jump_to pos (set_stack st f) w | _ => Panic end.
Definition opJumpi : executionFunc := fun _ _ f w =>
  match stack f with
  | pos :: cond :: st =>
      let f := set_stack st f in
      if negb (Sign cond =? 0) then jump_to pos f w
      else Ret (XOk [] (set_pc (u64 (pc f + 1)) f) w)
  | _ => Panic
  end.
Definition opJumpdest : executionFunc := fun _ _ f w => Ret (XOk [] f w).
Definition opPc : executionFunc := push_op (fun _ f => pc f).
Definition opMsize : executionFunc := push_op (fun _ f => mem_Len (memory f)).
Definition opGas : executionFunc := push_op (fun _ f => Gas (contract f)).

Definition opCreate : executionFunc := fun Run env f w =>
  match stack f with
  | v :: offset :: size :: st =>
      let* input := mem_Get (Int64 offset) (Int64 size) (memory f) in
      let gas := Gas (contract f) in
      let gas := if eip150 env then u64 (gas - gas / 64) else gas in
      let c := (UseGas gas (contract f)).2 in
      let* r := Create Run env (ContractOf c) input gas v w in
      let '(_, addr, returnGas, suberr, w) := r in
      let res := match suberr with
                 | None => addr
                 | Some ErrCodeStoreOutOfGas => if homestead env then 0 else addr
                 | Some _ => 0
                 end in
      let c := set_gas (u64 (Gas c + returnGas)) c in
      Ret (XOk [] (set_contract c (set_stack (res :: st) f)) w)
  | _ => Panic
  end.

(** What the call instructions do with the result of a call. *)
Definition finish_op (retOffset retSize : Z) (st : list Z) (f : Frame) (r : CallResult) : outcome xres :=
  let '(ret, returnGas, err, w) := r in
  let* rm := match err with
             | Some _ => Ret (0, memory f)
             | None => let* m := mem_Set (Uint64 retOffset) (Uint64 retSize) ret (memory f) in Ret (1, m)
             end in
  let '(v, m) := rm in
  let c := set_gas (u64 (Gas (contract f) + returnGas)) (contract f) in
  Ret (XOk ret (set_contract c (set_memory m (set_stack (v :: st) f))) w).

Definition opCall : executionFunc := fun Run env f w =>
  match stack f with
  | g :: addr :: v :: inOffset :: inSize :: retOffset :: retSize :: st =>
      let gas := Uint64 g in
      let v := U256 v in
      let address := BigToAddress addr in
      let* args := mem_Get (Int64 inOffset) (Int64 inSize) (memory f) in
      let gas := if negb (Sign v =? 0) then u64 (gas + CallStipend) else gas in
      let* r := Call Run env (ContractOf (contract f)) address args gas v w in
      finish_op retOffset retSize st f r
  | _ => Panic
  end.
Definition opCallCode : executionFunc := fun Run env f w =>
  match stack f with
  | g :: addr :: v :: inOffset :: inSize :: retOffset :: retSize :: st =>
      let gas := Uint64 g in
      let v := U256 v in
      let address := BigToAddress addr in
      let* args := mem_Get (Int64 inOffset) (Int64 inSize) (memory f) in
      let gas := if negb (Sign v =? 0) then u64 (gas + CallStipend) else gas in
      let* r := CallCode Run env (ContractOf (contract f)) address args gas v w in
      finish_op retOffset retSize st f r
  | _ => Panic
  end.
Definition opDelegateCall : executionFunc := fun Run env f w =>
  match stack f with
  | g :: to :: inOffset :: inSize :: outOffset :: outSize :: st =>
      let gas := Uint64 g in
      let toAddr := BigToAddress to in
      let* args := mem_Get (Int64 inOffset) (Int64 inSize) (memory f) in
      let* r := EvmDelegateCall Run env (ContractOf (contract f)) toAddr args gas w in
      finish_op outOffset outSize st f r
  | _ => Panic
  end.

Definition opReturn : executionFunc := fun _ _ f w =>
  match stack f with
  | offset :: size :: st =>
      let* ret := mem_GetPtr (Int64 offset) (Int64 size) (memory f) in
      Ret (XOk ret (set_stack st f) w)
  | _ => Panic
  end.
Definition opStop : executionFunc := fun _ _ f w => Ret (XOk [] f w).
Definition opSuicide : executionFunc := fun _ _ f w =>
  match stack f with
  | a :: st =>
      let '(balance, w) := get (GetBalance (self (contract f))) w in
      let w := upd_sdb (AddBalance (BigToAddress a) balance) w in
      let w := (get (Suicide (self (contract f))) w).2 in
      Ret (XOk [] (set_stack st f) w)
  | _ => Panic
  end.

Fixpoint pop_topics (n : nat) (st : list Z) : outcome (list Hash * list Z) :=
  match n with
  | O => Ret ([], st)
  | Datatypes.S n' => let* r := pop st in let '(x, st) := r in
            let* r := pop_topics n' st in let '(l, st) := r in Ret (BigToHash x :: l, st)
  end.
Definition makeLog (size : nat) : executionFunc := fun _ env f w =>
  match stack f with
  | mStart :: mSize :: st =>
      let* r := pop_topics size st in
      let '(topics, st) := r in
      let* d := mem_Get (Int64 mStart) (Int64 mSize) (memory f) in
      let log := mkLog (self (contract f)) topics d (Uint64 (BlockNumber env)) 0 0 0 0 in
      Ret (XOk [] (set_stack st f) (upd_sdb (AddLog log) w))
  | _ => Panic
  end.
Definition makePush (size pushByteSize : Z) : executionFunc := fun _ _ f w =>
  let code := Code (contract f) in
  let codeLen := zlen code in
  let startMin := if i64 (u64 (pc f + 1)) <? codeLen then i64 (u64 (pc f + 1)) else codeLen in
  let endMin := if startMin + pushByteSize <? codeLen then startMin + pushByteSize else codeLen in
  let* d := or_panic (slice code startMin endMin) in
  Ret (XOk [] (set_pc (u64 (pc f + size)) (set_stack (SetBytes (RightPadBytes d pushByteSize) :: stack f) f)) w).
Definition makeDup (size : nat) : executionFunc := fun _ _ f w =>
  let* st := stack_dup size (stack f) in Ret (XOk [] (set_stack st f) w).
Definition makeSwap (size : nat) : executionFunc := fun _ _ f w =>
  let* st := stack_swap (size + 1) (stack f) in Ret (XOk [] (set_stack st f) w).

(** ** The jump table ([jump_table.go]) *)

(** The field [valid] is membership in the table; [writes] and [reverts] are never read. *)
Record operation := mkOperation {
  execute : executionFunc;
  gasCost : gasFunc;
  op_pop : Z;
  op_push : Z;
  memorySize : option (list Z -> outcome Z);
  halts : bool;
  jumps : bool;
}.
Definition validateStack (o : operation) (st : list Z) : option vmError :=
  makeStackFunc (op_pop o) (op_push o) st.

(** The literal of [NewFrontierInstructionSet], in sections. *)

(** Arithmetic, comparisons, bits. *)
Definition arithmeticInstructions : list (OpCode * operation) :=
  [
    (0x00, mkOperation opStop (constGasFunc 0) 0 0 None true false); (* STOP *)
    (0x01, mkOperation opAdd (constGasFunc GasFastestStep) 2 1 None false false); (* ADD *)
    (0x02, mkOperation opMul (constGasFunc GasFastStep) 2 1 None false false); (* MUL *)
    (0x03, mkOperation opSub (constGasFunc GasFastestStep) 2 1 None false false); (* SUB *)
    (0x04, mkOperation opDiv (constGasFunc GasFastStep) 2 1 None false false); (* DIV *)
    (0x05, mkOperation opSdiv (constGasFunc GasFastStep) 2 1 None false false); (* SDIV *)
    (0x06, mkOperation opMod (constGasFunc GasFastStep) 2 1 None false false); (* MOD *)
    (0x07, mkOperation opSmod (constGasFunc GasFastStep) 2 1 None false false); (* SMOD *)
    (0x08, mkOperation opAddmod (constGasFunc GasMidStep) 3 1 None false false); (* ADDMOD *)
    (0x09, mkOperation opMulmod (constGasFunc GasMidStep) 3 1 None false false); (* MULMOD *)
    (0x0a, mkOperation opExp gasExp 2 1 None false false); (* EXP *)
    (0x0b, mkOperation opSignExtend (constGasFunc GasFastStep) 2 1 None false false); (* SIGNEXTEND *)
    (0x10, mkOperation opLt (constGasFunc GasFastestStep) 2 1 None false false); (* LT *)
    (0x11, mkOperation opGt (constGasFunc GasFastestStep) 2 1 None false false); (* GT *)
    (0x12, mkOperation opSlt (constGasFunc GasFastestStep) 2 1 None false false); (* SLT *)
    (0x13, mkOperation opSgt (constGasFunc GasFastestStep) 2 1 None false false); (* SGT *)
    (0x14, mkOperation opEq (constGasFunc GasFastestStep) 2 1 None false false); (* EQ *)
    (0x15, mkOperation opIszero (constGasFunc GasFastestStep) 1 1 None false false); (* ISZERO *)
    (0x16, mkOperation opAnd (constGasFunc GasFastestStep) 2 1 None false false); (* AND *)
    (0x18, mkOperation opXor (constGasFunc GasFastestStep) 2 1 None false false); (* XOR *)
    (0x17, mkOperation opOr (constGasFunc GasFastestStep) 2 1 None false false); (* OR *)
    (0x19, mkOperation opNot (constGasFunc GasFastestStep) 1 1 None false false); (* NOT *)
    (0x1a, mkOperation opByte (constGasFunc GasFastestStep) 2 1 None false false) (* BYTE *)
  ].
(** Hashing, the environment and the block. *)
Definition environmentInstructions : list (OpCode * operation) :=
  [
    (0x20, mkOperation opSha3 gasSha3 2 1 (Some memorySha3) false false); (* SHA3 *)
    (0x30, mkOperation opAddress (constGasFunc GasQuickStep) 0 1 None false false); (* ADDRESS *)
    (0x31, mkOperation opBalance gasBalance 1 1 None false false); (* BALANCE *)
    (0x32, mkOperation opOrigin (constGasFunc GasQuickStep) 0 1 None false false); (* ORIGIN *)
    (0x33, mkOperation opCaller (constGasFunc GasQuickStep) 0 1 None false false); (* CALLER *)
    (0x34, mkOperation opCallValue (constGasFunc GasQuickStep) 0 1 None false false); (* CALLVALUE *)
    (0x35, mkOperation opCalldataLoad (constGasFunc GasFastestStep) 1 1 None false false); (* CALLDATALOAD *)
    (0x36, mkOperation opCalldataSize (constGasFunc GasQuickStep) 0 1 None false false); (* CALLDATASIZE *)
    (0x37, mkOperation opCalldataCopy gasCalldataCopy 3 0 (Some memoryCalldataCopy) false false); (* CALLDATACOPY *)
    (0x38, mkOperation opCodeSize (constGasFunc GasQuickStep) 0 1 None false false); (* CODESIZE *)
    (0x39, mkOperation opCodeCopy gasCodeCopy 3 0 (Some memoryCodeCopy) false false); (* CODECOPY *)
    (0x3a, mkOperation opGasprice (constGasFunc GasQuickStep) 0 1 None false false); (* GASPRICE *)
    (0x3b, mkOperation opExtCodeSize gasExtCodeSize 1 1 None false false); (* EXTCODESIZE *)
    (0x3c, mkOperation opExtCodeCopy gasExtCodeCopy 4 0 (Some memoryExtCodeCopy) false false); (* EXTCODECOPY *)
    (0x40, mkOperation opBlockhash (constGasFunc GasExtStep) 1 1 None false false); (* BLOCKHASH *)
    (0x41, mkOperation opCoinbase (constGasFunc GasQuickStep) 0 1 None false false); (* COINBASE *)
    (0x42, mkOperation opTimestamp (constGasFunc GasQuickStep) 0 1 None false false); (* TIMESTAMP *)
    (0x43, mkOperation opNumber (constGasFunc GasQuickStep) 0 1 None false false); (* NUMBER *)
    (0x44, mkOperation opDifficulty (constGasFunc GasQuickStep) 0 1 None false false); (* DIFFICULTY *)
    (0x45, mkOperation opGasLimit (constGasFunc GasQuickStep) 0 1 None false false) (* GASLIMIT *)
  ].
(** Stack, memory, storage and flow. *)
Definition storageInstructions : list (OpCode * operation) :=
  [
    (0x50, mkOperation opPop (constGasFunc GasQuickStep) 1 0 None false false); (* POP *)
    (0x51, mkOperation opMload gasMLoad 1 1 (Some memoryMLoad) false false); (* MLOAD *)
    (0x52, mkOperation opMstore gasMStore 2 0 (Some memoryMStore) false false); (* MSTORE *)
    (0x53, mkOperation opMstore8 gasMStore8 2 0 (Some memoryMStore8) false false); (* MSTORE8 *)
    (0x54, mkOperation opSload gasSLoad 1 1 None false false); (* SLOAD *)
    (0x55, mkOperation opSstore gasSStore 2 0 None false false); (* SSTORE *)
    (0x56, mkOperation opJump (constGasFunc GasMidStep) 1 0 None false true); (* JUMP *)
    (0x57, mkOperation opJumpi (constGasFunc GasSlowStep) 2 0 None false true); (* JUMPI *)
    (0x58, mkOperation opPc (constGasFunc GasQuickStep) 0 1 None false false); (* PC *)
    (0x59, mkOperation opMsize (constGasFunc GasQuickStep) 0 1 None false false); (* MSIZE *)
    (0x5a, mkOperation opGas (constGasFunc GasQuickStep) 0 1 None false false); (* GAS *)
    (0x5b, mkOperation opJumpdest (constGasFunc JumpdestGas) 0 0 None false false) (* JUMPDEST *)
  ].
(** Logs. *)
Definition logInstructions : list (OpCode * operation) :=
  [
    (0xa0, mkOperation (makeLog 0) (makeGasLog 0) 2 0 (Some memoryLog) false false); (* LOG0 *)
    (0xa1, mkOperation (makeLog 1) (makeGasLog 1) 3 0 (Some memoryLog) false false); (* LOG1 *)
    (0xa2, mkOperation (makeLog 2) (makeGasLog 2) 4 0 (Some memoryLog) false false); (* LOG2 *)
    (0xa3, mkOperation (makeLog 3) (makeGasLog 3) 5 0 (Some memoryLog) false false); (* LOG3 *)
    (0xa4, mkOperation (makeLog 4) (makeGasLog 4) 6 0 (Some memoryLog) false false) (* LOG4 *)
  ].
(** Calls and halting. *)
Definition systemInstructions : list (OpCode * operation) :=
  [
    (0xf0, mkOperation opCreate gasCreate 3 1 (Some memoryCreate) false false); (* CREATE *)
    (0xf1, mkOperation opCall gasCall 7 1 (Some memoryCall) false false); (* CALL *)
    (0xf2, mkOperation opCallCode gasCallCode 7 1 (Some memoryCall) false false); (* CALLCODE *)
    (0xf3, mkOperation opReturn gasReturn 2 0 (Some memoryReturn) true false); (* RETURN *)
    (0xff, mkOperation opSuicide gasSuicide 1 0 None true false) (* SELFDESTRUCT *)
  ].
Definition pushInstructions : list (OpCode * operation) :=
  map (fun i => (0x60 + i - 1, mkOperation (makePush i i) gasPush 0 1 None false false))
      (map Z.of_nat (seq 1 32)).
(** [makeDupStackFunc] and [makeSwapStackFunc] ([stack_table.go]). *)
Definition dupInstructions : list (OpCode * operation) :=
  map (fun i => (0x80 + Z.of_nat i - 1,
         mkOperation (makeDup i) gasDup (Z.of_nat i) (Z.of_nat i + 1) None false false)) (seq 1 16).
Definition swapInstructions : list (OpCode * operation) :=
  map (fun i => (0x90 + Z.of_nat i - 1,
         mkOperation (makeSwap i) gasSwap (Z.of_nat i + 1) (Z.of_nat i + 1) None false false)) (seq 1 16).

Definition frontierInstructionSet : list (OpCode * operation) :=
  arithmeticInstructions ++ environmentInstructions ++ storageInstructions ++ logInstructions
  ++ systemInstructions ++ pushInstructions ++ dupInstructions ++ swapInstructions.
Definition homesteadInstructionSet : list (OpCode * operation) :=
  (0xf4, mkOperation opDelegateCall gasDelegateCall 6 1 (Some memoryDelegateCall) false false)
  :: frontierInstructionSet.

Fixpoint table_lookup (op : OpCode) (t : list (OpCode * operation)) : option operation :=
  match t with
  | [] => None
  | (n, o) :: t' => if n =? op then Some o else table_lookup op t'
  end.
(** [NewInterpreter]: the instruction set of the current block. *)
Definition JumpTable (env : Env) : list (OpCode * operation) :=
  if homestead env then homesteadInstructionSet else frontierInstructionSet.

(** ** The interpreter ([interpreter.go]) *)

(** One iteration of the main loop: it ends the run or leaves a frame to go on with. *)
Inductive step_res := Done (r : RunResult) | Continue (f : Frame) (w : W).

(** The memory size an operation needs, in bytes; [None] is an overflow. *)
Definition mem_size (o : operation) (st : list Z) : outcome (option Z) :=
  match memorySize o with
  | None => Ret (Some 0)
  | Some g =>
      let* sz := g st in
      let '(memSize, overflow) := bigUint64 sz in
      if overflow then Ret None
      else let '(r, overflow) := SafeMul (toWordSize memSize) 32 in
           Ret (if overflow then None else Some r)
  end.

(** Charge for the operation; [None] is out of gas. *)
Definition charge (env : Env) (o : operation) (f : Frame) (w : W) (size : Z)
  : outcome (option (Frame * W) * W) :=
  if DisableGasMetering env then Ret (Some (f, w), w)
  else
    let* r := gasCost o env f w size in
    let '(cost, f, w) := r in
    match cost with
    | None => Ret (None, w)
    | Some cost =>
        let '(ok, c) := UseGas cost (contract f) in
        if ok then Ret (Some (set_contract c f, w), w) else Ret (None, w)
    end.

Definition step (Run : RunFn) (env : Env) (f : Frame) (w : W) : outcome step_res :=
  if abort env (ticks w) then Ret (Done ([], None, contract f, tick w))
  else
    let w := tick w in
    let fail e w := Ret (Done ([], Some e, contract f, w)) in
    let op := GetOp (contract f) (pc f) in
    match table_lookup op (JumpTable env) with
    | None => fail (errInvalidOpcode op) w
    | Some o =>
        match validateStack o (stack f) with
        | Some e => fail e w
        | None =>
            let* sz := mem_size o (stack f) in
            match sz with
            | None => fail errGasUintOverflow w
            | Some size =>
                let* r := charge env o f w size in
                match r with
                | (None, w) => fail ErrOutOfGas w
                | (Some (f, w), _) =>
                    let f := if size >? 0 then set_memory (mem_Resize size (memory f)) f else f in
                    let* x := execute o Run env f w in
                    match x with
                    | XErr e f w => Ret (Done ([], Some e, contract f, w))
                    | XOk res f w =>
                        if halts o then Ret (Done (res, None, contract f, w))
                        else if jumps o then Ret (Continue f w)
                        else Ret (Continue (set_pc (u64 (pc f + 1)) f) w)
                    end
                end
            end
        end
    end.

(** [Interpreter.Run] around a main loop. *)
Definition run_with (loop : Frame -> W -> outcome RunResult) : RunFn := fun c input w =>
  let w := upd_depth (fun d => d + 1) w in
  match Code c with
  | [] => Ret ([], None, c, upd_depth (fun d => d - 1) w)
  | _ =>
      let* r := loop (mkFrame 0 (set_input input c) NewMemory []) w in
      let '(ret, err, c, w) := r in
      Ret (ret, err, c, upd_depth (fun d => d - 1) w)
  end.

Fixpoint loop (fuel : nat) (env : Env) (f : Frame) (w : W) : outcome RunResult :=
  match fuel with
  | O => OutOfFuel
  | Datatypes.S fuel' =>
      let* r := step (run_with (loop fuel' env)) env f w in
      match r with
      | Done r => Ret r
      | Continue f w => loop fuel' env f w
      end
  end.
Definition Run (fuel : nat) (env : Env) : RunFn := run_with (loop fuel env).

End vm.
End Vm.
