(* ===== verification/VmFacts.v ===== *)
(** * Facts about the parts of the virtual machine that do not touch the world

    Memory accesses within bounds, the exact memory fee, gas arithmetic, jump destination
    analysis, precompiled contracts. *)

From S2P Require Import Prelude GoMath Params World Rlp VmBase Vm.

Module VmFacts.
Import Vm.

(** ** Integers *)

Lemma Int64_small z : 0 <= z < 2 ^ 63 -> Int64 z = z.
Proof.
  intros. unfold Int64. destruct (Z.ltb_spec z 0); [lia|].
  rewrite Z.abs_eq by lia. by apply i64_small.
Qed.
Lemma Uint64_range z : 0 <= Uint64 z < 2 ^ 64.
Proof. apply u64_range. Qed.
Lemma in_u256_nonneg z : in_u256 z -> 0 <= z.
Proof. unfold in_u256. lia. Qed.
Lemma in_u256_u64 z : 0 <= z < 2 ^ 64 -> in_u256 z.
Proof. unfold in_u256. lia. Qed.

Lemma BitLen_64 v : 0 <= v -> BitLen v >? 64 = negb (v <? 2 ^ 64).
Proof.
  intros Hv. pose proof (BitLen_bound v 64 Hv ltac:(lia)) as Hb. rewrite Z.gtb_ltb.
  destruct (Z.ltb_spec 64 (BitLen v)), (Z.ltb_spec v (2 ^ 64)); cbn; try done; lia.
Qed.

Lemma to_uint64_spec v : 0 <= v -> to_uint64 v = if v <? 2 ^ 64 then Some v else None.
Proof.
  intros Hv. unfold to_uint64, bigUint64. rewrite BitLen_64 by done.
  destruct (Z.ltb_spec v (2 ^ 64)); cbn; [|done]. by rewrite Uint64_small by lia.
Qed.

Lemma toWordSize_spec n : 0 <= n < 2 ^ 64 -> toWordSize n = (n + 31) / 32.
Proof.
  intros Hn. unfold toWordSize, MaxUint64. rewrite Z.gtb_ltb.
  destruct (Z.ltb_spec (2 ^ 64 - 1 - 31) n); [|done].
  apply Z.div_unique with (n + 31 - 32 * (2 ^ 59)); [lia|].
  change ((2 ^ 64 - 1) / 32 + 1) with (2 ^ 59). lia.
Qed.

Lemma word_bounds n : 0 <= n -> n <= 32 * ((n + 31) / 32) < n + 32 /\ 0 <= (n + 31) / 32.
Proof.
  intros Hn. pose proof (Z.div_mod (n + 31) 32 ltac:(lia)).
  pose proof (Z.mod_pos_bound (n + 31) 32 ltac:(lia)). pose proof (Z.div_pos (n + 31) 32). lia.
Qed.

(** ** Safe arithmetic: a cost that is returned is exact *)

Lemma gas_add_Some x y r : in_u64 x -> in_u64 y -> gas_add x y = Some r -> r = x + y /\ r < 2 ^ 64.
Proof.
  intros Hx Hy. unfold gas_add. rewrite SafeAdd_spec by done.
  destruct (Z.ltb_spec (x + y) (2 ^ 64)); [|done]. by intros [= <-].
Qed.
Lemma gas_mul_Some x y r : in_u64 x -> in_u64 y -> gas_mul x y = Some r -> r = x * y /\ 0 <= r < 2 ^ 64.
Proof.
  intros Hx Hy. unfold gas_mul. rewrite SafeMul_spec by done.
  destruct (Z.ltb_spec (x * y) (2 ^ 64)); cbn; [|done]. intros [= <-].
  unfold in_u64 in *. rewrite u64_small by nia. nia.
Qed.

Lemma gas_words_Some base perWord v gas r :
  in_u64 base -> in_u64 perWord -> 0 <= v -> in_u64 gas ->
  gas_words base perWord v gas = Some r ->
  v < 2 ^ 64 /\ r = gas + base + ((v + 31) / 32) * perWord /\ r < 2 ^ 64.
Proof.
  intros Hb Hp Hv Hg. unfold gas_words.
  destruct (gas_add gas base) as [g|] eqn:E1; [|done]. cbn [opt_bind].
  apply gas_add_Some in E1 as [-> Hg1]; [|done|done].
  rewrite to_uint64_spec by done. destruct (Z.ltb_spec v (2 ^ 64)) as [Hv2|]; [|done]. cbn [opt_bind].
  rewrite toWordSize_spec by lia.
  destruct (gas_mul ((v + 31) / 32) perWord) as [m|] eqn:E2; [|done]. cbn [opt_bind].
  pose proof (word_bounds v Hv).
  apply gas_mul_Some in E2 as [-> Hm]; [|unfold in_u64; lia|done].
  intros [-> ?]%gas_add_Some; [lia|unfold in_u64 in *; lia|unfold in_u64 in *; lia].
Qed.

(** ** Memory *)

(** The total fee for [k] words of memory. *)
Definition fee (k : Z) : Z := k * MemoryGas + k * k / QuadCoeffDiv.

Lemma fee_nonneg k : 0 <= k -> 0 <= fee k.
Proof. intros. unfold fee, MemoryGas, QuadCoeffDiv. pose proof (Z.div_pos (k * k) 512). nia. Qed.
Lemma fee_mono j k : 0 <= j <= k -> fee j <= fee k.
Proof.
  intros H. unfold fee, MemoryGas, QuadCoeffDiv.
  pose proof (Z.div_le_mono (j * j) (k * k) 512 ltac:(lia) ltac:(nia)). nia.
Qed.
Lemma fee_linear k : 0 <= k -> 3 * k <= fee k.
Proof. intros. unfold fee, MemoryGas, QuadCoeffDiv. pose proof (Z.div_pos (k * k) 512). nia. Qed.

(** Memory of [k] words that has been paid for. *)
Record mem_ok (m : Memory) (k : Z) : Prop := {
  mo_len : zlen (store m) = 32 * k;
  mo_fee : lastGasCost m = fee k;
  mo_range : 0 <= k < 2 ^ 32 }.

(** No more gas than this can be spent on memory without the square of the word count
    overflowing 64 bits. *)
Definition GasCap : Z := 3 * 2 ^ 32.

Lemma fee_cap k : 0 <= k -> fee k < GasCap -> k < 2 ^ 32.
Proof. intros Hk H. pose proof (fee_linear k Hk). unfold GasCap in H. lia. Qed.

(** [memoryGasCost] for a request of [s] words: either the exact difference of the total fees, or
    a cost beyond [GasCap]. *)
Lemma memoryGasCost_spec m k s :
  mem_ok m k -> 0 <= s -> 32 * s < 2 ^ 64 -> fee k < GasCap ->
  exists c m', memoryGasCost m (32 * s) = (c, m') /\ store m' = store m /\
    match c with
    | None => True
    | Some c => in_u64 c /\
        ((Z.max k s < 2 ^ 32 /\ c = fee (Z.max k s) - fee k /\ lastGasCost m' = fee (Z.max k s)) \/
         GasCap - fee k <= c)
    end.
Proof.
  intros [Hlen Hfee Hk] Hs Hs64 Hcap. unfold memoryGasCost, MaxUint64. rewrite !Z.gtb_ltb.
  destruct (Z.ltb_spec (2 ^ 64 - 1 - 32) (32 * s)) as [|Hlt].
  { exists None, m. done. }
  destruct (Z.eqb_spec (32 * s) 0) as [E0|E0].
  { exists (Some 0), m. replace (Z.max k s) with k by lia. unfold in_u64. split_and!; try done; lia. }
  rewrite toWordSize_spec by lia.
  assert ((32 * s + 31) / 32 = s) as -> by (symmetry; apply Z.div_unique with 31; lia).
  rewrite (u64_small (s * 32)) by lia. unfold mem_Len. rewrite Hlen, Hfee.
  destruct (Z.ltb_spec (32 * k) (s * 32)) as [Hgt|Hle].
  2:{ exists (Some 0), m. replace (Z.max k s) with k by lia. unfold in_u64. split_and!; try done; lia. }
  rewrite (u64_small (s * MemoryGas)) by (unfold MemoryGas; lia).
  assert (0 <= u64 (s * s) / QuadCoeffDiv < 2 ^ 55) as Hq.
  { pose proof (u64_range (s * s)). unfold QuadCoeffDiv. split; [apply Z.div_pos; lia|].
    apply Z.div_lt_upper_bound; lia. }
  set (total := s * MemoryGas + u64 (s * s) / QuadCoeffDiv) in *.
  assert (3 * s <= total < 2 ^ 62) as Ht by (unfold total, MemoryGas; lia).
  rewrite (u64_small total) by lia. rewrite Z.max_r by lia.
  destruct (Z.lt_ge_cases s (2 ^ 32)) as [Hs32|Hs32].
  - assert (total = fee s) as Et.
    { unfold total, fee. rewrite u64_small; [done|]. nia. }
    pose proof (fee_mono k s ltac:(lia)). pose proof (fee_nonneg k ltac:(lia)).
    rewrite Et in *. rewrite u64_small by lia. eexists _, _. split; [done|]. cbn. unfold in_u64.
    split_and!; [done|lia|lia|]. left. split_and!; done || lia.
  - pose proof (fee_nonneg k ltac:(lia)). unfold GasCap in *. rewrite u64_small by lia.
    eexists _, _. split; [done|]. cbn. unfold in_u64. split_and!; [done|lia|lia|]. right. lia.
Qed.

(** Resizing after the fee has been charged. *)
Lemma mem_Resize_ok m k s :
  zlen (store m) = 32 * k -> 0 <= k < 2 ^ 32 -> 0 <= s -> Z.max k s < 2 ^ 32 ->
  lastGasCost m = fee (Z.max k s) ->
  mem_ok (if 32 * s >? 0 then mem_Resize (32 * s) m else m) (Z.max k s).
Proof.
  intros Hl Hk Hs Hm Hf. rewrite Z.gtb_ltb. unfold mem_Resize, mem_Len.
  destruct (Z.ltb_spec 0 (32 * s)).
  - destruct (Z.ltb_spec (zlen (store m)) (32 * s)); split; cbn; try done; try lia.
    rewrite zlen_app. unfold zlen at 2. rewrite length_zeros. lia.
  - split; [lia|done|lia].
Qed.

(** Accesses to memory that covers them. *)
Definition covers (off l : Z) (m : Memory) : Prop :=
  0 <= off /\ 0 <= l /\ (l <> 0 -> off + l <= zlen (store m)).

Lemma mem_Get_ok off l m k :
  covers off l m -> mem_ok m k ->
  exists d, mem_Get (Int64 off) (Int64 l) m = Ret d /\ zlen d < 2 ^ 62 /\ (l <> 0 -> zlen d = l).
Proof.
  intros (Ho & Hl & Hc) [Hlen _ Hk]. unfold mem_Get. destruct (Z.eq_dec l 0) as [->|Hne].
  - exists []. split_and!; [done|unfold zlen; cbn [length]; lia|done].
  - specialize (Hc Hne). rewrite !Int64_small by lia. destruct (Z.eqb_spec l 0); [lia|].
    rewrite Z.gtb_ltb. destruct (Z.ltb_spec off (zlen (store m))); [|lia].
    rewrite i64_small, slice_Some by lia. eexists. split; [done|].
    assert (zlen (take (Z.to_nat (off + l - off)) (drop (Z.to_nat off) (store m))) = l) as ->; [|lia].
    unfold zlen in *. rewrite length_take, length_drop. lia.
Qed.
Lemma mem_GetPtr_Get off l m : mem_GetPtr off l m = mem_Get off l m.
Proof. done. Qed.

Lemma mem_Set_ok off l d m k :
  covers off l m -> mem_ok m k ->
  exists m', mem_Set (Uint64 off) (Uint64 l) d m = Ret m' /\ mem_ok m' k.
Proof.
  intros (Ho & Hl & Hc) Hm. pose proof Hm as [Hlen Hf Hk]. unfold mem_Set.
  destruct (Z.eq_dec l 0) as [->|Hne].
  - exists m. change (Uint64 0) with 0. rewrite Z.gtb_ltb.
    destruct (Z.ltb_spec (zlen (store m)) 0); [lia|]. done.
  - specialize (Hc Hne). rewrite !Uint64_small by lia. rewrite !Z.gtb_ltb.
    destruct (Z.ltb_spec (zlen (store m)) l); [lia|]. destruct (Z.ltb_spec 0 l); [|lia].
    rewrite u64_small, slice_Some by lia. eexists. split; [done|]. split; cbn; try done.
    unfold zlen in *. rewrite length_copy_at by lia. lia.
Qed.

Lemma mem_store_ok off b m k :
  0 <= off < zlen (store m) -> mem_ok m k ->
  exists m', mem_store (Int64 off) b m = Ret m' /\ mem_ok m' k.
Proof.
  intros Ho Hm. pose proof Hm as [Hlen Hf Hk]. unfold mem_store. rewrite Int64_small by lia.
  destruct (Z.leb_spec 0 off), (Z.ltb_spec off (zlen (store m))); try lia. cbn [andb].
  eexists. split; [done|]. split; cbn; try done. unfold zlen in *. by rewrite length_insert.
Qed.

Lemma calcMemSize_covers off l m :
  in_u256 off -> in_u256 l -> calcMemSize off l <= zlen (store m) -> covers off l m.
Proof.
  unfold in_u256, calcMemSize, Sign. intros Ho Hl H. split_and!; [lia|lia|]. intros Hne.
  destruct (Z.eqb_spec (Z.sgn l) 0) as [E|_]; [|lia]. lia.
Qed.

Lemma calcMemSize_nonneg off l : 0 <= off -> 0 <= l -> 0 <= calcMemSize off l.
Proof. intros. unfold calcMemSize. destruct (_ =? 0); lia. Qed.

Lemma getData_ok data start n :
  0 <= start -> 0 <= n -> zlen data < 2 ^ 63 ->
  exists d, getData data start n = Ret d /\ (n < 2 ^ 63 -> zlen d = n).
Proof.
  intros Hs Hn Hd. unfold getData, BigMin. pose proof (zlen_nonneg data) as H0.
  set (s := if start >? zlen data then zlen data else start).
  assert (0 <= s <= zlen data) as Hs' by (unfold s; rewrite Z.gtb_ltb; bdestr; lia).
  set (e := if s + n >? zlen data then zlen data else s + n).
  assert (s <= e <= zlen data /\ e <= s + n) as He by (unfold e; rewrite Z.gtb_ltb; bdestr; lia).
  rewrite (Uint64_small s), (Uint64_small e), slice_Some by lia. cbn [obind or_panic].
  eexists. split; [done|]. intros Hn'. rewrite Uint64_small, i64_small by lia.
  rewrite RightPadBytes_spec, zlen_app. unfold zlen. rewrite length_zeros, length_take, length_drop.
  unfold zlen in *. lia.
Qed.
End VmFacts.
