(* ===== verification/State.v ===== *)
(** * [core/state]: state objects, the state database and its journal

    The journalled state database.  Tries are represented by the finite maps they store (the
    account trie by its decoded accounts, a storage trie by its decoded slots, a root hash by
    the storage it identifies); the code database is a map from hashes to code.  A
    [*stateObject] in the live set is the heap cell at its address: a method that mutates the
    object takes it, returns the new contents, and the caller writes it back. *)

From S2P Require Import Prelude GoMath World.

Module State.
Section state.
Context `{C : CryptoPrims}.

(** ** Data ([state_object.go], [statedb.go], [journal.go]) *)

Record Account := mkAccount {
  Nonce : Z; Balance : Z; Root : gmap Hash Hash; CodeHash : Hash }.

Record stateObject := mkObject {
  so_address : Address;
  so_data : Account;
  so_dbErr : bool;
  so_trie : option (gmap Hash Hash);
  so_code : option (list byte);
  so_cachedStorage : gmap Hash Hash;
  so_dirtyStorage : gmap Hash Hash;
  so_dirtyCode : bool;
  so_suicided : bool;
  so_touched : bool;
  so_deleted : bool;
  so_onDirty : bool;   (* whether the callback [onDirty] is non-nil *)
}.

Inductive journalEntry :=
| createObjectChange (account : Address)
| resetObjectChange (prev : stateObject)
| suicideChange (account : Address) (prev : bool) (prevbalance : Z)
| balanceChange (account : Address) (prev : Z)
| nonceChange (account : Address) (prev : Z)
| storageChange (account : Address) (key prevalue : Hash)
| codeChange (account : Address) (prevcode : option (list byte)) (prevhash : Hash)
| refundChange (prev : Z)
| addLogChange (txhash : Hash)
| addPreimageChange (hash : Hash)
| touchChange (account : Address) (prev prevDirty : bool).

Record revision := mkRevision { rev_id : Z; rev_journalIndex : nat }.

Record StateDB := mkStateDB {
  db : gmap Hash (list byte);
  trie : gmap Address Account;
  codeSizeCache : gmap Hash Z;
  stateObjects : gmap Address stateObject;
  stateObjectsDirty : gset Address;
  stateObjectsDestructed : gset Address;
  refund : Z;
  thash : Hash; bhash : Hash; txIndex : Z;
  logs : gmap Hash (list Log);
  logSize : Z;
  preimages : gmap Hash (list byte);
  journal : list journalEntry;   (* oldest first *)
  validRevisions : list revision;
  nextRevisionId : Z;
}.

(** Field updates. *)
Definition upd_objects f s := mkStateDB (db s) (trie s) (codeSizeCache s) (f (stateObjects s))
  (stateObjectsDirty s) (stateObjectsDestructed s) (refund s) (thash s) (bhash s) (txIndex s)
  (logs s) (logSize s) (preimages s) (journal s) (validRevisions s) (nextRevisionId s).
Definition upd_dirty f s := mkStateDB (db s) (trie s) (codeSizeCache s) (stateObjects s)
  (f (stateObjectsDirty s)) (stateObjectsDestructed s) (refund s) (thash s) (bhash s) (txIndex s)
  (logs s) (logSize s) (preimages s) (journal s) (validRevisions s) (nextRevisionId s).
Definition upd_destructed f s := mkStateDB (db s) (trie s) (codeSizeCache s) (stateObjects s)
  (stateObjectsDirty s) (f (stateObjectsDestructed s)) (refund s) (thash s) (bhash s) (txIndex s)
  (logs s) (logSize s) (preimages s) (journal s) (validRevisions s) (nextRevisionId s).
Definition upd_refund r s := mkStateDB (db s) (trie s) (codeSizeCache s) (stateObjects s)
  (stateObjectsDirty s) (stateObjectsDestructed s) r (thash s) (bhash s) (txIndex s)
  (logs s) (logSize s) (preimages s) (journal s) (validRevisions s) (nextRevisionId s).
Definition upd_logs l n s := mkStateDB (db s) (trie s) (codeSizeCache s) (stateObjects s)
  (stateObjectsDirty s) (stateObjectsDestructed s) (refund s) (thash s) (bhash s) (txIndex s)
  l n (preimages s) (journal s) (validRevisions s) (nextRevisionId s).
Definition upd_preimages f s := mkStateDB (db s) (trie s) (codeSizeCache s) (stateObjects s)
  (stateObjectsDirty s) (stateObjectsDestructed s) (refund s) (thash s) (bhash s) (txIndex s)
  (logs s) (logSize s) (f (preimages s)) (journal s) (validRevisions s) (nextRevisionId s).
Definition upd_journal f s := mkStateDB (db s) (trie s) (codeSizeCache s) (stateObjects s)
  (stateObjectsDirty s) (stateObjectsDestructed s) (refund s) (thash s) (bhash s) (txIndex s)
  (logs s) (logSize s) (preimages s) (f (journal s)) (validRevisions s) (nextRevisionId s).
Definition upd_revisions v n s := mkStateDB (db s) (trie s) (codeSizeCache s) (stateObjects s)
  (stateObjectsDirty s) (stateObjectsDestructed s) (refund s) (thash s) (bhash s) (txIndex s)
  (logs s) (logSize s) (preimages s) (journal s) v n.
Definition upd_cache f s := mkStateDB (db s) (trie s) (f (codeSizeCache s)) (stateObjects s)
  (stateObjectsDirty s) (stateObjectsDestructed s) (refund s) (thash s) (bhash s) (txIndex s)
  (logs s) (logSize s) (preimages s) (journal s) (validRevisions s) (nextRevisionId s).
Definition upd_trie f s := mkStateDB (db s) (f (trie s)) (codeSizeCache s) (stateObjects s)
  (stateObjectsDirty s) (stateObjectsDestructed s) (refund s) (thash s) (bhash s) (txIndex s)
  (logs s) (logSize s) (preimages s) (journal s) (validRevisions s) (nextRevisionId s).
Definition upd_tx th bh ti s := mkStateDB (db s) (trie s) (codeSizeCache s) (stateObjects s)
  (stateObjectsDirty s) (stateObjectsDestructed s) (refund s) th bh ti
  (logs s) (logSize s) (preimages s) (journal s) (validRevisions s) (nextRevisionId s).

Definition so_upd_data f o := mkObject (so_address o) (f (so_data o)) (so_dbErr o) (so_trie o)
  (so_code o) (so_cachedStorage o) (so_dirtyStorage o) (so_dirtyCode o) (so_suicided o)
  (so_touched o) (so_deleted o) (so_onDirty o).
Definition so_upd_code c h o := mkObject (so_address o)
  (mkAccount (Nonce (so_data o)) (Balance (so_data o)) (Root (so_data o)) h) (so_dbErr o)
  (so_trie o) c (so_cachedStorage o) (so_dirtyStorage o) true (so_suicided o)
  (so_touched o) (so_deleted o) (so_onDirty o).
Definition so_load_code c e o := mkObject (so_address o) (so_data o) e
  (so_trie o) c (so_cachedStorage o) (so_dirtyStorage o) (so_dirtyCode o) (so_suicided o)
  (so_touched o) (so_deleted o) (so_onDirty o).
Definition so_upd_storage t c d o := mkObject (so_address o) (so_data o) (so_dbErr o) t
  (so_code o) c d (so_dirtyCode o) (so_suicided o) (so_touched o) (so_deleted o) (so_onDirty o).
Definition so_upd_suicided b o := mkObject (so_address o) (so_data o) (so_dbErr o) (so_trie o)
  (so_code o) (so_cachedStorage o) (so_dirtyStorage o) (so_dirtyCode o) b
  (so_touched o) (so_deleted o) (so_onDirty o).
Definition so_upd_touched b o := mkObject (so_address o) (so_data o) (so_dbErr o) (so_trie o)
  (so_code o) (so_cachedStorage o) (so_dirtyStorage o) (so_dirtyCode o) (so_suicided o)
  b (so_deleted o) (so_onDirty o).
Definition so_upd_deleted b o := mkObject (so_address o) (so_data o) (so_dbErr o) (so_trie o)
  (so_code o) (so_cachedStorage o) (so_dirtyStorage o) (so_dirtyCode o) (so_suicided o)
  (so_touched o) b (so_onDirty o).
Definition so_upd_onDirty b o := mkObject (so_address o) (so_data o) (so_dbErr o) (so_trie o)
  (so_code o) (so_cachedStorage o) (so_dirtyStorage o) (so_dirtyCode o) (so_suicided o)
  (so_touched o) (so_deleted o) b.
Definition d_upd_nonce n d := mkAccount n (Balance d) (Root d) (CodeHash d).
Definition d_upd_balance b d := mkAccount (Nonce d) b (Root d) (CodeHash d).
Definition d_upd_root r d := mkAccount (Nonce d) (Balance d) r (CodeHash d).

Definition append_journal (e : journalEntry) : StateDB -> StateDB :=
  upd_journal (fun j => j ++ [e]).

(** ** State objects ([state_object.go]) *)

Definition so_empty (o : stateObject) : bool :=
  (Nonce (so_data o) =? 0) && (Balance (so_data o) =? 0)
  && (CodeHash (so_data o) =? emptyCodeHash).

Definition newObject (address : Address) (data : Account) (onDirty : bool) : stateObject :=
  mkObject address data false None None ∅ ∅ false false false false onDirty.

(** The zero [Account{}], after [newObject] has replaced its nil fields. *)
Definition zeroAccount : Account := mkAccount 0 0 ∅ emptyCodeHash.

Definition MarkStateObjectDirty (a : Address) : StateDB -> StateDB :=
  upd_dirty (fun d => {[a]} ∪ d).

(** [if self.onDirty != nil { self.onDirty(self.Address()); self.onDirty = nil }] *)
Definition fire_onDirty (o : stateObject) (s : StateDB) : stateObject * StateDB :=
  if so_onDirty o then (so_upd_onDirty false o, MarkStateObjectDirty (so_address o) s) else (o, s).

Definition markSuicided (o : stateObject) (s : StateDB) : stateObject * StateDB :=
  fire_onDirty (so_upd_suicided true o) s.

Definition touch (o : stateObject) (s : StateDB) : stateObject * StateDB :=
  let s := append_journal (touchChange (so_address o) (so_touched o) (negb (so_onDirty o))) s in
  let '(o, s) := fire_onDirty o s in
  (so_upd_touched true o, s).

Definition getTrie (o : stateObject) : gmap Hash Hash :=
  match so_trie o with Some t => t | None => Root (so_data o) end.

Definition so_GetState (key : Hash) (o : stateObject) : Hash * stateObject :=
  match so_cachedStorage o !! key with
  | Some value => (value, o)
  | None =>
      let tr := getTrie o in
      let value := default 0 (tr !! key) in
      let cached := if negb (value =? 0) then <[key := value]> (so_cachedStorage o)
                    else so_cachedStorage o in
      (value, so_upd_storage (Some tr) cached (so_dirtyStorage o) o)
  end.

Definition so_setState (key value : Hash) (o : stateObject) (s : StateDB) : stateObject * StateDB :=
  fire_onDirty (so_upd_storage (so_trie o) (<[key := value]> (so_cachedStorage o))
                               (<[key := value]> (so_dirtyStorage o)) o) s.

Definition so_SetState (key value : Hash) (o : stateObject) (s : StateDB) : stateObject * StateDB :=
  let '(prevalue, o) := so_GetState key o in
  let s := append_journal (storageChange (so_address o) key prevalue) s in
  so_setState key value o s.

(** [updateTrie] empties [dirtyStorage] into the storage trie.  The slots are distinct keys, so
    Go's unspecified iteration order is immaterial. *)
Definition updateTrie (o : stateObject) : stateObject :=
  let tr := map_fold (fun k v t => if v =? 0 then delete k t else <[k := v]> t)
                     (getTrie o) (so_dirtyStorage o) in
  so_upd_storage (Some tr) (so_cachedStorage o) ∅ o.
Definition updateRoot (o : stateObject) : stateObject :=
  let o := updateTrie o in so_upd_data (d_upd_root (getTrie o)) o.

Definition so_setBalance (amount : Z) (o : stateObject) (s : StateDB) : stateObject * StateDB :=
  fire_onDirty (so_upd_data (d_upd_balance amount) o) s.
Definition so_SetBalance (amount : Z) (o : stateObject) (s : StateDB) : stateObject * StateDB :=
  so_setBalance amount o (append_journal (balanceChange (so_address o) (Balance (so_data o))) s).
Definition so_AddBalance (amount : Z) (o : stateObject) (s : StateDB) : stateObject * StateDB :=
  if amount =? 0 then (if so_empty o then touch o s else (o, s))
  else so_SetBalance (Balance (so_data o) + amount) o s.
Definition so_SubBalance (amount : Z) (o : stateObject) (s : StateDB) : stateObject * StateDB :=
  if amount =? 0 then (o, s) else so_SetBalance (Balance (so_data o) - amount) o s.

(** [Code]: [None] is the nil slice. *)
Definition so_Code (dbm : gmap Hash (list byte)) (o : stateObject) : option (list byte) * stateObject :=
  match so_code o with
  | Some c => (Some c, o)
  | None =>
      if CodeHash (so_data o) =? emptyCodeHash then (None, o)
      else match dbm !! CodeHash (so_data o) with
           | Some c => (Some c, so_load_code (Some c) (so_dbErr o) o)
           | None => (None, so_load_code None true o)
           end
  end.

Definition so_setCode (codeHash : Hash) (code : option (list byte)) (o : stateObject) (s : StateDB)
  : stateObject * StateDB := fire_onDirty (so_upd_code code codeHash o) s.
Definition so_SetCode (codeHash : Hash) (code : list byte) (o : stateObject) (s : StateDB)
  : stateObject * StateDB :=
  let '(prevcode, o) := so_Code (db s) o in
  let s := append_journal (codeChange (so_address o) prevcode (CodeHash (so_data o))) s in
  so_setCode codeHash (Some code) o s.

Definition so_setNonce (nonce : Z) (o : stateObject) (s : StateDB) : stateObject * StateDB :=
  fire_onDirty (so_upd_data (d_upd_nonce nonce) o) s.
Definition so_SetNonce (nonce : Z) (o : stateObject) (s : StateDB) : stateObject * StateDB :=
  so_setNonce nonce o (append_journal (nonceChange (so_address o) (Nonce (so_data o))) s).

Definition deepCopy (onDirty : bool) (o : stateObject) : stateObject :=
  mkObject (so_address o) (so_data o) false (so_trie o) (so_code o)
           (so_dirtyStorage o) (so_dirtyStorage o) (so_dirtyCode o) (so_suicided o)
           false (so_deleted o) onDirty.

(** ** The database: live objects ([statedb.go]) *)

Definition setStateObject (o : stateObject) : StateDB -> StateDB :=
  upd_objects (fun m => <[so_address o := o]> m).

Definition getStateObject (a : Address) (s : StateDB) : option stateObject * StateDB :=
  match stateObjects s !! a with
  | Some obj => if so_deleted obj then (None, s) else (Some obj, s)
  | None =>
      match trie s !! a with
      | None => (None, s)
      | Some data => let obj := newObject a data true in (Some obj, setStateObject obj s)
      end
  end.

Definition createObject (a : Address) (s : StateDB) : stateObject * option stateObject * StateDB :=
  let '(prev, s) := getStateObject a s in
  let newobj := newObject a zeroAccount true in
  let '(newobj, s) := so_setNonce 0 newobj s in
  let s := match prev with
           | None => append_journal (createObjectChange a) s
           | Some p => append_journal (resetObjectChange p) s
           end in
  (newobj, prev, setStateObject newobj s).

Definition GetOrNewStateObject (a : Address) (s : StateDB) : stateObject * StateDB :=
  match getStateObject a s with
  | (Some o, s) => if so_deleted o
                   then let '(o, _, s) := createObject a s in (o, s) else (o, s)
  | (None, s) => let '(o, _, s) := createObject a s in (o, s)
  end.

(** Run a mutating method on the object at [a], creating it if need be. *)
Definition on_object (f : stateObject -> StateDB -> stateObject * StateDB) (a : Address)
    (s : StateDB) : StateDB :=
  let '(o, s) := GetOrNewStateObject a s in
  let '(o, s) := f o s in setStateObject o s.

(** ** Operations ([statedb.go]) *)

Definition CreateAccount (a : Address) (s : StateDB) : StateDB :=
  let '(new, prev, s) := createObject a s in
  match prev with
  | None => s
  | Some p => let '(new, s) := so_setBalance (Balance (so_data p)) new s in setStateObject new s
  end.

Definition AddBalance (a : Address) (amount : Z) : StateDB -> StateDB := on_object (so_AddBalance amount) a.
Definition SubBalance (a : Address) (amount : Z) : StateDB -> StateDB := on_object (so_SubBalance amount) a.
Definition SetBalance (a : Address) (amount : Z) : StateDB -> StateDB := on_object (so_SetBalance amount) a.
Definition SetNonce (a : Address) (nonce : Z) : StateDB -> StateDB := on_object (so_SetNonce nonce) a.
Definition SetCode (a : Address) (code : list byte) : StateDB -> StateDB :=
  on_object (so_SetCode (Keccak256Hash code) code) a.
Definition SetState (a : Address) (key value : Hash) : StateDB -> StateDB :=
  on_object (so_SetState key value) a.

Definition Exist (a : Address) (s : StateDB) : bool * StateDB :=
  let '(o, s) := getStateObject a s in (match o with Some _ => true | None => false end, s).
Definition Empty (a : Address) (s : StateDB) : bool * StateDB :=
  let '(o, s) := getStateObject a s in (match o with Some o => so_empty o | None => true end, s).
Definition GetBalance (a : Address) (s : StateDB) : Z * StateDB :=
  let '(o, s) := getStateObject a s in (match o with Some o => Balance (so_data o) | None => 0 end, s).
Definition GetNonce (a : Address) (s : StateDB) : Z * StateDB :=
  let '(o, s) := getStateObject a s in (match o with Some o => Nonce (so_data o) | None => 0 end, s).
Definition GetCodeHash (a : Address) (s : StateDB) : Hash * StateDB :=
  let '(o, s) := getStateObject a s in (match o with Some o => CodeHash (so_data o) | None => 0 end, s).
Definition HasSuicided (a : Address) (s : StateDB) : bool * StateDB :=
  let '(o, s) := getStateObject a s in (match o with Some o => so_suicided o | None => false end, s).

Definition GetCode (a : Address) (s : StateDB) : list byte * StateDB :=
  match getStateObject a s with
  | (None, s) => ([], s)
  | (Some o, s) =>
      let '(code, o) := so_Code (db s) o in
      let code := default [] code in
      (code, upd_cache (fun c => <[CodeHash (so_data o) := zlen code]> c) (setStateObject o s))
  end.

Definition GetCodeSize (a : Address) (s : StateDB) : Z * StateDB :=
  match getStateObject a s with
  | (None, s) => (0, s)
  | (Some o, s) =>
      match codeSizeCache s !! CodeHash (so_data o) with
      | Some n => (n, s)
      | None =>
          let '(code, o) := so_Code (db s) o in
          let size := zlen (default [] code) in
          let s := setStateObject o s in
          (size, if so_dbErr o then s
                 else upd_cache (fun c => <[CodeHash (so_data o) := size]> c) s)
      end
  end.

Definition GetState (a : Address) (k : Hash) (s : StateDB) : Hash * StateDB :=
  match getStateObject a s with
  | (None, s) => (0, s)
  | (Some o, s) => let '(v, o) := so_GetState k o in (v, setStateObject o s)
  end.

Definition Suicide (a : Address) (s : StateDB) : bool * StateDB :=
  match getStateObject a s with
  | (None, s) => (false, s)
  | (Some o, s) =>
      let s := append_journal (suicideChange a (so_suicided o) (Balance (so_data o))) s in
      let '(o, s) := markSuicided o s in
      let o := so_upd_data (d_upd_balance 0) o in
      (true, upd_destructed (fun d => {[a]} ∪ d) (setStateObject o s))
  end.

Definition AddLog (log : Log) (s : StateDB) : StateDB :=
  let s := append_journal (addLogChange (thash s)) s in
  let log := mkLog (log_Address log) (log_Topics log) (log_Data log) (log_BlockNumber log)
                   (thash s) (txIndex s) (bhash s) (logSize s) in
  upd_logs (<[thash s := default [] (logs s !! thash s) ++ [log]]> (logs s)) (logSize s + 1) s.

Definition GetLogs (h : Hash) (s : StateDB) : list Log := default [] (logs s !! h).

Definition AddPreimage (h : Hash) (preimage : list byte) (s : StateDB) : StateDB :=
  match preimages s !! h with
  | Some _ => s
  | None => upd_preimages (fun p => <[h := preimage]> p) (append_journal (addPreimageChange h) s)
  end.

Definition AddRefund (gas : Z) (s : StateDB) : StateDB :=
  upd_refund (refund s + gas) (append_journal (refundChange (refund s)) s).
Definition GetRefund (s : StateDB) : Z := refund s.
(** [GetRefund] returns the counter itself, not a copy: what a caller does to it. *)
Definition WriteRefund (v : Z) (s : StateDB) : StateDB := upd_refund v s.

Definition Prepare (th bh : Hash) (ti : Z) : StateDB -> StateDB := upd_tx th bh ti.

(** ** Undoing journal entries ([journal.go])

    [None] is a nil-pointer panic. *)

Definition ripemd : Address := 3.

(** [s.getStateObject(a).f()] *)
Definition on_existing (a : Address) (f : stateObject -> StateDB -> stateObject * StateDB)
    (s : StateDB) : option StateDB :=
  match getStateObject a s with
  | (None, _) => None
  | (Some o, s) => let '(o, s) := f o s in Some (setStateObject o s)
  end.

Definition undo (e : journalEntry) (s : StateDB) : option StateDB :=
  match e with
  | createObjectChange a =>
      Some (upd_dirty (fun d => d ∖ {[a]}) (upd_objects (delete a) s))
  | resetObjectChange prev => Some (setStateObject prev s)
  | suicideChange a prev prevbalance =>
      match getStateObject a s with
      | (None, s) => Some s
      | (Some o, s) =>
          let '(o, s) := so_setBalance prevbalance (so_upd_suicided prev o) s in
          let s := setStateObject o s in
          Some (if negb (so_suicided o) then upd_destructed (fun d => d ∖ {[a]}) s else s)
      end
  | touchChange a prev prevDirty =>
      if negb prev && negb (a =? ripemd) then
        match on_existing a (fun o s => (so_upd_touched prev o, s)) s with
        | None => None
        | Some s => Some (if negb prevDirty then upd_dirty (fun d => d ∖ {[a]}) s else s)
        end
      else Some s
  | balanceChange a prev => on_existing a (so_setBalance prev) s
  | nonceChange a prev => on_existing a (so_setNonce prev) s
  | codeChange a prevcode prevhash => on_existing a (so_setCode prevhash prevcode) s
  | storageChange a key prevalue => on_existing a (so_setState key prevalue) s
  | refundChange prev => Some (upd_refund prev s)
  | addLogChange h =>
      let l := default [] (logs s !! h) in
      if zlen l =? 1 then Some (upd_logs (delete h (logs s)) (logSize s) s)
      else match l with
           | [] => None   (* logs[:len(logs)-1] of an empty slice *)
           | _ => Some (upd_logs (<[h := take (length l - 1) l]> (logs s)) (logSize s) s)
           end
  | addPreimageChange h => Some (upd_preimages (delete h) s)
  end.

(** ** Snapshots ([statedb.go]) *)

(** [sort.Search(n, f)]: [i, j := 0, n; for i < j { h := i + (j-i)/2; ... }] *)
Fixpoint search_loop (fuel : nat) (f : nat -> bool) (i j : nat) : nat :=
  match fuel with
  | O => i
  | S fuel' =>
      if (i <? j)%nat then
        let h := (i + (j - i) / 2)%nat in
        if f h then search_loop fuel' f i h else search_loop fuel' f (h + 1) j
      else i
  end.
Definition sort_Search (n : nat) (f : nat -> bool) : nat := search_loop (n + 1) f 0 n.

Definition Snapshot (s : StateDB) : Z * StateDB :=
  let id := nextRevisionId s in
  (id, upd_revisions (validRevisions s ++ [mkRevision id (length (journal s))])
                     (nextRevisionId s + 1) s).

(** Undo a list of entries, newest first. *)
Fixpoint undo_all (es : list journalEntry) (s : StateDB) : option StateDB :=
  match es with
  | [] => Some s
  | e :: es' => match undo e s with None => None | Some s => undo_all es' s end
  end.

Definition RevertToSnapshot (revid : Z) (s : StateDB) : option StateDB :=
  let idx := sort_Search (length (validRevisions s))
               (fun i => match validRevisions s !! i with
                         | Some r => rev_id r >=? revid | None => true end) in
  match validRevisions s !! idx with
  | None => None
  | Some r =>
      if negb (rev_id r =? revid) then None
      else
        let snapshot := rev_journalIndex r in
        match undo_all (reverse (drop snapshot (journal s))) s with
        | None => None
        | Some s =>
            Some (upd_revisions (take idx (validRevisions s)) (nextRevisionId s)
                    (upd_journal (take snapshot) s))
        end
  end.

(** ** Between transactions ([statedb.go]) *)

Definition clearJournalAndRefund (s : StateDB) : StateDB :=
  upd_refund 0 (upd_revisions [] (nextRevisionId s) (upd_journal (fun _ => []) s)).

Definition deleteStateObject (o : stateObject) (s : StateDB) : StateDB :=
  upd_trie (delete (so_address o)) (setStateObject (so_upd_deleted true o) s).
Definition updateStateObject (o : stateObject) : StateDB -> StateDB :=
  upd_trie (fun t => <[so_address o := so_data o]> t).

(** The body of [IntermediateRoot]'s loop; a dirty address without object is a nil dereference. *)
Definition flush_object (deleteEmptyObjects : bool) (a : Address) (s : StateDB) : option StateDB :=
  match stateObjects s !! a with
  | None => None
  | Some o =>
      if so_suicided o || (deleteEmptyObjects && so_empty o) then Some (deleteStateObject o s)
      else let o := updateRoot o in Some (updateStateObject o (setStateObject o s))
  end.

(** [order] is the order in which Go ranges over [stateObjectsDirty]. *)
Fixpoint flush_objects (deleteEmptyObjects : bool) (order : list Address) (s : StateDB) : option StateDB :=
  match order with
  | [] => Some s
  | a :: order' => match flush_object deleteEmptyObjects a s with
                   | None => None
                   | Some s => flush_objects deleteEmptyObjects order' s
                   end
  end.
Definition IntermediateRoot (deleteEmptyObjects : bool) (order : list Address) (s : StateDB)
  : option StateDB := clearJournalAndRefund <$> flush_objects deleteEmptyObjects order s.

Fixpoint finalise_objects (order : list Address) (s : StateDB) : option StateDB :=
  match order with
  | [] => Some s
  | a :: order' => match stateObjects s !! a with
                   | None => None
                   | Some o => finalise_objects order' (deleteStateObject o s)
                   end
  end.
Definition Finalise (order : list Address) (s : StateDB) : option StateDB :=
  clearJournalAndRefund <$> finalise_objects order s.

Fixpoint delete_suicides (order : list Address) (s : StateDB) : option StateDB :=
  match order with
  | [] => Some s
  | a :: order' =>
      match stateObjects s !! a with
      | None => None
      | Some o =>
          let s := if so_suicided o then setStateObject (so_upd_deleted true o) s else s in
          delete_suicides order' (upd_dirty (fun d => d ∖ {[a]}) s)
      end
  end.
Definition DeleteSuicides (order : list Address) (s : StateDB) : option StateDB :=
  delete_suicides order (clearJournalAndRefund s).

(** [New]: an empty live set over an opened trie. *)
Definition New (dbm : gmap Hash (list byte)) (tr : gmap Address Account) (csc : gmap Hash Z) : StateDB :=
  mkStateDB dbm tr csc ∅ ∅ ∅ 0 0 0 0 ∅ 0 ∅ [] [] 0.

End state.
End State.
