(* ===== verification/StateProofs.v ===== *)
(** * The journalled state database implements the world interface

    The abstraction function from [State.StateDB] to [World.world], the well-formedness
    invariant, the specification of every operation, and the instances that discharge the
    interface of World.v: in particular that [RevertToSnapshot] never panics on a live
    revision and restores exactly the world the snapshot was taken in. *)

From S2P Require Import Prelude GoMath World State.

Module StateProofs.
Import State.
Section proofs.
Context `{C : CryptoPrims}.

(** ** Storage without zero entries *)

Definition nz (m : gmap Hash Hash) : gmap Hash Hash := filter (fun kv => kv.2 <> 0) m.

Lemma nz_lookup m k : nz m !! k = match m !! k with Some v => if v =? 0 then None else Some v | None => None end.
Proof.
  unfold nz. destruct (m !! k) as [v|] eqn:E.
  - bdestr.
    + apply map_lookup_filter_None. right. intros x Hx. rewrite E in Hx. inv Hx. cbn. lia.
    + by apply map_lookup_filter_Some.
  - apply map_lookup_filter_None. by left.
Qed.

Lemma nz_default m k : default 0 (nz m !! k) = default 0 (m !! k).
Proof. rewrite nz_lookup. destruct (m !! k); [|done]. by bdestr; subst. Qed.

Lemma nz_ext m1 m2 : (forall k, default 0 (m1 !! k) = default 0 (m2 !! k)) -> nz m1 = nz m2.
Proof.
  intros H. apply map_eq. intros k. rewrite !nz_lookup. specialize (H k).
  destruct (m1 !! k), (m2 !! k); cbn in H; subst; try done; by bdestr.
Qed.

Lemma nz_insert k v m : nz (<[k := v]> m) = store_put k v (nz m).
Proof.
  apply map_eq. intros i. rewrite nz_lookup. unfold store_put.
  destruct (decide (i = k)) as [->|Hne].
  - rewrite lookup_insert_eq. bdestr; by simplify_map_eq.
  - rewrite lookup_insert_ne by done.
    bdestr; rewrite ?lookup_delete_ne, ?lookup_insert_ne by done; by rewrite nz_lookup.
Qed.

Lemma store_put_twice k v v' m : store_put k v' (store_put k v m) = store_put k v' m.
Proof.
  unfold store_put. repeat bdestr;
    by rewrite ?delete_delete_eq, ?delete_insert_eq, ?insert_delete_eq, ?insert_insert_eq.
Qed.

Lemma store_put_id k m : nz m = m -> store_put k (default 0 (m !! k)) m = m.
Proof.
  intros Hm. unfold store_put. bdestr.
  - apply delete_id. rewrite <- Hm, nz_lookup. destruct (m !! k); [|done]. cbn in *. by bdestr.
  - destruct (m !! k) eqn:E; cbn in *; [|done]. by apply insert_id.
Qed.

Lemma nz_idemp m : nz (nz m) = nz m.
Proof. apply nz_ext. intros k. apply nz_default. Qed.

(** ** The abstraction *)

Definition view_code (dbm : gmap Hash (list byte)) (o : stateObject) : list byte :=
  match so_code o with
  | Some c => c
  | None => if CodeHash (so_data o) =? emptyCodeHash then []
            else default [] (dbm !! CodeHash (so_data o))
  end.
Definition view_storage (o : stateObject) : gmap Hash Hash := nz (so_cachedStorage o ∪ getTrie o).
Definition acct_of (dbm : gmap Hash (list byte)) (o : stateObject) : acct :=
  Acct (Nonce (so_data o)) (Balance (so_data o)) (CodeHash (so_data o)) (view_code dbm o)
       (view_storage o) (so_suicided o).

Definition view_at (dbm : gmap Hash (list byte)) (live : option stateObject) (tr : option Account)
  : option acct :=
  match live with
  | Some o => if so_deleted o then None else Some (acct_of dbm o)
  | None => match tr with Some d => Some (acct_of dbm (newObject 0 d true)) | None => None end
  end.

Definition abs (s : StateDB) : world :=
  World (merge (view_at (db s)) (stateObjects s) (trie s)) (refund s)
        (fmap (map ev_of) (logs s)) (preimages s) (thash s).

Lemma abs_lookup s a : w_accts (abs s) !! a = view_at (db s) (stateObjects s !! a) (trie s !! a).
Proof.
  cbn. rewrite lookup_merge. unfold diag_None.
  by destruct (stateObjects s !! a), (trie s !! a).
Qed.

(** ** The invariant *)

Definition entry_ok (tr : gmap Address Account) (e : journalEntry) : Prop :=
  match e with
  | resetObjectChange p => so_deleted p = false
  | createObjectChange a => tr !! a = None
  | _ => True
  end.

Record wf0 (s : StateDB) : Prop := {
  wf_addr a o : stateObjects s !! a = Some o -> so_address o = a;
  wf_deleted a o : stateObjects s !! a = Some o -> so_deleted o = true -> trie s !! a = None;
  wf_logs h : logs s !! h <> Some [];
  wf_journal : Forall (entry_ok (trie s)) (journal s);
}.

(** Revision ids grow and point into the journal. *)
Record wf_rev (s : StateDB) : Prop := {
  wr_sorted i j r1 r2 : (i < j)%nat -> validRevisions s !! i = Some r1 ->
    validRevisions s !! j = Some r2 -> rev_id r1 < rev_id r2;
  wr_next : Forall (fun r => rev_id r < nextRevisionId s) (validRevisions s);
  wr_index : Forall (fun r => (rev_journalIndex r <= length (journal s))%nat) (validRevisions s);
}.

(** Cached code sizes belong to some code with that hash. *)
Definition cache_ok (s : StateDB) : Prop :=
  forall h n, codeSizeCache s !! h = Some n -> exists c, Keccak256Hash c = h /\ n = zlen c.

Definition acct_ok (x : acct) : Prop :=
  ac_codehash x = Keccak256Hash (ac_code x) /\ nz (ac_storage x) = ac_storage x.
Definition world_ok (w : world) : Prop := map_Forall (fun _ => acct_ok) (w_accts w).

Record wf (s : StateDB) : Prop := {
  wf_0 : wf0 s; wf_r : wf_rev s; wf_c : cache_ok s; wf_w : world_ok (abs s) }.

(** ** Abstract undo *)

Definition w_existing (a : Address) (f : acct -> acct) (w : world) : option world :=
  match w_accts w !! a with
  | None => None
  | Some x => Some (set_accts (fun m => <[a := f x]> m) w)
  end.

Definition aundo (dbm : gmap Hash (list byte)) (e : journalEntry) (w : world) : option world :=
  match e with
  | createObjectChange a => Some (set_accts (delete a) w)
  | resetObjectChange p => Some (set_accts (fun m => <[so_address p := acct_of dbm p]> m) w)
  | suicideChange a prev b =>
      w_existing a (fun x => ac_set_suicided prev (ac_set_balance b x)) w
  | balanceChange a b => w_existing a (ac_set_balance b) w
  | nonceChange a n => w_existing a (ac_set_nonce n) w
  | storageChange a k v => w_existing a (ac_set_state k v) w
  | codeChange a c h => w_existing a (ac_set_code h (view_code dbm
      (mkObject a (mkAccount 0 0 ∅ h) false None c ∅ ∅ false false false false false))) w
  | refundChange r => Some (set_refund r w)
  | addLogChange h =>
      let l := default [] (w_logs w !! h) in
      if zlen l =? 1 then Some (set_logs (delete h (w_logs w)) w)
      else match l with
           | [] => None
           | _ => Some (set_logs (<[h := take (length l - 1) l]> (w_logs w)) w)
           end
  | addPreimageChange h => Some (set_preimages (delete h (w_preimages w)) w)
  | touchChange a prev _ =>
      if negb prev && negb (a =? ripemd) then w_existing a id w else Some w
  end.

Fixpoint aundo_all (dbm : gmap Hash (list byte)) (es : list journalEntry) (w : world) : option world :=
  match es with
  | [] => Some w
  | e :: es' => match aundo dbm e w with None => None | Some w => aundo_all dbm es' w end
  end.

Lemma aundo_all_app dbm es1 es2 w :
  aundo_all dbm (es1 ++ es2) w
  = match aundo_all dbm es1 w with None => None | Some w' => aundo_all dbm es2 w' end.
Proof.
  revert w. induction es1 as [|e es1 IH]; intros w; [done|]. cbn.
  destruct (aundo dbm e w); [apply IH|done].
Qed.

(** [later]: what has been journalled since [s] undoes to the world of [s]. *)
Record later (s s' : StateDB) : Prop := {
  lt_db : db s' = db s;
  lt_trie : trie s' = trie s;
  lt_thash : thash s' = thash s;
  lt_ids : nextRevisionId s <= nextRevisionId s';
  lt_journal : exists J, journal s' = journal s ++ J /\
                 aundo_all (db s) (reverse J) (abs s') = Some (abs s);
  lt_revs : exists R, validRevisions s' = validRevisions s ++ R /\
              Forall (fun r => nextRevisionId s <= rev_id r) R;
}.

Lemma later_refl s : later s s.
Proof. split; try done; exists []; by rewrite app_nil_r. Qed.

Lemma later_trans s1 s2 s3 : later s1 s2 -> later s2 s3 -> later s1 s3.
Proof.
  intros [D1 T1 H1 I1 (J1 & EJ1 & U1) (R1 & ER1 & F1)]
         [D2 T2 H2 I2 (J2 & EJ2 & U2) (R2 & ER2 & F2)].
  split; try congruence; try lia.
  - exists (J1 ++ J2). split; [by rewrite EJ2, EJ1, app_assoc|].
    rewrite reverse_app, aundo_all_app, <- D1, U2, D1. done.
  - exists (R1 ++ R2). split; [by rewrite ER2, ER1, app_assoc|].
    apply Forall_app. split; [done|]. eapply Forall_impl; [exact F2|]. cbn. lia.
Qed.

(** ** Frames *)

Lemma later_frame s s' :
  db s' = db s -> trie s' = trie s -> thash s' = thash s -> journal s' = journal s ->
  validRevisions s' = validRevisions s -> nextRevisionId s' = nextRevisionId s ->
  abs s' = abs s -> later s s'.
Proof.
  intros ? ? ? Hj Hv Hn Ha. split; try done; try lia.
  - exists []. rewrite Hj, app_nil_r. split; [done|]. cbn. by rewrite Ha.
  - exists []. rewrite Hv, app_nil_r. done.
Qed.

Lemma object_eta o : so_upd_onDirty (so_onDirty o) o = o.
Proof. by destruct o. Qed.

Lemma fire_onDirty_spec o s :
  exists b d, fire_onDirty o s = (so_upd_onDirty b o, upd_dirty (fun _ => d) s).
Proof.
  unfold fire_onDirty, MarkStateObjectDirty. destruct (so_onDirty o) eqn:E.
  - by exists false, ({[so_address o]} ∪ stateObjectsDirty s).
  - exists false, (stateObjectsDirty s). rewrite <- E, object_eta. by destruct s.
Qed.

Lemma abs_set_object o s :
  so_deleted o = false ->
  abs (setStateObject o s) = set_accts (fun m => <[so_address o := acct_of (db s) o]> m) (abs s).
Proof.
  intros Hd. unfold abs, set_accts, setStateObject, upd_objects; cbn. f_equal.
  apply map_eq. intros a. rewrite lookup_merge.
  destruct (decide (a = so_address o)) as [->|Hne].
  - rewrite !lookup_insert_eq. unfold diag_None. cbn. rewrite Hd. by destruct (trie s !! so_address o).
  - by rewrite !lookup_insert_ne, lookup_merge by done.
Qed.

Lemma wf0_set_object o s : so_deleted o = false -> wf0 s -> wf0 (setStateObject o s).
Proof.
  intros Hd [Ha Hdel Hl Hj]. split; cbn; [| |done|done].
  - intros a o' H. destruct (decide (a = so_address o)) as [->|Hne]; simplify_map_eq; eauto.
  - intros a o' H Hd'. destruct (decide (a = so_address o)) as [->|Hne]; simplify_map_eq; [congruence|eauto].
Qed.

Lemma set_live_object a o s : stateObjects s !! a = Some o -> so_address o = a -> setStateObject o s = s.
Proof.
  intros H <-. unfold setStateObject, upd_objects. rewrite insert_id by done. by destruct s.
Qed.

(** Loading an object changes nothing observable: the resulting state has the object live. *)
Lemma getStateObject_spec a s :
  wf0 s ->
  match getStateObject a s with
  | (Some o, s') => so_address o = a /\ so_deleted o = false /\ s' = setStateObject o s /\
                    w_accts (abs s) !! a = Some (acct_of (db s) o)
  | (None, s') => s' = s /\ w_accts (abs s) !! a = None
  end.
Proof.
  intros Hwf. unfold getStateObject. rewrite abs_lookup.
  destruct (stateObjects s !! a) as [o|] eqn:E.
  - pose proof (wf_addr s Hwf _ _ E) as Ha. cbn. destruct (so_deleted o) eqn:Hd; [done|].
    split_and!; try done. symmetry. by eapply set_live_object.
  - destruct (trie s !! a) as [d|] eqn:Et; cbn; done.
Qed.

Lemma world_insert_id a x w : w_accts w !! a = Some x -> set_accts (fun m => <[a := x]> m) w = w.
Proof. intros H. unfold set_accts. rewrite insert_id by done. by destruct w. Qed.

Lemma abs_load a o s :
  so_address o = a -> so_deleted o = false -> w_accts (abs s) !! a = Some (acct_of (db s) o) ->
  abs (setStateObject o s) = abs s.
Proof. intros <- Hd H. rewrite abs_set_object by done. by apply world_insert_id. Qed.

Lemma wf_transport s s' :
  wf s -> wf0 s' -> abs s' = abs s -> journal s' = journal s ->
  validRevisions s' = validRevisions s -> nextRevisionId s' = nextRevisionId s ->
  cache_ok s' -> wf s'.
Proof.
  intros [H0 [S1 S2 S3] Hc Hw] H0' Ha Hj Hv Hn Hc'. split; [done| |done|by rewrite Ha].
  split; rewrite ?Hv, ?Hn, ?Hj; done.
Qed.

Lemma wf_load a o s :
  wf s -> so_address o = a -> so_deleted o = false ->
  w_accts (abs s) !! a = Some (acct_of (db s) o) -> wf (setStateObject o s).
Proof.
  intros Hwf Ha Hd H. eapply wf_transport; [done| | |done..|apply Hwf].
  - apply wf0_set_object; [done|apply Hwf].
  - by eapply abs_load.
Qed.

(** ** Methods of live objects *)

Definition method_ok (f : stateObject -> StateDB -> stateObject * StateDB) (g : acct -> acct) : Prop :=
  forall o s, so_deleted o = false -> acct_ok (acct_of (db s) o) ->
  exists o' d J,
    f o s = (o', upd_dirty (fun _ => d) (upd_journal (fun j => j ++ J) s)) /\
    so_address o' = so_address o /\ so_deleted o' = false /\
    acct_of (db s) o' = g (acct_of (db s) o) /\
    Forall (entry_ok (trie s)) J /\
    (forall w, w_accts w !! so_address o = Some (acct_of (db s) o) ->
       aundo_all (db s) (reverse J)
         (set_accts (fun m => <[so_address o := g (acct_of (db s) o)]> m) w) = Some w).

Lemma undo_existing a x f g (w : world) :
  w_accts w !! a = Some x -> f (g x) = x ->
  w_existing a f (set_accts (fun m => <[a := g x]> m) w) = Some w.
Proof.
  intros Hx Hfg. unfold w_existing. cbn. rewrite lookup_insert_eq, Hfg.
  f_equal. unfold set_accts; cbn. rewrite insert_insert_eq, insert_id by done. by destruct w.
Qed.

(** Write back the result of a method on a live object. *)
Lemma run_method_ok f g a o s :
  method_ok f g -> (forall x, acct_ok x -> acct_ok (g x)) ->
  wf s -> so_address o = a -> so_deleted o = false ->
  w_accts (abs s) !! a = Some (acct_of (db s) o) ->
  let s' := (let '(o, s) := f o s in setStateObject o s) in
  wf s' /\ abs s' = set_accts (fun m => <[a := g (acct_of (db s) o)]> m) (abs s) /\ later s s'.
Proof.
  intros Hf Hg Hwf <- Hd Hx. cbn zeta.
  assert (acct_ok (acct_of (db s) o)) as Hok by (eapply (wf_w s Hwf); exact Hx).
  destruct (Hf o s Hd Hok) as (o' & d & J & E & Ha & Hd' & Hacc & HJ & HU). rewrite E.
  set (s1 := upd_dirty (fun _ => d) (upd_journal (fun j => j ++ J) s)).
  assert (abs (setStateObject o' s1)
    = set_accts (fun m => <[so_address o := g (acct_of (db s) o)]> m) (abs s)) as Habs.
  { rewrite abs_set_object by done. by rewrite <- Hacc, <- Ha. }
  destruct Hwf as [[W1 W2 W3 W4] [S1 S2 S3] Hc Hw].
  split_and!; [split| |split]; try done.
  - apply wf0_set_object; [done|]. split; cbn; try done. by apply Forall_app.
  - split; cbn; try done. eapply Forall_impl; [exact S3|]. cbn. intros. rewrite length_app. lia.
  - rewrite Habs. intros b y. cbn. intros Hy.
    destruct (decide (b = so_address o)) as [->|Hne]; simplify_map_eq; [by apply Hg|by eapply Hw].
  - exists J. split; [done|]. rewrite Habs. by apply HU.
  - exists []. cbn. by rewrite app_nil_r.
Qed.

Ltac fire_dirty :=
  match goal with
  | |- context [fire_onDirty ?o ?s] =>
      let b := fresh "b" in let d := fresh "d" in let E := fresh "E" in
      destruct (fire_onDirty_spec o s) as (b & d & E); rewrite E; clear E
  end.

Lemma SetBalance_method amount :
  method_ok (so_SetBalance amount) (ac_set_balance amount).
Proof.
  intros o s Hd Hok. unfold so_SetBalance, so_setBalance. fire_dirty.
  eexists _, d, [_]. split_and!; try done; [by repeat constructor|].
  intros w Hw. cbn. by rewrite (undo_existing _ (acct_of (db s) o)).
Qed.

Lemma SetNonce_method n : method_ok (so_SetNonce n) (ac_set_nonce n).
Proof.
  intros o s Hd Hok. unfold so_SetNonce, so_setNonce. fire_dirty.
  eexists _, d, [_]. split_and!; try done; [by repeat constructor|].
  intros w Hw. cbn. by rewrite (undo_existing _ (acct_of (db s) o)).
Qed.

Lemma method_id o s (g : acct -> acct) :
  so_deleted o = false -> g (acct_of (db s) o) = acct_of (db s) o ->
  exists o' d J,
    (o, s) = (o', upd_dirty (fun _ => d) (upd_journal (fun j => j ++ J) s)) /\
    so_address o' = so_address o /\ so_deleted o' = false /\
    acct_of (db s) o' = g (acct_of (db s) o) /\
    Forall (entry_ok (trie s)) J /\
    (forall w, w_accts w !! so_address o = Some (acct_of (db s) o) ->
       aundo_all (db s) (reverse J)
         (set_accts (fun m => <[so_address o := g (acct_of (db s) o)]> m) w) = Some w).
Proof.
  intros Hd Hg. exists o, (stateObjectsDirty s), [].
  split_and!; try done.
  - f_equal. unfold upd_dirty, upd_journal; cbn. rewrite app_nil_r. by destruct s.
  - intros w Hw. cbn. by rewrite Hg, world_insert_id.
Qed.

Lemma AddBalance_method amount :
  method_ok (so_AddBalance amount) (fun x => ac_set_balance (ac_balance x + amount) x).
Proof.
  intros o s Hd Hok. unfold so_AddBalance.
  destruct (Z.eqb_spec amount 0) as [->|Hne].
  - assert (ac_set_balance (ac_balance (acct_of (db s) o) + 0) (acct_of (db s) o)
            = acct_of (db s) o) as Hid by (cbn; by rewrite Z.add_0_r).
    destruct (so_empty o); [|by apply method_id].
    unfold touch. fire_dirty.
    eexists _, d, [_]. split_and!; try done; [by repeat constructor|].
    intros w Hw. cbn beta. rewrite Hid, world_insert_id by done. cbn [reverse]. cbn.
    destruct (_ && _); [|done]. unfold w_existing. rewrite Hw. unfold id.
    by rewrite world_insert_id.
  - exact (SetBalance_method (Balance (so_data o) + amount) o s Hd Hok).
Qed.

Lemma SubBalance_method amount :
  method_ok (so_SubBalance amount) (fun x => ac_set_balance (ac_balance x - amount) x).
Proof.
  intros o s Hd Hok. unfold so_SubBalance.
  destruct (Z.eqb_spec amount 0) as [->|Hne].
  - apply method_id; [done|]. cbn. by rewrite Z.sub_0_r.
  - exact (SetBalance_method (Balance (so_data o) - amount) o s Hd Hok).
Qed.

Lemma so_GetState_spec dbm k o :
  (so_GetState k o).1 = default 0 (view_storage o !! k) /\
  acct_of dbm (so_GetState k o).2 = acct_of dbm o /\
  so_address (so_GetState k o).2 = so_address o /\
  so_deleted (so_GetState k o).2 = so_deleted o.
Proof.
  unfold so_GetState, view_storage. rewrite nz_default, lookup_union.
  destruct (so_cachedStorage o !! k) as [v|] eqn:E.
  - split_and!; try done. by destruct (getTrie o !! k).
  - split_and!; try done; [by destruct (getTrie o !! k)|].
    unfold acct_of; cbn. f_equal. unfold view_storage, getTrie; cbn.
    fold (getTrie o). apply nz_ext. intros i. rewrite !lookup_union. bdestr; cbn; [done|].
    destruct (decide (i = k)) as [->|Hne]; [|by rewrite lookup_insert_ne].
    rewrite lookup_insert_eq, E. by destruct (getTrie o !! k).
Qed.

Lemma setState_view k v o :
  view_storage (so_upd_storage (so_trie o) (<[k := v]> (so_cachedStorage o))
                               (<[k := v]> (so_dirtyStorage o)) o)
  = store_put k v (view_storage o).
Proof.
  unfold view_storage. rewrite <- nz_insert. f_equal. unfold getTrie; cbn.
  by rewrite insert_union_l.
Qed.

Lemma SetState_method k v : method_ok (so_SetState k v) (ac_set_state k v).
Proof.
  intros o s Hd Hok. unfold so_SetState.
  destruct (so_GetState_spec (db s) k o) as (Hv & Hacc & Ha & Hdel).
  destruct (so_GetState k o) as [prev o1]; cbn in *. unfold so_setState. fire_dirty.
  eexists _, d, [_]. split_and!; try done; try (cbn; congruence); [| by repeat constructor|].
  - cbn. rewrite <- Hacc. unfold acct_of, ac_set_state; cbn. f_equal. apply setState_view.
  - intros w Hw. cbn. rewrite Ha.
    rewrite (undo_existing _ (acct_of (db s) o)); [done|done|].
    unfold ac_set_state; cbn. rewrite store_put_twice, Hv, store_put_id; [done|].
    apply nz_idemp.
Qed.

Lemma so_Code_spec dbm o :
  default [] (so_Code dbm o).1 = view_code dbm o /\
  acct_of dbm (so_Code dbm o).2 = acct_of dbm o /\
  so_address (so_Code dbm o).2 = so_address o /\ so_deleted (so_Code dbm o).2 = so_deleted o /\
  so_data (so_Code dbm o).2 = so_data o /\
  view_code dbm (mkObject (so_address o) (mkAccount 0 0 ∅ (CodeHash (so_data o))) false None
    (so_Code dbm o).1 ∅ ∅ false false false false false) = view_code dbm o.
Proof.
  unfold so_Code, acct_of, view_code. destruct (so_code o) as [c|] eqn:E; cbn; rewrite ?E; [done|].
  destruct (Z.eqb_spec (CodeHash (so_data o)) emptyCodeHash) as [He|He]; cbn.
  - rewrite ?E, ?He, ?Z.eqb_refl. done.
  - destruct (dbm !! CodeHash (so_data o)) as [c|] eqn:Ed; cbn; rewrite ?E, ?Ed; [done|].
    apply Z.eqb_neq in He. by rewrite He.
Qed.

Lemma SetCode_method c : method_ok (so_SetCode (Keccak256Hash c) c) (ac_set_code (Keccak256Hash c) c).
Proof.
  intros o s Hd Hok. unfold so_SetCode.
  destruct (so_Code_spec (db s) o) as (Hv & Hacc & Ha & Hdel & Hdata & Hview).
  destruct (so_Code (db s) o) as [prev o1]; cbn in *. unfold so_setCode. fire_dirty.
  eexists _, d, [_]. split_and!; try done; try (cbn; congruence); [|by repeat constructor|].
  - cbn. rewrite <- Hacc. done.
  - intros w Hw. cbn -[view_code]. rewrite Ha, Hdata.
    rewrite (undo_existing _ (acct_of (db s) o)); [done|done|].
    unfold ac_set_code, acct_of; cbn -[view_code]. by rewrite Hview.
Qed.

(** ** Replacing an object together with its journal entry *)

Lemma journalled_set_ok a o e s f g :
  wf s -> so_address o = a -> so_deleted o = false -> acct_ok (acct_of (db s) o) ->
  entry_ok (trie s) e ->
  aundo (db s) e (set_accts (fun m => <[a := acct_of (db s) o]> m) (abs s)) = Some (abs s) ->
  let s' := upd_destructed f (setStateObject o (upd_dirty g (append_journal e s))) in
  wf s' /\ abs s' = set_accts (fun m => <[a := acct_of (db s) o]> m) (abs s) /\ later s s'.
Proof.
  intros Hwf <- Hd Hok He HU s'.
  assert (abs s' = set_accts (fun m => <[so_address o := acct_of (db s) o]> m) (abs s)) as Habs.
  { exact (abs_set_object o (upd_dirty g (append_journal e s)) Hd). }
  destruct Hwf as [[W1 W2 W3 W4] [S1 S2 S3] Hc Hw].
  split_and!; [split| |split]; try done.
  - change (wf0 s') with (wf0 (upd_destructed f (setStateObject o (upd_dirty g (append_journal e s))))).
    assert (wf0 (setStateObject o (upd_dirty g (append_journal e s)))) as [].
    { apply wf0_set_object; [done|]. split; cbn; try done. apply Forall_app. by repeat constructor. }
    by split.
  - split; cbn; try done. eapply Forall_impl; [exact S3|]. cbn. intros. rewrite length_app. lia.
  - rewrite Habs. intros b y. cbn. intros Hy.
    destruct (decide (b = so_address o)) as [->|Hne]; simplify_map_eq; [done|by eapply Hw].
  - exists [e]. split; [done|]. rewrite Habs. cbn. by rewrite HU.
  - exists []. cbn. by rewrite app_nil_r.
Qed.

Lemma set_set o o' s :
  so_address o = so_address o' -> setStateObject o' (setStateObject o s) = setStateObject o' s.
Proof.
  intros H. unfold setStateObject, upd_objects; cbn [stateObjects]. by rewrite H, insert_insert_eq.
Qed.
Lemma set_dirty o f s : setStateObject o (upd_dirty f s) = upd_dirty f (setStateObject o s).
Proof. done. Qed.
Lemma set_journal o e s : setStateObject o (append_journal e s) = append_journal e (setStateObject o s).
Proof. done. Qed.
Lemma dirty_dirty d f s : upd_dirty (fun _ => d) (upd_dirty f s) = upd_dirty (fun _ => d) s.
Proof. done. Qed.

Lemma upd_destructed_id s : upd_destructed (fun d => d) s = s.
Proof. by destruct s. Qed.

Lemma acct_of_new dbm a b : acct_of dbm (newObject a zeroAccount b) = new_acct.
Proof.
  unfold acct_of, new_acct, view_code, view_storage, nz; cbn. by rewrite Z.eqb_refl.
Qed.

Lemma acct_ok_new : acct_ok new_acct.
Proof. split; [done|]. apply map_filter_empty. Qed.

Lemma absent_trie s a : wf0 s -> w_accts (abs s) !! a = None -> trie s !! a = None.
Proof.
  intros Hwf. rewrite abs_lookup. unfold view_at.
  destruct (stateObjects s !! a) as [o|] eqn:E.
  - destruct (so_deleted o) eqn:Hd; [|done]. intros _. by eapply wf_deleted.
  - by destruct (trie s !! a).
Qed.

Lemma world_undo_insert a x w :
  w_accts w !! a = None ->
  Some (set_accts (delete a) (set_accts (fun m => <[a := x]> m) w)) = Some w.
Proof.
  intros H. f_equal. unfold set_accts; cbn. rewrite delete_insert_id by done. by destruct w.
Qed.

Lemma world_undo_set a x y w :
  w_accts w !! a = Some y ->
  Some (set_accts (fun m => <[a := y]> m) (set_accts (fun m => <[a := x]> m) w)) = Some w.
Proof.
  intros H. f_equal. unfold set_accts; cbn. rewrite insert_insert_eq, insert_id by done.
  by destruct w.
Qed.

(** [createObject] at a free address. *)
Lemma createObject_fresh a s :
  wf s -> w_accts (abs s) !! a = None ->
  exists o s', createObject a s = (o, None, s') /\
    so_address o = a /\ so_deleted o = false /\ acct_of (db s) o = new_acct /\
    wf s' /\ abs s' = set_accts (fun m => <[a := new_acct]> m) (abs s) /\ later s s'.
Proof.
  intros Hwf Hx. unfold createObject.
  pose proof (getStateObject_spec a s (wf_0 s Hwf)) as Hg.
  destruct (getStateObject a s) as [[o|] s1]; [destruct Hg as (_ & _ & _ & H); congruence|].
  destruct Hg as [-> _]. unfold so_setNonce. fire_dirty.
  eexists _, _. split; [done|]. split; [done|]. split; [done|]. split; [apply acct_of_new|].
  rewrite <- (upd_destructed_id (setStateObject _ _)).
  rewrite <- (acct_of_new (db s) a b).
  apply (journalled_set_ok a _ (createObjectChange a) s (fun d => d) (fun _ => d)); try done.
  - change (acct_ok (acct_of (db s) (newObject a zeroAccount b))).
    rewrite acct_of_new. apply acct_ok_new.
  - cbn. by apply absent_trie; [apply Hwf|].
  - apply world_undo_insert. done.
Qed.

(** [createObject] over an existing account. *)
Lemma CreateAccount_over a o s :
  wf s -> getStateObject a s = (Some o, setStateObject o s) ->
  so_address o = a -> so_deleted o = false ->
  w_accts (abs s) !! a = Some (acct_of (db s) o) ->
  wf (CreateAccount a s) /\
  abs (CreateAccount a s)
    = set_accts (fun m => <[a := ac_set_balance (Balance (so_data o)) new_acct]> m) (abs s) /\
  later s (CreateAccount a s).
Proof.
  intros Hwf Hg Ha Hd Hx. unfold CreateAccount, createObject. rewrite Hg.
  unfold so_setNonce. fire_dirty. unfold so_setBalance. fire_dirty.
  set (o' := so_upd_onDirty b0 _).
  assert (acct_of (db s) o' = ac_set_balance (Balance (so_data o)) new_acct) as Hacc.
  { subst o'. pose proof (acct_of_new (db s) a b) as E.
    change (ac_set_balance (Balance (so_data o)) (acct_of (db s) (newObject a zeroAccount b))
            = ac_set_balance (Balance (so_data o)) new_acct). by rewrite E. }
  rewrite <- Hacc, <- (upd_destructed_id (setStateObject _ _)).
  rewrite !set_dirty, set_set, set_journal, set_dirty, set_set by done.
  apply (journalled_set_ok a o' (resetObjectChange o) s (fun d => d) (fun _ => d0)); try done.
  - rewrite Hacc. split; [done|]. cbn. apply map_filter_empty.
  - cbn [aundo]. rewrite Ha. by apply world_undo_set.
Qed.

Lemma CreateAccount_upd a : upd_ok wf abs later (CreateAccount a) (w_create a).
Proof.
  intros s Hwf. pose proof (getStateObject_spec a s (wf_0 s Hwf)) as Hg.
  destruct (getStateObject a s) as [[o|] s1] eqn:E.
  - destruct Hg as (Ha & Hd & -> & Hx).
    destruct (CreateAccount_over a o s Hwf E Ha Hd Hx) as (H1 & H2 & H3).
    split_and!; [done| |done]. rewrite H2. unfold w_create, w_balance, w_acct. by rewrite Hx.
  - destruct Hg as [-> Hx]. destruct (createObject_fresh a s Hwf Hx)
      as (o & s' & Ec & _ & _ & _ & Hw' & Habs & Hl).
    unfold CreateAccount. rewrite Ec. split_and!; [done| |done].
    rewrite Habs. unfold w_create, w_balance, w_acct. by rewrite Hx.
Qed.

Lemma w_upd_some a g x w :
  w_accts w !! a = Some x -> w_upd a g w = set_accts (fun m => <[a := g x]> m) w.
Proof. intros H. unfold w_upd, set_accts. by rewrite H. Qed.
Lemma w_upd_none a g w :
  w_accts w !! a = None ->
  w_upd a g w = set_accts (fun m => <[a := g new_acct]> m) (set_accts (fun m => <[a := new_acct]> m) w).
Proof. intros H. unfold w_upd, set_accts; cbn. by rewrite H, insert_insert_eq. Qed.

Lemma on_object_ok f g a :
  method_ok f g -> (forall x, acct_ok x -> acct_ok (g x)) ->
  upd_ok wf abs later (on_object f a) (w_upd a g).
Proof.
  intros Hf Hg s Hwf. unfold on_object, GetOrNewStateObject.
  pose proof (getStateObject_spec a s (wf_0 s Hwf)) as Hs.
  destruct (getStateObject a s) as [[o|] s1].
  - destruct Hs as (Ha & Hd & -> & Hx). rewrite Hd.
    assert (wf (setStateObject o s)) as Hwf1 by (by eapply wf_load).
    assert (abs (setStateObject o s) = abs s) as Habs1 by (by eapply abs_load).
    destruct (run_method_ok f g a o (setStateObject o s)) as (H1 & H2 & H3); try done.
    { by rewrite Habs1. }
    split_and!; [exact H1| |].
    + rewrite H2, Habs1. symmetry. by apply w_upd_some.
    + eapply later_trans; [|exact H3]. by apply later_frame.
  - destruct Hs as [-> Hx]. destruct (createObject_fresh a s Hwf Hx)
      as (o & s' & -> & Ha & Hd & Hn & Hwf' & Habs' & Hl).
    assert (db s' = db s) as Hdb by (apply Hl).
    destruct (run_method_ok f g a o s') as (H1 & H2 & H3); try done.
    { rewrite Habs', Hdb, Hn. cbn. by rewrite lookup_insert_eq. }
    split_and!; [exact H1| |by eapply later_trans].
    rewrite H2, Habs', Hdb, Hn. symmetry. by apply w_upd_none.
Qed.

(** ** Getters *)

(** Loading an object, or filling its caches, and recording a code size change nothing. *)
Lemma loaded_ok a o s f :
  wf s -> so_address o = a -> so_deleted o = false ->
  w_accts (abs s) !! a = Some (acct_of (db s) o) ->
  cache_ok (upd_cache f s) ->
  let s' := upd_cache f (setStateObject o s) in wf s' /\ abs s' = abs s /\ later s s'.
Proof.
  intros Hwf Ha Hd Hx Hc s'.
  assert (abs s' = abs s) as Habs by exact (abs_load a o s Ha Hd Hx).
  split_and!; [|done|by apply later_frame].
  eapply wf_transport; try done.
  assert (wf0 (setStateObject o s)) as [] by (apply wf0_set_object; [done|apply Hwf]). by split.
Qed.

Lemma upd_cache_id s : upd_cache (fun c => c) s = s.
Proof. by destruct s. Qed.

Lemma same_ok s : wf s -> wf s /\ abs s = abs s /\ later s s.
Proof. intros H. split_and!; [done|done|apply later_refl]. Qed.

Lemma get_ok_simple {A} a (f : option stateObject -> A) (g : option acct -> A) :
  f None = g None -> (forall dbm o, f (Some o) = g (Some (acct_of dbm o))) ->
  get_ok wf abs later (fun s => let '(o, s) := getStateObject a s in (f o, s))
         (fun w => g (w_acct a w)).
Proof.
  intros HN HS s Hwf. pose proof (getStateObject_spec a s (wf_0 s Hwf)) as Hg.
  destruct (getStateObject a s) as [[o|] s1]; unfold w_acct; cbn [fst snd].
  - destruct Hg as (Ha & Hd & -> & Hx). rewrite Hx. split; [apply HS|].
    rewrite <- (upd_cache_id (setStateObject o s)).
    apply (loaded_ok a o s (fun c => c)); try done. rewrite upd_cache_id. apply Hwf.
  - destruct Hg as [-> Hx]. rewrite Hx. split; [done|by apply same_ok].
Qed.

Lemma GetBalance_get a : get_ok wf abs later (GetBalance a) (w_balance a).
Proof. by apply (get_ok_simple a (fun o => match o with Some o => Balance (so_data o) | None => 0 end)
  (fun x => match x with Some x => ac_balance x | None => 0 end)). Qed.
Lemma GetNonce_get a : get_ok wf abs later (GetNonce a) (w_nonce a).
Proof. by apply (get_ok_simple a (fun o => match o with Some o => Nonce (so_data o) | None => 0 end)
  (fun x => match x with Some x => ac_nonce x | None => 0 end)). Qed.
Lemma GetCodeHash_get a : get_ok wf abs later (GetCodeHash a) (w_codehash a).
Proof. by apply (get_ok_simple a (fun o => match o with Some o => CodeHash (so_data o) | None => 0 end)
  (fun x => match x with Some x => ac_codehash x | None => 0 end)). Qed.
Lemma HasSuicided_get a : get_ok wf abs later (HasSuicided a) (w_suicided a).
Proof. by apply (get_ok_simple a (fun o => match o with Some o => so_suicided o | None => false end)
  (fun x => match x with Some x => ac_suicided x | None => false end)). Qed.
Lemma Exist_get a : get_ok wf abs later (Exist a) (w_exist a).
Proof. by apply (get_ok_simple a (fun o => match o with Some _ => true | None => false end)
  (fun x => @bool_decide (is_Some x) (is_Some_dec x))). Qed.
Lemma Empty_get a : get_ok wf abs later (Empty a) (w_empty a).
Proof. by apply (get_ok_simple a (fun o => match o with Some o => so_empty o | None => true end)
  (fun x => match x with Some x => ac_empty x | None => true end)). Qed.

Lemma GetState_get a k : get_ok wf abs later (GetState a k) (w_state a k).
Proof.
  intros s Hwf. pose proof (getStateObject_spec a s (wf_0 s Hwf)) as Hg. unfold GetState.
  destruct (getStateObject a s) as [[o|] s1]; unfold w_state, w_acct; cbn [fst snd].
  - destruct Hg as (Ha & Hd & -> & Hx). rewrite Hx.
    destruct (so_GetState_spec (db s) k o) as (Hv & Hacc & Ha' & Hd').
    destruct (so_GetState k o) as [v o1]; cbn [fst snd] in *. split; [done|]. rewrite set_set by done.
    rewrite <- (upd_cache_id (setStateObject o1 s)).
    apply (loaded_ok a o1 s (fun c => c)); try congruence. rewrite upd_cache_id. apply Hwf.
  - destruct Hg as [-> Hx]. rewrite Hx. split; [done|by apply same_ok].
Qed.

Lemma cache_put s o :
  wf s -> acct_ok (acct_of (db s) o) ->
  cache_ok (upd_cache (fun c => <[CodeHash (so_data o) := zlen (view_code (db s) o)]> c) s).
Proof.
  intros Hwf [Hh _] h n. cbn in *. destruct (decide (h = CodeHash (so_data o))) as [->|Hne].
  - rewrite lookup_insert_eq. intros [= <-]. by exists (view_code (db s) o).
  - rewrite lookup_insert_ne by done. apply (wf_c s Hwf).
Qed.

Lemma GetCode_get a : get_ok wf abs later (GetCode a) (w_code a).
Proof.
  intros s Hwf. pose proof (getStateObject_spec a s (wf_0 s Hwf)) as Hg. unfold GetCode.
  destruct (getStateObject a s) as [[o|] s1]; unfold w_code, w_acct; cbn [fst snd].
  - destruct Hg as (Ha & Hd & -> & Hx). rewrite Hx. change (db (setStateObject o s)) with (db s).
    destruct (so_Code_spec (db s) o) as (Hv & Hacc & Ha' & Hd' & Hdata & _).
    destruct (so_Code (db s) o) as [c o1]; cbn [fst snd] in *. rewrite Hv, Hdata.
    split; [done|]. rewrite set_set by done.
    apply (loaded_ok a o1 s); try congruence.
    apply cache_put; [done|]. by eapply (wf_w s Hwf).
  - destruct Hg as [-> Hx]. rewrite Hx. split; [done|by apply same_ok].
Qed.

Lemma GetCodeSize_get `{!CryptoOK} a :
  get_ok wf abs later (GetCodeSize a) (fun w => zlen (w_code a w)).
Proof.
  intros s Hwf. pose proof (getStateObject_spec a s (wf_0 s Hwf)) as Hg. unfold GetCodeSize.
  destruct (getStateObject a s) as [[o|] s1]; unfold w_code, w_acct; cbn [fst snd].
  2:{ destruct Hg as [-> Hx]. rewrite Hx. split; [done|by apply same_ok]. }
  destruct Hg as (Ha & Hd & -> & Hx). rewrite Hx.
  change (db (setStateObject o s)) with (db s).
  change (codeSizeCache (setStateObject o s)) with (codeSizeCache s).
  assert (acct_ok (acct_of (db s) o)) as Hok by (by eapply (wf_w s Hwf)).
  assert (forall o1, so_address o1 = a -> so_deleted o1 = false -> acct_of (db s) o1 = acct_of (db s) o ->
    wf (setStateObject o1 s) /\ abs (setStateObject o1 s) = abs s /\ later s (setStateObject o1 s)) as Hld.
  { intros o1 ? ? ?. rewrite <- (upd_cache_id (setStateObject o1 s)).
    apply (loaded_ok a o1 s (fun c => c)); try congruence. rewrite upd_cache_id. apply Hwf. }
  destruct (codeSizeCache s !! CodeHash (so_data o)) as [n|] eqn:Ec; cbn [fst snd].
  - split; [|by apply Hld]. destruct (wf_c s Hwf _ _ Ec) as (c & Hc & ->).
    destruct Hok as [Hh _]. cbn in Hh |- *. rewrite Hh in Hc. by apply keccak_inj in Hc as ->.
  - destruct (so_Code_spec (db s) o) as (Hv & Hacc & Ha' & Hd' & Hdata & _).
    destruct (so_Code (db s) o) as [c o1]; cbn [fst snd] in *. rewrite Hv, Hdata, set_set by done.
    split; [done|]. destruct (so_dbErr o1); [apply Hld; congruence|].
    apply (loaded_ok a o1 s); try congruence. by apply cache_put.
Qed.

(** ** Suicide, logs, preimages, refunds *)

Lemma Suicide_upd a : upd_ok wf abs later (fun s => (Suicide a s).2) (w_suicide a).
Proof.
  intros s Hwf. pose proof (getStateObject_spec a s (wf_0 s Hwf)) as Hg. unfold Suicide.
  destruct (getStateObject a s) as [[o|] s1]; unfold w_suicide, w_acct.
  2:{ destruct Hg as [-> Hx]. rewrite Hx. by apply same_ok. }
  destruct Hg as (Ha & Hd & -> & Hx). rewrite Hx. unfold markSuicided. fire_dirty. cbn [fst snd].
  set (o' := so_upd_data _ _).
  rewrite set_dirty, set_journal, set_set by done.
  change (ac_set_suicided true (ac_set_balance 0 (acct_of (db s) o))) with (acct_of (db s) o').
  apply (journalled_set_ok a o' (suicideChange a (so_suicided o) (Balance (so_data o))) s _ (fun _ => d));
    try done.
  - change (acct_ok (acct_of (db s) o)). by eapply (wf_w s Hwf).
  - cbn [aundo]. unfold w_existing. cbn [set_accts w_accts]. rewrite lookup_insert_eq.
    change (ac_set_suicided _ _) with (acct_of (db s) o). by apply world_undo_set.
Qed.

Lemma Suicide_result a s : wf s -> (Suicide a s).1 = w_exist a (abs s).
Proof.
  intros Hwf. pose proof (getStateObject_spec a s (wf_0 s Hwf)) as Hg.
  unfold Suicide, w_exist, w_acct.
  destruct (getStateObject a s) as [[o|] s1].
  - destruct Hg as (_ & _ & -> & ->). unfold markSuicided. fire_dirty. done.
  - by destruct Hg as [-> ->].
Qed.

(** An operation that journals [e] and leaves the objects alone. *)
Lemma journalled_env_ok e s s' :
  wf s -> entry_ok (trie s) e ->
  db s' = db s -> trie s' = trie s -> thash s' = thash s -> stateObjects s' = stateObjects s ->
  codeSizeCache s' = codeSizeCache s -> journal s' = journal s ++ [e] ->
  validRevisions s' = validRevisions s -> nextRevisionId s' = nextRevisionId s ->
  (forall h, logs s' !! h <> Some []) ->
  aundo (db s) e (abs s') = Some (abs s) -> wf s' /\ later s s'.
Proof.
  intros [[W1 W2 W3 W4] [S1 S2 S3] Hc Hw] He Edb Etr Eth Eo Ec Ej Er En Hl HU.
  assert (w_accts (abs s') = w_accts (abs s)) as Hacc by (cbn; congruence).
  split; [split|split].
  - split; rewrite ?Eo, ?Etr, ?Ej; try done. apply Forall_app. by repeat constructor.
  - split; rewrite ?Er, ?En, ?Ej; try done.
    eapply Forall_impl; [exact S3|]. cbn. intros. rewrite length_app. lia.
  - unfold cache_ok. by rewrite Ec.
  - unfold world_ok. by rewrite Hacc.
  - done.
  - done.
  - done.
  - lia.
  - exists [e]. split; [done|]. cbn [reverse rev rev_append aundo_all].
    change (reverse [e]) with [e]. cbn [aundo_all]. by rewrite HU.
  - exists []. by rewrite Er, app_nil_r.
Qed.

Lemma AddRefund_upd g : upd_ok wf abs later (AddRefund g) (w_add_refund g).
Proof.
  intros s Hwf. destruct (journalled_env_ok (refundChange (refund s)) s (AddRefund g s)); try done.
  by apply Hwf.
Qed.

Lemma AddPreimage_upd h d : upd_ok wf abs later (AddPreimage h d) (w_add_preimage h d).
Proof.
  intros s Hwf. unfold AddPreimage, w_add_preimage. change (w_preimages (abs s)) with (preimages s).
  destruct (preimages s !! h) as [p|] eqn:E; [by apply same_ok|].
  set (s' := upd_preimages _ _).
  destruct (journalled_env_ok (addPreimageChange h) s s'); try done.
  - apply Hwf.
  - cbn [aundo]. f_equal. unfold set_preimages, abs, s'; cbn. by rewrite delete_insert_id.
Qed.

Lemma abs_logs_default s h :
  default [] (w_logs (abs s) !! h) = map ev_of (default [] (logs s !! h)).
Proof. cbn. rewrite lookup_fmap. by destruct (logs s !! h). Qed.

Lemma AddLog_upd l : upd_ok wf abs later (AddLog l) (w_add_log l).
Proof.
  intros s Hwf.
  assert (abs (AddLog l s) = w_add_log l (abs s)) as Habs.
  { unfold w_add_log. rewrite abs_logs_default. unfold AddLog, abs, set_logs; cbn.
    by rewrite fmap_insert, map_app. }
  destruct (journalled_env_ok (addLogChange (thash s)) s (AddLog l s)); try done.
  - intros h. cbn. destruct (decide (h = thash s)) as [->|Hne].
    + rewrite lookup_insert_eq. intros [=E]. by apply app_nil in E as [_ ?].
    + rewrite lookup_insert_ne by done. apply Hwf.
  - rewrite Habs. unfold w_add_log. change (w_thash (abs s)) with (thash s).
    rewrite abs_logs_default. cbn [aundo set_logs w_logs]. rewrite lookup_insert_eq. cbn [default]. unfold id.
    pose proof (wf_logs s (wf_0 s Hwf) (thash s)) as Hne.
    assert (w_logs (abs s) !! thash s = map ev_of <$> logs s !! thash s) as Hlk by apply lookup_fmap.
    destruct (logs s !! thash s) as [ls|] eqn:E; cbn [default option_fmap option_map] in *.
    + unfold id. rewrite zlen_app. destruct ls as [|x ls]; [done|]. cbn [map app].
      assert (zlen (ev_of x :: map ev_of ls) + zlen [ev_of l] =? 1 = false) as ->
        by (apply Z.eqb_neq; unfold zlen; cbn [length]; lia).
      rewrite app_comm_cons, length_app, Nat.add_sub, take_app_length.
      f_equal. unfold set_logs; cbn [w_accts w_refund w_preimages w_thash w_logs].
      rewrite insert_insert_eq, insert_id by (rewrite Hlk; done). by destruct (abs s).
    + f_equal. unfold set_logs; cbn [w_accts w_refund w_preimages w_thash w_logs].
      rewrite delete_insert_id by (rewrite Hlk; done). by destruct (abs s).
Qed.

(** ** Undoing simulates the abstract undo *)

Record same_env (s s' : StateDB) : Prop := {
  se_db : db s' = db s; se_trie : trie s' = trie s; se_thash : thash s' = thash s;
  se_journal : journal s' = journal s; se_revs : validRevisions s' = validRevisions s;
  se_next : nextRevisionId s' = nextRevisionId s; se_cache : codeSizeCache s' = codeSizeCache s }.

Lemma same_env_refl s : same_env s s.
Proof. done. Qed.
Lemma same_env_trans s1 s2 s3 : same_env s1 s2 -> same_env s2 s3 -> same_env s1 s3.
Proof. intros [] []. split; congruence. Qed.

Definition undo_to (s : StateDB) (os : option StateDB) (w : world) : Prop :=
  exists s', os = Some s' /\ wf0 s' /\ abs s' = w /\ same_env s s'.

Lemma existing_sim a f g s w :
  (forall o, exists o' d, f o (setStateObject o s) = (o', upd_dirty (fun _ => d) (setStateObject o s)) /\
     so_address o' = so_address o /\ so_deleted o' = so_deleted o /\
     acct_of (db s) o' = g (acct_of (db s) o)) ->
  wf0 s -> w_existing a g (abs s) = Some w -> undo_to s (on_existing a f s) w.
Proof.
  intros Hf Hwf Hw. unfold on_existing, w_existing in *.
  pose proof (getStateObject_spec a s Hwf) as Hg.
  destruct (getStateObject a s) as [[o|] s1]; [|destruct Hg as [_ Hx]; by rewrite Hx in Hw].
  destruct Hg as (Ha & Hd & -> & Hx). rewrite Hx in Hw. injection Hw as <-.
  destruct (Hf o) as (o' & d & -> & Ha' & Hd' & Hacc).
  eexists. split; [done|]. rewrite set_dirty, set_set by done. split_and!; [| |done].
  - assert (wf0 (setStateObject o' s)) as [] by (apply wf0_set_object; congruence). by split.
  - change (abs (setStateObject o' s) = set_accts (fun m => <[a := g (acct_of (db s) o)]> m) (abs s)).
    rewrite abs_set_object by congruence. by rewrite Hacc, Ha', Ha.
Qed.

Lemma fire_method h (g : acct -> acct) s :
  (forall o, so_address (h o) = so_address o) -> (forall o, so_deleted (h o) = so_deleted o) ->
  forall o, acct_of (db s) (h o) = g (acct_of (db s) o) ->
  exists o' d, fire_onDirty (h o) (setStateObject o s) = (o', upd_dirty (fun _ => d) (setStateObject o s)) /\
     so_address o' = so_address o /\ so_deleted o' = so_deleted o /\
     acct_of (db s) o' = g (acct_of (db s) o).
Proof. intros H1 H2 o Hg. fire_dirty. eexists _, d. split_and!; [done|apply H1|apply H2|exact Hg]. Qed.

Lemma undo_create_sim a s :
  wf0 s -> trie s !! a = None ->
  undo_to s (undo (createObjectChange a) s) (set_accts (delete a) (abs s)).
Proof.
  intros [W1 W2 W3 W4] Ht. eexists. split; [done|]. split_and!; [split| |done]; cbn; try done.
  - intros b o [_ ?]%lookup_delete_Some. by apply W1.
  - intros b o [_ ?]%lookup_delete_Some. by apply W2.
  - unfold abs, set_accts; cbn. f_equal. apply map_eq. intros b.
    rewrite lookup_merge. destruct (decide (a = b)) as [->|Hne].
    + rewrite !lookup_delete_eq. by rewrite Ht.
    + by rewrite !lookup_delete_ne, lookup_merge by done.
Qed.

Lemma undo_suicide_sim a prev b s w :
  wf0 s -> w_existing a (fun x => ac_set_suicided prev (ac_set_balance b x)) (abs s) = Some w ->
  undo_to s (undo (suicideChange a prev b) s) w.
Proof.
  intros Hwf Hw.
  assert (undo_to s (on_existing a (fun o s => so_setBalance b (so_upd_suicided prev o) s) s) w)
    as (s' & E & H1 & H2 & H3).
  { eapply existing_sim; [|done|exact Hw]. intros o. unfold so_setBalance.
    by apply (fire_method (fun o => so_upd_data (d_upd_balance b) (so_upd_suicided prev o))
                (fun x => ac_set_suicided prev (ac_set_balance b x))). }
  unfold on_existing in E. cbn [undo].
  destruct (getStateObject a s) as [[o|] s1]; [|done].
  destruct (so_setBalance b (so_upd_suicided prev o) s1) as [o1 s2]. injection E as E.
  eexists. split; [done|]. rewrite E. destruct (negb (so_suicided o1)); [|done].
  split_and!; [by destruct H1; split|exact H2|]. by destruct H3; split.
Qed.

Lemma undo_log_sim h s w :
  wf0 s -> aundo (db s) (addLogChange h) (abs s) = Some w -> undo_to s (undo (addLogChange h) s) w.
Proof.
  intros [W1 W2 W3 W4]. cbn [aundo undo]. rewrite abs_logs_default.
  set (l := default [] (logs s !! h)).
  assert (zlen (map ev_of l) = zlen l) as -> by (unfold zlen; by rewrite length_map).
  destruct (Z.eqb_spec (zlen l) 1) as [E|E].
  - intros [= <-]. eexists. split; [done|]. split_and!; [split; try done| |done].
    + cbn. intros h'. rewrite lookup_delete_Some. intros [_ ?]. by eapply W3.
    + unfold abs, set_logs; cbn. by rewrite fmap_delete.
  - destruct l as [|x l'] eqn:El; [done|]. rewrite <- El in *. rewrite El at 1. cbn [map].
    intros [= <-]. eexists. split; [done|]. split_and!; [split; try done| |done].
    + cbn. intros h'. destruct (decide (h' = h)) as [->|Hne].
      * rewrite lookup_insert_eq. intros [=Hn]. apply (f_equal length) in Hn. revert Hn E.
        rewrite length_take. unfold zlen. rewrite El. cbn. lia.
      * rewrite lookup_insert_ne by done. apply W3.
    + unfold abs, set_logs; cbn. by rewrite fmap_insert, length_map, <- firstn_map.
Qed.

Lemma undo_touch_sim a prev pd s w :
  wf0 s -> aundo (db s) (touchChange a prev pd) (abs s) = Some w ->
  undo_to s (undo (touchChange a prev pd) s) w.
Proof.
  intros Hwf. cbn [aundo undo]. destruct (_ && _).
  - intros Hw. assert (undo_to s (on_existing a (fun o s => (so_upd_touched prev o, s)) s) w)
      as (s' & -> & H1 & H2 & H3).
    { eapply existing_sim; [|done|exact Hw]. intros o.
      exists (so_upd_touched prev o), (stateObjectsDirty (setStateObject o s)). by destruct s. }
    eexists. split; [done|]. destruct (negb pd); [|done].
    split_and!; [by destruct H1; split|exact H2|]. by destruct H3; split.
  - intros [= <-]. by exists s.
Qed.

Lemma undo_sim e s w :
  wf0 s -> entry_ok (trie s) e -> aundo (db s) e (abs s) = Some w -> undo_to s (undo e s) w.
Proof.
  intros Hwf He Hw. destruct e as [a|p|a prev b|a b|a n|a k v|a c h|r|h|h|a prev pd];
    cbn [entry_ok] in He.
  - injection Hw as <-. by apply undo_create_sim.
  - injection Hw as <-. eexists. split; [done|].
    split_and!; [by apply wf0_set_object|by apply abs_set_object|done].
  - by apply undo_suicide_sim.
  - eapply existing_sim; [|done|exact Hw]. intros o.
    by apply (fire_method (so_upd_data (d_upd_balance b))).
  - eapply existing_sim; [|done|exact Hw]. intros o.
    by apply (fire_method (so_upd_data (d_upd_nonce n))).
  - eapply existing_sim; [|done|exact Hw]. intros o.
    apply (fire_method (fun o => so_upd_storage (so_trie o) (<[k := v]> (so_cachedStorage o))
             (<[k := v]> (so_dirtyStorage o)) o)); try done.
    unfold acct_of, ac_set_state; cbn. f_equal. apply setState_view.
  - eapply existing_sim; [|done|exact Hw]. intros o.
    by apply (fire_method (so_upd_code c h)).
  - injection Hw as <-. eexists. split; [done|]. destruct Hwf. by repeat split.
  - by apply undo_log_sim.
  - injection Hw as <-. eexists. split; [done|]. destruct Hwf. by repeat split.
  - by apply undo_touch_sim.
Qed.

Lemma undo_all_sim es s w :
  wf0 s -> Forall (entry_ok (trie s)) es -> aundo_all (db s) es (abs s) = Some w ->
  undo_to s (undo_all es s) w.
Proof.
  revert s. induction es as [|e es IH]; intros s Hwf Hes Hw.
  - injection Hw as <-. by exists s.
  - apply Forall_cons in Hes as [He Hes]. cbn in Hw |- *.
    destruct (aundo (db s) e (abs s)) as [w1|] eqn:E; [|done].
    destruct (undo_sim e s w1 Hwf He E) as (s1 & -> & Hwf1 & Habs1 & Henv).
    destruct (IH s1) as (s2 & -> & H1 & H2 & H3); try done.
    + by rewrite (se_trie _ _ Henv).
    + by rewrite (se_db _ _ Henv), Habs1.
    + exists s2. split_and!; try done. by eapply same_env_trans.
Qed.

(** ** Snapshots *)

(** [sort.Search] finds the boundary of a monotone predicate. *)
Lemma search_loop_spec fuel f n i j :
  (j - i < fuel)%nat -> (i <= j <= n)%nat ->
  (forall a b, (a <= b < n)%nat -> f a = true -> f b = true) ->
  (forall k, (k < i)%nat -> f k = false) -> (forall k, (j <= k < n)%nat -> f k = true) ->
  let r := search_loop fuel f i j in
  (r <= n)%nat /\ (forall k, (k < r)%nat -> f k = false) /\ (forall k, (r <= k < n)%nat -> f k = true).
Proof.
  intros Hf Hij Hm. revert i j Hf Hij. induction fuel as [|fuel IH]; intros i j Hf Hij Hlo Hhi; [lia|].
  cbn [search_loop]. destruct (Nat.ltb_spec i j) as [Hlt|Hge].
  - pose proof (Nat.div_lt (j - i) 2 ltac:(lia) ltac:(lia)) as Hdiv.
    set (h := (i + (j - i) / 2)%nat) in *.
    assert (i <= h < j)%nat as Hh by lia.
    destruct (f h) eqn:E; apply IH; try lia; try done.
    + intros k Hk. by apply (Hm h k); [lia|].
    + intros k Hk. destruct (f k) eqn:Ek; [|done].
      rewrite (Hm k h) in E; [done|lia|done].
  - split_and!; [lia|done|]. intros k Hk. apply Hhi. lia.
Qed.

Lemma sort_Search_spec n f :
  (forall a b, (a <= b < n)%nat -> f a = true -> f b = true) ->
  (sort_Search n f <= n)%nat /\ (forall k, (k < sort_Search n f)%nat -> f k = false) /\
  (forall k, (sort_Search n f <= k < n)%nat -> f k = true).
Proof. intros Hm. apply search_loop_spec; try done; try lia. Qed.

(** The boundary of "at least [id]" in a list split at [id]. *)
Lemma sort_Search_rev lo r hi id :
  Forall (fun r => rev_id r < id) lo -> rev_id r = id -> Forall (fun r => id < rev_id r) hi ->
  sort_Search (length (lo ++ r :: hi))
    (fun i => match (lo ++ r :: hi) !! i with Some r => rev_id r >=? id | None => true end) = length lo.
Proof.
  intros Hlo Hr Hhi. set (f := fun i => _).
  assert (forall k, (k < length lo)%nat -> f k = false) as Hf0.
  { intros k Hk. subst f. cbn. destruct (lookup_lt_is_Some_2 lo k Hk) as [x Hx].
    rewrite lookup_app_l, Hx by done. apply (Forall_lookup_1 _ _ _ _ Hlo) in Hx. lia. }
  assert (forall k, (length lo <= k)%nat -> f k = true) as Hf1.
  { intros k Hk. subst f. cbn. rewrite lookup_app_r by done.
    destruct (k - length lo)%nat as [|m]; cbn; [lia|].
    destruct (hi !! m) as [x|] eqn:E; [|done]. apply (Forall_lookup_1 _ _ _ _ Hhi) in E. lia. }
  destruct (sort_Search_spec (length (lo ++ r :: hi)) f) as (H1 & H2 & H3).
  { intros a b Hab Ha. apply Hf1. destruct (decide (a < length lo)%nat) as [Hlt|]; [|lia].
    by rewrite Hf0 in Ha. }
  rewrite length_app in *. cbn [length] in *.
  destruct (lt_eq_lt_dec (sort_Search (length lo + S (length hi)) f) (length lo)) as [[?|?]|?]; [|done|].
  - specialize (H3 (sort_Search (length lo + S (length hi)) f)).
    rewrite Hf0 in H3 by done. discriminate H3. lia.
  - specialize (H2 (length lo)). rewrite Hf1 in H2 by lia. discriminate H2. lia.
Qed.

Lemma Snapshot_state s : wf s ->
  wf (Snapshot s).2 /\ abs (Snapshot s).2 = abs s /\ later s (Snapshot s).2.
Proof.
  intros [[W1 W2 W3 W4] [S1 S2 S3] Hc Hw]. split_and!; [split; try done; split; cbn; try done|done|].
  - intros i j r1 r2 Hij H1 H2. apply lookup_snoc_Some in H1, H2.
    destruct H1 as [[? H1]|[? <-]], H2 as [[? H2]|[? <-]]; try lia; [by apply (S1 i j)|].
    cbn. by apply (Forall_lookup_1 _ _ _ _ S2 H1).
  - apply Forall_app. split; [|repeat constructor; cbn; lia].
    eapply Forall_impl; [exact S2|]. cbn. lia.
  - apply Forall_app. split; [done|]. by repeat constructor.
  - split; cbn; try done; [lia| |].
    + exists []. by rewrite app_nil_r.
    + eexists. split; [done|]. repeat constructor. cbn. lia.
Qed.

Lemma Revert_state s s2 :
  wf s -> wf s2 -> later (Snapshot s).2 s2 ->
  exists s3, RevertToSnapshot (nextRevisionId s) s2 = Some s3 /\
             wf s3 /\ abs s3 = abs s /\ later s s3.
Proof.
  intros [[W1 W2 W3 W4] [S1 S2 S3] Hc Hw] Hwf2 [D T H I (J & EJ & U) (R & ER & FR)].
  cbn in D, T, H, I, EJ, ER, FR. change (abs (Snapshot s).2) with (abs s) in U.
  change (db (Snapshot s).2) with (db s) in U.
  unfold RevertToSnapshot. rewrite ER, <- app_assoc. cbn [app].
  rewrite sort_Search_rev; [|done|done|eapply Forall_impl; [exact FR|cbn; lia]].
  rewrite lookup_app_r, Nat.sub_diag by done. cbn [lookup list_lookup rev_id rev_journalIndex].
  rewrite Z.eqb_refl, EJ, drop_app_length. cbn [negb].
  destruct (undo_all_sim (reverse J) s2 (abs s)) as (s3 & -> & H0 & Habs & Henv).
  { apply Hwf2. }
  { apply Forall_reverse. pose proof (wf_journal s2 (wf_0 s2 Hwf2)) as HJ.
    rewrite EJ in HJ. by apply Forall_app in HJ as [_ HJ]. }
  { by rewrite D. }
  destruct Henv as [E1 E2 E3 E4 E5 E6 E7]. eexists. split; [done|].
  assert (abs (upd_revisions (take (length (validRevisions s)) (validRevisions s3)) (nextRevisionId s3)
            (upd_journal (take (length (journal s))) s3)) = abs s) as Habs' by exact Habs.
  assert (take (length (journal s)) (journal s3) = journal s) as Hj
    by (rewrite E4, EJ; apply take_app_length).
  assert (take (length (validRevisions s)) (validRevisions s3) = validRevisions s) as Hv
    by (rewrite E5, ER, <- app_assoc; apply take_app_length).
  split_and!; [split| |split]; try done.
  - destruct H0 as [A1 A2 A3 A4]. split; cbn; try done. by rewrite Hj, E2, T.
  - split; cbn; rewrite ?Hj, ?Hv; try done. eapply Forall_impl; [exact S2|]. cbn. lia.
  - unfold cache_ok. cbn. rewrite E7. apply Hwf2.
  - by rewrite Habs'.
  - cbn. congruence.
  - cbn. congruence.
  - cbn. congruence.
  - cbn. lia.
  - exists []. cbn [journal upd_revisions upd_journal]. rewrite Hj, app_nil_r. split; [done|].
    cbn. by rewrite Habs'.
  - exists []. cbn. by rewrite Hv, app_nil_r.
Qed.

Lemma acct_ok_code c x : acct_ok x -> acct_ok (ac_set_code (Keccak256Hash c) c x).
Proof. by intros [_ ?]. Qed.
Lemma acct_ok_state k v x : acct_ok x -> acct_ok (ac_set_state k v x).
Proof. intros [? H]. split; [done|]. cbn. rewrite <- H, <- nz_insert. apply nz_idemp. Qed.

Lemma AddBalance_upd a v : upd_ok wf abs later (AddBalance a v) (w_add_balance a v).
Proof. exact (on_object_ok _ _ a (AddBalance_method v) (fun x H => H)). Qed.
Lemma SubBalance_upd a v : upd_ok wf abs later (SubBalance a v) (w_sub_balance a v).
Proof. exact (on_object_ok _ _ a (SubBalance_method v) (fun x H => H)). Qed.
Lemma SetNonce_upd a n : upd_ok wf abs later (SetNonce a n) (w_set_nonce a n).
Proof. exact (on_object_ok _ _ a (SetNonce_method n) (fun x H => H)). Qed.
Lemma SetCode_upd a c : upd_ok wf abs later (SetCode a c) (w_set_code a c).
Proof. exact (on_object_ok _ _ a (SetCode_method c) (acct_ok_code c)). Qed.
Lemma SetState_upd a k v : upd_ok wf abs later (SetState a k v) (w_set_state a k v).
Proof. exact (on_object_ok _ _ a (SetState_method k v) (acct_ok_state k v)). Qed.

(** ** The journalled database implements the interface of the virtual machine *)

#[export] Instance StateDB_ops : StateDBI StateDB := {|
  World.CreateAccount := CreateAccount; World.SubBalance := SubBalance;
  World.AddBalance := AddBalance; World.GetBalance := GetBalance; World.GetNonce := GetNonce;
  World.SetNonce := SetNonce; World.GetCodeHash := GetCodeHash; World.GetCode := GetCode;
  World.SetCode := SetCode; World.GetCodeSize := GetCodeSize; World.AddRefund := AddRefund;
  World.GetRefund := GetRefund; World.WriteRefund := WriteRefund; World.GetState := GetState; World.SetState := SetState;
  World.Suicide := Suicide; World.HasSuicided := HasSuicided; World.Exist := Exist;
  World.Empty := Empty; World.Snapshot := Snapshot; World.RevertToSnapshot := RevertToSnapshot;
  World.AddLog := AddLog; World.AddPreimage := AddPreimage |}.

#[export] Instance StateDB_spec `{!CryptoOK} : StateDBSpec StateDB.
Proof.
  refine {| sd_wf := wf; sd_abs := abs; sd_later := later;
    sd_later_refl := fun s _ => later_refl s; sd_later_trans := later_trans;
    CreateAccount_ok := CreateAccount_upd; SubBalance_ok := SubBalance_upd;
    AddBalance_ok := AddBalance_upd; SetNonce_ok := SetNonce_upd; SetCode_ok := SetCode_upd;
    SetState_ok := SetState_upd; AddRefund_ok := AddRefund_upd; AddLog_ok := AddLog_upd;
    AddPreimage_ok := AddPreimage_upd; Suicide_ok := Suicide_upd; GetBalance_ok := GetBalance_get;
    GetNonce_ok := GetNonce_get; GetCodeHash_ok := GetCodeHash_get; GetCode_ok := GetCode_get;
    GetCodeSize_ok := GetCodeSize_get; GetState_ok := GetState_get;
    HasSuicided_ok := HasSuicided_get; Exist_ok := Exist_get; Empty_ok := Empty_get;
    GetRefund_ok := fun s _ => eq_refl |}.
  - intros v s [[] [] Hc Hw]. split; [|done]. split; [by split|by split|exact Hc|exact Hw].
  - intros s id s1 Hwf [= <- <-]. destruct (Snapshot_state s Hwf) as (H1 & H2 & H3).
    split_and!; [done..|]. intros s2. by apply Revert_state.
  - intros s a x Hwf Hx. by apply (wf_w s Hwf a x).
Defined.

End proofs.
End StateProofs.
