(* ===== verification/Ideal.v ===== *)
(** * An ideal digest

    A concrete instance of the cryptographic parameters at which the collision-freeness
    hypothesis [CryptoOK] holds: the digest of a byte string is the number its bytes spell
    after a leading one.  The witnesses of the development are evaluated at it. *)

From S2P Require Import Prelude GoMath World.

Definition ideal_digest (d : list byte) : Z := SetBytes (Byte.x01 :: d).

#[export] Instance ideal_prims : CryptoPrims := {|
  Keccak256Hash := ideal_digest;
  EcrecoverPub := fun _ _ => None;
  Sha256 := fun d => be_bytes 32 (ideal_digest d);
  Ripemd160 := fun d => be_bytes 20 (ideal_digest d) |}.

Lemma ideal_digest_range d : 256 ^ zlen d <= ideal_digest d < 256 ^ (zlen d + 1).
Proof.
  unfold ideal_digest. rewrite SetBytes_cons. pose proof (SetBytes_bound d) as Hb.
  rewrite Z.pow_add_r by (auto using zlen_nonneg; lia).
  change (byte_to_Z Byte.x01) with 1. lia.
Qed.

Lemma ideal_digest_length d d' : ideal_digest d = ideal_digest d' -> length d = length d'.
Proof.
  intros E. pose proof (ideal_digest_range d) as H. pose proof (ideal_digest_range d') as H'.
  rewrite <- E in H'.
  assert (256 ^ zlen d < 256 ^ (zlen d' + 1)) as H1 by lia.
  assert (256 ^ zlen d' < 256 ^ (zlen d + 1)) as H2 by lia.
  apply Z.pow_lt_mono_r_iff in H1; [|lia|unfold zlen; lia].
  apply Z.pow_lt_mono_r_iff in H2; [|lia|unfold zlen; lia].
  unfold zlen in *. lia.
Qed.

#[export] Instance ideal_ok : CryptoOK.
Proof.
  split; [|done|intros; apply length_be_bytes..]. intros d d' E. pose proof (ideal_digest_length d d' E) as Hl.
  unfold Keccak256Hash, ideal_prims, ideal_digest in E. rewrite !SetBytes_cons in E.
  unfold zlen in E. rewrite Hl in E.
  rewrite <- (be_bytes_SetBytes d), <- (be_bytes_SetBytes d'), Hl. f_equal. lia.
Qed.
