(* ===== verification/Demo.v ===== *)
(** * Digests and signatures for examples

    Primitives that can be evaluated quickly: a polynomial hash modulo [2 ^ 64], and signatures
    that name their signer by their first byte.  The witnesses about tries and about the
    consensus engines are evaluated at them. *)

From S2P Require Import Prelude GoMath World.

Definition bs (l : list Z) : list byte := map byte_of_Z l.

Definition mix_digest (d : list byte) : Z :=
  fold_left (fun acc b => Z.land (acc * 65599 + byte_to_Z b + 1) (2 ^ 64 - 1)) d (2 ^ 63 + zlen d).
Definition mix_prims : CryptoPrims := {|
  Keccak256Hash := mix_digest;
  EcrecoverPub := fun _ sig => match sig with [] => None | b :: _ => Some (replicate 65 b) end;
  Sha256 := fun d => be_bytes 32 (mix_digest d);
  Ripemd160 := fun d => be_bytes 20 (mix_digest d) |}.

Definition mix_512 (d : list byte) : list byte := be_bytes 64 (mix_digest d * 2 ^ 256 + mix_digest (rev d)).
Lemma length_mix_512 d : length (mix_512 d) = 64%nat.
Proof. apply length_be_bytes. Qed.
