(* ===== verification/VmJump.v ===== *)
(** * Jump destination analysis is exact

    The bitmap of [jumpdests] marks exactly the JUMPDEST bytes that are instructions, and the
    cached lookup [destinations.has] returns that, whatever contracts were analysed before. *)

From S2P Require Import Prelude GoMath Params World Rlp VmBase Vm VmFacts Ideal.

Module VmJump.
Import Vm VmFacts.

(** ** Instruction boundaries *)

(** The bytes of immediate data that follow an opcode. *)
Definition push_size (c : byte) : nat :=
  let op := byte_to_Z c in
  if (op >=? PUSH1) && (op <=? PUSH32) then Z.to_nat (op - PUSH1 + 1) else 0.

(** Positions at which an instruction starts. *)
Inductive boundary (code : list byte) : nat -> Prop :=
| boundary_start : boundary code 0
| boundary_next p c : boundary code p -> code !! p = Some c -> boundary code (p + 1 + push_size c).

Definition valid_dest (code : list byte) (p : nat) : Prop :=
  boundary code p /\ exists c, code !! p = Some c /\ byte_to_Z c = JUMPDEST.

(** The same as a function, with a number of immediate bytes still to skip. *)
Fixpoint is_dest (code : list byte) (skip p : nat) : bool :=
  match code, p with
  | [], _ => false
  | c :: _, O => match skip with O => byte_to_Z c =? JUMPDEST | S _ => false end
  | c :: code', S p' => is_dest code' (match skip with O => push_size c | S k => k end) p'
  end.

Lemma is_dest_skip code k p :
  is_dest code k p = (k <=? p)%nat && is_dest (drop k code) 0 (p - k).
Proof.
  revert k p. induction code as [|c code IH]; intros k p.
  - rewrite drop_nil. cbn. by rewrite andb_false_r.
  - destruct p as [|p]; destruct k as [|k]; cbn [is_dest drop Nat.leb]; try done.
    rewrite IH. done.
Qed.

Lemma is_dest_boundary code b p :
  boundary code b -> (b <= p)%nat -> is_dest code 0 p = is_dest (drop b code) 0 (p - b).
Proof.
  induction 1 as [|q c Hq IH Hc]; intros Hp.
  - by rewrite drop_0, Nat.sub_0_r.
  - rewrite IH by lia. rewrite (drop_S _ _ _ Hc).
    destruct (p - q)%nat as [|n] eqn:En; [lia|]. cbn [is_dest]. rewrite is_dest_skip.
    rewrite drop_drop. destruct (Nat.leb_spec (push_size c) n); [|lia]. cbn [andb].
    f_equal; [f_equal; lia|lia].
Qed.

Lemma is_dest_sound code p n b :
  (p - b < n)%nat -> boundary code b -> (b <= p)%nat -> is_dest (drop b code) 0 (p - b) = true ->
  valid_dest code p.
Proof.
  revert b. induction n as [|n IH]; intros b Hn Hb Hp H; [lia|].
  destruct (drop b code) as [|c rest] eqn:E; [done|].
  assert (code !! b = Some c) as Hc.
  { rewrite <- (Nat.add_0_r b), <- lookup_drop, E. done. }
  destruct (p - b)%nat as [|k] eqn:Ek; cbn [is_dest] in H.
  - assert (p = b) as -> by lia. split; [done|]. exists c. split; [done|lia].
  - rewrite is_dest_skip in H. apply andb_prop in H as [H1 H2]. apply Nat.leb_le in H1.
    apply (IH (b + 1 + push_size c)%nat); [lia|by constructor|lia|].
    assert (rest = drop (b + 1) code) as Er by (rewrite <- drop_drop, E; done).
    rewrite Er, drop_drop in H2. rewrite <- H2. f_equal. lia.
Qed.

Lemma is_dest_spec code p : is_dest code 0 p = true <-> valid_dest code p.
Proof.
  split.
  - intros H. apply (is_dest_sound code p (S p) 0); [lia|constructor|lia|].
    by rewrite drop_0, Nat.sub_0_r.
  - intros (Hb & c & Hc & Hj). rewrite (is_dest_boundary code p p Hb) by lia.
    rewrite Nat.sub_diag, (drop_S _ _ _ Hc). cbn. lia.
Qed.

(** ** The bitmap *)

Definition bit_at (m : list byte) (p : Z) : bool :=
  Z.testbit (byte_to_Z (default Byte.x00 (m !! Z.to_nat (p / 8)))) (p mod 8).

Lemma testbit_byte_or b k j :
  0 <= k < 8 -> 0 <= j < 8 ->
  Z.testbit (byte_to_Z (byte_of_Z (Z.lor (byte_to_Z b) (Z.shiftl 1 k)))) j
  = Z.testbit (byte_to_Z b) j || (j =? k).
Proof.
  intros Hk Hj. rewrite byte_to_of_Z. change 256 with (2 ^ 8).
  rewrite Z.mod_pow2_bits_low by lia. rewrite Z.lor_spec. f_equal.
  rewrite Z.shiftl_spec by lia. destruct (Z.eqb_spec j k) as [->|Hne].
  - by rewrite Z.sub_diag.
  - destruct (Z.lt_ge_cases j k); [by rewrite Z.testbit_neg_r by lia|].
    change 1 with (2 ^ 0). rewrite Z.pow2_bits_false; [done|lia].
Qed.

Lemma bit_at_set m pc p :
  0 <= pc -> 0 <= p -> (Z.to_nat (pc / 8) < length m)%nat ->
  bit_at (set_bit m pc) p = bit_at m p || (p =? pc).
Proof.
  intros Hpc Hp Hl. unfold bit_at, set_bit.
  pose proof (Z.div_mod pc 8 ltac:(lia)). pose proof (Z.mod_pos_bound pc 8 ltac:(lia)).
  pose proof (Z.div_mod p 8 ltac:(lia)). pose proof (Z.mod_pos_bound p 8 ltac:(lia)).
  pose proof (Z.div_pos pc 8). pose proof (Z.div_pos p 8).
  destruct (Z.eq_dec (p / 8) (pc / 8)) as [E|E].
  - rewrite E, list_lookup_alter_eq. destruct (lookup_lt_is_Some_2 m (Z.to_nat (pc / 8)) Hl) as [b Hb].
    rewrite Hb. cbn [fmap option_fmap option_map default]. unfold id. rewrite testbit_byte_or by lia. f_equal.
    destruct (Z.eqb_spec (p mod 8) (pc mod 8)), (Z.eqb_spec p pc); try done; lia.
  - rewrite list_lookup_alter_ne by lia. destruct (Z.eqb_spec p pc); [subst; done|].
    by rewrite orb_false_r.
Qed.

Lemma length_set_bit m pc : length (set_bit m pc) = length m.
Proof. apply length_alter. Qed.

Lemma jumpdests_loop_push c code pc m :
  (if (byte_to_Z c >=? PUSH1) && (byte_to_Z c <=? PUSH32)
   then jumpdests_loop code (Z.to_nat (byte_to_Z c - PUSH1 + 1)) (pc + 1) m
   else jumpdests_loop code 0 (pc + 1) m) = jumpdests_loop code (push_size c) (pc + 1) m.
Proof. unfold push_size. by destruct (_ && _). Qed.

Lemma jumpdests_loop_spec code skip pc m p :
  0 <= pc -> 0 <= p -> (pc + zlen code) / 8 < zlen m ->
  bit_at (jumpdests_loop code skip pc m) p
  = bit_at m p || (pc <=? p) && is_dest code skip (Z.to_nat (p - pc)).
Proof.
  revert skip pc m. induction code as [|c code IH]; intros skip pc m Hpc Hp Hl.
  - cbn. by rewrite andb_false_r, orb_false_r.
  - rewrite zlen_cons in Hl. replace (pc + (zlen code + 1)) with (pc + 1 + zlen code) in Hl by lia.
    assert (forall k m', length m' = length m ->
      bit_at (jumpdests_loop code k (pc + 1) m') p
      = bit_at m' p || (pc + 1 <=? p) && is_dest code k (Z.to_nat (p - (pc + 1)))) as IH'.
    { intros k m' Hm'. apply IH; [lia|lia|]. unfold zlen. by rewrite Hm'. }
    assert (forall k, (pc + 1 <=? p) && is_dest code k (Z.to_nat (p - (pc + 1)))
      = (pc <=? p) && match Z.to_nat (p - pc) with O => false | S p' => is_dest code k p' end) as Hstep.
    { intros k. destruct (Z.leb_spec (pc + 1) p), (Z.leb_spec pc p); try lia; cbn [andb].
      - replace (Z.to_nat (p - pc)) with (S (Z.to_nat (p - (pc + 1)))) by lia. done.
      - by replace (Z.to_nat (p - pc)) with 0%nat by lia. }
    cbn [jumpdests_loop]. destruct skip as [|k].
    2:{ rewrite IH', Hstep by done. cbn [is_dest]. by destruct (Z.to_nat (p - pc)). }
    cbn [is_dest]. destruct (Z.eqb_spec (byte_to_Z c) JUMPDEST) as [Ej|Ej].
    + assert (push_size c = 0%nat) as Hps by (unfold push_size; by rewrite Ej).
      assert (Z.to_nat (pc / 8) < length m)%nat as Hlt.
      { pose proof (Z.div_le_mono pc (pc + 1 + zlen code) 8 ltac:(lia) ltac:(unfold zlen; lia)).
        pose proof (Z.div_pos pc 8). unfold zlen in *. lia. }
      rewrite IH' by apply length_set_bit. rewrite Hstep, bit_at_set by lia. rewrite <- orb_assoc. f_equal.
      destruct (Z.eqb_spec p pc) as [->|Hne].
      * rewrite Z.leb_refl, Z.sub_diag. done.
      * rewrite Hps. destruct (Z.leb_spec pc p); cbn [orb andb]; [|done].
        destruct (Z.to_nat (p - pc)) eqn:E; [lia|done].
    + rewrite jumpdests_loop_push. rewrite IH', Hstep by done.
      by destruct (Z.to_nat (p - pc)).
Qed.
Lemma length_jumpdests_loop code skip pc m : length (jumpdests_loop code skip pc m) = length m.
Proof.
  revert skip pc m. induction code as [|c code IH]; intros skip pc m; cbn [jumpdests_loop]; [done|].
  destruct skip; [|apply IH]. repeat case_match; rewrite IH; by rewrite ?length_set_bit.
Qed.

Lemma jumpdests_spec code p :
  0 <= p -> bit_at (jumpdests code) p = is_dest code 0 (Z.to_nat p).
Proof.
  intros Hp. unfold jumpdests. rewrite jumpdests_loop_spec.
  - rewrite Z.sub_0_r. destruct (Z.leb_spec 0 p); [|lia]. unfold bit_at, zeros.
    assert (default Byte.x00 (replicate (length code / 8 + 1) Byte.x00 !! Z.to_nat (p / 8)) = Byte.x00) as ->.
    { destruct (_ !! _) eqn:E; [|done]. by apply lookup_replicate in E as [-> _]. }
    by rewrite Z.testbit_0_l.
  - lia.
  - done.
  - rewrite Z.add_0_l. unfold zlen. rewrite length_zeros, Nat2Z.inj_add, Nat2Z.inj_div. lia.
Qed.

(** ** The cache *)

Section cache.
Context `{C : CryptoPrims}.

(** Every cached bitmap is the analysis of a code with that hash. *)
Definition dests_ok (d : destinations) : Prop :=
  forall h m, d !! h = Some m -> exists c, Keccak256Hash c = h /\ m = jumpdests c.

Lemma dests_ok_empty : dests_ok ∅.
Proof. intros h m H. by rewrite lookup_empty in H. Qed.

Lemma land_bit b k : 0 <= k -> negb (Z.land b (Z.shiftl 1 k) =? 0) = Z.testbit b k.
Proof.
  intros Hk. rewrite Z.shiftl_1_l. destruct (Z.testbit b k) eqn:E.
  - destruct (Z.eqb_spec (Z.land b (2 ^ k)) 0) as [H|H]; [|done].
    assert (Z.testbit (Z.land b (2 ^ k)) k = true) as H' by (rewrite Z.land_spec, E, Z.pow2_bits_true; done || lia).
    by rewrite H, Z.testbit_0_l in H'.
  - assert (Z.land b (2 ^ k) = 0) as ->; [|done]. apply Z.bits_inj'. intros n Hn.
    rewrite Z.land_spec, Z.bits_0, Z.pow2_bits_eqb by lia.
    destruct (Z.eqb_spec k n) as [->|]; [by rewrite E|apply andb_false_r].
Qed.

Lemma dest_has_spec `{!CryptoOK} code dest d :
  zlen code <= 2 ^ 62 -> 0 <= dest -> dests_ok d ->
  exists d', dest_has (Keccak256Hash code) code dest d = Ret (is_dest code 0 (Z.to_nat dest), d') /\
             dests_ok d'.
Proof.
  intros Hl Hd Hok. unfold dest_has.
  assert (BitLen dest >=? 63 = (2 ^ 62 <=? dest)) as ->.
  { pose proof (BitLen_bound dest 62 Hd ltac:(lia)). rewrite Z.geb_leb.
    destruct (Z.leb_spec 63 (BitLen dest)), (Z.leb_spec (2 ^ 62) dest); try done; lia. }
  assert (forall n, zlen code <= n -> is_dest code 0 (Z.to_nat n) = false) as Hout.
  { intros n Hn. destruct (is_dest code 0 (Z.to_nat n)) eqn:E; [|done].
    apply is_dest_spec in E as (_ & c & Hc & _). apply lookup_lt_Some in Hc. unfold zlen in Hn. lia. }
  rewrite Z.geb_leb. destruct (Z.leb_spec (2 ^ 62) dest); cbn [orb].
  { exists d. rewrite Hout by lia. done. }
  rewrite Uint64_small by lia. destruct (Z.leb_spec (zlen code) dest) as [|Hlt].
  { exists d. rewrite Hout by lia. done. }
  assert (exists d', (match d !! Keccak256Hash code with
      | Some m => (m, d)
      | None => (jumpdests code, <[Keccak256Hash code := jumpdests code]> d) end) = (jumpdests code, d') /\
      dests_ok d') as (d' & -> & Hok').
  { destruct (d !! Keccak256Hash code) as [m|] eqn:E.
    - destruct (Hok _ _ E) as (c & Hc & ->). apply keccak_inj in Hc as ->. by exists d.
    - eexists. split; [done|]. intros h m. destruct (decide (h = Keccak256Hash code)) as [->|Hne].
      + rewrite lookup_insert_eq. intros [= <-]. by exists code.
      + rewrite lookup_insert_ne by done. apply Hok. }
  assert (Z.to_nat (dest / 8) < length (jumpdests code))%nat as Hin.
  { unfold jumpdests. rewrite length_jumpdests_loop, length_zeros. unfold zlen in Hlt.
    pose proof (Z.div_le_mono dest (Z.of_nat (length code)) 8 ltac:(lia) ltac:(lia)).
    pose proof (Z.div_pos dest 8). rewrite <- (Nat2Z.id (length code / 8)), Nat2Z.inj_div. lia. }
  destruct (lookup_lt_is_Some_2 _ _ Hin) as [b Hb]. rewrite Hb. cbn [or_panic obind].
  exists d'. split; [|done]. do 3 f_equal.
  rewrite <- jumpdests_spec by done. unfold bit_at. rewrite Hb. cbn [default].
  rewrite land_bit; [done|]. apply Z.mod_pos_bound. lia.
Qed.
End cache.

(** [destinations.has] accepts a jump target exactly when it is the position of a JUMPDEST
    byte at which an instruction starts (never one inside PUSH data), whatever codes the shared
    cache has analysed before, and it never indexes out of range. *)
Theorem has_correct `{!CryptoPrims} `{!CryptoOK} (code : list byte) (dest : Z) (d : destinations) :
  zlen code <= 2 ^ 62 -> 0 <= dest -> dests_ok d ->
  exists b d', dest_has (Keccak256Hash code) code dest d = Ret (b, d') /\ dests_ok d' /\
    (b = true <-> valid_dest code (Z.to_nat dest)).
Proof.
  intros Hl Hd Hok. destruct (dest_has_spec code dest d Hl Hd Hok) as (d' & E & Hok').
  eexists _, d'. split; [exact E|]. split; [done|]. apply is_dest_spec.
Qed.

Lemma has_correct_witness :
  exists b d', dest_has (Keccak256Hash [Byte.x60; Byte.x5b; Byte.x5b]) [Byte.x60; Byte.x5b; Byte.x5b] 2 ∅
    = Ret (b, d') /\ dests_ok d' /\
    (b = true <-> valid_dest [Byte.x60; Byte.x5b; Byte.x5b] (Z.to_nat 2)).
Proof. apply has_correct; [vm_compute; discriminate|vm_compute; discriminate|apply dests_ok_empty]. Defined.

End VmJump.
