(* ===== verification/VmSafe.v ===== *)
(** * Safety and termination of the interpreter

    Against the state interface of World.v: with gas metering on and gas below [GasCap], a run of
    any code terminates within one unit of fuel more than its gas, never panics, never gains
    gas, keeps the stack within 1024 words of 256 bits, the depth within bounds, and the state
    database well formed.  The invariant of a frame is [frame_ok], that of the machine [W_ok];
    every entry of the jump table is shown to satisfy [op_ok]. *)

From S2P Require Import Prelude GoMath Params World WorldFacts Rlp VmBase Vm VmFacts VmJump.

Module VmSafe.
Import Vm VmFacts VmJump WorldFacts.
(** Case analysis on the gas table in force. *)
Ltac gas_tables env :=
  unfold env_gasTable;
  destruct (ParamsFacts.gasTable_cases (chainConfig env) (Some (BlockNumber env))) as [->|[->| ->]].

Section safe.
Context `{C : CryptoPrims} `{CO : !CryptoOK} {S : Type} `{SI : StateDBI S} `{SP : !StateDBSpec S}.

#[local] Notation operation := (operation (S:=S)).
#[local] Notation xres := (xres (S:=S)).
#[local] Notation W := (W (S:=S)).

(** ** Invariants *)

Definition wabs (w : W) : world := sd_abs (sdb w).
Record W_ok (w : W) : Prop := {
  wo_wf : sd_wf (sdb w);
  wo_inv : world_inv (wabs w);
  wo_dests : dests_ok (dests w);
  wo_depth : 0 <= depth w <= 1025 }.
(** What holds between the machine before and after a piece of execution. *)
Record W_post (w w' : W) : Prop := {
  wp_ok : W_ok w';
  wp_later : sd_later (sdb w) (sdb w');
  wp_depth : depth w' = depth w;
  wp_rel : wrel (wabs w) (wabs w') }.

Record env_ok (env : Env) : Prop := {
  eo_metering : DisableGasMetering env = false;
  eo_origin : in_u256 (Origin env);
  eo_gasprice : in_u256 (GasPrice env);
  eo_coinbase : in_u256 (Coinbase env);
  eo_gethash n : in_u256 (GetHash env n) }.

Record contract_ok (c : Contract) : Prop := {
  co_gas : in_u64 (Gas c);
  co_value : in_u256 (value c);
  co_caller : in_u256 (CallerAddress c);
  co_self : in_u256 (self c);
  co_code : zlen (Code c) < 2 ^ 62;
  co_input : zlen (Input c) < 2 ^ 63;
  co_hash : Code c <> [] -> CodeHash c = Keccak256Hash (Code c) }.

Record frame_ok (f : Frame) : Prop := {
  fo_contract : contract_ok (contract f);
  fo_pc : in_u64 (pc f);
  fo_stack : Forall in_u256 (stack f);
  fo_len : zlen (stack f) <= StackLimit;
  fo_mem : exists k, mem_ok (memory f) k }.

Definition gas_of (f : Frame) : Z := Gas (contract f).
(** Gas left plus what memory has cost so far. *)
Definition budget (f : Frame) : Z := gas_of f + lastGasCost (memory f).

(** The result of a run: no more gas than before, and data of reasonable length. *)
Definition run_post (g : Z) (w : W) (r : RunResult) : Prop :=
  let '(ret, err, c, w') := r in 0 <= Gas c <= g /\ zlen ret < 2 ^ 63 /\ W_post w w'.
Definition Run_ok (n : nat) (Run : RunFn) : Prop := forall c input w,
  contract_ok c -> Gas c < GasCap -> (Z.to_nat (Gas c) < n)%nat -> zlen input < 2 ^ 63 ->
  W_ok w -> depth w <= CallCreateDepth ->
  exists r, Run c input w = Ret r /\ run_post (Gas c) w r.

(** ** The machine state *)

Lemma W_post_refl w : W_ok w -> W_post w w.
Proof. intros H. split; [done| |done|apply wrel_refl]. apply sd_later_refl, H. Qed.
Lemma W_post_trans w1 w2 w3 : W_post w1 w2 -> W_post w2 w3 -> W_post w1 w3.
Proof.
  intros [? ? ? ?] [? ? ? ?]. split; [done|by eapply sd_later_trans|congruence|by eapply wrel_trans].
Qed.

Lemma get_post {A} (g : S -> A * S) (h : world -> A) w :
  get_ok sd_wf sd_abs sd_later g h -> W_ok w ->
  exists w', get g w = (h (wabs w), w') /\ W_post w w' /\ wabs w' = wabs w /\ dests w' = dests w.
Proof.
  intros Hg [H1 H2 H3 H4]. destruct (Hg _ H1) as (Ha & Hwf & Habs & Hl). unfold get, set_sdb.
  destruct (g (sdb w)) as [a s]. cbn in *. subst a. eexists. split; [done|].
  split_and!; [split; [split|..]|..]; cbn; try done.
  - unfold wabs; cbn. by rewrite Habs.
  - unfold wabs at 2; cbn. rewrite Habs. apply wrel_refl.
Qed.

Lemma upd_post (f : S -> S) (h : world -> world) w :
  upd_ok sd_wf sd_abs sd_later f h ->
  (world_inv (wabs w) -> world_inv (h (wabs w)) /\ wrel (wabs w) (h (wabs w))) -> W_ok w ->
  W_post w (upd_sdb f w) /\ wabs (upd_sdb f w) = h (wabs w) /\ dests (upd_sdb f w) = dests w.
Proof.
  intros Hf Hh [H1 H2 H3 H4]. destruct (Hf _ H1) as (Hwf & Habs & Hl). destruct (Hh H2) as [Hi Hr].
  unfold upd_sdb. split_and!; [split; [split|..]|..]; cbn; try done; unfold wabs in *; cbn; by rewrite Habs.
Qed.

Lemma upd_ok_comp (f g : S -> S) h k :
  upd_ok sd_wf sd_abs sd_later f h -> upd_ok sd_wf sd_abs sd_later g k ->
  upd_ok sd_wf sd_abs sd_later (fun s => f (g s)) (fun w => h (k w)).
Proof.
  intros Hf Hg s Hs. destruct (Hg _ Hs) as (H1 & E1 & L1). destruct (Hf _ H1) as (H2 & E2 & L2).
  split_and!; [done|by rewrite E2, E1|by eapply sd_later_trans].
Qed.

Lemma CanTransfer_ok a v :
  get_ok sd_wf sd_abs sd_later (CanTransfer a v) (fun w => w_balance a w >=? v).
Proof.
  intros s Hs. destruct (GetBalance_ok a s Hs) as (H1 & H2). unfold CanTransfer.
  destruct (GetBalance a s) as [b s']. cbn in *. by subst b.
Qed.
Lemma Transfer_ok a b v :
  upd_ok sd_wf sd_abs sd_later (Transfer a b v) (fun w => w_add_balance b v (w_sub_balance a v w)).
Proof. exact (upd_ok_comp _ _ _ _ (AddBalance_ok b v) (SubBalance_ok a v)). Qed.

Lemma tick_post w : W_ok w -> W_post w (tick w).
Proof. intros []. split; [by split| |done|apply wrel_refl]. by apply sd_later_refl. Qed.
Lemma set_dests_post d w : W_ok w -> dests_ok d -> W_post w (set_dests d w).
Proof. intros [] Hd. split; [by split| |done|apply wrel_refl]. by apply sd_later_refl. Qed.

(** Reverting to a snapshot restores the world. *)
Lemma snapshot_post w :
  W_ok w ->
  exists id w1, get Snapshot w = (id, w1) /\ W_post w w1 /\ wabs w1 = wabs w /\ dests w1 = dests w /\
    (forall w2, W_post w1 w2 -> exists s3, RevertToSnapshot id (sdb w2) = Some s3 /\
       W_post w (set_sdb s3 w2) /\ wabs (set_sdb s3 w2) = wabs w).
Proof.
  intros [H1 H2 H3 H4]. unfold get. destruct (Snapshot (sdb w)) as [id s1] eqn:E.
  destruct (Snapshot_ok _ _ _ H1 E) as (Hwf & Habs & Hl & Hrev).
  exists id, (set_sdb s1 w). split; [done|]. unfold wabs, set_sdb in *; cbn.
  split_and!; [split; [split|..]|..]; cbn; try done; unfold wabs; cbn; try (by rewrite Habs).
  intros w2 [[G1 G2 G3 G4] Gl Gd Gr]. cbn in *.
  destruct (Hrev (sdb w2) G1 Gl) as (s3 & E3 & Hwf3 & Habs3 & Hl3). exists s3. split; [done|].
  split; [|done]. split; [split|..]; cbn; unfold wabs; cbn; try done; by rewrite Habs3.
Qed.

(** ** What every operation of the jump table satisfies *)

(** The memory size function is defined on a validated stack. *)
Definition mem_fun_ok (o : operation) : Prop := forall g st,
  memorySize o = Some g -> Forall in_u256 st -> op_pop o <= zlen st -> exists sz, g st = Ret sz /\ 0 <= sz.

(** After charging [c] for [s] words of memory: the frame [f1] differs from [f] in the fee it has
    recorded and, for calls, in the top of the stack; the operation may still return [r]. *)
Record charged (o : operation) (f f1 : Frame) (s c r : Z) : Prop := {
  ch_pos : 0 <= c /\ 0 <= r;
  ch_pc : pc f1 = pc f;
  ch_contract : contract f1 = contract f;
  ch_store : store (memory f1) = store (memory f);
  ch_stack : Forall in_u256 (stack f1) /\ length (stack f1) = length (stack f);
  ch_size g : memorySize o = Some g -> g (stack f1) = g (stack f);
  ch_fee k : mem_ok (memory f) k ->
    Z.max k s < 2 ^ 32 /\ lastGasCost (memory f1) = fee (Z.max k s) /\
    fee (Z.max k s) - fee k + r + (if halts o then 0 else 1) <= c }.

(** [L r st]: the stack after charging allows the operation to return [r] units of gas. *)
Definition gas_ok (env : Env) (o : operation) (L : Z -> list Z -> Prop) : Prop := forall f w s,
  frame_ok f -> W_ok w -> op_pop o <= zlen (stack f) -> 0 <= s -> 32 * s < 2 ^ 64 ->
  budget f < GasCap -> (memorySize o = None -> s = 0) ->
  exists cost f1 w1, gasCost o env f w (32 * s) = Ret (cost, f1, w1) /\ W_post w w1 /\ contract f1 = contract f /\
    forall c, cost = Some c -> c <= gas_of f -> exists r, charged o f f1 s c r /\ L r (stack f1).

Definition exec_post (f : Frame) (w : W) (r : Z) (x : xres) : Prop :=
  match x with
  | XErr e f' w' => W_post w w' /\ 0 <= gas_of f' <= gas_of f + r
  | XOk res f' w' => W_post w w' /\ zlen res < 2 ^ 63 /\ frame_ok f' /\
      gas_of f' <= gas_of f + r /\ lastGasCost (memory f') = lastGasCost (memory f)
  end.
Definition exec_ok (env : Env) (n : nat) (o : operation) (L : Z -> list Z -> Prop) : Prop :=
  forall Run f w r,
  Run_ok n Run -> frame_ok f -> W_ok w -> op_pop o <= zlen (stack f) ->
  zlen (stack f) + op_push o - op_pop o <= StackLimit ->
  (forall g, memorySize o = Some g -> exists sz, g (stack f) = Ret sz /\ sz <= zlen (store (memory f))) ->
  L r (stack f) -> 0 <= r -> gas_of f + r < GasCap -> (halts o = false -> (Z.to_nat (gas_of f + r) < n)%nat) ->
  (halts o = false -> pc f < zlen (Code (contract f))) ->
  exists x, execute o Run env f w = Ret x /\ exec_post f w r x.

Definition op_ok (env : Env) (n : nat) (o : operation) : Prop :=
  mem_fun_ok o /\ exists L, gas_ok env o L /\ exec_ok env n o L.

(** ** Stacks *)

Lemma stk1 (st : list Z) : 1 <= zlen st -> exists a tl, st = a :: tl.
Proof. destruct st as [|a tl]; [done|eauto]. Qed.
Lemma stk2 (st : list Z) : 2 <= zlen st -> exists a b tl, st = a :: b :: tl.
Proof. destruct st as [|a [|b tl]]; unfold zlen; cbn [length]; try lia; eauto. Qed.
Lemma stk3 (st : list Z) : 3 <= zlen st -> exists a b c tl, st = a :: b :: c :: tl.
Proof. destruct st as [|a [|b [|c tl]]]; unfold zlen; cbn [length]; try lia; eauto. Qed.
Lemma stk4 (st : list Z) : 4 <= zlen st -> exists a b c d tl, st = a :: b :: c :: d :: tl.
Proof. destruct st as [|a [|b [|c [|d tl]]]]; unfold zlen; cbn [length]; try lia; eauto 10. Qed.
Lemma stk6 (st : list Z) :
  6 <= zlen st -> exists a b c d e g tl, st = a :: b :: c :: d :: e :: g :: tl.
Proof.
  destruct st as [|a [|b [|c [|d [|e [|g tl]]]]]]; unfold zlen; cbn [length]; try lia; eauto 10.
Qed.
Lemma stk7 (st : list Z) :
  7 <= zlen st -> exists a b c d e g h tl, st = a :: b :: c :: d :: e :: g :: h :: tl.
Proof.
  destruct st as [|a [|b [|c [|d [|e [|g [|h tl]]]]]]]; unfold zlen; cbn [length]; try lia; eauto 12.
Qed.

Lemma set_stack_ok f st :
  frame_ok f -> Forall in_u256 st -> zlen st <= StackLimit -> frame_ok (set_stack st f).
Proof. intros [] H1 H2. by split. Qed.
Lemma set_pc_ok f p : frame_ok f -> in_u64 p -> frame_ok (set_pc p f).
Proof. intros [] H. by split. Qed.
Lemma set_memory_ok f m k : frame_ok f -> mem_ok m k -> frame_ok (set_memory m f).
Proof. intros [] H. split; try done. by exists k. Qed.

(** ** Charging *)

Definition L0 (r : Z) (st : list Z) : Prop := r = 0.

Lemma frame_fee f k : frame_ok f -> mem_ok (memory f) k -> budget f = gas_of f + fee k.
Proof. intros _ [_ H _]. unfold budget. by rewrite H. Qed.
Lemma gas_pos f : frame_ok f -> 0 <= gas_of f.
Proof. intros [[[H _]]]. exact H. Qed.

(** A constant cost. *)
Lemma gas_ok_const env o c :
  gasCost o = constGasFunc c \/
    (forall f w s, gasCost o env f w s = Ret (Some c, f, w)) ->
  (if halts o then 0 else 1) <= c -> memorySize o = None -> gas_ok env o L0.
Proof.
  intros Hg Hc Hm f w s Hf Hw _ Hs _ _ Hs0. specialize (Hs0 Hm) as ->.
  exists (Some c), f, w. split; [by destruct Hg as [->|Hg]; [|rewrite Hg]|].
  split; [by apply W_post_refl|]. split; [done|]. intros c' [= <-] _. exists 0. split; [|done].
  destruct Hf as [Hc' ? ? ? ?]. split; try done; [destruct (halts o); lia|].
  intros k Hk. pose proof Hk as [_ Hfee Hr]. rewrite Z.max_l by lia. split_and!; [lia|done|lia].
Qed.

(** The memory fee plus what [kf] adds to it. *)
Lemma gas_ok_mem env o (kf : list Z -> Z -> option Z) :
  (forall f w size, op_pop o <= zlen (stack f) ->
     gasCost o env f w size = with_memory_gas f w size (kf (stack f)) \/
     gasCost o env f w size = Ret (None, f, w)) ->
  (forall st g c, Forall in_u256 st -> op_pop o <= zlen st -> in_u64 g -> kf st g = Some c ->
     g + (if halts o then 0 else 1) <= c) ->
  gas_ok env o L0.
Proof.
  intros Hg Hk f w s Hf Hw Hp Hs Hs64 Hb _. destruct (fo_mem f Hf) as [k Hm].
  rewrite (frame_fee f k Hf Hm) in Hb. pose proof (gas_pos f Hf) as Hpos.
  destruct (Hg f w (32 * s) Hp) as [->| ->].
  2:{ exists None, f, w. split; [done|]. split; [by apply W_post_refl|]. by split. }
  destruct (memoryGasCost_spec (memory f) k s Hm Hs Hs64 ltac:(lia)) as (c & m' & E & Est & Hc).
  unfold with_memory_gas. rewrite E. eexists _, _, w. split; [done|]. split; [by apply W_post_refl|]. split; [done|].
  intros c' E' Hle. destruct c as [c|]; [|done]. cbn in E'. destruct Hc as [Hcr Hc].
  pose proof (Hk _ _ _ (fo_stack f Hf) Hp Hcr E') as Hmin.
  destruct Hc as [(Hmax & -> & Hlast)|Hbig]; [|destruct (halts o); lia].
  exists 0. split; [|done]. split; try done.
  - unfold in_u64 in Hcr. destruct (halts o); lia.
  - split; [apply Hf|done].
  - intros k' Hk'. assert (k' = k) as -> by (destruct Hk' as [Hl _ _], Hm as [Hl' _ _]; lia).
    split_and!; [done|done|lia].
Qed.

(** A cost without memory that may look at the state. *)
Lemma gas_ok_flat env o :
  (forall f w s, frame_ok f -> W_ok w -> op_pop o <= zlen (stack f) -> exists cost w1,
     gasCost o env f w s = Ret (cost, f, w1) /\ W_post w w1 /\
     forall c, cost = Some c -> (if halts o then 0 else 1) <= c) ->
  memorySize o = None -> gas_ok env o L0.
Proof.
  intros Hg Hm f w s Hf Hw Hp Hs _ _ Hs0. specialize (Hs0 Hm) as ->.
  destruct (Hg f w (32 * 0) Hf Hw Hp) as (cost & w1 & E & Hw1 & Hc). exists cost, f, w1.
  split_and!; [done|done|done|]. intros c -> Hle. specialize (Hc c eq_refl). exists 0. split; [|done].
  destruct Hf as [Hc' ? ? ? ?]. split; try done; [destruct (halts o); lia|].
  intros k Hk. pose proof Hk as [_ Hfee Hr]. rewrite Z.max_l by lia. split_and!; [lia|done|lia].
Qed.

Lemma gasSStore_ok env o :
  gasCost o = gasSStore -> op_pop o = 2 -> halts o = false -> memorySize o = None -> gas_ok env o L0.
Proof.
  intros Eg Ep Eh. apply gas_ok_flat. rewrite Ep, Eh, Eg. intros f w s Hf Hw Hp.
  destruct (stk2 _ Hp) as (x & y & tl & E). unfold gasSStore, Back. rewrite E. cbn [lookup list_lookup or_panic obind].
  destruct (get_post _ _ w (GetState_ok (self (contract f)) (BigToHash x)) Hw) as (w1 & -> & Hw1 & _).
  repeat case_match; eexists _, _; (split; [done|]); (split; [|intros ? [= <-]; done]); try done.
  eapply W_post_trans; [exact Hw1|]. eapply (upd_post _ (w_add_refund _)); [apply AddRefund_ok| |apply Hw1].
  by apply w_add_refund_inv.
Qed.

Lemma gasExp_ok env o :
  gasCost o = gasExp -> op_pop o = 2 -> halts o = false -> memorySize o = None -> gas_ok env o L0.
Proof.
  intros Eg Ep Eh. apply gas_ok_flat. rewrite Ep, Eh, Eg. intros f w s Hf Hw Hp.
  destruct (stk2 _ Hp) as (x & y & tl & E). unfold gasExp, Back. rewrite E. cbn [lookup list_lookup or_panic obind].
  eexists _, _. split; [done|]. split; [by apply W_post_refl|]. intros c Ec.
  pose proof (u64_range ((BitLen y + 7) / 8 * gt_ExpByte (env_gasTable env))).
  apply gas_add_Some in Ec as [-> _]; unfold in_u64, GasSlowStep; lia.
Qed.

Lemma gasSuicide_ok env o :
  gasCost o = gasSuicide -> op_pop o = 1 -> halts o = true -> memorySize o = None -> gas_ok env o L0.
Proof.
  intros Eg Ep Eh. apply gas_ok_flat. rewrite Ep, Eh, Eg. intros f w s Hf Hw Hp.
  destruct (stk1 _ Hp) as (a & tl & E).
  assert (exists g w1, gasSuicide env f w s =
    (let '(d, w2) := get (HasSuicided (self (contract f))) w1 in
     Ret (Some g, f, if negb d then upd_sdb (AddRefund SuicideRefundGas) w2 else w2)) /\
    W_post w w1 /\ 0 <= g) as (g & w1 & -> & Hw1 & Hg).
  { unfold gasSuicide. rewrite E. set (gt := env_gasTable env).
    assert (0 <= gt_Suicide gt) as Hs by (unfold gt; gas_tables env; done).
    set (big := u64 (gt_Suicide gt + gt_CreateBySuicide gt)).
    assert (0 <= big) as Hbig by apply u64_range.
    destruct (eip150 env); [|eexists 0, w; split_and!; [done|by apply W_post_refl|done]].
    destruct (eip158 env).
    - destruct (get_post _ _ w (Empty_ok (BigToAddress a)) Hw) as (w1 & -> & Hw1 & _).
      destruct (w_empty _ _); [|by eexists _, _].
      destruct (get_post _ _ w1 (GetBalance_ok (self (contract f))) ltac:(apply Hw1)) as (w2 & -> & Hw2 & _).
      eexists _, _. split; [done|]. split; [by eapply W_post_trans|]. by case_match.
    - destruct (get_post _ _ w (Exist_ok (BigToAddress a)) Hw) as (w1 & -> & Hw1 & _).
      eexists _, _. split; [done|]. split; [done|]. by case_match. }
  destruct (get_post _ _ w1 (HasSuicided_ok (self (contract f))) ltac:(apply Hw1)) as (w2 & -> & Hw2 & _).
  eexists _, _. split; [done|]. split; [|by intros ? [= <-]].
  eapply W_post_trans; [exact Hw1|]. eapply W_post_trans; [exact Hw2|].
  destruct (negb _); [|apply W_post_refl, Hw2].
  eapply (upd_post _ (w_add_refund _)); [apply AddRefund_ok| |apply Hw2]. by apply w_add_refund_inv.
Qed.

(** *** Calls

    The gas passed on is on top of the stack; with the stipend it is within the allowance. *)
Definition Lcall (stip : list Z -> Z) (r : Z) (st : list Z) : Prop :=
  exists cg tl, st = cg :: tl /\ in_u64 cg /\ cg + stip tl <= r.
Definition stip_value (tl : list Z) : Z :=
  match tl !! 1%nat with Some v => if v =? 0 then 0 else CallStipend | None => 0 end.
Definition stip_none (tl : list Z) : Z := 0.

Lemma callGas_range gt a b c cg : callGas gt a b c = Some cg -> in_u64 cg.
Proof.
  unfold callGas. repeat case_match; intros [= <-]; apply u64_range || apply Uint64_range.
Qed.

Lemma call_gas_spec env f (w : W) base mg :
  in_u64 base -> in_u64 mg -> 1 <= zlen (stack f) ->
  exists cost f1, call_gas env f w base mg = Ret (cost, f1, w) /\ contract f1 = contract f /\
    forall c, cost = Some c -> exists cg x tl, stack f = x :: tl /\ f1 = set_stack (cg :: tl) f /\
      in_u64 cg /\ c = base + mg + cg.
Proof.
  intros Hb Hm Hp. destruct (stk1 _ Hp) as (x & tl & E). unfold call_gas.
  destruct (gas_add base mg) as [total|] eqn:Et; [|by eexists None, _].
  unfold Back. rewrite E. cbn [lookup list_lookup or_panic obind stack_settop].
  destruct (callGas _ _ _ _) as [cg|] eqn:Ec; [|by eexists None, _].
  apply callGas_range in Ec. apply gas_add_Some in Et as [-> Ht]; [|done..].
  eexists _, _. split; [done|]. split; [done|]. intros c Hc. exists cg, x, tl. split_and!; [done..|].
  apply gas_add_Some in Hc as [-> _]; [done| |done]. unfold in_u64 in *; lia.
Qed.

Lemma gas_ok_call env o stip :
  (forall f w size, frame_ok f -> W_ok w -> op_pop o <= zlen (stack f) ->
     exists base w1, W_post w w1 /\ (0 <= stip (tail (stack f)) < base /\ base < 2 ^ 63) /\
       gasCost o env f w size =
       (let '(fee, mem) := memoryGasCost (memory f) size in
        match fee with
        | None => Ret (None, set_memory mem f, w1)
        | Some mg => call_gas env (set_memory mem f) w1 base mg
        end)) ->
  1 <= op_pop o -> halts o = false ->
  (forall g x y tl, memorySize o = Some g -> g (x :: tl) = g (y :: tl)) ->
  gas_ok env o (Lcall stip).
Proof.
  intros Hg Hp1 Hh Hmem f w s Hf Hw Hp Hs Hs64 Hb _. destruct (fo_mem f Hf) as [k Hm].
  rewrite (frame_fee f k Hf Hm) in Hb. pose proof (gas_pos f Hf) as Hpos.
  destruct (Hg f w (32 * s) Hf Hw Hp) as (base & w1 & Hw1 & [Hst Hbase] & ->).
  destruct (memoryGasCost_spec (memory f) k s Hm Hs Hs64 ltac:(lia)) as (mg & m' & E & Est & Hc).
  rewrite E. destruct mg as [mg|]; [|by eexists None, _, w1]. destruct Hc as [Hmg Hc].
  destruct (call_gas_spec env (set_memory m' f) w1 base mg) as (cost & f1 & Ecg & Ect & Hcost);
    [unfold in_u64; lia|done|cbn; lia|].
  rewrite Ecg. exists cost, f1, w1. split_and!; [done|done|done|]. intros c Ec Hle.
  destruct (Hcost c Ec) as (cg & x & tl & Estk & -> & Hcg & ->). cbn in Estk. rewrite Estk in Hst. cbn in Hst.
  unfold in_u64 in Hmg, Hcg. destruct Hc as [(Hmax & -> & Hlast)|Hbig]; [|lia].
  exists (base + cg - 1). split.
  2:{ exists cg, tl. split_and!; [done|done|lia]. }
  pose proof (fo_stack f Hf) as Hall. rewrite Estk in Hall. apply Forall_cons in Hall as [_ Hall].
  split; try done; cbn [stack set_stack set_memory memory]; rewrite ?Estk, ?Hh.
  - lia.
  - split; [|done]. constructor; [|done]. apply in_u256_u64. lia.
  - intros g Eg. by apply Hmem.
  - intros k' Hk'. assert (k' = k) as -> by (destruct Hk' as [Hl _ _], Hm as [Hl' _ _]; lia).
    split_and!; [done|done|lia].
Qed.

Lemma Calls_range env : 40 <= gt_Calls (env_gasTable env) <= 700.
Proof. gas_tables env; cbn; lia. Qed.

Lemma stip_value_cons a v tl :
  stip_value (a :: v :: tl) = if Sign v =? 0 then 0 else CallStipend.
Proof.
  unfold stip_value. cbn. unfold Sign. destruct (Z.eqb_spec v 0), (Z.eqb_spec (Z.sgn v) 0); lia.
Qed.
Lemma stip_lt v base :
  40 <= base <= 25700 ->
  0 <= (if Sign v =? 0 then 0 else CallStipend) <
    (if negb (Sign v =? 0) then u64 (base + CallValueTransferGas) else base) /\
  (if negb (Sign v =? 0) then u64 (base + CallValueTransferGas) else base) < 2 ^ 63.
Proof.
  intros H. unfold CallStipend, CallValueTransferGas. destruct (Sign v =? 0); cbn [negb]; [lia|].
  rewrite u64_small by lia. lia.
Qed.

Lemma gasCall_ok env o :
  gasCost o = gasCall -> op_pop o = 7 -> halts o = false -> memorySize o = Some memoryCall ->
  gas_ok env o (Lcall stip_value).
Proof.
  intros Eg Ep Eh Em. apply gas_ok_call; [|lia|done|rewrite Em; by intros ? ? ? ? [= <-]].
  rewrite Ep, Eg. intros f w size Hf Hw Hp. pose proof (Calls_range env) as Hc.
  destruct (stk7 _ Hp) as (g & a & v & e1 & e2 & e3 & e4 & tl & E). unfold gasCall, Back. rewrite E.
  cbn [lookup list_lookup or_panic obind tail]. rewrite stip_value_cons.
  assert (forall b : bool, 40 <= (if b then u64 (gt_Calls (env_gasTable env) + CallNewAccountGas)
    else gt_Calls (env_gasTable env)) <= 25700) as Hb
    by (intros []; unfold CallNewAccountGas; [rewrite u64_small by lia|]; lia).
  destruct (eip158 env).
  - destruct (get_post _ _ w (Empty_ok (BigToAddress a)) Hw) as (w1 & -> & Hw1 & _).
    eexists _, w1. split; [done|]. split; [by apply stip_lt, Hb|done].
  - destruct (get_post _ _ w (Exist_ok (BigToAddress a)) Hw) as (w1 & -> & Hw1 & _).
    eexists _, w1. split; [done|]. split; [by apply stip_lt, Hb|done].
Qed.
Lemma gasCallCode_ok env o :
  gasCost o = gasCallCode -> op_pop o = 7 -> halts o = false -> memorySize o = Some memoryCall ->
  gas_ok env o (Lcall stip_value).
Proof.
  intros Eg Ep Eh Em. apply gas_ok_call; [|lia|done|rewrite Em; by intros ? ? ? ? [= <-]].
  rewrite Ep, Eg. intros f w size Hf Hw Hp. pose proof (Calls_range env) as Hc.
  destruct (stk7 _ Hp) as (g & a & v & e1 & e2 & e3 & e4 & tl & E). unfold gasCallCode, Back. rewrite E.
  cbn [lookup list_lookup or_panic obind tail]. rewrite stip_value_cons.
  eexists _, w. split; [by apply W_post_refl|]. split; [|done]. apply stip_lt; lia.
Qed.
Lemma gas_add_comm x y : in_u64 x -> in_u64 y -> gas_add x y = gas_add y x.
Proof. intros. unfold gas_add. rewrite !SafeAdd_spec by done. by rewrite Z.add_comm. Qed.
Lemma gasDelegateCall_ok env o :
  gasCost o = gasDelegateCall -> op_pop o = 6 -> halts o = false ->
  memorySize o = Some memoryDelegateCall -> gas_ok env o (Lcall stip_none).
Proof.
  intros Eg Ep Eh Em. apply gas_ok_call; [|lia|done|rewrite Em; by intros ? ? ? ? [= <-]].
  rewrite Ep, Eg. intros f w size Hf Hw Hp. pose proof (Calls_range env) as Hc.
  exists (gt_Calls (env_gasTable env)), w. split; [by apply W_post_refl|]. unfold stip_none.
  split; [lia|]. unfold gasDelegateCall, call_gas.
  assert (forall mg mem, memoryGasCost (memory f) size = (Some mg, mem) -> in_u64 mg) as Hr.
  { intros mg mem. unfold memoryGasCost. repeat case_match; intros [= <- <-]; try apply u64_range;
      unfold in_u64; lia. }
  destruct (memoryGasCost (memory f) size) as [[mg|] mem] eqn:E; [|done].
  rewrite gas_add_comm; [done|by eapply Hr|unfold in_u64; lia].
Qed.

End safe.
End VmSafe.
