(* ===== verification/VmCalls.v ===== *)
(** * Calls and contract creation are safe

    [Call], [CallCode], [DelegateCall] and [Create] of [core/vm/evm.go], for an interpreter that
    satisfies [Run_ok]: they do not panic, return no more gas than they were given, keep the
    machine well formed, and leave the world unchanged when they fail. *)

From S2P Require Import Prelude GoMath Params World WorldFacts Rlp VmBase Vm VmFacts VmJump VmSafe.

Module VmCalls.
Import Vm VmFacts VmJump WorldFacts VmSafe.

(** ** Precompiled contracts *)

Section precompiled.
Context `{C : CryptoPrims} `{CO : !CryptoOK}.

Lemma UseGas_spec g c :
  in_u64 (Gas c) -> 0 <= g ->
  UseGas g c = if Gas c <? g then (false, c) else (true, set_gas (Gas c - g) c).
Proof.
  unfold in_u64. intros Hc Hg. unfold UseGas. destruct (Z.ltb_spec (Gas c) g); [done|].
  by rewrite u64_small by lia.
Qed.
Lemma UseGas_all c : in_u64 (Gas c) -> Gas (UseGas (Gas c) c).2 = 0.
Proof.
  intros Hc. unfold in_u64 in Hc. rewrite UseGas_spec, Z.ltb_irrefl by (done || lia). cbn. lia.
Qed.

Lemma RequiredGas_nonneg p input : 0 <= RequiredGas p input.
Proof. destruct p; try apply u64_range. done. Qed.

Lemma ecrecover_Run_ok input :
  zlen input < 2 ^ 63 -> exists r, ecrecover_Run input = Ret r /\ zlen r.1 <= 32.
Proof.
  intros Hi. unfold ecrecover_Run. rewrite RightPadBytes_spec. set (inp := input ++ _).
  assert (128 <= zlen inp) as Hl.
  { unfold inp. rewrite zlen_app. unfold zlen at 2. rewrite length_zeros. pose proof (zlen_nonneg input). lia. }
  assert (forall a b, 0 <= a <= b -> b <= 128 -> exists l, slice inp a b = Some l) as Hs.
  { intros a b Ha Hb. rewrite slice_Some by lia. eauto. }
  destruct (Hs 64 96) as [rb ->]; [lia..|]. destruct (Hs 96 128) as [sb ->]; [lia..|].
  destruct (Hs 32 63) as [vz ->]; [lia..|]. destruct (Hs 0 32) as [hb ->]; [lia..|].
  destruct (Hs 64 128) as [sg ->]; [lia..|].
  destruct (lookup_lt_is_Some_2 inp 63) as [vb ->]; [unfold zlen in Hl; lia|]. cbn [or_panic obind].
  destruct (_ || _); [by eexists|].
  destruct (EcrecoverPub _ _) as [pub|] eqn:E; [|by eexists]. apply ecrecover_len in E.
  rewrite (slice_Some pub) by (unfold zlen; lia). cbn [or_panic obind]. eexists. split; [done|].
  cbn [fst]. rewrite LeftPadBytes_spec. unfold Keccak256, zlen.
  rewrite length_app, length_zeros, length_drop, length_be_bytes. lia.
Qed.

Lemma precompile_Run_ok p input :
  zlen input < 2 ^ 63 -> exists ret, precompile_Run p input = Ret ret /\ zlen ret < 2 ^ 63.
Proof.
  intros Hi. destruct p; cbn [precompile_Run].
  - destruct (ecrecover_Run_ok input Hi) as (r & -> & Hr). eexists. split; [done|]. lia.
  - eexists. split; [done|]. unfold zlen. by rewrite sha256_len.
  - eexists. split; [done|]. rewrite LeftPadBytes_spec. unfold zlen.
    by rewrite length_app, length_zeros, ripemd160_len.
  - eauto.
Qed.

Lemma RunPrecompiledContract_ok p input c :
  in_u64 (Gas c) -> zlen input < 2 ^ 63 ->
  exists ret err c', RunPrecompiledContract p input c = Ret (ret, err, c') /\
    0 <= Gas c' <= Gas c /\ zlen ret < 2 ^ 63.
Proof.
  intros Hc Hi. pose proof (RequiredGas_nonneg p input) as Hg. unfold in_u64 in Hc.
  unfold RunPrecompiledContract. rewrite UseGas_spec by done.
  destruct (Z.ltb_spec (Gas c) (RequiredGas p input)) as [Hlt|Hge].
  { eexists _, _, _. split; [done|]. split; [lia|]. vm_compute. done. }
  destruct (precompile_Run_ok p input Hi) as (ret & -> & Hr).
  eexists _, _, _. split; [done|]. cbn. split; [lia|done].
Qed.
End precompiled.

(** ** Calls *)

Section calls.
Context `{C : CryptoPrims} `{CO : !CryptoOK} {S : Type} `{SI : StateDBI S} `{SP : !StateDBSpec S}.
#[local] Notation W := (W (S:=S)).
#[local] Notation RunFn := (RunFn (S:=S)).

Definition ref_ok (r : ContractRef) : Prop :=
  match r with AccountRef a => in_u256 a | ContractOf c => contract_ok c end.
Lemma ref_Address_range r : ref_ok r -> in_u256 (ref_Address r).
Proof. destruct r; [done|]. by intros []. Qed.

(** What a call returns: at most the gas it was given, and the world as it was if it failed. *)
Definition call_post (w : W) (gas : Z) (r : CallResult) : Prop :=
  let '(ret, g, err, w') := r in
  zlen ret < 2 ^ 63 /\ 0 <= g <= gas /\ W_post w w' /\ (err <> None -> wabs w' = wabs w).

Lemma run_safe n (Run : RunFn) c input w :
  Run_ok n Run -> contract_ok c -> Gas c < GasCap -> (Z.to_nat (Gas c) < n)%nat ->
  zlen input < 2 ^ 63 -> W_ok w -> depth w <= CallCreateDepth ->
  exists r, run Run c input w = Ret r /\ run_post (Gas c) w r.
Proof.
  intros HR Hc Hg Hn Hi Hw Hd. unfold run. destruct (CodeAddr c) as [a|]; [|by apply HR].
  destruct (PrecompiledContracts a) as [p|]; [|by apply HR].
  destruct (RunPrecompiledContract_ok p input c) as (ret & err & c' & -> & Hc' & Hr); [apply Hc|done|].
  eexists. split; [done|]. split_and!; try done; [lia..|]. by apply W_post_refl.
Qed.

(** A snapshot at [w] whose id is [id], from [w1] on. *)
Definition can_revert (id : Z) (w w1 : W) : Prop :=
  forall w2, W_post w1 w2 -> exists s3, RevertToSnapshot id (sdb w2) = Some s3 /\
    W_post w (set_sdb s3 w2) /\ wabs (set_sdb s3 w2) = wabs w.

Lemma finish_call_ok id w w1 w2 g r :
  can_revert id w w1 -> W_post w w1 -> W_post w1 w2 -> run_post g w2 r -> g < GasCap ->
  exists cr, finish_call id r = Ret cr /\ call_post w g cr.
Proof.
  intros Hrev H1 H2 Hr Hg. destruct r as [[[ret err] c] w3]. destruct Hr as (Hgas & Hret & H3).
  assert (W_post w1 w3) as H13 by (by eapply W_post_trans). unfold finish_call.
  destruct err as [e|].
  - destruct (Hrev w3 H13) as (s3 & -> & Hp & Ha). cbn [or_panic obind]. eexists. split; [done|].
    rewrite UseGas_all by (unfold in_u64, GasCap in *; lia). split_and!; try done; lia.
  - eexists. split; [done|]. split_and!; try done; [lia..|]. by eapply W_post_trans.
Qed.

Lemma load_code_ok addr c (w : W) :
  W_ok w -> exists h code w', load_code addr c w = (SetCallCode addr h code c, w') /\
    W_post w w' /\ wabs w' = wabs w /\ zlen code < 2 ^ 62 /\ (code <> [] -> h = Keccak256Hash code).
Proof.
  intros Hw. unfold load_code.
  destruct (get_post _ _ w (GetCodeHash_ok addr) Hw) as (w1 & -> & Hw1 & E1 & _).
  destruct (get_post _ _ w1 (GetCode_ok addr) ltac:(apply Hw1)) as (w2 & -> & Hw2 & E2 & _).
  rewrite E1 in *. eexists _, _, _. split; [done|].
  split; [by eapply W_post_trans|]. split; [congruence|]. split; [apply code_range, Hw|].
  unfold w_code, w_codehash, w_acct. destruct (w_accts (wabs w) !! addr) as [x|] eqn:E; [|done].
  intros _. eapply sd_code_hash; [apply Hw|exact E].
Qed.

Lemma NewContract_ok caller to v gas d addr h code c d' :
  ref_ok caller -> in_u256 to -> in_u256 v -> 0 <= gas < GasCap -> dests_ok d ->
  zlen code < 2 ^ 62 -> (code <> [] -> h = Keccak256Hash code) ->
  NewContract caller to v gas d = (c, d') ->
  contract_ok (SetCallCode addr h code c) /\ Gas (SetCallCode addr h code c) = gas /\ dests_ok d'.
Proof.
  intros Hr Ht Hv Hg Hd Hl Hh [= <- <-]. split_and!; [|done|destruct caller; [apply dests_ok_empty|done]].
  split; cbn; try done; [unfold in_u64, GasCap in *; lia|by apply ref_Address_range].
Qed.

Lemma w_balance_create a b w : w_balance a (w_create b w) = w_balance a w.
Proof.
  unfold w_balance at 1, w_create, w_acct; cbn. destruct (decide (a = b)) as [->|Hne].
  - by rewrite lookup_insert_eq.
  - by rewrite lookup_insert_ne.
Qed.
Lemma w_balance_set_nonce a b n w : w_balance a (w_set_nonce b n w) = w_balance a w.
Proof.
  unfold w_set_nonce. destruct (decide (a = b)) as [->|Hne]; [|by apply w_balance_upd_ne].
  rewrite w_balance_upd_eq. unfold w_balance, w_acct. by destruct (w_accts w !! b).
Qed.

Lemma transfer_post a b v (w : W) :
  W_ok w -> 0 <= v <= w_balance a (wabs w) ->
  W_post w (upd_sdb (Transfer a b v) w).
Proof.
  intros Hw Hv. eapply upd_post; [apply Transfer_ok| |done]. intros. by apply transfer_inv.
Qed.
Lemma create_post b (w : W) :
  W_ok w -> W_post w (upd_sdb (CreateAccount b) w) /\ wabs (upd_sdb (CreateAccount b) w) = w_create b (wabs w).
Proof.
  intros Hw. destruct (upd_post _ _ w (CreateAccount_ok b)) as (H1 & H2 & _); [apply w_create_inv|done|done].
Qed.
Lemma set_nonce_post b n (w : W) :
  W_ok w -> W_post w (upd_sdb (SetNonce b n) w) /\
  wabs (upd_sdb (SetNonce b n) w) = w_set_nonce b n (wabs w).
Proof.
  intros Hw. destruct (upd_post _ _ w (SetNonce_ok b n)) as (H1 & H2 & _); [apply w_set_nonce_inv|done|done].
Qed.

(** The common end of the calls: load the code, run it, finish. *)
Lemma call_tail n (Run : RunFn) c d addr input gas (w w1 w2 : W) id :
  Run_ok n Run ->
  (forall h code, zlen code < 2 ^ 62 -> (code <> [] -> h = Keccak256Hash code) ->
     contract_ok (SetCallCode addr h code c)) ->
  Gas c = gas -> dests_ok d ->
  0 <= gas < GasCap -> (Z.to_nat gas < n)%nat -> zlen input < 2 ^ 63 ->
  can_revert id w w1 -> W_post w w1 -> W_post w1 w2 -> depth w <= CallCreateDepth ->
  exists cr, (let '(c', w') := load_code addr c (set_dests d w2) in
              let* r := run Run c' input w' in finish_call id r) = Ret cr /\ call_post w gas cr.
Proof.
  intros HR Hc Eg Hd Hg Hn Hi Hrev H1 H2 Hdep.
  pose proof (set_dests_post d w2 (wp_ok _ _ H2) Hd) as H2'.
  destruct (load_code_ok addr c (set_dests d w2)) as (h & code & w3 & -> & H3 & _ & Hl & Hh); [apply H2'|].
  assert (W_post w1 w3) as H13 by (eapply W_post_trans; [exact H2|by eapply W_post_trans]).
  destruct (run_safe n Run (SetCallCode addr h code c) input w3) as (r & -> & Hr); auto.
  - cbn. lia.
  - cbn. by rewrite Eg.
  - apply H3.
  - by rewrite (wp_depth _ _ H13), (wp_depth _ _ H1).
  - cbn [obind]. cbn in Hr. rewrite Eg in Hr. eapply finish_call_ok; [done|done|exact H13|exact Hr|lia].
Qed.

Lemma call_post_early (w w' : W) gas err :
  0 <= gas -> W_post w w' -> wabs w' = wabs w -> call_post w gas ([], gas, err, w').
Proof. intros. split_and!; try done; lia. Qed.

(** [can_transfer] as it starts [Call], [CallCode] and [Create]. *)
Lemma can_transfer_post a v (w : W) :
  W_ok w -> exists w', get (CanTransfer a v) w = (w_balance a (wabs w) >=? v, w') /\
    W_post w w' /\ wabs w' = wabs w.
Proof.
  intros Hw. destruct (get_post _ _ w (CanTransfer_ok a v) Hw) as (w' & E & H1 & H2 & _). eauto.
Qed.

Section one_call.
Context (n : nat) (Run : RunFn) (env : Env) (caller : ContractRef) (gas v : Z) (w : W).
Context (HR : Run_ok n Run) (Hcaller : ref_ok caller) (Hv : in_u256 v).
Context (Hgas : 0 <= gas < GasCap) (Hn : (Z.to_nat gas < n)%nat) (Hw : W_ok w).

Lemma Call_ok addr input :
  in_u256 addr -> zlen input < 2 ^ 63 ->
  exists r, Call Run env caller addr input gas v w = Ret r /\ call_post w gas r.
Proof.
  intros Ha Hi. unfold Call. pose proof (W_post_refl w Hw) as H0.
  destruct (_ && _); [eexists; split; [done|apply call_post_early; done || lia]|].
  rewrite Z.gtb_ltb. destruct (Z.ltb_spec CallCreateDepth (depth w)) as [|Hd];
    [eexists; split; [done|apply call_post_early; done || lia]|].
  destruct (can_transfer_post (ref_Address caller) v w Hw) as (w1 & -> & H1 & E1).
  destruct (w_balance (ref_Address caller) (wabs w) >=? v) eqn:Eb; cbn [negb];
    [|eexists; split; [done|apply call_post_early; done || lia]].
  apply Z.geb_le in Eb.
  destruct (snapshot_post w1 (wp_ok _ _ H1)) as (id & w2 & -> & H2 & E2 & _ & Hrev).
  destruct (get_post _ _ w2 (Exist_ok addr) (wp_ok _ _ H2)) as (w3 & -> & H3 & E3 & _).
  destruct (_ && _).
  { eexists. split; [done|]. apply call_post_early; [lia| |congruence].
    eapply W_post_trans; [exact H1|]. by eapply W_post_trans. }
  set (w4 := if w_exist _ _ then w3 else _).
  assert (W_post w3 w4 /\ w_balance (ref_Address caller) (wabs w4) = w_balance (ref_Address caller) (wabs w3))
    as [H4 E4].
  { unfold w4. destruct (w_exist _ _); [split; [apply W_post_refl, H3|done]|].
    destruct (create_post addr w3 (wp_ok _ _ H3)) as [? ->]. by rewrite w_balance_create. }
  unfold in_u256 in Hv.
  pose proof (transfer_post (ref_Address caller) addr v w4 (wp_ok _ _ H4)
    ltac:(rewrite E4, E3, E2, E1; lia)) as H5. set (w5 := upd_sdb _ w4) in *.
  destruct (NewContract caller addr v gas (dests w5)) as [c d] eqn:EN.
  assert (W_post w2 w5) as H25 by (eapply W_post_trans; [exact H3|by eapply W_post_trans]).
  destruct (call_tail n Run c d addr input gas w w2 w5 id) as (cr & -> & Hcr); try done.
  - intros h code Hl Hh. eapply NewContract_ok; [..|exact EN]; try done. apply H5.
  - by injection EN as <- _.
  - eapply (NewContract_ok caller addr v gas (dests w5) addr (Keccak256Hash []) []); [..|exact EN]; try done. apply H5.
  - intros w' H'. destruct (Hrev w' H') as (s3 & ? & ? & ?). exists s3. split_and!; [done| |congruence].
    by eapply W_post_trans.
  - by eapply W_post_trans.
  - by exists cr.
Qed.

Lemma CallCode_ok addr input :
  zlen input < 2 ^ 63 ->
  exists r, CallCode Run env caller addr input gas v w = Ret r /\ call_post w gas r.
Proof.
  intros Hi. unfold CallCode. pose proof (W_post_refl w Hw) as H0.
  destruct (_ && _); [eexists; split; [done|apply call_post_early; done || lia]|].
  rewrite Z.gtb_ltb. destruct (Z.ltb_spec CallCreateDepth (depth w)) as [|Hd];
    [eexists; split; [done|apply call_post_early; done || lia]|].
  destruct (can_transfer_post (ref_Address caller) v w Hw) as (w1 & -> & H1 & E1).
  destruct (_ >=? v); cbn [negb]; [|eexists; split; [done|apply call_post_early; done || lia]].
  destruct (snapshot_post w1 (wp_ok _ _ H1)) as (id & w2 & -> & H2 & E2 & _ & Hrev).
  destruct (NewContract caller (ref_Address caller) v gas (dests w2)) as [c d] eqn:EN.
  pose proof (ref_Address_range caller Hcaller) as Hself.
  destruct (call_tail n Run c d addr input gas w w2 w2 id) as (cr & -> & Hcr); try done.
  - intros h code Hl Hh. eapply NewContract_ok; [..|exact EN]; try done. apply H2.
  - by injection EN as <- _.
  - eapply (NewContract_ok caller _ v gas (dests w2) addr (Keccak256Hash []) []); [..|exact EN]; try done. apply H2.
  - intros w' H'. destruct (Hrev w' H') as (s3 & ? & ? & ?). exists s3. split_and!; [done| |congruence].
    by eapply W_post_trans.
  - by eapply W_post_trans.
  - apply W_post_refl, H2.
  - by exists cr.
Qed.
End one_call.

Lemma DelegateCall_ok n (Run : RunFn) env parent addr input gas (w : W) :
  Run_ok n Run -> contract_ok parent -> 0 <= gas < GasCap -> (Z.to_nat gas < n)%nat -> W_ok w ->
  zlen input < 2 ^ 63 ->
  exists r, EvmDelegateCall Run env (ContractOf parent) addr input gas w = Ret r /\ call_post w gas r.
Proof.
  intros HR Hp Hgas Hn Hw Hi. unfold EvmDelegateCall. pose proof (W_post_refl w Hw) as H0.
  destruct (_ && _); [eexists; split; [done|apply call_post_early; done || lia]|].
  rewrite Z.gtb_ltb. destruct (Z.ltb_spec CallCreateDepth (depth w)) as [|Hd];
    [eexists; split; [done|apply call_post_early; done || lia]|].
  destruct (snapshot_post w Hw) as (id & w2 & -> & H2 & E2 & _ & Hrev).
  cbn [NewContract AsDelegate obind].
  edestruct (call_tail n Run) as (cr & -> & Hcr); [done|..|by exists cr]; try done.
  - intros h code Hl Hh. destruct Hp. split; cbn; try done. unfold in_u64, GasCap in *; lia.
  - apply H2.
  - apply W_post_refl, H2.
Qed.

(** ** Creation *)

(** A creation that fails leaves the world as it was, the nonce of the creator apart; before
    Homestead a contract whose code cannot be paid for stays, without code. *)
Definition create_result (env : Env) (caller : Address) (w : W) (gas : Z)
    (r : list byte * Address * Z * option vmError * W) : Prop :=
  let '(ret, addr, g, err, w') := r in
  zlen ret < 2 ^ 63 /\ in_u256 addr /\ 0 <= g <= gas /\ W_post w w' /\
  (err <> None -> homestead env = true \/ err <> Some ErrCodeStoreOutOfGas ->
   wabs w' = wabs w \/
   wabs w' = w_set_nonce caller (u64 (w_nonce caller (wabs w) + 1)) (wabs w)).

Lemma set_code_post a code (w : W) :
  W_ok w -> zlen code < 2 ^ 62 -> W_post w (upd_sdb (SetCode a code) w).
Proof. intros Hw Hl. eapply upd_post; [apply SetCode_ok| |done]. by apply w_set_code_inv. Qed.

(** The world in which the code of a new contract runs. *)
Lemma create_start env caller nonce addr v (w : W) :
  W_ok w -> 0 <= v <= w_balance caller (wabs w) ->
  let w := upd_sdb (SetNonce caller nonce) w in
  exists id w1, get Snapshot w = (id, w1) /\ W_post w w1 /\ can_revert id w w1 /\
    W_post w1 (upd_sdb (Transfer caller addr v)
      (let w2 := upd_sdb (CreateAccount addr) w1 in
       if eip158 env then upd_sdb (SetNonce addr 1) w2 else w2)).
Proof.
  intros Hw Hv. destruct (set_nonce_post caller nonce w Hw) as [Hw' Ew']. intros w'.
  destruct (snapshot_post w' (wp_ok _ _ Hw')) as (id & w1 & E & H1 & E1 & _ & Hrev).
  exists id, w1. split_and!; [done|done|done|].
  destruct (create_post addr w1 (wp_ok _ _ H1)) as [H2 E2].
  set (w2 := upd_sdb (CreateAccount addr) w1) in *. cbv zeta.
  destruct (set_nonce_post addr 1 w2 (wp_ok _ _ H2)) as [H3 E3].
  assert (w_balance caller (wabs w2) = w_balance caller (wabs w)) as Eb.
  { rewrite E2, w_balance_create, E1. unfold w'. by rewrite Ew', w_balance_set_nonce. }
  destruct (eip158 env).
  - eapply W_post_trans; [exact H2|]. eapply W_post_trans; [exact H3|].
    apply transfer_post; [apply H3|]. by rewrite E3, w_balance_set_nonce, Eb.
  - eapply W_post_trans; [exact H2|]. apply transfer_post; [apply H2|]. by rewrite Eb.
Qed.

Lemma finish_create_ok env addr id (w w1 w2 : W) gas ret err c :
  can_revert id w w1 -> W_post w w1 -> W_post w1 w2 ->
  0 <= Gas c <= gas -> gas < GasCap -> zlen ret < 2 ^ 63 ->
  exists r, finish_create env addr id (ret, err, c, w2) = Ret r /\
    let '(ret', addr', g, err', w') := r in
    addr' = addr /\ zlen ret' < 2 ^ 63 /\ 0 <= g <= gas /\ W_post w w' /\
    (err' <> None -> homestead env = true \/ err' <> Some ErrCodeStoreOutOfGas -> wabs w' = wabs w).
Proof.
  intros Hrev H1 H2 Hg Hcap Hret. assert (in_u64 (Gas c)) as Hc by (unfold in_u64, GasCap in *; lia).
  assert (W_post w w2) as H02 by (by eapply W_post_trans).
  unfold finish_create. rewrite Z.gtb_ltb. destruct (Z.ltb_spec MaxCodeSize (zlen ret)) as [Hbig|Hsmall].
  { destruct (Hrev w2 H2) as (s3 & E3 & Hp & Ha).
    destruct err as [e|]; cbn [orb]; rewrite E3; cbn [or_panic obind]; eexists; (split; [done|]);
      rewrite UseGas_all by done; split_and!; done || lia. }
  destruct err as [e|]; cbn [orb].
  - destruct (homestead env || _) eqn:Er.
    + destruct (Hrev w2 H2) as (s3 & -> & Hp & Ha). cbn [or_panic obind]. eexists; (split; [done|]).
      rewrite UseGas_all by done. split_and!; done || lia.
    + eexists; (split; [done|]). split_and!; try done; [lia..|]. intros _ Hh.
      apply orb_false_iff in Er as [Eh Ee]. destruct Hh as [Hh|Hh]; [congruence|]. by destruct e.
  - rewrite UseGas_spec by (done || apply u64_range).
    pose proof (u64_range (zlen ret * CreateDataGas)) as Hu.
    destruct (Z.ltb_spec (Gas c) (u64 (zlen ret * CreateDataGas))) as [Hoog|Hok].
    + destruct (homestead env) eqn:Eh; cbn [orb].
      * destruct (Hrev w2 H2) as (s3 & -> & Hp & Ha). cbn [or_panic obind]. eexists; (split; [done|]).
        rewrite UseGas_all by done. split_and!; done || lia.
      * eexists; (split; [done|]). split_and!; try done; [lia..|]. by intros _ [?|?].
    + eexists; (split; [done|]). split_and!; try done; [cbn; lia..|].
      eapply W_post_trans; [exact H02|]. apply set_code_post; [apply H2|]. unfold MaxCodeSize in *. lia.
Qed.

Lemma Create_ok n (Run : RunFn) env caller code gas v (w : W) :
  Run_ok n Run -> ref_ok caller -> in_u256 v -> 0 <= gas < GasCap -> (Z.to_nat gas < n)%nat ->
  W_ok w -> zlen code < 2 ^ 62 ->
  exists r, Create Run env caller code gas v w = Ret r /\ create_result env (ref_Address caller) w gas r.
Proof.
  intros HR Hcaller Hv Hgas Hn Hw Hl. unfold Create. set (ca := ref_Address caller).
  pose proof (W_post_refl w Hw) as H0.
  assert (in_u256 0) as Hz by (unfold in_u256; lia).
  destruct (_ && _); [eexists; split; [done|]; split_and!; try done; lia|].
  rewrite Z.gtb_ltb. destruct (Z.ltb_spec CallCreateDepth (depth w)) as [|Hd];
    [eexists; split; [done|]; split_and!; try done; (lia || by left)|].
  destruct (can_transfer_post ca v w Hw) as (w1 & -> & H1 & E1).
  destruct (w_balance ca (wabs w) >=? v) eqn:Eb; cbn [negb];
    [|eexists; split; [done|]; split_and!; try done; (lia || by left)].
  apply Z.geb_le in Eb.
  destruct (get_post _ _ w1 (GetNonce_ok ca) (wp_ok _ _ H1)) as (w2 & -> & H2 & E2 & _).
  rewrite E1. set (nonce := w_nonce ca (wabs w)). set (addr := Rlp.CreateAddress ca nonce).
  assert (in_u256 addr) as Haddr by apply BytesToAddress_range.
  unfold in_u256 in Hv.
  destruct (set_nonce_post ca (u64 (nonce + 1)) w2 (wp_ok _ _ H2)) as [H3 E3].
  destruct (create_start env ca (u64 (nonce + 1)) addr v w2) as (id & w4 & -> & H4 & Hrev & H5);
    [apply H2|rewrite E2, E1; lia|].
  set (w3 := upd_sdb (SetNonce ca _) w2) in *. cbv zeta in H5 |- *.
  set (w5 := upd_sdb (Transfer ca addr v) _) in *.
  assert (W_post w w4) as H04 by (eapply W_post_trans; [exact H1|]; eapply W_post_trans; [exact H2|];
    by eapply W_post_trans).
  destruct (NewContract caller addr v gas (dests w5)) as [c d] eqn:EN.
  destruct (NewContract_ok caller addr v gas (dests w5) addr (Keccak256Hash code) code c d) as (Hc & Eg & Hdd);
    try done; [apply H5|].
  pose proof (set_dests_post d w5 (wp_ok _ _ H5) Hdd) as H6.
  destruct (run_safe n Run (SetCallCode addr (Keccak256Hash code) code c) [] (set_dests d w5))
    as (r & -> & Hr); try done; [lia|by rewrite Eg|apply H6| |].
  { by rewrite (wp_depth _ _ H6), (wp_depth _ _ H5), (wp_depth _ _ H04). }
  rewrite Eg in Hr. destruct r as [[[ret err] c1] w6]. destruct Hr as (Hg1 & Hret & H7). cbn [obind].
  assert (W_post w4 w6) as H46 by (eapply W_post_trans; [exact H5|by eapply W_post_trans]).
  destruct (finish_create_ok env addr id w3 w4 w6 gas ret err c1) as (cr & -> & Hcr); try (done || lia).
  exists cr. split; [done|]. destruct cr as [[[[ret' addr'] g'] err'] w'].
  destruct Hcr as (-> & ? & [? ?] & H8 & Hfail). split_and!; try done.
  - eapply W_post_trans; [|exact H8]. eapply W_post_trans; [exact H1|]. by eapply W_post_trans.
  - intros He Hh. right. rewrite Hfail by done. by rewrite E3, E2, E1.
Qed.

End calls.

End VmCalls.
