(* ===== verification/VmOps.v ===== *)
(** * Every instruction is safe

    The obligation [op_ok] of VmSafe.v, for each entry of the jump table: its gas function and
    its execution are defined on every validated stack, keep the frame and the machine well
    formed, and return no more gas than they were charged. *)

From S2P Require Import Prelude GoMath Params World WorldFacts Rlp VmBase Vm VmFacts VmJump VmSafe VmCalls.

Module VmOps.
Import Vm VmFacts VmJump WorldFacts VmSafe VmCalls.

(** ** Ranges of the pure instructions *)

Lemma in_u256_0 : in_u256 0.
Proof. unfold in_u256; lia. Qed.
Lemma b2z_range b : in_u256 (b2z b).
Proof. destruct b; unfold in_u256, b2z; lia. Qed.
Lemma in_u256_if (b : bool) x y : in_u256 x -> in_u256 y -> in_u256 (if b then x else y).
Proof. by destruct b. Qed.
Lemma in_u256_byte b : in_u256 (byte_to_Z b).
Proof. pose proof (byte_to_Z_range b). unfold in_u256. lia. Qed.
Lemma in_u256_bits z :
  in_u256 z <-> 0 <= z /\ forall i, 256 <= i -> Z.testbit z i = false.
Proof.
  unfold in_u256. split.
  - intros [H0 H]. split; [done|]. intros i Hi. destruct (Z.eq_dec z 0) as [->|Hne]; [apply Z.testbit_0_l|].
    apply Z.bits_above_log2; [done|]. assert (Z.log2 z < 256) by (apply Z.log2_lt_pow2; lia). lia.
  - intros [H0 H]. split; [done|]. destruct (Z.eq_dec z 0) as [->|Hne]; [lia|].
    apply Z.log2_lt_pow2; [lia|]. apply Z.nle_gt. intros Hl. specialize (H _ Hl).
    by rewrite Z.bit_log2 in H by lia.
Qed.
Lemma land_range x y : in_u256 x -> in_u256 y -> in_u256 (Z.land x y).
Proof.
  rewrite !in_u256_bits. intros [Hx Bx] [Hy By]. split; [by apply Z.land_nonneg; left|].
  intros i Hi. by rewrite Z.land_spec, Bx.
Qed.
Lemma lor_range x y : in_u256 x -> in_u256 y -> in_u256 (Z.lor x y).
Proof.
  rewrite !in_u256_bits. intros [Hx Bx] [Hy By]. split; [by apply Z.lor_nonneg|].
  intros i Hi. by rewrite Z.lor_spec, Bx, By.
Qed.
Lemma lxor_range x y : in_u256 x -> in_u256 y -> in_u256 (Z.lxor x y).
Proof.
  rewrite !in_u256_bits. intros [Hx Bx] [Hy By]. split; [by apply Z.lxor_nonneg|].
  intros i Hi. by rewrite Z.lxor_spec, Bx, By.
Qed.
Lemma Exp_range x y : in_u256 x -> in_u256 y -> in_u256 (Exp x y).1.
Proof. intros Hx Hy. rewrite Exp_fst by apply Hy. apply Z.mod_pos_bound. lia. Qed.
Lemma SetBytes_range d : zlen d <= 32 -> in_u256 (SetBytes d).
Proof.
  intros H. pose proof (SetBytes_bound d) as Hb. pose proof (zlen_nonneg d).
  pose proof (Z.pow_le_mono_r 256 (zlen d) 32 ltac:(lia) H). unfold in_u256. change (2 ^ 256) with (256 ^ 32). lia.
Qed.
Lemma zlen_u256 {A} (l : list A) : zlen l < 2 ^ 63 -> in_u256 (zlen l).
Proof. pose proof (zlen_nonneg l). unfold in_u256. lia. Qed.
#[export] Hint Resolve in_u256_0 b2z_range in_u256_if in_u256_byte land_range lor_range lxor_range
  Exp_range U256_range : evm.

(** ** Instructions *)

Section ops.
Context `{C : CryptoPrims} `{CO : !CryptoOK} {S : Type} `{SI : StateDBI S} `{SP : !StateDBSpec S}.
Context (env : Env) (n : nat) (Henv : env_ok env).
#[local] Notation W := (W (S:=S)).
#[local] Notation operation := (operation (S:=S)).

Lemma exec_stack f (w w' : W) r st :
  frame_ok f -> W_post w w' -> Forall in_u256 st -> zlen st <= StackLimit -> 0 <= r ->
  exec_post f w r (XOk [] (set_stack st f) w').
Proof.
  intros Hf Hw Hst Hl Hr. split_and!; [done|done|by apply set_stack_ok|change (gas_of (set_stack st f)) with (gas_of f); lia|done].
Qed.
Lemma exec_memory f (w w' : W) r st m k :
  frame_ok f -> W_post w w' -> Forall in_u256 st -> zlen st <= StackLimit -> 0 <= r ->
  mem_ok (memory f) k -> mem_ok m k ->
  exec_post f w r (XOk [] (set_memory m (set_stack st f)) w').
Proof.
  intros Hf Hw Hst Hl Hr Hk Hm. split_and!; [done|done| | |].
  - eapply set_memory_ok; [by apply set_stack_ok|done].
  - change (gas_of (set_memory m (set_stack st f))) with (gas_of f). lia.
  - cbn. destruct Hk as [_ -> _], Hm as [_ -> _]. done.
Qed.

(** Introduce the hypotheses of [exec_ok]. *)
Ltac exec_intro := intros Run f w r HR Hf Hw Hp Hl Hm HL Hr Hcap Hn Hpc.
(** Name the top of the stack by [H : st = ...] and split what is known of its words. *)
Ltac top H :=
  let Hall := fresh "Hall" in
  pose proof (fo_stack _ ltac:(eassumption)) as Hall; rewrite H in Hall;
  repeat match type of Hall with
         | Forall _ (_ :: _) => let Hx := fresh "Hx" in apply Forall_cons in Hall as [Hx Hall]
         end.

Lemma exec_push o v :
  execute o = push_op v -> op_pop o = 0 -> op_push o = 1 ->
  (forall f, frame_ok f -> in_u256 (v env f)) -> exec_ok env n o L0.
Proof.
  intros E Ep Eu Hv. exec_intro. rewrite E. rewrite Ep, Eu in *. eexists. split; [done|].
  apply exec_stack; [done|by apply W_post_refl| |rewrite zlen_cons; lia|done].
  constructor; [by apply Hv|by apply fo_stack].
Qed.
Lemma exec_un o h :
  execute o = un_op h -> op_pop o = 1 -> op_push o = 1 ->
  (forall x, in_u256 x -> in_u256 (h x)) -> exec_ok env n o L0.
Proof.
  intros E Ep Eu Hv. exec_intro. rewrite E. rewrite Ep, Eu in *.
  destruct (stk1 _ Hp) as (x & tl & Es). top Es. unfold un_op. rewrite Es in *.
  eexists. split; [done|]. rewrite !zlen_cons in *.
  apply exec_stack; [done|by apply W_post_refl| |rewrite zlen_cons; lia|done]. constructor; auto.
Qed.
Lemma exec_bin o h :
  execute o = bin_op h -> op_pop o = 2 -> op_push o = 1 ->
  (forall x y, in_u256 x -> in_u256 y -> in_u256 (h x y)) -> exec_ok env n o L0.
Proof.
  intros E Ep Eu Hv. exec_intro. rewrite E. rewrite Ep, Eu in *.
  destruct (stk2 _ Hp) as (x & y & tl & Es). top Es. unfold bin_op. rewrite Es in *.
  eexists. split; [done|]. rewrite !zlen_cons in *.
  apply exec_stack; [done|by apply W_post_refl| |rewrite zlen_cons; lia|done]. constructor; auto.
Qed.
Lemma exec_tern o h :
  execute o = tern_op h -> op_pop o = 3 -> op_push o = 1 ->
  (forall x y z, in_u256 x -> in_u256 y -> in_u256 z -> in_u256 (h x y z)) -> exec_ok env n o L0.
Proof.
  intros E Ep Eu Hv. exec_intro. rewrite E. rewrite Ep, Eu in *.
  destruct (stk3 _ Hp) as (x & y & z & tl & Es). top Es. unfold tern_op. rewrite Es in *.
  eexists. split; [done|]. rewrite !zlen_cons in *.
  apply exec_stack; [done|by apply W_post_refl| |rewrite zlen_cons; lia|done]. constructor; auto.
Qed.

Lemma exec_signextend o :
  execute o = opSignExtend -> op_pop o = 2 -> op_push o = 1 -> exec_ok env n o L0.
Proof.
  intros E Ep Eu. exec_intro. rewrite E. rewrite Ep, Eu in *.
  destruct (stk2 _ Hp) as (x & y & tl & Es). top Es. unfold opSignExtend. rewrite Es in *.
  rewrite !zlen_cons in *. destruct (x <? 31); eexists; (split; [done|]);
    (apply exec_stack; [done|by apply W_post_refl| |rewrite zlen_cons; lia|done]);
    (constructor; [auto with evm|done]).
Qed.

Lemma op_const o c :
  gasCost o = constGasFunc c -> (if halts o then 0 else 1) <= c -> memorySize o = None ->
  exec_ok env n o L0 -> op_ok env n o.
Proof.
  intros Eg Hc Em He. split; [intros g st E; congruence|]. exists L0. split; [|done].
  eapply gas_ok_const; eauto.
Qed.
Lemma op_flat o :
  gas_ok env o L0 -> memorySize o = None -> exec_ok env n o L0 -> op_ok env n o.
Proof. intros Hg Em He. split; [intros g st E; congruence|]. by exists L0. Qed.

#[local] Notation ops_ok := (Forall (fun p : OpCode * operation => op_ok env n p.2)).

Lemma arithmetic_ok : ops_ok arithmeticInstructions.
Proof.
  unfold arithmeticInstructions.
  repeat apply Forall_cons_2; [..|constructor];
    cbn [snd]; try (eapply op_const; [reflexivity|done|reflexivity|]);
    try (eapply exec_bin; [reflexivity..|]; cbn; intros; auto with evm);
    try (eapply exec_un; [reflexivity..|]; cbn; intros; auto with evm);
    try (eapply exec_tern; [reflexivity..|]; cbn; intros; auto with evm).
  - intros Run f w r HR Hf Hw Hp Hl Hm HL Hr Hcap Hn Hpc. eexists. split; [reflexivity|].
    split_and!; [by apply W_post_refl|done|done|lia|done].
  - apply op_flat; [by apply gasExp_ok|done|].
    eapply exec_bin; [reflexivity..|]; cbn; intros; auto with evm.
  - by apply exec_signextend.
  - apply in_u256_if; [done|]. unfold in_u256; lia.
Qed.

(** *** Operations on memory: gas *)

Lemma gas_ok_words o i base per :
  (forall f (w : W) size, gasCost o env f w size =
     (let* v := Back i (stack f) in with_memory_gas f w size (gas_words base per v))) ->
  Z.of_nat i < op_pop o -> 1 <= base < 2 ^ 63 -> 0 <= per < 2 ^ 63 -> gas_ok env o L0.
Proof.
  intros Hg Hi Hb Hp. apply (gas_ok_mem env o (fun st => gas_words base per (default 0 (st !! i)))).
  - intros f w size Hl. left. rewrite Hg. unfold Back.
    destruct (lookup_lt_is_Some_2 (stack f) i) as [v ->]; [unfold zlen in Hl; lia|done].
  - intros st g c Hst Hl Hgr Hc. destruct (lookup_lt_is_Some_2 st i) as [v E]; [unfold zlen in Hl; lia|].
    rewrite E in Hc. cbn in Hc. eapply Forall_lookup_1 in Hst; [|exact E]. unfold in_u256 in Hst.
    apply gas_words_Some in Hc as (_ & -> & _); [|unfold in_u64 in *; lia..|done].
    pose proof (word_bounds v). destruct (halts o); nia.
Qed.
Lemma gas_ok_plus o c :
  (forall f (w : W) size,
     gasCost o env f w size = with_memory_gas f w size (fun gas => gas_add gas c)) ->
  1 <= c < 2 ^ 63 -> gas_ok env o L0.
Proof.
  intros Hg Hc. apply (gas_ok_mem env o (fun _ gas => gas_add gas c)).
  - intros f w size _. left. apply Hg.
  - intros st g c' _ _ Hgr E. apply gas_add_Some in E as [-> _]; [|done|unfold in_u64; lia].
    destruct (halts o); lia.
Qed.
Lemma gas_ok_return o : gasCost o = gasReturn -> halts o = true -> gas_ok env o L0.
Proof.
  intros Hg Hh. apply (gas_ok_mem env o (fun _ => Some)).
  - intros f w size _. left. by rewrite Hg.
  - intros st g c _ _ _ [= <-]. rewrite Hh. lia.
Qed.
Lemma gas_ok_log o i :
  gasCost o = makeGasLog i -> 2 <= op_pop o -> 0 <= i <= 4 -> gas_ok env o L0.
Proof.
  intros Hg Hp Hi.
  apply (gas_ok_mem env o (fun st gas =>
    opt_bind (gas_add gas LogGas) (fun gas => opt_bind (gas_add gas (i * LogTopicGas)) (fun gas =>
    opt_bind (gas_mul (Uint64 (default 0 (st !! 1%nat))) LogDataGas) (fun m => gas_add gas m))))).
  - intros f w size Hl. destruct (stk2 (stack f)) as (x & y & tl & E); [lia|]. rewrite Hg.
    unfold makeGasLog, Back. rewrite E. cbn [lookup list_lookup or_panic obind].
    unfold to_uint64, bigUint64. destruct (BitLen y >? 64); [by right|by left].
  - intros st g c Hst Hl Hgr. pose proof (Uint64_range (default 0 (st !! 1%nat))) as Hu.
    set (u := Uint64 _) in *. unfold opt_bind.
    destruct (gas_add g LogGas) as [g1|] eqn:E1; [|done].
    destruct (gas_add g1 (i * LogTopicGas)) as [g2|] eqn:E2; [|done].
    destruct (gas_mul u LogDataGas) as [m|] eqn:E3; [|done]. intros E4. unfold in_u64, LogGas, LogTopicGas, LogDataGas in *.
    apply gas_add_Some in E1 as [-> H1]; [|unfold in_u64; lia..].
    apply gas_add_Some in E2 as [-> H2]; [|unfold in_u64; lia..].
    apply gas_mul_Some in E3 as [-> H3]; [|unfold in_u64; lia..].
    apply gas_add_Some in E4 as [-> H4]; [|unfold in_u64; lia..]. destruct (halts o); lia.
Qed.

(** The memory size functions are defined on the stacks their operations are validated for. *)
Ltac mem_fun stk :=
  let Hst := fresh in let Hp := fresh in let Hs := fresh in
  intros ? ? [= <-] Hst Hp; cbn [op_pop] in Hp; pose proof (stk _ Hp) as Hs; decompose [ex] Hs; subst;
  repeat match type of Hst with Forall _ (_ :: _) => apply Forall_cons in Hst as [? Hst] end;
  eexists; split; [reflexivity|]; unfold in_u256 in *;
  unfold BigMax; repeat case_match; try apply calcMemSize_nonneg; lia.
(** The memory an operation was given covers the region it was computed for. *)
Ltac covered Hm Es Hc :=
  let sz := fresh "sz" in let E := fresh "E" in let H := fresh "H" in
  destruct (Hm _ eq_refl) as (sz & E & H); rewrite Es in E; cbn -[calcMemSize] in E; injection E as <-;
  apply calcMemSize_covers in H as Hc; [|assumption..].

Lemma exec_load o :
  op_pop o = 1 -> op_push o = 1 ->
  (forall Run f (w : W) a st, frame_ok f -> W_ok w -> in_u256 a -> stack f = a :: st ->
     exists v w', execute o Run env f w = Ret (XOk [] (set_stack (v :: st) f) w') /\
                  in_u256 v /\ W_post w w') ->
  exec_ok env n o L0.
Proof.
  intros Ep Eu He. exec_intro. rewrite Ep, Eu in *. destruct (stk1 _ Hp) as (a & st & Es). top Es.
  destruct (He Run f w a st Hf Hw Hx Es) as (v & w' & -> & Hv & Hw'). eexists. split; [done|].
  rewrite Es, !zlen_cons in *. apply exec_stack; [done|done|by constructor|rewrite zlen_cons; lia|done].
Qed.

Lemma copy_to_memory_ok data mOff cOff l m k :
  covers mOff l m -> mem_ok m k -> in_u256 cOff -> in_u256 l -> zlen data < 2 ^ 63 ->
  exists m', copy_to_memory data mOff cOff l m = Ret m' /\ mem_ok m' k.
Proof.
  unfold in_u256. intros Hc Hm Hco Hl Hd. unfold copy_to_memory.
  destruct (getData_ok data cOff l) as (d & -> & _); [lia..|]. cbn [obind]. by apply mem_Set_ok.
Qed.

(** [CALLDATACOPY] and [CODECOPY] *)
Lemma exec_copy o (data : Frame -> list byte) :
  op_pop o = 3 -> op_push o = 0 -> memorySize o = Some memoryCalldataCopy ->
  (forall Run f (w : W) mOff cOff l st, stack f = mOff :: cOff :: l :: st ->
     execute o Run env f w =
     (let* m := copy_to_memory (data f) mOff cOff l (memory f) in
      Ret (XOk [] (set_memory m (set_stack st f)) w))) ->
  (forall f, frame_ok f -> zlen (data f) < 2 ^ 63) -> exec_ok env n o L0.
Proof.
  intros Ep Eu Em He Hd. exec_intro. rewrite Ep, Eu, Em in *.
  destruct (stk3 _ Hp) as (a & b & c & st & Es). top Es. covered Hm Es Hc.
  destruct (fo_mem f Hf) as [k Hk].
  destruct (copy_to_memory_ok (data f) a b c (memory f) k) as (m & E & Hmm); auto.
  erewrite He, E by eassumption. eexists. split; [done|]. rewrite Es, !zlen_cons in *.
  eapply exec_memory; [done|by apply W_post_refl|done|lia|done|done|done].
Qed.
Lemma exec_extcodecopy o :
  op_pop o = 4 -> op_push o = 0 -> memorySize o = Some memoryExtCodeCopy ->
  execute o = opExtCodeCopy -> exec_ok env n o L0.
Proof.
  intros Ep Eu Em He. exec_intro. rewrite Ep, Eu, Em in *.
  destruct (stk4 _ Hp) as (x & a & b & c & st & Es). top Es. covered Hm Es Hc.
  destruct (fo_mem f Hf) as [k Hk]. rewrite He. unfold opExtCodeCopy. rewrite Es in *.
  destruct (get_post _ _ w (GetCode_ok (BigToAddress x)) Hw) as (w1 & -> & Hw1 & _).
  pose proof (code_range (BigToAddress x) _ (wo_inv w Hw)) as Hcode.
  destruct (copy_to_memory_ok (w_code (BigToAddress x) (wabs w)) a b c (memory f) k) as (m & -> & Hmm);
    [done..|lia|].
  eexists. split; [done|]. rewrite !zlen_cons in *.
  eapply exec_memory; [done|done|done|lia|done|done|done].
Qed.
Lemma exec_sha3 o :
  op_pop o = 2 -> op_push o = 1 -> memorySize o = Some memorySha3 -> execute o = opSha3 ->
  exec_ok env n o L0.
Proof.
  intros Ep Eu Em He. exec_intro. rewrite Ep, Eu, Em in *.
  destruct (stk2 _ Hp) as (a & b & st & Es). top Es. covered Hm Es Hc.
  destruct (fo_mem f Hf) as [k Hk]. rewrite He. unfold opSha3. rewrite Es in *.
  destruct (mem_Get_ok a b (memory f) k) as (d & -> & _); [done..|]. cbn [obind].
  eexists. split; [done|]. rewrite !zlen_cons in *.
  apply exec_stack; [done| | |rewrite zlen_cons; lia|done].
  - destruct (EnablePreimageRecording env); [|by apply W_post_refl].
    eapply upd_post; [apply AddPreimage_ok| |done]. apply w_add_preimage_inv.
  - constructor; [|done]. apply SetBytes_range. unfold Keccak256, zlen. by rewrite length_be_bytes.
Qed.

Lemma op_mem o :
  mem_fun_ok o -> gas_ok env o L0 -> exec_ok env n o L0 -> op_ok env n o.
Proof. intros. split; [done|]. by exists L0. Qed.

Lemma ExtcodeCopy_range : 1 <= gt_ExtcodeCopy (env_gasTable env) < 2 ^ 63.
Proof. gas_tables env; cbn; lia. Qed.

Lemma opBalance_ok o : op_pop o = 1 -> op_push o = 1 -> execute o = opBalance -> exec_ok env n o L0.
Proof.
  intros Ep Eu He. apply exec_load; [done..|]. intros Run f w a st Hf Hw Ha Es. rewrite He. unfold opBalance.
  rewrite Es. destruct (get_post _ _ w (GetBalance_ok (BigToAddress a)) Hw) as (w1 & -> & Hw1 & _).
  eexists _, _. split; [done|]. split; [|done]. apply balance_range, Hw.
Qed.
Lemma opExtCodeSize_ok o : op_pop o = 1 -> op_push o = 1 -> execute o = opExtCodeSize -> exec_ok env n o L0.
Proof.
  intros Ep Eu He. apply exec_load; [done..|]. intros Run f w a st Hf Hw Ha Es. rewrite He. unfold opExtCodeSize.
  rewrite Es. destruct (get_post _ _ w (GetCodeSize_ok (BigToAddress a)) Hw) as (w1 & -> & Hw1 & _).
  eexists _, _. split; [done|]. split; [|done].
  pose proof (code_range (BigToAddress a) _ (wo_inv w Hw)). apply zlen_u256. lia.
Qed.
Lemma opSload_ok o : op_pop o = 1 -> op_push o = 1 -> execute o = opSload -> exec_ok env n o L0.
Proof.
  intros Ep Eu He. apply exec_load; [done..|]. intros Run f w a st Hf Hw Ha Es. rewrite He. unfold opSload.
  rewrite Es. destruct (get_post _ _ w (GetState_ok (self (contract f)) (BigToHash a)) Hw) as (w1 & -> & Hw1 & _).
  eexists _, _. split; [done|]. split; [|done]. apply state_range, Hw.
Qed.
Lemma opCalldataLoad_ok o : op_pop o = 1 -> op_push o = 1 -> execute o = opCalldataLoad -> exec_ok env n o L0.
Proof.
  intros Ep Eu He. apply exec_load; [done..|]. intros Run f w a st Hf Hw Ha Es. rewrite He. unfold opCalldataLoad.
  rewrite Es. destruct (getData_ok (Input (contract f)) a 32) as (d & -> & Hd); [apply Ha|lia|apply Hf|].
  eexists _, _. split; [done|]. split; [|by apply W_post_refl]. apply SetBytes_range. rewrite Hd; lia.
Qed.
Lemma opBlockhash_ok o : op_pop o = 1 -> op_push o = 1 -> execute o = opBlockhash -> exec_ok env n o L0.
Proof.
  intros Ep Eu He. apply exec_load; [done..|]. intros Run f w a st Hf Hw Ha Es. rewrite He. unfold opBlockhash.
  rewrite Es. eexists _, _. split; [done|]. split; [|by apply W_post_refl].
  apply in_u256_if; [apply Henv|auto with evm].
Qed.

Lemma environment_ok : ops_ok environmentInstructions.
Proof.
  unfold environmentInstructions.
  repeat apply Forall_cons_2; [..|constructor];
    cbn [snd]; try (eapply op_const; [reflexivity|done|reflexivity|]);
    try (eapply exec_push; [reflexivity..|]; cbn; intros f [[] ? ? ? ?]; auto with evm).
  - apply op_mem; [mem_fun stk2| |by apply exec_sha3].
    by apply (gas_ok_words _ 1 Sha3Gas Sha3WordGas).
  - apply op_flat; [|done|by apply opBalance_ok].
    eapply gas_ok_const; [right; reflexivity| |done]. gas_tables env; done.
  - apply Henv.
  - by apply opCalldataLoad_ok.
  - by apply zlen_u256.
  - apply op_mem; [mem_fun stk3|by apply (gas_ok_words _ 2 GasFastestStep CopyGas)|].
    apply (exec_copy _ (fun f => Input (contract f))); try done.
    + intros. cbn. unfold opCalldataCopy. by rewrite H.
    + intros f Hf. apply Hf.
  - apply zlen_u256. lia.
  - apply op_mem; [mem_fun stk3|by apply (gas_ok_words _ 2 GasFastestStep CopyGas)|].
    apply (exec_copy _ (fun f => Code (contract f))); try done.
    + intros. cbn. unfold opCodeCopy. by rewrite H.
    + intros f Hf. pose proof (co_code _ (fo_contract f Hf)). lia.
  - apply Henv.
  - apply op_flat; [|done|by apply opExtCodeSize_ok].
    eapply gas_ok_const; [right; reflexivity| |done]. gas_tables env; done.
  - apply op_mem; [mem_fun stk4| |by apply exec_extcodecopy].
    apply (gas_ok_words _ 3 (gt_ExtcodeCopy (env_gasTable env)) CopyGas); try done. apply ExtcodeCopy_range.
  - by apply opBlockhash_ok.
  - apply Henv.
Qed.

(** *** Memory, storage and jumps *)

Lemma opPop_ok o : op_pop o = 1 -> op_push o = 0 -> execute o = opPop -> exec_ok env n o L0.
Proof.
  intros Ep Eu He. exec_intro. rewrite He. rewrite Ep, Eu in *.
  destruct (stk1 _ Hp) as (a & st & Es). top Es. unfold opPop. rewrite Es in *. eexists. split; [done|].
  rewrite zlen_cons in *. apply exec_stack; [done|by apply W_post_refl|done|lia|done].
Qed.
Lemma opMload_ok o :
  op_pop o = 1 -> op_push o = 1 -> memorySize o = Some memoryMLoad -> execute o = opMload -> exec_ok env n o L0.
Proof.
  intros Ep Eu Em He. exec_intro. rewrite He. rewrite Ep, Eu, Em in *.
  assert (in_u256 32) as H32 by (unfold in_u256; lia).
  destruct (stk1 _ Hp) as (a & st & Es). top Es. covered Hm Es Hc. destruct (fo_mem f Hf) as [k Hk].
  unfold opMload. rewrite Es in *.
  destruct (mem_Get_ok a 32 (memory f) k) as (d & E & _ & Hd); [done..|]. change (Int64 32) with 32 in E.
  rewrite E. cbn [obind]. eexists. split; [done|]. rewrite !zlen_cons in *.
  apply exec_stack; [done|by apply W_post_refl| |rewrite zlen_cons; lia|done].
  constructor; [|done]. apply SetBytes_range. rewrite Hd; lia.
Qed.
Lemma opMstore_ok o :
  op_pop o = 2 -> op_push o = 0 -> memorySize o = Some memoryMStore -> execute o = opMstore -> exec_ok env n o L0.
Proof.
  intros Ep Eu Em He. exec_intro. rewrite He. rewrite Ep, Eu, Em in *.
  assert (in_u256 32) as H32 by (unfold in_u256; lia).
  destruct (stk2 _ Hp) as (a & v & st & Es). top Es. covered Hm Es Hc. destruct (fo_mem f Hf) as [k Hk].
  unfold opMstore. rewrite Es in *.
  destruct (mem_Set_ok a 32 (PaddedBigBytes v 32) (memory f) k) as (m & E & Hmm); [done..|].
  change (Uint64 32) with 32 in E. rewrite E. cbn [obind]. eexists. split; [done|]. rewrite !zlen_cons in *.
  eapply exec_memory; [done|by apply W_post_refl|done|lia|done|done|done].
Qed.
Lemma opMstore8_ok o :
  op_pop o = 2 -> op_push o = 0 -> memorySize o = Some memoryMStore8 -> execute o = opMstore8 -> exec_ok env n o L0.
Proof.
  intros Ep Eu Em He. exec_intro. rewrite He. rewrite Ep, Eu, Em in *.
  assert (in_u256 1) as H1 by (unfold in_u256; lia).
  destruct (stk2 _ Hp) as (a & v & st & Es). top Es. covered Hm Es Hc. destruct (fo_mem f Hf) as [k Hk].
  unfold opMstore8. rewrite Es in *. destruct Hc as (Ho & _ & Hin).
  destruct (mem_store_ok a (byte_of_Z (Z.land (Int64 v) 0xff)) (memory f) k) as (m & E & Hmm); [lia|done|].
  rewrite E. cbn [obind]. eexists. split; [done|]. rewrite !zlen_cons in *.
  eapply exec_memory; [done|by apply W_post_refl|done|lia|done|done|done].
Qed.
Lemma opSstore_ok o : op_pop o = 2 -> op_push o = 0 -> execute o = opSstore -> exec_ok env n o L0.
Proof.
  intros Ep Eu He. exec_intro. rewrite He. rewrite Ep, Eu in *.
  destruct (stk2 _ Hp) as (a & v & st & Es). top Es. unfold opSstore. rewrite Es in *. eexists. split; [done|].
  rewrite !zlen_cons in *. apply exec_stack; [done| |done|lia|done].
  eapply upd_post; [apply SetState_ok| |done]. apply w_set_state_inv, BytesToHash_range.
Qed.

Lemma dest_has_ok c pos d :
  contract_ok c -> in_u256 pos -> dests_ok d ->
  exists b d', dest_has (CodeHash c) (Code c) pos d = Ret (b, d') /\ dests_ok d'.
Proof.
  intros Hc Hp Hd. destruct (decide (Code c = [])) as [E|Hne].
  - exists false, d. split; [|done]. unfold dest_has. rewrite E. change (zlen []) with 0.
    pose proof (Uint64_range pos). by rewrite (proj2 (Z.geb_le (Uint64 pos) 0)), orb_true_r by lia.
  - rewrite (co_hash c Hc Hne). pose proof (co_code c Hc).
    destruct (dest_has_spec (Code c) pos d) as (d' & E & Hd'); [lia|apply Hp|done|]. eauto.
Qed.
Lemma jump_to_ok pos f (w : W) r :
  frame_ok f -> W_ok w -> in_u256 pos -> 0 <= r -> exists x, jump_to pos f w = Ret x /\ exec_post f w r x.
Proof.
  intros Hf Hw Hp Hr. unfold jump_to. pose proof (gas_pos f Hf) as Hg.
  destruct (dest_has_ok (contract f) pos (dests w)) as (b & d' & -> & Hd); [apply Hf|done|apply Hw|].
  cbn [obind]. pose proof (set_dests_post d' w Hw Hd) as Hw'. destruct b; (eexists; split; [done|]).
  - split_and!; [done|done|apply set_pc_ok; [done|apply Uint64_range]| |done].
    change (gas_of (set_pc _ f)) with (gas_of f). lia.
  - split; [done|lia].
Qed.
Lemma opJump_ok o : op_pop o = 1 -> op_push o = 0 -> execute o = opJump -> exec_ok env n o L0.
Proof.
  intros Ep Eu He. exec_intro. rewrite He. rewrite Ep, Eu in *.
  destruct (stk1 _ Hp) as (a & st & Es). top Es. unfold opJump. rewrite Es in *. rewrite zlen_cons in *.
  destruct (jump_to_ok a (set_stack st f) w r) as (x & -> & Hx'); [apply set_stack_ok; [done|done|lia]|done..|].
  exists x. split; [done|]. exact Hx'.
Qed.
Lemma opJumpi_ok o : op_pop o = 2 -> op_push o = 0 -> execute o = opJumpi -> exec_ok env n o L0.
Proof.
  intros Ep Eu He. exec_intro. rewrite He. rewrite Ep, Eu in *.
  destruct (stk2 _ Hp) as (a & b & st & Es). top Es. unfold opJumpi. rewrite Es in *. rewrite !zlen_cons in *.
  assert (frame_ok (set_stack st f)) as Hf' by (apply set_stack_ok; [done|done|lia]).
  destruct (negb _).
  - destruct (jump_to_ok a (set_stack st f) w r) as (x & -> & Hx'); [done..|].
    exists x. split; [done|]. exact Hx'.
  - eexists. split; [done|]. split_and!; [by apply W_post_refl|done|apply set_pc_ok; [done|apply u64_range]| |done].
    change (gas_of (set_pc _ _)) with (gas_of f). lia.
Qed.

Lemma storage_ok : ops_ok storageInstructions.
Proof.
  unfold storageInstructions.
  repeat apply Forall_cons_2; [..|constructor];
    cbn [snd]; try (eapply op_const; [reflexivity|done|reflexivity|]).
  - by apply opPop_ok.
  - apply op_mem; [mem_fun stk1|by apply (gas_ok_plus _ GasFastestStep)|by apply opMload_ok].
  - apply op_mem; [mem_fun stk2|by apply (gas_ok_plus _ GasFastestStep)|by apply opMstore_ok].
  - apply op_mem; [mem_fun stk2|by apply (gas_ok_plus _ GasFastestStep)|by apply opMstore8_ok].
  - apply op_flat; [|done|by apply opSload_ok].
    eapply gas_ok_const; [right; reflexivity| |done]. gas_tables env; done.
  - apply op_flat; [by apply gasSStore_ok|done|by apply opSstore_ok].
  - by apply opJump_ok.
  - by apply opJumpi_ok.
  - eapply exec_push; [reflexivity..|]. intros f Hf. apply in_u256_u64, Hf.
  - eapply exec_push; [reflexivity..|]. intros f [? ? ? ? [k [Hl _ Hk]]]. cbn. unfold mem_Len.
    rewrite Hl. unfold in_u256. lia.
  - eapply exec_push; [reflexivity..|]. intros f Hf. apply in_u256_u64, Hf.
  - exec_intro. eexists. split; [reflexivity|]. split_and!; [by apply W_post_refl|done|done|lia|done].
Qed.

(** *** Logs, pushes, duplication, swaps *)

Lemma pop_topics_ok i st :
  Forall in_u256 st -> (i <= length st)%nat ->
  exists topics, pop_topics i st = Ret (topics, drop i st).
Proof.
  revert st. induction i as [|i IH]; intros st Hst Hl; [by eexists|].
  destruct st as [|x st]; [cbn in Hl; lia|]. apply Forall_cons in Hst as [_ Hst]. cbn [pop_topics pop obind].
  destruct (IH st Hst) as [topics ->]; [cbn in Hl; lia|]. by eexists.
Qed.
Lemma makeLog_ok o i :
  op_pop o = Z.of_nat i + 2 -> op_push o = 0 -> memorySize o = Some memoryLog -> execute o = makeLog i ->
  exec_ok env n o L0.
Proof.
  intros Ep Eu Em He. exec_intro. rewrite He. rewrite Ep, Eu, Em in *.
  destruct (stk2 (stack f)) as (a & b & st & Es); [lia|]. top Es. covered Hm Es Hc.
  destruct (fo_mem f Hf) as [k Hk]. unfold makeLog. rewrite Es in *. rewrite !zlen_cons in *.
  destruct (pop_topics_ok i st) as [topics ->]; [done|unfold zlen in Hp; lia|]. cbn [obind].
  destruct (mem_Get_ok a b (memory f) k) as (d & -> & _); [done..|]. cbn [obind]. eexists. split; [done|].
  apply exec_stack; [done| |by apply Forall_drop|unfold zlen in *; rewrite length_drop; lia|done].
  eapply upd_post; [apply AddLog_ok| |done]. apply w_add_log_inv.
Qed.
Lemma op_log i p :
  p = Z.of_nat i + 2 -> (i <= 4)%nat ->
  op_ok env n (mkOperation (makeLog i) (makeGasLog (Z.of_nat i)) p 0 (Some memoryLog) false false).
Proof.
  intros -> Hi.
  apply op_mem; [|eapply gas_ok_log; [reflexivity|cbn [op_pop]; lia|lia]|by eapply makeLog_ok].
  intros ? st [= <-] Hst Hp. cbn [op_pop] in Hp. destruct (stk2 st) as (a & b & tl & ->); [lia|].
  apply Forall_cons in Hst as [? Hst]. apply Forall_cons in Hst as [? _]. unfold in_u256 in *.
  eexists. split; [reflexivity|]. apply calcMemSize_nonneg; lia.
Qed.
Lemma log_ok : ops_ok logInstructions.
Proof.
  unfold logInstructions. repeat apply Forall_cons_2; [..|constructor].
  - by apply (op_log 0); [|lia].
  - by apply (op_log 1); [|lia].
  - by apply (op_log 2); [|lia].
  - by apply (op_log 3); [|lia].
  - by apply (op_log 4); [|lia].
Qed.

Lemma makePush_ok o i :
  op_pop o = 0 -> op_push o = 1 -> halts o = false -> execute o = makePush i i -> 0 <= i <= 32 ->
  exec_ok env n o L0.
Proof.
  intros Ep Eu Eh He Hi. exec_intro. rewrite He. rewrite Ep, Eu in *. specialize (Hpc Eh).
  pose proof (co_code _ (fo_contract f Hf)) as Hcode. pose proof (fo_pc f Hf) as Hpc0. unfold in_u64 in Hpc0.
  unfold makePush. rewrite u64_small by lia. rewrite i64_small by lia.
  set (len := zlen (Code (contract f))) in *.
  set (a := if pc f + 1 <? len then pc f + 1 else len).
  assert (0 <= a <= len) as Ha by (unfold a; destruct (Z.ltb_spec (pc f + 1) len); lia).
  set (b := if a + i <? len then a + i else len).
  assert (a <= b <= len /\ b - a <= i) as [Hb Hba] by (unfold b; destruct (Z.ltb_spec (a + i) len); lia).
  destruct (slice (Code (contract f)) a b) as [d|] eqn:E; [|rewrite slice_Some in E by lia; done].
  apply slice_length in E. cbn [or_panic obind]. eexists. split; [done|].
  split_and!; [by apply W_post_refl|done| | |done].
  - apply set_pc_ok; [|apply u64_range]. apply set_stack_ok; [done| |rewrite zlen_cons; lia].
    constructor; [|apply Hf]. apply SetBytes_range. rewrite RightPadBytes_spec. unfold zlen in *.
    rewrite length_app, length_zeros. lia.
  - change (gas_of (set_pc _ _)) with (gas_of f). lia.
Qed.
Lemma makeDup_ok o i :
  op_pop o = Z.of_nat (Datatypes.S i) -> op_push o = op_pop o + 1 -> execute o = makeDup (Datatypes.S i) ->
  exec_ok env n o L0.
Proof.
  intros Ep Eu He. exec_intro. rewrite He. rewrite Eu, Ep in *. unfold makeDup, stack_dup, Back.
  destruct (lookup_lt_is_Some_2 (stack f) i) as [x E]; [unfold zlen in Hp; lia|].
  rewrite E. cbn [or_panic obind]. eexists. split; [done|].
  apply exec_stack; [done|by apply W_post_refl| |rewrite zlen_cons; lia|done].
  pose proof (fo_stack f Hf) as Hst. constructor; [|done]. by eapply Forall_lookup_1.
Qed.
Lemma makeSwap_ok o i :
  op_pop o = Z.of_nat i + 1 -> op_push o = Z.of_nat i + 1 -> execute o = makeSwap i -> exec_ok env n o L0.
Proof.
  intros Ep Eu He. exec_intro. rewrite He. rewrite Eu, Ep in *. unfold makeSwap, stack_swap, Back.
  rewrite Nat.add_1_r. pose proof (fo_stack f Hf) as Hst.
  destruct (lookup_lt_is_Some_2 (stack f) i) as [x E]; [unfold zlen in Hp; lia|].
  destruct (lookup_lt_is_Some_2 (stack f) 0) as [y E0]; [unfold zlen in Hp; lia|].
  rewrite E, E0. cbn [or_panic obind]. eexists. split; [done|].
  apply exec_stack; [done|by apply W_post_refl| |unfold zlen in *; rewrite !length_insert; lia|done].
  apply Forall_insert; [apply Forall_insert; [done|]|]; by eapply Forall_lookup_1.
Qed.

Lemma push_ok : ops_ok pushInstructions.
Proof.
  unfold pushInstructions. apply Forall_map, Forall_map, Forall_seq. intros i Hi. cbn [compose snd].
  eapply op_const; [reflexivity|done|done|]. eapply makePush_ok; [done..|]. lia.
Qed.
Lemma dup_ok : ops_ok dupInstructions.
Proof.
  unfold dupInstructions. apply Forall_map, Forall_seq. intros i Hi. cbn [compose snd].
  eapply op_const; [reflexivity|done|done|]. destruct i as [|i]; [lia|]. by eapply makeDup_ok.
Qed.
Lemma swap_ok : ops_ok swapInstructions.
Proof.
  unfold swapInstructions. apply Forall_map, Forall_seq. intros i Hi. cbn [compose snd].
  eapply op_const; [reflexivity|done|done|]. by eapply makeSwap_ok.
Qed.

(** *** Halting, creation, calls *)

Lemma opReturn_ok o :
  op_pop o = 2 -> op_push o = 0 -> memorySize o = Some memoryReturn -> execute o = opReturn ->
  exec_ok env n o L0.
Proof.
  intros Ep Eu Em He. exec_intro. rewrite He. rewrite Ep, Eu, Em in *.
  destruct (stk2 _ Hp) as (a & b & st & Es). top Es. covered Hm Es Hc.
  destruct (fo_mem f Hf) as [k Hk]. unfold opReturn. rewrite Es in *. rewrite !zlen_cons in *.
  rewrite mem_GetPtr_Get. destruct (mem_Get_ok a b (memory f) k) as (d & -> & Hd & _); [done..|].
  cbn [obind]. eexists. split; [done|]. split_and!; [by apply W_post_refl|lia| | |done].
  - apply set_stack_ok; [done|done|lia].
  - change (gas_of (set_stack st f)) with (gas_of f). lia.
Qed.
Lemma opSuicide_ok o : op_pop o = 1 -> op_push o = 0 -> execute o = opSuicide -> exec_ok env n o L0.
Proof.
  intros Ep Eu He. exec_intro. rewrite He. rewrite Ep, Eu in *.
  destruct (stk1 _ Hp) as (a & st & Es). top Es. unfold opSuicide. rewrite Es in *. rewrite zlen_cons in *.
  set (me := self (contract f)).
  destruct (get_post _ _ w (GetBalance_ok me) Hw) as (w1 & -> & Hw1 & E1 & _).
  set (g := fun s : S => (Suicide me (AddBalance (BigToAddress a) (w_balance me (wabs w)) s)).2).
  assert ((get (Suicide me) (upd_sdb (AddBalance (BigToAddress a) (w_balance me (wabs w))) w1)).2
          = upd_sdb g w1) as ->.
  { unfold get, upd_sdb, g, set_sdb; cbn. by destruct (Suicide _ _). }
  eexists. split; [done|]. apply exec_stack; [done| |done|lia|done].
  eapply W_post_trans; [exact Hw1|].
  eapply upd_post; [apply (upd_ok_comp _ _ _ _ (Suicide_ok me) (AddBalance_ok _ _))| |apply Hw1].
  cbn. rewrite E1. apply suicide_inv.
Qed.

Lemma add_gas_ok c g : contract_ok c -> in_u64 g -> contract_ok (set_gas g c).
Proof. by intros [] ?; split. Qed.
Lemma opCreate_ok o :
  op_pop o = 3 -> op_push o = 1 -> halts o = false -> memorySize o = Some memoryCreate -> execute o = opCreate ->
  exec_ok env n o L0.
Proof.
  intros Ep Eu Eh Em He. exec_intro. specialize (Hn Eh). rewrite He. rewrite Ep, Eu, Em in *.
  destruct (stk3 _ Hp) as (v & a & b & st & Es). top Es. covered Hm Es Hc.
  destruct (fo_mem f Hf) as [k Hk]. unfold opCreate. rewrite Es in *. rewrite !zlen_cons in *.
  destruct (mem_Get_ok a b (memory f) k) as (d & -> & Hd & _); [done..|]. cbn [obind].
  pose proof (fo_contract f Hf) as Hct. pose proof (gas_pos f Hf) as Hg0. pose proof (co_gas _ Hct) as Hgu.
  set (gas := if eip150 env then _ else _). change (Gas (contract f)) with (gas_of f) in *.
  unfold GasCap in Hcap. unfold in_u64 in Hgu.
  assert (0 <= gas <= gas_of f) as Hgas.
  { unfold gas. destruct (eip150 env); [|lia].
    pose proof (Z.div_pos (gas_of f) 64 Hg0 ltac:(lia)).
    pose proof (Z.div_le_upper_bound (gas_of f) 64 (gas_of f) ltac:(lia) ltac:(lia)). rewrite u64_small; lia. }
  rewrite UseGas_spec by (done || lia). change (Gas (contract f)) with (gas_of f).
  rewrite (proj2 (Z.ltb_ge _ _)) by lia. cbn [snd].
  set (c := set_gas (gas_of f - gas) (contract f)).
  assert (contract_ok c) as Hc' by (apply add_gas_ok; [done|unfold in_u64; lia]).
  destruct (Create_ok n Run env (ContractOf c) d gas v w) as (cr & -> & Hcr); try done;
    [unfold GasCap; lia|lia|]. cbn [obind].
  destruct cr as [[[[ret addr] g] err] w']. destruct Hcr as (_ & Haddr & Hg & Hw' & _).
  eexists. split; [done|]. change (Gas c) with (gas_of f - gas). rewrite u64_small by lia.
  split_and!; [done|done| | |done].
  - destruct Hf. split; cbn; try done; [by apply add_gas_ok; [|unfold in_u64; lia]| |rewrite zlen_cons; lia].
    constructor; [|done]. repeat case_match; auto with evm.
  - change (gas_of (set_contract ?x _)) with (Gas x). cbn. lia.
Qed.

(** What the call instructions do with the result. *)
Lemma finish_op_ok f (w : W) gas r retOffset retSize st cr :
  frame_ok f -> call_post w gas cr -> covers retOffset retSize (memory f) ->
  gas <= r -> Forall in_u256 st -> zlen st + 1 <= StackLimit -> gas_of f + r < GasCap ->
  exists x, finish_op retOffset retSize st f cr = Ret x /\ exec_post f w r x.
Proof.
  intros Hf Hcr Hc Hg Hst Hl Hcap. destruct (fo_mem f Hf) as [k Hk].
  destruct cr as [[[ret g] err] w']. destruct Hcr as (Hret & Hgas & Hw' & _).
  pose proof (gas_pos f Hf) as Hg0. unfold finish_op.
  assert (exists v m, match err with
    | Some _ => Ret (0, memory f)
    | None => let* m := mem_Set (Uint64 retOffset) (Uint64 retSize) ret (memory f) in Ret (1, m)
    end = Ret (v, m) /\ in_u256 v /\ mem_ok m k) as (v & m & -> & Hv & Hm).
  { destruct err; [eexists _, _; split; [done|]; split; [auto with evm|done]|].
    destruct (mem_Set_ok retOffset retSize ret (memory f) k) as (m & -> & Hm); [done..|].
    eexists _, _. split; [done|]. split; [unfold in_u256; lia|done]. }
  cbn [obind]. eexists. split; [done|]. change (Gas (contract f)) with (gas_of f).
  unfold GasCap in Hcap. rewrite u64_small by lia.
  split_and!; [done|done| | |].
  - destruct Hf. split; cbn; try done; [by apply add_gas_ok; [|unfold in_u64; lia]|by constructor|rewrite zlen_cons; lia|eauto].
  - change (gas_of (set_contract ?x _)) with (Gas x). cbn. lia.
  - cbn. destruct Hk as [_ -> _], Hm as [_ -> _]. done.
Qed.

Lemma BigMax_le x y z : BigMax x y <= z -> x <= z /\ y <= z.
Proof. unfold BigMax. destruct (Z.ltb_spec x y); lia. Qed.

(** The gas passed to a call with a value: what is on the stack, and the stipend. *)
Lemma stipend_gas g v a tl r :
  in_u256 v -> Lcall stip_value r (g :: a :: v :: tl) -> r < GasCap ->
  let gas := if negb (Sign (U256 v) =? 0) then u64 (Uint64 g + CallStipend) else Uint64 g in
  0 <= gas <= r.
Proof.
  intros Hv (cg & tl' & [= <- <-] & Hg & Hle) Hr. rewrite stip_value_cons in Hle. unfold in_u64 in Hg.
  rewrite U256_small, Uint64_small by done. unfold CallStipend, GasCap in *.
  destruct (Sign v =? 0); cbn; [lia|]. rewrite u64_small by lia. lia.
Qed.

Lemma opCall_ok o :
  op_pop o = 7 -> op_push o = 1 -> halts o = false -> memorySize o = Some memoryCall -> execute o = opCall ->
  exec_ok env n o (Lcall stip_value).
Proof.
  intros Ep Eu Eh Em He. exec_intro. specialize (Hn Eh). rewrite He. rewrite Ep, Eu, Em in *.
  destruct (stk7 _ Hp) as (g & a & v & i & j & ro & rs & st & Es). top Es.
  destruct (Hm _ eq_refl) as (sz & E & Hsz). rewrite Es in E. cbn -[calcMemSize] in E. injection E as <-.
  apply BigMax_le in Hsz as [H1 H2]. apply calcMemSize_covers in H1, H2; [|assumption..].
  destruct (fo_mem f Hf) as [k Hk]. unfold opCall. rewrite Es in *. rewrite !zlen_cons in *.
  destruct (mem_Get_ok i j (memory f) k) as (d & -> & Hd & _); [done..|]. cbn [obind].
  pose proof (gas_pos f Hf) as Hg0.
  pose proof (stipend_gas g v a _ r ltac:(done) HL ltac:(lia)) as Hgas. cbv zeta in Hgas |- *.
  set (gas := if negb _ then _ else _) in *.
  destruct (Call_ok n Run env (ContractOf (contract f)) gas (U256 v) w HR (fo_contract f Hf) (U256_range v))
    with (addr := BigToAddress a) (input := d) as (cr & -> & Hcr);
    [lia|lia|done|apply BytesToAddress_range|lia|].
  cbn [obind]. eapply finish_op_ok; [done|done|done|lia|done|lia|lia].
Qed.
Lemma opCallCode_ok o :
  op_pop o = 7 -> op_push o = 1 -> halts o = false -> memorySize o = Some memoryCall -> execute o = opCallCode ->
  exec_ok env n o (Lcall stip_value).
Proof.
  intros Ep Eu Eh Em He. exec_intro. specialize (Hn Eh). rewrite He. rewrite Ep, Eu, Em in *.
  destruct (stk7 _ Hp) as (g & a & v & i & j & ro & rs & st & Es). top Es.
  destruct (Hm _ eq_refl) as (sz & E & Hsz). rewrite Es in E. cbn -[calcMemSize] in E. injection E as <-.
  apply BigMax_le in Hsz as [H1 H2]. apply calcMemSize_covers in H1, H2; [|assumption..].
  destruct (fo_mem f Hf) as [k Hk]. unfold opCallCode. rewrite Es in *. rewrite !zlen_cons in *.
  destruct (mem_Get_ok i j (memory f) k) as (d & -> & Hd & _); [done..|]. cbn [obind].
  pose proof (gas_pos f Hf) as Hg0.
  pose proof (stipend_gas g v a _ r ltac:(done) HL ltac:(lia)) as Hgas. cbv zeta in Hgas |- *.
  set (gas := if negb _ then _ else _) in *.
  destruct (CallCode_ok n Run env (ContractOf (contract f)) gas (U256 v) w HR (fo_contract f Hf) (U256_range v))
    with (addr := BigToAddress a) (input := d) as (cr & -> & Hcr); [lia|lia|done|lia|].
  cbn [obind]. eapply finish_op_ok; [done|done|done|lia|done|lia|lia].
Qed.
Lemma opDelegateCall_ok o :
  op_pop o = 6 -> op_push o = 1 -> halts o = false -> memorySize o = Some memoryDelegateCall -> execute o = opDelegateCall ->
  exec_ok env n o (Lcall stip_none).
Proof.
  intros Ep Eu Eh Em He. exec_intro. specialize (Hn Eh). rewrite He. rewrite Ep, Eu, Em in *.
  destruct (stk6 _ Hp) as (g & a & i & j & ro & rs & st & Es). top Es.
  destruct (Hm _ eq_refl) as (sz & E & Hsz). rewrite Es in E. cbn -[calcMemSize] in E. injection E as <-.
  apply BigMax_le in Hsz as [H1 H2]. apply calcMemSize_covers in H1, H2; [|assumption..].
  destruct (fo_mem f Hf) as [k Hk]. unfold opDelegateCall. rewrite Es in *. rewrite !zlen_cons in *.
  destruct (mem_Get_ok i j (memory f) k) as (d & -> & Hd & _); [done..|]. cbn [obind].
  pose proof (gas_pos f Hf) as Hg0. destruct HL as (cg & tl & [= <- <-] & Hcg & Hle). unfold stip_none in Hle.
  rewrite Uint64_small by done. unfold in_u64 in Hcg.
  destruct (DelegateCall_ok n Run env (contract f) (BigToAddress a) d g w) as (cr & -> & Hcr);
    [done|apply Hf|lia|lia|done|lia|].
  cbn [obind]. eapply finish_op_ok; [done|done|done|lia|done|lia|lia].
Qed.

Lemma system_ok : ops_ok systemInstructions.
Proof.
  unfold systemInstructions. repeat apply Forall_cons_2; [..|constructor]; cbn [snd].
  - apply op_mem; [mem_fun stk3|by apply (gas_ok_plus _ CreateGas)|by apply opCreate_ok].
  - split; [mem_fun stk7|]. exists (Lcall stip_value). split; [by apply gasCall_ok|by apply opCall_ok].
  - split; [mem_fun stk7|]. exists (Lcall stip_value). split; [by apply gasCallCode_ok|by apply opCallCode_ok].
  - apply op_mem; [mem_fun stk2|by apply gas_ok_return|by apply opReturn_ok].
  - apply op_flat; [by apply gasSuicide_ok|done|by apply opSuicide_ok].
Qed.

Lemma table_ok : ops_ok (JumpTable env).
Proof.
  assert (ops_ok frontierInstructionSet) as Hf.
  { unfold frontierInstructionSet. rewrite !Forall_app.
    eauto 10 using arithmetic_ok, environment_ok, storage_ok, log_ok, system_ok, push_ok, dup_ok, swap_ok. }
  unfold JumpTable. destruct (homestead env); [|done]. apply Forall_cons_2; [|done]. cbn [snd].
  split; [mem_fun stk6|]. exists (Lcall stip_none). split; [by apply gasDelegateCall_ok|by apply opDelegateCall_ok].
Qed.
Lemma table_lookup_ok op o : table_lookup op (JumpTable env) = Some o -> op_ok env n o.
Proof.
  generalize table_ok. induction (JumpTable env) as [|[i o'] t IH]; cbn; [done|].
  intros [Ho Ht]%Forall_cons. case_match; [by intros [= <-]|by apply IH].
Qed.

End ops.
End VmOps.
