(* ===== verification/VmRun.v ===== *)
(** * The interpreter terminates and is safe

    One iteration of the main loop of [Interpreter.Run], the loop, and the run as a whole, from
    the obligations of VmOps.v: a run with less gas than its fuel, on less than [GasCap] gas,
    returns, and its result satisfies [run_post]. *)

From S2P Require Import Prelude GoMath Params World WorldFacts Rlp VmBase Vm VmFacts VmJump VmSafe.
From S2P Require Import VmCalls VmOps.

Module VmRun.
Import Vm VmFacts VmJump WorldFacts VmSafe VmCalls VmOps.
Section run.
Context `{C : CryptoPrims} `{CO : !CryptoOK} {S : Type} `{SI : StateDBI S} `{SP : !StateDBSpec S}.
Context (env : Env) (Henv : env_ok env).
#[local] Notation W := (W (S:=S)).
#[local] Notation operation := (operation (S:=S)).
#[local] Notation step_res := (step_res (S:=S)).

(** The memory size of an operation is a number of words that covers what it asks for. *)
Lemma mem_size_ok (o : operation) st :
  mem_fun_ok o -> Forall in_u256 st -> op_pop o <= zlen st ->
  mem_size o st = Ret None \/ exists s, mem_size o st = Ret (Some (32 * s)) /\ 0 <= s /\ 32 * s < 2 ^ 64 /\
    (memorySize o = None -> s = 0) /\
    (forall g, memorySize o = Some g -> exists sz, g st = Ret sz /\ sz <= 32 * s).
Proof.
  intros Hm Hst Hp. unfold mem_size. destruct (memorySize o) as [g|] eqn:Eg.
  2:{ right. exists 0. split_and!; done || lia. }
  destruct (Hm g st Eg Hst Hp) as (sz & E & Hsz). rewrite E. cbn [obind].
  unfold bigUint64. rewrite BitLen_64 by done. destruct (Z.ltb_spec sz (2 ^ 64)) as [Hlt|]; [|by left]. cbn [negb].
  rewrite Uint64_small, toWordSize_spec by lia. pose proof (word_bounds sz Hsz) as Hb.
  rewrite SafeMul_spec by (unfold in_u64; lia).
  destruct (Z.ltb_spec ((sz + 31) / 32 * 32) (2 ^ 64)); cbn [negb]; [|by left].
  right. exists ((sz + 31) / 32). rewrite u64_small by lia. rewrite Z.mul_comm.
  split_and!; try done; [lia|lia|]. intros g' [= <-]. exists sz. split; [done|lia].
Qed.

(** The frame with which the operation is executed: [f1] charged, with its memory grown. *)
Lemma grown_ok (o : operation) f f1 s c r :
  frame_ok f -> charged o f f1 s c r -> 0 <= s -> c <= gas_of f ->
  let f2 := set_contract (set_gas (gas_of f - c) (contract f1)) f1 in
  let f3 := if 32 * s >? 0 then set_memory (mem_Resize (32 * s) (memory f2)) f2 else f2 in
  frame_ok f3 /\ stack f3 = stack f1 /\ pc f3 = pc f /\ Code (contract f3) = Code (contract f) /\
  gas_of f3 = gas_of f - c /\ 32 * s <= zlen (store (memory f3)) /\
  exists k, mem_ok (memory f) k /\ lastGasCost (memory f3) = fee (Z.max k s) /\
    fee (Z.max k s) - fee k + r + (if halts o then 0 else 1) <= c.
Proof.
  intros Hf [Hpos Hpc Hct Hst [Hin Hlen] _ Hfee] Hs Hle f2 f3. destruct (fo_mem f Hf) as [k Hk].
  destruct (Hfee k Hk) as (Hmax & Hlast & Hcost).
  assert (mem_ok (memory f3) (Z.max k s)) as Hm.
  { destruct Hk as [Hl _ Hk]. rewrite <- Hst in Hl.
    pose proof (mem_Resize_ok (memory f1) k s Hl Hk Hs Hmax Hlast) as Hr. unfold f3.
    by destruct (32 * s >? 0). }
  assert (stack f3 = stack f1 /\ pc f3 = pc f1 /\ contract f3 = contract f2) as (E1 & E2 & E3)
    by (unfold f3; by destruct (32 * s >? 0)).
  destruct Hf as [Hcok Hpcr Hstk Hl _]. split_and!.
  - split; rewrite ?E1, ?E2, ?E3.
    + cbn. rewrite Hct. destruct Hcok as [Hg]. unfold in_u64, gas_of in *. split; cbn; try done; unfold in_u64; lia.
    + by rewrite Hpc.
    + done.
    + unfold zlen in *. lia.
    + eauto.
  - done.
  - congruence.
  - rewrite E3. cbn. by rewrite Hct.
  - unfold gas_of at 1. by rewrite E3.
  - destruct Hm as [Hl' _ _]. lia.
  - exists k. split_and!; [done|by destruct Hm|done].
Qed.

Definition step_post (f : Frame) (w : W) (x : step_res) : Prop :=
  match x with
  | Done r => run_post (gas_of f) w r
  | Continue f' w' =>
      frame_ok f' /\ W_post w w' /\ gas_of f' < gas_of f /\ budget f' < budget f
  end.

(** Past the end of the code the opcode is [STOP]. *)
Lemma op_in_code f (o : operation) :
  table_lookup (GetOp (contract f) (pc f)) (JumpTable env) = Some o -> halts o = false ->
  pc f < zlen (Code (contract f)).
Proof.
  unfold GetOp, GetByte. destruct (Z.ltb_spec (pc f) (zlen (Code (contract f)))); [done|].
  unfold JumpTable. destruct (homestead env); cbn; by intros [= <-].
Qed.
Lemma validateStack_ok (o : operation) st :
  validateStack o st = None -> op_pop o <= zlen st /\ zlen st + op_push o - op_pop o <= StackLimit.
Proof.
  unfold validateStack, makeStackFunc, require. destruct (Z.ltb_spec (zlen st) (op_pop o)); [done|].
  rewrite Z.gtb_ltb. destruct (Z.ltb_spec StackLimit (zlen st + op_push o - op_pop o)); [done|]. by split.
Qed.

(** Charging: out of gas, or a charged frame. *)
Lemma charge_ok (o : operation) L f (w : W) s :
  gas_ok env o L -> frame_ok f -> W_ok w -> op_pop o <= zlen (stack f) -> 0 <= s -> 32 * s < 2 ^ 64 ->
  budget f < GasCap -> (memorySize o = None -> s = 0) ->
  (exists w1, charge env o f w (32 * s) = Ret (None, w1) /\ W_post w w1) \/
  (exists f1 c r w1,
     charge env o f w (32 * s) = Ret (Some (set_contract (set_gas (gas_of f - c) (contract f1)) f1, w1), w1) /\
     W_post w w1 /\ c <= gas_of f /\ charged o f f1 s c r /\ L r (stack f1)).
Proof.
  intros Hgo Hf Hw Hp Hs Hs64 Hb Hnone. unfold charge. rewrite (eo_metering env Henv).
  destruct (Hgo f w s Hf Hw Hp Hs Hs64 Hb Hnone) as (cost & f1 & w1 & -> & Hw1 & Ect & Hc). cbn [obind].
  destruct cost as [c|]; [|left; eauto].
  unfold UseGas. rewrite Ect. change (Gas (contract f)) with (gas_of f).
  destruct (Z.ltb_spec (gas_of f) c) as [Hlt|Hle]; [left; eauto|].
  right. destruct (Hc c eq_refl Hle) as (r & Hch & HL). exists f1, c, r, w1.
  pose proof (ch_pos _ _ _ _ _ _ Hch). pose proof (co_gas _ (fo_contract f Hf)) as Hg. unfold in_u64 in Hg.
  rewrite u64_small by (unfold gas_of in *; lia). rewrite Ect. by split_and!.
Qed.

(** What executing a charged operation leaves. *)
Lemma exec_step n (o : operation) L Run f f1 s c r (w w1 : W) :
  exec_ok env n o L -> Run_ok n Run -> frame_ok f -> W_post w w1 -> budget f < GasCap ->
  (Z.to_nat (gas_of f) <= n)%nat -> 0 <= s -> c <= gas_of f -> charged o f f1 s c r -> L r (stack f1) ->
  op_pop o <= zlen (stack f) -> zlen (stack f) + op_push o - op_pop o <= StackLimit ->
  (forall g, memorySize o = Some g -> exists sz, g (stack f) = Ret sz /\ sz <= 32 * s) ->
  (halts o = false -> pc f < zlen (Code (contract f))) ->
  let f2 := set_contract (set_gas (gas_of f - c) (contract f1)) f1 in
  let f3 := if 32 * s >? 0 then set_memory (mem_Resize (32 * s) (memory f2)) f2 else f2 in
  exists x, execute o Run env f3 w1 = Ret x /\
    match x with
    | XErr e f' w' => W_post w w' /\ 0 <= gas_of f' <= gas_of f
    | XOk res f' w' => W_post w w' /\ zlen res < 2 ^ 63 /\ frame_ok f' /\
        gas_of f' + (if halts o then 0 else 1) <= gas_of f /\
        budget f' + (if halts o then 0 else 1) <= budget f
    end.
Proof.
  intros He HR Hf Hw1 Hb Hn Hs Hle Hch HL Hp Hl Hsz Hpc f2 f3.
  destruct (grown_ok o f f1 s c r Hf Hch Hs Hle) as (Hf3 & Est & Epc & Ecode & Eg & Hcov & k & Hk & Hlast & Hcost).
  fold f2 in Hf3, Est, Epc, Ecode, Eg, Hcov, Hlast. fold f3 in Hf3, Est, Epc, Ecode, Eg, Hcov, Hlast.
  destruct (ch_stack _ _ _ _ _ _ Hch) as [_ Hlen]. destruct (ch_pos _ _ _ _ _ _ Hch) as [Hc0 Hr0].
  assert (zlen (stack f3) = zlen (stack f)) as Ez by (unfold zlen; by rewrite Est, Hlen).
  pose proof (fee_mono k (Z.max k s) ltac:(destruct Hk; lia)) as Hmono.
  pose proof (fee_nonneg k ltac:(destruct Hk; lia)) as Hk0. pose proof (gas_pos f Hf) as Hg0.
  pose proof (frame_fee f k Hf Hk) as Hbud.
  destruct (He Run f3 w1 r) as (x & E & Hx); auto.
  - apply Hw1.
  - by rewrite Ez.
  - by rewrite Ez.
  - intros g Hg. rewrite Est, (ch_size _ _ _ _ _ _ Hch g Hg). destruct (Hsz g Hg) as (sz & ? & ?).
    exists sz. split; [done|lia].
  - by rewrite Est.
  - rewrite Eg. destruct (halts o); lia.
  - intros Hh. rewrite Hh in Hcost. rewrite Eg. lia.
  - rewrite Epc, Ecode. done.
  - exists x. split; [exact E|]. destruct x as [res f' w'|e f' w'].
    + destruct Hx as (Hw' & Hres & Hf' & Hgas & Hlast'). unfold budget in *.
      split_and!; [by eapply W_post_trans|done|done|lia|]. rewrite Hlast', Hlast, Hbud. lia.
    + destruct Hx as [Hw' Hg]. split; [by eapply W_post_trans|]. destruct (halts o); lia.
Qed.

Lemma step_ok n Run f (w : W) :
  Run_ok n Run -> frame_ok f -> W_ok w -> budget f < GasCap -> (Z.to_nat (gas_of f) <= n)%nat ->
  exists x, step Run env f w = Ret x /\ step_post f w x.
Proof.
  intros HR Hf Hw Hb Hn. pose proof (gas_pos f Hf) as Hg0. pose proof (tick_post w Hw) as Ht.
  assert (forall e (w' : W), W_post w w' -> step_post f w (Done ([], e, contract f, w'))) as Hfail.
  { intros e w' Hw'. split_and!; [exact Hg0|reflexivity|done|done]. }
  unfold step. destruct (abort env (ticks w)); [eexists; split; [done|by apply Hfail]|].
  destruct (table_lookup _ (JumpTable env)) as [o|] eqn:Eo; [|eexists; split; [done|by apply Hfail]].
  destruct (validateStack o (stack f)) eqn:Ev; [eexists; split; [done|by apply Hfail]|].
  apply validateStack_ok in Ev as [Hp Hl].
  destruct (table_lookup_ok env n Henv _ _ Eo) as (Hm & L & Hgo & Hex).
  destruct (mem_size_ok o (stack f) Hm (fo_stack f Hf) Hp) as [->|(s & -> & Hs & Hs64 & Hnone & Hsz)];
    cbn [obind]; [eexists; split; [done|by apply Hfail]|].
  destruct (charge_ok o L f (tick w) s Hgo Hf (wp_ok _ _ Ht) Hp Hs Hs64 Hb Hnone)
    as [(w1 & -> & Hw1)|(f1 & c & r & w1 & -> & Hw1 & Hle & Hch & HL)]; cbn [obind].
  { eexists. split; [done|]. apply Hfail. by eapply W_post_trans. }
  assert (W_post w w1) as Hw01 by (by eapply W_post_trans).
  destruct (exec_step n o L Run f f1 s c r w w1 Hex HR Hf Hw01 Hb Hn Hs Hle Hch HL Hp Hl Hsz
    (op_in_code f o Eo)) as (x & -> & Hx). cbn [obind].
  destruct x as [res f' w'|e f' w'].
  2:{ eexists. split; [done|]. destruct Hx as [Hw' [Hgp Hgl]]. by split_and!. }
  destruct Hx as (Hw' & Hres & Hf' & Hgas & Hbud). pose proof (gas_pos f' Hf').
  destruct (halts o).
  { eexists. split; [done|]. split_and!; [done|change (Gas (contract f')) with (gas_of f'); lia|done|done]. }
  destruct (jumps o); (eexists; split; [done|]); split_and!; try done; try lia.
  - apply set_pc_ok; [done|apply u64_range].
  - change (gas_of (set_pc _ f')) with (gas_of f'). lia.
  - change (budget (set_pc _ f')) with (budget f'). lia.
Qed.

(** The loop, and the run. *)
Lemma run_with_ok n loop :
  (forall f (w : W), frame_ok f -> W_ok w -> budget f < GasCap -> (Z.to_nat (gas_of f) < n)%nat ->
     exists r, loop f w = Ret r /\ run_post (gas_of f) w r) ->
  Run_ok n (run_with loop).
Proof.
  intros Hloop c input w Hc Hg Hn Hi Hw Hd. unfold run_with, CallCreateDepth in *.
  assert (W_ok (upd_depth (fun d => d + 1) w)) as Hw1.
  { destruct Hw. split; try done. cbn. lia. }
  assert (forall w', W_post (upd_depth (fun d => d + 1) w) w' -> W_post w (upd_depth (fun d => d - 1) w')) as Hdown.
  { intros w' [[? ? ? Hd'] ? Ed ?]. cbn in Ed. destruct Hw as [? ? ? Hdw].
    split; [split|..]; try done; cbn; lia. }
  pose proof (co_gas c Hc) as Hgc. unfold in_u64 in Hgc.
  destruct (Code c) as [|b code] eqn:Ec.
  { eexists. split; [done|]. split_and!; try (done || lia). by apply Hdown, W_post_refl. }
  destruct (Hloop (mkFrame 0 (set_input input c) NewMemory []) (upd_depth (fun d => d + 1) w))
    as (r & -> & Hr); [| done| | |].
  - split; cbn; try done.
    + destruct Hc. by split.
    + by exists 0.
  - unfold budget, gas_of; cbn. lia.
  - done.
  - destruct r as [[[ret err] c'] w']. cbn [obind]. eexists. split; [done|].
    destruct Hr as (Hgr & ? & Hw').
    change (0 <= Gas c' <= Gas c) in Hgr. split_and!; try (done || lia). by apply Hdown.
Qed.

Lemma loop_ok fuel : forall f (w : W),
  frame_ok f -> W_ok w -> budget f < GasCap -> (Z.to_nat (gas_of f) < fuel)%nat ->
  exists r, loop fuel env f w = Ret r /\ run_post (gas_of f) w r.
Proof.
  induction fuel as [|fuel IH]; intros f w Hf Hw Hb Hn; [lia|]. cbn [loop].
  destruct (step_ok fuel (run_with (loop fuel env)) f w) as (x & -> & Hx); try done; [by apply run_with_ok|lia|].
  cbn [obind]. destruct x as [r|f' w']; [by exists r|]. destruct Hx as (Hf' & Hw' & Hg & Hb').
  pose proof (gas_pos f' Hf').
  destruct (IH f' w') as (r & -> & Hr); [done|apply Hw'|lia|lia|]. exists r. split; [done|].
  destruct r as [[[ret err] c] w'']. destruct Hr as ([? ?] & ? & ?).
  split_and!; [done|lia|done|by eapply W_post_trans].
Qed.

Lemma Run_safe fuel : Run_ok fuel (Run fuel env).
Proof. apply run_with_ok, loop_ok. Qed.

End run.
End VmRun.
