(* ===== verification/VmFuel.v ===== *)
(** * The fuel of the interpreter does not matter

    A run that returns returns the same with more fuel: every instruction, call and iteration is
    monotone in the interpreter it runs nested contracts with. *)

From S2P Require Import Prelude GoMath Params World Rlp VmBase Vm.

Module VmFuel.
Import Vm.
Section fuel.
Context `{C : CryptoPrims} {S : Type} `{SI : StateDBI S}.
#[local] Notation RunFn := (RunFn (S:=S)).
#[local] Notation operation := (operation (S:=S)).

(** [x] is undefined, or equal to [y]. *)
Definition o_le {A} (x y : outcome A) : Prop := forall r, x = Ret r -> y = Ret r.
Definition run_le (R R' : RunFn) : Prop := forall c input w, o_le (R c input w) (R' c input w).

Lemma o_le_refl {A} (x : outcome A) : o_le x x.
Proof. by intros r. Qed.
Lemma o_le_bind {A B} (x y : outcome A) (k k' : A -> outcome B) :
  o_le x y -> (forall a, o_le (k a) (k' a)) -> o_le (obind x k) (obind y k').
Proof.
  intros Hx Hk r. destruct x as [a| |]; cbn; try done. rewrite (Hx a eq_refl). cbn. apply Hk.
Qed.

(** Strip what two computations have in common. *)
Ltac o_step :=
  match goal with
  | |- o_le ?x ?x => apply o_le_refl
  | |- o_le (obind ?x _) (obind ?x _) => apply o_le_bind; [apply o_le_refl|intros ?]
  | H : run_le ?R ?R' |- o_le (?R _ _ _) (?R' _ _ _) => apply H
  | |- o_le (let '(_, _) := ?x in _) _ => destruct x
  | |- o_le (match ?x with _ => _ end) (match ?x with _ => _ end) => destruct x
  end.

Section mono.
Context (R R' : RunFn) (HR : run_le R R') (env : Env).

Lemma run_mono c input w : o_le (run R c input w) (run R' c input w).
Proof. unfold run. repeat o_step. Qed.
Lemma Call_mono caller addr input gas v w :
  o_le (Call R env caller addr input gas v w) (Call R' env caller addr input gas v w).
Proof. unfold Call. repeat o_step. apply o_le_bind; [apply run_mono|intros; apply o_le_refl]. Qed.
Lemma CallCode_mono caller addr input gas v w :
  o_le (CallCode R env caller addr input gas v w) (CallCode R' env caller addr input gas v w).
Proof. unfold CallCode. repeat o_step. apply o_le_bind; [apply run_mono|intros; apply o_le_refl]. Qed.
Lemma DelegateCall_mono caller addr input gas w :
  o_le (EvmDelegateCall R env caller addr input gas w) (EvmDelegateCall R' env caller addr input gas w).
Proof. unfold EvmDelegateCall. repeat o_step. apply o_le_bind; [apply run_mono|intros; apply o_le_refl]. Qed.
Lemma Create_mono caller code gas v w :
  o_le (Create R env caller code gas v w) (Create R' env caller code gas v w).
Proof. unfold Create. repeat o_step. apply o_le_bind; [apply run_mono|intros; apply o_le_refl]. Qed.

Definition op_mono (o : operation) : Prop := forall f w, o_le (execute o R env f w) (execute o R' env f w).
#[local] Notation ops_mono := (Forall (fun p : OpCode * operation => op_mono p.2)).

Lemma op_const_mono o : execute o R = execute o R' -> op_mono o.
Proof. intros E f w. rewrite E. apply o_le_refl. Qed.
Lemma opCreate_mono f w : o_le (opCreate R env f w) (opCreate R' env f w).
Proof. unfold opCreate. repeat o_step. apply o_le_bind; [apply Create_mono|intros; apply o_le_refl]. Qed.
Lemma opCall_mono f w : o_le (opCall R env f w) (opCall R' env f w).
Proof. unfold opCall. repeat o_step. apply o_le_bind; [apply Call_mono|intros; apply o_le_refl]. Qed.
Lemma opCallCode_mono f w : o_le (opCallCode R env f w) (opCallCode R' env f w).
Proof. unfold opCallCode. repeat o_step. apply o_le_bind; [apply CallCode_mono|intros; apply o_le_refl]. Qed.
Lemma opDelegateCall_mono f w : o_le (opDelegateCall R env f w) (opDelegateCall R' env f w).
Proof. unfold opDelegateCall. repeat o_step. apply o_le_bind; [apply DelegateCall_mono|intros; apply o_le_refl]. Qed.

Lemma table_mono : ops_mono (JumpTable env).
Proof.
  assert (ops_mono frontierInstructionSet) as Hf.
  { unfold frontierInstructionSet. rewrite !Forall_app. split_and!.
    - repeat apply Forall_cons_2; [..|constructor]; by apply op_const_mono.
    - repeat apply Forall_cons_2; [..|constructor]; by apply op_const_mono.
    - repeat apply Forall_cons_2; [..|constructor]; by apply op_const_mono.
    - repeat apply Forall_cons_2; [..|constructor]; by apply op_const_mono.
    - unfold systemInstructions. repeat apply Forall_cons_2; [..|constructor].
      + intros f w. apply opCreate_mono.
      + intros f w. apply opCall_mono.
      + intros f w. apply opCallCode_mono.
      + by apply op_const_mono.
      + by apply op_const_mono.
    - unfold pushInstructions. apply Forall_map, Forall_map, Forall_seq. intros i _. by apply op_const_mono.
    - unfold dupInstructions. apply Forall_map, Forall_seq. intros i _. by apply op_const_mono.
    - unfold swapInstructions. apply Forall_map, Forall_seq. intros i _. by apply op_const_mono. }
  unfold JumpTable. destruct (homestead env); [|done]. apply Forall_cons_2; [|done].
  intros f w. apply opDelegateCall_mono.
Qed.
Lemma table_lookup_mono op o : table_lookup op (JumpTable env) = Some o -> op_mono o.
Proof.
  generalize table_mono. induction (JumpTable env) as [|[i o'] t IH]; cbn; [done|].
  intros [Ho Ht]%Forall_cons. case_match; [by intros [= <-]|by apply IH].
Qed.

Lemma step_mono f w : o_le (step R env f w) (step R' env f w).
Proof.
  unfold step. destruct (abort env (ticks w)); [apply o_le_refl|].
  destruct (table_lookup _ (JumpTable env)) as [o|] eqn:E; [|apply o_le_refl].
  destruct (validateStack o (stack f)); [apply o_le_refl|].
  apply o_le_bind; [apply o_le_refl|]. intros [size|]; [|apply o_le_refl].
  apply o_le_bind; [apply o_le_refl|]. intros [[[f' w']|] w'']; [|apply o_le_refl].
  apply o_le_bind; [by eapply table_lookup_mono|]. intros x. apply o_le_refl.
Qed.
End mono.

Lemma run_with_mono l l' :
  (forall f w, o_le (l f w) (l' f w)) -> run_le (run_with (S:=S) l) (run_with l').
Proof.
  intros Hl c input w. unfold run_with. destruct (Code c); [apply o_le_refl|].
  apply o_le_bind; [apply Hl|]. intros; apply o_le_refl.
Qed.
Lemma loop_S env fuel : forall f w, o_le (loop fuel env f w) (loop (Datatypes.S fuel) env f w).
Proof.
  induction fuel as [|fuel IH]; intros f w; [done|]. cbn [loop].
  apply o_le_bind; [apply step_mono, run_with_mono, IH|]. intros [r|f' w']; [apply o_le_refl|apply IH].
Qed.
Lemma loop_mono env fuel k f w : o_le (loop fuel env f w) (loop (k + fuel) env f w).
Proof. induction k as [|k IH]; intros r Hr; [done|]. by apply loop_S, IH. Qed.
Lemma Run_mono env fuel fuel' :
  (fuel <= fuel')%nat -> run_le (Run fuel env) (Run fuel' env).
Proof.
  intros H. replace fuel' with ((fuel' - fuel) + fuel)%nat by lia. apply run_with_mono. intros. apply loop_mono.
Qed.
End fuel.
End VmFuel.
