(* ===== verification/StateThms.v ===== *)
(** * Theorems about the state database

    Sequences of operations on [State.StateDB], with nested snapshots, as a step relation; the
    refinement of the abstract world; the effect of reverting; flushing to the trie; and two
    behaviours of [journal.go] that the code's comments do not announce. *)

From S2P Require Import Prelude GoMath World State StateProofs Ideal.

Module StateThms.
Import State StateProofs.

(** ** Operations as data *)

Inductive op :=
| OpCreateAccount (a : Address)
| OpAddBalance (a : Address) (v : Z)
| OpSubBalance (a : Address) (v : Z)
| OpSetNonce (a : Address) (n : Z)
| OpSetCode (a : Address) (c : list byte)
| OpSetState (a : Address) (k v : Hash)
| OpSuicide (a : Address)
| OpAddRefund (g : Z)
| OpAddLog (l : Log)
| OpAddPreimage (h : Hash) (d : list byte)
| OpGetCode (a : Address)
| OpGetCodeSize (a : Address)
| OpGetState (a : Address) (k : Hash)
| OpExist (a : Address).

Section thms.
Context `{C : CryptoPrims}.

Definition exec (o : op) (s : StateDB) : StateDB :=
  match o with
  | OpCreateAccount a => CreateAccount a s
  | OpAddBalance a v => AddBalance a v s
  | OpSubBalance a v => SubBalance a v s
  | OpSetNonce a n => SetNonce a n s
  | OpSetCode a c => SetCode a c s
  | OpSetState a k v => SetState a k v s
  | OpSuicide a => (Suicide a s).2
  | OpAddRefund g => AddRefund g s
  | OpAddLog l => AddLog l s
  | OpAddPreimage h d => AddPreimage h d s
  | OpGetCode a => (GetCode a s).2
  | OpGetCodeSize a => (GetCodeSize a s).2
  | OpGetState a k => (GetState a k s).2
  | OpExist a => (Exist a s).2
  end.

Definition w_exec (o : op) (w : world) : world :=
  match o with
  | OpCreateAccount a => w_create a w
  | OpAddBalance a v => w_add_balance a v w
  | OpSubBalance a v => w_sub_balance a v w
  | OpSetNonce a n => w_set_nonce a n w
  | OpSetCode a c => w_set_code a c w
  | OpSetState a k v => w_set_state a k v w
  | OpSuicide a => w_suicide a w
  | OpAddRefund g => w_add_refund g w
  | OpAddLog l => w_add_log l w
  | OpAddPreimage h d => w_add_preimage h d w
  | OpGetCode _ | OpGetCodeSize _ | OpGetState _ _ | OpExist _ => w
  end.

(** Executions with nested snapshots and reverts, each revert to a snapshot taken within. *)
Inductive run : StateDB -> StateDB -> Prop :=
| run_done s : run s s
| run_op o s s' : run (exec o s) s' -> run s s'
| run_snapshot s s' : run (Snapshot s).2 s' -> run s s'
| run_reverted s s2 s3 s' :
    run (Snapshot s).2 s2 -> RevertToSnapshot (Snapshot s).1 s2 = Some s3 -> run s3 s' -> run s s'.

Lemma exec_upd `{!CryptoOK} o : upd_ok wf abs later (exec o) (w_exec o).
Proof.
  destruct o; [exact (CreateAccount_upd _)|exact (AddBalance_upd _ _)|exact (SubBalance_upd _ _)|
    exact (SetNonce_upd _ _)|exact (SetCode_upd _ _)|exact (SetState_upd _ _ _)|exact (Suicide_upd _)|
    exact (AddRefund_upd _)|exact (AddLog_upd _)|exact (AddPreimage_upd _ _)|..].
  - intros s Hwf. apply (GetCode_get a s Hwf).
  - intros s Hwf. apply (GetCodeSize_get a s Hwf).
  - intros s Hwf. apply (GetState_get a k s Hwf).
  - intros s Hwf. apply (Exist_get a s Hwf).
Qed.

Lemma run_ok `{!CryptoOK} s s' : run s s' -> wf s -> wf s' /\ later s s'.
Proof.
  induction 1 as [s|o s s' _ IH|s s' _ IH|s s2 s3 s' _ IH1 E _ IH2]; intros Hwf.
  - split; [done|apply later_refl].
  - destruct (exec_upd o s Hwf) as (H1 & _ & H2). destruct (IH H1) as [H3 H4].
    split; [done|by eapply later_trans].
  - destruct (Snapshot_state s Hwf) as (H1 & _ & H2). destruct (IH H1) as [H3 H4].
    split; [done|by eapply later_trans].
  - destruct (Snapshot_state s Hwf) as (H1 & _ & _). destruct (IH1 H1) as [H2 H3].
    destruct (Revert_state s s2 Hwf H2 H3) as (s3' & E' & H4 & _ & H5).
    change (Snapshot s).1 with (nextRevisionId s) in E. rewrite E in E'. injection E' as <-.
    destruct (IH2 H4) as [H6 H7]. split; [done|by eapply later_trans].
Qed.

Lemma wf_New dbm tr csc :
  (forall a d, tr !! a = Some d -> CodeHash d = Keccak256Hash (view_code dbm (newObject a d true))) ->
  (forall h n, csc !! h = Some n -> exists c, Keccak256Hash c = h /\ n = zlen c) ->
  wf (New dbm tr csc).
Proof.
  intros Htr Hcsc. split; [split; done|split; done|exact Hcsc|].
  intros a x. rewrite abs_lookup. cbn. destruct (tr !! a) as [d|] eqn:E; [|done].
  intros [= <-]. split; [exact (Htr a d E)|]. apply nz_idemp.
Qed.

Lemma wf_New_empty dbm : wf (New dbm ∅ ∅).
Proof. by apply wf_New. Qed.
End thms.

(** C6: Every operation of the state database that the virtual machine calls acts on the
    abstract world as its specification says, and keeps the database well formed. *)
Theorem exec_refines `{!CryptoPrims} `{!CryptoOK} (o : op) (s : StateDB) :
  wf s -> wf (exec o s) /\ abs (exec o s) = w_exec o (abs s).
Proof. intros Hwf. by destruct (exec_upd o s Hwf) as (H1 & H2 & _). Qed.

Lemma exec_refines_witness :
  wf (New ∅ ∅ ∅) /\ w_balance 7 (abs (exec (OpAddBalance 7 5) (New ∅ ∅ ∅))) = 5.
Proof.
  split; [apply wf_New_empty|].
  destruct (exec_refines (OpAddBalance 7 5) (New ∅ ∅ ∅)) as [_ ->]; [apply wf_New_empty|].
  vm_compute. reflexivity.
Defined.

(** The getters return what the abstract world holds; in particular the cached code size
    is the length of the account's code. *)
Theorem getters_refine `{!CryptoPrims} `{!CryptoOK} (a : Address) (k : Hash) (s : StateDB) :
  wf s ->
  (GetBalance a s).1 = w_balance a (abs s) /\ (GetNonce a s).1 = w_nonce a (abs s) /\
  (GetCodeHash a s).1 = w_codehash a (abs s) /\ (GetCode a s).1 = w_code a (abs s) /\
  (GetCodeSize a s).1 = zlen (w_code a (abs s)) /\ (GetState a k s).1 = w_state a k (abs s) /\
  (Exist a s).1 = w_exist a (abs s) /\ (Empty a s).1 = w_empty a (abs s) /\
  (HasSuicided a s).1 = w_suicided a (abs s) /\ (Suicide a s).1 = w_exist a (abs s) /\
  GetRefund s = w_refund (abs s).
Proof.
  intros Hwf. split_and!; [apply GetBalance_get|apply GetNonce_get|apply GetCodeHash_get|
    apply GetCode_get|apply (GetCodeSize_get a)|apply GetState_get|apply Exist_get|apply Empty_get|
    apply HasSuicided_get|apply Suicide_result|]; done.
Qed.

Lemma getters_refine_witness :
  wf (exec (OpSetCode 7 [Byte.x60; Byte.x00]) (New ∅ ∅ ∅)) /\
  (GetCodeSize 7 (exec (OpSetCode 7 [Byte.x60; Byte.x00]) (New ∅ ∅ ∅))).1
  = zlen (w_code 7 (abs (exec (OpSetCode 7 [Byte.x60; Byte.x00]) (New ∅ ∅ ∅)))).
Proof.
  assert (wf (exec (OpSetCode 7 [Byte.x60; Byte.x00]) (New ∅ ∅ ∅))) as H
    by (apply exec_upd, wf_New_empty).
  split; [exact H|]. exact (proj1 (proj2 (proj2 (proj2 (proj2 (getters_refine 7 0 _ H)))))).
Defined.

(** C3: [RevertToSnapshot] never panics on a snapshot taken earlier, whatever operations and
    nested snapshots and reverts ran in between, and it restores exactly the world in which
    the snapshot was taken. *)
Theorem revert_restores `{!CryptoPrims} `{!CryptoOK} (s s1 s2 : StateDB) (id : Z) :
  wf s -> Snapshot s = (id, s1) -> run s1 s2 ->
  exists s3, RevertToSnapshot id s2 = Some s3 /\ abs s3 = abs s /\ wf s3.
Proof.
  intros Hwf [= <- <-] Hrun. destruct (Snapshot_state s Hwf) as (H1 & _ & _).
  destruct (run_ok _ _ Hrun H1) as [H2 H3].
  destruct (Revert_state s s2 Hwf H2 H3) as (s3 & E & ? & ? & _). by exists s3.
Qed.

Lemma revert_restores_witness :
  let s := exec (OpAddBalance 7 5) (New ∅ ∅ ∅) in
  let s2 := exec (OpSuicide 7) (exec (OpSetState 7 1 2) (Snapshot s).2) in
  wf s /\ exists s3, RevertToSnapshot 0 s2 = Some s3 /\ abs s3 = abs s /\ wf s3.
Proof.
  cbn zeta. assert (wf (exec (OpAddBalance 7 5) (New ∅ ∅ ∅))) as H
    by (apply exec_upd, wf_New_empty).
  split; [exact H|]. eapply (revert_restores _ _ _ 0 H); [reflexivity|].
  apply (run_op (OpSetState 7 1 2)), (run_op (OpSuicide 7)), run_done.
Defined.

(** ** Two effects that reverting leaves behind *)

(** Writing the objects of other addresses keeps an account of the trie. *)
Lemma flush_others `{!CryptoPrims} (del : bool) (order : list Address) (s : StateDB) (a : Address) :
  (forall b o, stateObjects s !! b = Some o -> so_address o = b) -> a ∉ order -> Forall (fun b => is_Some (stateObjects s !! b)) order ->
  exists s', flush_objects del order s = Some s' /\ trie s' !! a = trie s !! a.
Proof.
  revert s. induction order as [|b order IH]; intros s Hs Ha Ho; [by exists s|]. apply not_elem_of_cons in Ha as [Hab Ha]. apply Forall_cons in Ho as [[o Eo] Ho].
  pose proof (Hs b o Eo) as Eb. cbn [flush_objects]. unfold flush_object. rewrite Eo.
  assert (forall o', so_address o' = b -> (forall c x, <[b := o']> (stateObjects s) !! c = Some x -> so_address x = c) /\
    Forall (fun c => is_Some (<[b := o']> (stateObjects s) !! c)) order) as Hins.
  { intros o' E'. split; [intros c x [[<- <-]|[_ Ex]]%lookup_insert_Some; [done|by apply Hs]|]. eapply Forall_impl; [exact Ho|]. intros c Hc. rewrite lookup_insert_is_Some'. by right. }
  destruct (_ || _).
  - destruct (Hins (so_upd_deleted true o) Eb) as [H1 H2]. destruct (IH (deleteStateObject o s)) as (s' & E & Et); [cbn; by rewrite Eb|done|cbn; by rewrite Eb|].
    exists s'. split; [done|]. rewrite Et. cbn. rewrite Eb. by apply lookup_delete_ne.
  - assert (so_address (updateRoot o) = b) as Eu by done. destruct (Hins _ Eu) as [H1 H2].
    destruct (IH (updateStateObject (updateRoot o) (setStateObject (updateRoot o) s))) as (s' & E & Et); [cbn; by rewrite Eb|done|cbn; by rewrite Eb|].
    exists s'. split; [done|]. rewrite Et. cbn. rewrite Eb. by apply lookup_insert_ne.
Qed.
(** The object of a touched empty account after the touch was reverted: it is live and not dirty, and its
    callback is spent. *)
Lemma touch_reverted `{!CryptoPrims} `{!CryptoOK} (s : StateDB) (a : Address) (d : Account) :
  wf s -> a <> ripemd -> stateObjects s !! a = None -> trie s !! a = Some d -> so_empty (newObject a d true) = true ->
  exists s2, RevertToSnapshot (Snapshot s).1 (AddBalance a 0 (Snapshot s).2) = Some s2 /\ trie s2 = trie s /\
    stateObjects s2 = <[a := newObject a d false]> (stateObjects s) /\ stateObjectsDirty s2 = stateObjectsDirty s ∖ {[a]}.
Proof.
  intros Hwf Hr Ho Ht He. destruct Hwf as [_ [_ S2 _] _ _].
  unfold AddBalance, on_object, GetOrNewStateObject, getStateObject. cbn [Snapshot fst snd upd_revisions stateObjects trie]. rewrite Ho, Ht. cbn [so_deleted newObject].
  unfold so_AddBalance. rewrite Z.eqb_refl. fold (newObject a d true). rewrite He.
  unfold RevertToSnapshot. cbn [touch append_journal upd_journal fire_onDirty so_onDirty newObject setStateObject upd_objects upd_dirty MarkStateObjectDirty upd_revisions validRevisions journal].
  rewrite sort_Search_rev; [|done|done|constructor]. rewrite lookup_app_r, Nat.sub_diag by done. cbn [lookup list_lookup rev_id rev_journalIndex].
  rewrite Z.eqb_refl, drop_app_length. cbn [negb]. eexists. split.
  { cbn. rewrite (proj2 (Z.eqb_neq a ripemd)) by done. unfold on_existing, getStateObject. cbn [setStateObject upd_objects stateObjects so_address so_upd_touched so_upd_onDirty newObject].
    rewrite lookup_insert_eq. cbn [so_deleted so_upd_touched so_upd_onDirty newObject]. reflexivity. }
  cbn. split_and!; [done|by rewrite !insert_insert_eq|set_solver].
Qed.

(** An amount added to an object with a spent callback does not mark it dirty. *)
Lemma AddBalance_spent `{!CryptoPrims} (s : StateDB) (a : Address) (d : Account) (amount : Z) (m : gmap Address stateObject) :
  stateObjects s = <[a := newObject a d false]> m -> amount <> 0 ->
  trie (AddBalance a amount s) = trie s /\ stateObjects (AddBalance a amount s) = <[a := newObject a (d_upd_balance (Balance d + amount) d) false]> m /\
  stateObjectsDirty (AddBalance a amount s) = stateObjectsDirty s.
Proof.
  intros Eo Hv. unfold AddBalance, on_object, GetOrNewStateObject, getStateObject. rewrite Eo, lookup_insert_eq. cbn [so_deleted newObject].
  unfold so_AddBalance. rewrite (proj2 (Z.eqb_neq amount 0)) by done. cbn. by rewrite Eo, insert_insert_eq.
Qed.

(** A database whose trie holds an empty account at address 7. *)
Definition empty_account_db : StateDB := New ∅ {[ 7 := mkAccount 0 0 ∅ emptyCodeHash ]} ∅.

(** C40: An update is lost.  In any state, let the trie hold an empty account that is not live, other than
    the one of the RIPEMD contract.  After a touch of the account is reverted, the account is not marked
    dirty, and its object's callback is spent: an amount added to its balance later in the block is visible
    to every reader, and yet [IntermediateRoot], which goes over the dirty accounts in whatever order,
    leaves the account in the trie as it was. *)
Theorem touch_revert_loses_update `{!CryptoPrims} `{!CryptoOK} (s : StateDB) (a : Address) (d : Account) (amount : Z) :
  wf s -> Forall (fun b => is_Some (stateObjects s !! b)) (elements (stateObjectsDirty s)) -> a <> ripemd -> stateObjects s !! a = None ->
  trie s !! a = Some d -> Nonce d = 0 -> Balance d = 0 -> CodeHash d = emptyCodeHash -> amount <> 0 ->
  exists s2, RevertToSnapshot (Snapshot s).1 (AddBalance a 0 (Snapshot s).2) = Some s2 /\
    let s3 := AddBalance a amount s2 in
    (GetBalance a s3).1 = amount /\ a ∉ stateObjectsDirty s3 /\
    forall del order, order ≡ₚ elements (stateObjectsDirty s3) ->
      exists s4, IntermediateRoot del order s3 = Some s4 /\ trie s4 !! a = Some d.
Proof.
  intros Hwf Hd Hr Ho Ht E1 E2 E3 Hv. destruct (touch_reverted s a d Hwf Hr Ho Ht) as (s2 & E & Et & Eo & Ed); [unfold so_empty; cbn [newObject so_data]; by rewrite E1, E2, E3, !Z.eqb_refl|].
  destruct (AddBalance_spent s2 a d amount (stateObjects s)) as (Et3 & Eo3 & Ed3); [done..|]. rewrite Et in Et3. rewrite Ed in Ed3. exists s2. split; [done|]. cbn zeta.
  set (s3 := AddBalance a amount s2) in *. split_and!; [unfold GetBalance, getStateObject; rewrite Eo3, lookup_insert_eq; cbn; lia|set_solver|].
  intros del order Hord. destruct (flush_others del order s3 a) as (s4 & E4 & Et4).
  - rewrite Eo3. intros b o [[<- <-]|[_ Ex]]%lookup_insert_Some; [done|]. by apply (wf_addr s (wf_0 s Hwf)).
  - rewrite Hord, elem_of_elements. set_solver.
  - rewrite Hord, Eo3. rewrite Forall_forall in *. intros b Hb. rewrite lookup_insert_is_Some'. right. apply Hd. set_solver.
  - exists (clearJournalAndRefund s4). unfold IntermediateRoot. rewrite E4. split; [done|]. change (trie s4 !! a = Some d). by rewrite Et4, Et3.
Qed.

Lemma touch_revert_loses_update_witness :
  exists s2 s4, RevertToSnapshot 0 (AddBalance 7 0 (Snapshot empty_account_db).2) = Some s2 /\
    (GetBalance 7 (AddBalance 7 5 s2)).1 = 5 /\ IntermediateRoot true (elements (stateObjectsDirty (AddBalance 7 5 s2))) (AddBalance 7 5 s2) = Some s4 /\
    Balance <$> trie s4 !! 7 = Some 0.
Proof.
  assert (wf empty_account_db) as Hwf.
  { apply wf_New; [|done]. intros a d [<- <-]%lookup_singleton_Some. reflexivity. }
  destruct (touch_revert_loses_update empty_account_db 7 (mkAccount 0 0 ∅ emptyCodeHash) 5 Hwf) as (s2 & E & EB & _ & Hf); [by apply Forall_nil|done..|].
  destruct (Hf true _ (reflexivity _)) as (s4 & E4 & Et). exists s2, s4. rewrite Et. exact (conj E (conj EB (conj E4 eq_refl))).
Defined.

(** Undoing a log does not give its index back: the first log left in the database after one
    was reverted has index 1. *)
Theorem reverted_log_leaves_gap :
  let l := mkLog 7 [] [] 1 0 0 0 0 in
  let s1 := AddLog l (Snapshot empty_account_db).2 in
  exists s2, RevertToSnapshot 0 s1 = Some s2 /\ GetLogs 0 s2 = [] /\
    map log_Index (GetLogs 0 (AddLog l s2)) = [1].
Proof. eexists. split; [vm_compute; reflexivity|]. split; vm_compute; reflexivity. Qed.

End StateThms.
