(* ===== verification/RlpRaw.v ===== *)
(** * Raw splitting of RLP data

    [Split] inverts the encoding, accepts only canonical encodings, and panics on exactly one
    input. *)

From S2P Require Import Prelude GoMath World Rlp RlpProofs Ideal.

Module RlpRaw.
Import Rlp RlpProofs.

(** ** Size fields *)

Lemma lor_shift acc x : 0 <= x < 256 -> Z.lor (Z.shiftl acc 8) x = acc * 256 + x.
Proof.
  intros Hx. rewrite Z.shiftl_mul_pow2 by lia. change (2 ^ 8) with 256.
  rewrite <- Z.add_lor_land. enough (Z.land (acc * 256) x = 0) as -> by lia.
  apply Z.bits_inj'. intros n Hn. rewrite Z.land_spec, Z.bits_0.
  change 256 with (2 ^ 8). rewrite Z.mul_pow2_bits by lia.
  destruct (Z.lt_ge_cases n 8); [by rewrite (Z.testbit_neg_r _ (n - 8)) by lia|].
  rewrite <- (Z.mod_small x (2 ^ 8)) by lia. rewrite Z.mod_pow2_bits_high by lia. apply andb_false_r.
Qed.

Lemma size_fold bs acc :
  fold_left (fun acc x => Z.lor (Z.shiftl acc 8) (byte_to_Z x)) bs acc
  = fold_left (fun acc b => acc * 256 + byte_to_Z b) bs acc.
Proof.
  revert acc. induction bs as [|b bs IH]; intros acc; cbn [fold_left]; [done|].
  rewrite lor_shift by apply byte_to_Z_range. apply IH.
Qed.

Lemma readSize_eq b slen :
  0 < slen ->
  readSize b slen =
  if slen >? zlen b then Err ErrUnexpectedEOF
  else let s := SetBytes (take (Z.to_nat slen) b) in
    if s <? 56 then Err ErrCanonSize
    else match b with
         | [] => IndexPanic
         | b0 :: _ => if byte_to_Z b0 =? 0 then Err ErrCanonSize else Ok s
         end.
Proof. intros H. unfold readSize. by rewrite size_fold. Qed.

(** The leading byte tells whether a big-endian number is as short as it can be. *)
Lemma nbytes_lead b bs :
  byte_to_Z b <> 0 -> nbytes (SetBytes (b :: bs)) (length (b :: bs)).
Proof.
  intros Hb. unfold nbytes. rewrite SetBytes_cons. pose proof (SetBytes_bound bs) as Hs.
  pose proof (byte_to_Z_range b). cbn [length].
  replace (Z.of_nat (S (length bs)) - 1) with (zlen bs) by (unfold zlen; lia).
  replace (Z.of_nat (S (length bs))) with (Z.succ (zlen bs)) by (unfold zlen; lia).
  rewrite Z.pow_succ_r by apply zlen_nonneg. nia.
Qed.

Lemma putint_lead n :
  0 < n < 2 ^ 64 -> exists b bs, putint n = b :: bs /\ byte_to_Z b <> 0 /\ SetBytes (b :: bs) = n.
Proof.
  intros Hn. destruct (putint_bytes n) as (k & Hk & Hb & _ & E); [lia|].
  specialize (Hb ltac:(lia)). pose proof (SetBytes_be_bytes k n) as Hs.
  rewrite Z.mod_small in Hs by (unfold nbytes in Hb; lia).
  pose proof (length_be_bytes k n) as Hl. rewrite E.
  destruct (be_bytes k n) as [|b bs]; [cbn in Hl; lia|]. exists b, bs. split_and!; try done.
  intros H0. rewrite SetBytes_cons, H0 in Hs. pose proof (SetBytes_bound bs).
  unfold nbytes in Hb. cbn [length] in Hl. unfold zlen in *.
  replace (Z.of_nat k - 1) with (Z.of_nat (length bs)) in Hb by lia. lia.
Qed.

(** A canonical size field is the minimal big-endian form of the size. *)
Lemma putint_SetBytes b bs :
  byte_to_Z b <> 0 -> (length (b :: bs) <= 8)%nat -> putint (SetBytes (b :: bs)) = b :: bs.
Proof.
  intros Hb Hl. pose proof (nbytes_lead b bs Hb) as Hn.
  assert (0 < SetBytes (b :: bs) < 2 ^ 64) as Hr.
  { destruct Hn as [H1 H2]. cbn [length] in *. split.
    - pose proof (Z.pow_pos_nonneg 256 (Z.of_nat (S (length bs)) - 1)). lia.
    - eapply Z.lt_le_trans; [exact H2|]. change (2 ^ 64) with (256 ^ 8).
      apply Z.pow_le_mono_r; lia. }
  destruct (putint_bytes (SetBytes (b :: bs))) as (k & _ & Hk & _ & ->); [lia|].
  rewrite (nbytes_unique _ _ _ (Hk ltac:(lia)) Hn). apply be_bytes_SetBytes.
Qed.

Lemma readSize_putint n tl :
  56 <= n < 2 ^ 64 -> readSize (putint n ++ tl) (zlen (putint n)) = Ok n.
Proof.
  intros Hn. destruct (putint_lead n) as (b & bs & E & Hb & Hs); [lia|].
  rewrite readSize_eq by (destruct (putint_intsize n); lia).
  rewrite zlen_app. pose proof (zlen_nonneg tl). rewrite Z.gtb_ltb.
  destruct (Z.ltb_spec (zlen (putint n) + zlen tl) (zlen (putint n))); [lia|].
  unfold zlen. rewrite Nat2Z.id, take_app_length, E, Hs. cbn zeta.
  destruct (Z.ltb_spec n 56); [lia|]. cbn [app]. by destruct (Z.eqb_spec (byte_to_Z b) 0).
Qed.

(** ** Splitting an encoding *)

Lemma byte_b8 z : 0 <= z < 256 -> byte_to_Z (b8 z) = z.
Proof. intros H. unfold b8. by rewrite byte_to_of_Z, Z.mod_small. Qed.

Lemma check_room_ok buf k ts cs :
  0 <= ts -> 0 <= cs -> ts + cs <= zlen buf -> zlen buf < 2 ^ 64 ->
  check_room buf k ts cs = Ok (k, ts, cs).
Proof.
  intros. unfold check_room. rewrite u64_small by lia. rewrite Z.gtb_ltb.
  destruct (Z.ltb_spec (zlen buf - ts) cs); [lia|done].
Qed.

Lemma Split_ok b k ts cs pre content rest :
  readKind b = Ok (k, ts, cs) -> b = pre ++ content ++ rest -> ts = zlen pre -> cs = zlen content ->
  zlen b < 2 ^ 64 -> Split b = Ok (k, content, rest).
Proof.
  intros E Hb -> -> Hl. unfold Split. rewrite E.
  assert (zlen b = zlen pre + zlen content + zlen rest) as Hz by (subst b; rewrite !zlen_app; lia).
  pose proof (zlen_nonneg pre). pose proof (zlen_nonneg content). pose proof (zlen_nonneg rest).
  rewrite !u64_small by lia.
  assert (slice b (zlen pre) (zlen pre + zlen content) = Some content) as ->.
  { unfold slice. destruct (_ && _) eqn:E'; [|lia]. f_equal. subst b. unfold zlen.
    rewrite Nat2Z.id, drop_app_length. replace (Z.to_nat _) with (length content) by lia.
    by rewrite take_app_length. }
  assert (slice b (zlen pre + zlen content) (zlen b) = Some rest) as ->; [|done].
  unfold slice. destruct (_ && _) eqn:E'; [|lia]. f_equal. subst b. rewrite app_assoc.
  replace (Z.to_nat (zlen pre + zlen content)) with (length (pre ++ content))
    by (rewrite length_app; unfold zlen; lia).
  rewrite drop_app_length, take_ge; [done|]. unfold zlen. rewrite !length_app. lia.
Qed.

(** A header written by [puthead], read back by [readKind]. *)
Lemma readKind_puthead k small large content rest :
  (k = KString /\ small = 0x80 /\ large = 0xB7 \/ k = KList /\ small = 0xC0 /\ large = 0xF7) ->
  (k = KString -> forall x, content = [x] -> 0x7F < byte_to_Z x) ->
  zlen (puthead small large (zlen content) ++ content ++ rest) < 2 ^ 64 ->
  readKind (puthead small large (zlen content) ++ content ++ rest)
  = Ok (k, zlen (puthead small large (zlen content)), zlen content).
Proof.
  intros Hk Hc Hl. pose proof (zlen_nonneg content) as H0. pose proof (zlen_nonneg rest).
  rewrite !zlen_app in Hl. pose proof (zlen_nonneg (puthead small large (zlen content))).
  unfold puthead in *. destruct (Z.ltb_spec (zlen content) 56) as [Hs|Hs].
  - cbn [app readKind]. set (buf := _ :: _).
    assert (zlen buf = 1 + zlen content + zlen rest) as Hbuf by (unfold buf; rewrite zlen_cons, zlen_app; lia).
    change (zlen [b8 (small + zlen content)]) with 1 in *.
    assert (forall k, check_room buf k 1 (zlen content) = Ok (k, 1, zlen content)) as Hroom
      by (intros; apply check_room_ok; lia).
    destruct Hk as [(-> & -> & ->)|(-> & -> & ->)]; rewrite byte_b8 by lia; repeat (bdestr; try lia).
    + specialize (Hc eq_refl). destruct content as [|x [|y c]]; unfold zlen in *; cbn [length app] in *; try lia.
      destruct (Z.ltb_spec (byte_to_Z x) 128); [specialize (Hc x eq_refl); lia|]. apply Hroom.
    + replace (128 + zlen content - 128) with (zlen content) by lia. apply Hroom.
    + replace (192 + zlen content - 192) with (zlen content) by lia. apply Hroom.
  - destruct (putint_intsize (zlen content)) as [_ Hp]; [lia|].
    cbn [app readKind]. set (buf := _ :: _). set (p := putint (zlen content)) in *.
    assert (zlen buf = 1 + zlen p + zlen content + zlen rest) as Hbuf
      by (unfold buf; rewrite zlen_cons, !zlen_app; lia).
    rewrite zlen_cons in Hl. rewrite (zlen_cons _ p).
    destruct Hk as [(-> & -> & ->)|(-> & -> & ->)]; rewrite byte_b8 by lia; repeat (bdestr; try lia);
    match goal with |- context [readSize _ ?z] => replace z with (zlen p) by lia end;
    assert (readSize (p ++ content ++ rest) (zlen p) = Ok (zlen content)) as ->
      by (apply readSize_putint; lia); apply check_room_ok; lia.
Qed.

Definition kind_of (x : item) : Kind :=
  match x with
  | Str [b] => if byte_to_Z b <=? 0x7F then KByte else KString
  | Lst _ => KList
  | _ => KString
  end.
Definition content_of (x : item) : list byte :=
  match x with Raw b | Str b => b | Lst l => concat (map rlp l) end.
Definition not_raw (x : item) : Prop := match x with Raw _ => False | _ => True end.

Lemma Split_item x rest :
  not_raw x -> zlen (rlp x ++ rest) < 2 ^ 64 ->
  Split (rlp x ++ rest) = Ok (kind_of x, content_of x, rest).
Proof.
  intros Hx Hl. destruct x as [b|b|l]; [done| |].
  - destruct (rlp_Str b) as [(x & -> & Hb & E)|[E Hb]].
    + rewrite E in *. cbn [kind_of content_of]. destruct (Z.leb_spec (byte_to_Z x) 127); [|lia].
      apply (Split_ok _ _ 0 1 [] [x]); try done. cbn [app readKind].
      destruct (Z.ltb_spec (byte_to_Z x) 128); [|lia].
      apply check_room_ok; [lia|lia| |exact Hl]. rewrite zlen_cons. pose proof (zlen_nonneg rest). lia.
    + rewrite E in *. rewrite <- app_assoc in *.
      assert (kind_of (Str b) = KString) as ->.
      { destruct b as [|x [|y b]]; [done| |done]. specialize (Hb x eq_refl). cbn.
        destruct (Z.leb_spec (byte_to_Z x) 127); [lia|done]. }
      eapply Split_ok; [|done|done|done|done]. apply readKind_puthead; [by left|done|done].
  - cbn [rlp kind_of content_of] in *. cbn zeta in *. rewrite <- app_assoc in *.
    eapply Split_ok; [|done|done|done|done]. apply readKind_puthead; [by right|done|done].
Qed.
(** ** Everything [Split] accepts is canonical *)

Lemma check_room_inv buf k ts cs r :
  check_room buf k ts cs = Ok r -> r = (k, ts, cs) /\ cs <= u64 (zlen buf - ts).
Proof.
  unfold check_room. rewrite Z.gtb_ltb. destruct (Z.ltb_spec (u64 (zlen buf - ts)) cs); [done|].
  by intros [= <-].
Qed.

Lemma readSize_inv b slen s :
  0 < slen <= 8 -> readSize b slen = Ok s ->
  exists tl, b = putint s ++ tl /\ zlen (putint s) = slen /\ 56 <= s < 2 ^ 64.
Proof.
  intros Hs. rewrite readSize_eq by lia. rewrite Z.gtb_ltb.
  destruct (Z.ltb_spec (zlen b) slen) as [|Hle]; [done|]. cbn zeta. bdestr; [done|].
  destruct b as [|b0 b']; [done|]. destruct (Z.eqb_spec (byte_to_Z b0) 0) as [|Hne]; [done|].
  intros [= <-]. set (n := Z.to_nat slen) in *. assert (n = S (n - 1)) as En by lia.
  rewrite En in *. cbn [take] in *. set (bs := take (n - 1) b') in *.
  assert (length bs = (n - 1)%nat) as Hbs.
  { unfold bs. rewrite length_take. unfold zlen in Hle. cbn [length] in Hle. lia. }
  rewrite putint_SetBytes by (cbn [length]; lia || done).
  exists (drop (n - 1) b'). split_and!.
  - cbn [app]. unfold bs. by rewrite take_drop.
  - unfold zlen. cbn [length]. lia.
  - lia.
  - pose proof (SetBytes_bound (b0 :: bs)) as [_ Hub]. eapply Z.lt_le_trans; [exact Hub|].
    change (2 ^ 64) with (256 ^ 8). apply Z.pow_le_mono_r; [lia|]. unfold zlen. cbn [length]. lia.
Qed.

(** The shape of what [readKind] accepts: a header [pre] as the encoder writes it. *)
Definition head_shape (k : Kind) (pre : list byte) (cs : Z) (tl : list byte) : Prop :=
  match k with
  | KByte => pre = [] /\ cs = 1 /\ exists x, head tl = Some x /\ byte_to_Z x <= 0x7F
  | KString => pre = puthead 0x80 0xB7 cs /\
               (cs = 1 -> exists x, head tl = Some x /\ 0x7F < byte_to_Z x)
  | KList => pre = puthead 0xC0 0xF7 cs
  end.
Definition head_split (b : list byte) (k : Kind) (ts cs : Z) : Prop :=
  exists pre tl, b = pre ++ tl /\ ts = zlen pre /\ 0 <= cs <= zlen tl /\ head_shape k pre cs tl.

Lemma b8_byte b z : byte_to_Z b = z -> b = b8 z.
Proof. intros <-. unfold b8. by rewrite byte_of_to_Z. Qed.

Lemma short_head b0 rest k tag cs :
  k = KString /\ tag = 0x80 \/ k = KList /\ tag = 0xC0 ->
  byte_to_Z b0 = tag + cs -> 0 <= cs < 56 -> zlen (b0 :: rest) < 2 ^ 64 ->
  cs <= u64 (zlen (b0 :: rest) - 1) ->
  (k = KString -> cs = 1 -> exists x, head rest = Some x /\ 0x7F < byte_to_Z x) ->
  head_split (b0 :: rest) k 1 cs.
Proof.
  intros Hk Hb Hcs Hl Hroom Hone. pose proof (zlen_nonneg rest). rewrite zlen_cons in *.
  rewrite u64_small in Hroom by lia. exists [b0], rest. split_and!; [done|done|lia|lia|].
  apply b8_byte in Hb as ->.
  destruct Hk as [[-> ->]|[-> ->]]; cbn; unfold puthead; (destruct (Z.ltb_spec cs 56); [|lia]); auto.
Qed.

Lemma long_head b0 rest k tag large s :
  k = KString /\ tag = 0x80 /\ large = 0xB7 \/ k = KList /\ tag = 0xC0 /\ large = 0xF7 ->
  0 < byte_to_Z b0 - large <= 8 -> readSize rest (byte_to_Z b0 - large) = Ok s ->
  zlen (b0 :: rest) < 2 ^ 64 -> s <= u64 (zlen (b0 :: rest) - (byte_to_Z b0 - large + 1)) ->
  head_split (b0 :: rest) k (byte_to_Z b0 - large + 1) s.
Proof.
  intros Hk Hs E Hl Hroom. destruct (readSize_inv _ _ _ Hs E) as (tl & Etl & Hp & Hsz).
  pose proof (zlen_nonneg tl). rewrite Etl, zlen_cons, zlen_app in Hl, Hroom.
  rewrite u64_small in Hroom by lia.
  assert (b0 :: rest = puthead tag large s ++ tl) as Eb.
  { unfold puthead. destruct (Z.ltb_spec s 56); [lia|]. cbn [app]. rewrite Etl. f_equal.
    apply b8_byte. lia. }
  exists (puthead tag large s), tl. split_and!; [exact Eb| |lia|lia|].
  - unfold puthead. destruct (Z.ltb_spec s 56); [lia|]. rewrite zlen_cons. lia.
  - destruct Hk as [(-> & -> & ->)|(-> & -> & ->)]; cbn; [split; [done|lia]|done].
Qed.

Lemma readKind_inv b k ts cs :
  zlen b < 2 ^ 64 -> readKind b = Ok (k, ts, cs) -> head_split b k ts cs.
Proof.
  intros Hl. destruct b as [|b0 rest]; [done|]. pose proof (byte_to_Z_range b0) as Hb0.
  cbn [readKind]. destruct (Z.ltb_spec (byte_to_Z b0) 128) as [H1|H1].
  { intros [[= -> -> ->] _]%check_room_inv. exists [], (b0 :: rest). pose proof (zlen_nonneg rest).
    rewrite zlen_cons. split_and!; [done|done|lia|lia|]. split_and!; [done|done|].
    exists b0. split; [done|lia]. }
  destruct (Z.ltb_spec (byte_to_Z b0) 184) as [H2|H2].
  { destruct (Z.eqb_spec (byte_to_Z b0 - 128) 1) as [E1|E1].
    - destruct rest as [|b1 rest]; [done|]. destruct (Z.ltb_spec (byte_to_Z b1) 128); [done|].
      intros [[= -> -> ->] Hroom]%check_room_inv. eapply short_head; eauto; try lia.
      intros _ _. exists b1. split; [done|lia].
    - intros [[= -> -> ->] Hroom]%check_room_inv. eapply short_head; eauto; lia. }
  destruct (Z.ltb_spec (byte_to_Z b0) 192) as [H3|H3].
  { destruct (readSize rest (byte_to_Z b0 - 183)) as [s| |] eqn:E; try done.
    intros [[= -> -> ->] Hroom]%check_room_inv. eapply long_head; eauto; lia. }
  destruct (Z.ltb_spec (byte_to_Z b0) 248) as [H4|H4].
  { intros [[= -> -> ->] Hroom]%check_room_inv. eapply short_head; eauto; try lia; done. }
  destruct (readSize rest (byte_to_Z b0 - 247)) as [s| |] eqn:E; try done.
  intros [[= -> -> ->] Hroom]%check_room_inv. eapply long_head; eauto; lia.
Qed.
Lemma Split_inv b k c r :
  zlen b < 2 ^ 64 -> Split b = Ok (k, c, r) ->
  exists pre, b = pre ++ c ++ r /\ head_shape k pre (zlen c) (c ++ r).
Proof.
  intros Hl HS. destruct (readKind b) as [[[k' ts] cs]| |] eqn:E; unfold Split in HS; rewrite E in HS; try done.
  destruct (readKind_inv _ _ _ _ Hl E) as (pre & tl & Eb & Ets & Hcs & Hshape).
  assert (zlen (take (Z.to_nat cs) tl) = cs) as Hc by (unfold zlen in *; rewrite length_take; lia).
  pose proof (Split_ok b k' ts cs pre (take (Z.to_nat cs) tl) (drop (Z.to_nat cs) tl) E) as HS'.
  rewrite take_drop in HS'. specialize (HS' Eb Ets (eq_sym Hc) Hl). unfold Split in HS'. rewrite E in HS'.
  rewrite HS' in HS. injection HS as <- <- <-. exists pre. rewrite take_drop. by rewrite Hc.
Qed.

Lemma readSize_nopanic b slen : 0 < slen -> readSize b slen <> IndexPanic.
Proof.
  intros Hs. rewrite readSize_eq by done. rewrite Z.gtb_ltb.
  destruct (Z.ltb_spec (zlen b) slen); [done|]. cbn zeta. bdestr; [done|].
  destruct b; [unfold zlen in *; cbn in *; lia|]. by bdestr.
Qed.

Lemma check_room_nopanic buf k ts cs : check_room buf k ts cs <> IndexPanic.
Proof. unfold check_room. by destruct (_ >? _). Qed.

Lemma readKind_panic b : readKind b = IndexPanic <-> b = [Byte.x81].
Proof.
  split; [|by intros ->]. destruct b as [|b0 rest]; [done|]. cbn [readKind].
  repeat (bdestr; try (intros ?%check_room_nopanic; done)).
  - destruct rest as [|b1 rest]; [|bdestr; [done|by intros ?%check_room_nopanic]].
    intros _. f_equal. apply byte_to_Z_inj. change (byte_to_Z Byte.x81) with 129. lia.
  - destruct (readSize rest _) eqn:E; [by intros ?%check_room_nopanic|done|].
    by apply readSize_nopanic in E; [|lia].
  - destruct (readSize rest _) eqn:E; [by intros ?%check_room_nopanic|done|].
    by apply readSize_nopanic in E; [|lia].
Qed.

Lemma rlp_nonempty x : not_raw x -> rlp x <> [].
Proof.
  assert (forall a b n l, puthead a b n ++ l <> []) as Hp
    by (intros; unfold puthead; by destruct (n <? 56)).
  destruct x as [b|b|l]; [done| |intros _; apply Hp].
  intros _. destruct (rlp_Str b) as [(x & _ & _ & ->)|[-> _]]; [done|apply Hp].
Qed.

Lemma count_step fuel b i :
  b <> [] ->
  count_loop (S fuel) b i =
  match readKind b with
  | Ok (_, tagsize, n) =>
      match slice b (u64 (tagsize + n)) (zlen b) with
      | Some b => count_loop fuel b (i + 1)
      | None => IndexPanic
      end
  | Err e => Err e
  | IndexPanic => IndexPanic
  end.
Proof. by destruct b. Qed.

Lemma count_items xs fuel i :
  Forall not_raw xs -> zlen (concat (map rlp xs)) < 2 ^ 64 ->
  (length (concat (map rlp xs)) <= fuel)%nat ->
  count_loop fuel (concat (map rlp xs)) i = Ok (i + zlen xs).
Proof.
  revert fuel i. induction xs as [|x xs IH]; intros fuel i Hx Hl Hf.
  - destruct fuel; cbn; f_equal; unfold zlen; cbn; lia.
  - apply Forall_cons in Hx as [Hx Hxs]. cbn [map concat] in *.
    pose proof (rlp_nonempty x Hx) as Hne.
    rewrite length_app in Hf. destruct fuel as [|fuel]; [destruct (rlp x); [done|cbn in Hf; lia]|].
    pose proof (Split_item x (concat (map rlp xs)) Hx Hl) as HS. unfold Split in HS.
    rewrite count_step by (destruct (rlp x); done).
    destruct (readKind (rlp x ++ concat (map rlp xs))) as [[[k ts] cs]| |]; try done.
    destruct (slice _ ts _); [|done]. destruct (slice _ (u64 (ts + cs)) _) as [r|]; [|done].
    injection HS as _ _ ->. rewrite zlen_app in Hl. pose proof (zlen_nonneg (rlp x)).
    rewrite IH; [rewrite zlen_cons; f_equal; lia|done|lia|]. destruct (rlp x); [done|cbn in Hf; lia].
Qed.

(** ** Properties *)

(** C28: The buffered encoder, which keeps list headers apart from the string data and back-patches
    their sizes, produces exactly the recursive RLP encoding of the value, and fails exactly when
    the value contains a negative integer.  Values include booleans, which are encoded as 0 and 1. *)
Theorem EncodeToBytes_correct (v : value) :
  uints_ok v = true -> zlen (concat (map rlp (items v))) < 2 ^ 64 ->
  EncodeToBytes v = if encodable v then Some (concat (map rlp (items v))) else None.
Proof. apply EncodeToBytes_enc. Qed.

Lemma EncodeToBytes_correct_witness :
  let v := VStruct [VUint 1024; VSlice false [VBytes (zeros 60); VStruct []]; VBigInt (Some 5)] in
  uints_ok v = true /\ zlen (concat (map rlp (items v))) < 2 ^ 64 /\
  EncodeToBytes v = Some (concat (map rlp (items v))).
Proof.
  split; [reflexivity|]. split; [vm_compute; reflexivity|].
  apply EncodeToBytes_correct; [reflexivity|vm_compute; reflexivity].
Defined.

(** Writing an encoding to an [io.Writer] piece by piece gives the same bytes as [toBytes]. *)
Theorem toWriter_toBytes (v : value) (out : list byte) :
  uints_ok v = true -> zlen (concat (map rlp (items v))) < 2 ^ 64 -> EncodeToBytes v = Some out ->
  exists ps, toWriter (writer v reset).1 = Some ps /\ concat ps = out.
Proof.
  intros Hu Hl E. rewrite EncodeToBytes_enc in E by done. destruct (encodable v) eqn:He; [|done].
  injection E as <-. destruct (writer_correct v He Hu Hl) as (-> & Hf & <-). by apply toWriter_spec.
Qed.

Lemma toWriter_toBytes_witness :
  let v := VStruct [VUint 7; VSlice false [VBytes [Byte.x00]]] in
  exists ps, toWriter (writer v reset).1 = Some ps /\
             concat ps = [Byte.xc3; Byte.x07; Byte.xc1; Byte.x00].
Proof. apply toWriter_toBytes; reflexivity. Defined.

(** [Split] inverts the encoding of a string or a list: it returns the kind, the content and
    whatever follows. *)
Theorem Split_roundtrip (x : item) (rest : list byte) :
  not_raw x -> zlen (rlp x ++ rest) < 2 ^ 64 ->
  Split (rlp x ++ rest) = Ok (kind_of x, content_of x, rest).
Proof. apply Split_item. Qed.

Lemma Split_roundtrip_witness :
  let x := Lst [Str (zeros 3); Lst [Str [Byte.xff]]] in
  not_raw x /\ Split (rlp x ++ [Byte.x05]) = Ok (KList, content_of x, [Byte.x05]).
Proof. split; [exact I|]. apply Split_roundtrip; [exact I|reflexivity]. Defined.

(** Whatever [Split] accepts is canonical: the input is the encoding of the content it
    returns, followed by the rest it returns. *)
Theorem Split_canonical (b c r : list byte) (k : Kind) :
  zlen b < 2 ^ 64 -> Split b = Ok (k, c, r) ->
  b = match k with KList => puthead 0xC0 0xF7 (zlen c) ++ c | _ => rlp (Str c) end ++ r.
Proof.
  intros Hl E. destruct (Split_inv _ _ _ _ Hl E) as (pre & -> & Hs). rewrite app_assoc. f_equal.
  destruct k; cbn in Hs.
  - destruct Hs as (-> & Hc & x & Hx & Hb). destruct c as [|y [|z c]]; unfold zlen in Hc; cbn in Hc; try lia.
    cbn in Hx. injection Hx as ->. cbn. by destruct (Z.leb_spec (byte_to_Z x) 127); [|lia].
  - destruct Hs as [-> H1]. destruct (rlp_Str c) as [(x & -> & Hb & _)|[-> _]]; [|done].
    destruct (H1 eq_refl) as (y & [= ->] & Hy). lia.
  - by rewrite Hs.
Qed.

Lemma Split_canonical_witness :
  Split [Byte.x82; Byte.x01; Byte.x02; Byte.x09] = Ok (KString, [Byte.x01; Byte.x02], [Byte.x09]) /\
  [Byte.x82; Byte.x01; Byte.x02; Byte.x09] = rlp (Str [Byte.x01; Byte.x02]) ++ [Byte.x09].
Proof.
  split; [reflexivity|].
  exact (Split_canonical [Byte.x82; Byte.x01; Byte.x02; Byte.x09] [Byte.x01; Byte.x02] [Byte.x09] KString
           eq_refl eq_refl).
Defined.

(** [CountValues] counts the values of a concatenation of encodings. *)
Theorem CountValues_correct (xs : list item) :
  Forall not_raw xs -> zlen (concat (map rlp xs)) < 2 ^ 64 ->
  CountValues (concat (map rlp xs)) = Ok (zlen xs).
Proof. intros Hx Hl. unfold CountValues. by rewrite count_items. Qed.

Lemma CountValues_correct_witness :
  CountValues (concat (map rlp [Str []; Lst [Str [Byte.x01]]; Str (zeros 70)])) = Ok 3.
Proof. apply CountValues_correct; [repeat constructor|reflexivity]. Defined.

(** [readKind], and with it [Split] and [CountValues], reads past the end of its input on
    exactly one input: the single byte 0x81. *)
Theorem readKind_panics (b : list byte) : readKind b = IndexPanic <-> b = [Byte.x81].
Proof. apply readKind_panic. Qed.

End RlpRaw.
