(* ===== verification/RlpStream.v ===== *)
(** * [rlp/decode.go]: the stream decoder

    A [Stream] over a byte slice ([bytes.Reader]), and the decoders that [makeDecoder] builds.  The
    reflected type of the target is a [dtype]; the target is a fresh value, and what is decoded into
    it is the [value] that the encoder would write for it, a nil pointer among them.  Types that decode
    themselves do so through the operations of [Stream].  The texts and contexts of errors are left out,
    and memory does not run out. *)

From S2P Require Import Prelude GoMath World Rlp.

Module RlpStream.
Import Rlp.

(** ** Errors *)

Inductive decodeMsg :=
| nonCanonicalInteger | nonCanonicalSize | expectedList | expectedString | inputTooLong | inputTooShort
| tooManyElements | tooFewElements.
#[export] Instance decodeMsg_eqdec : EqDecision decodeMsg.
Proof. solve_decision. Defined.
Inductive streamError :=
| EOL | EOF | UnexpectedEOF
| SExpectedString | SExpectedList | SCanonInt | SCanonSize | SElemTooLarge | SValueTooLarge
| SMoreThanOneValue | errNotInList | errNotAtEOL | errUintOverflow
| errBool                        (* invalid boolean value *)
| decodeError (m : decodeMsg)
| outOfFuel.                     (* the decoder does not end *)

#[export] Instance streamError_eqdec : EqDecision streamError.
Proof. solve_decision. Defined.

Definition wrapStreamError (e : streamError) : streamError :=
  match e with
  | SCanonInt => decodeError nonCanonicalInteger
  | SCanonSize => decodeError nonCanonicalSize
  | SExpectedList => decodeError expectedList
  | SExpectedString => decodeError expectedString
  | errUintOverflow => decodeError inputTooLong
  | errNotAtEOL => decodeError tooManyElements
  | _ => e
  end.

(** ** Streams *)

Record Stream := mkStream {
  r : list byte;                 (* what is left of the input *)
  remaining : Z;
  limited : bool;
  kind : option Kind;            (* [None] is -1 *)
  ssize : Z;
  byteval : byte;
  kinderr : option streamError;
  sstack : list (Z * Z);         (* position and size of the open lists, innermost first *)
}.
Definition set_kind k s := mkStream (r s) (remaining s) (limited s) k (ssize s) (byteval s) (kinderr s) (sstack s).
Definition set_byteval b s := mkStream (r s) (remaining s) (limited s) (kind s) (ssize s) b (kinderr s) (sstack s).
Definition set_input l s := mkStream l (remaining s) (limited s) (kind s) (ssize s) (byteval s) (kinderr s) (sstack s).
Definition set_remaining n s := mkStream (r s) n (limited s) (kind s) (ssize s) (byteval s) (kinderr s) (sstack s).
Definition set_stack st s := mkStream (r s) (remaining s) (limited s) (kind s) (ssize s) (byteval s) (kinderr s) st.
(** [s.kind, s.size, s.kinderr = k, n, e] *)
Definition set_ahead k n e s := mkStream (r s) (remaining s) (limited s) k n (byteval s) e (sstack s).

(** An operation on a stream, which keeps its changes when it fails. *)
Definition M (A : Type) : Type := Stream -> (streamError + A) * Stream.
Definition ret {A} (a : A) : M A := fun s => (inr a, s).
Definition fail {A} (e : streamError) : M A := fun s => (inl e, s).
Definition bind {A B} (m : M A) (k : A -> M B) : M B :=
  fun s => match m s with (inr a, s) => k a s | (inl e, s) => (inl e, s) end.
Definition modify (f : Stream -> Stream) : M unit := fun s => (inr tt, f s).
(** The error of [m] is changed. *)
Definition rescue {A} (m : M A) (f : streamError -> streamError) : M A :=
  fun s => match m s with (inr a, s) => (inr a, s) | (inl e, s) => (inl (f e), s) end.
Notation "'let!' x ':=' m 'in' k" := (bind m (fun x => k)) (at level 100, x pattern, m at level 99, k at level 200, right associativity).
Notation "m ';;!' k" := (bind m (fun _ => k)) (at level 100, right associativity).
Definition rearm : M unit := modify (set_kind None).

(** The limit is the length of the data unless one is given. *)
Definition Reset (data : list byte) (inputLimit : Z) (s : Stream) : Stream :=
  mkStream data (if inputLimit >? 0 then inputLimit else zlen data) true None 0 (byteval s) None [].
Definition new_Stream : Stream := mkStream [] 0 false (Some KByte) 0 Byte.x00 None [].
Definition NewStream (data : list byte) (inputLimit : Z) : Stream := Reset data inputLimit new_Stream.
Definition NewListStream (data : list byte) (len : Z) : Stream :=
  set_ahead (Some KList) len None (Reset data len new_Stream).

(** ** Reading *)

Definition willRead (n : Z) : M unit :=
  rearm ;;!
  (fun s => match sstack s with
            | [] => (inr tt, s)
            | (pos, size) :: st =>
                if n >? u64 (size - pos) then (inl SElemTooLarge, s) else (inr tt, set_stack ((u64 (pos + n), size) :: st) s)
            end) ;;!
  (fun s => if limited s then
              if n >? remaining s then (inl SValueTooLarge, s) else (inr tt, set_remaining (u64 (remaining s - n)) s)
            else (inr tt, s)).
(** [readFull] of a buffer of [n] bytes; the input is used up when it fails. *)
Definition readFull (n : Z) : M (list byte) :=
  willRead n ;;!
  fun s => if n <=? zlen (r s) then (inr (take (Z.to_nat n) (r s)), set_input (drop (Z.to_nat n) (r s)) s)
           else (inl UnexpectedEOF, set_input [] s).
Definition readByte : M byte :=
  willRead 1 ;;!
  fun s => match r s with b :: l => (inr b, set_input l s) | [] => (inl UnexpectedEOF, s) end.
Definition readUint (size : Z) : M Z :=
  if size =? 0 then rearm ;;! ret 0
  else if size =? 1 then let! b := readByte in ret (byte_to_Z b)
  else
    let! buf := readFull size in
    match buf with
    | b :: _ => if byte_to_Z b =? 0 then fail SCanonSize else ret (SetBytes buf)
    | [] => ret 0
    end.

(** A size below 56 has a shorter header. *)
Definition readLong (k : Kind) (size : Z) : M (Kind * Z) :=
  let! n := readUint size in if n <? 56 then fail SCanonSize else ret (k, n).
Definition s_readKind : M (Kind * Z) :=
  let! b := (fun s => match readByte s with
                      | (inl e, s') =>
                          (inl (match sstack s', e with
                                | [], UnexpectedEOF | [], SValueTooLarge => EOF
                                | _, _ => e
                                end), s')
                      | ok => ok
                      end) in
  modify (set_byteval Byte.x00) ;;!
  let z := byte_to_Z b in
  if z <? 0x80 then modify (set_byteval b) ;;! ret (KByte, 0)
  else if z <? 0xB8 then ret (KString, z - 0x80)
  else if z <? 0xC0 then readLong KString (z - 0xB7)
  else if z <? 0xF8 then ret (KList, z - 0xC0)
  else readLong KList (z - 0xF7).

(** What is read ahead is kept.  After an error only the error is read again. *)
Definition tooLarge (size : Z) (s : Stream) : option streamError :=
  match sstack s with
  | [] => if limited s && (size >? remaining s) then Some SValueTooLarge else None
  | (pos, lsize) :: _ => if size >? u64 (lsize - pos) then Some SElemTooLarge else None
  end.
Definition readAhead : M (Kind * Z) := fun s =>
  match s_readKind s with
  | (inl e, s) => (inl e, set_ahead (Some KByte) 0 (Some e) s)
  | (inr (k, n), s) =>
      match tooLarge n s with
      | Some e => (inl e, set_ahead (Some k) n (Some e) s)
      | None => (inr (k, n), set_ahead (Some k) n None s)
      end
  end.
Definition at_EOL (s : Stream) : bool := match sstack s with (pos, size) :: _ => pos =? size | [] => false end.
Definition s_Kind : M (Kind * Z) := fun s =>
  match kind s with
  | Some k => match kinderr s with Some e => (inl e, s) | None => (inr (k, ssize s), s) end
  | None =>
      let s := set_ahead None (ssize s) None s in
      if at_EOL s then (inl EOL, s) else readAhead s
  end.

(** ** Operations *)

Definition get_byteval : M byte := fun s => (inr (byteval s), s).
Definition s_Bytes : M (list byte) :=
  let! (k, size) := s_Kind in
  match k with
  | KByte => rearm ;;! let! b := get_byteval in ret [b]
  | KString =>
      let! b := readFull size in
      if (size =? 1) && match b with x :: _ => byte_to_Z x <? 128 | [] => false end then fail SCanonSize else ret b
  | KList => fail SExpectedString
  end.
(** The header is written anew, for a string with the large tag [0xB8]. *)
Definition s_Raw : M (list byte) :=
  let! (k, size) := s_Kind in
  match k with
  | KByte => rearm ;;! let! b := get_byteval in ret [b]
  | KString => let! buf := readFull size in ret (puthead 0x80 0xB8 size ++ buf)
  | KList => let! buf := readFull size in ret (puthead 0xC0 0xF7 size ++ buf)
  end.
Definition s_uint (maxbits : Z) : M Z :=
  let! (k, size) := s_Kind in
  match k with
  | KByte =>
      let! b := get_byteval in
      if byte_to_Z b =? 0 then fail SCanonInt else rearm ;;! ret (byte_to_Z b)
  | KString =>
      if size >? maxbits / 8 then fail errUintOverflow
      else
        let! v := rescue (readUint size) (fun e => match e with SCanonSize => SCanonInt | _ => e end) in
        if (size >? 0) && (v <? 128) then fail SCanonSize else ret v
  | KList => fail SExpectedString
  end.
Definition s_Uint : M Z := s_uint 64.
Definition s_Bool : M bool :=
  let! num := s_uint 8 in
  if num =? 0 then ret false else if num =? 1 then ret true else fail errBool.
Definition s_List : M Z :=
  let! (k, size) := s_Kind in
  match k with
  | KList => fun s => (inr size, set_ahead None 0 (kinderr s) (set_stack ((0, size) :: sstack s) s))
  | _ => fail SExpectedList
  end.
Definition s_ListEnd : M unit := fun s =>
  match sstack s with
  | [] => (inl errNotInList, s)
  | (pos, size) :: st =>
      if negb (pos =? size) then (inl errNotAtEOL, s)
      else
        let st := match st with (pos', size') :: st' => (u64 (pos' + size), size') :: st' | [] => [] end in
        (inr tt, set_ahead None 0 (kinderr s) (set_stack st s))
  end.

(** ** Decoders *)

Inductive dtype :=
| TRawValue
| TUint (bits : Z)
| TBool
| TString
| TBigInt
| TByteSlice
| TByteArray (n : Z)
| TSlice (tail : bool) (elem : dtype)
| TArray (n : nat) (elem : dtype)
| TStruct (fields : list dtype)
| TPtr (elem : dtype)
| TOptPtr (elem : dtype)      (* a pointer with the tag [nil] *)
| TInterface.

(** What is written for a nil pointer ([makePtrWriter]). *)
Fixpoint nil_value (elem : dtype) : value :=
  match elem with
  | TByteArray _ => VNilByteArray
  | TStruct _ | TArray _ _ => VNilStruct
  | TRawValue => VRawValue []
  | TUint _ => VUint 0
  | TBool => VBool false
  | TString | TByteSlice => VBytes []
  | TBigInt => VBigInt None
  | TSlice _ _ => VSlice false []
  | TPtr e | TOptPtr e => nil_value e
  | TInterface => VNilInterface
  end.

Definition decodeBigInt : M value :=
  let! b := rescue s_Bytes wrapStreamError in
  match b with
  | x :: _ => if byte_to_Z x =? 0 then fail (wrapStreamError SCanonInt) else ret (VBigInt (Some (SetBytes b)))
  | [] => ret (VBigInt (Some 0))
  end.
(** The error of [s.Uint] is ignored: its value is then zero. *)
Definition decodeByteArray (vlen : Z) : M value :=
  let! (k, size) := s_Kind in
  match k with
  | KByte =>
      if vlen =? 0 then fail (decodeError inputTooLong)
      else if vlen >? 1 then fail (decodeError inputTooShort)
      else fun s => match s_Uint s with
                    | (inl _, s) => (inr (VBytes [b8 0]), s)
                    | (inr bv, s) => (inr (VBytes [b8 bv]), s)
                    end
  | KString =>
      if vlen <? size then fail (decodeError inputTooLong)
      else if vlen >? size then fail (decodeError inputTooShort)
      else
        let! b := readFull vlen in
        if (size =? 1) && match b with x :: _ => byte_to_Z x <? 128 | [] => false end then fail (wrapStreamError SCanonSize)
        else ret (VBytes b)
  | KList => fail (wrapStreamError SExpectedString)
  end.

(** Elements are decoded until the end of the list. *)
Fixpoint decodeSliceElems (elemdec : M value) (fuel : nat) : M (list value) := fun s =>
  match fuel with
  | O => (inl outOfFuel, s)
  | S fuel' =>
      match elemdec s with
      | (inl EOL, s) => (inr [], s)
      | (inl e, s) => (inl e, s)
      | (inr v, s) => (let! l := decodeSliceElems elemdec fuel' in ret (v :: l)) s
      end
  end.
Definition decodeListSlice (elemdec : M value) (fuel : nat) : M (list value) :=
  let! size := rescue s_List wrapStreamError in
  if size =? 0 then s_ListEnd ;;! ret []
  else let! l := decodeSliceElems elemdec fuel in s_ListEnd ;;! ret l.
(** The end of the list before the last element is an error of its own. *)
Definition few (e : streamError) : streamError := match e with EOL => decodeError tooFewElements | _ => e end.
Fixpoint decodeFields (decs : list (M value)) : M (list value) :=
  match decs with
  | [] => ret []
  | dec :: decs' => let! v := rescue dec few in let! l := decodeFields decs' in ret (v :: l)
  end.
Definition decodeListArray (vlen : nat) (elemdec : M value) : M (list value) :=
  rescue s_List wrapStreamError ;;!
  let! l := decodeFields (replicate vlen elemdec) in
  rescue s_ListEnd wrapStreamError ;;! ret l.

Definition decodeRawValue : M value := let! b := s_Raw in ret (VRawValue b).
Definition decodeUint (bits : Z) : M value := let! i := rescue (s_uint bits) wrapStreamError in ret (VUint i).
Definition decodeBool : M value := let! b := rescue s_Bool wrapStreamError in ret (VBool b).
Definition decodeString : M value := let! b := rescue s_Bytes wrapStreamError in ret (VBytes b).
Definition decodeByteSlice : M value := let! b := rescue s_Bytes wrapStreamError in ret (VBytes b).
Definition makeStructDecoder (decs : list (M value)) : M value :=
  rescue s_List wrapStreamError ;;!
  let! l := decodeFields decs in
  rescue s_ListEnd wrapStreamError ;;! ret (VStruct l).
(** The stream is rearmed on errors too. *)
Definition makeOptionalPtrDecoder (nilv : value) (dec : M value) : M value := fun s =>
  match s_Kind s with
  | (inl err, s) => (inl err, set_kind None s)
  | (inr (k, size), s) =>
      if (size =? 0) && match k with KByte => false | _ => true end then (inr nilv, set_kind None s) else dec s
  end.
(** [dec] decodes the elements of a list, again into interfaces. *)
Definition decodeInterface (dec : M value) (fuel : nat) : M value :=
  let! (k, _) := s_Kind in
  match k with
  | KList => let! l := decodeListSlice dec fuel in ret (VSlice false l)
  | _ => let! b := s_Bytes in ret (VBytes b)
  end.
Definition makeListDecoder (tail : bool) (dec : M value) (fuel : nat) : M value :=
  if tail then let! l := decodeSliceElems dec fuel in ret (VSlice true l)
  else let! l := decodeListSlice dec fuel in ret (VSlice false l).

(** The decoder that [makeDecoder] builds; [fuel] bounds the depth of the value and the length of its lists. *)
Fixpoint decode (fuel : nat) (t : dtype) : M value := fun s =>
  match fuel with
  | O => (inl outOfFuel, s)
  | S fuel' =>
      match t with
      | TRawValue => decodeRawValue
      | TUint bits => decodeUint bits
      | TBool => decodeBool
      | TString => decodeString
      | TBigInt => decodeBigInt
      | TByteSlice => decodeByteSlice
      | TByteArray n => decodeByteArray n
      | TSlice tail e => makeListDecoder tail (decode fuel' e) fuel
      | TArray n e => let! l := decodeListArray n (decode fuel' e) in ret (VSlice false l)
      | TStruct fields => makeStructDecoder (map (decode fuel') fields)
      | TPtr e => decode fuel' e
      | TOptPtr e => makeOptionalPtrDecoder (nil_value e) (decode fuel' e)
      | TInterface => decodeInterface (decode fuel' TInterface) fuel
      end s
  end.

(** Every level of a type or of an interface value takes one unit, and a list one per element. *)
Fixpoint tsize (t : dtype) : nat :=
  match t with
  | TSlice _ e | TArray _ e | TPtr e | TOptPtr e => S (tsize e)
  | TStruct fields => S (sum_list (map tsize fields))
  | _ => 1
  end.
Definition decode_fuel (t : dtype) (b : list byte) : nat := S (tsize t + length b).
(** The input must be one value. *)
Definition DecodeBytes (b : list byte) (t : dtype) : streamError + value :=
  match decode (decode_fuel t b) t (NewStream b (zlen b)) with
  | (inl e, _) => inl e
  | (inr v, s) => if zlen (r s) >? 0 then inl SMoreThanOneValue else inr v
  end.
End RlpStream.
