(* ===== verification/RlpStreamFacts.v ===== *)
(** * The stream decoder: reading headers and contents

    A stream that stands at the bytes [w] of the innermost list, with the stack [st] and the bytes [rest]
    behind the list, and what each operation does with it. *)

From S2P Require Import Prelude GoMath World Rlp RlpProofs RlpRaw RlpStream.

Module RlpStreamFacts.
Import Rlp RlpProofs RlpRaw RlpStream.

(** ** Positions *)

Definition adv (n : Z) (st : list (Z * Z)) : list (Z * Z) :=
  match st with [] => [] | (pos, size) :: st' => (pos + n, size) :: st' end.
Definition window (st : list (Z * Z)) (w rest : list byte) : Prop :=
  match st with [] => rest = [] | (pos, size) :: _ => 0 <= pos /\ size = pos + zlen w /\ size < 2 ^ 64 end.
Record opened (s : Stream) (st : list (Z * Z)) (w rest : list byte) : Prop := {
  op_stack : sstack s = st;
  op_input : r s = w ++ rest;
  op_limited : limited s = true;
  op_remaining : remaining s = zlen (w ++ rest);
  op_window : window st w rest;
  op_small : zlen (w ++ rest) < 2 ^ 64;
}.
Definition ready (s : Stream) (st : list (Z * Z)) (w rest : list byte) : Prop := opened s st w rest /\ kind s = None.

(** An error that is not the end of the list *)
Definition hard (e : streamError) : Prop := e <> EOL /\ e <> outOfFuel.
Definition fails {A} (m : M A) (s : Stream) : Prop := exists e s', m s = (inl e, s') /\ hard e.

Lemma zlen_0 {A} (l : list A) : zlen l = 0 -> l = [].
Proof. unfold zlen. intros Hl. apply length_zero_iff_nil. lia. Qed.
Lemma adv_adv a b st : adv b (adv a st) = adv (a + b) st.
Proof. destruct st as [|[p n] st]; [done|]. cbn. by rewrite Z.add_assoc. Qed.
Lemma adv_0 st : adv 0 st = st.
Proof. destruct st as [|[p n] st]; [done|]. cbn. by rewrite Z.add_0_r. Qed.
Lemma adv_nil n st : adv n st = [] <-> st = [].
Proof. by destruct st as [|[p k] st]. Qed.
Lemma window_adv st b w rest : window st (b ++ w) rest -> window (adv (zlen b) st) w rest.
Proof. destruct st as [|[p n] st]; [done|]. cbn. rewrite zlen_app. pose proof (zlen_nonneg b). lia. Qed.
Lemma app_window {A} n (w rest : list A) : 0 <= n <= zlen w -> take (Z.to_nat n) (w ++ rest) = take (Z.to_nat n) w /\ drop (Z.to_nat n) (w ++ rest) = drop (Z.to_nat n) w ++ rest.
Proof. unfold zlen. intros Hn. split; [apply take_app_le; lia|apply drop_app_le; lia]. Qed.
Lemma cut_at {A} n (w : list A) : 0 <= n <= zlen w -> exists b w', w = b ++ w' /\ zlen b = n /\ take (Z.to_nat n) w = b /\ drop (Z.to_nat n) w = w'.
Proof.
  intros Hn. exists (take (Z.to_nat n) w), (drop (Z.to_nat n) w). split_and!; try done; [by rewrite take_drop|]. unfold zlen in *. rewrite length_take. lia.
Qed.

(** ** Bytes *)

Lemma willRead_ok s st w rest n : opened s st w rest -> 0 <= n <= zlen w ->
  exists s', willRead n s = (inr tt, s') /\ r s' = w ++ rest /\ limited s' = true /\ remaining s' = zlen (w ++ rest) - n /\ sstack s' = adv n st /\
    kind s' = None /\ byteval s' = byteval s.
Proof.
  intros [O1 O2 O3 O4 O5 O6] Hn. unfold willRead, bind, rearm, modify. cbn [sstack set_kind]. rewrite O1.
  rewrite zlen_app in *. pose proof (zlen_nonneg rest). destruct st as [|[pos size] st]; cbn [window] in O5.
  - cbn [limited set_kind remaining]. rewrite O3, O4, Z.gtb_ltb, (proj2 (Z.ltb_ge _ _)) by lia. eexists. split; [done|]. cbn.
    rewrite u64_small by lia. by split_and!.
  - assert (u64 (size - pos) = zlen w) as -> by (rewrite u64_small; lia). rewrite Z.gtb_ltb, (proj2 (Z.ltb_ge _ _)) by lia.
    cbn [limited set_kind set_stack remaining]. rewrite O3, O4, Z.gtb_ltb, (proj2 (Z.ltb_ge _ _)) by lia. eexists. split; [done|]. cbn.
    rewrite !u64_small by lia. by split_and!.
Qed.
Lemma willRead_short s st w rest n : opened s st w rest -> zlen w < n -> exists s',
  willRead n s = (inl (match st with [] => SValueTooLarge | _ => SElemTooLarge end), s') /\ sstack s' = st.
Proof.
  intros [O1 O2 O3 O4 O5 O6] Hn. unfold willRead, bind, rearm, modify. cbn [sstack set_kind]. rewrite O1.
  pose proof (zlen_nonneg w). destruct st as [|[pos size] st]; cbn [window] in O5.
  - subst rest. rewrite app_nil_r in *. cbn [limited set_kind remaining]. rewrite O3, O4, Z.gtb_ltb, (proj2 (Z.ltb_lt _ _)) by lia. eexists. by split.
  - assert (u64 (size - pos) = zlen w) as -> by (rewrite u64_small; lia). rewrite Z.gtb_ltb, (proj2 (Z.ltb_lt _ _)) by lia. eexists. by split.
Qed.
Lemma readFull_ok s st b w rest n : opened s st (b ++ w) rest -> n = zlen b -> exists s', readFull n s = (inr b, s') /\ ready s' (adv n st) w rest /\ byteval s' = byteval s.
Proof.
  intros O ->. pose proof O as [O1 O2 O3 O4 O5 O6]. pose proof (zlen_nonneg b). pose proof (zlen_nonneg w). pose proof (zlen_nonneg rest).
  destruct (willRead_ok s st (b ++ w) rest (zlen b) O) as (s1 & E & E1 & E2 & E3 & E4 & E5 & E6); [rewrite zlen_app; lia|].
  unfold readFull, bind. rewrite E, E1. rewrite !zlen_app in *. rewrite (proj2 (Z.leb_le _ _)) by lia.
  rewrite <- app_assoc. assert (Z.to_nat (zlen b) = length b) as -> by (unfold zlen; lia). rewrite take_app_length, drop_app_length. eexists. split; [done|]. split; [|done].
  split; [|done]. split; cbn; try done; [rewrite E3, zlen_app; lia|by apply window_adv|rewrite zlen_app; lia].
Qed.
Lemma readFull_fails s st w rest n : opened s st w rest -> zlen w < n -> fails (readFull n) s.
Proof.
  intros O Hn. destruct (willRead_short s st w rest n O Hn) as (s' & E & _). unfold fails, readFull, bind. rewrite E. eexists _, _. split; [done|]. by destruct st.
Qed.
Lemma readByte_ok s st b w rest : opened s st (b :: w) rest -> exists s', readByte s = (inr b, s') /\ ready s' (adv 1 st) w rest /\ byteval s' = byteval s.
Proof.
  intros O. pose proof O as [O1 O2 O3 O4 O5 O6]. pose proof (zlen_nonneg w). pose proof (zlen_nonneg rest).
  destruct (willRead_ok s st (b :: w) rest 1 O) as (s1 & E & E1 & E2 & E3 & E4 & E5 & E6); [rewrite zlen_cons; lia|].
  unfold readByte, bind. rewrite E, E1. cbn [app]. eexists. split; [done|]. split; [|done]. cbn [app] in *. rewrite !zlen_cons in *.
  split; [|done]. split; cbn; try done; [lia|by apply (window_adv st [b])|lia].
Qed.
Lemma readByte_empty s st rest : opened s st [] rest -> exists s', readByte s = (inl (match st with [] => SValueTooLarge | _ => SElemTooLarge end), s') /\ sstack s' = st.
Proof. intros O. destruct (willRead_short s st [] rest 1 O) as (s' & E & Es); [done|]. unfold readByte, bind. rewrite E. by exists s'. Qed.

(** ** Sizes *)

Lemma readUint_ok s st n w rest : opened s st (Bytes n ++ w) rest -> 0 <= n < 2 ^ 64 ->
  exists s', readUint (zlen (Bytes n)) s = (inr n, s') /\ ready s' (adv (zlen (Bytes n)) st) w rest /\ byteval s' = byteval s.
Proof.
  intros O Hn. unfold readUint. destruct (decide (n = 0)) as [->|Hne].
  { change (Bytes 0) with (@nil byte) in *. cbn. exists (set_kind None s). split_and!; try done. rewrite adv_0. destruct O. by split. }
  destruct (putint_lead n) as (b & bs & E & Hb & Hs); [lia|]. rewrite <- putint_Bytes by lia. rewrite <- putint_Bytes in O by lia. rewrite E in *.
  rewrite zlen_cons in *. pose proof (zlen_nonneg bs). rewrite (proj2 (Z.eqb_neq _ _)) by lia. destruct (Z.eqb_spec (zlen bs + 1) 1) as [E1|E1].
  - assert (bs = []) as -> by (apply zlen_0; lia).
    destruct (readByte_ok s st b w rest O) as (s' & E' & R & B). unfold bind, ret. rewrite E'. exists s'. rewrite SetBytes_singleton in Hs. by rewrite Hs.
  - destruct (readFull_ok s st (b :: bs) w rest (zlen bs + 1) O) as (s' & E' & R & B); [by rewrite zlen_cons|]. unfold bind. rewrite E'.
    rewrite (proj2 (Z.eqb_neq _ _)) by done. exists s'. by rewrite Hs.
Qed.
(** A canonical integer is read, or there is an error; a single byte is taken as it is. *)
Lemma readUint_inv s st w rest k : opened s st w rest -> 0 <= k <= 8 ->
  (exists n w' s', readUint k s = (inr n, s') /\ 0 <= n < 2 ^ 64 /\ ready s' (adv k st) w' rest /\ byteval s' = byteval s /\
     (w = Bytes n ++ w' /\ zlen (Bytes n) = k \/ k = 1 /\ n = 0)) \/
  fails (readUint k) s.
Proof.
  intros O Hk. pose proof (zlen_nonneg w). destruct (Z.ltb_spec (zlen w) k) as [Hlt|Hge].
  { right. unfold fails, readUint, bind. rewrite (proj2 (Z.eqb_neq _ _)) by lia. destruct (Z.eqb_spec k 1) as [->|].
    - rewrite (zlen_0 w) in O by lia. destruct (readByte_empty s st rest O) as (s' & -> & _).
      eexists _, _. split; [done|]. by destruct st.
    - destruct (readFull_fails s st w rest k O Hlt) as (e & s' & -> & He). by eexists _, _. }
  destruct (cut_at k w) as (b & w' & -> & Hb & _); [lia|]. unfold readUint. destruct (Z.eqb_spec k 0) as [->|H0].
  { left. apply zlen_0 in Hb as ->. exists 0, w', (set_kind None s). split_and!; try done; [rewrite adv_0; destruct O; by split|by left]. }
  destruct b as [|x b]; [change (zlen (@nil byte)) with 0 in Hb; lia|]. pose proof (byte_to_Z_range x). destruct (Z.eqb_spec k 1) as [->|Hk1].
  { left. rewrite zlen_cons in Hb. assert (b = []) as -> by (apply zlen_0; lia).
    destruct (readByte_ok s st x w' rest O) as (s' & E & R & B). unfold bind. rewrite E. exists (byte_to_Z x), w', s'. split_and!; try done; [lia..|].
    destruct (decide (byte_to_Z x = 0)); [by right|]. left. rewrite Bytes_small by lia. rewrite byte_of_to_Z. done. }
  destruct (readFull_ok s st (x :: b) w' rest k O) as (s' & E & R & B); [by rewrite Hb|]. unfold fails, bind. rewrite E.
  destruct (Z.eqb_spec (byte_to_Z x) 0) as [|Hx]; [right; by eexists _, _|left].
  assert (length (x :: b) <= 8)%nat as Hl by (unfold zlen in Hb; lia). pose proof (putint_SetBytes x b Hx Hl) as Hp.
  assert (0 < SetBytes (x :: b) < 2 ^ 64) as Hr.
  { destruct (nbytes_lead x b Hx) as [N1 N2]. split; [pose proof (Z.pow_pos_nonneg 256 (Z.of_nat (length (x :: b)) - 1)); cbn [length] in *; lia|].
    eapply Z.lt_le_trans; [exact N2|]. change (2 ^ 64) with (256 ^ 8). apply Z.pow_le_mono_r; lia. }
  exists (SetBytes (x :: b)), w', s'. split_and!; try done; [lia..|]. left. rewrite <- putint_Bytes, Hp by lia. done.
Qed.

(** ** Headers *)

Inductive header : Kind -> Z -> byte -> list byte -> Prop :=
| hd_byte b : byte_to_Z b < 128 -> header KByte 0 b [b]
| hd_string n : 0 <= n < 2 ^ 64 -> header KString n Byte.x00 (puthead 0x80 0xB7 n)
| hd_list n : 0 <= n < 2 ^ 64 -> header KList n Byte.x00 (puthead 0xC0 0xF7 n).

Lemma header_size k n bv pre : header k n bv pre -> 0 <= n < 2 ^ 64 /\ 1 <= zlen pre.
Proof.
  destruct 1 as [b Hb|n Hn|n Hn]; split; try done; rewrite zlen_puthead by done; unfold headsize; destruct (n <? 56); pose proof (putint_intsize n Hn); lia.
Qed.
Lemma ready_byteval s st w rest b : ready s st w rest -> ready (set_byteval b s) st w rest /\ byteval (set_byteval b s) = b.
Proof. intros [[O1 O2 O3 O4 O5 O6] K]. by split; [split|]. Qed.
Lemma readLong_ok s st k n w rest : 56 <= n < 2 ^ 64 -> ready s st (putint n ++ w) rest ->
  exists s', readLong k (zlen (putint n)) s = (inr (k, n), s') /\ ready s' (adv (zlen (putint n)) st) w rest /\ byteval s' = byteval s.
Proof.
  intros Hn [O _]. rewrite putint_Bytes in * by lia. destruct (readUint_ok s st n w rest O) as (s' & E & R & B); [lia|].
  unfold readLong, bind. rewrite E, (proj2 (Z.ltb_ge _ _)) by lia. by exists s'.
Qed.
Lemma readLong_inv s st k j w rest : 0 < j <= 8 -> ready s st w rest ->
  (exists n w' s', readLong k j s = (inr (k, n), s') /\ 56 <= n < 2 ^ 64 /\ w = putint n ++ w' /\ zlen (putint n) = j /\ ready s' (adv j st) w' rest /\ byteval s' = byteval s) \/
  fails (readLong k j) s.
Proof.
  intros Hj [O _]. destruct (readUint_inv s st w rest j O) as [(n & w' & s' & E & Hn & R & B & Hw)|(e & s' & E & He)]; [lia| |right; unfold fails, readLong, bind; rewrite E; by eexists _, _].
  unfold fails, readLong, bind. rewrite E. destruct (Z.ltb_spec n 56) as [Hlt|Hge]; [right; by eexists _, _|left].
  destruct Hw as [[Hw Hl]|[_ ?]]; [|lia]. exists n, w', s'. rewrite putint_Bytes by lia. by split_and!; try done; lia.
Qed.

Lemma readKind_start s st b w rest : opened s st (b :: w) rest -> exists s0, ready s0 (adv 1 st) w rest /\ byteval s0 = Byte.x00 /\ forall o,
  (let z := byte_to_Z b in
   if z <? 0x80 then modify (set_byteval b) ;;! ret (KByte, 0)
   else if z <? 0xB8 then ret (KString, z - 0x80)
   else if z <? 0xC0 then readLong KString (z - 0xB7)
   else if z <? 0xF8 then ret (KList, z - 0xC0)
   else readLong KList (z - 0xF7)) s0 = o -> s_readKind s = o.
Proof.
  intros O. destruct (readByte_ok s st b w rest O) as (s1 & E & R & B). destruct (ready_byteval s1 _ _ _ Byte.x00 R) as [R0 B0].
  exists (set_byteval Byte.x00 s1). split_and!; try done. intros o Ho. unfold s_readKind. unfold bind at 1. rewrite E. exact Ho.
Qed.
Lemma readKind_ok s st k n bv pre w rest : header k n bv pre -> opened s st (pre ++ w) rest ->
  exists s', s_readKind s = (inr (k, n), s') /\ ready s' (adv (zlen pre) st) w rest /\ byteval s' = bv.
Proof.
  intros H O. assert (exists b pre', pre = b :: pre') as (b & pre' & ->).
  { pose proof (header_size _ _ _ _ H) as [_ Hp]. destruct pre as [|b pre']; [change (zlen (@nil byte)) with 0 in Hp; lia|by exists b, pre']. }
  destruct (readKind_start s st b (pre' ++ w) rest O) as (s0 & R0 & B0 & Ho).
  remember (b :: pre') as pre eqn:Ep. destruct H as [x Hx|n Hn|n Hn].
  - injection Ep as <- <-. destruct (ready_byteval _ _ _ _ x R0) as [R1 B1]. exists (set_byteval x s0). split; [|done]. apply Ho. cbv zeta.
    by rewrite (proj2 (Z.ltb_lt _ _)) by lia.
  - unfold puthead in *. destruct (Z.ltb_spec n 56) as [Hs|Hs]; injection Ep as <- <-.
    + exists s0. split; [|done]. apply Ho. cbv zeta. rewrite byte_b8 by lia. repeat (bdestr; try lia). unfold ret. repeat f_equal. lia.
    + destruct (putint_intsize n) as [_ Hl]; [lia|]. destruct (readLong_ok s0 _ KString n w rest ltac:(lia) R0) as (s' & E & R & B). exists s'. split_and!; [|by rewrite zlen_cons, Z.add_comm, <- adv_adv|by rewrite B].
      apply Ho. cbv zeta. rewrite byte_b8 by lia. repeat (bdestr; try lia). replace (183 + zlen (putint n) - 183) with (zlen (putint n)) by lia. exact E.
  - unfold puthead in *. destruct (Z.ltb_spec n 56) as [Hs|Hs]; injection Ep as <- <-.
    + exists s0. split; [|done]. apply Ho. cbv zeta. rewrite byte_b8 by lia. repeat (bdestr; try lia). unfold ret. repeat f_equal. lia.
    + destruct (putint_intsize n) as [_ Hl]; [lia|]. destruct (readLong_ok s0 _ KList n w rest ltac:(lia) R0) as (s' & E & R & B). exists s'. split_and!; [|by rewrite zlen_cons, Z.add_comm, <- adv_adv|by rewrite B].
      apply Ho. cbv zeta. rewrite byte_b8 by lia. repeat (bdestr; try lia). replace (247 + zlen (putint n) - 247) with (zlen (putint n)) by lia. exact E.
Qed.
Lemma s_readKind_inv s st b w rest : opened s st (b :: w) rest ->
  (exists k n bv pre w' s', header k n bv pre /\ b :: w = pre ++ w' /\ s_readKind s = (inr (k, n), s') /\ ready s' (adv (zlen pre) st) w' rest /\ byteval s' = bv) \/
  fails s_readKind s.
Proof.
  intros O. destruct (readKind_start s st b w rest O) as (s0 & R0 & B0 & Ho). pose proof (byte_to_Z_range b) as Hb. cbv zeta in Ho.
  assert (forall k n bv pre w', header k n bv pre -> b :: w = pre ++ w' ->
    exists k n bv pre w' s', header k n bv pre /\ b :: w = pre ++ w' /\ s_readKind s = (inr (k, n), s') /\ ready s' (adv (zlen pre) st) w' rest /\ byteval s' = bv) as Hok.
  { intros k n bv pre w' H E. rewrite E in O. destruct (readKind_ok s st k n bv pre w' rest H O) as (s' & E' & R & B). by exists k, n, bv, pre, w', s'. }
  assert (forall k small large j, (k = KString /\ small = 0x80 /\ large = 0xB7 \/ k = KList /\ small = 0xC0 /\ large = 0xF7) -> byte_to_Z b = large + j -> 0 < j <= 8 ->
    (forall o, readLong k j s0 = o -> s_readKind s = o) ->
    (exists k n bv pre w' s', header k n bv pre /\ b :: w = pre ++ w' /\ s_readKind s = (inr (k, n), s') /\ ready s' (adv (zlen pre) st) w' rest /\ byteval s' = bv) \/ fails s_readKind s) as Hlong.
  { intros k small large j Hk Eb Hj Hr. destruct (readLong_inv s0 _ k j w rest Hj R0) as [(n & w' & s' & E & Hn & Ew & Hl & _)|(e & s' & E & He)]; [left|right; by eexists _, _; split; [apply Hr|]].
    assert (b :: w = puthead small large n ++ w') as E'.
    { unfold puthead. rewrite (proj2 (Z.ltb_ge _ _)) by lia. cbn [app]. rewrite <- Ew. f_equal. apply b8_byte. lia. }
    destruct Hk as [(-> & -> & ->)|(-> & -> & ->)]; (eapply Hok; [|exact E']); constructor; lia. }
  destruct (Z.ltb_spec (byte_to_Z b) 128); [left; eapply (Hok KByte 0 b [b] w); [by constructor|done]|].
  destruct (Z.ltb_spec (byte_to_Z b) 184).
  { left. apply (Hok KString (byte_to_Z b - 128) Byte.x00 (puthead 0x80 0xB7 (byte_to_Z b - 128)) w); [constructor; lia|]. unfold puthead. rewrite (proj2 (Z.ltb_lt _ _)) by lia.
    cbn [app]. f_equal. apply b8_byte. lia. }
  destruct (Z.ltb_spec (byte_to_Z b) 192); [apply (Hlong KString 0x80 0xB7 (byte_to_Z b - 183)); [by left|lia|lia|exact Ho]|].
  destruct (Z.ltb_spec (byte_to_Z b) 248).
  { left. apply (Hok KList (byte_to_Z b - 192) Byte.x00 (puthead 0xC0 0xF7 (byte_to_Z b - 192)) w); [constructor; lia|]. unfold puthead. rewrite (proj2 (Z.ltb_lt _ _)) by lia.
    cbn [app]. f_equal. apply b8_byte. lia. }
  apply (Hlong KList 0xC0 0xF7 (byte_to_Z b - 247)); [by right|lia|lia|exact Ho].
Qed.

(** ** Looking ahead *)

(** A header has been read, and what follows fits. *)
Record peeked (s : Stream) (k : Kind) (n : Z) (bv : byte) (st : list (Z * Z)) (w rest : list byte) : Prop := {
  pk_kind : kind s = Some k;
  pk_size : ssize s = n;
  pk_byte : byteval s = bv;
  pk_err : kinderr s = None;
  pk_open : opened s st w rest;
  pk_fits : n <= zlen w;
}.
(** At [w], with the header read or not *)
Definition start (s : Stream) (st : list (Z * Z)) (w rest : list byte) : Prop :=
  ready s st w rest \/ exists k n bv pre w1, header k n bv pre /\ w = pre ++ w1 /\ zlen w < 2 ^ 64 /\ peeked s k n bv (adv (zlen pre) st) w1 rest.
Lemma ready_start s st w rest : ready s st w rest -> start s st w rest.
Proof. by left. Qed.

Lemma set_ahead_opened s st w rest k n e : opened s st w rest -> opened (set_ahead k n e s) st w rest.
Proof. intros [O1 O2 O3 O4 O5 O6]. by split. Qed.
Lemma set_kind_ready s st w rest : opened s st w rest -> ready (set_kind None s) st w rest.
Proof. intros [O1 O2 O3 O4 O5 O6]. by split. Qed.
Lemma at_EOL_window s st w rest : opened s st w rest -> st <> [] -> at_EOL s = bool_decide (w = []).
Proof.
  intros [O1 O2 O3 O4 O5 O6] Hst. unfold at_EOL. rewrite O1. destruct st as [|[pos size] st]; [done|]. cbn in O5. pose proof (zlen_nonneg w).
  case_bool_decide as E; [subst w; change (zlen (@nil byte)) with 0 in O5; apply Z.eqb_eq; lia|]. apply Z.eqb_neq. intros ->. apply E, zlen_0. lia.
Qed.
Lemma tooLarge_window s st w rest n : opened s st w rest -> tooLarge n s = None <-> n <= zlen w.
Proof.
  intros [O1 O2 O3 O4 O5 O6]. unfold tooLarge. rewrite O1. pose proof (zlen_nonneg w). destruct st as [|[pos size] st]; cbn in O5; rewrite Z.gtb_ltb.
  - subst rest. rewrite app_nil_r in *. rewrite O3, O4. cbn [andb]. destruct (Z.ltb_spec (zlen w) n); split; done || lia.
  - assert (u64 (size - pos) = zlen w) as -> by (rewrite u64_small; lia). destruct (Z.ltb_spec (zlen w) n); split; done || lia.
Qed.
Lemma tooLarge_hard s n e : tooLarge n s = Some e -> hard e.
Proof. unfold tooLarge. intros E. by repeat case_match; simplify_eq. Qed.

Lemma header_unique k n bv pre w k' n' bv' pre' w' : header k n bv pre -> header k' n' bv' pre' -> pre ++ w = pre' ++ w' -> zlen (pre ++ w) < 2 ^ 64 ->
  k' = k /\ n' = n /\ bv' = bv /\ pre' = pre /\ w' = w.
Proof.
  intros H H' E Hl. set (s := NewStream (pre ++ w) 0). assert (opened s [] (pre ++ w) []) as O by (split; cbn; rewrite ?app_nil_r; done).
  destruct (readKind_ok s [] k n bv pre w [] H O) as (s1 & E1 & [O1 _] & B1). rewrite E in O.
  destruct (readKind_ok s [] k' n' bv' pre' w' [] H' O) as (s2 & E2 & [O2 _] & B2). rewrite E1 in E2. injection E2 as <- <- <-.
  pose proof (op_input _ _ _ _ O1) as I1. rewrite (op_input _ _ _ _ O2), !app_nil_r in I1. subst w'. apply app_inv_tail in E. by subst.
Qed.
Lemma Kind_ok s st k n bv pre w rest : header k n bv pre -> start s st (pre ++ w) rest -> n <= zlen w ->
  exists s', s_Kind s = (inr (k, n), s') /\ peeked s' k n bv (adv (zlen pre) st) w rest.
Proof.
  intros H [[O K]|(k' & n' & bv' & pre' & w' & H' & E & Hl & P)] Hn.
  - unfold s_Kind. rewrite K. set (s0 := set_ahead None (ssize s) None s). assert (opened s0 st (pre ++ w) rest) as O0 by (by apply set_ahead_opened).
    assert (at_EOL s0 = false) as ->.
    { destruct st as [|p st]; [unfold at_EOL; by rewrite (op_stack _ _ _ _ O0)|]. rewrite (at_EOL_window _ _ _ _ O0) by done. apply bool_decide_eq_false.
      intros E. pose proof (header_size _ _ _ _ H) as [_ Hp]. apply (f_equal zlen) in E. rewrite zlen_app in E. pose proof (zlen_nonneg w). change (zlen (@nil byte)) with 0 in E. lia. }
    destruct (readKind_ok s0 st k n bv pre w rest H O0) as (s' & E & [O' K'] & B). unfold readAhead. rewrite E, (proj2 (tooLarge_window s' _ _ _ n O')) by done.
    eexists. split; [done|]. split; try done. by apply set_ahead_opened.
  - destruct (header_unique _ _ _ _ _ _ _ _ _ _ H H' E Hl) as (-> & -> & -> & -> & ->). exists s. split; [|done]. destruct P as [P1 P2 P3 P4 P5 P6].
    unfold s_Kind. by rewrite P1, P4, P2.
Qed.
Lemma Kind_EOL s st rest : start s st [] rest -> st <> [] -> exists s', s_Kind s = (inl EOL, s') /\ ready s' st [] rest.
Proof.
  intros [[O K]|(k & n & bv & pre & w & H & E & _)] Hst.
  - unfold s_Kind. rewrite K. rewrite (at_EOL_window _ st [] rest) by (done || by apply set_ahead_opened). eexists. split; [done|]. split; [by apply set_ahead_opened|done].
  - pose proof (header_size _ _ _ _ H) as [_ Hp]. apply (f_equal zlen) in E. rewrite zlen_app in E. pose proof (zlen_nonneg w). change (zlen (@nil byte)) with 0 in E. lia.
Qed.
Lemma Kind_inv s st w rest : start s st w rest -> (w = [] -> st = []) ->
  (exists k n bv pre w' s', header k n bv pre /\ w = pre ++ w' /\ s_Kind s = (inr (k, n), s') /\ peeked s' k n bv (adv (zlen pre) st) w' rest) \/ fails s_Kind s.
Proof.
  intros [[O K]|(k & n & bv & pre & w' & H & E & Hl & P)] Hst.
  2: { left. exists k, n, bv, pre, w', s. split_and!; try done. destruct P as [P1 P2 P3 P4 P5 P6]. unfold s_Kind. by rewrite P1, P4, P2. }
  unfold fails, s_Kind. rewrite K. set (s0 := set_ahead None (ssize s) None s). assert (opened s0 st w rest) as O0 by (by apply set_ahead_opened).
  destruct w as [|b w].
  { right. rewrite Hst in * by done. unfold at_EOL. rewrite (op_stack _ _ _ _ O0). destruct (readByte_empty s0 [] rest O0) as (s' & E & Es).
    unfold readAhead, s_readKind, bind. rewrite E, Es. by eexists _, _. }
  assert (at_EOL s0 = false) as ->.
  { destruct st as [|p st]; [unfold at_EOL; by rewrite (op_stack _ _ _ _ O0)|]. by rewrite (at_EOL_window _ _ _ _ O0). }
  unfold readAhead. destruct (s_readKind_inv s0 st b w rest O0) as [(k & n & bv & pre & w' & s' & H & E & E' & [O' K'] & B)|(e & s' & E & He)];
    [|right; rewrite E; by eexists _, _]. rewrite E'. destruct (tooLarge n s') as [e|] eqn:Et; [right; eexists _, _; split; [done|by eapply tooLarge_hard]|left].
  exists k, n, bv, pre, w', (set_ahead (Some k) n None s'). split_and!; try done. split; try done; [by apply set_ahead_opened|by eapply tooLarge_window].
Qed.
End RlpStreamFacts.
