(* ===== verification/RlpStreamThms.v ===== *)
(** * The stream decoder: theorems

    The language of a type, as byte strings with the values they stand for, and the theorem that the
    decoder accepts exactly this language.  A decoder is described by [parses], which the combinators below
    build up from the operations of the stream. *)

From S2P Require Import Prelude GoMath World Rlp RlpProofs RlpRaw RlpStream RlpStreamFacts.

Module RlpStreamThms.
Import Rlp RlpProofs RlpRaw RlpStream RlpStreamFacts.

(** ** Parsers *)

(** A header and the content it announces *)
Definition framed (b : list byte) : Prop := exists k n bv pre c, header k n bv pre /\ b = pre ++ c /\ zlen c = n.
(** On windows of [N] bytes at most, [m] reads exactly the strings of [G]. *)
Record parses {A} (N : nat) (m : M A) (G : list byte -> A -> Prop) : Prop := {
  ps_complete : forall s st b w rest a, G b a -> start s st (b ++ w) rest -> (length (b ++ w) <= N)%nat ->
    exists s', m s = (inr a, s') /\ ready s' (adv (zlen b) st) w rest;
  ps_sound : forall s st w rest, start s st w rest -> (length w <= N)%nat -> (w = [] -> st = []) ->
    (exists b w' a, w = b ++ w' /\ G b a) \/ fails m s;
  ps_EOL : forall s st rest, start s st [] rest -> st <> [] -> exists s', m s = (inl EOL, s') /\ ready s' st [] rest;
  ps_framed : forall b a, G b a -> framed b;
}.

Lemma header_content k n bv pre (w : list byte) : header k n bv pre -> n <= zlen w -> exists c w', w = c ++ w' /\ zlen c = n.
Proof. intros H Hn. pose proof (header_size _ _ _ _ H) as [? _]. destruct (cut_at n w) as (c & w' & ? & ? & _); [lia|]. by exists c, w'. Qed.
Lemma header_nonempty k n bv pre c : header k n bv pre -> pre ++ c <> [].
Proof. intros H E. pose proof (header_size _ _ _ _ H) as [_ Hp]. apply app_nil in E as [-> _]. change (zlen (@nil byte)) with 0 in Hp. lia. Qed.
Lemma ps_nonempty {A} N (m : M A) G b a : parses N m G -> G b a -> b <> [].
Proof. intros P Hb. destruct (ps_framed _ _ _ P b a Hb) as (k & n & bv & pre & c & H & -> & _). by eapply header_nonempty. Qed.

(** An operation that starts by looking at the header *)
Lemma by_kind_within {A} (body : Kind * Z -> M A) (G : list byte -> A -> Prop) N :
  (forall b a, G b a -> exists k n bv pre c, header k n bv pre /\ b = pre ++ c /\ zlen c = n /\
     forall s st w rest, peeked s k n bv st (c ++ w) rest -> (length c < N)%nat -> exists s', body (k, n) s = (inr a, s') /\ ready s' (adv n st) w rest) ->
  (forall k n bv pre c s st w rest, header k n bv pre -> zlen c = n -> peeked s k n bv st (c ++ w) rest -> (length c < N)%nat ->
     (exists a, G (pre ++ c) a) \/ fails (body (k, n)) s) ->
  parses N (bind s_Kind body) G.
Proof.
  intros Hc Hs. assert (forall k n bv pre c w, header k n bv pre -> length (pre ++ c ++ w) <= N -> length c < N)%nat as Hlen.
  { intros k n bv pre c w H Hl. pose proof (header_size _ _ _ _ H) as [_ Hp]. rewrite !length_app in Hl. unfold zlen in Hp. lia. }
  split.
  - intros s st b w rest a Hg S Hl. destruct (Hc b a Hg) as (k & n & bv & pre & c & H & -> & Hn & Hb). rewrite <- app_assoc in S, Hl.
    destruct (Kind_ok s st k n bv pre (c ++ w) rest H S) as (s1 & E & P); [rewrite zlen_app; pose proof (zlen_nonneg w); lia|].
    destruct (Hb s1 _ w rest P) as (s2 & E2 & R2); [by eapply Hlen|]. exists s2. unfold bind. rewrite E. split; [done|]. by rewrite zlen_app, Hn, <- adv_adv.
  - intros s st w rest S Hl Hw. destruct (Kind_inv s st w rest S Hw) as [(k & n & bv & pre & w' & s' & H & -> & E & P)|(e & s' & E & He)];
      [|right; unfold fails, bind; rewrite E; by eexists _, _].
    destruct (header_content _ _ _ _ _ H (pk_fits _ _ _ _ _ _ _ P)) as (c & w2 & -> & Hn).
    destruct (Hs k n bv pre c s' _ w2 rest H Hn P) as [[a Ha]|(e & s2 & E2 & He)]; [by eapply Hlen|left; exists (pre ++ c), w2, a; split; [by rewrite app_assoc|done]|right].
    unfold fails, bind. rewrite E. by eexists _, _.
  - intros s st rest S Hst. destruct (Kind_EOL s st rest S Hst) as (s' & E & R). exists s'. unfold bind. by rewrite E.
  - intros b a Hg. destruct (Hc b a Hg) as (k & n & bv & pre & c & H & -> & Hn & _). by exists k, n, bv, pre, c.
Qed.
Lemma by_kind {A} (body : Kind * Z -> M A) (G : list byte -> A -> Prop) N :
  (forall b a, G b a -> exists k n bv pre c, header k n bv pre /\ b = pre ++ c /\ zlen c = n /\
     forall s st w rest, peeked s k n bv st (c ++ w) rest -> exists s', body (k, n) s = (inr a, s') /\ ready s' (adv n st) w rest) ->
  (forall k n bv pre c s st w rest, header k n bv pre -> zlen c = n -> peeked s k n bv st (c ++ w) rest -> (exists a, G (pre ++ c) a) \/ fails (body (k, n)) s) ->
  parses N (bind s_Kind body) G.
Proof.
  intros Hc Hs. apply by_kind_within; [|eauto]. intros b a Hg. destruct (Hc b a Hg) as (k & n & bv & pre & c & H & E & Hn & Hb). exists k, n, bv, pre, c. split_and!; try done. eauto.
Qed.
Lemma parses_rescue {A} N (m : M A) G f : parses N m G -> f EOL = EOL -> (forall e, hard e -> hard (f e)) -> parses N (rescue m f) G.
Proof.
  intros [P1 P2 P3 P4] Hf Hh. split; [| | |done].
  - intros s st b w rest a Hg S Hl. destruct (P1 s st b w rest a Hg S Hl) as (s' & E & R). exists s'. unfold rescue. by rewrite E.
  - intros s st w rest S Hl Hw. destruct (P2 s st w rest S Hl Hw) as [?|(e & s' & E & He)]; [by left|right]. exists (f e), s'. unfold rescue. rewrite E. auto.
  - intros s st rest S Hst. destruct (P3 s st rest S Hst) as (s' & E & R). exists s'. unfold rescue. by rewrite E, Hf.
Qed.
Lemma wrap_hard e : hard e -> hard (wrapStreamError e).
Proof. intros He. by destruct e. Qed.
Lemma parses_wrap {A} N (m : M A) G : parses N m G -> parses N (rescue m wrapStreamError) G.
Proof. intros P. apply parses_rescue; [done|done|apply wrap_hard]. Qed.
(** A value that is checked and converted after it was read *)
Lemma parses_then {A B} N (m : M A) (k : A -> M B) G : parses N m G ->
  (forall a, (exists b, k a = ret b) \/ exists e, k a = fail e /\ hard e) -> parses N (bind m k) (fun b v => exists a, G b a /\ k a = ret v).
Proof.
  intros [P1 P2 P3 P4] Hk. split.
  - intros s st b w rest v (a & Hg & Ek) S Hl. destruct (P1 s st b w rest a Hg S Hl) as (s' & E & R). exists s'. unfold bind. by rewrite E, Ek.
  - intros s st w rest S Hl Hw. destruct (P2 s st w rest S Hl Hw) as [(b & w' & a & -> & Hg)|(e & s' & E & He)]; [|right; unfold fails, bind; rewrite E; by eexists _, _].
    destruct (Hk a) as [[v Ev]|(e & Ee & He)]; [left; exists b, w', v; split; [done|by exists a]|right].
    destruct (P1 s st b w' rest a Hg S Hl) as (s' & E & R). unfold fails, bind. rewrite E, Ee. by eexists _, _.
  - intros s st rest S Hst. destruct (P3 s st rest S Hst) as (s' & E & R). exists s'. unfold bind. by rewrite E.
  - intros b v (a & Hg & _). by eapply P4.
Qed.
Lemma parses_mono {A} N N' (m : M A) G G' : (N' <= N)%nat -> parses N m G -> (forall b a, G b a <-> G' b a) -> parses N' m G'.
Proof.
  intros HN [P1 P2 P3 P4] Hg. split.
  - intros s st b w rest a Ha S Hl. apply P1; [by apply Hg|done|lia].
  - intros s st w rest S Hl Hw. destruct (P2 s st w rest S) as [(b & w' & a & -> & Ha)|?]; [lia|done|left; exists b, w', a; split; [done|by apply Hg]|by right].
  - done.
  - intros b a Ha. by eapply P4, Hg.
Qed.
Lemma ret_inj {A} (a b : A) : ret a = ret b -> a = b.
Proof. intros E. apply (f_equal (fun m => m new_Stream)) in E. by injection E. Qed.
Lemma ret_fail {A} (a : A) e : fail e <> ret a.
Proof. intros E. by apply (f_equal (fun m => m new_Stream)) in E. Qed.

(** ** Strings and integers *)

Lemma rlp_string_header c : (forall x, c = [x] -> 0x7F < byte_to_Z x) -> rlp (Str c) = puthead 0x80 0xB7 (zlen c) ++ c.
Proof. intros Hc. destruct (rlp_Str c) as [(x & -> & Hx & _)|[-> _]]; [specialize (Hc x eq_refl); lia|done]. Qed.
Lemma peeked_string s n st c w rest bv k : peeked s k n bv st (c ++ w) rest -> zlen c = n -> exists s', readFull n s = (inr c, s') /\ ready s' (adv n st) w rest.
Proof. intros P Hn. destruct (readFull_ok s st c w rest n (pk_open _ _ _ _ _ _ _ P)) as (s' & E & R & _); [done|]. by exists s'. Qed.
Lemma peeked_byte s k n bv st c w rest : peeked s k n bv st (c ++ w) rest -> n = 0 -> zlen c = n ->
  get_byteval (set_kind None s) = (inr bv, set_kind None s) /\ ready (set_kind None s) (adv n st) w rest.
Proof.
  intros P -> Hn. apply zlen_0 in Hn as ->. rewrite adv_0. split; [unfold get_byteval; cbn; by rewrite (pk_byte _ _ _ _ _ _ _ P)|]. by apply set_kind_ready, P.
Qed.

(** A string that a shorter header could have announced *)
Definition longhand (c : list byte) : bool := (zlen c =? 1) && match c with x :: _ => byte_to_Z x <? 128 | [] => false end.
Lemma longhand_spec c : longhand c = false <-> forall x, c = [x] -> 0x7F < byte_to_Z x.
Proof.
  unfold longhand. destruct c as [|x [|y c]].
  - split; [by intros _ x|done].
  - cbn [zlen length]. change (zlen [x] =? 1) with true. cbn [andb]. rewrite Z.ltb_ge. split; [intros Hx z [= <-]; lia|intros Hx; specialize (Hx x eq_refl); lia].
  - split; [by intros _ z|]. intros _. rewrite !zlen_cons. rewrite (proj2 (Z.eqb_neq _ _)); [done|]. pose proof (zlen_nonneg c). lia.
Qed.
Lemma Bytes_parses N : parses N s_Bytes (fun b c => b = rlp (Str c) /\ zlen c < 2 ^ 64).
Proof.
  apply by_kind.
  - intros b c [-> Hc]. destruct (rlp_Str c) as [(x & -> & Hx & ->)|[-> Hx]].
    + exists KByte, 0, x, [x], []. split_and!; try done; [constructor; lia|]. intros s st w rest P. destruct (peeked_byte _ _ _ _ _ [] _ _ P) as [E R]; try done.
      eexists. split; [|exact R]. unfold bind, rearm, modify. by rewrite E.
    + exists KString, (zlen c), Byte.x00, (puthead 0x80 0xB7 (zlen c)), c. split_and!; try done; [constructor; split; [apply zlen_nonneg|done]|]. intros s st w rest P.
      destruct (peeked_string _ _ _ _ _ _ _ _ P eq_refl) as (s' & E & R). exists s'. split; [|done]. unfold bind. rewrite E. apply longhand_spec in Hx. unfold longhand in Hx. by rewrite Hx.
  - intros k n bv pre c s st w rest H Hn P. destruct H as [x Hx|n Hn'|n Hn'].
    + left. apply zlen_0 in Hn as ->. exists [x]. cbn [rlp app]. rewrite (proj2 (Z.leb_le _ _)) by lia. done.
    + destruct (peeked_string _ _ _ _ _ _ _ _ P Hn) as (s' & E & R). unfold fails, bind. rewrite E. subst n. fold (longhand c). destruct (longhand c) eqn:El; [right; by eexists _, _|left].
      exists c. split; [|lia]. symmetry. by apply rlp_string_header, longhand_spec.
    + right. by eexists _, _.
Qed.

(** The encoding of a string of 56 bytes or more, and what [Raw] gives for the encoding of a value: the
    header of such a string comes back with a tag that is one too large. *)
Definition long_string (b : list byte) : bool := match b with x :: _ => (0xB8 <=? byte_to_Z x) && (byte_to_Z x <=? 0xBF) | [] => false end.
Definition rehead (b : list byte) : list byte :=
  if long_string b then match b with x :: c => byte_of_Z (byte_to_Z x + 1) :: c | [] => [] end else b.
Lemma rehead_string n c : 0 <= n < 2 ^ 64 -> rehead (puthead 0x80 0xB7 n ++ c) = puthead 0x80 0xB8 n ++ c /\ long_string (puthead 0x80 0xB7 n ++ c) = negb (n <? 56).
Proof.
  intros Hn. unfold rehead, long_string, puthead. destruct (Z.ltb_spec n 56) as [Hs|Hs]; cbn [app].
  - unfold b8; rewrite byte_to_of_Z, Z.mod_small by lia. rewrite (proj2 (Z.leb_gt _ _)) by lia. done.
  - pose proof (putint_intsize n Hn). unfold b8; rewrite byte_to_of_Z, Z.mod_small by lia. rewrite !(proj2 (Z.leb_le _ _)) by lia. split; [|done]. cbn. do 2 f_equal. lia.
Qed.
Lemma rehead_list n c : 0 <= n < 2 ^ 64 -> rehead (puthead 0xC0 0xF7 n ++ c) = puthead 0xC0 0xF7 n ++ c.
Proof.
  intros Hn. unfold rehead, long_string, puthead. destruct (Z.ltb_spec n 56) as [Hs|Hs]; cbn [app].
  - unfold b8; rewrite byte_to_of_Z, Z.mod_small by lia. rewrite (proj2 (Z.leb_gt _ 0xBF)), andb_false_r by lia. done.
  - pose proof (putint_intsize n Hn). unfold b8; rewrite byte_to_of_Z, Z.mod_small by lia. rewrite (proj2 (Z.leb_gt _ 0xBF)), andb_false_r by lia. done.
Qed.
Lemma rehead_byte x c : byte_to_Z x < 128 -> rehead (x :: c) = x :: c.
Proof. intros Hx. unfold rehead, long_string. rewrite (proj2 (Z.leb_gt _ _)) by lia. done. Qed.
(** Any header with its content *)
Lemma Raw_parses N : parses N s_Raw (fun b c => c = rehead b /\ framed b).
Proof.
  apply by_kind.
  - intros b c [-> (k & n & bv & pre & body & H & -> & Hn)]. exists k, n, bv, pre, body. split_and!; try done. intros s st w rest P. destruct H as [x Hx|n Hn'|n Hn'].
    + destruct (peeked_byte _ _ _ _ _ body _ _ P) as [E R]; try done. eexists. split; [|exact R]. unfold bind, rearm, modify. rewrite E. apply zlen_0 in Hn as ->. cbn [app]. by rewrite rehead_byte.
    + destruct (peeked_string _ _ _ _ _ _ _ _ P Hn) as (s' & E & R). exists s'. unfold bind. by rewrite E, (proj1 (rehead_string _ _ Hn')).
    + destruct (peeked_string _ _ _ _ _ _ _ _ P Hn) as (s' & E & R). exists s'. unfold bind. by rewrite E, rehead_list.
  - intros k n bv pre c s st w rest H Hn P. left. exists (rehead (pre ++ c)). split; [done|]. by exists k, n, bv, pre, c.
Qed.

Definition bits_ok (bits : Z) : Prop := exists j, 1 <= j <= 8 /\ bits = 8 * j.
Lemma Bytes_bits i j : 0 <= i < 2 ^ (8 * j) -> 1 <= j <= 8 -> zlen (Bytes i) <= j.
Proof.
  intros Hi Hj. destruct (decide (i = 0)) as [->|Hne]; [change (zlen (Bytes 0)) with 0; lia|].
  assert (0 < i < 2 ^ 64) as Hi' by (assert (2 ^ (8 * j) <= 2 ^ 64) by (apply Z.pow_le_mono_r; lia); lia).
  destruct (putint_lead i Hi') as (b & bs & E & Hb & Hs). rewrite <- putint_Bytes, E by done. pose proof (nbytes_lead b bs Hb) as [Hlow _]. rewrite Hs in Hlow.
  apply Z.le_ngt. intros Hlt. assert (2 ^ (8 * j) <= 256 ^ (Z.of_nat (length (b :: bs)) - 1)) as Hp; [|lia].
  change 256 with (2 ^ 8). rewrite <- Z.pow_mul_r by (unfold zlen in Hlt; lia). apply Z.pow_le_mono_r; unfold zlen in Hlt; lia.
Qed.
Lemma Bytes_range v n : zlen (Bytes v) = n -> 0 <= v -> v < 2 ^ (8 * n).
Proof. intros <- Hv. pose proof (SetBytes_Bytes v Hv) as E. pose proof (SetBytes_bound (Bytes v)) as [_ Hb]. rewrite E in Hb. rewrite Z.pow_mul_r by (lia || apply zlen_nonneg). exact Hb. Qed.
Lemma canon_hard e : hard e -> hard (match e with SCanonSize => SCanonInt | _ => e end).
Proof. intros He. by destruct e. Qed.
Lemma Bytes_one x v : Bytes v = [x] -> 0 <= v -> v = byte_to_Z x.
Proof. intros E Hv. pose proof (SetBytes_Bytes v Hv) as Hs. rewrite E, SetBytes_singleton in Hs. lia. Qed.

Lemma uint_parses N bits : bits_ok bits -> parses N (s_uint bits) (fun b i => b = rlp (Str (Bytes i)) /\ 0 <= i < 2 ^ bits).
Proof.
  intros (j & Hj & ->). assert (2 ^ 8 <= 2 ^ (8 * j) <= 2 ^ 64) as Hp by (split; apply Z.pow_le_mono_r; lia).
  assert (8 * j / 8 = j) as Ej by (rewrite Z.mul_comm; by apply Z.div_mul). apply by_kind; rewrite ?Ej.
  - intros b i [-> Hi]. destruct (rlp_Str (Bytes i)) as [(x & Ex & Hx & ->)|[-> Hx]].
    + pose proof (Bytes_one _ _ Ex ltac:(lia)) as Ei. exists KByte, 0, x, [x], []. split_and!; try done; [constructor; lia|]. intros s st w rest P.
      destruct (peeked_byte _ _ _ _ _ [] _ _ P) as [E R]; try done. eexists. split; [|exact R]. unfold bind, get_byteval, rearm, modify. rewrite (pk_byte _ _ _ _ _ _ _ P).
      rewrite <- Ei, (proj2 (Z.eqb_neq _ _)) by (intros ->; done). done.
    + pose proof (Bytes_bits i j Hi Hj) as Hl. pose proof (zlen_nonneg (Bytes i)). exists KString, (zlen (Bytes i)), Byte.x00, (puthead 0x80 0xB7 (zlen (Bytes i))), (Bytes i).
      split_and!; try done; [constructor; lia|]. intros s st w rest P. rewrite Z.gtb_ltb, (proj2 (Z.ltb_ge _ _)) by lia.
      destruct (readUint_ok s st i w rest (pk_open _ _ _ _ _ _ _ P)) as (s' & E & R & _); [lia|]. exists s'. split; [|done]. unfold bind, rescue. rewrite E.
      assert ((zlen (Bytes i) >? 0) && (i <? 128) = false) as ->; [|done]. apply andb_false_iff. destruct (Z.ltb_spec i 128) as [Hlt|]; [left|by right].
      destruct (decide (i = 0)) as [->|]; [done|]. exfalso. specialize (Hx (byte_of_Z i)). rewrite Bytes_small, byte_to_of_Z, Z.mod_small in Hx by lia. specialize (Hx eq_refl). lia.
  - intros k n bv pre c s st w rest H Hn P. unfold fails. destruct H as [x Hx|n Hn'|n Hn']; [| |right; by eexists _, _].
    + unfold bind at 1, get_byteval. rewrite (pk_byte _ _ _ _ _ _ _ P). pose proof (byte_to_Z_range x). destruct (Z.eqb_spec (byte_to_Z x) 0); [right; by eexists _, _|left].
      exists (byte_to_Z x). apply zlen_0 in Hn as ->. rewrite Bytes_small, byte_of_to_Z by lia. cbn [rlp app]. rewrite (proj2 (Z.leb_le _ _)) by lia. split; [done|lia].
    + rewrite Z.gtb_ltb. destruct (Z.ltb_spec j n) as [|Hle]; [right; by eexists _, _|]. unfold bind, rescue.
      destruct (readUint_inv s st (c ++ w) rest n (pk_open _ _ _ _ _ _ _ P)) as [(v & w' & s' & -> & Hv & _ & _ & Hw)|(e & s' & -> & He)];
        [lia| |right; eexists _, _; split; [done|by apply canon_hard]].
      destruct ((n >? 0) && (v <? 128)) eqn:Eb; [right; by eexists _, _|left]. exists v. apply andb_false_iff in Eb. rewrite Z.gtb_ltb in Eb.
      destruct Hw as [[Ew Hl]|[-> ->]]; [|by destruct Eb]. rewrite <- Hn in Hl. apply app_inj_1 in Ew as [Ec _]; [|unfold zlen in Hl; lia]. subst c. rewrite <- Hn. split.
      * symmetry. apply rlp_string_header. intros x Ex. pose proof (Bytes_one _ _ Ex ltac:(lia)) as Ev. destruct Eb as [Eb|Eb]; [|apply Z.ltb_ge in Eb; lia].
        apply Z.ltb_ge in Eb. rewrite <- Hn, Ex in Eb. change (zlen [x]) with 1 in Eb. lia.
      * pose proof (Bytes_range v n Hn ltac:(lia)) as Hr. split; [lia|]. eapply Z.lt_le_trans; [exact Hr|]. apply Z.pow_le_mono_r; lia.
Qed.

Lemma ByteArray_parses N n : 0 <= n < 2 ^ 64 -> n <> 1 -> parses N (decodeByteArray n) (fun b v => exists c, b = rlp (Str c) /\ zlen c = n /\ v = VBytes c).
Proof.
  intros Hn H1. apply by_kind.
  - intros b v (c & -> & Hc & ->). destruct (rlp_Str c) as [(x & -> & _)|[-> Hx]]; [by change (zlen [x]) with 1 in Hc|].
    exists KString, (zlen c), Byte.x00, (puthead 0x80 0xB7 (zlen c)), c. split_and!; try done; [constructor; lia|]. intros s st w rest P. rewrite <- Hc, Z.gtb_ltb, Z.ltb_irrefl.
    destruct (peeked_string _ _ _ _ _ _ _ _ P eq_refl) as (s' & E & R). exists s'. split; [|done]. unfold bind. rewrite E. apply longhand_spec in Hx. unfold longhand in Hx. by rewrite Hx.
  - intros k m bv pre c s st w rest H Hm P. unfold fails. destruct H as [x Hx|m Hm'|m Hm']; [| |right; by eexists _, _].
    + right. destruct (Z.eqb_spec n 0); [by eexists _, _|]. rewrite Z.gtb_ltb, (proj2 (Z.ltb_lt _ _)) by lia. by eexists _, _.
    + destruct (Z.ltb_spec n m); [right; by eexists _, _|]. rewrite Z.gtb_ltb. destruct (Z.ltb_spec m n); [right; by eexists _, _|]. assert (n = m) as -> by lia.
      destruct (peeked_string _ _ _ _ _ _ _ _ P Hm) as (s' & E & R). unfold bind. rewrite E. rewrite <- Hm. fold (longhand c). destruct (longhand c) eqn:El; [right; by eexists _, _|left].
      exists (VBytes c), c. split_and!; try done. symmetry. by apply rlp_string_header, longhand_spec.
Qed.

(** ** Lists *)

(** On a list of [N] bytes at most, [m] reads the contents [F]; it may stop before the end. *)
Record fills {A} (N : nat) (m : Z -> M A) (F : list byte -> A -> Prop) : Prop := {
  fl_complete : forall s st c rest a, F c a -> ready s st c rest -> st <> [] -> (length c <= N)%nat ->
    exists s', m (zlen c) s = (inr a, s') /\ ready s' (adv (zlen c) st) [] rest;
  fl_sound : forall s st c rest, ready s st c rest -> st <> [] -> (length c <= N)%nat ->
    (exists a, F c a) \/ fails (m (zlen c)) s \/
    exists a s' c1 c2, m (zlen c) s = (inr a, s') /\ c = c1 ++ c2 /\ c2 <> [] /\ ready s' (adv (zlen c1) st) c2 rest;
}.
Definition in_list {A} (F : list byte -> A -> Prop) (b : list byte) (a : A) : Prop :=
  exists c, b = puthead 0xC0 0xF7 (zlen c) ++ c /\ zlen c < 2 ^ 64 /\ F c a.

Definition enter (n : Z) (s : Stream) : Stream := set_ahead None 0 (kinderr s) (set_stack ((0, n) :: sstack s) s).
Lemma enter_ready s k n bv st c w rest : peeked s k n bv st (c ++ w) rest -> zlen c = n -> n < 2 ^ 64 -> ready (enter n s) ((0, n) :: st) c (w ++ rest).
Proof.
  intros [_ _ _ _ [O1 O2 O3 O4 O5 O6] _] Hn Hs. rewrite <- app_assoc in *. split; [|done]. split; cbn; try done. by rewrite O1.
Qed.
Lemma ListEnd_ok s n st c w rest : ready s (adv n ((0, n) :: st)) [] (w ++ rest) -> window st (c ++ w) rest -> zlen c = n ->
  exists s', s_ListEnd s = (inr tt, s') /\ ready s' (adv n st) w rest.
Proof.
  intros [[O1 O2 O3 O4 O5 O6] K] W Hn. unfold s_ListEnd. rewrite O1. cbn [adv]. rewrite Z.add_0_l, Z.eqb_refl. cbn [negb]. eexists. split; [done|].
  split; [|done]. subst n. split; cbn; try done; [|by apply window_adv].
  destruct st as [|[pos size] st]; [done|]. cbn in W |- *. rewrite zlen_app in W. pose proof (zlen_nonneg w). pose proof (zlen_nonneg c). by rewrite u64_small by lia.
Qed.
Lemma ListEnd_early s n st c1 c2 rest : ready s (adv (zlen c1) ((0, n) :: st)) c2 rest -> n = zlen (c1 ++ c2) -> c2 <> [] -> exists s', s_ListEnd s = (inl errNotAtEOL, s').
Proof.
  intros [[O1 _ _ _ _ _] _] -> Hc. unfold s_ListEnd. rewrite O1. cbn [adv]. rewrite zlen_app, (proj2 (Z.eqb_neq _ _)); [by eexists|].
  intros E. apply Hc, zlen_0. lia.
Qed.

(** Opening a list, reading it and closing it; [f] is applied to the error of closing. *)
Definition list_of {A} (m : Z -> M A) (f : streamError -> streamError) : M A :=
  let! n := rescue s_List wrapStreamError in let! a := m n in rescue s_ListEnd f ;;! ret a.
(** Only the errors differ, and the end of the list is none of them. *)
Lemma parses_like {A} N (m m' : M A) G : (forall s, m' s = m s \/ fails m s /\ fails m' s) -> parses N m G -> parses N m' G.
Proof.
  intros E [P1 P2 P3 P4]. split; [| | |done].
  - intros s st b w rest a Hg S Hl. destruct (P1 s st b w rest a Hg S Hl) as (s' & Es & R). destruct (E s) as [->|[(e & s2 & E2 & _) _]]; [by exists s'|congruence].
  - intros s st w rest S Hl Hw. destruct (P2 s st w rest S Hl Hw) as [?|F]; [by left|right]. destruct (E s) as [E'|[_ ?]]; [|done]. unfold fails. by rewrite E'.
  - intros s st rest S Hst. destruct (P3 s st rest S Hst) as (s' & Es & R). destruct (E s) as [->|[(e & s2 & E2 & [He _]) _]]; [by exists s'|congruence].
Qed.
Definition open_list {A} (m : Z -> M A) (f : streamError -> streamError) (p : Kind * Z) : M A :=
  match p.1 with
  | KList => fun s => (let! a := m p.2 in rescue s_ListEnd f ;;! ret a) (enter p.2 s)
  | _ => fail SExpectedList
  end.
Lemma list_parses {A} N (m : Z -> M A) F f : fills N m F -> hard (f errNotAtEOL) -> parses (S N) (bind s_Kind (open_list m f)) (in_list F).
Proof.
  intros [F1 F2] Hf. apply by_kind_within.
  - intros b a (c & -> & Hc & Ha). exists KList, (zlen c), Byte.x00, (puthead 0xC0 0xF7 (zlen c)), c. split_and!; try done; [constructor; pose proof (zlen_nonneg c); lia|].
    intros s st w rest P Hl. pose proof (enter_ready _ _ _ _ _ _ _ _ P eq_refl Hc) as R. destruct (F1 _ _ _ _ a Ha R) as (s2 & E2 & R2); [done|lia|].
    destruct (ListEnd_ok s2 (zlen c) st c w rest R2) as (s3 & E3 & R3); [apply (pk_open _ _ _ _ _ _ _ P)|done|]. exists s3. split; [|done].
    unfold open_list, bind, rescue. cbn [fst snd]. by rewrite E2, E3.
  - intros k n bv pre c s st w rest H Hn P Hl. unfold fails, open_list. destruct H as [x Hx|n Hn'|n Hn']; [right; by eexists _, _..|]. cbn [fst snd].
    subst n. pose proof (enter_ready _ _ _ _ _ _ _ _ P eq_refl ltac:(lia)) as R.
    destruct (F2 _ _ _ _ R) as [[a Ha]|[(e & s2 & E2 & He)|(a & s2 & c1 & c2 & E2 & Ec & Hc2 & R2)]]; [done|lia|left; exists a; exists c; split_and!; [done|lia|done]|right..].
    + unfold bind. rewrite E2. by eexists _, _.
    + destruct (ListEnd_early s2 (zlen c) st c1 c2 (w ++ rest) R2) as (s3 & E3); [by rewrite Ec|done|]. unfold bind, rescue. rewrite E2, E3. by eexists _, _.
Qed.
Lemma list_of_parses {A} N (m : Z -> M A) F f : fills N m F -> hard (f errNotAtEOL) -> parses (S N) (list_of m f) (in_list F).
Proof.
  intros Hm Hf. eapply parses_like; [|by apply list_parses]. intros s. unfold list_of, fails, rescue, s_List, bind, open_list.
  destruct (s_Kind s) as [[e|[[] n]] s1]; cbn [fst snd]; [|right; split; by eexists _, _..|by left].
  destruct (decide (e = EOL)) as [->|H1]; [by left|]. destruct (decide (e = outOfFuel)) as [->|H2]; [by left|]. right. split; eexists _, _; (split; [done|]); [done|by apply wrap_hard].
Qed.

(** *** Elements until the end of the list *)

Definition elems {A} (G : list byte -> A -> Prop) (c : list byte) (l : list A) : Prop := exists cs, c = concat cs /\ Forall2 G cs l.
Lemma elems_ok N m G fuel : parses N m G -> forall s st c rest l, elems G c l -> ready s st c rest -> st <> [] -> (length c <= N)%nat -> (length c < fuel)%nat ->
  exists s', decodeSliceElems m fuel s = (inr l, s') /\ ready s' (adv (zlen c) st) [] rest.
Proof.
  intros P. induction fuel as [|fuel IH]; intros s st c rest l (cs & -> & Hcs) R Hst Hl Hf; [lia|]. cbn [decodeSliceElems]. destruct Hcs as [|b v cs l Hb Hcs]; cbn [concat] in *.
  - destruct (ps_EOL _ _ _ P s st rest (ready_start _ _ _ _ R) Hst) as (s' & -> & R'). exists s'. by rewrite adv_0.
  - destruct (ps_complete _ _ _ P s st b (concat cs) rest v Hb (ready_start _ _ _ _ R) Hl) as (s1 & -> & R1). pose proof (ps_nonempty _ _ _ _ _ P Hb) as Hn.
    assert (0 < length b)%nat as Hb0 by (destruct b; [done|cbn; lia]). rewrite length_app in Hl, Hf.
    destruct (IH s1 (adv (zlen b) st) (concat cs) rest l) as (s2 & E2 & R2); [by exists cs|done|by rewrite adv_nil|lia|lia|]. exists s2. unfold bind. rewrite E2. split; [done|].
    by rewrite zlen_app, <- adv_adv.
Qed.
Lemma elems_inv N m G fuel : parses N m G -> forall s st c rest, ready s st c rest -> st <> [] -> (length c <= N)%nat -> (length c < fuel)%nat ->
  (exists l, elems G c l) \/ fails (decodeSliceElems m fuel) s.
Proof.
  intros P. induction fuel as [|fuel IH]; intros s st c rest R Hst Hl Hf; [lia|]. destruct (decide (c = [])) as [->|Hc]; [left; exists []; by exists []|].
  unfold fails. cbn [decodeSliceElems]. destruct (ps_sound _ _ _ P s st c rest (ready_start _ _ _ _ R) Hl) as [(b & w & v & -> & Hb)|(e & s' & E & He)]; [done| |].
  - destruct (ps_complete _ _ _ P s st b w rest v Hb (ready_start _ _ _ _ R) Hl) as (s1 & -> & R1). pose proof (ps_nonempty _ _ _ _ _ P Hb) as Hn.
    assert (0 < length b)%nat as Hb0 by (destruct b; [done|cbn; lia]). rewrite length_app in Hl, Hf.
    destruct (IH s1 (adv (zlen b) st) w rest R1) as [(l & cs & -> & Hcs)|(e & s2 & E2 & He)]; [by rewrite adv_nil|lia|lia|left|right].
    + exists (v :: l), (b :: cs). split; [done|]. by constructor.
    + unfold bind. rewrite E2. by eexists _, _.
  - right. rewrite E. exists e, s'. split; [|done]. destruct He as [He _]. by destruct e.
Qed.
Lemma elems_fill N m G fuel : parses N m G -> (N < fuel)%nat -> fills N (fun _ => decodeSliceElems m fuel) (elems G).
Proof.
  intros P Hf. split; intros s st c rest *.
  - intros Ha R Hst Hl. eapply elems_ok; eauto. lia.
  - intros R Hst Hl. destruct (elems_inv N m G fuel P s st c rest R Hst Hl) as [?|?]; [lia|by left|by right; left].
Qed.
Lemma ListSlice_parses N m G fuel : parses N m G -> (N < fuel)%nat -> parses (S N) (decodeListSlice m fuel) (in_list (elems G)).
Proof.
  intros P Hf. apply (parses_like _ (list_of (fun n => if n =? 0 then ret [] else decodeSliceElems m fuel) id)).
  { intros s. left. unfold decodeListSlice, list_of, bind, rescue, ret. destruct (s_List s) as [[?|n] s1]; [done|]. destruct (n =? 0).
    - by destruct (s_ListEnd s1) as [[?|?] ?].
    - destruct (decodeSliceElems m fuel s1) as [[?|?] s2]; [done|]. by destruct (s_ListEnd s2) as [[?|?] ?]. }
  apply list_of_parses; [|done]. destruct (elems_fill N m G fuel P Hf) as [F1 F2]. split; intros s st c rest *.
  - intros Ha R Hst Hl. destruct (Z.eqb_spec (zlen c) 0) as [E|_]; [|by apply F1]. apply zlen_0 in E as ->. exists s. rewrite adv_0. split; [|done].
    destruct Ha as ([|b cs] & Ec & Hcs); [by inversion Hcs|]. inversion Hcs; subst. symmetry in Ec. apply app_nil in Ec as [-> _]. exfalso. by eapply (ps_nonempty _ _ _ _ _ P).
  - intros R Hst Hl. unfold fails. destruct (Z.eqb_spec (zlen c) 0) as [E|_]; [|by apply F2]. apply zlen_0 in E as ->. left. exists []. by exists [].
Qed.

(** *** A fixed number of elements *)

Fixpoint in_order {A} (Gs : list (list byte -> A -> Prop)) (c : list byte) (l : list A) : Prop :=
  match Gs, l with
  | [], [] => c = []
  | G :: Gs', v :: l' => exists b c', c = b ++ c' /\ G b v /\ in_order Gs' c' l'
  | _, _ => False
  end.
Lemma few_hard e : hard e -> hard (few e).
Proof. by destruct e. Qed.
Lemma fields_nil N : fills N (fun _ => decodeFields []) (in_order []).
Proof.
  split; intros s st c rest *.
  - intros Ha R _ _. destruct a; [|done]. cbn in Ha. subst c. exists s. by rewrite adv_0.
  - intros R Hst Hl. destruct c as [|x c]; [left; by exists []|]. right. right. exists [], s, [], (x :: c). by rewrite adv_0.
Qed.
Lemma fields_cons N m G decs Gs : parses N m G -> fills N (fun _ => decodeFields decs) (in_order Gs) -> fills N (fun _ => decodeFields (m :: decs)) (in_order (G :: Gs)).
Proof.
  intros P [F1 F2]. split; intros s st c rest *; unfold fails; cbn [decodeFields]; unfold bind, rescue.
  - destruct a as [|v l]; [done|]. intros (b & c' & -> & Hb & Hl) R Hst Hn. destruct (ps_complete _ _ _ P s st b c' rest v Hb (ready_start _ _ _ _ R) Hn) as (s1 & -> & R1).
    rewrite length_app in Hn. destruct (F1 s1 _ c' rest l Hl R1) as (s2 & -> & R2); [by rewrite adv_nil|lia|]. exists s2. split; [done|]. by rewrite zlen_app, <- adv_adv.
  - intros R Hst Hn. destruct (decide (c = [])) as [->|Hc].
    { destruct (ps_EOL _ _ _ P s st rest (ready_start _ _ _ _ R) Hst) as (s' & -> & R'). right. left. by eexists _, _. }
    destruct (ps_sound _ _ _ P s st c rest (ready_start _ _ _ _ R) Hn) as [(b & w & v & -> & Hb)|(e & s' & -> & He)]; [done| |right; left; eexists _, _; split; [done|by apply few_hard]].
    destruct (ps_complete _ _ _ P s st b w rest v Hb (ready_start _ _ _ _ R) Hn) as (s1 & -> & R1). rewrite length_app in Hn.
    destruct (F2 s1 _ w rest R1) as [(l & Hl)|[(e & s2 & -> & He)|(l & s2 & c1 & c2 & -> & -> & Hc2 & R2)]]; [by rewrite adv_nil|lia|left|right; left; by eexists _, _|right; right].
    + exists (v :: l), b, w. by split_and!.
    + exists (v :: l), s2, (b ++ c1), c2. rewrite app_assoc, zlen_app, <- adv_adv. by split_and!.
Qed.
Lemma fields_tail N m F : fills N (fun _ => m) F -> fills N (fun _ => decodeFields [m]) (in_order [F]).
Proof.
  intros [F1 F2]. split; intros s st c rest *; unfold fails; cbn [decodeFields]; unfold bind, rescue, ret.
  - destruct a as [|v [|]]; [done| |intros (? & ? & ? & ? & ?); done]. intros (b & c' & -> & Hb & Hc') R Hst Hn. cbn in Hc'. subst c'. rewrite app_nil_r in *. destruct (F1 s st b rest v Hb R Hst Hn) as (s1 & -> & R1). by exists s1.
  - intros R Hst Hn. destruct (F2 s st c rest R Hst Hn) as [(v & Hv)|[(e & s2 & -> & He)|(v & s2 & c1 & c2 & -> & -> & Hc2 & R2)]]; [left|right; left|right; right].
    + exists [v], c, []. by rewrite app_nil_r.
    + eexists _, _. split; [done|by apply few_hard].
    + by exists [v], s2, c1, c2.
Qed.
Lemma fills_map {A B} N (m : M A) F (f : A -> B) : fills N (fun _ => m) F -> fills N (fun _ => let! l := m in ret (f l)) (fun c v => exists l, v = f l /\ F c l).
Proof.
  intros [F1 F2]. split; intros s st c rest *; unfold fails, bind, ret.
  - intros (l & -> & Hl) R Hst Hn. destruct (F1 s st c rest l Hl R Hst Hn) as (s1 & -> & R1). by exists s1.
  - intros R Hst Hn. destruct (F2 s st c rest R Hst Hn) as [(l & Hl)|[(e & s2 & -> & He)|(l & s2 & c1 & c2 & -> & -> & Hc2 & R2)]]; [left; by exists (f l), l|right; left; by eexists _, _|right; right].
    by exists (f l), s2, c1, c2.
Qed.
Lemma parses_map {A B} N (m : M A) G (f : A -> B) : parses N m G -> parses N (let! l := m in ret (f l)) (fun c v => exists l, v = f l /\ G c l).
Proof.
  intros P. eapply parses_mono; [done|apply (parses_then N m _ G P); eauto|]. intros b v. split; [intros (a & Ha & E); exists a; by apply ret_inj in E|intros (a & -> & Ha); by exists a].
Qed.
Lemma in_order_replicate {A} n (G : list byte -> A -> Prop) c l : in_order (replicate n G) c l <-> elems G c l /\ length l = n.
Proof.
  revert c l. induction n as [|n IH]; intros c [|v l]; cbn [replicate in_order length].
  - split; [intros ->; split; [by exists []|done]|intros [(cs & -> & Hcs) _]; by inversion Hcs].
  - split; [done|lia].
  - split; [done|intros [_ ?]; lia].
  - split.
    + intros (b & c' & -> & Hb & [(cs & -> & Hcs) <-]%IH). split; [|done]. exists (b :: cs). split; [done|by constructor].
    + intros [(cs & -> & Hcs) [= El]]. inversion Hcs as [|b ? cs' ? Hb Hcs']; subst. exists b, (concat cs'). split_and!; try done. apply IH. split; [by exists cs'|done].
Qed.
End RlpStreamThms.
