(* ===== verification/RlpLang.v ===== *)
(** * The stream decoder: the language of a type

    The byte strings of a type with the values they stand for, and the theorem that the decoder which
    [makeDecoder] builds for the type reads exactly them. *)

From S2P Require Import Prelude GoMath World Rlp RlpProofs RlpRaw RlpStream RlpStreamFacts RlpStreamThms.

Module RlpLang.
Import Rlp RlpProofs RlpRaw RlpStream RlpStreamFacts RlpStreamThms.

(** ** Looking at the header first *)

Lemma start_small s st w rest : start s st w rest -> zlen w < 2 ^ 64.
Proof.
  intros [[O _]|(k & n & bv & pre & w1 & _ & _ & Hl & _)]; [|done]. pose proof (op_small _ _ _ _ O) as Hs. rewrite zlen_app in Hs. pose proof (zlen_nonneg rest). lia.
Qed.
Lemma framed_Kind b s st w rest : framed b -> start s st (b ++ w) rest -> exists k n bv pre c s', header k n bv pre /\ b = pre ++ c /\ zlen c = n /\
  s_Kind s = (inr (k, n), s') /\ peeked s' k n bv (adv (zlen pre) st) (c ++ w) rest /\ start s' st (b ++ w) rest.
Proof.
  intros (k & n & bv & pre & c & H & -> & Hn) S. pose proof (start_small _ _ _ _ S) as Hl. rewrite <- app_assoc in *.
  destruct (Kind_ok s st k n bv pre (c ++ w) rest H S) as (s' & E & P); [rewrite zlen_app; pose proof (zlen_nonneg w); lia|].
  exists k, n, bv, pre, c, s'. split_and!; try done. right. by exists k, n, bv, pre, (c ++ w).
Qed.
Lemma Kind_split s st w rest : start s st w rest -> (w = [] -> st = []) ->
  (exists k n bv pre c w' s', header k n bv pre /\ w = (pre ++ c) ++ w' /\ zlen c = n /\ s_Kind s = (inr (k, n), s') /\ start s' st w rest) \/ fails s_Kind s.
Proof.
  intros S Hw. pose proof (start_small _ _ _ _ S) as Hl. destruct (Kind_inv s st w rest S Hw) as [(k & n & bv & pre & w1 & s' & H & -> & E & P)|?]; [left|by right].
  destruct (header_content _ _ _ _ _ H (pk_fits _ _ _ _ _ _ _ P)) as (c & w' & -> & Hn). exists k, n, bv, pre, c, w', s'. rewrite <- app_assoc. split_and!; try done.
  right. by exists k, n, bv, pre, (c ++ w').
Qed.
(** The header of a string is determined by the string. *)
Definition headed (k : Kind) (n : Z) (b : list byte) : Prop := exists bv pre c, header k n bv pre /\ b = pre ++ c /\ zlen c = n.
Lemma headed_unique k n k' n' b b' w w' : headed k n b -> headed k' n' b' -> b ++ w = b' ++ w' -> zlen (b ++ w) < 2 ^ 64 -> k' = k /\ n' = n.
Proof.
  intros (bv & pre & c & H & -> & _) (bv' & pre' & c' & H' & -> & _) E Hl. rewrite <- !app_assoc in *. destruct (header_unique _ _ _ _ _ _ _ _ _ _ H H' E Hl) as (-> & -> & _). done.
Qed.
Lemma peek_parses {A} N (body : Kind * Z -> M A) Gk :
  (forall k n, parses N (body (k, n)) (Gk k n)) -> parses N (bind s_Kind body) (fun b a => exists k n, headed k n b /\ Gk k n b a).
Proof.
  intros P. split.
  - intros s st b w rest a (k & n & (bv & pre & c & H & -> & Hn) & Hg) S Hl. rewrite <- app_assoc in S. pose proof (start_small _ _ _ _ S) as Hs.
    destruct (Kind_ok s st k n bv pre (c ++ w) rest H S) as (s' & E & P'); [rewrite zlen_app; pose proof (zlen_nonneg w); lia|]. unfold bind. rewrite E.
    apply (ps_complete _ _ _ (P k n)); [done| |done]. right. rewrite <- app_assoc. by exists k, n, bv, pre, (c ++ w).
  - intros s st w rest S Hl Hw. destruct (Kind_split s st w rest S Hw) as [(k & n & bv & pre & c & w' & s' & H & Ew & Hn & E & S')|(e & s' & E & He)];
      [|right; unfold fails, bind; rewrite E; by eexists _, _]. unfold fails, bind. rewrite E. pose proof (start_small _ _ _ _ S) as Hs.
    destruct (ps_sound _ _ _ (P k n) s' st w rest S' Hl Hw) as [(b & w2 & a & Eb & Hg)|?]; [left|by right]. exists b, w2, a. split; [done|]. exists k, n. split; [|done].
    destruct (ps_framed _ _ _ (P k n) b a Hg) as (k' & n' & bv' & pre' & c' & H' & Eb' & Hn'). assert (headed k' n' b) as Hb by (by exists bv', pre', c').
    assert (k' = k /\ n' = n) as [-> ->]; [|done]. apply (headed_unique k n k' n' (pre ++ c) b w' w2); try done; [by exists bv, pre, c|by rewrite <- Ew|by rewrite <- Ew].
  - intros s st rest S Hst. destruct (Kind_EOL s st rest S Hst) as (s' & E & R). exists s'. unfold bind. by rewrite E.
  - intros b a (k & n & _ & Hg). by eapply (ps_framed _ _ _ (P k n)).
Qed.

(** ** Pointers that may be nil *)

Definition empty_headers : list (list byte) := [[Byte.x80]; [Byte.xc0]].
Lemma empty_headed b : b ∈ empty_headers -> exists k, headed k 0 b /\ k <> KByte.
Proof.
  intros He. assert (b = [Byte.x80] \/ b = [Byte.xc0]) as [-> | ->] by (unfold empty_headers in He; set_solver).
  - exists KString. split; [|done]. exists Byte.x00, [Byte.x80], []. split_and!; try done. change [Byte.x80] with (puthead 0x80 0xB7 0). by constructor.
  - exists KList. split; [|done]. exists Byte.x00, [Byte.xc0], []. split_and!; try done. change [Byte.xc0] with (puthead 0xC0 0xF7 0). by constructor.
Qed.
Definition is_empty (k : Kind) (n : Z) : bool := (n =? 0) && match k with KByte => false | _ => true end.
Lemma headed_empty k n b : headed k n b -> is_empty k n = true <-> b ∈ empty_headers.
Proof.
  intros Hb. split.
  - destruct Hb as (bv & pre & c & H & -> & Hn). intros He. apply andb_true_iff in He as [He Hk]. apply Z.eqb_eq in He. subst n. rewrite He in H. apply zlen_0 in He as ->.
    rewrite app_nil_r. destruct k; [done|..]; inversion H; subst; set_solver.
  - intros He. destruct (empty_headed b He) as (k' & Hk & Hne).
    destruct (headed_unique k n k' 0 b b [] [] Hb Hk eq_refl) as [-> <-]; [|by destruct k].
    rewrite app_nil_r. unfold empty_headers in He. assert (b = [Byte.x80] \/ b = [Byte.xc0]) as [-> | ->] by set_solver; done.
Qed.
Definition or_nil {A} (v0 : A) (G : list byte -> A -> Prop) (b : list byte) (v : A) : Prop :=
  b ∈ empty_headers /\ v = v0 \/ b ∉ empty_headers /\ G b v.
Lemma opt_parses N (m : M value) v0 G : parses N m G -> parses N (makeOptionalPtrDecoder v0 m) (or_nil v0 G).
Proof.
  intros P. assert (forall b a, or_nil v0 G b a -> framed b) as Hf.
  { intros b a [[Hb _]|[_ Hg]]; [|by eapply (ps_framed _ _ _ P)]. destruct (empty_headed b Hb) as (k & (bv & pre & c & ?) & _). by exists k, 0, bv, pre, c. }
  split; [| | |done].
  - intros s st b w rest a Hg S Hl. destruct (framed_Kind b s st w rest (Hf b a Hg) S) as (k & n & bv & pre & c & s' & H & Eb & Hn & E & P' & S').
    assert (headed k n b) as Hb by (by exists bv, pre, c). pose proof (headed_empty k n b Hb) as He. unfold makeOptionalPtrDecoder. rewrite E. fold (is_empty k n). destruct Hg as [[Hb0 ->]|[Hb0 Hg]].
    + rewrite (proj2 He Hb0). eexists. split; [done|]. pose proof (set_kind_ready _ _ _ _ (pk_open _ _ _ _ _ _ _ P')) as R.
      apply He, andb_true_iff in Hb0 as [H0%Z.eqb_eq _]. rewrite H0 in Hn. apply zlen_0 in Hn as ->. by rewrite Eb, app_nil_r.
    + destruct (is_empty k n); [by destruct Hb0; apply He|]. by apply (ps_complete _ _ _ P).
  - intros s st w rest S Hl Hw. unfold fails, makeOptionalPtrDecoder. destruct (Kind_split s st w rest S Hw) as [(k & n & bv & pre & c & w' & s' & H & Ew & Hn & -> & S')|(e & s' & -> & He)]; [|right; by eexists _, _].
    assert (headed k n (pre ++ c)) as Hb by (by exists bv, pre, c). fold (is_empty k n). destruct (is_empty k n) eqn:Ee.
    { left. exists (pre ++ c), w', v0. split; [done|]. left. split; [|done]. by apply (headed_empty k n _ Hb). }
    destruct (ps_sound _ _ _ P s' st w rest S' Hl Hw) as [(b & w2 & a & Eb & Hg)|?]; [left|by right]. exists b, w2, a. split; [done|]. right. split; [|done]. intros Hb0.
    destruct (ps_framed _ _ _ P b a Hg) as (k' & n' & bv' & pre' & c' & H' & Eb' & Hn'). assert (headed k' n' b) as Hb' by (by exists bv', pre', c').
    pose proof (start_small _ _ _ _ S) as Hs. destruct (headed_unique k n k' n' (pre ++ c) b w' w2) as [-> ->]; try done; [by rewrite <- Ew|by rewrite <- Ew|].
    apply (headed_empty k n b Hb') in Hb0. congruence.
  - intros s st rest S Hst. destruct (Kind_EOL s st rest S Hst) as (s' & E & R). unfold makeOptionalPtrDecoder. rewrite E. eexists. split; [done|]. apply set_kind_ready, R.
Qed.

(** ** Languages *)

(** Interface values: strings, and lists of interface values *)
Fixpoint plain (v : value) : bool :=
  match v with VBytes _ => true | VSlice false l => forallb plain l | _ => false end.
(** What the decoder of a type reads, and the value it returns *)
Fixpoint lang (t : dtype) (b : list byte) (v : value) {struct t} : Prop :=
  let fix fields (ts : list dtype) (c : list byte) (vs : list value) : Prop :=
    match ts, vs with
    | [], [] => c = []
    | t :: ts', v :: vs' => exists b c', c = b ++ c' /\ lang t b v /\ fields ts' c' vs'
    | _, _ => False
    end in
  match t with
  | TRawValue => v = VRawValue (rehead b) /\ framed b
  | TUint bits => exists i, v = VUint i /\ b = rlp (Str (Bytes i)) /\ 0 <= i < 2 ^ bits
  | TBool => exists x : bool, v = VBool x /\ b = rlp (Str (if x then [Byte.x01] else []))
  | TString | TByteSlice => exists c, v = VBytes c /\ b = rlp (Str c) /\ zlen c < 2 ^ 64
  | TBigInt => exists i, v = VBigInt (Some i) /\ b = rlp (Str (Bytes i)) /\ 0 <= i /\ zlen (Bytes i) < 2 ^ 64
  | TByteArray n => exists c, b = rlp (Str c) /\ zlen c = n /\ v = VBytes c
  | TSlice true e => exists l, v = VSlice true l /\ elems (lang e) b l
  | TSlice false e => exists l, v = VSlice false l /\ in_list (elems (lang e)) b l
  | TArray n e => exists l, v = VSlice false l /\ in_list (fun c l => elems (lang e) c l /\ length l = n) b l
  | TStruct ts => exists l, v = VStruct l /\ in_list (fields ts) b l
  | TPtr e => lang e b v
  | TOptPtr e => or_nil (nil_value e) (lang e) b v
  | TInterface => plain v = true /\ b = enc v /\ zlen b < 2 ^ 64
  end.
Lemma lang_struct ts b v : lang (TStruct ts) b v <-> exists l, v = VStruct l /\ in_list (in_order (map lang ts)) b l.
Proof.
  cbn [lang]. set (fields := fix fields (ts : list dtype) (c : list byte) (vs : list value) : Prop := _). assert (forall ts c l, fields ts c l <-> in_order (map lang ts) c l) as E.
  { clear. intros ts. induction ts as [|t ts IH]; intros c [|v l]; cbn; try done. split; intros (b & c' & -> & Hb & Hl); exists b, c'; (split_and!; [done..|by apply IH]). }
  split; intros (l & -> & c & -> & Hc & Hl); exists l; (split; [done|]); exists c; (split_and!; [done..|by apply E]).
Qed.

(** The types [makeDecoder] accepts, without the arrays of one byte: a tail slice is the last field of a struct. *)
Fixpoint wf_type (t : dtype) : bool :=
  let fix fields (ts : list dtype) : bool :=
    match ts with
    | [] => true
    | [TSlice true e] => wf_type e
    | t :: ts' => wf_type t && fields ts'
    end in
  match t with
  | TUint bits => (bits =? 8) || (bits =? 16) || (bits =? 32) || (bits =? 64)
  | TByteArray n => (0 <=? n) && (n <? 2 ^ 63) && negb (n =? 1)
  | TSlice tail e => negb tail && wf_type e
  | TArray _ e | TPtr e | TOptPtr e => wf_type e
  | TStruct ts => fields ts
  | _ => true
  end.
(** A list of field types, split before the tail slice *)
Inductive wf_fields : list dtype -> Prop :=
| wff_nil : wf_fields []
| wff_tail e : wf_type e = true -> wf_fields [TSlice true e]
| wff_cons t ts : wf_type t = true -> wf_fields ts -> wf_fields (t :: ts).
Lemma wf_struct ts : wf_type (TStruct ts) = true <-> wf_fields ts.
Proof.
  cbn [wf_type]. set (fields := fix fields (ts : list dtype) : bool := _). assert (forall t ts, fields (t :: ts) = true <->
    (exists e, t = TSlice true e /\ ts = [] /\ wf_type e = true) \/ wf_type t = true /\ fields ts = true) as E.
  { clear. intros t ts. destruct t as [| | | | | | |[] e| | | | |]; try (cbn; rewrite ?andb_true_iff; naive_solver).
    destruct ts as [|t ts]; cbn; rewrite ?andb_true_iff; (split; [intros He|intros [(e' & Ee & Ht & He)|[]]; by simplify_eq]); [left; by exists e|by right]. }
  induction ts as [|t ts IH]; [split; [constructor|done]|]. rewrite E. split.
  - intros [(e & -> & -> & He)|[Ht Hts]]; [by apply wff_tail|apply wff_cons; [done|by apply IH]].
  - inversion 1 as [|e He|? ? Ht Hts]; subst; [left; by exists e|right; split; [done|by apply IH]].
Qed.

(** ** The decoder reads the language *)

Lemma parses_small {A} N (m : M A) G : parses N m G -> parses N m (fun b a => G b a /\ zlen b < 2 ^ 64).
Proof.
  intros [P1 P2 P3 P4]. split; [| |done|].
  - intros s st b w rest a [Hg _]. by apply P1.
  - intros s st w rest S Hl Hw. pose proof (start_small _ _ _ _ S) as Hs. destruct (P2 s st w rest S Hl Hw) as [(b & w' & a & -> & Hg)|?]; [left|by right].
    exists b, w', a. rewrite zlen_app in Hs. pose proof (zlen_nonneg w'). split_and!; try done. lia.
  - intros b a [Hg _]. by eapply P4.
Qed.
Lemma Bool_parses N : parses N decodeBool (lang TBool).
Proof.
  eapply parses_mono; [done|apply parses_map, parses_wrap, parses_then; [apply (uint_parses N 8); by exists 1|]|].
  - intros a. cbn. destruct (a =? 0); [left; by eexists|]. destruct (a =? 1); [left; by eexists|right; by eexists].
  - intros b v. cbn [lang]. split.
    + intros (x & -> & a & [-> _] & E). exists x. split; [done|]. destruct (Z.eqb_spec a 0) as [E0|]; [rewrite E0; apply ret_inj in E as <-; done|].
      destruct (Z.eqb_spec a 1) as [E1|]; [rewrite E1; apply ret_inj in E as <-; done|by apply ret_fail in E].
    + intros (x & -> & ->). exists x. split; [done|]. exists (if x then 1 else 0). by destruct x.
Qed.
Lemma Bytes_SetBytes x c : byte_to_Z x <> 0 -> Bytes (SetBytes (x :: c)) = x :: c.
Proof. intros Hx. rewrite (nbytes_Bytes _ (length (x :: c))); [apply be_bytes_SetBytes|cbn; lia|by apply nbytes_lead]. Qed.
Lemma Bytes_lead i x c : 0 <= i -> Bytes i = x :: c -> byte_to_Z x <> 0.
Proof.
  intros Hi E Hx. pose proof (SetBytes_Bytes i Hi) as Es. rewrite E, SetBytes_cons, Hx in Es. pose proof (SetBytes_bound c) as Hc. pose proof (zlen_nonneg c).
  assert (BitLen i <= 8 * zlen c) as Hb by (apply BitLen_bound; [lia..|]; rewrite Z.pow_mul_r by lia; change (2 ^ 8) with 256; lia).
  apply (f_equal length) in E. unfold Bytes in E. rewrite length_be_bytes in E. cbn [length] in E. unfold zlen in *.
  assert ((BitLen i + 7) / 8 < Z.of_nat (length c) + 1) by (apply Z.div_lt_upper_bound; lia). lia.
Qed.
Lemma BigInt_parses N : parses N decodeBigInt (lang TBigInt).
Proof.
  eapply parses_mono; [done|apply parses_then; [apply parses_wrap, Bytes_parses|]|].
  - intros [|x c]; [left; by eexists|]. destruct (byte_to_Z x =? 0); [right; by eexists|left; by eexists].
  - intros b v. cbn [lang]. split.
    + intros ([|x c] & [-> Hc] & E).
      { apply ret_inj in E as <-. exists 0. by split_and!. }
      destruct (Z.eqb_spec (byte_to_Z x) 0) as [|Hx]; [by apply ret_fail in E|]. apply ret_inj in E as <-. exists (SetBytes (x :: c)).
      rewrite Bytes_SetBytes by done. split_and!; try done. apply SetBytes_bound.
    + intros (i & -> & -> & Hi & Hl). exists (Bytes i). split; [done|]. pose proof (SetBytes_Bytes i Hi) as E. destruct (Bytes i) as [|x c] eqn:Ei; [by rewrite <- E|].
      rewrite (proj2 (Z.eqb_neq _ _)); [by rewrite E|]. intros Hx. by eapply (Bytes_lead i).
Qed.

(** One level of an interface value *)
Definition interface_level (k : Kind) (b : list byte) (v : value) : Prop :=
  match k with
  | KList => exists l, v = VSlice false l /\ in_list (elems (lang TInterface)) b l
  | _ => exists c, v = VBytes c /\ b = rlp (Str c) /\ zlen c < 2 ^ 64
  end.
Lemma enc_VBytes c : enc (VBytes c) = rlp (Str c).
Proof. unfold enc. cbn [items]. apply enc_one. Qed.
Lemma enc_VSlice l : enc (VSlice false l) = puthead 0xC0 0xF7 (zlen (encs l)) ++ encs l.
Proof. unfold enc. cbn [items]. by rewrite enc_one. Qed.
Lemma zlen_concat_le {A} (c : list A) cs : c ∈ cs -> zlen c <= zlen (concat cs).
Proof. induction 1 as [c cs|c d cs _ IH]; cbn; rewrite zlen_app; pose proof (zlen_nonneg c); pose proof (zlen_nonneg (concat cs)); [|pose proof (zlen_nonneg d)]; lia. Qed.
Lemma encs_concat l : encs l = concat (map enc l).
Proof. induction l as [|v l IH]; [done|]. rewrite encs_cons. cbn. by rewrite IH. Qed.
Lemma elems_interface c l : elems (lang TInterface) c l /\ zlen c < 2 ^ 64 <-> forallb plain l = true /\ c = encs l /\ zlen c < 2 ^ 64.
Proof.
  split.
  - intros [(cs & -> & Hcs) Hl]. split_and!; [| |done]; clear Hl; induction Hcs as [|b v cs l (Hp & -> & _) _ IH]; try done; cbn [forallb concat]; [by rewrite Hp|by rewrite encs_cons, IH].
  - intros (Hp & -> & Hl). split; [|done]. exists (map enc l). split; [by rewrite encs_concat|]. rewrite encs_concat in Hl. apply Forall2_fmap_l, Forall_Forall2_diag, Forall_forall.
    intros v Hv. split_and!; [by eapply List.forallb_forall in Hp; [|apply list_elem_of_In]|done|].
    pose proof (zlen_concat_le (enc v) (map enc l) ltac:(apply list_elem_of_fmap; eauto)). lia.
Qed.
Lemma lang_interface b v : (exists k n, headed k n b /\ interface_level k b v) /\ zlen b < 2 ^ 64 <-> lang TInterface b v.
Proof.
  cbn [lang]. split.
  - intros [(k & n & _ & Hg) Hl]. destruct k; cbn [interface_level] in Hg; [destruct Hg as (c & -> & -> & _); by rewrite enc_VBytes..|].
    destruct Hg as (l & -> & c & -> & Hc & He). destruct (proj1 (elems_interface c l) (conj He Hc)) as (Hp & -> & _). by rewrite enc_VSlice.
  - intros (Hp & -> & Hl). split; [|done]. destruct v as [| | | |c| |[] l| | |]; try done.
    + rewrite enc_VBytes in *. assert (zlen c < 2 ^ 64) as Hc.
      { destruct (rlp_Str c) as [(x & -> & _)|[E _]]; [done|]. rewrite E, zlen_app in Hl. pose proof (zlen_nonneg (puthead 0x80 0xB7 (zlen c))). lia. }
      destruct (rlp_Str c) as [(x & E1 & Hx & E)|[E _]].
      * exists KByte, 0. split; [|exists c; by split_and!]. exists x, [x], []. split_and!; try done. constructor. lia.
      * exists KString, (zlen c). split; [|exists c; by split_and!]. exists Byte.x00, (puthead 0x80 0xB7 (zlen c)), c. split_and!; try done. constructor. pose proof (zlen_nonneg c). lia.
    + rewrite enc_VSlice in *. assert (zlen (encs l) < 2 ^ 64) as Hc by (rewrite zlen_app in Hl; pose proof (zlen_nonneg (puthead 0xC0 0xF7 (zlen (encs l)))); lia).
      exists KList, (zlen (encs l)). split; [exists Byte.x00, (puthead 0xC0 0xF7 (zlen (encs l))), (encs l); split_and!; try done; constructor; pose proof (zlen_nonneg (encs l)); lia|].
      exists l. split; [done|]. exists (encs l). split_and!; try done. by apply elems_interface.
Qed.
Lemma parses_zero {A} (body : Kind * Z -> M A) G : (forall b a, G b a -> framed b) -> parses 0 (bind s_Kind body) G.
Proof.
  intros Hf. apply by_kind_within; [|intros; lia]. intros b a Hb. destruct (Hf b a Hb) as (k & n & bv & pre & c & H & E & Hn). exists k, n, bv, pre, c. split_and!; try done. intros; lia.
Qed.
Lemma Interface_parses N m fuel : parses N m (lang TInterface) -> (N < fuel)%nat ->
  parses (S N) (decodeInterface m fuel) (lang TInterface).
Proof.
  intros P Hf. eapply (parses_mono (S N)); [done|apply parses_small, (peek_parses _ _ (fun k _ => interface_level k))|apply lang_interface].
  intros [] n; [apply parses_map, Bytes_parses..|]. by apply parses_map, ListSlice_parses.
Qed.

Lemma fields_fill N decs Gs : Forall2 (fun m G => parses N m G) decs Gs -> fills N (fun _ => decodeFields decs) (in_order Gs).
Proof. induction 1 as [|m G decs Gs P _ IH]; [apply fields_nil|by apply fields_cons]. Qed.
Lemma Array_parses N n m G : parses N m G -> parses (S N) (decodeListArray n m) (in_list (fun c l => elems G c l /\ length l = n)).
Proof.
  intros P. eapply (parses_mono (S N)); [done|apply (list_of_parses N (fun _ => decodeFields (replicate n m)) (in_order (replicate n G)) wrapStreamError); [|done]|].
  - apply fields_fill. induction n; by constructor.
  - intros b l. split; intros (c & -> & Hc & Hl); exists c; (split; [done|split; [done|by apply in_order_replicate]]).
Qed.
Lemma Struct_parses N decs Gs : fills N (fun _ => decodeFields decs) (in_order Gs) ->
  parses (S N) (makeStructDecoder decs) (fun b v => exists l, v = VStruct l /\ in_list (in_order Gs) b l).
Proof.
  intros F. eapply parses_like; [|apply parses_map, (list_of_parses N _ _ wrapStreamError F); done]. intros s. left. unfold makeStructDecoder, list_of, bind, rescue, ret.
  destruct (s_List s) as [[?|n] s1]; [done|]. destruct (decodeFields decs s1) as [[?|l] s2]; [done|]. by destruct (s_ListEnd s2) as [[?|?] ?].
Qed.
Lemma tsize_pos t : (1 <= tsize t)%nat.
Proof. destruct t; cbn; lia. Qed.
Lemma uint_bits bits : wf_type (TUint bits) = true -> bits_ok bits.
Proof. cbn. rewrite !orb_true_iff, !Z.eqb_eq. intros [[[->| ->]| ->]| ->]; [by exists 1|by exists 2|by exists 4|by exists 8]. Qed.
Lemma parses_pred {A} N (m : M A) G : parses (S (pred N)) m G -> parses N m G.
Proof. intros P. eapply parses_mono; [|exact P|done]. lia. Qed.
(** The fields of a struct, the tail slice among them *)
Lemma decode_fields fuel ts N : (forall t, wf_type t = true -> (tsize t + N < fuel)%nat -> parses N (decode fuel t) (lang t)) ->
  (forall e, wf_type e = true -> (S (tsize e) + N < fuel)%nat -> fills N (fun _ => decode fuel (TSlice true e)) (lang (TSlice true e))) ->
  wf_fields ts -> (sum_list (map tsize ts) + N < fuel)%nat -> fills N (fun _ => decodeFields (map (decode fuel) ts)) (in_order (map lang ts)).
Proof.
  intros Hd Ht. induction 1 as [|e He|t ts Hw _ IH]; cbn [map sum_list sum_list_with id]; intros Hf.
  - apply fields_nil.
  - apply fields_tail, Ht; [done|]. cbn [tsize] in Hf. lia.
  - apply fields_cons; [apply Hd; [done|lia]|apply IH; lia].
Qed.
(** Enough fuel for the type and the window *)
Lemma decode_parses fuel : forall t N, wf_type t = true -> (tsize t + N < fuel)%nat -> parses N (decode fuel t) (lang t).
Proof.
  induction (lt_wf fuel) as [fuel _ IH]. intros t N Hw Hf. destruct fuel as [|fuel]; [lia|].
  destruct t as [|bits| | | | |n|tail e|n e|ts|e|e|]; cbn [tsize] in Hf.
  - eapply parses_mono; [done|exact (parses_map N _ _ VRawValue (Raw_parses N))|]. intros b v. cbn [lang]. split; [by intros (? & -> & -> & ?)|intros [-> ?]; by exists (rehead b)].
  - exact (parses_map N _ _ VUint (parses_wrap _ _ _ (uint_parses N bits (uint_bits bits Hw)))).
  - exact (Bool_parses N).
  - exact (parses_map N _ _ VBytes (parses_wrap _ _ _ (Bytes_parses N))).
  - exact (BigInt_parses N).
  - exact (parses_map N _ _ VBytes (parses_wrap _ _ _ (Bytes_parses N))).
  - cbn in Hw. rewrite !andb_true_iff, negb_true_iff, Z.eqb_neq, Z.leb_le, Z.ltb_lt in Hw. apply (ByteArray_parses N n); lia.
  - destruct tail; [done|]. apply (parses_map N _ _ (VSlice false)), parses_pred, ListSlice_parses; [apply IH; [lia|done|lia]|lia].
  - apply (parses_map N _ _ (VSlice false)), parses_pred, Array_parses, IH; [lia|done|lia].
  - eapply parses_mono; [done|apply parses_pred, (Struct_parses (pred N) (map (decode fuel) ts) (map lang ts))|intros b v; symmetry; apply lang_struct].
    apply decode_fields; [intros t Ht Hl; apply IH; [lia|done|lia]| |by apply wf_struct|lia]. intros e He Hl. destruct fuel as [|fuel]; [lia|].
    apply (fills_map _ _ _ (VSlice true)), elems_fill; [apply IH; [lia|done|lia]|lia].
  - exact (IH fuel ltac:(lia) e N Hw ltac:(lia)).
  - apply (opt_parses N _ (nil_value e)), IH; [lia|done|lia].
  - destruct N as [|N]; [apply parses_zero; intros b v Hb; apply lang_interface in Hb as [(k & n & (bv & pre & c & ?) & _) _]; by exists k, n, bv, pre, c|].
    apply (Interface_parses N (decode fuel TInterface) (S fuel)); [apply IH; [lia|done|cbn [tsize]; lia]|lia].
Qed.
End RlpLang.
