(* ===== verification/RlpDecode.v ===== *)
(** * The stream decoder: correctness

    [DecodeBytes] ends, accepts exactly the language of the type, and is inverse to [EncodeToBytes] on
    the values of the type. *)

From S2P Require Import Prelude GoMath World Rlp RlpProofs RlpRaw RlpStream RlpStreamFacts RlpStreamThms RlpLang.

Module RlpDecode.
Import Rlp RlpProofs RlpRaw RlpStream RlpStreamFacts RlpStreamThms RlpLang.

(** ** The values of a type

    A raw value is the encoding of a value, other than that of a string of 56 bytes or more. *)

Fixpoint typed (t : dtype) (v : value) {struct t} : Prop :=
  let fix fields (ts : list dtype) (vs : list value) : Prop :=
    match ts, vs with
    | [], [] => True
    | t :: ts', v :: vs' => typed t v /\ fields ts' vs'
    | _, _ => False
    end in
  match t with
  | TRawValue => exists b, v = VRawValue b /\ framed b /\ long_string b = false
  | TUint bits => exists i, v = VUint i /\ 0 <= i < 2 ^ bits
  | TBool => exists x, v = VBool x
  | TString | TByteSlice => exists c, v = VBytes c
  | TBigInt => exists i, v = VBigInt (Some i) /\ 0 <= i
  | TByteArray n => exists c, v = VBytes c /\ zlen c = n
  | TSlice tail e => exists l, v = VSlice tail l /\ Forall (typed e) l
  | TArray n e => exists l, v = VSlice false l /\ Forall (typed e) l /\ length l = n
  | TStruct ts => exists l, v = VStruct l /\ fields ts l
  | TPtr e => typed e v
  | TOptPtr e => v = nil_value e \/ enc v ∉ empty_headers /\ typed e v
  | TInterface => plain v = true
  end.
Lemma typed_struct ts v : typed (TStruct ts) v <-> exists l, v = VStruct l /\ Forall2 typed ts l.
Proof.
  cbn [typed]. set (fields := fix fields (ts : list dtype) (vs : list value) : Prop := _). assert (forall ts l, fields ts l <-> Forall2 typed ts l) as E.
  { clear. intros ts. induction ts as [|t ts IH]; intros [|v l]; cbn; rewrite ?Forall2_cons, ?IH; try done; (split; [done|inversion 1]). }
  split; intros (l & -> & Hl); exists l; (split; [done|by apply E]).
Qed.

Section dtype_ind.
Context (P : dtype -> Prop)
  (HRaw : P TRawValue) (HUint : forall n, P (TUint n)) (HBool : P TBool) (HString : P TString) (HBig : P TBigInt) (HBytes : P TByteSlice)
  (HArr : forall n, P (TByteArray n)) (HSlice : forall b e, P e -> P (TSlice b e)) (HArray : forall n e, P e -> P (TArray n e))
  (HStruct : forall ts, Forall P ts -> P (TStruct ts)) (HPtr : forall e, P e -> P (TPtr e)) (HOpt : forall e, P e -> P (TOptPtr e)) (HIf : P TInterface).
Fixpoint dtype_nested_ind (t : dtype) : P t :=
  let fix all (l : list dtype) : Forall P l :=
    match l with [] => Forall_nil_2 P | x :: l' => Forall_cons_2 P x l' (dtype_nested_ind x) (all l') end in
  match t with
  | TRawValue => HRaw | TUint n => HUint n | TBool => HBool | TString => HString | TBigInt => HBig | TByteSlice => HBytes | TByteArray n => HArr n
  | TSlice b e => HSlice b e (dtype_nested_ind e) | TArray n e => HArray n e (dtype_nested_ind e) | TStruct ts => HStruct ts (all ts)
  | TPtr e => HPtr e (dtype_nested_ind e) | TOptPtr e => HOpt e (dtype_nested_ind e) | TInterface => HIf
  end.
End dtype_ind.

(** No raw value, and no pointer that may be nil: a value has one encoding. *)
Fixpoint one_form (t : dtype) : bool :=
  match t with
  | TSlice _ e | TArray _ e | TPtr e => one_form e
  | TStruct ts => forallb one_form ts
  | TOptPtr _ | TRawValue => false
  | _ => true
  end.
(** A nil pointer is written as an empty string or an empty list. *)
Fixpoint nils_ok (t : dtype) : bool :=
  match t with
  | TSlice _ e | TArray _ e | TPtr e => nils_ok e
  | TStruct ts => forallb nils_ok ts
  | TOptPtr e => bool_decide (enc (nil_value e) ∈ empty_headers) && nils_ok e
  | _ => true
  end.

(** ** Languages and encodings *)

Lemma enc_VUint i : enc (VUint i) = rlp (Str (Bytes i)).
Proof. unfold enc. cbn [items]. apply enc_one. Qed.
Lemma enc_VBool b : enc (VBool b) = rlp (Str (if b then [Byte.x01] else [])).
Proof. unfold enc. cbn [items]. apply enc_one. Qed.
Lemma enc_VBigInt i : enc (VBigInt (Some i)) = rlp (Str (Bytes i)).
Proof. unfold enc. cbn [items]. apply enc_one. Qed.
Lemma enc_VRawValue b : enc (VRawValue b) = b.
Proof. unfold enc. cbn [items]. apply enc_one. Qed.
Lemma enc_VStruct l : enc (VStruct l) = puthead 0xC0 0xF7 (zlen (encs l)) ++ encs l.
Proof. unfold enc. cbn [items]. by rewrite enc_one. Qed.
Lemma enc_tail l : enc (VSlice true l) = encs l.
Proof. done. Qed.

Lemma elems_encode (G : list byte -> value -> Prop) (T : value -> Prop) c l : (forall b v, G b v -> T v /\ b = enc v) -> elems G c l -> Forall T l /\ c = encs l.
Proof.
  intros HG (cs & -> & Hcs). induction Hcs as [|b v cs l Hb _ [IH1 IH2]]; [done|]. destruct (HG b v Hb) as [Hv ->]. split; [by constructor|]. cbn [concat]. by rewrite encs_cons, IH2.
Qed.
Lemma lang_encode t : one_form t = true -> forall b v, lang t b v -> typed t v /\ b = enc v.
Proof.
  induction t as [|bits| | | | |n|tail e IH|n e IH|ts IH|e IH|e IH|] using dtype_nested_ind; cbn [one_form]; intros Ho b v; [cbn [lang typed]..| | | |].
  - done.
  - intros (i & -> & -> & Hi). rewrite enc_VUint. eauto.
  - intros (x & -> & ->). rewrite enc_VBool. eauto.
  - intros (c & -> & -> & _). rewrite enc_VBytes. eauto.
  - intros (i & -> & -> & Hi & _). rewrite enc_VBigInt. eauto.
  - intros (c & -> & -> & _). rewrite enc_VBytes. eauto.
  - intros (c & -> & Hc & ->). rewrite enc_VBytes. eauto.
  - destruct tail.
    + intros (l & -> & Hl). destruct (elems_encode _ (typed e) _ _ (IH Ho) Hl) as [? ->]. eauto.
    + intros (l & -> & c & -> & Hc & Hl). destruct (elems_encode _ (typed e) _ _ (IH Ho) Hl) as [? ->]. rewrite enc_VSlice. eauto.
  - intros (l & -> & c & -> & Hc & Hl & Hn). destruct (elems_encode _ (typed e) _ _ (IH Ho) Hl) as [? ->]. rewrite enc_VSlice. eauto.
  - rewrite lang_struct, typed_struct. intros (l & -> & c & -> & Hc & Hl). assert (Forall2 typed ts l /\ c = encs l) as [Ht ->]; [|rewrite enc_VStruct; eauto].
    clear Hc. revert c l Hl. induction IH as [|t ts Ht _ IHts]; intros c [|v l]; cbn [in_order map forallb] in *; try done. intros (b & c' & -> & Hb & Hl). apply andb_true_iff in Ho as [Ho1 Ho2].
    destruct (Ht Ho1 b v Hb) as [? ->]. destruct (IHts Ho2 c' l Hl) as [? ->]. rewrite encs_cons. split; [by constructor|done].
  - cbn [lang typed]. by apply IH.
  - done.
  - cbn [lang typed]. by intros (? & -> & _).
Qed.

Lemma zlen_Str c : zlen c <= zlen (rlp (Str c)).
Proof. destruct (rlp_Str c) as [(x & -> & _ & ->)|[-> _]]; [done|]. rewrite zlen_app. pose proof (zlen_nonneg (puthead 0x80 0xB7 (zlen c))). lia. Qed.
Lemma zlen_head_le (pre c : list byte) : zlen (pre ++ c) < 2 ^ 64 -> zlen c < 2 ^ 64.
Proof. rewrite zlen_app. pose proof (zlen_nonneg pre). lia. Qed.
Lemma encode_elems (G : list byte -> value -> Prop) (T : value -> Prop) l : (forall v, T v -> zlen (enc v) < 2 ^ 64 -> G (enc v) v) -> Forall T l -> zlen (encs l) < 2 ^ 64 -> elems G (encs l) l.
Proof.
  intros HG Hl Hs. exists (map enc l). split; [apply encs_concat|]. rewrite encs_concat in Hs. apply Forall2_fmap_l, Forall_Forall2_diag, Forall_forall. intros v Hv.
  apply HG; [by eapply Forall_forall in Hl|]. pose proof (zlen_concat_le (enc v) (map enc l) ltac:(apply list_elem_of_fmap; eauto)). lia.
Qed.
Lemma encode_lang t : nils_ok t = true -> forall v, typed t v -> zlen (enc v) < 2 ^ 64 -> lang t (enc v) v.
Proof.
  induction t as [|bits| | | | |n|tail e IH|n e IH|ts IH|e IH|e IH|] using dtype_nested_ind; cbn [nils_ok]; intros Ho v; [cbn [lang typed]..| | | |].
  - intros (b & -> & Hf & Hl) _. rewrite enc_VRawValue. unfold rehead. by rewrite Hl.
  - intros (i & -> & Hi) _. rewrite enc_VUint. eauto.
  - intros (x & ->) _. rewrite enc_VBool. eauto.
  - intros (c & ->). rewrite enc_VBytes. pose proof (zlen_Str c). intros Hs. exists c. split_and!; try done. lia.
  - intros (i & -> & Hi). rewrite enc_VBigInt. pose proof (zlen_Str (Bytes i)). intros Hs. exists i. split_and!; try done. lia.
  - intros (c & ->). rewrite enc_VBytes. pose proof (zlen_Str c). intros Hs. exists c. split_and!; try done. lia.
  - intros (c & -> & Hc) _. rewrite enc_VBytes. eauto.
  - intros (l & -> & Hl). destruct tail; [rewrite enc_tail|rewrite enc_VSlice]; intros Hs; exists l; (split; [done|]); [by apply (encode_elems _ (typed e)); [apply IH|..]|].
    apply zlen_head_le in Hs. exists (encs l). split_and!; try done. by apply (encode_elems _ (typed e)); [apply IH|..].
  - intros (l & -> & Hl & Hn). rewrite enc_VSlice. intros Hs%zlen_head_le. exists l. split; [done|]. exists (encs l). split_and!; try done. by apply (encode_elems _ (typed e)); [apply IH|..].
  - rewrite lang_struct, typed_struct. intros (l & -> & Hl). rewrite enc_VStruct. intros Hs%zlen_head_le. exists l. split; [done|]. exists (encs l). split_and!; try done.
    revert Ho IH. induction Hl as [|t v ts l Ht _ IHl]; cbn [in_order map forallb]; intros Ho IH; [done|]. apply andb_true_iff in Ho as [Ho1 Ho2]. apply Forall_cons in IH as [IH1 IH2].
    rewrite encs_cons in *. rewrite zlen_app in Hs. pose proof (zlen_nonneg (enc v)). pose proof (zlen_nonneg (encs l)). exists (enc v), (encs l). split_and!; [done|apply IH1; [done..|lia]|apply IHl; [lia|done..]].
  - cbn [lang typed]. by apply IH.
  - apply andb_true_iff in Ho as [Hn Ho]. apply bool_decide_eq_true in Hn. cbn [lang typed]. intros [-> |[Hv Ht]] Hs; [by left|right; split; [done|by apply IH]].
  - cbn [lang typed]. intros Hp Hs. by split_and!.
Qed.

(** A field of a struct *)
Definition field_type (t : dtype) : Prop := wf_type t = true \/ exists e, t = TSlice true e /\ wf_type e = true.
Lemma wf_fields_Forall ts : wf_fields ts -> Forall field_type ts.
Proof. induction 1 as [|e He|t ts Ht _ IH]; constructor; [right; by exists e|done|by left|done]. Qed.
Lemma nil_encodable e : uints_ok (nil_value e) = true /\ encodable (nil_value e) = true.
Proof. induction e; by cbn. Qed.
Lemma plain_encodable v : plain v = true -> uints_ok v = true /\ encodable v = true.
Proof.
  induction v as [b|i|b|i|b| |t l IH|l IH| |] using value_nested_ind; try done. destruct t; [done|]. cbn. intros Hp. induction IH as [|v l Hv _ IHl]; [done|].
  cbn in *. apply andb_true_iff in Hp as [Hp1 Hp2]. destruct (Hv Hp1) as [-> ->]. by apply IHl.
Qed.
Lemma Forall_encodable (T : value -> Prop) l : (forall v, T v -> uints_ok v = true /\ encodable v = true) -> Forall T l -> forallb uints_ok l = true /\ forallb encodable l = true.
Proof. intros HT. induction 1 as [|v l Hv _ [IH1 IH2]]; [done|]. cbn. destruct (HT v Hv) as [-> ->]. by rewrite IH1, IH2. Qed.
Lemma typed_encodable t : field_type t -> forall v, typed t v -> uints_ok v = true /\ encodable v = true.
Proof.
  induction t as [|bits| | | | |n|tail e IH|n e IH|ts IH|e IH|e IH|] using dtype_nested_ind; intros [Hw|(e' & [= -> ->] & Hw)] v; try (by intros (? & -> & _)); try (by intros (? & ->)).
  - cbn [typed]. intros (i & -> & Hi). cbn. split; [|done]. destruct (uint_bits bits Hw) as (j & Hj & ->). assert (2 ^ (8 * j) <= 2 ^ 64) by (apply Z.pow_le_mono_r; lia). lia.
  - cbn [typed]. intros (i & -> & Hi). cbn. split; [done|lia].
  - cbn [wf_type] in Hw. apply andb_true_iff in Hw as [_ Hw]. cbn [typed]. intros (l & -> & Hl). apply (Forall_encodable (typed e)); [apply IH; by left|done].
  - cbn [typed]. intros (l & -> & Hl). apply (Forall_encodable (typed e')); [apply IH; by left|done].
  - cbn [typed]. intros (l & -> & Hl & _). apply (Forall_encodable (typed e)); [apply IH; by left|done].
  - apply wf_struct, wf_fields_Forall in Hw. rewrite typed_struct. intros (l & -> & Hl). cbn. revert IH Hw. induction Hl as [|t v ts l Ht _ IHl]; [done|]. intros IH Hw.
    apply Forall_cons in IH as [IH1 IH2]. apply Forall_cons in Hw as [Hw1 Hw2]. destruct (IH1 Hw1 v Ht) as [E1 E2]. destruct (IHl IH2 Hw2) as [E3 E4]. cbn. by rewrite E1, E2, E3, E4.
  - cbn [typed]. by apply IH; left.
  - cbn [typed]. intros [-> |[_ Ht]]; [apply nil_encodable|]. apply IH; [by left|done].
  - apply plain_encodable.
Qed.

(** ** Properties *)

Lemma NewStream_ready b : zlen b < 2 ^ 64 -> ready (NewStream b (zlen b)) [] b [].
Proof.
  intros Hb. split; [|done]. split; cbn; rewrite ?app_nil_r; try done. destruct (Z.gtb_spec (zlen b) 0); done.
Qed.
(** The outcome of a decoder that reads [G], with enough fuel *)
Lemma decode_outcome fuel t b : wf_type t = true -> zlen b < 2 ^ 64 -> (tsize t + length b < fuel)%nat ->
  (exists b1 b2 v s, b = b1 ++ b2 /\ lang t b1 v /\ decode fuel t (NewStream b (zlen b)) = (inr v, s) /\ r s = b2) \/ fails (decode fuel t) (NewStream b (zlen b)) /\ forall v, ~ lang t b v.
Proof.
  intros Hw Hb Hf. pose proof (decode_parses fuel t (length b) Hw Hf) as P. pose proof (ready_start _ _ _ _ (NewStream_ready b Hb)) as S.
  assert (forall b1 b2 v, b = b1 ++ b2 -> lang t b1 v -> exists s, decode fuel t (NewStream b (zlen b)) = (inr v, s) /\ r s = b2) as Hc.
  { intros b1 b2 v Eb Hv. assert (start (NewStream b (zlen b)) [] (b1 ++ b2) []) as S' by (by rewrite <- Eb). destruct (ps_complete _ _ _ P _ _ b1 b2 [] v Hv S') as (s & E & [O _]); [by rewrite Eb|].
    exists s. split; [done|]. by rewrite (op_input _ _ _ _ O), app_nil_r. }
  destruct (ps_sound _ _ _ P _ _ _ _ S) as [(b1 & b2 & v & Eb & Hv)|F]; [lia|done|left|right].
  - destruct (Hc b1 b2 v Eb Hv) as (s & E & Es). by exists b1, b2, v, s.
  - split; [done|]. intros v Hv. destruct (Hc b [] v) as (s & E & _); [by rewrite app_nil_r|done|]. destruct F as (e & s' & E' & _). congruence.
Qed.
Lemma lang_unique t b1 b2 v1 v2 : wf_type t = true -> zlen (b1 ++ b2) < 2 ^ 64 -> lang t b1 v1 -> lang t (b1 ++ b2) v2 -> b2 = [] /\ v1 = v2.
Proof.
  intros Hw Hb H1 H2. set (b := b1 ++ b2) in *. pose proof (decode_parses (S (tsize t + length b)) t (length b) Hw ltac:(lia)) as P.
  pose proof (ready_start _ _ _ _ (NewStream_ready b Hb)) as S. destruct (ps_complete _ _ _ P _ _ b1 b2 [] v1 H1 S) as (s1 & E1 & [O1 _]); [done|].
  assert (start (NewStream b (zlen b)) [] (b ++ []) []) as S' by (by rewrite app_nil_r). destruct (ps_complete _ _ _ P _ _ b [] [] v2 H2 S') as (s2 & E2 & [O2 _]); [by rewrite app_nil_r|]. rewrite E1 in E2. injection E2 as <- <-.
  pose proof (op_input _ _ _ _ O1) as I. rewrite (op_input _ _ _ _ O2) in I. by rewrite !app_nil_r in I.
Qed.
Lemma DecodeBytes_lang t b : wf_type t = true -> zlen b < 2 ^ 64 -> DecodeBytes b t <> inl outOfFuel /\ forall v, DecodeBytes b t = inr v <-> lang t b v.
Proof.
  intros Hw Hb. unfold DecodeBytes. destruct (decode_outcome (decode_fuel t b) t b Hw Hb) as [(b1 & b2 & v & s & Eb & Hv & -> & ->)|[(e & s & -> & He1 & He2) Hn]]; [unfold decode_fuel; lia| |].
  - rewrite Z.gtb_ltb. destruct (Z.ltb_spec 0 (zlen b2)) as [H2|H2].
    + split; [done|]. intros v'. split; [done|]. intros Hv'. rewrite Eb in Hv', Hb. destruct (lang_unique t b1 b2 v v' Hw Hb Hv Hv') as [-> _]. by change (zlen (@nil byte)) with 0 in H2.
    + assert (b2 = []) as -> by (apply zlen_0; pose proof (zlen_nonneg b2); lia). rewrite app_nil_r in Eb. subst b1. split; [done|]. intros v'. split; [by intros [= <-]|].
      intros Hv'. rewrite <- (app_nil_r b) in Hv', Hb. destruct (lang_unique t b [] v v' Hw Hb Hv Hv') as [_ ->]. done.
  - split; [congruence|]. intros v. split; [done|]. intros Hv. by destruct (Hn v).
Qed.

Lemma encode_decode t v : wf_type t = true -> nils_ok t = true -> typed t v -> zlen (enc v) < 2 ^ 64 -> EncodeToBytes v = Some (enc v) /\ DecodeBytes (enc v) t = inr v.
Proof.
  intros Hw Hn Ht Hs. destruct (typed_encodable t (or_introl Hw) v Ht) as [Hu He]. rewrite EncodeToBytes_enc, He by done. split; [done|].
  apply DecodeBytes_lang; [done|done|by apply encode_lang].
Qed.




(** ** Examples *)

(** A struct with a number, a pointer that may be nil, a list and a tail of strings *)
Definition demo_type : dtype := TStruct [TUint 64; TOptPtr (TByteArray 2); TSlice false (TPtr (TStruct [TBool; TBigInt])); TSlice true TString].
Definition demo_value : value :=
  VStruct [VUint 1024; VNilByteArray; VSlice false [VStruct [VBool true; VBigInt (Some (2 ^ 70))]]; VSlice true [VBytes [Byte.x05]; VBytes []]].

(** ** Raw values

    [Raw] puts a new header in front of the content, and for a long string the tag of the new header says
    that the length has one more byte than it has. *)

(** A string of 56 bytes or more that is decoded into a raw value is not what was read: the value
    encodes to other bytes. *)
Theorem raw_string_spoiled (c : list byte) : 56 <= zlen c -> zlen (rlp (Str c)) < 2 ^ 64 ->
  exists b, DecodeBytes (rlp (Str c)) TRawValue = inr (VRawValue b) /\ b = puthead 0x80 0xB8 (zlen c) ++ c /\ b <> rlp (Str c) /\ EncodeToBytes (VRawValue b) = Some b.
Proof.
  intros Hc Hs. pose proof (zlen_Str c). assert (0 <= zlen c < 2 ^ 64) as Hn by lia. assert (rlp (Str c) = puthead 0x80 0xB7 (zlen c) ++ c) as E by (apply rlp_string_header; intros x ->; by change (zlen [x]) with 1 in Hc).
  destruct (rehead_string (zlen c) c Hn) as [Hr Hl]. exists (puthead 0x80 0xB8 (zlen c) ++ c). split_and!; [|done| |].
  - apply DecodeBytes_lang; [done..|]. cbn [lang]. rewrite E, Hr. split; [done|]. exists KString, (zlen c), Byte.x00, (puthead 0x80 0xB7 (zlen c)), c. split_and!; try done. constructor. lia.
  - rewrite E, <- Hr. unfold rehead. rewrite Hl. destruct (Z.ltb_spec (zlen c) 56); [lia|]. cbn [negb]. destruct (puthead 0x80 0xB7 (zlen c) ++ c) as [|x l]; [done|].
    intros [= Ex]. cbn in Hl. apply andb_true_iff in Hl as [_ Hl%Z.leb_le]. pose proof (byte_to_Z_range x). apply (f_equal byte_to_Z) in Ex. rewrite byte_to_of_Z, Z.mod_small in Ex; lia.
  - rewrite EncodeToBytes_enc, enc_VRawValue; [done..|]. rewrite enc_VRawValue, zlen_app, zlen_puthead by done. by rewrite E, zlen_app, zlen_puthead in Hs.
Qed.
(** The raw value of a string of 56 zero bytes: reading it again gives neither the string nor the bytes. *)
Theorem raw_string_unreadable :
  DecodeBytes (rlp (Str (zeros 56))) TRawValue = inr (VRawValue (Byte.xb9 :: Byte.x38 :: zeros 56)) /\
  DecodeBytes (Byte.xb9 :: Byte.x38 :: zeros 56) TByteSlice = inl SValueTooLarge.
Proof. split; vm_compute; reflexivity. Qed.

(** ** Arrays of one byte

    The decoder of such an array ignores that [s.Uint] refuses a zero byte and leaves the stream where it
    is, so that the element is read again and again. *)

Lemma elems_stuck m fuel s v : m s = (inr v, s) -> decodeSliceElems m fuel s = (inl outOfFuel, s).
Proof. intros E. induction fuel as [|fuel IH]; [done|]. cbn [decodeSliceElems]. rewrite E. unfold bind. by rewrite IH. Qed.
(** Decoding the encoding of a list with one array of a single zero byte never ends: whatever the
    fuel, it runs out. *)
Theorem one_byte_array_loops (fuel : nat) :
  EncodeToBytes (VSlice false [VBytes [Byte.x00]]) = Some [Byte.xc1; Byte.x00] /\
  exists s, decode fuel (TSlice false (TByteArray 1)) (NewStream [Byte.xc1; Byte.x00] 2) = (inl outOfFuel, s).
Proof.
  split; [reflexivity|]. destruct fuel as [|fuel]; [by eexists|]. cbn [decode]. unfold makeListDecoder, decodeListSlice, bind, rescue. set (s1 := NewStream _ _).
  assert (s_List s1 = (inr 1, mkStream [Byte.x00] 1 true None 0 Byte.x00 None [(0, 1)])) as -> by reflexivity. cbn [Z.eqb]. unfold bind.
  destruct fuel as [|fuel]; [by eexists|]. cbn [decodeSliceElems].
  assert (forall f s, decode (S f) (TByteArray 1) s = decodeByteArray 1 s) as Hd by reflexivity. rewrite Hd. set (s2 := mkStream _ _ _ _ _ _ _ _).
  set (s3 := mkStream [] 0 true (Some KByte) 0 Byte.x00 None [(1, 1)]). assert (decodeByteArray 1 s2 = (inr (VBytes [Byte.x00]), s3)) as -> by reflexivity.
  unfold bind. assert (decodeByteArray 1 s3 = (inr (VBytes [Byte.x00]), s3)) as Hs by reflexivity.
  assert (forall f g, decodeSliceElems (decode (S f) (TByteArray 1)) g s3 = (inl outOfFuel, s3)) as Hl by (intros f g; eapply elems_stuck; rewrite Hd; exact Hs).
  cbn [decodeSliceElems]. rewrite Hd, Hs. unfold bind. rewrite Hl. by eexists.
Qed.
(** A struct that begins with such an array is refused, though it was encoded. *)
Theorem one_byte_array_refused :
  let v := VStruct [VBytes [Byte.x00]; VUint 5] in
  EncodeToBytes v = Some [Byte.xc2; Byte.x00; Byte.x05] /\ DecodeBytes [Byte.xc2; Byte.x00; Byte.x05] (TStruct [TByteArray 1; TUint 64]) = inl (decodeError nonCanonicalInteger).
Proof. split; reflexivity. Qed.
(** An empty string and an empty list are the same nil pointer. *)
Theorem nil_two_encodings : DecodeBytes [Byte.xc1; Byte.x80] (TStruct [TOptPtr (TByteArray 20)]) = DecodeBytes [Byte.xc1; Byte.xc0] (TStruct [TOptPtr (TByteArray 20)]) /\
  DecodeBytes [Byte.xc1; Byte.x80] (TStruct [TOptPtr (TByteArray 20)]) = inr (VStruct [VNilByteArray]).
Proof. split; reflexivity. Qed.
End RlpDecode.
