(* ===== verification/Trie.v ===== *)
(** * [trie]: the Merkle Patricia trie

    The in-memory trie of [trie/trie.go] over a database of encoded nodes: the three key
    encodings of [encoding.go], the nodes and their decoder ([node.go]), the operations of
    [Trie] ([trie.go]), the hasher that collapses and stores a trie ([hasher.go]) and Merkle
    proofs ([proof.go]).  A Go byte slice is a [list byte]; a key in HEX encoding has one byte
    per nibble.  Nodes are never changed after they are shared ([insert], [delete] and the
    hasher copy them), so they are values here; the [Path] of a [MissingNodeError], which only
    serves the error message, and the metrics counters are left out. *)

From S2P Require Import Prelude GoMath World Rlp.

#[export] Program Instance byte_countable : Countable byte :=
  inj_countable' byte_to_Z byte_of_Z _.
Next Obligation. intros b. apply byte_of_to_Z. Qed.

Module Trie.

(** ** Results: a value, a [MissingNodeError], an error of decoding or of a proof, a panic *)

Inductive res (A : Type) :=
| Done (a : A)
| Missing (h : list byte)
| Invalid
| Crash
| NoFuel.
#[global] Arguments Done {A} a.
#[global] Arguments Missing {A} h.
#[global] Arguments Invalid {A}.
#[global] Arguments Crash {A}.
#[global] Arguments NoFuel {A}.

Definition rbind {A B} (x : res A) (f : A -> res B) : res B :=
  match x with
  | Done a => f a | Missing h => Missing h | Invalid => Invalid | Crash => Crash | NoFuel => NoFuel
  end.
Notation "'let!' x := e 'in' k" := (rbind e (fun x => k))
  (at level 200, x pattern at level 0, e at level 100, k at level 200, right associativity).
(** An index or slice expression that may be out of range. *)
Definition index {A} (x : option A) : res A := match x with Some a => Done a | None => Crash end.
Definition of_rlp {A} (x : Rlp.result A) : res A :=
  match x with Rlp.Ok a => Done a | Rlp.Err _ => Invalid | Rlp.IndexPanic => Crash end.

(** ** Key encodings ([encoding.go]) *)

Definition terminator : byte := Byte.x10.

Definition hasTerm (s : list byte) : bool :=
  match last s with Some b => bool_decide (b = terminator) | None => false end.

Definition keybytesToHex (str : list byte) : list byte :=
  concat (map (fun b => [byte_of_Z (byte_to_Z b / 16); byte_of_Z (byte_to_Z b mod 16)]) str)
  ++ [terminator].

(** The nibbles overwrite [bytes] from its start; [None] is an index out of range. *)
Fixpoint decodeNibbles (nibbles bytes : list byte) : option (list byte) :=
  match nibbles with
  | [] => Some bytes
  | [_] => None
  | n0 :: n1 :: nibbles' =>
      match bytes with
      | [] => None
      | _ :: bytes' =>
          cons (byte_of_Z (Z.lor (Z.shiftl (byte_to_Z n0) 4 mod 256) (byte_to_Z n1)))
            <$> decodeNibbles nibbles' bytes'
      end
  end.

Definition hexToCompact (hex : list byte) : option (list byte) :=
  let '(term, hex) := if hasTerm hex then (1, take (length hex - 1) hex) else (0, hex) in
  let buf := zeros (length hex / 2 + 1) in
  let b0 := Z.shiftl term 5 in
  let '(b0, hex) :=
    if Z.land (zlen hex) 1 =? 1 then
      match hex with
      | h0 :: rest => (Z.lor (Z.lor b0 (Z.shiftl 1 4)) (byte_to_Z h0), rest)
      | [] => (b0, hex)
      end
    else (b0, hex) in
  cons (byte_of_Z b0) <$> decodeNibbles hex (drop 1 buf).

(** [None]: [base[0]] of an empty slice. *)
Definition compactToHex (compact : list byte) : option (list byte) :=
  let base := keybytesToHex compact in
  let base := take (length base - 1) base in
  match base with
  | [] => None
  | b0 :: _ =>
      let base := if byte_to_Z b0 >=? 2 then base ++ [terminator] else base in
      let chop := 2 - Z.land (byte_to_Z b0) 1 in
      Some (drop (Z.to_nat chop) base)
  end.

(** [None]: the panic on a key of odd length. *)
Definition hexToKeybytes (hex : list byte) : option (list byte) :=
  let hex := if hasTerm hex then take (length hex - 1) hex else hex in
  if negb (Z.land (zlen hex) 1 =? 0) then None
  else decodeNibbles hex (zeros ((length hex + 1) / 2)).

Fixpoint prefixLen (a b : list byte) : nat :=
  match a, b with
  | x :: a', y :: b' => if bool_decide (x = y) then S (prefixLen a' b') else 0
  | _, _ => 0
  end.

(** ** Nodes ([node.go]) *)

(** [gen] is a [uint16]. *)
Record nodeFlag := mkFlag { f_hash : option (list byte); f_gen : Z; f_dirty : bool }.

#[warnings="-register-all"]
Inductive node :=
| NilN
| FullN (Children : list node) (flags : nodeFlag)     (* 17 children *)
| ShortN (Key : list byte) (Val : node) (flags : nodeFlag)
| HashN (h : list byte)
| ValueN (v : list byte).

Definition u16 (z : Z) : Z := z mod 2 ^ 16.

Definition canUnload (fl : nodeFlag) (cachegen cachelimit : Z) : bool :=
  negb (f_dirty fl) && (u16 (cachegen - f_gen fl) >=? cachelimit).

(** The child at a nibble; out of range for an array of 17. *)
Definition child (cs : list node) (b : byte) : res node := index (cs !! Z.to_nat (byte_to_Z b)).
Definition set_child (cs : list node) (b : byte) (n : node) : list node :=
  <[Z.to_nat (byte_to_Z b) := n]> cs.
Definition emptyChildren : list node := replicate 17 NilN.

(** What the RLP encoder sees: [fullNode.EncodeRLP] encodes the array of children, a
    [shortNode] is the struct of its exported fields. *)
Fixpoint node_value (n : node) : Rlp.value :=
  match n with
  | NilN => Rlp.VNilInterface
  | FullN cs _ => Rlp.VSlice false (map node_value cs)
  | ShortN k v _ => Rlp.VStruct [Rlp.VBytes k; node_value v]
  | HashN h => Rlp.VBytes h
  | ValueN v => Rlp.VBytes v
  end.

(** *** Decoding

    [decodeShort], [decodeFull] and [decodeRef] take the decoder of embedded nodes. *)
Definition hashLen : Z := 32.

Section decode.
Variable decodeNode : option (list byte) -> list byte -> Z -> res node.

Definition decodeRef (buf : list byte) (cachegen : Z) : res (node * list byte) :=
  let! (kind, val, rest) := of_rlp (Rlp.Split buf) in
  match kind with
  | Rlp.KList =>
      if zlen buf - zlen rest >? hashLen then Invalid
      else let! n := decodeNode None buf cachegen in Done (n, rest)
  | Rlp.KString =>
      if zlen val =? 0 then Done (NilN, rest)
      else if zlen val =? 32 then Done (HashN val, rest)
      else Invalid
  | Rlp.KByte => Invalid
  end.

Definition decodeShort (hash : option (list byte)) (elems : list byte) (cachegen : Z) : res node :=
  let! (kbuf, rest) := of_rlp (Rlp.SplitString elems) in
  let flag := mkFlag hash cachegen false in
  let! key := index (compactToHex kbuf) in
  if hasTerm key then
    let! (val, _) := of_rlp (Rlp.SplitString rest) in Done (ShortN key (ValueN val) flag)
  else
    let! (r, _) := decodeRef rest cachegen in Done (ShortN key r flag).

Fixpoint decodeChildren (i : nat) (elems : list byte) (cachegen : Z) : res (list node * list byte) :=
  match i with
  | O => Done ([], elems)
  | S i' =>
      let! (cld, rest) := decodeRef elems cachegen in
      let! (cs, rest) := decodeChildren i' rest cachegen in
      Done (cld :: cs, rest)
  end.

Definition decodeFull (hash : option (list byte)) (elems : list byte) (cachegen : Z) : res node :=
  let! (cs, elems) := decodeChildren 16 elems cachegen in
  let! (val, _) := of_rlp (Rlp.SplitString elems) in
  Done (FullN (cs ++ [if zlen val >? 0 then ValueN val else NilN]) (mkFlag hash cachegen false)).
End decode.

(** An embedded node is a proper part of its parent: [len(buf)] nested calls are enough. *)
Fixpoint decodeNode_fuel (fuel : nat) (hash : option (list byte)) (buf : list byte) (cachegen : Z)
    : res node :=
  match fuel with
  | O => NoFuel
  | S fuel' =>
      if zlen buf =? 0 then Invalid
      else
        let! (elems, _) := of_rlp (Rlp.SplitList buf) in
        match Rlp.CountValues elems with
        | Rlp.IndexPanic => Crash
        | Rlp.Err _ => Invalid
        | Rlp.Ok c =>
            if c =? 2 then decodeShort (decodeNode_fuel fuel') hash elems cachegen
            else if c =? 17 then decodeFull (decodeNode_fuel fuel') hash elems cachegen
            else Invalid
        end
  end.
Definition decodeNode (hash : option (list byte)) (buf : list byte) (cachegen : Z) : res node :=
  decodeNode_fuel (S (length buf)) hash buf cachegen.

Definition mustDecodeNode (hash : option (list byte)) (buf : list byte) (cachegen : Z) : res node :=
  match decodeNode hash buf cachegen with Invalid => Crash | r => r end.

(** ** The trie ([trie.go]) *)

Notation database := (gmap (list byte) (list byte)) (only parsing).

Record Trie := mkTrie {
  t_root : node;
  t_db : option database;       (* [None]: a trie without a database *)
  t_originalRoot : Hash;
  t_cachegen : Z;
  t_cachelimit : Z;
}.

Definition set_root (n : node) (t : Trie) : Trie :=
  mkTrie n (t_db t) (t_originalRoot t) (t_cachegen t) (t_cachelimit t).

(** The known root hash of an empty trie. *)
Definition emptyRoot : Hash := 0x56e81f171bcc55a6ff8345e692c0f86e5b48e01b996cadc001622fb5e363b421.

Definition newFlag (t : Trie) : nodeFlag := mkFlag None (t_cachegen t) true.

(** [Get] fails on a missing key; the nodes a database holds are never empty. *)
Definition resolveHash (t : Trie) (n : list byte) : res node :=
  let! db := index (t_db t) in
  match db !! n with
  | None => Missing n
  | Some enc => mustDecodeNode (Some n) enc (t_cachegen t)
  end.
Definition resolve (t : Trie) (n : node) : res node :=
  match n with HashN h => resolveHash t h | _ => Done n end.

Fixpoint tryGet (fuel : nat) (t : Trie) (origNode : node) (key : list byte) (pos : nat)
    : res (option (list byte) * node * bool) :=
  match fuel with
  | O => NoFuel
  | S fuel' =>
      match origNode with
      | NilN => Done (None, NilN, false)
      | ValueN v => Done (Some v, ValueN v, false)
      | ShortN k v fl =>
          if (length key <? pos + length k)%nat || negb (bool_decide (k = take (length k) (drop pos key)))
          then Done (None, origNode, false)
          else
            let! (value, newnode, didResolve) := tryGet fuel' t v key (pos + length k) in
            Done (value,
                  (if didResolve then ShortN k newnode (mkFlag (f_hash fl) (t_cachegen t) (f_dirty fl))
                   else origNode),
                  didResolve)
      | FullN cs fl =>
          let! b := index (key !! pos) in
          let! c := child cs b in
          let! (value, newnode, didResolve) := tryGet fuel' t c key (pos + 1) in
          Done (value,
                (if didResolve then
                   FullN (set_child cs b newnode) (mkFlag (f_hash fl) (t_cachegen t) (f_dirty fl))
                 else origNode),
                didResolve)
      | HashN h =>
          let! child := resolveHash t h in
          let! (value, newnode, _) := tryGet fuel' t child key pos in
          Done (value, newnode, true)
      end
  end.

(** Every call consumes a nibble of the key or resolves a hash node, whose content is not a
    hash node: twice the key's length and two more calls are enough. *)
Definition op_fuel (key : list byte) : nat := 2 * length key + 2.

Definition TryGet (t : Trie) (key : list byte) : res (option (list byte) * Trie) :=
  let key := keybytesToHex key in
  let! (value, newroot, didResolve) := tryGet (op_fuel key) t (t_root t) key 0 in
  Done (value, if didResolve then set_root newroot t else t).

Fixpoint insert (fuel : nat) (t : Trie) (n : node) (key : list byte) (value : node)
    : res (bool * node) :=
  match fuel with
  | O => NoFuel
  | S fuel' =>
      match key with
      | [] =>
          match n with
          | ValueN v =>
              match value with
              | ValueN v' => Done (negb (bool_decide (v = v')), value)
              | _ => Crash
              end
          | _ => Done (true, value)
          end
      | k0 :: key' =>
          match n with
          | ShortN nk nv fl =>
              let matchlen := prefixLen key nk in
              if (matchlen =? length nk)%nat then
                let! (dirty, nn) := insert fuel' t nv (drop matchlen key) value in
                if negb dirty then Done (false, n) else Done (true, ShortN nk nn (newFlag t))
              else
                let! nb := index (nk !! matchlen) in
                let! (_, c1) := insert fuel' t NilN (drop (matchlen + 1) nk) nv in
                let! kb := index (key !! matchlen) in
                let! (_, c2) := insert fuel' t NilN (drop (matchlen + 1) key) value in
                let branch := FullN (set_child (set_child emptyChildren nb c1) kb c2) (newFlag t) in
                if (matchlen =? 0)%nat then Done (true, branch)
                else Done (true, ShortN (take matchlen key) branch (newFlag t))
          | FullN cs fl =>
              let! c := child cs k0 in
              let! (dirty, nn) := insert fuel' t c key' value in
              if negb dirty then Done (false, n) else Done (true, FullN (set_child cs k0 nn) (newFlag t))
          | NilN => Done (true, ShortN key value (newFlag t))
          | HashN h =>
              let! rn := resolveHash t h in
              let! (dirty, nn) := insert fuel' t rn key value in
              if negb dirty then Done (false, rn) else Done (true, nn)
          | ValueN _ => Crash
          end
      end
  end.

(** The loop of [delete] over the children: -1 for none, -2 for more than one. *)
Fixpoint single_child (cs : list node) (i pos : Z) : Z :=
  match cs with
  | [] => pos
  | NilN :: cs' => single_child cs' (i + 1) pos
  | _ :: cs' => if pos =? -1 then single_child cs' (i + 1) i else -2
  end.

Fixpoint delete (fuel : nat) (t : Trie) (n : node) (key : list byte) : res (bool * node) :=
  match fuel with
  | O => NoFuel
  | S fuel' =>
      match n with
      | ShortN nk nv fl =>
          let matchlen := prefixLen key nk in
          if (matchlen <? length nk)%nat then Done (false, n)
          else if (matchlen =? length key)%nat then Done (true, NilN)
          else
            let! (dirty, child) := delete fuel' t nv (drop (length nk) key) in
            if negb dirty then Done (false, n)
            else match child with
                 | ShortN ck cv _ => Done (true, ShortN (nk ++ ck) cv (newFlag t))
                 | _ => Done (true, ShortN nk child (newFlag t))
                 end
      | FullN cs fl =>
          match key with
          | [] => Crash
          | k0 :: key' =>
              let! c := child cs k0 in
              let! (dirty, nn) := delete fuel' t c key' in
              if negb dirty then Done (false, n)
              else
                let cs := set_child cs k0 nn in
                let pos := single_child cs 0 (-1) in
                if pos >=? 0 then
                  let! c := index (cs !! Z.to_nat pos) in
                  let! cnode := (if negb (pos =? 16) then resolve t c else Done NilN) in
                  match cnode with
                  | ShortN ck cv _ => Done (true, ShortN (byte_of_Z pos :: ck) cv (newFlag t))
                  | _ => Done (true, ShortN [byte_of_Z pos] c (newFlag t))
                  end
                else Done (true, FullN cs (newFlag t))
          end
      | ValueN _ => Done (true, NilN)
      | NilN => Done (false, NilN)
      | HashN h =>
          let! rn := resolveHash t h in
          let! (dirty, nn) := delete fuel' t rn key in
          if negb dirty then Done (false, rn) else Done (true, nn)
      end
  end.

Definition TryDelete (t : Trie) (key : list byte) : res Trie :=
  let k := keybytesToHex key in
  let! (_, n) := delete (op_fuel k) t (t_root t) k in
  Done (set_root n t).

Definition TryUpdate (t : Trie) (key value : list byte) : res Trie :=
  let k := keybytesToHex key in
  if negb (zlen value =? 0) then
    let! (_, n) := insert (op_fuel k) t (t_root t) k (ValueN value) in
    Done (set_root n t)
  else
    let! (_, n) := delete (op_fuel k) t (t_root t) k in
    Done (set_root n t).

Definition New (root : Hash) (db : option database) : res Trie :=
  let trie := mkTrie NilN db root 0 0 in
  if negb (root =? 0) && negb (root =? emptyRoot) then
    let! rootnode := resolveHash trie (be_bytes 32 root) in
    Done (set_root rootnode trie)
  else Done trie.

(** ** The hasher ([hasher.go])

    The database a hasher writes to is threaded through; [None] is hashing without storing.
    Writing to it does not fail. *)
Section hasher.
Context `{CryptoPrims}.

Definition cache (n : node) : res (option (list byte) * bool) :=
  match n with
  | FullN _ fl | ShortN _ _ fl => Done (f_hash fl, f_dirty fl)
  | HashN _ | ValueN _ => Done (None, true)
  | NilN => Crash
  end.
Definition node_canUnload (n : node) (gen limit : Z) : bool :=
  match n with FullN _ fl | ShortN _ _ fl => canUnload fl gen limit | _ => false end.

Definition store (n : node) (db : option database) (force : bool) : res (node * option database) :=
  match n with
  | NilN | HashN _ => Done (n, db)
  | _ =>
      let! tmp := index (Rlp.EncodeToBytes (node_value n)) in
      if (zlen tmp <? 32) && negb force then Done (n, db)
      else
        let! (cached, _) := cache n in
        let hash := match cached with Some h => h | None => Keccak256 tmp end in
        Done (HashN hash, <[hash := tmp]> <$> db)
  end.

Section children.
Variable hash : node -> option database -> bool -> res (node * node * option database).

(** The loop over the first sixteen children; the value at index 16 is left as it is. *)
Fixpoint hash_children (i : nat) (cs : list node) (db : option database)
    : res (list node * list node * option database) :=
  match cs with
  | [] => Done ([], [], db)
  | c :: cs' =>
      let! (collapsed, cached, db) :=
        match c with
        | NilN => Done (ValueN [], NilN, db)
        | _ => if (i <? 16)%nat then hash c db false else Done (c, c, db)
        end in
      let! (collapseds, cacheds, db) := hash_children (S i) cs' db in
      Done (collapsed :: collapseds, cached :: cacheds, db)
  end.

Definition hashChildren_with (original : node) (db : option database)
    : res (node * node * option database) :=
  match original with
  | ShortN k v fl =>
      let! ck := index (hexToCompact k) in
      let! (collapsedVal, cachedVal, db) :=
        match v with ValueN _ => Done (v, v, db) | _ => hash v db false end in
      let collapsedVal := match collapsedVal with NilN => ValueN [] | _ => collapsedVal end in
      Done (ShortN ck collapsedVal fl, ShortN k cachedVal fl, db)
  | FullN cs fl =>
      let! (collapseds, cacheds, db) := hash_children 0 cs db in
      Done (FullN collapseds fl, FullN cacheds fl, db)
  | _ => Done (original, original, db)
  end.
End children.

(** The flags of the cached copy: the new hash, and not dirty when it was stored. *)
Definition set_cache (cached hashed : node) (stored : bool) : node :=
  let cachedHash := match hashed with HashN h => Some h | _ => None end in
  match cached with
  | ShortN k v fl => ShortN k v (mkFlag cachedHash (f_gen fl) (if stored then false else f_dirty fl))
  | FullN cs fl => FullN cs (mkFlag cachedHash (f_gen fl) (if stored then false else f_dirty fl))
  | _ => cached
  end.

Fixpoint hash (cachegen cachelimit : Z) (n : node) (db : option database) (force : bool) {struct n}
    : res (node * node * option database) :=
  let walk :=
    let! (collapsed, cached, db) := hashChildren_with (hash cachegen cachelimit) n db in
    let! (hashed, db) := store collapsed db force in
    Done (hashed, set_cache cached hashed (bool_decide (is_Some db)), db) in
  let! (h, dirty) := cache n in
  match h with
  | Some h =>
      match db with
      | None => Done (HashN h, n, db)
      | Some _ =>
          if node_canUnload n cachegen cachelimit then Done (HashN h, HashN h, db)
          else if negb dirty then Done (HashN h, n, db)
          else walk
      end
  | None => walk
  end.
Definition hashChildren (cachegen cachelimit : Z) : node -> option database -> _ :=
  hashChildren_with (hash cachegen cachelimit).

Definition hashRoot (t : Trie) (db : option database) : res (node * node * option database) :=
  match t_root t with
  | NilN => Done (HashN (be_bytes 32 emptyRoot), NilN, db)
  | root => hash (t_cachegen t) (t_cachelimit t) root db true
  end.

(** [hash.(hashNode)] *)
Definition as_hash (n : node) : res (list byte) := match n with HashN h => Done h | _ => Crash end.

Definition Hash (t : Trie) : res (GoMath.Hash * Trie) :=
  let! (hash, cached, _) := hashRoot t None in
  let! h := as_hash hash in
  Done (BytesToHash h, set_root cached t).

(** The trie, its root hash and the database written to. *)
Definition CommitTo (t : Trie) (db : database) : res (GoMath.Hash * Trie * database) :=
  let! (hash, cached, db') := hashRoot t (Some db) in
  let! h := as_hash hash in
  Done (BytesToHash h,
        mkTrie cached (t_db t) (t_originalRoot t) (u16 (t_cachegen t + 1)) (t_cachelimit t),
        default db db').

Definition Commit (t : Trie) : res (GoMath.Hash * Trie) :=
  let! db := index (t_db t) in
  let! (root, t, db) := CommitTo t db in
  Done (root, mkTrie (t_root t) (Some db) (t_originalRoot t) (t_cachegen t) (t_cachelimit t)).

(** ** Merkle proofs ([proof.go]) *)

(** The nodes on the path to a key.  [Missing] stands for the logged error and nil result. *)
Fixpoint prove_path (fuel : nat) (t : Trie) (tn : node) (key : list byte) : res (list node) :=
  match key, tn with
  | [], _ => Done []
  | _, NilN => Done []
  | k0 :: key', _ =>
      match fuel with
      | O => NoFuel
      | S fuel' =>
          match tn with
          | ShortN k v _ =>
              let '(tn', key) :=
                if (length key <? length k)%nat || negb (bool_decide (k = take (length k) key))
                then (NilN, key) else (v, drop (length k) key) in
              let! ns := prove_path fuel' t tn' key in Done (tn :: ns)
          | FullN cs _ =>
              let! c := child cs k0 in
              let! ns := prove_path fuel' t c key' in Done (tn :: ns)
          | HashN h => let! tn := resolveHash t h in prove_path fuel' t tn key
          | _ => Crash
          end
      end
  end.

Fixpoint prove_nodes (i : nat) (nodes : list node) : res (list (list byte)) :=
  match nodes with
  | [] => Done []
  | n :: nodes' =>
      let! (n, _, _) := hashChildren 0 0 n None in
      let! (hn, _) := store n None false in
      let isHash := match hn with HashN _ => true | _ => false end in
      let! proof := prove_nodes (S i) nodes' in
      if isHash || (i =? 0)%nat then Done (default [] (Rlp.EncodeToBytes (node_value n)) :: proof)
      else Done proof
  end.

Definition Prove (t : Trie) (key : list byte) : res (list (list byte)) :=
  let key := keybytesToHex key in
  let! nodes := prove_path (op_fuel key) t (t_root t) key in
  prove_nodes 0 nodes.

(** The end of the walk is [tn.(valueNode)], which panics on anything else, nil included. *)
Fixpoint get (fuel : nat) (tn : node) (key : list byte) : res (list byte * node) :=
  match key with
  | [] => match tn with ValueN _ => Done ([], tn) | _ => Crash end
  | k0 :: key' =>
      match fuel with
      | O => NoFuel
      | S fuel' =>
          match tn with
          | ShortN k v _ =>
              if (length key <? length k)%nat || negb (bool_decide (k = take (length k) key))
              then Done ([], NilN)
              else get fuel' v (drop (length k) key)
          | FullN cs _ => let! c := child cs k0 in get fuel' c key'
          | HashN _ => Done (key, tn)
          | NilN => Done (key, NilN)
          | ValueN _ => Crash
          end
      end
  end.

Fixpoint verify_loop (proof : list (list byte)) (wantHash key : list byte) : res (option (list byte)) :=
  match proof with
  | [] => Invalid
  | buf :: proof' =>
      if negb (bool_decide (Keccak256 buf = wantHash)) then Invalid
      else
        let! n := decodeNode (Some wantHash) buf 0 in
        let! (keyrest, cld) := get (S (length buf + length key)) n key in
        match cld with
        | NilN => match proof' with [] => Done None | _ => Invalid end
        | HashN h => verify_loop proof' h keyrest
        | ValueN v => match proof' with [] => Done (Some v) | _ => Invalid end
        | _ => verify_loop proof' wantHash key
        end
  end.
Definition VerifyProof (rootHash : GoMath.Hash) (key : list byte) (proof : list (list byte))
    : res (option (list byte)) :=
  verify_loop proof (be_bytes 32 rootHash) (keybytesToHex key).

End hasher.
End Trie.
