(* ===== verification/TrieFacts.v ===== *)
(** * Key encodings and canonical tries

    The compact key encoding is undone by its decoder.  The trees that tries stand for: a
    [tree] has no hash nodes and no cache flags; [tget] is its content; [can] says that it is
    in the minimal form the trie operations keep.  A canonical tree is determined by its
    content. *)

From S2P Require Import Prelude GoMath World Rlp Trie.
Import Trie.

(** ** Nibbles and valid keys *)

Definition nib (b : byte) : Prop := byte_to_Z b < 16.
Definition nidx (b : byte) : nat := Z.to_nat (byte_to_Z b).

(** A key in HEX encoding: nibbles and one terminator. *)
Fixpoint vkey (key : list byte) : Prop :=
  match key with
  | [] => False
  | b :: key' => b = terminator /\ key' = [] \/ nib b /\ vkey key'
  end.

Lemma nidx_inj a b : nidx a = nidx b -> a = b.
Proof.
  unfold nidx. intros E. apply byte_to_Z_inj.
  pose proof (byte_to_Z_range a). pose proof (byte_to_Z_range b). lia.
Qed.
Lemma nidx_nib b : nib b <-> (nidx b < 16)%nat.
Proof. unfold nib, nidx. pose proof (byte_to_Z_range b). lia. Qed.
Lemma nib_term b : nib b -> b <> terminator.
Proof. by intros Hb ->. Qed.
Lemma nib_of_Z z : 0 <= z < 16 -> nib (byte_of_Z z).
Proof. unfold nib. rewrite byte_to_of_Z. intros. rewrite Z.mod_small; lia. Qed.

Lemma vkey_app_nibs p k : Forall nib p -> vkey (p ++ k) <-> vkey k.
Proof.
  induction 1 as [|b p Hb Hp IH]; [done|]. cbn. rewrite IH.
  split; [intros [[-> _]|[_ ?]]; [|done]|tauto]. by apply nib_term in Hb.
Qed.

(** A proper prefix of a valid key consists of nibbles. *)
Lemma vkey_prefix p k : vkey (p ++ k) -> k <> [] -> Forall nib p /\ vkey k.
Proof.
  induction p as [|b p IH]; cbn; [done|]. intros [[_ E]|[Hb Hk]] Hne.
  - by apply app_nil in E as [_ ->].
  - destruct (IH Hk Hne). by split; [constructor|].
Qed.

Lemma vkey_prefix_free k r : vkey k -> vkey (k ++ r) -> r = [].
Proof.
  intros Hk Hr. destruct (decide (r = [])) as [|Hne]; [done|].
  destruct (vkey_prefix _ _ Hr Hne) as [Hn _]. exfalso. clear -Hk Hn.
  induction Hn as [|b k Hb Hn IH]; [done|]. destruct Hk as [[-> _]|[_ ?]]; [|tauto].
  by apply nib_term in Hb.
Qed.

Lemma vkey_nonempty k : vkey k -> k <> [].
Proof. by destruct k. Qed.

Lemma vkey_snoc k : vkey k <-> exists p, Forall nib p /\ k = p ++ [terminator].
Proof.
  split.
  - induction k as [|b k IH]; [done|]. intros [[-> ->]|[Hb Hk]].
    + by exists [].
    + destruct (IH Hk) as (p & Hp & ->). exists (b :: p). by split; [constructor|].
  - intros (p & Hp & ->). apply vkey_app_nibs; [done|]. cbn. tauto.
Qed.

Lemma hasTerm_vkey k : vkey k -> hasTerm k = true.
Proof. intros (p & _ & ->)%vkey_snoc. unfold hasTerm. by rewrite last_snoc. Qed.
Lemma hasTerm_nibs k : Forall nib k -> hasTerm k = false.
Proof.
  intros Hk. unfold hasTerm. destruct (last k) as [b|] eqn:E; [|done].
  apply bool_decide_eq_false. apply nib_term. rewrite Forall_lookup in Hk.
  rewrite last_lookup in E. eauto.
Qed.

(** ** HEX and COMPACT encodings *)

Lemma lor_shiftl_add a b k : 0 <= k -> 0 <= b < 2 ^ k -> Z.lor (Z.shiftl a k) b = a * 2 ^ k + b.
Proof.
  intros Hk Hb. rewrite Z.shiftl_mul_pow2 by lia. rewrite <- Z.add_lor_land.
  enough (Z.land (a * 2 ^ k) b = 0) as -> by lia.
  apply Z.bits_inj'. intros n Hn. rewrite Z.land_spec, Z.bits_0, Z.mul_pow2_bits by lia.
  destruct (Z.lt_ge_cases n k); [by rewrite (Z.testbit_neg_r _ (n - k)) by lia|].
  rewrite <- (Z.mod_small b (2 ^ k)) by lia. rewrite Z.mod_pow2_bits_high by lia. apply andb_false_r.
Qed.

Definition join (a b : byte) : byte := byte_of_Z (byte_to_Z a * 16 + byte_to_Z b).

Lemma join_nibbles a b :
  nib a -> nib b -> byte_of_Z (Z.lor (Z.shiftl (byte_to_Z a) 4 mod 256) (byte_to_Z b)) = join a b.
Proof.
  unfold nib, join. intros Ha Hb. pose proof (byte_to_Z_range a). pose proof (byte_to_Z_range b).
  rewrite Z.mod_small by (rewrite Z.shiftl_mul_pow2 by lia; lia).
  by rewrite lor_shiftl_add by lia.
Qed.

Lemma split_join a b :
  nib a -> nib b ->
  [byte_of_Z (byte_to_Z (join a b) / 16); byte_of_Z (byte_to_Z (join a b) mod 16)] = [a; b].
Proof.
  unfold nib, join. intros Ha Hb. pose proof (byte_to_Z_range a). pose proof (byte_to_Z_range b).
  rewrite byte_to_of_Z, Z.mod_small by lia.
  rewrite Z.div_add_l, (Z.div_small (byte_to_Z b)) by lia.
  rewrite (Z.add_comm (_ * 16)), Z.mod_add, Z.mod_small, Z.add_0_r by lia. by rewrite !byte_of_to_Z.
Qed.

Lemma join_split b :
  join (byte_of_Z (byte_to_Z b / 16)) (byte_of_Z (byte_to_Z b mod 16)) = b.
Proof.
  unfold join. pose proof (byte_to_Z_range b). pose proof (Z.mod_pos_bound (byte_to_Z b) 16).
  rewrite !byte_to_of_Z. rewrite !(Z.mod_small _ 256) by (try split; try apply Z.div_pos; try apply Z.div_lt_upper_bound; lia).
  rewrite <- (byte_of_to_Z b) at 3. f_equal. pose proof (Z.div_mod (byte_to_Z b) 16). lia.
Qed.

(** Both directions of the nibble packing, for an even number of nibbles. *)
Lemma decodeNibbles_spec m ns :
  length ns = (2 * m)%nat -> Forall nib ns ->
  exists bs, decodeNibbles ns (zeros m) = Some bs /\ length bs = m /\
             keybytesToHex bs = ns ++ [terminator].
Proof.
  revert ns. induction m as [|m IH]; intros ns Hl Hn.
  - destruct ns; [|done]. by exists [].
  - destruct ns as [|a [|b ns]]; cbn in Hl; try lia.
    apply Forall_cons in Hn as [Ha [Hb Hn]%Forall_cons].
    destruct (IH ns) as (bs & E & Hb' & Hk); [lia|done|]. exists (join a b :: bs).
    cbn [decodeNibbles zeros replicate]. unfold zeros in E. rewrite E, join_nibbles by done.
    split_and!; [done|cbn; lia|]. unfold keybytesToHex in *. cbn [map concat].
    by rewrite <- app_assoc, Hk, split_join.
Qed.

Lemma keybytesToHex_vkey bs : vkey (keybytesToHex bs).
Proof.
  apply vkey_snoc. eexists. split; [|done]. apply Forall_concat, Forall_map, Forall_true. intros b.
  pose proof (byte_to_Z_range b). pose proof (Z.mod_pos_bound (byte_to_Z b) 16).
  repeat constructor; apply nib_of_Z; [|lia]. split; [apply Z.div_pos|apply Z.div_lt_upper_bound]; lia.
Qed.

Lemma keybytesToHex_length bs : length (keybytesToHex bs) = (2 * length bs + 1)%nat.
Proof.
  unfold keybytesToHex. rewrite length_app. cbn [length].
  induction bs as [|b bs IH]; cbn in *; lia.
Qed.

Lemma keybytesToHex_inj a b : keybytesToHex a = keybytesToHex b -> a = b.
Proof.
  unfold keybytesToHex. intros [E _]%app_inj_tail. revert b E.
  induction a as [|x a IH]; intros [|y b] E; try done. cbn in E. injection E as E1 E2 E3.
  f_equal; [|by apply IH]. rewrite <- (join_split x), <- (join_split y). congruence.
Qed.

(** The parts of a compact key: the flag byte and the packed nibbles. *)
Lemma flag_byte (term odd : bool) (h : byte) :
  nib h ->
  let f := (if term then 2 else 0) + (if odd then 1 else 0) in
  let b0 := byte_of_Z (if odd then Z.lor (Z.lor (Z.shiftl (if term then 1 else 0) 5) (Z.shiftl 1 4)) (byte_to_Z h)
                       else Z.shiftl (if term then 1 else 0) 5) in
  byte_to_Z b0 / 16 = f /\ (odd = true -> byte_of_Z (byte_to_Z b0 mod 16) = h).
Proof.
  intros Hh. unfold nib in Hh. pose proof (byte_to_Z_range h).
  assert (forall a, 0 <= a < 16 -> Z.lor (Z.shiftl a 4) (byte_to_Z h) = a * 16 + byte_to_Z h) as L
    by (intros; by rewrite lor_shiftl_add by lia).
  destruct term, odd; cbv beta iota zeta.
  - change (Z.lor (Z.shiftl 1 5) (Z.shiftl 1 4)) with (Z.shiftl 3 4). rewrite L, byte_to_of_Z, Z.mod_small by lia. split.
    + rewrite Z.div_add_l, Z.div_small by lia. lia.
    + intros _. rewrite (Z.add_comm (_ * 16)), Z.mod_add, Z.mod_small by lia. apply byte_of_to_Z.
  - by split.
  - change (Z.lor (Z.shiftl 0 5) (Z.shiftl 1 4)) with (Z.shiftl 1 4). rewrite L, byte_to_of_Z, Z.mod_small by lia. split.
    + rewrite Z.div_add_l, Z.div_small by lia. lia.
    + intros _. rewrite (Z.add_comm (_ * 16)), Z.mod_add, Z.mod_small by lia. apply byte_of_to_Z.
  - by split.
Qed.

Lemma land_1_odd n : (Z.land (Z.of_nat n) 1 =? 1) = Nat.odd n.
Proof.
  change (Z.land (Z.of_nat n) 1) with (Z.land (Z.of_nat n) (Z.ones 1)). rewrite Z.land_ones by lia.
  change (2 ^ 1) with 2. destruct (Nat.Even_or_Odd n) as [E|E].
  - pose proof E as [m ->]. apply Nat.even_spec in E. rewrite <- Nat.negb_even, E.
    apply Z.eqb_neq. rewrite <- (Z.mod_unique _ _ (Z.of_nat m) 0); lia.
  - pose proof E as [m ->]. apply Nat.odd_spec in E. rewrite E.
    apply Z.eqb_eq. symmetry. apply (Z.mod_unique _ _ (Z.of_nat m)); lia.
Qed.

(** The halves of a list of nibbles as [hexToCompact] cuts it. *)
Lemma compact_parts ns :
  Forall nib ns ->
  exists h rest bs m,
    nib h /\ ns = (if Nat.odd (length ns) then h :: rest else rest) /\ length rest = (2 * m)%nat /\
    (length ns / 2 = m)%nat /\ length bs = m /\
    decodeNibbles rest (zeros m) = Some bs /\ keybytesToHex bs = rest ++ [terminator].
Proof.
  intros Hn. destruct (Nat.odd (length ns)) eqn:Ho.
  - apply Nat.odd_spec in Ho as [m Hm]. destruct ns as [|h rest]; [cbn in Hm; lia|].
    apply Forall_cons in Hn as [Hh Hr]. cbn in Hm.
    destruct (decodeNibbles_spec m rest) as (bs & E & Hl & Hk); [lia|done|].
    exists h, rest, bs, m. split_and!; try done; [lia|]. cbn [length].
    symmetry. apply (Nat.div_unique _ _ _ 1); lia.
  - rewrite <- Nat.negb_even in Ho. apply negb_false_iff, Nat.even_spec in Ho as [m Hm].
    destruct (decodeNibbles_spec m ns) as (bs & E & Hl & Hk); [lia|done|].
    exists Byte.x00, ns, bs, m. split_and!; try done.
    symmetry. apply (Nat.div_unique _ _ _ 0); lia.
Qed.

Lemma hexToCompact_parts (term : bool) ns :
  Forall nib ns ->
  let k := ns ++ (if term then [terminator] else []) in
  exists c, hexToCompact k = Some c /\ compactToHex c = Some k /\ zlen c <= zlen k + 1.
Proof.
  intros Hn k. destruct (compact_parts ns Hn) as (h & rest & bs & m & Hh & Hns & Hr & Hm & Hb & Hd & Hk).
  set (odd := Nat.odd (length ns)) in *.
  set (b0 := byte_of_Z (if odd then Z.lor (Z.lor (Z.shiftl (if term then 1 else 0) 5) (Z.shiftl 1 4)) (byte_to_Z h)
                        else Z.shiftl (if term then 1 else 0) 5)).
  destruct (flag_byte term odd h Hh) as [Hf Hlow]. fold b0 in Hf, Hlow. exists (b0 :: bs). split_and!.
  - unfold hexToCompact.
    assert ((if hasTerm k then (1, take (length k - 1) k) else (0, k)) = (if term then 1 else 0, ns)) as ->.
    { subst k. destruct term; [|by rewrite app_nil_r, hasTerm_nibs].
      rewrite hasTerm_vkey by (apply vkey_snoc; eauto). f_equal. rewrite length_app. cbn [length].
      by rewrite Nat.add_sub, take_app_length. }
    unfold zlen. rewrite land_1_odd, Hm. fold odd. replace (m + 1)%nat with (S m) by lia.
    cbn [zeros replicate drop]. fold (zeros m). subst b0. rewrite Hns.
    destruct odd; rewrite drop_0; by rewrite Hd.
  - unfold compactToHex.
    assert (keybytesToHex (b0 :: bs)
            = byte_of_Z (byte_to_Z b0 / 16) :: byte_of_Z (byte_to_Z b0 mod 16) :: rest ++ [terminator]) as ->.
    { unfold keybytesToHex in *. cbn [map concat]. by rewrite <- Hk. }
    rewrite Hf. set (lo := byte_of_Z (_ mod 16)) in *.
    assert (forall a : byte, take (length (a :: lo :: rest ++ [terminator]) - 1) (a :: lo :: rest ++ [terminator])
            = a :: lo :: rest) as ->.
    { intros a. cbn [length]. rewrite length_app. cbn [length]. rewrite Nat.add_1_r. cbn [Nat.sub take].
      f_equal. f_equal. by rewrite take_app_length. }
    subst k. rewrite Hns. destruct term, odd; cbn; rewrite ?Hlow, ?app_nil_r by done; done.
  - subst k. rewrite zlen_cons, zlen_app. unfold zlen in *. pose proof (Nat.div_le_mono (length ns) (length ns) 2).
    assert (length ns / 2 <= length ns)%nat by (apply Nat.div_le_upper_bound; lia). lia.
Qed.

Lemma compact_roundtrip k :
  vkey k \/ Forall nib k ->
  exists c, hexToCompact k = Some c /\ compactToHex c = Some k /\ zlen c <= zlen k + 1.
Proof.
  intros [(p & Hp & ->)%vkey_snoc|Hk]; [by apply (hexToCompact_parts true)|].
  destruct (hexToCompact_parts false k Hk) as (c & H). rewrite app_nil_r in H. eauto.
Qed.

Lemma hexToKeybytes_inv bs : hexToKeybytes (keybytesToHex bs) = Some bs.
Proof.
  pose proof (keybytesToHex_vkey bs) as Hv. unfold hexToKeybytes. rewrite hasTerm_vkey by done.
  rewrite keybytesToHex_length, Nat.add_sub.
  assert (exists ns, keybytesToHex bs = ns ++ [terminator] /\ length ns = (2 * length bs)%nat /\ Forall nib ns)
    as (ns & E & Hl & Hn).
  { pose proof (keybytesToHex_length bs) as Hl. apply vkey_snoc in Hv as (ns & Hn & E). exists ns.
    rewrite E, length_app in Hl. cbn in Hl. split_and!; [done|lia|done]. }
  rewrite E, <- Hl, take_app_length.
  assert (Z.land (zlen ns) 1 =? 0 = true) as ->.
  { unfold zlen. rewrite Hl. rewrite (Z.land_ones _ 1) by lia. apply Z.eqb_eq.
    symmetry. apply (Z.mod_unique _ _ (Z.of_nat (length bs))); lia. }
  cbn [negb]. replace ((length ns + 1) / 2)%nat with (length bs) by (apply (Nat.div_unique _ _ _ 1); lia).
  destruct (decodeNibbles_spec (length bs) ns Hl Hn) as (bs' & -> & _ & E').
  f_equal. apply keybytesToHex_inj. congruence.
Qed.

(** ** Trees *)

#[warnings="-register-all"]
Inductive tree :=
| TNil
| TVal (v : list byte)
| TShort (k : list byte) (c : tree)
| TFull (cs : list tree).

Lemma tree_ind' (P : tree -> Prop) :
  P TNil -> (forall v, P (TVal v)) -> (forall k c, P c -> P (TShort k c)) ->
  (forall cs, Forall P cs -> P (TFull cs)) -> forall t, P t.
Proof.
  intros Hn Hv Hs Hf. fix IH 1. intros [|v|k c|cs]; [done|apply Hv|apply Hs, IH|].
  apply Hf. induction cs as [|c cs IHcs]; constructor; [apply IH|exact IHcs].
Qed.

(** What is left of [key] after the prefix [k]. *)
Fixpoint strip (k key : list byte) : option (list byte) :=
  match k, key with
  | [], _ => Some key
  | b :: k', b' :: key' => if bool_decide (b = b') then strip k' key' else None
  | _ :: _, [] => None
  end.

Fixpoint tget (t : tree) (key : list byte) : option (list byte) :=
  match t with
  | TNil => None
  | TVal v => Some v
  | TShort k c => match strip k key with Some r => tget c r | None => None end
  | TFull cs =>
      match key with
      | [] => None
      | b :: key' =>
          (fix go cs i :=
             match cs, i with
             | [], _ => None
             | c :: _, O => tget c key'
             | _ :: cs', S i' => go cs' i'
             end) cs (nidx b)
      end
  end.

Lemma strip_Some k key r : strip k key = Some r <-> key = k ++ r.
Proof.
  revert key. induction k as [|b k IH]; intros [|b' key]; cbn; try (split; [by intros [= ->]|by intros ->]); try done.
  case_bool_decide; [subst|].
  - rewrite IH. split; [by intros ->|by intros [= ->]].
  - split; [done|]. intros [= -> ->]. done.
Qed.
Lemma strip_app k r : strip k (k ++ r) = Some r.
Proof. by apply strip_Some. Qed.

Lemma tget_full cs b key :
  tget (TFull cs) (b :: key) = match cs !! nidx b with Some c => tget c key | None => None end.
Proof.
  cbn. generalize (nidx b). induction cs as [|c cs IH]; intros [|i]; cbn; try done.
Qed.
Lemma tget_short k c key r : strip k key = Some r -> tget (TShort k c) key = tget c r.
Proof. cbn. by intros ->. Qed.
Lemma tget_short_ne k c key : strip k key = None -> tget (TShort k c) key = None.
Proof. cbn. by intros ->. Qed.

(** ** Canonical trees *)

(** What a slot holds: the value slot and what follows a leaf's key hold a value, every other
    slot a canonical tree. *)
Definition is_val (t : tree) : Prop := exists v, v <> [] /\ t = TVal v.

Inductive can : tree -> Prop :=
| can_leaf k v : vkey k -> v <> [] -> can (TShort k (TVal v))
| can_ext k cs : k <> [] -> Forall nib k -> can (TFull cs) -> can (TShort k (TFull cs))
| can_full cs :
    length cs = 17%nat ->
    (forall i c, cs !! i = Some c -> c <> TNil -> i <> 16%nat -> can c) ->
    (forall c, cs !! 16%nat = Some c -> c <> TNil -> is_val c) ->
    (exists i j c d, i <> j /\ cs !! i = Some c /\ cs !! j = Some d /\ c <> TNil /\ d <> TNil) ->
    can (TFull cs).

(** [e]: the key is used up, a value is expected. *)
Definition wf (e : bool) (t : tree) : Prop := t = TNil \/ (if e then is_val t else can t).
Definition kok (e : bool) (key : list byte) : Prop := if e then key = [] else vkey key.
Definition is_term (b : byte) : bool := bool_decide (b = terminator).

Lemma TNil_dec (t : tree) : {t = TNil} + {t <> TNil}.
Proof. destruct t; [by left|by right..]. Qed.

Lemma kok_cons b key : vkey (b :: key) -> (nidx b < 17)%nat /\ kok (is_term b) key.
Proof.
  unfold is_term. intros [[-> ->]|[Hb Hk]]; [split; [vm_compute; lia|done]|].
  rewrite bool_decide_eq_false_2 by by apply nib_term. apply nidx_nib in Hb. split; [lia|done].
Qed.
Lemma kok_cons_inv b key : (nidx b < 17)%nat -> kok (is_term b) key -> vkey (b :: key).
Proof.
  unfold is_term, kok. case_bool_decide as E; [intros _ ->; by left|]. intros Hb Hk. right. split; [|done].
  apply nidx_nib. destruct (decide (nidx b = 16%nat)) as [E'|]; [|lia].
  by apply (nidx_inj b terminator) in E'.
Qed.
Lemma nidx_term b : nidx b = 16%nat <-> b = terminator.
Proof. split; [apply (nidx_inj b terminator)|by intros ->]. Qed.

Lemma can_full_slot cs b c : can (TFull cs) -> cs !! nidx b = Some c -> wf (is_term b) c.
Proof.
  inversion 1 as [| |? Hl Hc Hv _]; subst. intros E. destruct (TNil_dec c) as [->|Hne]; [by left|].
  right. unfold is_term. case_bool_decide as Eb; [subst b; eauto|].
  eapply Hc; eauto. by rewrite nidx_term.
Qed.
Lemma can_full_lookup cs b key :
  can (TFull cs) -> vkey (b :: key) ->
  exists c, cs !! nidx b = Some c /\ wf (is_term b) c /\ kok (is_term b) key.
Proof.
  intros Hc [Hb Hk]%kok_cons. assert (length cs = 17%nat) as Hl by by inversion Hc.
  destruct (lookup_lt_is_Some_2 cs (nidx b)) as [c E]; [lia|]. exists c. eauto using can_full_slot.
Qed.

Definition byte_idx (i : nat) : byte := byte_of_Z (Z.of_nat i).
Lemma nidx_byte i : (i < 17)%nat -> nidx (byte_idx i) = i.
Proof. intros. unfold nidx, byte_idx. rewrite byte_to_of_Z, Z.mod_small; lia. Qed.
Lemma byte_nidx b : byte_idx (nidx b) = b.
Proof.
  unfold nidx, byte_idx. pose proof (byte_to_Z_range b). rewrite Z2Nat.id by lia. apply byte_of_to_Z.
Qed.

(** A canonical tree is not empty, and a full one has two keys that differ in their first
    nibble. *)
Definition has (t : tree) (key : list byte) : Prop := is_Some (tget t key).

Lemma full_has cs i c :
  (forall i c, cs !! i = Some c -> c <> TNil -> i <> 16%nat -> exists key, vkey key /\ has c key) ->
  (forall c, cs !! 16%nat = Some c -> c <> TNil -> is_val c) -> length cs = 17%nat ->
  cs !! i = Some c -> c <> TNil -> exists key, vkey (byte_idx i :: key) /\ has (TFull cs) (byte_idx i :: key).
Proof.
  intros Hc Hv Hl E Hne. assert (i < 17)%nat by (apply lookup_lt_Some in E; lia).
  unfold has. setoid_rewrite tget_full. rewrite nidx_byte, E by lia. destruct (decide (i = 16%nat)) as [->|Hi].
  - destruct (Hv c E Hne) as (v & _ & ->). exists []. split; [by left|by eexists].
  - destruct (Hc i c E Hne Hi) as (key & Hk & Hh). exists key. split; [|done]. right. split; [|done].
    apply nidx_nib. rewrite nidx_byte; lia.
Qed.

Lemma can_has t : can t -> exists key, vkey key /\ has t key.
Proof.
  induction 1 as [k v Hk Hv|k cs Hne Hk Hf (key & Hkey & Hh)|cs Hl Hc IH Hv (i & j & c & d & _ & E & _ & Hn & _)].
  - exists k. split; [done|]. unfold has. cbn. rewrite <- (app_nil_r k) at 2. rewrite strip_app. by eexists.
  - exists (k ++ key). rewrite vkey_app_nibs by done. split; [done|]. unfold has. cbn [tget]. by rewrite strip_app.
  - destruct (full_has cs i c IH Hv Hl E Hn) as (key & H). eauto.
Qed.

Lemma can_full_two cs :
  can (TFull cs) -> exists b1 r1 b2 r2, b1 <> b2 /\ vkey (b1 :: r1) /\ vkey (b2 :: r2) /\
                     has (TFull cs) (b1 :: r1) /\ has (TFull cs) (b2 :: r2).
Proof.
  inversion 1 as [| |? Hl Hc Hv (i & j & c & d & Hij & E & E' & Hn & Hn')]; subst.
  assert (forall i c, cs !! i = Some c -> c <> TNil -> i <> 16%nat -> exists key, vkey key /\ has c key) as IH
    by (intros; apply can_has; eauto).
  destruct (full_has cs i c IH Hv Hl E Hn) as (k1 & V1 & H1).
  destruct (full_has cs j d IH Hv Hl E' Hn') as (k2 & V2 & H2).
  exists (byte_idx i), k1, (byte_idx j), k2. split_and!; try done.
  intros Eb. apply (f_equal nidx) in Eb. apply lookup_lt_Some in E, E'. rewrite !nidx_byte in Eb; lia.
Qed.

(** ** Canonical trees with the same content are equal *)

(** Two keys that part right after [k]. *)
Definition forks (t : tree) (k : list byte) : Prop :=
  exists b1 r1 b2 r2, b1 <> b2 /\ vkey (k ++ b1 :: r1) /\ vkey (k ++ b2 :: r2) /\
                      has t (k ++ b1 :: r1) /\ has t (k ++ b2 :: r2).

Lemma full_forks cs : can (TFull cs) -> forks (TFull cs) [].
Proof. apply can_full_two. Qed.
Lemma ext_forks k cs : Forall nib k -> can (TFull cs) -> forks (TShort k (TFull cs)) k.
Proof.
  intros Hk (b1 & r1 & b2 & r2 & Hb & V1 & V2 & H1 & H2)%can_full_two. exists b1, r1, b2, r2.
  unfold has in *. rewrite !vkey_app_nibs by done. cbn [tget]. rewrite !strip_app. done.
Qed.

Lemma short_has k c key : has (TShort k c) key -> exists r, key = k ++ r /\ has c r.
Proof.
  unfold has. cbn. destruct (strip k key) as [r|] eqn:E; [|by intros [? ?]]. apply strip_Some in E. eauto.
Qed.

Lemma fork_prefix (k k' : list byte) b1 r1 b2 r2 s1 s2 :
  b1 <> b2 -> k ++ b1 :: r1 = k' ++ s1 -> k ++ b2 :: r2 = k' ++ s2 -> exists m, k = k' ++ m.
Proof.
  intros Hb. revert k. induction k' as [|x k' IH]; intros [|y k] E1 E2; cbn in *; eauto.
  - congruence.
  - injection E1 as -> E1. injection E2 as E2. destruct (IH k E1 E2) as [m ->]. eauto.
Qed.

Definition same (t1 t2 : tree) : Prop := forall key, vkey key -> tget t1 key = tget t2 key.
Lemma same_sym t1 t2 : same t1 t2 -> same t2 t1.
Proof. intros H key Hk. by rewrite H. Qed.

Lemma forks_short t k k' c : forks t k -> same t (TShort k' c) -> exists m, k = k' ++ m.
Proof.
  intros (b1 & r1 & b2 & r2 & Hb & V1 & V2 & H1 & H2) HS. unfold has in H1, H2.
  rewrite HS in H1, H2 by done. apply short_has in H1 as (s1 & E1 & _), H2 as (s2 & E2 & _).
  eauto using fork_prefix.
Qed.
Lemma forks_leaf t k k' v : forks t k -> Forall nib k -> vkey k' -> ~ same t (TShort k' (TVal v)).
Proof.
  intros Hf Hk Hk' HS. destruct (forks_short _ _ _ _ Hf HS) as [m ->].
  apply Forall_app in Hk as [Hk _]. by apply hasTerm_nibs in Hk; rewrite hasTerm_vkey in Hk.
Qed.
Lemma forks_full_short cs k' c : can (TFull cs) -> k' <> [] -> ~ same (TFull cs) (TShort k' c).
Proof.
  intros Hf%full_forks Hne HS. destruct (forks_short _ _ _ _ Hf HS) as [m E].
  symmetry in E. by apply app_nil in E as [? _].
Qed.

Lemma same_leaf k v k' v' :
  vkey k -> vkey k' -> same (TShort k (TVal v)) (TShort k' (TVal v')) -> TShort k (TVal v) = TShort k' (TVal v').
Proof.
  intros Hk Hk' HS. pose proof (HS k Hk) as E. pose proof (strip_app k []) as Ek. rewrite app_nil_r in Ek.
  rewrite (tget_short k _ k [] Ek) in E. cbn in E.
  destruct (strip k' k) as [r|] eqn:E'; [|done]. apply strip_Some in E'. injection E as ->.
  rewrite E' in Hk. pose proof (vkey_prefix_free _ _ Hk' Hk) as ->. by rewrite app_nil_r in E'; subst.
Qed.

Lemma same_ext k cs k' cs' :
  Forall nib k -> Forall nib k' -> can (TFull cs) -> can (TFull cs') ->
  same (TShort k (TFull cs)) (TShort k' (TFull cs')) -> k = k' /\ same (TFull cs) (TFull cs').
Proof.
  intros Hk Hk' Hc Hc' HS.
  destruct (forks_short _ _ _ _ (ext_forks _ _ Hk Hc) HS) as [m E].
  destruct (forks_short _ _ _ _ (ext_forks _ _ Hk' Hc') (same_sym _ _ HS)) as [m' E'].
  assert (k = k') as <-.
  { rewrite E, <- app_assoc in E'. rewrite <- (app_nil_r k') in E' at 1. apply app_inv_head in E'.
    symmetry in E'. apply app_nil in E' as [-> _]. by rewrite app_nil_r in E. }
  split; [done|]. intros key Hkey. specialize (HS (k ++ key)).
  rewrite vkey_app_nibs in HS by done. specialize (HS Hkey).
  by rewrite !(tget_short k _ _ key (strip_app _ _)) in HS.
Qed.

Lemma same_slot e t1 t2 :
  wf e t1 -> wf e t2 -> (forall key, kok e key -> tget t1 key = tget t2 key) ->
  (can t1 -> can t2 -> same t1 t2 -> t1 = t2) -> t1 = t2.
Proof.
  assert (forall e t, wf e t -> t <> TNil -> exists key, kok e key /\ has t key) as Hhas.
  { intros [] t [->|Ht] Hne; try done; [|by apply can_has]. destruct Ht as (v & _ & ->).
    exists []. split; [done|by eexists]. }
  intros W1 W2 HS IH. destruct (TNil_dec t1) as [->|N1], (TNil_dec t2) as [->|N2]; [done| | |].
  - destruct (Hhas _ _ W2 N2) as (key & Hk & [v E]). by rewrite <- HS in E.
  - destruct (Hhas _ _ W1 N1) as (key & Hk & [v E]). by rewrite HS in E.
  - destruct W1 as [|W1], W2 as [|W2]; try done. destruct e; [|by apply IH].
    destruct W1 as (v1 & _ & ->), W2 as (v2 & _ & ->). by injection (HS [] eq_refl) as ->.
Qed.

Lemma can_unique t1 t2 : can t1 -> can t2 -> same t1 t2 -> t1 = t2.
Proof.
  intros H1. revert t2. induction H1 as [k v Hk Hv|k cs Hne Hk Hf IH|cs Hl Hc IH Hv H2]; intros t2 Ht2 HS.
  - inversion Ht2 as [k' v' Hk' Hv'|k' cs' Hne' Hk' Hf'|cs' Hl' Hc' Hv' H2']; subst.
    + by apply same_leaf.
    + destruct (forks_leaf _ _ k v (ext_forks _ _ Hk' Hf') Hk' Hk (same_sym _ _ HS)).
    + destruct (forks_leaf _ _ k v (full_forks _ Ht2) (Forall_nil_2 _) Hk (same_sym _ _ HS)).
  - inversion Ht2 as [k' v' Hk' Hv'|k' cs' Hne' Hk' Hf'|cs' Hl' Hc' Hv' H2']; subst.
    + destruct (forks_leaf _ _ _ _ (ext_forks _ _ Hk Hf) Hk Hk' HS).
    + destruct (same_ext _ _ _ _ Hk Hk' Hf Hf' HS) as [-> HS']. by rewrite (IH _ Hf' HS').
    + destruct (forks_full_short _ _ _ Ht2 Hne (same_sym _ _ HS)).
  - assert (can (TFull cs)) as Hf by by constructor.
    inversion Ht2 as [k' v' Hk' Hv'|k' cs' Hne' Hk' Hf'|cs' Hl' Hc' Hv' H2']; subst.
    + destruct (forks_full_short _ _ _ Hf (vkey_nonempty _ Hk') HS).
    + destruct (forks_full_short _ _ _ Hf Hne' HS).
    + f_equal. apply list_eq_same_length with (n := 17%nat); [done|done|]. intros i c c' Hi E E'.
      rewrite <- (nidx_byte i) in E, E' by lia.
      apply (same_slot (is_term (byte_idx i))); eauto using can_full_slot.
      * intros key Hk. specialize (HS (byte_idx i :: key)). rewrite !tget_full, E, E' in HS.
        apply HS, kok_cons_inv; [rewrite nidx_byte; lia|done].
      * intros Hcc Hcc' HS'. rewrite nidx_byte in E by lia. apply (IH i c E); try done.
        -- intros ->. inversion Hcc.
        -- intros ->. destruct (TNil_dec c) as [->|Hn]; [inversion Hcc|].
           destruct (Hv c E Hn) as (v & _ & ->). inversion Hcc.
Qed.
