(* ===== verification/TrieCodec.v ===== *)
(** * What is stored for a trie

    The encoding of a tree ([enc]), the encodings of its nodes that are kept in the database
    ([encs]), and the relation [rep] between nodes in memory and the tree they stand for in
    a database: hash nodes are found there, cached hashes are right, and what is not dirty is
    stored.  Decoding the stored encoding of a node gives a node that stands for the same
    tree, and trees stored in one database under the same hash are equal. *)

From S2P Require Import Prelude GoMath World Rlp RlpProofs RlpRaw Trie TrieFacts.
Import Rlp RlpRaw Trie.

Section codec.
Context `{CryptoPrims}.

Definition compact (k : list byte) : list byte := default [] (hexToCompact k).

Definition is_node (t : tree) : bool := match t with TNil | TVal _ => false | _ => true end.

(** How a parent refers to a child that is encoded as [i]. *)
Definition ref_of (c : tree) (i : item) : item :=
  if is_node c && (32 <=? zlen (rlp i)) then Str (Keccak256 (rlp i)) else i.

Fixpoint titem (t : tree) : item :=
  match t with
  | TNil => Str []
  | TVal v => Str v
  | TShort k c => Lst [Str (compact k); ref_of c (titem c)]
  | TFull cs => Lst (map (fun c => ref_of c (titem c)) cs)
  end.
Definition tref (c : tree) : item := ref_of c (titem c).
Definition enc (t : tree) : list byte := rlp (titem t).

(** A node has a database entry when it is large, or the root. *)
Definition big (t : tree) : bool := 32 <=? zlen (enc t).
Fixpoint encs (r : bool) (t : tree) : list (list byte) :=
  match t with
  | TNil | TVal _ => []
  | TShort _ c => (if r || big t then [enc t] else []) ++ encs false c
  | TFull cs => (if r || big t then [enc t] else []) ++ concat (map (encs false) cs)
  end.

Definition stored (db : database) (r : bool) (t : tree) : Prop :=
  Forall (fun e => db !! Keccak256 e = Some e /\ zlen e < 2 ^ 64) (encs r t).

Definition hash_ok (r : bool) (t : tree) (h : option (list byte)) : Prop :=
  forall x, h = Some x -> x = Keccak256 (enc t) /\ r || big t = true.
Definition flag_ok (db : database) (r : bool) (t : tree) (fl : nodeFlag) : Prop :=
  hash_ok r t (f_hash fl) /\ (f_dirty fl = false -> stored db r t).

#[warnings="-register-all"]
Inductive rep (db : database) : bool -> node -> tree -> Prop :=
| rep_nil r : rep db r NilN TNil
| rep_val r v : rep db r (ValueN v) (TVal v)
| rep_short r k n t fl :
    rep db false n t -> flag_ok db r (TShort k t) fl -> rep db r (ShortN k n fl) (TShort k t)
| rep_full r cs ts fl :
    Forall2 (rep db false) cs ts -> flag_ok db r (TFull ts) fl -> rep db r (FullN cs fl) (TFull ts)
| rep_hash r t :
    is_node t = true -> r || big t = true -> stored db r t -> rep db r (HashN (Keccak256 (enc t))) t.

Definition loaded (n : node) : Prop := match n with HashN _ => False | _ => True end.
#[export] Instance loaded_dec n : Decision (loaded n).
Proof. destruct n; cbn; apply _. Defined.

Lemma rep_hash_inv db r h t :
  rep db r (HashN h) t -> h = Keccak256 (enc t) /\ is_node t = true /\ r || big t = true /\ stored db r t.
Proof. by inversion 1; subst. Qed.

Lemma rep_TNil db r n : rep db r n TNil <-> n = NilN.
Proof. split; [by inversion 1|intros ->; constructor]. Qed.
Lemma rep_NilN db r t : rep db r NilN t <-> t = TNil.
Proof. split; [by inversion 1|intros ->; constructor]. Qed.
Lemma rep_TVal db r n v : rep db r n (TVal v) <-> n = ValueN v.
Proof. split; [by inversion 1|intros ->; constructor]. Qed.
Lemma rep_ValueN db r t v : rep db r (ValueN v) t <-> t = TVal v.
Proof. split; [by inversion 1|intros ->; constructor]. Qed.

(** ** Storage of the parts of a tree *)

Lemma encs_short r k c :
  encs r (TShort k c) = (if r || big (TShort k c) then [enc (TShort k c)] else []) ++ encs false c.
Proof. done. Qed.
Lemma encs_full r cs :
  encs r (TFull cs) = (if r || big (TFull cs) then [enc (TFull cs)] else []) ++ concat (map (encs false) cs).
Proof. done. Qed.

Lemma stored_short db r k c : stored db r (TShort k c) -> stored db false c.
Proof. unfold stored. rewrite encs_short. by intros [_ ?]%Forall_app. Qed.
Lemma stored_full db r cs : stored db r (TFull cs) -> Forall (stored db false) cs.
Proof.
  unfold stored. rewrite encs_full. intros [_ Hs]%Forall_app. by rewrite Forall_concat, Forall_map in Hs.
Qed.
Lemma stored_weaken db r t : stored db true t -> stored db r t.
Proof.
  destruct r; [done|]. unfold stored.
  destruct t; try done; [rewrite !encs_short|rewrite !encs_full]; rewrite !Forall_app; intros [Hs ?];
    (split; [|done]); cbn [orb] in *; by destruct (big _).
Qed.
Lemma stored_self db r t :
  is_node t = true -> r || big t = true -> stored db r t ->
  db !! Keccak256 (enc t) = Some (enc t) /\ zlen (enc t) < 2 ^ 64.
Proof.
  unfold stored. destruct t; try done; intros _ E; [rewrite encs_short|rewrite encs_full];
    rewrite E; by intros [[? _]%Forall_cons _]%Forall_app.
Qed.

Lemma can_node t : can t -> is_node t = true.
Proof. by destruct 1. Qed.

Lemma zlen_keccak e : zlen (Keccak256 e) = 32.
Proof. unfold zlen, Keccak256. by rewrite length_be_bytes. Qed.

Lemma compact_ok k :
  vkey k \/ Forall nib k -> hexToCompact k = Some (compact k) /\ compactToHex (compact k) = Some k.
Proof. intros (c & E & Hc & _)%compact_roundtrip. unfold compact. by rewrite E. Qed.

Lemma titem_not_raw t : not_raw (titem t).
Proof. by destruct t. Qed.
Lemma tref_not_raw t : not_raw (tref t).
Proof. unfold tref, ref_of. destruct (_ && _); [done|apply titem_not_raw]. Qed.
#[local] Hint Resolve titem_not_raw tref_not_raw : core.

Lemma Split_Lst xs rest :
  zlen (rlp (Lst xs) ++ rest) < 2 ^ 64 -> SplitList (rlp (Lst xs) ++ rest) = Ok (concat (map rlp xs), rest).
Proof. intros Hl. unfold SplitList. by rewrite Split_item. Qed.
Lemma Split_Str b rest :
  zlen (rlp (Str b) ++ rest) < 2 ^ 64 -> SplitString (rlp (Str b) ++ rest) = Ok (b, rest).
Proof.
  intros Hl. unfold SplitString. rewrite Split_item by done.
  destruct b as [|x [|y b]]; cbn; try done. by destruct (_ <=? _).
Qed.

Lemma kind_of_len b : (length b <> 1)%nat -> kind_of (Str b) = KString.
Proof. by destruct b as [|x [|y b]]. Qed.

Lemma zlen_Lst xs : zlen (concat (map rlp xs)) < zlen (rlp (Lst xs)).
Proof.
  cbn [rlp]. rewrite zlen_app. set (n := zlen (concat _)).
  assert (0 < zlen (puthead 192 247 n)); [|lia].
  unfold puthead. destruct (n <? 56); [done|]. rewrite zlen_cons. pose proof (zlen_nonneg (putint n)). lia.
Qed.

(** ** Decoding *)

(** The node that decoding gives: large children are left as hashes, embedded ones are
    decoded with it. *)
Fixpoint shallow (hash : option (list byte)) (gen : Z) (t : tree) : node :=
  let sref c := if is_node c && big c then HashN (Keccak256 (enc c)) else shallow None gen c in
  match t with
  | TNil => NilN
  | TVal v => ValueN v
  | TShort k c => ShortN k (sref c) (mkFlag hash gen false)
  | TFull cs => FullN (map sref cs) (mkFlag hash gen false)
  end.
Definition sref (gen : Z) (c : tree) : node :=
  if is_node c && big c then HashN (Keccak256 (enc c)) else shallow None gen c.

(** The decoder of embedded nodes is right on [c]. *)
Definition decodes (dec : option (list byte) -> list byte -> Z -> res node) (c : tree) : Prop :=
  forall gen hash rest, zlen (enc c ++ rest) < 2 ^ 64 -> dec hash (enc c ++ rest) gen = Done (shallow hash gen c).

Lemma decodeRef_ok dec c gen rest :
  wf false c -> zlen (rlp (tref c) ++ rest) < 2 ^ 64 -> (can c -> big c = false -> decodes dec c) ->
  decodeRef dec (rlp (tref c) ++ rest) gen = Done (sref gen c, rest).
Proof.
  intros Hw Hl IH. unfold decodeRef. rewrite Split_item by done. cbn [of_rlp rbind].
  destruct Hw as [->|Hc]; [done|]. pose proof (can_node _ Hc) as Hn. unfold sref, tref, ref_of in *. rewrite Hn in *.
  cbn [andb] in *. fold (enc c) in *. fold (big c) in *. destruct (big c) eqn:Hb.
  - rewrite kind_of_len by (unfold Keccak256; by rewrite length_be_bytes). cbn [content_of].
    by rewrite zlen_keccak.
  - assert (kind_of (titem c) = KList) as -> by by destruct c.
    rewrite zlen_app. fold (enc c). unfold big in Hb. apply Z.leb_gt in Hb. rewrite Z.gtb_ltb.
    destruct (Z.ltb_spec hashLen (zlen (enc c) + zlen rest - zlen rest)); [unfold hashLen in *; lia|].
    by rewrite (IH Hc eq_refl gen None rest).
Qed.

Lemma decodeChildren_ok dec cs gen rest :
  Forall (fun c => wf false c /\ (can c -> big c = false -> decodes dec c)) cs ->
  zlen (concat (map rlp (map tref cs)) ++ rest) < 2 ^ 64 ->
  decodeChildren dec (length cs) (concat (map rlp (map tref cs)) ++ rest) gen = Done (map (sref gen) cs, rest).
Proof.
  induction 1 as [|c cs (Hw & IHc) _ IH]; intros Hl; [done|].
  cbn [map concat] in *. rewrite <- app_assoc in *. cbn [decodeChildren length].
  rewrite (decodeRef_ok dec c gen _ Hw Hl IHc). cbn [rbind]. rewrite IH; [done|].
  rewrite zlen_app in Hl. pose proof (zlen_nonneg (rlp (tref c))). lia.
Qed.

Lemma decodeShort_ok dec k c gen hash :
  can (TShort k c) -> zlen (enc (TShort k c)) < 2 ^ 64 -> (can c -> big c = false -> decodes dec c) ->
  decodeShort dec hash (concat (map rlp [Str (compact k); tref c])) gen = Done (shallow hash gen (TShort k c)).
Proof.
  intros Hc Hl IH. unfold decodeShort. cbn [map concat].
  assert (zlen (rlp (Str (compact k)) ++ rlp (tref c) ++ []) < 2 ^ 64) as Hl'
    by (pose proof (zlen_Lst [Str (compact k); tref c]); unfold enc in Hl; cbn [titem] in Hl;
        fold (tref c) in Hl; cbn [map concat] in *; lia).
  rewrite Split_Str by done. cbn [of_rlp rbind].
  assert (zlen (rlp (tref c) ++ []) < 2 ^ 64) as Hlc
    by (rewrite zlen_app in Hl'; pose proof (zlen_nonneg (rlp (Str (compact k)))); lia).
  inversion Hc as [k' v Hk Hv|k' cs Hne Hk Hf|]; subst.
  - destruct (compact_ok k) as [_ ->]; [by left|]. cbn [index rbind]. rewrite hasTerm_vkey by done.
    change (tref (TVal v)) with (Str v) in *. by rewrite Split_Str.
  - destruct (compact_ok k) as [_ ->]; [by right|]. cbn [index rbind]. rewrite hasTerm_nibs by done.
    by rewrite (decodeRef_ok dec (TFull cs) gen [] (or_intror Hf) Hlc IH).
Qed.

(** The children of a full node: sixteen references and the value slot. *)
Lemma full_split cs :
  can (TFull cs) ->
  exists l v, cs = l ++ [if decide (v = []) then TNil else TVal v] /\ length l = 16%nat /\ Forall (wf false) l.
Proof.
  intros Hc. inversion Hc as [| |? Hl Hs Hv _]; subst.
  destruct (lookup_lt_is_Some_2 cs 16) as [c E]; [lia|].
  exists (take 16 cs), (match c with TVal v => v | _ => [] end). split_and!.
  - rewrite <- (take_drop 16 cs) at 1. f_equal. rewrite (drop_S _ c) by done.
    rewrite drop_ge by lia. f_equal. destruct (TNil_dec c) as [->|Hn]; [by destruct (decide _)|].
    destruct (Hv c E Hn) as (v & Hne & ->). by destruct (decide _).
  - rewrite length_take. lia.
  - apply Forall_lookup. intros i d Hi. apply lookup_take_Some in Hi as [Ed Hi].
    destruct (TNil_dec d) as [->|Hn]; [by left|]. right. eapply Hs; eauto. lia.
Qed.

Lemma decodeFull_ok dec cs gen hash :
  can (TFull cs) -> zlen (enc (TFull cs)) < 2 ^ 64 -> Forall (fun c => can c -> big c = false -> decodes dec c) cs ->
  decodeFull dec hash (concat (map rlp (map tref cs))) gen = Done (shallow hash gen (TFull cs)).
Proof.
  intros Hc Hl IH.
  pose proof (zlen_Lst (map tref cs)) as Hl'. change (Lst (map tref cs)) with (titem (TFull cs)) in Hl'.
  fold (enc (TFull cs)) in Hl'. destruct (full_split cs Hc) as (l & v & E & Hlen & Hw). set (cv := if decide _ then _ else _) in E.
  unfold decodeFull. rewrite E, !map_app, concat_app in *. cbn [map concat] in *. rewrite app_nil_r in *.
  assert (tref cv = Str v) as Ev by (unfold cv; destruct (decide (v = [])); by subst).
  apply Forall_app in IH as [IHl _].
  rewrite <- Hlen, (decodeChildren_ok dec l gen (rlp (tref cv))); [|by apply Forall_and|lia].
  cbn [rbind]. rewrite Ev. rewrite <- (app_nil_r (rlp (Str v))).
  rewrite Split_Str by (rewrite app_nil_r, <- Ev; rewrite zlen_app in Hl'; pose proof (zlen_nonneg (concat (map rlp (map tref l)))); lia).
  cbn [of_rlp rbind shallow]. change (map _ (l ++ [cv])) with (map (sref gen) (l ++ [cv])). rewrite map_app. cbn [map].
  do 4 f_equal. rewrite Z.gtb_ltb. unfold cv. destruct (decide (v = [])) as [->|Hne]; [done|]. destruct v; [done|].
  rewrite zlen_cons. pose proof (zlen_nonneg v). by destruct (Z.ltb_spec 0 (zlen v + 1)); [|lia].
Qed.

Lemma rlp_Lst_cons xs rest : (zlen (rlp (Lst xs) ++ rest) =? 0) = false.
Proof.
  apply Z.eqb_neq. rewrite zlen_app. pose proof (zlen_Lst xs). pose proof (zlen_nonneg rest).
  pose proof (zlen_nonneg (concat (map rlp xs))). lia.
Qed.

Lemma CountValues_items xs :
  Forall not_raw xs -> zlen (concat (map rlp xs)) < 2 ^ 64 -> CountValues (concat (map rlp xs)) = Ok (zlen xs).
Proof. intros Hx Hl. unfold CountValues. by rewrite count_items. Qed.

(** A part of a list is smaller than the list. *)
Lemma zlen_elem x xs : In x xs -> zlen (rlp x) < zlen (rlp (Lst xs)).
Proof.
  intros Hin. eapply Z.le_lt_trans; [|apply zlen_Lst]. apply in_split in Hin as (l1 & l2 & ->).
  rewrite map_app, concat_app. cbn [map concat]. rewrite !zlen_app.
  pose proof (zlen_nonneg (concat (map rlp l1))). pose proof (zlen_nonneg (concat (map rlp l2))). lia.
Qed.
Lemma enc_part c xs : is_node c = true -> big c = false -> In (tref c) xs -> (length (enc c) < length (rlp (Lst xs)))%nat.
Proof.
  intros Hn Hb Hin%zlen_elem. assert (tref c = titem c) as E.
  { unfold tref, ref_of. rewrite Hn. change (32 <=? zlen (rlp (titem c))) with (big c). by rewrite Hb. }
  rewrite E in Hin. change (rlp (titem c)) with (enc c) in Hin. unfold zlen in Hin. lia.
Qed.

Lemma decode_fuel_ok fuel t :
  can t -> (length (enc t) < fuel)%nat -> decodes (decodeNode_fuel fuel) t.
Proof.
  revert t. induction fuel as [|fuel IH]; intros t Hc Hf; [lia|]. intros gen hash rest Hl.
  assert (zlen (enc t) < 2 ^ 64) as Hlt by (rewrite zlen_app in Hl; pose proof (zlen_nonneg rest); lia).
  assert (forall c xs, titem t = Lst xs -> In (tref c) xs -> can c -> big c = false ->
            decodes (decodeNode_fuel fuel) c) as IHc.
  { intros c xs E Hin Hcc Hb. apply IH; [done|]. pose proof (enc_part c xs (can_node _ Hcc) Hb Hin).
    unfold enc at 1 in Hf. rewrite E in Hf. lia. }
  assert (exists xs, titem t = Lst xs /\ Forall not_raw xs) as (xs & Ex & Hx).
  { destruct Hc; eexists; (split; [done|]); [by repeat constructor; apply tref_not_raw..|].
    apply Forall_map, Forall_true. intros. apply tref_not_raw. }
  cbn [decodeNode_fuel]. pose proof (zlen_Lst xs) as Hlx. assert (enc t = rlp (Lst xs)) as Ee by (unfold enc; by rewrite Ex).
  rewrite Ee in Hl, Hlt |- *. rewrite rlp_Lst_cons, Split_Lst by done. cbn [of_rlp rbind].
  rewrite CountValues_items by (done || lia).
  inversion Hc as [k v Hk Hv|k cs Hne Hk Hfu|cs Hlen ? ? ?]; subst; cbn [titem] in Ex; injection Ex as <-.
  - by apply decodeShort_ok; [..|inversion 1].
  - apply decodeShort_ok; try done. eapply IHc; [done|]. right. by left.
  - assert (zlen (map (fun c => ref_of c (titem c)) cs) = 17) as -> by (unfold zlen; by rewrite length_map, Hlen).
    apply (decodeFull_ok (decodeNode_fuel fuel) cs gen hash); try done.
    apply Forall_forall. intros c Hin. eapply IHc; [done|]. apply in_map_iff. exists c. split; [done|].
    by apply list_elem_of_In.
Qed.

Lemma decodeNode_ok t hash gen :
  can t -> zlen (enc t) < 2 ^ 64 -> decodeNode hash (enc t) gen = Done (shallow hash gen t).
Proof.
  intros Hc Hl. unfold decodeNode. rewrite <- (app_nil_r (enc t)) at 2.
  apply decode_fuel_ok; [done|lia|by rewrite app_nil_r].
Qed.

(** The decoded node stands for the tree where the tree is stored. *)
Lemma shallow_rep db t r hash gen :
  stored db r t -> hash_ok r t hash -> rep db r (shallow hash gen t) t.
Proof.
  assert (forall c, (forall r hash, stored db r c -> hash_ok r c hash -> rep db r (shallow hash gen c) c) ->
            stored db false c -> rep db false (sref gen c) c) as Hsref.
  { intros c IH Hs. unfold sref. destruct (is_node c && big c) eqn:E; [|by apply IH].
    apply andb_true_iff in E as [? ?]. by constructor. }
  revert r hash. induction t as [|v|k c IH|cs IH] using tree_ind'; intros r hash Hs Hh; cbn [shallow]; try constructor.
  - apply Hsref; [done|]. by eapply stored_short.
  - by split.
  - apply stored_full in Hs. clear Hh. induction IH as [|c cs Hc _ IHcs]; cbn; constructor; apply Forall_cons in Hs as [Hs1 Hs2].
    + by apply Hsref.
    + by apply IHcs.
  - by split.
Qed.
Lemma shallow_loaded hash gen t : loaded (shallow hash gen t).
Proof. by destruct t. Qed.

Lemma resolveHash_ok T db r t :
  t_db T = Some db -> can t -> r || big t = true -> stored db r t ->
  exists n, resolveHash T (Keccak256 (enc t)) = Done n /\ rep db r n t /\ loaded n.
Proof.
  intros E Hc Hb Hs. unfold resolveHash. rewrite E. cbn [index rbind].
  destruct (stored_self db r t (can_node _ Hc) Hb Hs) as [-> Hl].
  unfold mustDecodeNode. rewrite decodeNode_ok by done. eexists. split; [done|].
  split; [|apply shallow_loaded]. apply shallow_rep; [done|]. by intros ? [= <-].
Qed.

(** ** A node stands for one tree *)

(** [c] is the only tree for the nodes that stand for it. *)
Definition only (db : database) (c : tree) : Prop :=
  forall e r r' c' m, wf e c -> wf e c' -> rep db r m c -> rep db r' m c' -> c = c'.

Lemma full_only db r r' ns cs cs' :
  can (TFull cs) -> can (TFull cs') -> Forall (only db) cs ->
  Forall2 (rep db r) ns cs -> Forall2 (rep db r') ns cs' -> cs = cs'.
Proof.
  intros Hc Hc' IH R R'. assert (length cs = 17%nat /\ length cs' = 17%nat) as [Hl Hl']
    by (inversion Hc; inversion Hc'; done).
  apply list_eq_same_length with (n := 17%nat); [done|done|]. intros i c c' Hi E E'.
  rewrite <- (nidx_byte i) in E, E' by lia. rewrite Forall_lookup in IH.
  destruct (Forall2_lookup_r _ _ _ _ _ R E) as (m & Em & Rm).
  pose proof (Forall2_lookup_lr _ _ _ _ _ _ R' Em E') as Rm'.
  apply (IH _ _ E (is_term (byte_idx i)) r r' c' m); eauto using can_full_slot.
Qed.

Lemma short_only db r r' k m c c' :
  can (TShort k c) -> can (TShort k c') -> only db c -> rep db r m c -> rep db r' m c' -> c = c'.
Proof.
  intros Hc Hc' IH R R'.
  inversion Hc as [? v Hk Hv|? cs ? Hk ?|]; inversion Hc' as [? v' Hk' Hv'|? cs' ? Hk' ?|]; subst.
  - apply (IH true r r' _ m); try done; right; eexists; eauto.
  - apply rep_TVal in R as ->. by apply rep_ValueN in R'.
  - apply rep_TVal in R' as ->. by apply rep_ValueN in R.
  - apply (IH false r r' _ m); try done; by right.
Qed.

Lemma loaded_only db r r' n t t' :
  loaded n -> can t -> can t' -> rep db r n t -> rep db r' n t' ->
  match t with TShort _ c => only db c | TFull cs => Forall (only db) cs | _ => True end -> t = t'.
Proof.
  intros Hn Hc Hc' R R' IH. destruct n; try done; inversion R; subst; inversion R'; subst; try done.
  - f_equal. by eapply full_only.
  - f_equal. by eapply short_only.
Qed.

(** A hash node: both trees are stored under the hash, and decode to the same node. *)
Lemma hash_loaded db r r' h t t' :
  can t -> can t' -> rep db r (HashN h) t -> rep db r' (HashN h) t' ->
  exists n, loaded n /\ rep db r n t /\ rep db r' n t'.
Proof.
  intros Hc Hc' (-> & Hn & Hb & Hs)%rep_hash_inv (E & Hn' & Hb' & Hs')%rep_hash_inv.
  destruct (stored_self _ _ _ Hn Hb Hs) as [El Hl]. destruct (stored_self _ _ _ Hn' Hb' Hs') as [El' _].
  rewrite <- E, El in El'. injection El' as Ee.
  pose proof (decodeNode_ok t None 0 Hc Hl) as D. rewrite Ee in D, Hl. rewrite (decodeNode_ok t' None 0 Hc' Hl) in D.
  injection D as D. exists (shallow None 0 t). split; [apply shallow_loaded|].
  split; [by apply shallow_rep|]. rewrite <- D. by apply shallow_rep.
Qed.

Lemma rep_only db t : only db t.
Proof.
  assert (forall t, match t with TShort _ c => only db c | TFull cs => Forall (only db) cs | _ => True end -> only db t) as Hstep.
  { clear t. intros t IH e r r' t' m W W' R R'. destruct (TNil_dec t) as [->|Hne].
    { apply rep_TNil in R as ->. by apply rep_NilN in R' as ->. }
    destruct (TNil_dec t') as [->|Hne']; [apply rep_TNil in R' as ->; by apply rep_NilN in R as ->|].
    destruct W as [|W], W' as [|W']; try done. destruct e.
    { destruct W as (v & _ & ->), W' as (v' & _ & ->). apply rep_TVal in R as ->. by apply rep_ValueN in R'. }
    destruct (decide (loaded m)) as [Hm|Hm]; [by eapply loaded_only|].
    destruct m; try (by destruct Hm). destruct (hash_loaded _ _ _ _ _ _ W W' R R') as (n & Hn & Rn & Rn').
    by eapply loaded_only. }
  induction t as [|v|k c IH|cs IH] using tree_ind'; apply Hstep; done.
Qed.
End codec.
