(* ===== verification/TrieOps.v ===== *)
(** * The trie operations on trees

    [tryGet], [insert] and [delete] against the content of the tree that a node stands for:
    they return with the fuel [op_fuel] gives them, the result stands for a canonical tree
    and has the content that a map would have. *)

From S2P Require Import Prelude GoMath World Rlp Trie TrieFacts TrieCodec.
Import Trie.

Section ops.
Context `{CryptoPrims}.

(** The nodes a trie can read. *)
Definition rdb (T : Trie) : database := default ∅ (t_db T).

Lemma resolve_ok T r h t :
  rep (rdb T) r (HashN h) t -> can t ->
  exists n, resolveHash T h = Done n /\ rep (rdb T) r n t /\ loaded n.
Proof.
  intros (-> & Hn & Hb & Hs)%rep_hash_inv Hc. destruct (t_db T) as [db|] eqn:E.
  - assert (rdb T = db) as Er by (unfold rdb; by rewrite E). rewrite Er in *. by apply resolveHash_ok.
  - assert (rdb T = ∅) as Er by (unfold rdb; by rewrite E). rewrite Er in Hs.
    by destruct (stored_self _ _ _ Hn Hb Hs) as [? _].
Qed.

(** The calls an operation on [n] needs. *)
Definition cost (n : node) (key : list byte) : nat :=
  (2 * length key + if decide (loaded n) then 1 else 2)%nat.
Lemma cost_le n key : (2 * length key + 1 <= cost n key <= 2 * length key + 2)%nat.
Proof. unfold cost. destruct (decide _); lia. Qed.
Lemma cost_loaded n key : loaded n -> cost n key = (2 * length key + 1)%nat.
Proof. intros. unfold cost. by rewrite decide_True. Qed.
Lemma cost_hash h key : cost (HashN h) key = (2 * length key + 2)%nat.
Proof. done. Qed.

Lemma short_slot k c r :
  can (TShort k c) -> vkey (k ++ r) ->
  (0 < length k)%nat /\ exists e, wf e c /\ kok e r /\ c <> TNil /\ (e = true <-> vkey k) /\ (e = false <-> Forall nib k).
Proof.
  assert (forall k, vkey k -> Forall nib k -> False) as Hx.
  { intros k' Hv Hn. by apply hasTerm_nibs in Hn; rewrite hasTerm_vkey in Hn. }
  intros Hc Hk. inversion Hc as [? v Hv Hne|? cs Hne Hn Hf|]; subst.
  - split; [by destruct k; [|cbn; lia]|]. exists true. pose proof (vkey_prefix_free _ _ Hv Hk) as ->.
    split_and!; try done. right. by exists v. split; [done|]. intros ?. by destruct (Hx k).
  - split; [by destruct k; [|cbn; lia]|]. exists false. rewrite vkey_app_nibs in Hk by done.
    split_and!; try done. by right. split; [done|]. intros ?. by destruct (Hx k).
Qed.

Lemma strip_test k key :
  (length key <? length k)%nat || negb (bool_decide (k = take (length k) key))
  = match strip k key with Some _ => false | None => true end.
Proof.
  destruct (strip k key) as [r|] eqn:E.
  - apply strip_Some in E as ->. rewrite take_app_length, bool_decide_eq_true_2 by done.
    rewrite length_app, orb_false_r. apply Nat.ltb_ge. lia.
  - destruct (Nat.ltb_spec (length key) (length k)); [done|]. cbn. case_bool_decide as Ek; [|done].
    rewrite (proj2 (strip_Some k key (drop (length k) key))) in E; [done|].
    rewrite <- (take_drop (length k) key) at 1. by rewrite <- Ek.
Qed.
Lemma strip_drop k key r : strip k key = Some r -> r = drop (length k) key.
Proof. intros ->%strip_Some. by rewrite drop_app_length. Qed.

Lemma rep_set_child db cs ts b n c :
  Forall2 (rep db false) cs ts -> rep db false n c ->
  Forall2 (rep db false) (set_child cs b n) (<[nidx b := c]> ts).
Proof. intros. by apply Forall2_insert. Qed.

Lemma rep_child db cs ts b c :
  Forall2 (rep db false) cs ts -> ts !! nidx b = Some c ->
  exists n, child cs b = Done n /\ rep db false n c.
Proof.
  intros HF E. destruct (Forall2_lookup_r _ _ _ _ _ HF E) as (n & En & Hn). exists n.
  unfold child. fold (nidx b). by rewrite En.
Qed.

Lemma wf_can e t : wf e t -> is_node t = true -> e = false /\ can t.
Proof.
  intros [->|W]; [done|]. destruct e; [by destruct W as (v & _ & ->)|done].
Qed.

(** ** Lookup *)

Lemma tryGet_ok T fuel e r n t key pos :
  rep (rdb T) r n t -> wf e t -> kok e (drop pos key) -> (cost n (drop pos key) <= fuel)%nat ->
  exists n' d, tryGet fuel T n key pos = Done (tget t (drop pos key), n', d) /\ rep (rdb T) r n' t.
Proof.
  revert e r n t pos. induction fuel as [|fuel IH]; intros e r n t pos R W K Hf.
  { pose proof (cost_le n (drop pos key)). lia. }
  assert (is_node t = true -> e = false /\ can t) as Hcan by eauto using wf_can.
  destruct n as [|cs fl|k n fl|h|v]; cbn [tryGet].
  - apply rep_NilN in R as ->. exists NilN, false. split; [done|constructor].
  - inversion R as [| | |? ? ts ? HF Hfl|]; subst. destruct (Hcan eq_refl) as [-> Hc].
    destruct (drop pos key) as [|b rest] eqn:Ed; [done|].
    assert (key !! pos = Some b) as -> by (rewrite <- (Nat.add_0_r pos), <- lookup_drop, Ed; done).
    assert (drop (pos + 1) key = rest) as Er by (rewrite <- drop_drop, Ed; done).
    destruct (can_full_lookup ts b rest Hc K) as (c & Ec & Wc & Kc).
    destruct (rep_child _ _ _ _ _ HF Ec) as (m & Em & Rm). cbn [index rbind]. rewrite Em. cbn [rbind].
    rewrite <- Er in Kc. destruct (IH _ _ m c (pos + 1)%nat Rm Wc Kc) as (n' & d & -> & Rn').
    { rewrite Er. pose proof (cost_le m rest). rewrite cost_loaded in Hf by done. cbn [length] in Hf. lia. }
    rewrite Er, tget_full, Ec. cbn [rbind]. eexists _, d. split; [done|]. destruct d; [|done].
    constructor; [|done]. rewrite <- (list_insert_id ts (nidx b) c) by done. by apply rep_set_child.
  - inversion R as [| |? ? ? t' ? R' Hfl| |]; subst. destruct (Hcan eq_refl) as [-> Hc].
    assert ((length key <? pos + length k)%nat = (length (drop pos key) <? length k)%nat || (length key <? pos)%nat) as El.
    { rewrite length_drop. destruct (Nat.ltb_spec (length key) (pos + length k)), (Nat.ltb_spec (length key - pos) (length k)),
        (Nat.ltb_spec (length key) pos); cbn; try done; lia. }
    assert ((length key <? pos)%nat = false) as E0.
    { apply Nat.ltb_ge. destruct (Nat.le_gt_cases pos (length key)); [done|].
      rewrite drop_ge in K by lia. done. }
    rewrite El, E0, orb_false_r, strip_test. destruct (strip k (drop pos key)) as [rest|] eqn:Es.
    + rewrite (tget_short _ _ _ _ Es). pose proof (strip_drop _ _ _ Es) as Er. rewrite drop_drop in Er.
      apply strip_Some in Es. rewrite Es in K.
      destruct (short_slot _ _ _ Hc K) as (Hk & e' & We & Ke & _). rewrite Er in Ke.
      destruct (IH _ _ n t' (pos + length k)%nat R' We Ke) as (n' & d & -> & Rn').
      { rewrite <- Er. pose proof (cost_le n rest). rewrite cost_loaded, Es, length_app in Hf by done. lia. }
      rewrite <- Er. cbn [rbind]. eexists _, d. split; [done|]. by destruct d; [constructor|].
    + rewrite (tget_short_ne _ _ _ Es). by eexists _, _.
  - destruct (wf_can _ _ W) as [-> Hc]; [by apply rep_hash_inv in R as (_ & ? & _)|].
    destruct (resolve_ok _ _ _ _ R Hc) as (m & -> & Rm & Lm). cbn [rbind].
    destruct (IH _ _ m t pos Rm W K) as (n' & d & -> & Rn'); [|by eexists _, _].
    rewrite cost_loaded by done. rewrite cost_hash in Hf. lia.
  - apply rep_ValueN in R as ->. exists (ValueN v), false. split; [done|constructor].
Qed.

(** ** Insertion *)

Lemma prefixLen_split a b :
  exists p ra rb, a = p ++ ra /\ b = p ++ rb /\ prefixLen a b = length p /\
    match ra, rb with x :: _, y :: _ => x <> y | _, _ => True end.
Proof.
  revert b. induction a as [|x a IH]; intros b; [by exists [], [], b|].
  destruct b as [|y b]; [by exists [], (x :: a), []|]. cbn. case_bool_decide as E.
  - subst y. destruct (IH b) as (p & ra & rb & -> & -> & -> & Hd). by exists (x :: p), ra, rb.
  - by exists [], (x :: a), (y :: b).
Qed.

(** [c] below the rest [r] of a key. *)
Definition below (r : list byte) (c : tree) : tree := match r with [] => c | _ => TShort r c end.
Definition belowN (T : Trie) (r : list byte) (n : node) : node :=
  match r with [] => n | _ => ShortN r n (newFlag T) end.

Lemma newFlag_ok db r t T : flag_ok db r t (newFlag T).
Proof. done. Qed.
#[local] Hint Resolve newFlag_ok : core.

Lemma tget_below r c key : tget (below r c) key = tget (TShort r c) key.
Proof. by destruct r. Qed.
Lemma rep_below db T r n c : rep db false n c -> rep db false (belowN T r n) (below r c).
Proof. intros R. destruct r; [done|]. by constructor. Qed.
Lemma insert_nil fuel T r n : (0 < fuel)%nat -> insert fuel T NilN r n = Done (true, belowN T r n).
Proof. intros Hf. destruct fuel; [lia|]. by destruct r. Qed.

Lemma below_leaf a r v :
  vkey (a :: r) -> v <> [] -> wf (is_term a) (below r (TVal v)) /\ below r (TVal v) <> TNil.
Proof.
  intros [_ Hk]%kok_cons Hv. destruct (is_term a); cbn in Hk.
  - subst r. split; [|done]. right. by exists v.
  - pose proof (vkey_nonempty _ Hk). destruct r; [done|]. split; [|done]. right. by constructor.
Qed.
Lemma below_slot p a r c :
  can (TShort (p ++ a :: r) c) -> (nidx a < 17)%nat /\ wf (is_term a) (below r c) /\ below r c <> TNil.
Proof.
  inversion 1 as [? v Hk Hv|? cs _ Hk Hf|]; subst.
  - apply vkey_prefix in Hk as [_ Hk]; [|done]. pose proof (kok_cons _ _ Hk) as [? _].
    split; [done|]. by apply below_leaf.
  - apply Forall_app in Hk as [_ [Ha Hr]%Forall_cons]. pose proof Ha as Hi%nidx_nib. split; [lia|].
    unfold is_term. rewrite bool_decide_eq_false_2 by by apply nib_term.
    destruct r; (split; [|done]); right; [done|by constructor].
Qed.

Definition fork (a b : byte) (c1 c2 : tree) : tree :=
  TFull (<[nidx b := c2]> (<[nidx a := c1]> (replicate 17 TNil))).

Lemma fork_lookup a b c1 c2 x :
  (nidx a < 17)%nat -> (nidx b < 17)%nat -> (nidx x < 17)%nat ->
  <[nidx b := c2]> (<[nidx a := c1]> (replicate 17 TNil)) !! nidx x
  = Some (if decide (x = b) then c2 else if decide (x = a) then c1 else TNil).
Proof.
  intros Ha Hb Hx. destruct (decide (x = b)) as [->|Nb].
  - apply list_lookup_insert_eq. by rewrite length_insert, length_replicate.
  - rewrite list_lookup_insert_ne by (by intros ?%nidx_inj). destruct (decide (x = a)) as [->|Na].
    + apply list_lookup_insert_eq. by rewrite length_replicate.
    + rewrite list_lookup_insert_ne by (by intros ?%nidx_inj). by apply lookup_replicate_2.
Qed.

Lemma tget_fork a b c1 c2 x key :
  (nidx a < 17)%nat -> (nidx b < 17)%nat -> (nidx x < 17)%nat ->
  tget (fork a b c1 c2) (x :: key)
  = if decide (x = b) then tget c2 key else if decide (x = a) then tget c1 key else None.
Proof.
  intros. unfold fork. rewrite tget_full, fork_lookup by done. by repeat case_decide.
Qed.

Lemma fork_can a b c1 c2 :
  a <> b -> (nidx a < 17)%nat -> (nidx b < 17)%nat -> wf (is_term a) c1 -> wf (is_term b) c2 ->
  c1 <> TNil -> c2 <> TNil -> can (fork a b c1 c2).
Proof.
  intros Hab Ha Hb W1 W2 N1 N2.
  assert (forall x c, (nidx x < 17)%nat ->
    <[nidx b := c2]> (<[nidx a := c1]> (replicate 17 TNil)) !! nidx x = Some c -> wf (is_term x) c) as Hw.
  { intros x c Hx. rewrite fork_lookup by done. intros [= <-].
    destruct (decide (x = b)) as [->|]; [done|]. destruct (decide (x = a)) as [->|]; [done|by left]. }
  assert (forall i c, <[nidx b := c2]> (<[nidx a := c1]> (replicate 17 TNil)) !! i = Some c -> (i < 17)%nat) as Hlt.
  { intros i c E%lookup_lt_Some. by rewrite !length_insert, length_replicate in E. }
  constructor.
  - by rewrite !length_insert.
  - intros i c E Hn Hi. pose proof (Hlt _ _ E). rewrite <- (nidx_byte i) in E by done.
    apply Hw in E; [|by rewrite nidx_byte]. destruct E as [->|E]; [done|].
    unfold is_term in E. rewrite bool_decide_eq_false_2 in E; [done|].
    rewrite <- nidx_term, nidx_byte; done.
  - intros c E Hn. change 16%nat with (nidx terminator) in E. apply Hw in E; [|vm_compute; lia].
    by destruct E as [->|E].
  - exists (nidx b), (nidx a), c2, c1. split_and!; try done.
    + by intros ?%nidx_inj.
    + rewrite fork_lookup by done. by rewrite decide_True.
    + rewrite fork_lookup by done. by rewrite decide_False, decide_True.
Qed.

Lemma strip_app_l p q key :
  strip (p ++ q) key = match strip p key with Some r => strip q r | None => None end.
Proof.
  revert key. induction p as [|b p IH]; intros [|b' key]; try done. cbn. case_bool_decide; [apply IH|done].
Qed.

(** The tree that splits a short node where a new key leaves it. *)
Definition split_tree (p : list byte) (a b : byte) (r1 r2 : list byte) (c : tree) (v : list byte) : tree :=
  below p (fork a b (below r1 c) (below r2 (TVal v))).

Lemma strip_valid b r rest q :
  vkey (b :: r) -> vkey (b :: rest) -> strip r rest = Some q -> q = [].
Proof.
  intros Hr Hk E%strip_Some. subst rest. by apply (vkey_prefix_free (b :: r)).
Qed.

Lemma split_get p a b r1 r2 c v key :
  a <> b -> can (TShort (p ++ a :: r1) c) -> vkey (p ++ b :: r2) -> vkey key ->
  tget (split_tree p a b r1 r2 c v) key
  = if decide (key = p ++ b :: r2) then Some v else tget (TShort (p ++ a :: r1) c) key.
Proof.
  intros Hab Hc Hk2 Hk. destruct (below_slot _ _ _ _ Hc) as (Ha & _).
  destruct (vkey_prefix _ _ Hk2) as [Hp Hb2]; [done|]. pose proof (kok_cons _ _ Hb2) as [Hb _].
  unfold split_tree. rewrite tget_below. cbn [tget]. rewrite strip_app_l.
  destruct (strip p key) as [s|] eqn:E; [apply strip_Some in E; subst key|].
  2: { rewrite decide_False; [done|]. intros ->. by rewrite strip_app in E. }
  rewrite vkey_app_nibs in Hk by done. destruct s as [|x s]; [done|]. pose proof (kok_cons _ _ Hk) as [Hx _].
  rewrite tget_fork, !tget_below by done. destruct (decide (x = b)) as [->|Nb].
  - cbn [strip]. rewrite bool_decide_eq_false_2 by done. destruct (decide (_ = _)) as [Es|Ns].
    + apply app_inv_head in Es as [= ->]. cbn. pose proof (strip_app r2 []) as Er.
      rewrite app_nil_r in Er. by rewrite Er.
    + cbn. destruct (strip r2 s) as [q|] eqn:Eq; [|done].
      pose proof (strip_valid _ _ _ _ Hb2 Hk Eq) as ->. apply strip_Some in Eq as ->.
      by rewrite app_nil_r in Ns.
  - destruct (decide (p ++ x :: s = p ++ b :: r2)) as [[= ? _]%app_inv_head|_]; [done|]. cbn [strip tget].
    destruct (decide (x = a)) as [->|Na]; [by rewrite bool_decide_eq_true_2|].
    by rewrite bool_decide_eq_false_2.
Qed.

Lemma split_can p a b r1 r2 c v :
  a <> b -> can (TShort (p ++ a :: r1) c) -> vkey (p ++ b :: r2) -> v <> [] ->
  can (split_tree p a b r1 r2 c v).
Proof.
  intros Hab Hc Hk2 Hv. destruct (below_slot _ _ _ _ Hc) as (Ha & W1 & N1).
  destruct (vkey_prefix _ _ Hk2) as [Hp Hb2]; [done|]. pose proof (kok_cons _ _ Hb2) as [Hb _].
  destruct (below_leaf _ _ _ Hb2 Hv) as [W2 N2].
  pose proof (fork_can _ _ _ _ Hab Ha Hb W1 W2 N1 N2) as Hf. unfold split_tree.
  destruct p; [done|]. by constructor.
Qed.

(** ** One key changed *)

(** [t'] is [t] with [ov] at [key]. *)
Definition changed (e : bool) (t : tree) (key : list byte) (ov : option (list byte)) (t' : tree) : Prop :=
  wf e t' /\ forall key', kok e key' -> tget t' key' = if decide (key' = key) then ov else tget t key'.

Lemma changed_same e t key : wf e t -> changed e t key (tget t key) t.
Proof. intros W. split; [done|]. intros key' _. by case_decide; subst. Qed.

Lemma short_content k c r ov c' e key :
  can (TShort k c) -> vkey (k ++ r) -> (e = true <-> vkey k) -> (e = false <-> Forall nib k) ->
  (forall r', kok e r' -> tget c' r' = if decide (r' = r) then ov else tget c r') -> vkey key ->
  tget (TShort k c') key = if decide (key = k ++ r) then ov else tget (TShort k c) key.
Proof.
  intros Hc Hr Et Ef HC Hk. cbn. destruct (strip k key) as [r'|] eqn:E.
  - apply strip_Some in E. subst key. rewrite HC.
    + destruct (decide (r' = r)) as [->|]; [by rewrite decide_True|].
      by rewrite decide_False by (by intros ?%app_inv_head).
    + destruct e; cbn; [by eapply vkey_prefix_free; [apply Et|]|]. by rewrite vkey_app_nibs in Hk by by apply Ef.
  - rewrite decide_False; [done|]. intros ->. by rewrite strip_app in E.
Qed.

Lemma full_content cs b c rest ov c' key :
  can (TFull cs) -> vkey (b :: rest) -> cs !! nidx b = Some c -> changed (is_term b) c rest ov c' -> vkey key ->
  tget (TFull (<[nidx b := c']> cs)) key = if decide (key = b :: rest) then ov else tget (TFull cs) key.
Proof.
  intros Hc Hb Ec [_ HC] Hk. destruct key as [|x key]; [done|].
  assert (length cs = 17%nat) as Hl by by inversion Hc.
  pose proof (kok_cons _ _ Hk) as [Hx Kx]. rewrite !tget_full. destruct (decide (x = b)) as [->|Nx].
  - rewrite list_lookup_insert_eq by lia. rewrite Ec, HC by done.
    destruct (decide (key = rest)) as [->|]; [by rewrite decide_True|]. by rewrite decide_False by congruence.
  - rewrite list_lookup_insert_ne by (by intros ?%nidx_inj). by rewrite decide_False by congruence.
Qed.

(** Replacing a child keeps a full node canonical as long as two children remain. *)
Lemma full_replace cs b c' :
  can (TFull cs) -> (nidx b < 17)%nat -> wf (is_term b) c' ->
  (exists i j x y, i <> j /\ <[nidx b := c']> cs !! i = Some x /\ <[nidx b := c']> cs !! j = Some y /\
                   x <> TNil /\ y <> TNil) ->
  can (TFull (<[nidx b := c']> cs)).
Proof.
  inversion 1 as [| |? Hl Hs Hv _]; subst. intros Hb W H2. constructor; [by rewrite length_insert| | |done].
  - intros i x E Hn Hi. destruct (decide (i = nidx b)) as [->|Ni].
    + rewrite list_lookup_insert_eq in E by lia. injection E as ->. destruct W as [->|W]; [done|].
      unfold is_term in W. rewrite bool_decide_eq_false_2 in W; [done|]. by rewrite <- nidx_term.
    + rewrite list_lookup_insert_ne in E by done. eauto.
  - intros x E Hn. destruct (decide (16%nat = nidx b)) as [Eb|Ni].
    + symmetry in Eb. rewrite <- Eb, list_lookup_insert_eq in E by lia. injection E as ->. apply nidx_term in Eb as ->.
      by destruct W as [->|W].
    + rewrite list_lookup_insert_ne in E by done. eauto.
Qed.

Lemma full_other cs b : can (TFull cs) -> exists j y, j <> nidx b /\ cs !! j = Some y /\ y <> TNil.
Proof.
  inversion 1 as [| |? _ _ _ (i & j & x & y & Hij & Ei & Ej & Hx & Hy)]; subst.
  destruct (decide (i = nidx b)) as [->|]; eauto 10.
Qed.

Lemma full_insert_can cs b c' :
  can (TFull cs) -> (nidx b < 17)%nat -> wf (is_term b) c' -> c' <> TNil -> can (TFull (<[nidx b := c']> cs)).
Proof.
  intros Hc Hb W Hn. apply full_replace; try done. destruct (full_other cs b Hc) as (j & y & Hj & Ej & Hy).
  assert (length cs = 17%nat) as Hl by by inversion Hc.
  exists (nidx b), j, c', y. split_and!; try done.
  - rewrite list_lookup_insert_eq; [done|lia].
  - by rewrite list_lookup_insert_ne.
Qed.

(** A canonical tree with keys that differ at the start is a full node. *)
Lemma forks_nil t : can t -> forks t [] -> exists cs, t = TFull cs.
Proof.
  intros Hc Hf. inversion Hc as [k v Hk Hv|k cs Hne Hk Hfu|cs ? ? ? ?]; subst; eauto.
  - destruct (forks_short _ _ k (TVal v) Hf) as [m E]; [done|]. symmetry in E. apply app_nil in E as [-> _]. done.
  - destruct (forks_short _ _ k (TFull cs) Hf) as [m E]; [done|]. symmetry in E. by apply app_nil in E as [-> _].
Qed.

Lemma changed_put_full cs key v t' :
  can (TFull cs) -> changed false (TFull cs) key (Some v) t' -> can t' -> exists cs', t' = TFull cs'.
Proof.
  intros Hc [_ HC] Hc'. apply forks_nil; [done|].
  destruct (can_full_two cs Hc) as (b1 & r1 & b2 & r2 & Hb & V1 & V2 & H1 & H2).
  exists b1, r1, b2, r2. unfold has in *. cbn [app]. rewrite !HC by done.
  split_and!; try done; by case_decide.
Qed.

Lemma changed_put_some e t key v t' : kok e key -> changed e t key (Some v) t' -> t' <> TNil.
Proof. intros Hk [_ HC] ->. specialize (HC key Hk). by rewrite decide_True in HC. Qed.

Lemma short_put_can k c r v c' e :
  can (TShort k c) -> vkey (k ++ r) -> wf e c -> c <> TNil -> kok e r ->
  (e = true <-> vkey k) -> (e = false <-> Forall nib k) -> changed e c r (Some v) c' -> can (TShort k c').
Proof.
  intros Hc Hr W Hn Kr Et Ef HC. pose proof (changed_put_some _ _ _ _ _ Kr HC) as Hn'.
  destruct HC as [[->|W'] HC]; [done|]. destruct e; cbn in W'.
  - destruct W' as (v' & Hv' & ->). constructor; [by apply Et|done].
  - inversion Hc as [? v0 ? ?|? cs Hne Hk Hf|]; subst; [destruct W as [|W]; [done|inversion W]|].
    destruct (changed_put_full cs r v c' Hf) as [cs' ->]; [by split; [right|]|done|]. by constructor.
Qed.

Definition ins_spec (T : Trie) (r e : bool) (t : tree) (key v : list byte) (x : res (bool * node)) : Prop :=
  exists d n' t', x = Done (d, n') /\ rep (rdb T) r n' t' /\ changed e t key (Some v) t' /\ (d = false -> t' = t).

(** The short node is left where the keys part. *)
Lemma insert_split T fuel r p a r1 b r2 n c fl v :
  (0 < fuel)%nat -> a <> b ->
  rep (rdb T) false n c -> can (TShort (p ++ a :: r1) c) -> vkey (p ++ b :: r2) -> v <> [] ->
  prefixLen (p ++ b :: r2) (p ++ a :: r1) = length p ->
  ins_spec T r false (TShort (p ++ a :: r1) c) (p ++ b :: r2) v
    (insert (S fuel) T (ShortN (p ++ a :: r1) n fl) (p ++ b :: r2) (ValueN v)).
Proof.
  intros Hf Hab R Hc Hk Hv Hm.
  assert (insert (S fuel) T (ShortN (p ++ a :: r1) n fl) (p ++ b :: r2) (ValueN v)
    = Done (true, let br := FullN (set_child (set_child emptyChildren a (belowN T r1 n)) b (belowN T r2 (ValueN v))) (newFlag T) in
                  match p with [] => br | _ => ShortN p br (newFlag T) end)) as ->.
  { cbn [insert]. destruct (p ++ b :: r2) as [|k0 key'] eqn:Ek; [by destruct p|]. rewrite <- Ek in *. clear Ek k0 key'.
    rewrite Hm, length_app. cbn [length]. destruct (Nat.eqb_spec (length p) (length p + S (length r1))); [lia|].
    rewrite !list_lookup_middle by done. cbn [index rbind].
    assert (forall (x : byte) l, drop (length p + 1) (p ++ x :: l) = l) as Hd
      by (intros; by rewrite <- drop_drop, drop_app_length).
    rewrite !Hd, !insert_nil by done. cbn [rbind]. rewrite take_app_length. by destruct p. }
  exists true. eexists. exists (split_tree p a b r1 r2 c v). split; [done|]. split_and!; [|split|done].
  - assert (rep (rdb T) (if p is [] then r else false)
      (FullN (set_child (set_child emptyChildren a (belowN T r1 n)) b (belowN T r2 (ValueN v))) (newFlag T))
      (fork a b (below r1 c) (below r2 (TVal v)))) as Rf.
    { constructor; [|done]. apply rep_set_child; [|apply rep_below; constructor].
      apply rep_set_child; [|by apply rep_below]. apply Forall2_replicate. constructor. }
    unfold split_tree. destruct p; [done|]. by constructor.
  - right. by apply split_can.
  - intros key' Hk'. by apply split_get.
Qed.

(** The whole key of the short node matches. *)
Lemma insert_match T fuel r k n c fl r' v :
  (forall e, wf e c -> kok e r' -> ins_spec T false e c r' v (insert fuel T n r' (ValueN v))) ->
  rep (rdb T) r (ShortN k n fl) (TShort k c) -> can (TShort k c) -> vkey (k ++ r') ->
  prefixLen (k ++ r') k = length k ->
  ins_spec T r false (TShort k c) (k ++ r') v (insert (S fuel) T (ShortN k n fl) (k ++ r') (ValueN v)).
Proof.
  intros IH R Hc Hk Hm. destruct (short_slot _ _ _ Hc Hk) as (Hl & e & We & Ke & Hn & Et & Ef).
  destruct (IH e We Ke) as (d & n' & c' & E & R' & HC & Hd).
  assert (changed false (TShort k c) (k ++ r') (Some v) (TShort k c')) as HC'.
  { split; [right; by eapply short_put_can|]. intros key Hkey. destruct HC as [_ HC].
    by eapply short_content. }
  assert (insert (S fuel) T (ShortN k n fl) (k ++ r') (ValueN v)
    = Done (d, if d then ShortN k n' (newFlag T) else ShortN k n fl)) as ->.
  { cbn [insert]. destruct (k ++ r') as [|k0 key'] eqn:Ek; [by destruct k|]. rewrite <- Ek in *. clear Ek k0 key'.
    rewrite Hm, Nat.eqb_refl, drop_app_length, E. by destruct d. }
  destruct d.
  - exists true, (ShortN k n' (newFlag T)), (TShort k c'). split_and!; try done. by constructor.
  - rewrite (Hd eq_refl) in HC'. by exists false, (ShortN k n fl), (TShort k c).
Qed.

Lemma insert_full T fuel r cs ts fl b rest v :
  (forall e n c, rep (rdb T) false n c -> wf e c -> kok e rest -> ins_spec T false e c rest v (insert fuel T n rest (ValueN v))) ->
  rep (rdb T) r (FullN cs fl) (TFull ts) -> can (TFull ts) -> vkey (b :: rest) ->
  ins_spec T r false (TFull ts) (b :: rest) v (insert (S fuel) T (FullN cs fl) (b :: rest) (ValueN v)).
Proof.
  intros IH R Hc Hk. inversion R as [| | |? ? ? ? HF Hfl|]; subst.
  destruct (can_full_lookup ts b rest Hc Hk) as (c & Ec & Wc & Kc). pose proof (kok_cons _ _ Hk) as [Hb _].
  destruct (rep_child _ _ _ _ _ HF Ec) as (m & Em & Rm).
  destruct (IH _ m c Rm Wc Kc) as (d & n' & c' & E & R' & HC & Hd).
  assert (changed false (TFull ts) (b :: rest) (Some v) (TFull (<[nidx b := c']> ts))) as HC'.
  { split; [|intros; by eapply full_content]. right. apply full_insert_can; try done; [by destruct HC|].
    by eapply changed_put_some. }
  cbn [insert]. rewrite Em. cbn [rbind]. rewrite E. cbn [rbind]. destruct d; cbn [negb].
  - eexists true, _, _. split; [done|]. split_and!; [|exact HC'|done]. constructor; [|done]. by apply rep_set_child.
  - rewrite (Hd eq_refl), list_insert_id in HC' by done. by exists false, (FullN cs fl), (TFull ts).
Qed.

Lemma insert_ok T fuel e r n t key v :
  rep (rdb T) r n t -> wf e t -> kok e key -> v <> [] -> (cost n key <= fuel)%nat ->
  ins_spec T r e t key v (insert fuel T n key (ValueN v)).
Proof.
  intros R W K Hv. revert e r n t key R W K. induction fuel as [|fuel IH]; intros e r n t key R W K Hf.
  { pose proof (cost_le n key). lia. }
  destruct e.
  { cbn in K. subst key. assert (changed true t [] (Some v) (TVal v)) as HC.
    { split; [right; by exists v|]. intros key ->. by rewrite decide_True. }
    destruct W as [->|(v0 & _ & ->)].
    - apply rep_TNil in R as ->. exists true, (ValueN v), (TVal v). split_and!; try done. constructor.
    - apply rep_TVal in R as ->. exists (negb (bool_decide (v0 = v))), (ValueN v), (TVal v).
      split_and!; [done|constructor|done|]. case_bool_decide; by subst. }
  cbn in K. destruct (TNil_dec t) as [->|Hn].
  { apply rep_TNil in R as ->. rewrite insert_nil by lia. destruct key as [|k0 key]; [done|].
    exists true. eexists. exists (TShort (k0 :: key) (TVal v)). split; [done|]. split_and!; [by repeat constructor| |done].
    split; [right; by constructor|]. intros key' Hk'. cbn [tget].
    destruct (strip (k0 :: key) key') as [q|] eqn:E.
    - apply strip_Some in E. subst key'. pose proof (vkey_prefix_free _ _ K Hk') as ->. by rewrite app_nil_r, decide_True.
    - rewrite decide_False; [done|]. intros ->. rewrite <- (app_nil_r (k0 :: key)) in E at 2. by rewrite strip_app in E. }
  destruct W as [|Hc]; [done|]. cbn in Hc. pose proof (vkey_nonempty _ K) as Hne.
  assert (1 <= length key)%nat as Hlen by (destruct key; [done|cbn; lia]).
  destruct n as [|cs fl|k n fl|h|v0].
  - by apply rep_NilN in R.
  - destruct key as [|b rest]; [done|]. inversion R; subst. apply insert_full; try done. intros e m c Rm Wc Kc.
    apply IH; try done. pose proof (cost_le m rest). rewrite cost_loaded in Hf by done. cbn [length] in Hf. lia.
  - inversion R as [| |? ? ? c ? R' Hfl| |]; subst. rewrite cost_loaded in Hf by done.
    destruct (prefixLen_split key k) as (p & ra & rb & -> & -> & Hm & Hd). destruct rb as [|a r1].
    + rewrite app_nil_r in *. apply insert_match; try done. intros e Wc Kc. apply IH; try done.
      pose proof (cost_le n ra). destruct (short_slot _ _ _ Hc K) as [Hl _]. rewrite length_app in Hf. lia.
    + destruct ra as [|b r2].
      { exfalso. rewrite app_nil_r in K. inversion Hc as [? ? Hk ?|? ? _ Hk ?|]; subst.
        - by apply (vkey_prefix_free p) in Hk.
        - apply Forall_app in Hk as [Hk _]. apply hasTerm_nibs in Hk. by rewrite hasTerm_vkey in Hk. }
      apply insert_split; (lia || done || by apply not_eq_sym).
  - destruct (resolve_ok _ _ _ _ R Hc) as (m & Em & Rm & Lm).
    destruct (IH false r m t key Rm) as (d & n' & t' & E & R' & HC & Hd); [by right|done| |].
    { rewrite cost_loaded by done. rewrite cost_hash in Hf. lia. }
    exists d, (if d then n' else m), t'. split_and!; try done; [|destruct d; [done|by rewrite (Hd eq_refl)]].
    cbn [insert]. destruct key; [done|]. rewrite Em. cbn [rbind]. rewrite E. by destruct d.
  - apply rep_ValueN in R as ->. inversion Hc.
Qed.

(** ** Deletion *)

Definition del_spec (T : Trie) (r e : bool) (t : tree) (key : list byte) (x : res (bool * node)) : Prop :=
  exists d n' t', x = Done (d, n') /\ rep (rdb T) r n' t' /\ changed e t key None t' /\
                  (d = false -> t' = t) /\ (d = true -> loaded n').

Lemma del_same T r e n t key :
  rep (rdb T) r n t -> wf e t -> tget t key = None -> del_spec T r e t key (Done (false, n)).
Proof.
  intros R W E. exists false, n, t. split_and!; try done. rewrite <- E. by apply changed_same.
Qed.

Lemma strip_none p a r ra :
  match ra with x :: _ => x <> a | [] => True end -> strip (p ++ a :: r) (p ++ ra) = None.
Proof.
  intros Hd. rewrite strip_app_l, strip_app. destruct ra as [|x ra]; [done|]. cbn. by rewrite bool_decide_eq_false_2.
Qed.

Lemma loaded_short db r n k c :
  loaded n -> rep db r n (TShort k c) -> exists m fl, n = ShortN k m fl /\ rep db false m c.
Proof. intros Hl R. inversion R; subst; [eauto|done]. Qed.
Lemma loaded_full db r n cs :
  loaded n -> rep db r n (TFull cs) -> exists ns fl, n = FullN ns fl.
Proof. intros Hl R. inversion R; subst; [eauto|done]. Qed.

(** Two short nodes in a row are merged. *)
Lemma tget_merge k ck cc key : tget (TShort (k ++ ck) cc) key = tget (TShort k (TShort ck cc)) key.
Proof. cbn. rewrite strip_app_l. by destruct (strip k key). Qed.
Lemma merge_can k ck cc : Forall nib k -> can (TShort ck cc) -> can (TShort (k ++ ck) cc).
Proof.
  intros Hk. inversion 1 as [? v Hv Hne|? cs Hne Hn Hf|]; subst; constructor; try done.
  - by apply vkey_app_nibs.
  - by intros [_ ?]%app_nil.
  - by apply Forall_app.
Qed.

(** What a short node becomes when its child does. *)
Definition lift (k : list byte) (c : tree) : tree :=
  match c with TShort ck cc => TShort (k ++ ck) cc | _ => TShort k c end.
Lemma lift_can k c : k <> [] -> Forall nib k -> can c -> can (lift k c).
Proof. intros Hne Hk Hc. inversion Hc; subst; cbn; [by apply merge_can..|by constructor]. Qed.
Lemma tget_lift k c key : tget (lift k c) key = tget (TShort k c) key.
Proof. destruct c; try done. cbn [lift]. apply tget_merge. Qed.

Definition liftN (T : Trie) (k : list byte) (cnode c : node) : node :=
  match cnode with ShortN ck cv _ => ShortN (k ++ ck) cv (newFlag T) | _ => ShortN k c (newFlag T) end.
Lemma rep_lift T db r r' k cnode n c :
  loaded cnode -> can c -> rep db r' cnode c -> rep db false n c -> rep db r (liftN T k cnode n) (lift k c).
Proof.
  intros Hl Hc R R'. inversion Hc; subst.
  - destruct (loaded_short _ _ _ _ _ Hl R) as (m & fl & -> & Rm). by constructor.
  - destruct (loaded_short _ _ _ _ _ Hl R) as (m & fl & -> & Rm). by constructor.
  - destruct (loaded_full _ _ _ _ Hl R) as (ns & fl & ->). by constructor.
Qed.

Lemma changed_del_full cs key t' :
  can (TFull cs) -> changed false (TFull cs) key None t' -> can t'.
Proof.
  intros Hc [[->|W] HC]; [|done]. exfalso.
  destruct (can_full_two cs Hc) as (b1 & r1 & b2 & r2 & Hb & V1 & V2 & [v1 H1] & [v2 H2]).
  pose proof (HC _ V1) as E1. pose proof (HC _ V2) as E2. rewrite H1 in E1. rewrite H2 in E2.
  cbn in E1, E2. repeat case_decide; try done. congruence.
Qed.

Lemma delete_short T fuel r k n c fl key :
  (forall r', key = k ++ r' -> (length r' < length key)%nat -> wf false c -> kok false r' ->
     del_spec T false false c r' (delete fuel T n r')) ->
  rep (rdb T) r (ShortN k n fl) (TShort k c) -> can (TShort k c) -> vkey key ->
  del_spec T r false (TShort k c) key (delete (S fuel) T (ShortN k n fl) key).
Proof.
  intros IH R Hc Hk. cbn [delete]. inversion R as [| |? ? ? ? ? R' _| |]; subst.
  destruct (prefixLen_split key k) as (p & ra & rb & -> & -> & Hm & Hd). rewrite Hm, !length_app.
  destruct rb as [|a r1].
  2: { cbn [length]. rewrite (proj2 (Nat.ltb_lt _ _)) by lia. apply del_same; [done|by right|].
       apply tget_short_ne, strip_none. by destruct ra. }
  rewrite app_nil_r in *. cbn [length]. rewrite (proj2 (Nat.ltb_ge _ _)) by lia.
  destruct (short_slot _ _ _ Hc Hk) as (Hl & e & We & Ke & Hn & Et & Ef).
  destruct e; cbn in Ke.
  - subst ra. cbn [length]. rewrite Nat.add_0_r, Nat.eqb_refl. exists true, NilN, TNil. split_and!; try done; [constructor|].
    split; [by left|]. intros key' Hk'. rewrite app_nil_r in *. case_decide; [done|]. symmetry. apply tget_short_ne.
    destruct (strip p key') as [q|] eqn:E; [|done]. apply strip_Some in E. subst key'.
    pose proof (vkey_prefix_free _ _ Hk Hk') as ->. by rewrite app_nil_r in *.
  - assert (length ra <> 0)%nat as Hra by (destruct ra; [done|cbn; lia]).
    destruct (Nat.eqb_spec (length p) (length p + length ra)); [lia|]. rewrite Nat.add_0_r, drop_app_length.
    destruct (IH ra eq_refl) as (d & n' & c' & -> & Rn' & HC & Hs & Hld); [rewrite length_app; lia|done|done|].
    cbn [rbind]. destruct d; cbn [negb].
    2: { rewrite (Hs eq_refl) in HC. apply del_same; [done|by right|]. rewrite (tget_short _ _ _ _ (strip_app _ _)).
         destruct HC as [_ HC]. rewrite (HC ra Ke). by rewrite decide_True. }
    inversion Hc as [|? cs Hne Hp Hf|]; subst; [by destruct We as [|We]; [|inversion We]|].
    pose proof (changed_del_full _ _ _ Hf HC) as Hc'. exists true, (liftN T p n' n'), (lift p c').
    split; [by destruct n'|]. split_and!; [by eapply rep_lift; eauto| |done|by destruct n'].
    split; [right; by apply lift_can|]. intros key' Hk'. rewrite tget_lift. destruct HC as [_ HC].
    by eapply short_content.
Qed.

(** The loop that looks for a single child. *)
Lemma single_child_found cs i p :
  0 <= p -> (single_child cs i p = p /\ Forall (fun c => c = NilN) cs) \/
            (single_child cs i p = -2 /\ exists j c, cs !! j = Some c /\ c <> NilN).
Proof.
  intros Hp. revert i. induction cs as [|c cs IH]; intros i; [left; by split|].
  assert (p =? -1 = false) as Ep by (apply Z.eqb_neq; lia).
  destruct c; cbn [single_child]; rewrite ?Ep;
    try (right; split; [done|]; by eexists 0%nat, _).
  destruct (IH (i + 1)) as [[E HF]|[E (j & c & Ej & Hc)]]; [left|right]; rewrite E.
  - split; [done|]. by constructor.
  - split; [done|]. by exists (S j), c.
Qed.

Lemma single_child_spec cs i :
  0 <= i ->
  (single_child cs i (-1) = -1 /\ Forall (fun c => c = NilN) cs) \/
  (exists j c, single_child cs i (-1) = i + Z.of_nat j /\ cs !! j = Some c /\ c <> NilN /\
               forall j' c', cs !! j' = Some c' -> j' <> j -> c' = NilN) \/
  (single_child cs i (-1) = -2 /\
   exists j j' c c', j <> j' /\ cs !! j = Some c /\ cs !! j' = Some c' /\ c <> NilN /\ c' <> NilN).
Proof.
  revert i. induction cs as [|c cs IH]; intros i Hi; [left; by split|].
  assert (c = NilN \/ c <> NilN /\ single_child (c :: cs) i (-1) = single_child cs (i + 1) i) as [->|[Hc ->]]
    by (destruct c; [by left|by right..]).
  - cbn [single_child]. destruct (IH (i + 1)) as [[E HF]|[(j & c & E & Ej & Hc & Ho)|[E (j & j' & c & c' & H')]]]; [lia|..]; rewrite E.
    + left. split; [done|]. by constructor.
    + right; left. exists (S j), c. split_and!; try done; [lia|]. intros [|j'] c' Ec Hj; cbn in Ec; [by injection Ec as <-|].
      apply (Ho j'); [done|lia].
    + right; right. split; [done|]. exists (S j), (S j'), c, c'. destruct H' as (? & ?). split; [lia|done].
  - right. destruct (single_child_found cs (i + 1) i Hi) as [[-> HF]|[-> (j & c' & Ej & Hc')]]; [left|right].
    + exists 0%nat, c. split_and!; try done; [lia|]. intros [|j'] c' Ec Hj; [done|]. cbn in Ec.
      rewrite Forall_lookup in HF. eauto.
    + split; [done|]. by exists 0%nat, (S j), c, c'.
Qed.

Lemma rep_nil_iff db r n t : rep db r n t -> n = NilN <-> t = TNil.
Proof. intros R. split; intros ->; [by apply rep_NilN in R|by apply rep_TNil in R]. Qed.

(** A full node with one child is the short node above it. *)
Lemma tget_single cs j y key :
  length cs = 17%nat -> cs !! j = Some y -> (forall j' c', cs !! j' = Some c' -> j' <> j -> c' = TNil) -> vkey key ->
  tget (TFull cs) key = tget (TShort [byte_idx j] y) key.
Proof.
  intros Hl Ej Ho Hk. destruct key as [|x key]; [done|]. pose proof (kok_cons _ _ Hk) as [Hx _].
  assert (j < 17)%nat as Hj by (apply lookup_lt_Some in Ej; lia).
  rewrite tget_full. cbn. case_bool_decide as E.
  - subst x. by rewrite nidx_byte, Ej.
  - destruct (cs !! nidx x) as [c'|] eqn:Ec; [|done]. rewrite (Ho (nidx x) c' Ec); [done|].
    intros E'. apply E. by rewrite <- E', byte_nidx.
Qed.

Lemma single_can j y :
  (j < 17)%nat -> y <> TNil -> wf (is_term (byte_idx j)) y -> can (lift [byte_idx j] y).
Proof.
  intros Hj Hn [->|W]; [done|]. unfold is_term in W. case_bool_decide as E.
  - destruct W as (v & Hv & ->). rewrite E. apply can_leaf; [by left|done].
  - apply lift_can; [done| |done]. constructor; [|done]. apply nidx_nib. rewrite nidx_byte by done.
    rewrite <- nidx_term, nidx_byte in E by done. lia.
Qed.

Lemma resolve_any T r n t :
  rep (rdb T) r n t -> can t -> exists m, resolve T n = Done m /\ rep (rdb T) r m t /\ loaded m.
Proof.
  intros R Hc. destruct (decide (loaded n)) as [Hl|Hl]; [by exists n; destruct n|].
  destruct n; try (by destruct Hl). cbn [resolve]. by apply resolve_ok.
Qed.

(** The reduction of a full node after one of its children was replaced. *)
Definition shrink (T : Trie) (cs : list node) : res (bool * node) :=
  let pos := single_child cs 0 (-1) in
  if pos >=? 0 then
    let! c := index (cs !! Z.to_nat pos) in
    let! cnode := (if negb (pos =? 16) then resolve T c else Done NilN) in
    match cnode with
    | ShortN ck cv _ => Done (true, ShortN (byte_of_Z pos :: ck) cv (newFlag T))
    | _ => Done (true, ShortN [byte_of_Z pos] c (newFlag T))
    end
  else Done (true, FullN cs (newFlag T)).

Lemma shrink_single T r cs ts j c y :
  Forall2 (rep (rdb T) false) cs ts -> length ts = 17%nat ->
  single_child cs 0 (-1) = Z.of_nat j -> cs !! j = Some c -> ts !! j = Some y -> y <> TNil ->
  wf (is_term (byte_idx j)) y ->
  exists n', shrink T cs = Done (true, n') /\ rep (rdb T) r n' (lift [byte_idx j] y) /\ loaded n'.
Proof.
  intros HF Hl Es Ec Ey Hy W. pose proof (Forall2_lookup_lr _ _ _ _ _ _ HF Ec Ey) as R.
  assert (j < 17)%nat as Hj by (apply lookup_lt_Some in Ey; lia).
  unfold shrink. rewrite Es, Z.geb_leb, (proj2 (Z.leb_le _ _)) by lia. rewrite Nat2Z.id, Ec. cbn [index rbind].
  destruct W as [->|W]; [done|]. unfold is_term in W. case_bool_decide as E.
  - rewrite <- nidx_term, nidx_byte in E by done. subst j. destruct W as (v & Hv & ->). cbn.
    apply rep_TVal in R as ->. eexists. split; [done|]. split; [|done]. by repeat constructor.
  - rewrite <- nidx_term, nidx_byte in E by done. destruct (Z.eqb_spec (Z.of_nat j) 16); [lia|]. cbn [negb].
    destruct (resolve_any _ _ _ _ R W) as (m & -> & Rm & Lm). cbn [rbind].
    exists (liftN T [byte_idx j] m c). split; [by destruct m|]. split; [by eapply rep_lift|by destruct m].
Qed.

Lemma delete_full T fuel r cs ts fl b rest :
  (forall e n c, rep (rdb T) false n c -> wf e c -> kok e rest -> del_spec T false e c rest (delete fuel T n rest)) ->
  rep (rdb T) r (FullN cs fl) (TFull ts) -> can (TFull ts) -> vkey (b :: rest) ->
  del_spec T r false (TFull ts) (b :: rest) (delete (S fuel) T (FullN cs fl) (b :: rest)).
Proof.
  intros IH R Hc Hk. inversion R as [| | |? ? ? ? HF Hfl|]; subst.
  destruct (can_full_lookup ts b rest Hc Hk) as (c & Ec & Wc & Kc). pose proof (kok_cons _ _ Hk) as [Hb _].
  destruct (rep_child _ _ _ _ _ HF Ec) as (m & Em & Rm). assert (length ts = 17%nat) as Hl by by inversion Hc.
  destruct (IH _ m c Rm Wc Kc) as (d & n' & c' & E & R' & HC & Hd & _).
  cbn [delete]. rewrite Em. cbn [rbind]. rewrite E. cbn [rbind]. destruct d; cbn [negb].
  2: { rewrite (Hd eq_refl) in HC. apply del_same; [done|by right|]. rewrite tget_full, Ec.
       destruct HC as [_ HC]. rewrite (HC rest Kc). by rewrite decide_True. }
  fold (shrink T (set_child cs b n')). pose proof (rep_set_child _ _ _ b _ _ HF R') as HF'.
  set (cs' := set_child cs b n') in *. set (ts' := <[nidx b := c']> ts) in *.
  assert (length ts' = 17%nat) as Hl' by (unfold ts'; by rewrite length_insert).
  assert (forall key', vkey key' -> tget (TFull ts') key' = if decide (key' = b :: rest) then None else tget (TFull ts) key')
    as HCt by (intros; by eapply full_content).
  destruct (full_other ts b Hc) as (j0 & y0 & Hj0 & Ey0 & Hy0).
  assert (ts' !! j0 = Some y0) as Ey0' by (unfold ts'; by rewrite list_lookup_insert_ne).
  destruct (Forall2_lookup_r _ _ _ _ _ HF' Ey0') as (x0 & Ex0 & Rx0).
  destruct (single_child_spec cs' 0) as [[_ HF0]|[(j & x & Es & Ex & Hx & Ho)|[Es (j & j' & x & x' & Hjj & Ex & Ex' & Hx & Hx')]]]; [lia|..].
  - rewrite Forall_lookup in HF0. apply HF0 in Ex0. by rewrite (rep_nil_iff _ _ _ _ Rx0) in Ex0.
  - destruct (decide (j0 = j)) as [->|Hne]; [|by rewrite <- (rep_nil_iff _ _ _ _ Rx0) in Hy0; rewrite (Ho j0 x0) in Hy0].
    assert (j < 17)%nat by (apply lookup_lt_Some in Ey0; lia).
    assert (wf (is_term (byte_idx j)) y0) as Wy by (apply (can_full_slot ts); [done|by rewrite nidx_byte]).
    destruct (shrink_single T r cs' ts' j x y0 HF' Hl' Es Ex Ey0' Hy0 Wy) as (n2 & -> & R2 & L2).
    exists true, n2, (lift [byte_idx j] y0). split_and!; try done. split; [right; by apply single_can|].
    intros key' Hk'. rewrite tget_lift, <- HCt by done. symmetry. apply tget_single; try done.
    intros j' z Ez Hj'. destruct (Forall2_lookup_r _ _ _ _ _ HF' Ez) as (x' & Ex' & Rx').
    apply (rep_nil_iff _ _ _ _ Rx'). eauto.
  - unfold shrink. rewrite Es. cbn. exists true. eexists. exists (TFull ts'). split; [done|].
    split_and!; [by constructor| |done|done]. split; [right|done]. apply full_replace; try done; [by destruct HC|].
    destruct (Forall2_lookup_l _ _ _ _ _ HF' Ex) as (z & Ez & Rz). destruct (Forall2_lookup_l _ _ _ _ _ HF' Ex') as (z' & Ez' & Rz').
    exists j, j', z, z'. rewrite <- (rep_nil_iff _ _ _ _ Rz), <- (rep_nil_iff _ _ _ _ Rz'). done.
Qed.

Lemma delete_ok T fuel e r n t key :
  rep (rdb T) r n t -> wf e t -> kok e key -> (cost n key <= fuel)%nat ->
  del_spec T r e t key (delete fuel T n key).
Proof.
  revert e r n t key. induction fuel as [|fuel IH]; intros e r n t key R W K Hf.
  { pose proof (cost_le n key). lia. }
  destruct (TNil_dec t) as [->|Hn].
  { apply rep_TNil in R as ->. cbn [delete]. apply del_same; [constructor|done|done]. }
  destruct W as [|W]; [done|]. destruct e.
  { destruct W as (v & _ & ->). apply rep_TVal in R as ->. cbn in K. subst key. exists true, NilN, TNil.
    split_and!; try done; [constructor|]. split; [by left|]. intros key ->. by rewrite decide_True. }
  cbn in W, K. destruct n as [|cs fl|k n fl|h|v].
  - by apply rep_NilN in R.
  - destruct key as [|b rest]; [done|]. inversion R; subst. apply delete_full; try done. intros e m c Rm Wc Kc.
    apply IH; try done. pose proof (cost_le m rest). rewrite cost_loaded in Hf by done. cbn [length] in Hf. lia.
  - inversion R as [| |? ? ? c ? R' Hfl| |]; subst. apply delete_short; try done. intros r' -> Hl Wc Kc.
    apply IH; try done. pose proof (cost_le n r'). rewrite cost_loaded in Hf by done. lia.
  - destruct (resolve_ok _ _ _ _ R W) as (m & Em & Rm & Lm).
    destruct (IH false r m t key Rm) as (d & n' & t' & E & R' & HC & Hd & Hl); [by right|done| |].
    { rewrite cost_loaded by done. rewrite cost_hash in Hf. lia. }
    exists d, (if d then n' else m), t'. split_and!; try done; [|by destruct d; [|rewrite (Hd eq_refl)]|by destruct d; [apply Hl|]].
    cbn [delete]. rewrite Em. cbn [rbind]. rewrite E. by destruct d.
  - apply rep_ValueN in R as ->. inversion W.
Qed.
End ops.
