(* ===== verification/TrieHash.v ===== *)
(** * The hasher

    Collapsing a trie: [hash] returns the reference a parent keeps to a node, which depends
    on the tree the node stands for only, and, when it stores, a database that holds the
    encodings of all its nodes and a node that stands for the same tree there. *)

From S2P Require Import Prelude GoMath World Rlp RlpProofs RlpRaw.
Import Rlp RlpProofs RlpRaw.
From S2P Require Import Trie TrieFacts TrieCodec TrieOps.
Import Trie.

(** ** Sizes *)

(** Keys and values below [2 ^ 40] bytes keep every encoding below [2 ^ 64]. *)
Fixpoint sized (t : tree) : Prop :=
  match t with
  | TNil => True
  | TVal v => zlen v < 2 ^ 40
  | TShort k c => zlen k < 2 ^ 40 /\ sized c
  | TFull cs => Forall (fun P : Prop => P) (map sized cs)
  end.

Lemma sized_full cs : sized (TFull cs) <-> Forall sized cs.
Proof. cbn. by rewrite Forall_map. Qed.

Lemma content_sized t :
  can t -> (forall key v, vkey key -> tget t key = Some v -> zlen key < 2 ^ 40 /\ zlen v < 2 ^ 40) -> sized t.
Proof.
  intros Hc. induction Hc as [k v Hk Hv|k cs Hne Hk Hf IH|cs Hl Hc IH Hv H2]; intros HB.
  - cbn. apply HB; [done|]. rewrite (tget_short k _ k []); [done|]. apply strip_Some. by rewrite app_nil_r.
  - assert (forall r v, vkey r -> tget (TFull cs) r = Some v -> zlen (k ++ r) < 2 ^ 40 /\ zlen v < 2 ^ 40) as HB'.
    { intros r v Hr Ev. apply HB; [by apply vkey_app_nibs|]. by rewrite (tget_short k _ _ r (strip_app _ _)). }
    split.
    + destruct (can_has _ Hf) as (r & Hr & [v Ev]). destruct (HB' r v Hr Ev) as [HL _].
      rewrite zlen_app in HL. pose proof (zlen_nonneg r). lia.
    + apply IH. intros r v Hr Ev. destruct (HB' r v Hr Ev) as [HL HV]. split; [|done].
      rewrite zlen_app in HL. pose proof (zlen_nonneg k). lia.
  - apply sized_full, Forall_lookup. intros i c E. destruct (TNil_dec c) as [->|Hn]; [done|].
    assert (i < 17)%nat as Hi by (apply lookup_lt_Some in E; lia).
    assert (forall r v, vkey (byte_idx i :: r) -> tget c r = Some v -> zlen r < 2 ^ 40 /\ zlen v < 2 ^ 40) as HB'.
    { intros r v Hr Ev. destruct (HB (byte_idx i :: r) v Hr) as [HL HV]; [by rewrite tget_full, nidx_byte, E|].
      rewrite zlen_cons in HL. split; [lia|done]. }
    destruct (decide (i = 16%nat)) as [->|Hi16].
    + destruct (Hv c E Hn) as (v & _ & ->). by apply (HB' [] v); [left|].
    + apply (IH i c E Hn Hi16). intros r v Hr. apply HB'. right. split; [|done]. apply nidx_nib. rewrite nidx_byte; lia.
Qed.

Lemma headsize_bound n : 0 <= n < 2 ^ 64 -> headsize n <= 9.
Proof.
  intros Hn. unfold headsize. bdestr; [lia|]. destruct (putint_intsize n Hn) as [? ?]. lia.
Qed.
Lemma zlen_rlp_Str b : zlen b < 2 ^ 64 -> zlen (rlp (Str b)) <= 9 + zlen b.
Proof.
  intros Hb. pose proof (zlen_nonneg b). destruct (rlp_Str b) as [(x & -> & _ & ->)|[-> _]]; [unfold zlen; cbn; lia|].
  rewrite zlen_app, zlen_puthead by lia. pose proof (headsize_bound (zlen b)). lia.
Qed.
Lemma zlen_rlp_Lst xs : zlen (concat (map rlp xs)) < 2 ^ 64 -> zlen (rlp (Lst xs)) <= 9 + zlen (concat (map rlp xs)).
Proof.
  intros Hb. cbn [rlp]. set (n := zlen _) in *. assert (0 <= n) by apply zlen_nonneg.
  rewrite zlen_app, zlen_puthead by lia. pose proof (headsize_bound n). fold n. lia.
Qed.

(** ** Encoding a collapsed node *)

Lemma node_ind' (P : node -> Prop) :
  P NilN -> (forall cs fl, Forall P cs -> P (FullN cs fl)) -> (forall k n fl, P n -> P (ShortN k n fl)) ->
  (forall h, P (HashN h)) -> (forall v, P (ValueN v)) -> forall n, P n.
Proof.
  intros Hn Hf Hs Hh Hv. fix IH 1. intros [|cs fl|k n fl|h|v]; [done| |apply Hs, IH|apply Hh|apply Hv].
  apply Hf. induction cs as [|c cs IHcs]; constructor; [apply IH|exact IHcs].
Qed.

Lemma node_value_ok n : uints_ok (node_value n) = true /\ encodable (node_value n) = true.
Proof.
  induction n as [|cs fl IH|k n fl [IH1 IH2]|h|v] using node_ind'; try done.
  - cbn. rewrite !forallb_forall. split; intros x (c & <- & Hc)%in_map_iff; rewrite Forall_forall in IH;
      by apply IH, list_elem_of_In.
  - cbn. by rewrite IH1, IH2.
Qed.

Lemma encode_node n i :
  items (node_value n) = [i] -> zlen (rlp i) < 2 ^ 64 -> EncodeToBytes (node_value n) = Some (rlp i).
Proof.
  intros E Hl. destruct (node_value_ok n) as [Hu He].
  assert (RlpProofs.enc (node_value n) = rlp i) as Ee by (unfold RlpProofs.enc; rewrite E; cbn; apply app_nil_r).
  rewrite EncodeToBytes_enc, He, Ee by (done || by rewrite Ee). done.
Qed.

Section hash.
Context `{CryptoPrims}.

Lemma zlen_tref c : wf false c -> zlen (rlp (tref c)) <= 41.
Proof.
  intros [->|Hc]; [vm_compute; congruence|]. unfold tref, ref_of. rewrite (can_node _ Hc). cbn [andb].
  destruct (Z.leb_spec 32 (zlen (rlp (titem c)))); [|lia].
  pose proof (zlen_rlp_Str (Keccak256 (rlp (titem c)))) as Hk. rewrite zlen_keccak in Hk. lia.
Qed.

Lemma zlen_refs l : Forall (wf false) l -> zlen (concat (map rlp (map tref l))) <= 41 * zlen l.
Proof.
  induction 1 as [|c l Hc Hl IH]; [vm_compute; congruence|]. cbn [map concat]. rewrite zlen_app, zlen_cons.
  pose proof (zlen_tref c Hc). lia.
Qed.

Lemma compact_zlen k : vkey k \/ Forall nib k -> zlen (compact k) <= zlen k + 1.
Proof. intros (c & E & _ & Hl)%compact_roundtrip. unfold compact. by rewrite E. Qed.

Lemma enc_bound t : can t -> sized t -> zlen (enc t) < 2 ^ 64.
Proof.
  intros Hc Hs. inversion Hc as [k v Hk Hv|k cs Hne Hk Hf|cs Hl Hcs Hv H2]; subst.
  - destruct Hs as [Hs1 Hs2]. cbn in Hs2. change (enc _) with (rlp (Lst [Str (compact k); Str v])).
    pose proof (compact_zlen k (or_introl Hk)) as Hck. set (ck := compact k) in *.
    assert (zlen (concat (map rlp [Str ck; Str v])) <= 2 ^ 42); [|pose proof (zlen_rlp_Lst [Str ck; Str v]); lia].
    cbn [map concat]. rewrite app_nil_r, zlen_app. pose proof (zlen_rlp_Str ck). pose proof (zlen_rlp_Str v). lia.
  - destruct Hs as [Hs1 _]. change (enc _) with (rlp (Lst [Str (compact k); tref (TFull cs)])).
    pose proof (compact_zlen k (or_intror Hk)) as Hck. set (ck := compact k) in *.
    assert (zlen (concat (map rlp [Str ck; tref (TFull cs)])) <= 2 ^ 42);
      [|pose proof (zlen_rlp_Lst [Str ck; tref (TFull cs)]); lia].
    cbn [map concat]. rewrite app_nil_r, zlen_app. pose proof (zlen_rlp_Str ck). 
    pose proof (zlen_tref (TFull cs) (or_intror Hf)). lia.
  - destruct (full_split cs Hc) as (l & v & -> & Hll & Hw). apply sized_full in Hs.
    apply Forall_app in Hs as [_ [Hs _]%Forall_cons].
    set (cv := if decide _ then _ else _) in *. change (enc _) with (rlp (Lst (map tref (l ++ [cv])))).
    assert (tref cv = Str v) as Ev by (unfold cv; destruct (decide (v = [])); by subst).
    assert (zlen v < 2 ^ 40) by (unfold cv in Hs; destruct (decide (v = [])); [subst; vm_compute; reflexivity|exact Hs]).
    assert (zlen (concat (map rlp (map tref (l ++ [cv])))) <= 2 ^ 42); [|pose proof (zlen_rlp_Lst (map tref (l ++ [cv]))); lia].
    rewrite !map_app, concat_app, zlen_app. cbn [map concat]. rewrite app_nil_r, Ev.
    pose proof (zlen_rlp_Str v). pose proof (zlen_refs l Hw). unfold zlen in *. lia.
Qed.

Lemma encs_bound r t : can t -> sized t -> Forall (fun e => zlen e < 2 ^ 64) (encs r t).
Proof.
  intros Hc. revert r. induction Hc as [k v Hk Hv|k cs Hne Hk Hf IH|cs Hl Hc IH Hv H2]; intros r Hs.
  - rewrite encs_short. cbn [encs]. rewrite app_nil_r. pose proof (enc_bound _ (can_leaf k v Hk Hv) Hs).
    by destruct (_ || _); repeat constructor.
  - rewrite encs_short. apply Forall_app. split; [|apply IH, Hs].
    pose proof (enc_bound _ (can_ext k cs Hne Hk Hf) Hs). by destruct (_ || _); repeat constructor.
  - rewrite encs_full. apply Forall_app. split.
    + pose proof (enc_bound _ (can_full cs Hl Hc Hv H2) Hs). by destruct (_ || _); repeat constructor.
    + apply Forall_concat, Forall_map, Forall_lookup. intros i c E. apply sized_full in Hs. rewrite Forall_lookup in Hs.
      destruct (TNil_dec c) as [->|Hn]; [by constructor|]. destruct (decide (i = 16%nat)) as [->|Hi].
      * destruct (Hv c E Hn) as (v & _ & ->). by constructor.
      * eapply IH; eauto.
Qed.

(** ** Databases that grow *)

Lemma stored_mono db db' r t : db ⊆ db' -> stored db r t -> stored db' r t.
Proof.
  intros Hd Hs. eapply Forall_impl; [exact Hs|]. intros e [E Hl]. split; [|done]. by eapply lookup_weaken.
Qed.

Lemma flag_ok_mono db db' r t fl : db ⊆ db' -> flag_ok db r t fl -> flag_ok db' r t fl.
Proof. intros Hd [Hh Hs]. split; [done|]. intros. eauto using stored_mono. Qed.

Lemma rep_mono db db' r n t : db ⊆ db' -> rep db r n t -> rep db' r n t.
Proof.
  intros Hd. revert r t. induction n as [|cs fl IH|k n fl IH|h|v] using node_ind'; intros r t R.
  - apply rep_NilN in R as ->. constructor.
  - inversion R as [| | |? ? ts ? HF Hfl|]; subst. constructor; [|by eapply flag_ok_mono].
    clear Hfl R. revert ts HF. induction IH as [|c cs Hc _ IHcs]; intros ts HF; inversion HF; subst; constructor; eauto.
  - inversion R; subst. constructor; [by apply IH|by eapply flag_ok_mono].
  - apply rep_hash_inv in R as (-> & Hn & Hb & Hs). constructor; try done. by eapply stored_mono.
  - apply rep_ValueN in R as ->. constructor.
Qed.

Section run.
(** The encodings that are met. *)
Variable E : list (list byte).
(** The database of a trie that is hashed without storing. *)
Variable base : database.

Definition cur (db : option database) : database := default base db.
(** When nodes are stored, no two encodings collide, and none with an entry of the database. *)
Definition no_collision : Prop := forall e e', e ∈ E -> e' ∈ E -> Keccak256 e = Keccak256 e' -> e = e'.
Definition compat (db : option database) : Prop :=
  match db with
  | None => True
  | Some w => no_collision /\ forall e x, e ∈ E -> w !! Keccak256 e = Some x -> x = e
  end.
(** What is added is added under digests. *)
Definition extends (w w' : database) : Prop :=
  w ⊆ w' /\ forall key x, w' !! key = Some x -> w !! key = Some x \/ exists e, key = Keccak256 e.
Definition grows (db db' : option database) : Prop :=
  match db, db' with None, None => True | Some w, Some w' => extends w w' | _, _ => False end.

#[local] Instance grows_po : PreOrder grows.
Proof.
  split; [intros [w|]; [|done]; split; [done|by left]|]. intros [w1|] [w2|] [w3|] H1 H2; try done. destruct H1 as [S1 N1], H2 as [S2 N2].
  split; [by etrans|]. intros key x Ex. destruct (N2 key x Ex) as [E2|]; [by apply N1|by right].
Qed.
Lemma grows_cur db db' : grows db db' -> cur db ⊆ cur db'.
Proof. destruct db, db'; try done. by intros []. Qed.

(** What a parent keeps of a node that stands for [t]. *)
Definition href (r : bool) (t : tree) (h : node) : Prop :=
  if r || big t then h = HashN (Keccak256 (enc t)) else items (node_value h) = [titem t] /\ h <> NilN.

Definition hashed_ok (db : option database) (r : bool) (t : tree) (x : res (node * node * option database)) : Prop :=
  exists h c db', x = Done (h, c, db') /\ grows db db' /\ compat db' /\ href r t h /\
                  rep (cur db') r c t /\ (is_Some db -> stored (cur db') r t).

Lemma href_items t h : can t -> href false t h -> items (node_value h) = [tref t] /\ h <> NilN.
Proof.
  unfold href, tref, ref_of. intros Hc. rewrite (can_node _ Hc). cbn [orb andb].
  change (32 <=? zlen (rlp (titem t))) with (big t). by destruct (big t); [intros ->|].
Qed.

Lemma put_ok db e :
  compat db -> e ∈ E -> zlen e < 2 ^ 64 ->
  let db' := <[Keccak256 e := e]> <$> db in
  grows db db' /\ compat db' /\ (is_Some db -> cur db' !! Keccak256 e = Some e).
Proof.
  intros Hc He Hl. destruct db as [w|]; [|cbn; split_and!; try done; by intros [? ?]].
  change (extends w (<[Keccak256 e := e]> w) /\ compat (Some (<[Keccak256 e := e]> w)) /\
          (is_Some (Some w) -> <[Keccak256 e := e]> w !! Keccak256 e = Some e)).
  destruct Hc as [Hno Hc]. split_and!.
  - split.
    + destruct (w !! Keccak256 e) as [x|] eqn:Ex; [|by apply insert_subseteq]. rewrite (Hc e x He Ex) in Ex. by rewrite (insert_id w).
    + intros key x Ex. destruct (decide (key = Keccak256 e)) as [->|]; [by right; exists e|]. rewrite lookup_insert_ne in Ex by done. by left.
  - split; [done|]. intros e' x He' Ex. destruct (decide (Keccak256 e = Keccak256 e')) as [Ek|Hne].
    + rewrite Ek, lookup_insert_eq in Ex. injection Ex as <-. by apply Hno.
    + rewrite lookup_insert_ne in Ex by done. by apply (Hc e').
  - intros _. apply lookup_insert_eq.
Qed.

Definition flags_of (n : node) : option nodeFlag :=
  match n with FullN _ fl | ShortN _ _ fl => Some fl | _ => None end.

Lemma encs_own r t : is_node t = true -> r || big t = true -> Forall (.∈ E) (encs r t) -> enc t ∈ E.
Proof.
  destruct t; try done; intros _ Hb; [rewrite encs_short|rewrite encs_full]; rewrite Hb;
    by intros [[? _]%Forall_cons _]%Forall_app.
Qed.

Lemma store_ok db r f t n fl :
  can t -> sized t -> flags_of n = Some fl -> hash_ok r t (f_hash fl) -> items (node_value n) = [titem t] ->
  Forall (.∈ E) (encs f t) -> compat db ->
  exists h db', store n db f = Done (h, db') /\ href f t h /\ grows db db' /\ compat db' /\
    (is_Some db -> f || big t = true -> cur db' !! Keccak256 (enc t) = Some (enc t)).
Proof.
  intros Hc Hs Hfl Hh Hi HE Hcp. pose proof (enc_bound t Hc Hs) as Hl.
  assert (store n db f = if f || big t then Done (HashN (Keccak256 (enc t)), <[Keccak256 (enc t) := enc t]> <$> db)
                         else Done (n, db)) as ->.
  { assert (store n db f = let! tmp := index (EncodeToBytes (node_value n)) in
      if (zlen tmp <? 32) && negb f then Done (n, db)
      else let hash := match f_hash fl with Some h => h | None => Keccak256 tmp end in
           Done (HashN hash, <[hash := tmp]> <$> db)) as ->
      by (destruct n; try done; injection Hfl as ->; cbn; by destruct (EncodeToBytes _)).
    rewrite (encode_node n (titem t) Hi Hl). cbn [index rbind]. change (rlp (titem t)) with (enc t).
    unfold big. destruct f; cbn [orb negb]; rewrite ?andb_false_r, ?andb_true_r.
    - destruct (f_hash fl) as [x|] eqn:Ex; [|done]. by destruct (Hh x eq_refl) as [-> _].
    - destruct (Z.ltb_spec (zlen (enc t)) 32), (Z.leb_spec 32 (zlen (enc t))); try done; try lia.
      destruct (f_hash fl) as [x|] eqn:Ex; [|done]. by destruct (Hh x eq_refl) as [-> _]. }
  unfold href. destruct (f || big t) eqn:Hb.
  - destruct (put_ok db (enc t) Hcp (encs_own f t (can_node _ Hc) Hb HE) Hl) as (Hg & Hc' & Hp).
    eexists _, _. split_and!; [done|done|done|done|]. auto.
  - exists n, db. split_and!; try done. by intros ->.
Qed.

Lemma stored_own w r t :
  is_node t = true -> can t -> sized t ->
  (r || big t = true -> w !! Keccak256 (enc t) = Some (enc t)) ->
  match t with TShort _ c => stored w false c | TFull cs => Forall (stored w false) cs | _ => True end -> stored w r t.
Proof.
  intros Hn Hc Hs Hw HC. pose proof (enc_bound t Hc Hs). unfold stored.
  destruct t as [| |k c|cs]; try done; [rewrite encs_short|rewrite encs_full]; apply Forall_app;
    (split; [destruct (r || big _) eqn:Hb; [|done]; constructor; [|done]; split; [by apply Hw|done]|]); [done|].
  by apply Forall_concat, Forall_map.
Qed.

(** *** The children *)

Definition hashes (f : node -> option database -> bool -> res (node * node * option database)) (n : node) : Prop :=
  forall db r t, rep (cur db) r n t -> can t -> sized t -> Forall (.∈ E) (encs r t) -> compat db ->
  hashed_ok db r t (f n db r).

(** A child slot after hashing: its reference, its cached copy and what is stored. *)
Lemma child_hash f db i n t :
  hashes f n -> rep (cur db) false n t -> wf (i =? 16)%nat t -> sized t -> (i < 17)%nat -> Forall (.∈ E) (encs false t) ->
  compat db ->
  exists h c db',
    match n with NilN => Done (ValueN [], NilN, db)
    | _ => if (i <? 16)%nat then f n db false else Done (n, n, db) end = Done (h, c, db') /\
    grows db db' /\ compat db' /\ items (node_value h) = [tref t] /\ rep (cur db') false c t /\
    (is_Some db -> stored (cur db') false t).
Proof.
  intros Hf R W Hs Hi HE Hcp. destruct (TNil_dec t) as [->|Hn].
  { apply rep_TNil in R as ->. exists (ValueN []), NilN, db. split_and!; try done; constructor. }
  destruct W as [|W]; [done|]. destruct (Nat.eqb_spec i 16) as [->|Hi16].
  - destruct W as (v & _ & ->). apply rep_TVal in R as ->. exists (ValueN v), (ValueN v), db.
    split_and!; try done; constructor.
  - destruct (Hf db false t R W Hs HE Hcp) as (h & c & db' & Ex & Hg & Hc' & Hr & Rc & Hst).
    exists h, c, db'. rewrite (proj2 (Nat.ltb_lt i 16)) by lia.
    assert (n <> NilN) by (intros ->; by apply rep_NilN in R).
    split_and!; try done; [by destruct n|]. by apply href_items.
Qed.

Lemma hash_children_ok f db i cs ts :
  Forall (hashes f) cs -> Forall2 (rep (cur db) false) cs ts -> (i + length ts <= 17)%nat ->
  (forall j t, ts !! j = Some t -> wf (i + j =? 16)%nat t /\ sized t /\ Forall (.∈ E) (encs false t)) ->
  compat db ->
  exists hs cs' db', hash_children f i cs db = Done (hs, cs', db') /\ grows db db' /\ compat db' /\
    flat_map items (map node_value hs) = map tref ts /\ Forall2 (rep (cur db') false) cs' ts /\
    (is_Some db -> Forall (stored (cur db') false) ts).
Proof.
  intros Hf HF. revert i db HF. induction Hf as [|n cs Hn _ IH] in ts |- *; intros i db HF Hl Hj Hcp.
  - inversion HF; subst. exists [], [], db. by split_and!.
  - inversion HF as [|? t ? ts' R HF']; subst. destruct (Hj 0%nat t eq_refl) as (W & Hs & HE). rewrite Nat.add_0_r in W.
    cbn [length] in Hl. destruct (child_hash f db i n t Hn R W Hs) as (h & c & db1 & Ex & Hg1 & Hc1 & Hi & Rc & Hst); [lia|done|done|].
    pose proof (grows_cur _ _ Hg1) as Hsub.
    destruct (IH ts' (S i) db1) as (hs & cs' & db2 & Ex2 & Hg2 & Hc2 & Hi2 & Rc2 & Hst2); [|lia| |done|].
    { eapply Forall2_impl; [exact HF'|]. intros. by eapply rep_mono. }
    { intros j t' Et. destruct (Hj (S j) t' Et) as (W' & ?). by rewrite Nat.add_succ_r in W'. }
    pose proof (grows_cur _ _ Hg2) as Hsub2.
    exists (h :: hs), (c :: cs'), db2. cbn [hash_children]. rewrite Ex. cbn [rbind]. rewrite Ex2.
    split_and!; [done|by etrans|done| | |].
    + cbn. by rewrite Hi, Hi2.
    + constructor; [by eapply rep_mono|done].
    + intros Hdb. constructor; [eapply stored_mono; eauto|]. apply Hst2.
      destruct db, db1; try done; by destruct Hdb.
Qed.

(** *** Collapsing one node *)

Definition kids_stored (w : database) (t : tree) : Prop :=
  match t with TShort _ c => stored w false c | TFull cs => Forall (stored w false) cs | _ => True end.
Definition cflag (fl : nodeFlag) (hashed : node) (st : bool) : nodeFlag :=
  mkFlag (match hashed with HashN h => Some h | _ => None end) (f_gen fl) (if st then false else f_dirty fl).

Definition collapsed_ok (db : option database) (r : bool) (t : tree) (fl : nodeFlag)
    (x : res (node * node * option database)) : Prop :=
  exists col cac db', x = Done (col, cac, db') /\ grows db db' /\ compat db' /\
    flags_of col = Some fl /\ items (node_value col) = [titem t] /\ (is_Some db -> kids_stored (cur db') t) /\
    (forall db2 hashed st, grows db' db2 -> flag_ok (cur db2) r t (cflag fl hashed st) ->
       rep (cur db2) r (set_cache cac hashed st) t).

Lemma collapse_short f db r k n c fl :
  hashes f n -> rep (cur db) r (ShortN k n fl) (TShort k c) -> can (TShort k c) -> sized (TShort k c) ->
  Forall (.∈ E) (encs r (TShort k c)) -> compat db ->
  collapsed_ok db r (TShort k c) fl (hashChildren_with f (ShortN k n fl) db).
Proof.
  intros Hf R Hc Hs HE Hcp. inversion R as [| |? ? ? ? ? Rn Hfl| |]; subst. rewrite encs_short in HE.
  apply Forall_app in HE as [_ HE]. destruct Hs as [Hk Hs].
  destruct (compact_ok k) as [Ek _]; [by inversion Hc; subst; [left|right]|].
  cbn [hashChildren_with]. rewrite Ek. cbn [index rbind].
  inversion Hc as [? v Hv Hne|? cs Hne Hn Hfu|]; subst.
  - apply rep_TVal in Rn as ->. eexists _, _, db. split; [done|]. split_and!; try done; [by constructor|].
    intros db2 hashed st Hg Hfl'. constructor; [constructor|done].
  - destruct (Hf db false _ Rn Hfu Hs HE Hcp) as (h & cc & db' & Ex & Hg & Hc' & Hr & Rc & Hst).
    destruct (href_items _ _ Hfu Hr) as [Hi Hnil].
    assert (match n with ValueN _ => Done (n, n, db) | _ => f n db false end = Done (h, cc, db')) as ->
      by (destruct n; try done; by apply rep_ValueN in Rn).
    cbn [rbind]. eexists _, _, db'. split; [done|]. split_and!; try done.
    + cbn [node_value items flat_map]. replace (match h with NilN => ValueN [] | _ => h end) with h by by destruct h.
      rewrite Hi. done.
    + intros db2 hashed st Hg2 Hfl'. constructor; [|done]. eapply rep_mono; [by apply grows_cur|done].
Qed.

Lemma collapse_full f db r cs ts fl :
  Forall (hashes f) cs -> rep (cur db) r (FullN cs fl) (TFull ts) -> can (TFull ts) -> sized (TFull ts) ->
  Forall (.∈ E) (encs r (TFull ts)) -> compat db ->
  collapsed_ok db r (TFull ts) fl (hashChildren_with f (FullN cs fl) db).
Proof.
  intros Hf R Hc Hs HE Hcp. inversion R as [| | |? ? ? ? HF Hfl|]; subst. rewrite encs_full in HE.
  apply Forall_app in HE as [_ HE]. rewrite Forall_concat, Forall_map, Forall_lookup in HE.
  apply sized_full in Hs. rewrite Forall_lookup in Hs. assert (length ts = 17%nat) as Hl by by inversion Hc.
  destruct (hash_children_ok f db 0 cs ts Hf HF) as (hs & cs' & db' & Ex & Hg & Hc' & Hi & Rc & Hst); [lia| |done|].
  { intros j t Et. split_and!; eauto. assert (j < 17)%nat by (apply lookup_lt_Some in Et; lia).
    rewrite <- (nidx_byte j) in Et by done. pose proof (can_full_slot _ _ _ Hc Et) as W. unfold is_term in W. cbn.
    destruct (Nat.eqb_spec j 16); [by subst|]. rewrite bool_decide_eq_false_2 in W; [done|].
    by rewrite <- nidx_term, nidx_byte. }
  cbn [hashChildren_with]. rewrite Ex. cbn [rbind]. eexists _, _, db'. split; [done|]. split_and!; try done.
  - cbn [node_value items]. by rewrite Hi.
  - intros db2 hashed st Hg2 Hfl'. constructor; [|done]. eapply Forall2_impl; [exact Rc|].
    intros. eapply rep_mono; [by apply grows_cur|done].
Qed.

Definition walk (x : res (node * node * option database)) (force : bool) : res (node * node * option database) :=
  let! (collapsed, cached, db) := x in
  let! (hashed, db) := store collapsed db force in
  Done (hashed, set_cache cached hashed (bool_decide (is_Some db)), db).

Lemma walk_ok db r t fl x :
  can t -> sized t -> flag_ok (cur db) r t fl -> Forall (.∈ E) (encs r t) -> collapsed_ok db r t fl x ->
  hashed_ok db r t (walk x r).
Proof.
  intros Hc Hs [Hh Hd] HE (col & cac & db1 & -> & Hg1 & Hc1 & Hfl & Hi & Hk & Hrep).
  unfold walk. cbn [rbind].
  destruct (store_ok db1 r r t col fl Hc Hs Hfl Hh Hi HE Hc1) as (h & db2 & -> & Hr & Hg2 & Hc2 & Hput). cbn [rbind].
  assert (is_Some db <-> is_Some db2) as Hsome
    by (destruct db, db1, db2; try done; split; intros [? ?]; done).
  assert (is_Some db -> stored (cur db2) r t) as Hst.
  { intros Hdb. pose proof (can_node _ Hc). apply stored_own; try done.
    - apply Hput. destruct db, db1; try done; by destruct Hdb.
    - specialize (Hk Hdb). pose proof (grows_cur _ _ Hg2) as Hsub. destruct t; try done; cbn in Hk |- *.
      + by eapply stored_mono.
      + eapply Forall_impl; [exact Hk|]. intros. by eapply stored_mono. }
  eexists h, _, db2. split; [done|]. split_and!; [by etrans|done|done| |done].
  apply Hrep; [done|]. split.
  - intros y Ey. unfold href in Hr. destruct (r || big t) eqn:Hb; [subst h; by injection Ey as <-|].
    destruct h; try done. cbn in Ey. destruct Hr as [Hr _]. pose proof (can_node _ Hc). by destruct t.
  - cbn. case_bool_decide as Hb; intros Hdirty; [by apply Hst, Hsome|].
    eapply stored_mono; [|by apply Hd]. etrans; by apply grows_cur.
Qed.

(** A cached hash is right: it is returned without walking the node when nothing is stored or
    the node is stored already. *)
Lemma cached_or_walk gen lim db r t n fl :
  flags_of n = Some fl -> rep (cur db) r n t -> can t -> flag_ok (cur db) r t fl -> compat db ->
  hashed_ok db r t (walk (hashChildren_with (hash gen lim) n db) r) -> hashed_ok db r t (hash gen lim n db r).
Proof.
  intros Hfl R Hc [Hh Hd] Hcp HW.
  assert (hash gen lim n db r = match f_hash fl with
    | Some h => match db with
                | None => Done (HashN h, n, db)
                | Some _ => if canUnload fl gen lim then Done (HashN h, HashN h, db)
                            else if negb (f_dirty fl) then Done (HashN h, n, db)
                            else walk (hashChildren_with (hash gen lim) n db) r
                end
    | None => walk (hashChildren_with (hash gen lim) n db) r end) as ->
    by (destruct n; try done; injection Hfl as ->; cbn; by destruct (f_hash fl)).
  destruct (f_hash fl) as [h|]; [|done]. destruct (Hh h eq_refl) as [-> Hb].
  assert (href r t (HashN (Keccak256 (enc t)))) as Hr by (unfold href; by rewrite Hb).
  destruct db as [w|].
  - unfold canUnload. destruct (f_dirty fl) eqn:Ed; [done|]. specialize (Hd eq_refl).
    cbn [negb andb]. destruct (_ >=? _); eexists _, _, (Some w); (split; [done|]); split_and!; try done.
    constructor; try done. by apply can_node.
  - eexists _, _, None. split; [done|]. by split_and!; [..|intros [? ?]].
Qed.

Lemma hash_hashes gen lim n : hashes (hash gen lim) n.
Proof.
  induction n as [|cs fl IH|k n fl IH|h|v] using node_ind'; intros db r t R Hc Hs HE Hcp.
  - apply rep_NilN in R as ->. inversion Hc.
  - inversion R as [| | |? ? ts ? HF Hfl|]; subst.
    apply (cached_or_walk gen lim db r (TFull ts) (FullN cs fl) fl); try done. apply (walk_ok _ _ _ fl); try done. by apply collapse_full.
  - inversion R as [| |? ? ? c ? Rn Hfl| |]; subst.
    apply (cached_or_walk gen lim db r (TShort k c) (ShortN k n fl) fl); try done. apply (walk_ok _ _ _ fl); try done. by apply collapse_short.
  - apply rep_hash_inv in R as (-> & Hn & Hb & Hst). eexists _, _, db. split; [done|]. split_and!; try done.
    + unfold href. by rewrite Hb.
    + by constructor.
  - apply rep_ValueN in R as ->. inversion Hc.
Qed.
End run.
End hash.
