(* ===== verification/TrieMerkle.v ===== *)
(** * Merkle proofs

    The elements of a proof are the stored encodings on the path to the key ([pf]).  [Prove]
    returns them, [VerifyProof] accepts them, and whatever else it accepts agrees with the
    content of the trie. *)

From S2P Require Import Prelude GoMath World Rlp RlpProofs RlpRaw.
Import Rlp.
From S2P Require Import Trie TrieFacts TrieCodec TrieOps TrieHash.
Import Trie.

Section merkle.
Context `{CryptoPrims}.

(** ** The path to a key *)

(** [f] at the child that [key] leads to, with what is left of the key. *)
Definition walk_from {A} (stop : A) (f : tree -> list byte -> A) (t : tree) (key : list byte) : A :=
  match t with
  | TNil | TVal _ => stop
  | TShort k c => match strip k key with Some r => f c r | None => stop end
  | TFull cs => match key with b :: key' => match cs !! nidx b with Some c => f c key' | None => stop end | [] => stop end
  end.

(** The encodings of the nodes on the path that have a database entry. *)
Fixpoint pf_fuel (fuel : nat) (r : bool) (t : tree) (key : list byte) : list (list byte) :=
  match fuel with
  | O => []
  | S fuel' =>
      (if is_node t && (r || big t) then [enc t] else []) ++ walk_from [] (pf_fuel fuel' false) t key
  end.
(** The key ends at a branch without a value. *)
Fixpoint dangling_fuel (fuel : nat) (t : tree) (key : list byte) : bool :=
  match fuel with
  | O => false
  | S fuel' =>
      match t, key with
      | TNil, [] => true
      | _, _ => walk_from false (dangling_fuel fuel') t key
      end
  end.
Definition pf (r : bool) (t : tree) (key : list byte) : list (list byte) := pf_fuel (S (length key)) r t key.
Definition dangling (t : tree) (key : list byte) : bool := dangling_fuel (S (length key)) t key.

(** One step along a key of a canonical tree. *)
Inductive descent (t : tree) (key : list byte) : option (tree * list byte) -> Prop :=
| step_stop : (forall A stop (f : _ -> _ -> A), walk_from stop f t key = stop) -> tget t key = None -> descent t key None
| step_go e c r :
    (forall A stop (f : _ -> _ -> A), walk_from stop f t key = f c r) -> tget t key = tget c r ->
    wf e c -> kok e r -> (length r < length key)%nat -> descent t key (Some (c, r)).

Lemma can_step t key : can t -> vkey key -> exists o, descent t key o.
Proof.
  intros Hc Hk. destruct t as [|v|k c|cs]; try by inversion Hc.
  - destruct (strip k key) as [r|] eqn:E.
    + exists (Some (c, r)). pose proof E as E'. apply strip_Some in E'. subst key.
      destruct (short_slot _ _ _ Hc Hk) as (Hl & e & W & K & _).
      apply (step_go _ _ e); try done; [intros; cbn; by rewrite E|by apply tget_short|rewrite length_app; lia].
    + exists None. constructor; [intros; cbn; by rewrite E|by apply tget_short_ne].
  - destruct key as [|b key]; [done|]. destruct (can_full_lookup cs b key Hc Hk) as (c & E & W & K).
    exists (Some (c, key)). apply (step_go _ _ (is_term b)); try done; [intros; cbn; by rewrite E|by rewrite tget_full, E|cbn; lia].
Qed.

(** The fuel of the walks does not matter. *)
Lemma pf_fuel_eq fuel r e t key : wf e t -> kok e key -> (length key < fuel)%nat -> pf_fuel fuel r t key = pf r t key.
Proof.
  unfold pf. intros W K Hf. remember (S (length key)) as fuel' eqn:Ef.
  assert (length key < fuel')%nat as Hf' by lia. clear Ef.
  revert fuel' r e t key W K Hf Hf'. induction fuel as [|fuel IH]; intros fuel' r e t key W K Hf Hf'; [lia|].
  destruct fuel' as [|fuel']; [lia|]. cbn [pf_fuel]. f_equal.
  destruct (is_node t) eqn:Hn; [|by destruct t]. destruct (wf_can _ _ W Hn) as [-> Hc].
  destruct (can_step t key Hc K) as [_ [HW _|e c r' HW _ We Ke Hl]]; rewrite !HW; [done|].
  apply (IH fuel' false e); done || lia.
Qed.
Lemma dangling_fuel_eq fuel e t key :
  wf e t -> kok e key -> (length key < fuel)%nat -> dangling_fuel fuel t key = dangling t key.
Proof.
  unfold dangling. intros W K Hf. remember (S (length key)) as fuel' eqn:Ef.
  assert (length key < fuel')%nat as Hf' by lia. clear Ef.
  revert fuel' e t key W K Hf Hf'. induction fuel as [|fuel IH]; intros fuel' e t key W K Hf Hf'; [lia|].
  destruct fuel' as [|fuel']; [lia|]. cbn [dangling_fuel].
  destruct (is_node t) eqn:Hn; [|by destruct t]. destruct (wf_can _ _ W Hn) as [-> Hc].
  assert (forall (x y : bool), match t, key with TNil, [] => x | _, _ => y end = y) as Hm by by destruct t.
  rewrite !Hm. destruct (can_step t key Hc K) as [_ [HW _|e c r' HW _ We Ke Hl]]; rewrite !HW; [done|].
  apply (IH fuel' e); done || lia.
Qed.

Lemma pf_step_stop r t key : can t -> vkey key -> descent t key None ->
  pf r t key = (if r || big t then [enc t] else []) /\ dangling t key = false /\ tget t key = None.
Proof.
  intros Hc Hk Hs. inversion Hs as [HW E|]; subst. unfold pf, dangling. cbn [pf_fuel dangling_fuel].
  rewrite (can_node _ Hc), !HW, app_nil_r. split_and!; try done. by destruct Hc; cbn in *.
Qed.
Lemma pf_step_go r t key e c r' :
  can t -> (forall A stop (f : _ -> _ -> A), walk_from stop f t key = f c r') -> wf e c -> kok e r' ->
  (length r' < length key)%nat ->
  pf r t key = (if r || big t then [enc t] else []) ++ pf false c r' /\ dangling t key = dangling c r'.
Proof.
  intros Hc HW We Ke Hl. unfold pf at 1, dangling at 1. cbn [pf_fuel dangling_fuel]. rewrite (can_node _ Hc), !HW. split.
  - by rewrite (pf_fuel_eq _ _ e).
  - rewrite (dangling_fuel_eq _ e) by done. by destruct Hc.
Qed.

(** ** [get] on a decoded node *)

Lemma get_step fuel hash gen t key :
  can t -> vkey key ->
  get (S fuel) (shallow hash gen t) key
  = walk_from (Done ([], NilN)) (fun c r => get fuel (sref gen c) r) t key.
Proof.
  intros Hc Hk. destruct key as [|b key]; [done|]. destruct t as [|v|k c|cs]; try by inversion Hc.
  - cbn [shallow get]. rewrite strip_test. unfold walk_from. destruct (strip k (b :: key)) as [r|] eqn:E; [|done].
    by rewrite <- (strip_drop _ _ _ E).
  - cbn [shallow get walk_from]. destruct (can_full_lookup cs b key Hc Hk) as (c & E & _). rewrite E.
    unfold child. fold (nidx b). by rewrite list_lookup_fmap, E.
Qed.

(** Where [get] stops: the value, nothing, or a large node with the rest of the key. *)
Inductive got (t : tree) (key : list byte) : res (list byte * node) -> Prop :=
| got_crash : dangling t key = true -> tget t key = None -> got t key Crash
| got_none k' : dangling t key = false -> tget t key = None -> pf false t key = [] -> got t key (Done (k', NilN))
| got_val k' v : dangling t key = false -> tget t key = Some v -> pf false t key = [] -> got t key (Done (k', ValueN v))
| got_hash c rest :
    can c -> big c = true -> vkey rest -> (length rest <= length key)%nat ->
    dangling t key = dangling c rest -> tget t key = tget c rest -> pf false t key = pf true c rest ->
    (forall e, e ∈ encs true c -> e ∈ encs false t) -> got t key (Done (rest, HashN (Keccak256 (enc c)))).

Lemma encs_walk r t key c r' :
  (forall A stop (f : _ -> _ -> A), walk_from stop f t key = f c r') -> forall e, e ∈ encs false c -> e ∈ encs r t.
Proof.
  intros HW e He. specialize (HW (option tree) None (fun c _ => Some c)).
  destruct t as [|v|k c0|cs]; cbn in HW; try done; [rewrite encs_short|rewrite encs_full]; apply elem_of_app; right.
  - destruct (strip k key); [by injection HW as ->|done].
  - destruct key as [|b key]; [done|]. destruct (cs !! nidx b) as [c0|] eqn:E; [|done]. injection HW as ->.
    apply list_elem_of_In, in_concat. exists (encs false c). split; [|by apply list_elem_of_In].
    apply in_map, list_elem_of_In. by eapply list_elem_of_lookup_2.
Qed.

Lemma encs_true t e : e ∈ encs false t -> e ∈ encs true t.
Proof.
  destruct t; [done|done|rewrite !encs_short|rewrite !encs_full]; rewrite !elem_of_app; cbn [orb];
    (intros [He|He]; [left|by right]); by destruct (big _); [|apply elem_of_nil in He].
Qed.
Lemma encs_big r c : big c = true -> encs true c = encs r c.
Proof. intros Hb. destruct c; try done; [rewrite !encs_short|rewrite !encs_full]; by rewrite Hb, !orb_true_r. Qed.
Lemma pf_big c key : big c = true -> pf true c key = pf false c key.
Proof. intros Hb. unfold pf. cbn [pf_fuel]. by rewrite Hb. Qed.

Lemma get_sref fuel gen e t key :
  wf e t -> kok e key -> (length key <= fuel)%nat -> got t key (get fuel (sref gen t) key).
Proof.
  revert e t key. induction fuel as [|fuel IH]; intros e t key W K Hf.
  all: destruct (TNil_dec t) as [->|Hn]; [destruct e; cbn in K; [subst key; by constructor|]|destruct W as [|W]; [done|]; destruct e].
  - destruct key; [done|cbn in Hf; lia].
  - destruct W as (v & _ & ->). cbn in K. subst key. by constructor.
  - destruct key; [done|cbn in Hf; lia].
  - destruct key; [done|]. by constructor.
  - destruct W as (v & _ & ->). cbn in K. subst key. by constructor.
  - cbn in W, K. unfold sref. rewrite (can_node _ W). cbn [andb]. destruct (big t) eqn:Hb.
    { destruct key as [|b key]; [done|]. cbn [get]. constructor; try done; [by rewrite pf_big|]. intros e He. by rewrite <- encs_big. }
    rewrite get_step by done. destruct (can_step t key W K) as [o Hs]. destruct Hs as [HW E|e c r HW E We Ke Hl].
    + rewrite HW. destruct (pf_step_stop false t key W K) as (Ep & Ed & _); [by constructor|]. rewrite Hb in Ep. by constructor.
    + rewrite HW. destruct (pf_step_go false t key e c r W HW We Ke Hl) as [Ep Ed]. rewrite Hb in Ep. cbn [app orb] in Ep.
      pose proof (encs_walk false t key c r HW) as Hin.
      destruct (IH e c r We Ke) as [D G|k' D G P|k' v D G P|c' rest Hc' Hb' Hr Hlr D G P Hi]; [lia|..].
      * apply got_crash; congruence.
      * apply got_none; congruence.
      * apply got_val; congruence.
      * apply got_hash; try done; [lia|congruence..|]. intros. by apply Hin, Hi.
Qed.

(** One round of the verifier: the node that decodes from [enc t]. *)
Lemma get_root hash gen t key fuel :
  can t -> vkey key -> (length key < fuel)%nat ->
  exists x, get fuel (shallow hash gen t) key = x /\
    match x with
    | Crash => dangling t key = true
    | Done (_, NilN) => dangling t key = false /\ tget t key = None /\ pf true t key = [enc t]
    | Done (_, ValueN v) => dangling t key = false /\ tget t key = Some v /\ pf true t key = [enc t]
    | Done (rest, HashN h) =>
        exists c, h = Keccak256 (enc c) /\ can c /\ vkey rest /\ (length rest < length key)%nat /\
                  dangling t key = dangling c rest /\ tget t key = tget c rest /\
                  pf true t key = enc t :: pf true c rest /\ (forall e, e ∈ encs true c -> e ∈ encs true t)
    | _ => False
    end.
Proof.
  intros Hc Hk Hf. eexists. split; [done|]. destruct fuel as [|fuel]; [lia|]. rewrite get_step by done.
  destruct (can_step t key Hc Hk) as [o Hs]. destruct Hs as [HW E|e c r HW E We Ke Hl]; rewrite HW.
  - destruct (pf_step_stop true t key Hc Hk) as (Ep & Ed & _); [by constructor|]. done.
  - destruct (pf_step_go true t key e c r Hc HW We Ke Hl) as [Ep Ed]. cbn [orb app] in Ep.
    pose proof (encs_walk true t key c r HW) as Hin.
    destruct (get_sref fuel gen e c r We Ke) as [D G|k' D G P|k' v D G P|c' rest Hc' Hb' Hr Hlr D G P Hi]; [lia|..].
    + congruence.
    + split_and!; congruence.
    + split_and!; congruence.
    + exists c'. split_and!; try done; [lia|congruence..|]. intros. by apply Hin, Hi.
Qed.

(** ** The verifier *)

Lemma own_enc t : can t -> enc t ∈ encs true t.
Proof. by destruct 1; [rewrite encs_short|rewrite encs_short|rewrite encs_full]; left. Qed.

Lemma verify_sound proof t key o :
  can t -> vkey key -> Forall (fun e => zlen e < 2 ^ 64) (encs true t) ->
  (forall x e, x ∈ proof -> e ∈ encs true t -> Keccak256 x = Keccak256 e -> x = e) ->
  verify_loop proof (Keccak256 (enc t)) key = Done o -> o = tget t key.
Proof.
  revert t key. induction proof as [|buf proof IH]; intros t key Hc Hk Hb Hcol; [done|]. cbn [verify_loop].
  pose proof (own_enc t Hc) as Hin.
  case_bool_decide as Ek; [|done]. cbn [negb]. rewrite (Hcol buf (enc t)) by (done || left). rewrite Forall_forall in Hb.
  rewrite decodeNode_ok by (done || by apply Hb). cbn [rbind].
  destruct (get_root (Some (Keccak256 (enc t))) 0 t key (S (length (enc t) + length key)) Hc Hk) as (x & -> & Hx); [lia|].
  destruct x as [[rest cld]|h| | |]; try done. cbn [rbind]. destruct cld as [|cs fl|k n fl|h|v]; try done.
  - destruct Hx as (_ & -> & _). destruct proof; [by intros [= <-]|done].
  - destruct Hx as (c & -> & Hcc & Hr & _ & _ & -> & _ & Hi). apply IH; try done.
    + apply Forall_forall. auto.
    + intros x e Hx He. apply Hcol; [by right|auto].
  - destruct Hx as (_ & -> & _). destruct proof; [by intros [= <-]|done].
Qed.

Lemma verify_complete t key :
  can t -> vkey key -> Forall (fun e => zlen e < 2 ^ 64) (encs true t) ->
  verify_loop (pf true t key) (Keccak256 (enc t)) key = if dangling t key then Crash else Done (tget t key).
Proof.
  remember (length key) as n eqn:En. revert t key En. induction n as [n IH] using lt_wf_ind. intros t key -> Hc Hk Hb.
  pose proof (own_enc t Hc) as Hin.
  assert (exists tl, pf true t key = enc t :: tl) as [tl Etl] by (unfold pf; cbn [pf_fuel]; rewrite (can_node _ Hc); eauto).
  rewrite Etl. cbn [verify_loop]. rewrite bool_decide_eq_true_2 by done. cbn [negb]. rewrite Forall_forall in Hb.
  rewrite decodeNode_ok by (done || by apply Hb). cbn [rbind].
  destruct (get_root (Some (Keccak256 (enc t))) 0 t key (S (length (enc t) + length key)) Hc Hk) as (x & -> & Hx); [lia|].
  destruct x as [[rest cld]|h| | |]; try done; cbn [rbind]; [|by rewrite Hx]. destruct cld as [|cs fl|k n fl|h|v]; try done.
  - destruct Hx as (-> & -> & E). rewrite Etl in E. by injection E as ->.
  - destruct Hx as (c & -> & Hcc & Hr & Hl & -> & -> & E & Hi). rewrite Etl in E. injection E as ->.
    apply (IH (length rest)); try done. apply Forall_forall. auto.
  - destruct Hx as (-> & -> & E). rewrite Etl in E. by injection E as ->.
Qed.

(** ** The prover *)

Lemma node_elem db r n t fl :
  rep db r n t -> flags_of n = Some fl -> can t -> sized t ->
  exists col cac h, hashChildren 0 0 n None = Done (col, cac, None) /\ store col None false = Done (h, None) /\
    (match h with HashN _ => true | _ => false end) = big t /\ EncodeToBytes (node_value col) = Some (enc t).
Proof.
  intros R Hfl Hc Hs.
  assert (Forall (.∈ encs r t) (encs r t)) as HE by (apply Forall_forall; auto).
  assert (Forall (.∈ encs r t) (encs false t)) as HE'.
  { apply Forall_forall. intros e He. destruct r; [by apply encs_true|done]. }
  assert (collapsed_ok (encs r t) db None r t fl (hashChildren 0 0 n None)) as
    (col & cac & [w|] & Ex & Hg & Hcp & Hf & Hi & _ & _); [|done|].
  { inversion R as [| |? k m c ? Rm Hfl'|? cs ts ? HF Hfl'|]; subst; try done; injection Hfl as <-.
    - apply collapse_short; try done. apply hash_hashes.
    - apply collapse_full; try done. apply Forall_true. intros. apply hash_hashes. }
  assert (hash_ok r t (f_hash fl)) as Hh by (inversion R as [| |? ? ? ? ? ? [Hh _]|? ? ? ? ? [Hh _]|]; subst; try done; injection Hfl as <-; done).
  destruct (store_ok (encs r t) db None r false t col fl Hc Hs Hf Hh Hi HE' Hcp) as (h & [w|] & Es & Hr & Hg' & _ & _); [done|].
  exists col, cac, h. split_and!; try done.
  - unfold href in Hr. cbn [orb] in Hr. destruct (big t); [by subst h|]. destruct Hr as [Hr _].
    destruct h; try done. pose proof (can_node _ Hc). by destruct t.
  - apply encode_node; [done|]. by apply enc_bound.
Qed.

Lemma prove_nodes_cons db r n t fl i ns tl :
  rep db r n t -> flags_of n = Some fl -> can t -> sized t -> (forall i, prove_nodes (S i) ns = Done tl) ->
  prove_nodes i (n :: ns) = Done ((if (i =? 0)%nat || big t then [enc t] else []) ++ tl).
Proof.
  intros R Hfl Hc Hs IH. destruct (node_elem db r n t fl R Hfl Hc Hs) as (col & cac & h & E1 & E2 & E3 & E4).
  cbn [prove_nodes]. rewrite E1. cbn [rbind]. rewrite E2. cbn [rbind]. rewrite E3, IH, E4. cbn [rbind].
  rewrite orb_comm. by destruct (_ || _).
Qed.

Lemma sized_walk t key c r :
  sized t -> (forall A stop (f : _ -> _ -> A), walk_from stop f t key = f c r) -> sized c.
Proof.
  intros Hs HW. specialize (HW (option tree) None (fun c _ => Some c)). destruct t as [|v|k c0|cs]; try done; cbn in HW.
  - destruct Hs as [_ Hs]. destruct (strip k key); [by injection HW as ->|done].
  - destruct key as [|b key]; [done|]. destruct (cs !! nidx b) as [c0|] eqn:E; [|done]. injection HW as ->.
    apply sized_full in Hs. rewrite Forall_lookup in Hs. eauto.
Qed.

Lemma prove_path_step T fuel r n t key fl :
  rep (rdb T) r n t -> flags_of n = Some fl -> can t -> vkey key ->
  exists m,
    prove_path (S fuel) T n key
    = (let! ns := walk_from (prove_path fuel T NilN key) (fun _ r => prove_path fuel T m r) t key in Done (n :: ns)) /\
    forall c r', (forall A stop (f : _ -> _ -> A), walk_from stop f t key = f c r') -> rep (rdb T) false m c.
Proof.
  intros R Hfl Hc Hk. destruct key as [|b key]; [done|].
  inversion R as [| |? k m c ? Rm Hfl'|? cs ts ? HF Hfl'|]; subst; try done.
  - exists m. split.
    + cbn [prove_path]. rewrite strip_test. unfold walk_from. destruct (strip k (b :: key)) as [r'|] eqn:E; [|done].
      by rewrite <- (strip_drop _ _ _ E).
    + intros c' r' HW. specialize (HW (option tree) None (fun c _ => Some c)). cbn in HW.
      destruct k as [|x k]; cbn in HW; [by injection HW as <-|]. case_bool_decide; [|done].
      destruct (strip k key); [by injection HW as <-|done].
  - destruct (can_full_lookup ts b key Hc Hk) as (c & E & _). destruct (rep_child _ _ _ _ _ HF E) as (m & Em & Rm).
    exists m. split.
    + cbn [prove_path walk_from]. by rewrite Em, E.
    + intros c' r' HW. specialize (HW (option tree) None (fun c _ => Some c)). cbn in HW. rewrite E in HW. by injection HW as <-.
Qed.

Lemma prove_ok T fuel e r n t key :
  rep (rdb T) r n t -> wf e t -> kok e key -> sized t -> (cost n key <= fuel)%nat ->
  exists ns, prove_path fuel T n key = Done ns /\ forall i, prove_nodes i ns = Done (pf (i =? 0)%nat t key).
Proof.
  revert e r n t key. induction fuel as [|fuel IH]; intros e r n t key R W K Hs Hf.
  { pose proof (cost_le n key). lia. }
  destruct (is_node t) eqn:Hn.
  2: { exists []. split; [|by destruct t]. destruct t as [|v| |]; try done; [apply rep_TNil in R as ->; by destruct key|].
       apply rep_TVal in R as ->. destruct W as [|W]; [done|]. destruct e; [by cbn in K; subst key|inversion W]. }
  destruct (wf_can _ _ W Hn) as [-> Hc]. cbn in K. destruct (flags_of n) as [fl|] eqn:Hfl.
  - destruct (prove_path_step T fuel r n t key fl R Hfl Hc K) as (m & Em & Rm). rewrite Em.
    assert (loaded n) as Hl by by destruct n.
    destruct (can_step t key Hc K) as [o Ho]. destruct Ho as [HW E|e c r' HW E We Ke Hlt].
    + rewrite HW. exists [n]. split; [by destruct key, fuel|]. intros i. destruct (pf_step_stop (i =? 0)%nat t key Hc K) as [-> _]; [by constructor|].
      rewrite (prove_nodes_cons (rdb T) r n t fl i [] []) by done. by rewrite app_nil_r.
    + rewrite HW. destruct (IH e false m c r' (Rm c r' HW) We Ke (sized_walk _ _ _ _ Hs HW)) as (ns & En & Hp).
      { pose proof (cost_le m r'). rewrite cost_loaded in Hf by done. lia. }
      rewrite En. exists (n :: ns). split; [done|]. intros i.
      destruct (pf_step_go (i =? 0)%nat t key e c r' Hc HW We Ke Hlt) as [-> _].
      by eapply prove_nodes_cons; [..|intros j; apply (Hp (S j))].
  - destruct n as [|cs fl|k m fl|h|v]; try done.
    { by apply rep_NilN in R as ->. }
    2: { by apply rep_ValueN in R as ->. }
    destruct (resolve_ok _ _ _ _ R Hc) as (m & Em & Rm & Lm).
    destruct (IH false r m t key Rm W K Hs) as (ns & En & Hp); [rewrite cost_loaded by done; rewrite cost_hash in Hf; lia|].
    exists ns. split; [|done]. destruct key as [|b key]; [done|]. cbn [prove_path]. by rewrite Em.
Qed.
End merkle.
