(* ===== verification/TrieSpec.v ===== *)
(** * Tries as finite maps

    [holds T m]: the trie [T] over its database stands for the finite map [m].  [canon m] is
    the one canonical tree with the content [m], and [root_of m] the root hash it has. *)

From S2P Require Import Prelude GoMath World Rlp RlpProofs RlpRaw.
From S2P Require Import Trie TrieFacts TrieCodec TrieOps TrieHash TrieMerkle.
Import Trie.

Section spec.
Context `{CryptoPrims}.

Definition content (t : tree) (m : database) : Prop :=
  forall key v, vkey key -> tget t key = Some v <-> exists b, key = keybytesToHex b /\ m !! b = Some v.

Definition holds (T : Trie) (m : database) : Prop :=
  exists t, wf false t /\ rep (rdb T) true (t_root T) t /\ content t m.

(** Keys and values below [2 ^ 32] bytes. *)
Definition small (m : database) : Prop := map_Forall (fun k v => zlen k < 2 ^ 32 /\ zlen v < 2 ^ 32) m.

(** The canonical tree of a map, by inserting its entries into an empty trie. *)
Fixpoint erase (n : node) : tree :=
  match n with
  | NilN | HashN _ => TNil
  | ValueN v => TVal v
  | ShortN k c _ => TShort k (erase c)
  | FullN cs _ => TFull (map erase cs)
  end.
Definition empty_trie : Trie := mkTrie NilN None 0 0 0.
Definition build_from (T0 : Trie) (l : list (list byte * list byte)) : res Trie :=
  foldr (fun kv x => let! T := x in TryUpdate T kv.1 kv.2) (Done T0) l.
Definition build : list (list byte * list byte) -> res Trie := build_from empty_trie.
Definition canon (m : database) : tree :=
  match build (map_to_list m) with Done T => erase (t_root T) | _ => TNil end.
Definition root_of (m : database) : GoMath.Hash :=
  if decide (m = ∅) then emptyRoot else BytesToHash (Keccak256 (enc (canon m))).

(** ** Content *)

Lemma content_get t m b : content t m -> tget t (keybytesToHex b) = m !! b.
Proof.
  intros HC. destruct (m !! b) as [v|] eqn:E.
  - apply HC; [apply keybytesToHex_vkey|eauto].
  - destruct (tget t (keybytesToHex b)) as [v|] eqn:E'; [|done].
    apply HC in E' as (b' & Eb & Em); [|apply keybytesToHex_vkey]. apply keybytesToHex_inj in Eb as <-. congruence.
Qed.

Lemma content_empty : content TNil ∅.
Proof. intros key v _. split; [done|]. intros (b & _ & E). by rewrite lookup_empty in E. Qed.

Lemma content_changed t m b ov t' :
  content t m -> changed false t (keybytesToHex b) ov t' -> content t' (partial_alter (fun _ => ov) b m).
Proof.
  intros HC [_ HC'] key v Hk. rewrite HC' by done. case_decide as E.
  - subst key. split.
    + intros ->. exists b. by rewrite lookup_partial_alter_eq.
    + intros (b' & Eb & Em). apply keybytesToHex_inj in Eb as <-. by rewrite lookup_partial_alter_eq in Em.
  - rewrite (HC key v Hk). split; intros (b' & -> & Em); exists b'; (split; [done|]).
    + rewrite lookup_partial_alter_ne; [done|]. by intros ->.
    + rewrite lookup_partial_alter_ne in Em; [done|]. by intros ->.
Qed.

Lemma content_same t t' m : content t m -> content t' m -> same t t'.
Proof.
  intros HC HC' key Hk. destruct (tget t' key) as [v|] eqn:E'.
  - apply HC; [done|]. by apply HC'.
  - destruct (tget t key) as [v|] eqn:E; [|done]. apply HC in E; [|done]. apply HC' in E; [|done]. congruence.
Qed.

Lemma content_unique t t' m : wf false t -> wf false t' -> content t m -> content t' m -> t = t'.
Proof.
  intros W W' HC HC'. eapply (same_slot false); try done; [by eapply content_same|]. apply can_unique.
Qed.

Lemma wf_values e t key v : wf e t -> kok e key -> tget t key = Some v -> v <> [].
Proof.
  remember (length key) as n eqn:En. revert e t key En. induction n as [n IH] using lt_wf_ind. intros e t key -> W K E.
  destruct W as [->|W]; [done|]. destruct e; [destruct W as (v' & Hv & ->); by injection E as <-|].
  destruct (can_step t key W K) as [o Ho]. destruct Ho as [_ E'|e c r _ E' We Ke Hl]; [congruence|].
  rewrite E' in E. by eapply (IH (length r)).
Qed.

Lemma holds_values T m : holds T m -> map_Forall (fun _ v => v <> []) m.
Proof.
  intros (t & W & _ & HC) b v E. rewrite <- (content_get t m b HC) in E.
  eapply wf_values; [exact W| |exact E]. apply keybytesToHex_vkey.
Qed.

Lemma wf_empty t m : wf false t -> content t m -> t = TNil <-> m = ∅.
Proof.
  intros W HC. split; intros ->.
  - apply map_eq. intros b. rewrite <- (content_get _ _ b HC), lookup_empty. done.
  - destruct W as [|W]; [done|]. destruct (can_has t W) as (key & Hk & [v E]). apply HC in E as (b & _ & E); [|done].
    by rewrite lookup_empty in E.
Qed.

(** ** The operations *)

Lemma TryGet_holds T m k :
  holds T m -> exists T', TryGet T k = Done (m !! k, T') /\ holds T' m /\ t_db T' = t_db T.
Proof.
  intros (t & W & R & HC). pose proof (keybytesToHex_vkey k) as Hk.
  destruct (tryGet_ok T (op_fuel (keybytesToHex k)) false true (t_root T) t (keybytesToHex k) 0 R W)
    as (n' & d & E & R').
  { by rewrite drop_0. }
  { rewrite drop_0. pose proof (cost_le (t_root T) (keybytesToHex k)). unfold op_fuel. lia. }
  unfold TryGet. rewrite E, drop_0, (content_get _ _ _ HC). cbn [rbind]. eexists. split; [done|].
  destruct d; [|split; [by exists t|done]]. split; [|done]. by exists t.
Qed.

Lemma TryUpdate_holds T m k v :
  holds T m -> v <> [] ->
  exists T', TryUpdate T k v = Done T' /\ holds T' (<[k := v]> m) /\ t_db T' = t_db T.
Proof.
  intros (t & W & R & HC) Hv. pose proof (keybytesToHex_vkey k) as Hk. unfold TryUpdate.
  destruct (Z.eqb_spec (zlen v) 0) as [E0|_]; [destruct v; [done|unfold zlen in E0; cbn in E0; lia]|]. cbn [negb].
  destruct (insert_ok T (op_fuel (keybytesToHex k)) false true (t_root T) t (keybytesToHex k) v R W Hk Hv)
    as (d & n' & t' & -> & R' & HC' & _).
  { pose proof (cost_le (t_root T) (keybytesToHex k)). unfold op_fuel. lia. }
  cbn [rbind]. eexists. split; [done|]. split; [|done]. exists t'. destruct HC' as [W' HC'].
  split_and!; try done. by eapply (content_changed t m k (Some v)).
Qed.

Lemma TryDelete_holds T m k :
  holds T m -> exists T', TryDelete T k = Done T' /\ holds T' (base.delete k m) /\ t_db T' = t_db T.
Proof.
  intros (t & W & R & HC). pose proof (keybytesToHex_vkey k) as Hk. unfold TryDelete.
  destruct (delete_ok T (op_fuel (keybytesToHex k)) false true (t_root T) t (keybytesToHex k) R W Hk)
    as (d & n' & t' & -> & R' & HC' & _).
  { pose proof (cost_le (t_root T) (keybytesToHex k)). unfold op_fuel. lia. }
  cbn [rbind]. eexists. split; [done|]. split; [|done]. exists t'. destruct HC' as [W' HC'].
  split_and!; try done. by eapply (content_changed t m k None).
Qed.

(** ** The canonical tree *)

Lemma holds_empty db o g l : holds (mkTrie NilN db o g l) ∅.
Proof. exists TNil. split_and!; [by left|constructor|apply content_empty]. Qed.

Lemma rep_erase r n t : rep ∅ r n t -> erase n = t.
Proof.
  revert r t. induction n as [|cs fl IH|k n fl IH|h|v] using node_ind'; intros r t R.
  - by apply rep_NilN in R.
  - inversion R as [| | |? ? ts ? HF Hfl|]; subst. cbn. f_equal. clear R Hfl. revert ts HF.
    induction IH as [|c cs Hc _ IHcs]; intros ts HF; inversion HF; subst; [done|]. cbn. f_equal; eauto.
  - inversion R; subst. cbn. f_equal. eauto.
  - apply rep_hash_inv in R as (-> & Hn & Hb & Hs). destruct (stored_self _ _ _ Hn Hb Hs) as [E _]. by rewrite lookup_empty in E.
  - by apply rep_ValueN in R.
Qed.

Lemma build_list T0 l :
  holds T0 ∅ -> Forall (fun kv => kv.2 <> []) l ->
  exists T, build_from T0 l = Done T /\ holds T (list_to_map l) /\ t_db T = t_db T0.
Proof.
  intros H0. induction 1 as [|[k v] l Hv HF (T & E & HT & Hdb)]; [by exists T0|].
  cbn [build_from foldr]. fold (build_from T0 l). rewrite E. cbn [rbind fst snd].
  destruct (TryUpdate_holds T _ k v HT Hv) as (T' & -> & HT' & Hdb'). exists T'. split_and!; [done|done|congruence].
Qed.
Lemma build_holds m :
  map_Forall (fun _ v => v <> []) m -> exists T, build (map_to_list m) = Done T /\ holds T m /\ t_db T = None.
Proof.
  intros Hm. destruct (build_list empty_trie (map_to_list m)) as (T & E & HT & Hdb).
  - apply holds_empty.
  - apply Forall_forall. intros [k v] Hin%elem_of_map_to_list. by apply (Hm k v).
  - rewrite list_to_map_to_list in HT. eauto.
Qed.

Lemma canon_ok m : map_Forall (fun _ v => v <> []) m -> wf false (canon m) /\ content (canon m) m.
Proof.
  intros (T & E & (t & W & R & HC) & Hdb)%build_holds. unfold canon. rewrite E.
  unfold rdb in R. rewrite Hdb in R. by rewrite (rep_erase _ _ _ R).
Qed.

Lemma holds_canon T m :
  holds T m -> wf false (canon m) /\ rep (rdb T) true (t_root T) (canon m) /\ content (canon m) m.
Proof.
  intros HT. pose proof (holds_values _ _ HT) as Hv. destruct HT as (t & W & R & HC).
  destruct (canon_ok m Hv) as [W' HC']. by rewrite <- (content_unique t (canon m) m).
Qed.

Lemma canon_can T m : holds T m -> m <> ∅ -> can (canon m).
Proof.
  intros (W & _ & HC)%holds_canon Hne. destruct W as [E|W]; [|done]. by apply (wf_empty _ m) in E; [|left|].
Qed.

Lemma canon_sized T m : holds T m -> small m -> sized (canon m).
Proof.
  intros HT Hs. destruct (decide (m = ∅)) as [->|Hne]; [vm_compute; done|].
  apply content_sized; [by eapply canon_can|]. intros key v Hk E.
  destruct (holds_canon T m HT) as (_ & _ & HC). apply HC in E as (b & -> & E); [|done].
  destruct (Hs b v E) as [H1 H2]. unfold zlen in *. rewrite keybytesToHex_length. lia.
Qed.
End spec.
