(* ===== verification/TrieThms.v ===== *)
(** * Properties of the Merkle trie

    A trie behaves as a finite map; its root hash depends on the content alone and, short of
    a collision, determines it; committing and reopening loses nothing; a Merkle proof that
    verifies tells the truth, and the proofs that are made verify. *)

From S2P Require Import Prelude GoMath World Rlp RlpProofs RlpRaw Demo.
From S2P Require Import Trie TrieFacts TrieCodec TrieOps TrieHash TrieMerkle TrieSpec.
Import Trie.

(** Three keys, one a prefix of another, and a value that makes its node large. *)
Definition demo_list : list (list byte * list byte) :=
  [(bs [0x61; 0x62], replicate 40 Byte.x07); (bs [0x61; 0x72], bs [1; 2]); (bs [0x61; 0x72; 3], bs [1; 3])].
Definition demo_map : gmap (list byte) (list byte) := list_to_map demo_list.
(** The trie of these entries over an empty database. *)
Definition demo_start : Trie := mkTrie NilN (Some ∅) 0 0 0.
Definition demo_trie : Trie := match build_from demo_start demo_list with Done T => T | _ => demo_start end.

Lemma demo_holds `{CryptoPrims} : holds demo_trie demo_map /\ t_db demo_trie = Some ∅.
Proof.
  destruct (build_list demo_start demo_list) as (T & E & HT & Hdb); [apply holds_empty|by repeat constructor|].
  unfold demo_trie. rewrite E. auto.
Qed.
Lemma demo_small : small demo_map.
Proof. unfold small. apply (bool_decide_unpack _). vm_compute. exact I. Qed.
Lemma demo_nonempty : demo_map <> ∅.
Proof. apply (bool_decide_unpack _). vm_compute. exact I. Qed.

(** No collisions, by comparing all pairs. *)
Definition no_collisionb `{CryptoPrims} (X E : list (list byte)) : bool :=
  forallb (fun x => forallb (fun e => negb (bool_decide (Keccak256 x = Keccak256 e)) || bool_decide (x = e)) E) X.
Lemma no_collisionb_ok `{CryptoPrims} X E :
  no_collisionb X E = true -> forall x e, x ∈ X -> e ∈ E -> Keccak256 x = Keccak256 e -> x = e.
Proof.
  unfold no_collisionb. rewrite forallb_forall. intros HX x e Hx%list_elem_of_In He%list_elem_of_In Ek.
  specialize (HX x Hx). rewrite forallb_forall in HX. specialize (HX e He).
  apply orb_true_iff in HX as [HX|HX]; [|by apply bool_decide_eq_true in HX].
  apply negb_true_iff, bool_decide_eq_false in HX. done.
Qed.

Module TrieThms.

(** The table of the digests of [E]. *)
Definition table (f : list byte -> list byte) (E : list (list byte)) : gmap (list byte) (list byte) :=
  list_to_map (map (fun e => (f e, e)) E).
Lemma table_lookup f E e :
  (forall e e', e ∈ E -> e' ∈ E -> f e = f e' -> e = e') -> e ∈ E -> table f E !! f e = Some e.
Proof.
  intros Hno He. induction E as [|x E IH]; [by apply elem_of_nil in He|]. unfold table. cbn [map list_to_map foldr fst snd].
  destruct (decide (f x = f e)) as [Ef|Hne].
  - rewrite (Hno x e) by (done || left). apply lookup_insert_eq.
  - rewrite lookup_insert_ne by done. apply elem_of_cons in He as [->|He]; [done|]. apply IH; [|done].
    intros y z Hy Hz. apply Hno; by right.
Qed.

Section thms.
Context `{CryptoPrims}.

Lemma hash_bytes e : be_bytes 32 (BytesToHash (Keccak256 e)) = Keccak256 e.
Proof.
  unfold BytesToHash. rewrite setArray_spec, be_bytes_mod. unfold Keccak256.
  rewrite <- (be_bytes_SetBytes (be_bytes 32 (Keccak256Hash e))) at 2. by rewrite length_be_bytes.
Qed.

(** What is assumed of the digest on the nodes of a trie with content [m]: no two of their
    encodings have one hash, none has the hash of another entry of the database, and the root
    hash is not one of the two that stand for the empty trie. *)
Definition collision_free (db : database) (m : database) : Prop :=
  compat (encs true (canon m)) (Some db) /\ (m <> ∅ -> root_of m <> 0 /\ root_of m <> emptyRoot).

Lemma hashRoot_ok T m db :
  holds T m -> m <> ∅ -> small m -> (db = None \/ exists w, db = Some w /\ rdb T ⊆ w) ->
  compat (encs true (canon m)) db ->
  exists c db', hashRoot T db = Done (HashN (Keccak256 (enc (canon m))), c, db') /\
    grows db db' /\ rep (cur (rdb T) db') true c (canon m) /\ (is_Some db -> stored (cur (rdb T) db') true (canon m)).
Proof.
  intros HT Hne Hsm Hdb Hcp. pose proof (canon_can T m HT Hne) as Hc. pose proof (canon_sized T m HT Hsm) as Hs.
  destruct (holds_canon T m HT) as (_ & R & _).
  assert (rep (cur (rdb T) db) true (t_root T) (canon m)) as R'.
  { destruct Hdb as [->|(w & -> & Hw)]; [done|]. by eapply rep_mono. }
  destruct (hash_hashes (encs true (canon m)) (rdb T) (t_cachegen T) (t_cachelimit T) (t_root T) db true (canon m) R' Hc Hs)
    as (h & c & db' & E & Hg & _ & Hr & Rc & Hst); [by apply Forall_forall|done|].
  unfold href in Hr. cbn [orb] in Hr. subst h. exists c, db'. split_and!; try done. unfold hashRoot.
  by destruct (t_root T).
Qed.

Lemma hashRoot_empty T db : holds T ∅ -> hashRoot T db = Done (HashN (be_bytes 32 emptyRoot), NilN, db) /\ t_root T = NilN.
Proof.
  intros (W & R & HC)%holds_canon. apply (wf_empty _ ∅) in W as E; [|done]. rewrite (proj2 E eq_refl) in R.
  apply rep_TNil in R. unfold hashRoot. by rewrite R.
Qed.

(** A lookup returns what the map holds, and leaves the content as it was: the nodes it
    resolves from the database are kept in memory. *)
Theorem TryGet_correct (T : Trie) (m : database) (k : list byte) :
  holds T m -> exists T', TryGet T k = Done (m !! k, T') /\ holds T' m /\ t_db T' = t_db T.
Proof. apply TryGet_holds. Qed.

(** C8: Updating a key inserts it into the map, updating it with the empty value or deleting it
    removes it; the operations return on every trie, whatever part of it is in the database. *)
Theorem TryUpdate_correct (T : Trie) (m : database) (k v : list byte) :
  holds T m ->
  (exists T', TryUpdate T k v = Done T' /\ holds T' (if decide (v = []) then base.delete k m else <[k := v]> m) /\
              t_db T' = t_db T) /\
  (exists T', TryDelete T k = Done T' /\ holds T' (base.delete k m) /\ t_db T' = t_db T).
Proof.
  intros HT. destruct (TryDelete_holds T m k HT) as (T' & E & HT'). split; [|by exists T'].
  destruct (decide (v = [])) as [->|Hv]; [by exists T'|]. by apply TryUpdate_holds.
Qed.

Lemma Hash_holds (T : Trie) (m : database) :
  holds T m -> small m -> exists T', Hash T = Done (root_of m, T') /\ holds T' m /\ t_db T' = t_db T.
Proof.
  intros HT Hs. unfold Hash, root_of. destruct (decide (m = ∅)) as [->|Hne].
  - destruct (hashRoot_empty T None HT) as [-> Er]. cbn [rbind as_hash].
    eexists. split; [do 3 f_equal; vm_compute; reflexivity|]. split; [|done]. apply holds_empty.
  - destruct (hashRoot_ok T m None HT Hne Hs) as (c & [w|] & -> & Hg & Rc & _); [by left|done|done|].
    cbn [rbind as_hash]. eexists. split; [done|]. split; [|done].
    destruct (holds_canon T m HT) as (W & _ & HC). by exists (canon m).
Qed.

(** C9: The root hash is a function of the content: however a trie came to hold [m], in memory
    or partly in a database, with whatever hashes cached, [Hash] returns [root_of m]. *)
Theorem Hash_canonical (T : Trie) (m : database) :
  holds T m -> small m -> exists T', Hash T = Done (root_of m, T') /\ holds T' m /\ t_db T' = t_db T.
Proof. apply Hash_holds. Qed.

Lemma root_inj (m1 m2 : database) :
  map_Forall (fun _ v => v <> []) m1 -> map_Forall (fun _ v => v <> []) m2 -> small m1 -> small m2 ->
  m1 <> ∅ -> m2 <> ∅ ->
  no_collision (encs true (canon m1) ++ encs true (canon m2)) -> root_of m1 = root_of m2 -> m1 = m2.
Proof.
  intros V1 V2 S1 S2 N1 N2 Hno Er. set (E := encs true (canon m1) ++ encs true (canon m2)) in *.
  set (db := table Keccak256 E).
  destruct (build_holds m1 V1) as (T1 & _ & HT1 & _), (build_holds m2 V2) as (T2 & _ & HT2 & _).
  pose proof (canon_can _ _ HT1 N1) as C1. pose proof (canon_can _ _ HT2 N2) as C2.
  assert (forall m T, holds T m -> small m -> m <> ∅ -> (forall e, e ∈ encs true (canon m) -> e ∈ E) -> stored db true (canon m)) as Hst.
  { intros m T HT Hs Hne Hin. pose proof (encs_bound true _ (canon_can _ _ HT Hne) (canon_sized _ _ HT Hs)) as Hb.
    apply Forall_forall. intros e He. rewrite Forall_forall in Hb. split; [|by apply Hb].
    apply table_lookup; auto. }
  assert (canon m1 = canon m2) as Ec.
  { unfold root_of in Er. rewrite !decide_False in Er by done. apply (f_equal (be_bytes 32)) in Er. rewrite !hash_bytes in Er.
    apply (rep_only db (canon m1) false true true _ (HashN (Keccak256 (enc (canon m1))))); [by right|by right|constructor|].
    - by apply can_node.
    - done.
    - apply (Hst m1 T1); try done. intros. apply elem_of_app. by left.
    - rewrite Er. constructor; [by apply can_node|done|]. apply (Hst m2 T2); try done. intros. apply elem_of_app. by right. }
  apply map_eq. intros b. destruct (holds_canon _ _ HT1) as (_ & _ & HC1), (holds_canon _ _ HT2) as (_ & _ & HC2).
  by rewrite <- (content_get _ _ b HC1), Ec, (content_get _ _ b HC2).
Qed.

Lemma root_of_empty : root_of ∅ = emptyRoot.
Proof. unfold root_of. by rewrite decide_True. Qed.
(** C10: Two tries that hash to the same root, other than that of the empty trie, have the same content,
    and every lookup in the one gives what it gives in the other, unless two of the encodings of their
    nodes have the same hash: a root hash commits to the content. *)
Theorem root_injective (T1 T2 T1' T2' : Trie) (m1 m2 : database) (h : GoMath.Hash) :
  holds T1 m1 -> holds T2 m2 -> small m1 -> small m2 -> no_collision (encs true (canon m1) ++ encs true (canon m2)) ->
  Hash T1 = Done (h, T1') -> Hash T2 = Done (h, T2') -> h <> emptyRoot ->
  m1 = m2 /\ forall key, exists o T1'' T2'', TryGet T1 key = Done (o, T1'') /\ TryGet T2 key = Done (o, T2'').
Proof.
  intros HT1 HT2 S1 S2 Hno E1 E2 Hh. destruct (Hash_holds T1 m1 HT1 S1) as (T1r & Eh1 & _), (Hash_holds T2 m2 HT2 S2) as (T2r & Eh2 & _).
  rewrite E1 in Eh1. rewrite E2 in Eh2. injection Eh1 as Er1 _. injection Eh2 as Er2 _.
  assert (m1 = m2) as Em.
  { apply root_inj; try done; [by eapply holds_values|by eapply holds_values|intros ->|intros ->|by rewrite <- Er1]; by rewrite root_of_empty in *. }
  split; [done|]. intros key. destruct (TryGet_holds T1 m1 key HT1) as (R1 & G1 & _), (TryGet_holds T2 m2 key HT2) as (R2 & G2 & _).
  exists (m1 !! key), R1, R2. split; [done|]. by rewrite Em.
Qed.

Lemma New_ok m db :
  can (canon m) -> content (canon m) m -> stored db true (canon m) -> m <> ∅ -> root_of m <> 0 -> root_of m <> emptyRoot ->
  exists T, New (root_of m) (Some db) = Done T /\ holds T m /\ t_db T = Some db.
Proof.
  intros Hc HC Hst Hne H0 He. unfold New. rewrite (proj2 (Z.eqb_neq _ _) H0), (proj2 (Z.eqb_neq _ _) He). cbn [negb andb].
  set (T0 := mkTrie NilN (Some db) (root_of m) 0 0).
  assert (be_bytes 32 (root_of m) = Keccak256 (enc (canon m))) as ->
    by (unfold root_of; rewrite decide_False by done; apply hash_bytes).
  destruct (resolveHash_ok T0 db true (canon m) eq_refl Hc eq_refl Hst) as (n & -> & R & _). cbn [rbind].
  eexists. split; [done|]. split; [|done]. exists (canon m). split_and!; try done. by right.
Qed.

(** Committing to a database that extends the one of the trie: the trie keeps its content over the
    database that was written, and can be opened from it. *)
Lemma CommitTo_holds (T : Trie) (m db : database) :
  holds T m -> small m -> rdb T ⊆ db -> collision_free db m ->
  exists c db', CommitTo T db = Done (root_of m, mkTrie c (t_db T) (t_originalRoot T) (u16 (t_cachegen T + 1)) (t_cachelimit T), db') /\
    extends db db' /\ (forall o g l, holds (mkTrie c (Some db') o g l) m) /\
    exists T', New (root_of m) (Some db') = Done T' /\ holds T' m /\ t_db T' = Some db'.
Proof.
  intros HT Hs Hdb [Hcp Hroot]. unfold CommitTo. destruct (decide (m = ∅)) as [->|Hne].
  - destruct (hashRoot_empty T (Some db) HT) as [-> Er]. cbn [rbind as_hash default].
    assert (BytesToHash (be_bytes 32 emptyRoot) = root_of ∅) as -> by (vm_compute; reflexivity).
    exists NilN, db. split_and!; [done|split; [done|by left]|intros; apply holds_empty|]. eexists. split; [done|]. split; [apply holds_empty|done].
  - destruct (hashRoot_ok T m (Some db) HT Hne Hs) as (c & [w|] & -> & Hg & Rc & Hst); [right; by exists db|done| |done].
    cbn [rbind as_hash default]. destruct (holds_canon T m HT) as (W & _ & HC).
    assert (BytesToHash (Keccak256 (enc (canon m))) = root_of m) as -> by (unfold root_of; by rewrite decide_False).
    exists c, w. split_and!; [done|done|intros; by exists (canon m)|].
    apply New_ok; try done; [by eapply canon_can|by apply Hst|apply Hroot; done|apply Hroot; done].
Qed.

(** C11: [Commit] returns the root hash and keeps the content, and a trie opened at that root
    over the database it wrote has the same content. *)
Theorem Commit_New_roundtrip (T : Trie) (m db : database) :
  t_db T = Some db -> holds T m -> small m -> collision_free db m ->
  exists T' db' T'', Commit T = Done (root_of m, T') /\ holds T' m /\ t_db T' = Some db' /\ db ⊆ db' /\
    New (root_of m) (Some db') = Done T'' /\ holds T'' m.
Proof.
  intros Edb HT Hs Hcf. unfold Commit. rewrite Edb. cbn [index rbind].
  destruct (CommitTo_holds T m db HT Hs) as (c & db' & -> & [Hsub _] & Hc & T'' & EN & HT'' & _); [unfold rdb; by rewrite Edb|done|].
  cbn [rbind]. eexists _, db', T''. split; [done|]. by split_and!; [apply Hc|..].
Qed.

(** ** Merkle proofs *)

(** A key that ends at a branch without a value is a proper prefix of another. *)
Lemma dangling_longer t key :
  can t -> vkey key -> dangling t key = true ->
  exists key', vkey key' /\ has t key' /\ (length key < length key')%nat.
Proof.
  intros Hc. revert key. induction Hc as [k v Hk Hv|k cs Hne Hk Hf IH|cs Hl Hc IH Hv H2]; intros key Hkey Hd.
  - destruct (can_step _ key (can_leaf k v Hk Hv) Hkey) as [o Ho]. pose proof (strip_app k []) as Es. exfalso.
    destruct (strip k key) as [r|] eqn:E; unfold dangling in Hd; cbn in Hd; rewrite E in Hd; [|done]. by destruct (length key).
  - destruct (strip k key) as [r|] eqn:E; [|unfold dangling in Hd; cbn in Hd; by rewrite E in Hd].
    apply strip_Some in E as E'. subst key. rewrite vkey_app_nibs in Hkey by done.
    destruct (pf_step_go true (TShort k (TFull cs)) (k ++ r) false (TFull cs) r) as [_ Ed]; try done.
    { by constructor. } { intros. cbn. by rewrite E. } { by right. } { rewrite length_app. destruct k; [done|cbn; lia]. }
    rewrite Ed in Hd. destruct (IH r Hkey Hd) as (r' & Hr' & [v Ev] & Hlt). exists (k ++ r').
    rewrite vkey_app_nibs, !length_app by done. split_and!; [done| |lia]. exists v. by rewrite (tget_short k _ _ r' (strip_app _ _)).
  - assert (can (TFull cs)) as Hf by by constructor. destruct key as [|b key]; [done|].
    destruct (can_full_lookup cs b key Hf Hkey) as (c & E & W & K). pose proof (kok_cons _ _ Hkey) as [Hb _].
    destruct (pf_step_go true (TFull cs) (b :: key) (is_term b) c key) as [_ Ed]; try done.
    { intros. cbn. by rewrite E. } { cbn. lia. }
    rewrite Ed in Hd. destruct (TNil_dec c) as [->|Hn].
    + destruct key as [|x key]; [|done]. destruct (can_full_two cs Hf) as (b1 & r1 & b2 & r2 & Hne & V1 & V2 & H1 & H3).
      assert (exists b' r', vkey (b' :: r') /\ has (TFull cs) (b' :: r') /\ b' <> terminator) as (b' & r' & V' & H' & Hb').
      { destruct (decide (b1 = terminator)) as [->|]; [exists b2, r2|exists b1, r1]; by split_and!; try done; apply not_eq_sym. }
      exists (b' :: r'). split_and!; try done. destruct V' as [[? _]|[_ Hr']]; [done|]. apply vkey_nonempty in Hr'. destruct r'; [done|cbn; lia].
    + destruct W as [|W]; [done|]. unfold is_term in *. case_bool_decide as Eb.
      { destruct W as (v & _ & ->). cbn in K. by subst key. }
      destruct (IH (nidx b) c E Hn ltac:(by rewrite nidx_term) key K Hd) as (r' & Hr' & [v Ev] & Hlt).
      exists (b :: r'). split_and!; [|exists v; by rewrite tget_full, E|cbn; lia].
      apply kok_cons_inv; [done|]. unfold is_term. by rewrite bool_decide_eq_false_2.
Qed.

Lemma Prove_Verify T m key :
  holds T m -> m <> ∅ -> small m ->
  exists proof, Prove T key = Done proof /\
    VerifyProof (root_of m) key proof
    = if dangling (canon m) (keybytesToHex key) then Crash else Done (m !! key).
Proof.
  intros HT Hne Hs. pose proof (canon_can T m HT Hne) as Hc. pose proof (canon_sized T m HT Hs) as Hsz.
  destruct (holds_canon T m HT) as (W & R & HC). pose proof (keybytesToHex_vkey key) as Hk.
  destruct (prove_ok T (op_fuel (keybytesToHex key)) false true (t_root T) (canon m) (keybytesToHex key) R W Hk Hsz)
    as (ns & En & Hp).
  { pose proof (cost_le (t_root T) (keybytesToHex key)). unfold op_fuel. lia. }
  exists (pf true (canon m) (keybytesToHex key)). unfold Prove, VerifyProof. rewrite En. cbn [rbind].
  split; [apply (Hp 0%nat)|]. unfold root_of. rewrite decide_False, hash_bytes by done.
  rewrite verify_complete by (done || by apply encs_bound). by rewrite (content_get _ _ _ HC).
Qed.

(** C12: A Merkle proof that verifies against the root hash of a trie tells the truth: the value
    it returns is the one the trie holds for the key, and nil only if it holds none - whatever
    the proof consists of, as long as none of its elements collides with a node of the trie. *)
Theorem VerifyProof_sound (T : Trie) (m : database) (key : list byte) (proof : list (list byte)) (o : option (list byte)) :
  holds T m -> m <> ∅ -> small m ->
  (forall x e, x ∈ proof -> e ∈ encs true (canon m) -> Keccak256 x = Keccak256 e -> x = e) ->
  VerifyProof (root_of m) key proof = Done o -> o = m !! key.
Proof.
  intros HT Hne Hs Hcol. pose proof (canon_can T m HT Hne) as Hc. pose proof (canon_sized T m HT Hs) as Hsz.
  destruct (holds_canon T m HT) as (_ & _ & HC). unfold VerifyProof, root_of. rewrite decide_False, hash_bytes by done.
  intros E. rewrite <- (content_get _ _ _ HC). eapply verify_sound; try done; [apply keybytesToHex_vkey|by apply encs_bound].
Qed.

(** C13: [Prove] makes a proof that [VerifyProof] accepts against the hash of the trie and that gives the
    value of the key, or its absence, when all keys have one length, as the hashed keys of a secure trie
    have.  The empty trie is the exception: its proof has no node at all, not even the root, and does not
    verify. *)
Theorem Prove_complete (T : Trie) (m : database) (key : list byte) :
  holds T m -> small m -> map_Forall (fun k _ => length k = length key) m ->
  exists h T' proof, Hash T = Done (h, T') /\ Prove T key = Done proof /\
    (m <> ∅ -> VerifyProof h key proof = Done (m !! key)) /\
    (m = ∅ -> proof = [] /\ VerifyProof h key proof = Invalid).
Proof.
  intros HT Hs Hlen. destruct (Hash_holds T m HT Hs) as (T' & Eh & _). exists (root_of m), T'. destruct (decide (m = ∅)) as [->|Hne].
  - exists []. destruct (hashRoot_empty T None HT) as [_ Er]. split_and!; try done. unfold Prove. rewrite Er. by destruct (keybytesToHex key).
  - destruct (Prove_Verify T m key HT Hne Hs) as (proof & E & EV). exists proof. split_and!; try done. intros _.
    rewrite EV. destruct (dangling _ _) eqn:Hd; [|done]. exfalso. destruct (holds_canon T m HT) as (_ & _ & HC).
    destruct (dangling_longer _ _ (canon_can T m HT Hne) (keybytesToHex_vkey key) Hd) as (key' & Hk' & [v Ev] & Hlt).
    apply HC in Ev as (b & -> & Eb); [|done]. pose proof (Hlen b v Eb) as Hb. cbn in Hb. rewrite !keybytesToHex_length in Hlt. lia.
Qed.

(** The verifier panics on the honest proof of an absent key that ends at a branch node
    without a value: the type assertion on the value meets nil. *)
Theorem VerifyProof_panics (T : Trie) (m : database) (key : list byte) :
  holds T m -> m <> ∅ -> small m -> dangling (canon m) (keybytesToHex key) = true ->
  exists proof, Prove T key = Done proof /\ VerifyProof (root_of m) key proof = Crash.
Proof.
  intros HT Hne Hs Hd. destruct (Prove_Verify T m key HT Hne Hs) as (proof & E & EV). rewrite Hd in EV. eauto.
Qed.
End thms.

(** ** Examples *)

#[local] Existing Instance mix_prims.

Lemma TryGet_correct_witness :
  exists T', TryGet demo_trie (bs [0x61; 0x72]) = Done (Some (bs [1; 2]), T') /\ holds T' demo_map.
Proof.
  destruct (TryGet_correct demo_trie demo_map (bs [0x61; 0x72]) (proj1 demo_holds)) as (T' & E & HT & _).
  exists T'. split; [|exact HT]. rewrite E. do 2 f_equal.
Defined.

Lemma TryUpdate_correct_witness :
  exists T', TryUpdate demo_trie (bs [0x61; 0x72]) [] = Done T' /\ holds T' (base.delete (bs [0x61; 0x72]) demo_map).
Proof.
  destruct (TryUpdate_correct demo_trie demo_map (bs [0x61; 0x72]) [] (proj1 demo_holds)) as [(T' & E & HT & _) _].
  exists T'. split; [exact E|exact HT].
Defined.

Lemma Hash_canonical_witness : exists T', Hash demo_trie = Done (root_of demo_map, T') /\ holds T' demo_map.
Proof.
  destruct (Hash_canonical demo_trie demo_map (proj1 demo_holds) demo_small) as (T' & E & HT & _).
  exists T'. split; [exact E|exact HT].
Defined.

(** The same entries, inserted in another order *)
Definition other_trie : Trie := match build_from demo_start (rev demo_list) with Done T => T | _ => demo_start end.
Definition other_map : gmap (list byte) (list byte) := list_to_map (rev demo_list).
Lemma other_holds : holds other_trie other_map.
Proof.
  destruct (build_list demo_start (rev demo_list)) as (T & E & HT & Hdb); [apply holds_empty|by repeat constructor|].
  unfold other_trie. by rewrite E.
Qed.
Lemma pair_free : no_collision (encs true (canon demo_map) ++ encs true (canon other_map)).
Proof. unfold no_collision. intros e e'. apply no_collisionb_ok. vm_compute. reflexivity. Qed.
Lemma root_injective_witness :
  demo_map = other_map /\ forall key, exists o T1 T2, TryGet demo_trie key = Done (o, T1) /\ TryGet other_trie key = Done (o, T2).
Proof.
  destruct (Hash_holds demo_trie demo_map (proj1 demo_holds) demo_small) as (T1' & E1 & _).
  assert (small other_map) as Hs by (apply (bool_decide_unpack _); vm_compute; exact I).
  destruct (Hash_holds other_trie other_map other_holds Hs) as (T2' & E2 & _).
  assert (root_of other_map = root_of demo_map) as Er by (vm_compute; reflexivity). rewrite Er in E2.
  apply (root_injective demo_trie other_trie T1' T2' demo_map other_map (root_of demo_map) (proj1 demo_holds) other_holds demo_small Hs pair_free E1 E2).
  apply Z.eqb_neq. vm_compute. reflexivity.
Defined.

Lemma demo_collision_free : collision_free ∅ demo_map.
Proof.
  split; [split|].
  - unfold no_collision. intros e e'. apply no_collisionb_ok. vm_compute. reflexivity.
  - intros e x _ E. by rewrite lookup_empty in E.
  - intros _. split; apply Z.eqb_neq; vm_compute; reflexivity.
Qed.

Lemma Commit_New_roundtrip_witness :
  exists T' db' T'', Commit demo_trie = Done (root_of demo_map, T') /\
    New (root_of demo_map) (Some db') = Done T'' /\ holds T'' demo_map.
Proof.
  destruct (Commit_New_roundtrip demo_trie demo_map ∅ (proj2 demo_holds) (proj1 demo_holds) demo_small demo_collision_free)
    as (T' & db' & T'' & E & _ & _ & _ & EN & HT). exists T', db', T''. auto.
Defined.

Definition demo_proof : list (list byte) :=
  match Prove demo_trie (bs [0x61; 0x62]) with Done p => p | _ => [] end.
Lemma demo_verifies : VerifyProof (root_of demo_map) (bs [0x61; 0x62]) demo_proof = Done (Some (replicate 40 Byte.x07)).
Proof. vm_compute. reflexivity. Qed.
Lemma demo_proof_free x e :
  x ∈ demo_proof -> e ∈ encs true (canon demo_map) -> Keccak256 x = Keccak256 e -> x = e.
Proof. apply no_collisionb_ok. vm_compute. reflexivity. Qed.

Lemma VerifyProof_sound_witness : Some (replicate 40 Byte.x07) = demo_map !! bs [0x61; 0x62].
Proof.
  exact (VerifyProof_sound demo_trie demo_map (bs [0x61; 0x62]) demo_proof _
           (proj1 demo_holds) demo_nonempty demo_small demo_proof_free demo_verifies).
Defined.

(** Two keys of one length. *)
Definition pair_list : list (list byte * list byte) := take 2 demo_list.
Lemma Prove_complete_witness :
  exists T h T' proof, build pair_list = Done T /\ Hash T = Done (h, T') /\ Prove T (bs [0x61; 0x73]) = Done proof /\
    VerifyProof h (bs [0x61; 0x73]) proof = Done None.
Proof.
  destruct (build_list empty_trie pair_list) as (T & E & HT & _); [apply holds_empty|by repeat constructor|].
  exists T. destruct (Prove_complete T (list_to_map pair_list) (bs [0x61; 0x73]) HT) as (h & T' & proof & EH & EP & EV & _);
    [apply (bool_decide_unpack _); vm_compute; exact I..|].
  exists h, T', proof. split; [exact E|]. split; [exact EH|]. split; [exact EP|]. rewrite EV by (apply (bool_decide_unpack _); vm_compute; exact I). reflexivity.
Defined.

Lemma VerifyProof_panics_witness :
  exists proof, Prove demo_trie (bs [0x61]) = Done proof /\ VerifyProof (root_of demo_map) (bs [0x61]) proof = Crash.
Proof.
  apply (VerifyProof_panics demo_trie demo_map (bs [0x61]) (proj1 demo_holds) demo_nonempty demo_small).
  vm_compute. reflexivity.
Defined.

(** ** Key encodings *)

(** The compact encoding of a key is undone by its decoder, for keys with and without
    terminator and of either parity; so is the hex encoding of a byte string. *)
Theorem key_roundtrip (ns : list byte) (term : bool) (key : list byte) :
  Forall nib ns ->
  (exists c, hexToCompact (ns ++ if term then [terminator] else []) = Some c /\
             compactToHex c = Some (ns ++ if term then [terminator] else []) /\ zlen c <= zlen ns + 2) /\
  hexToKeybytes (keybytesToHex key) = Some key.
Proof.
  intros Hn. split; [|apply hexToKeybytes_inv]. destruct (hexToCompact_parts term ns Hn) as (c & E1 & E2 & Hl).
  exists c. split_and!; try done. rewrite zlen_app in Hl. destruct term; unfold zlen in *; cbn in *; lia.
Qed.

Lemma key_roundtrip_witness :
  hexToCompact (bs [1; 2; 3; 16]) = Some (bs [0x31; 0x23]) /\
  compactToHex (bs [0x31; 0x23]) = Some (bs [1; 2; 3; 16]) /\ hexToKeybytes (keybytesToHex (bs [0xab])) = Some (bs [0xab]).
Proof.
  destruct (key_roundtrip (bs [1; 2; 3]) true (bs [0xab])) as [(c & E1 & E2 & _) E3]; [by repeat constructor|].
  assert (c = bs [0x31; 0x23]) as -> by (vm_compute in E1; injection E1 as <-; reflexivity). auto.
Defined.
End TrieThms.
