(* ===== verification/SecureTrie.v ===== *)
(** * [trie/secure_trie.go]: tries with hashed keys

    A secure trie hashes the keys before it uses them and remembers their preimages, in a map that
    belongs to one trie until they are written to the database by a commit.  A struct that is copied
    still points to the owner of the map: [owned] says whether the trie is that owner.  The buffers
    that are reused for hashed keys are left out, since the trie copies the keys it is given.

    The theorems: a secure trie is a finite map on the keys themselves, as long as no two keys in use
    have one hash; its root is that of the map with hashed keys; and it knows the preimage of every
    hashed key, before and after it is committed and opened again. *)

From Stdlib Require Strings.String.
From S2P Require Import Prelude GoMath World Trie TrieOps TrieSpec TrieThms.
Import (notations) Strings.String.

Module SecureTrie.
Import Trie.

Definition secureKeyPrefix : list byte := Strings.String.list_byte_of_string "secure-key-"%string.

Record SecureTrie := mkSecure { s_trie : Trie; secKeyCache : database; owned : bool }.
Definition set_trie (t : Trie) (s : SecureTrie) : SecureTrie := mkSecure t (secKeyCache s) (owned s).
Definition set_keys (c : database) (s : SecureTrie) : SecureTrie := mkSecure (s_trie s) c (owned s).
(** [cpy := *t] *)
Definition copy_of (s : SecureTrie) : SecureTrie := mkSecure (s_trie s) (secKeyCache s) false.

Definition SetCacheLimit (l : Z) (t : Trie) : Trie := mkTrie (t_root t) (t_db t) (t_originalRoot t) (t_cachegen t) l.
Definition NewSecure (root : GoMath.Hash) (db : option database) (cachelimit : Z) : res SecureTrie :=
  match db with
  | None => Crash
  | Some _ => let! trie := New root db in Done (mkSecure (SetCacheLimit cachelimit trie) ∅ false)
  end.

(** The map of preimages, a new one if the trie does not own it. *)
Definition getSecKeyCache (s : SecureTrie) : SecureTrie := if owned s then s else mkSecure (s_trie s) ∅ true.
Definition secKey (key : list byte) : list byte := secureKeyPrefix ++ key.

Section prims.
Context `{CryptoPrims}.

Definition hashKey (key : list byte) : list byte := Keccak256 key.
Definition TryGet (s : SecureTrie) (key : list byte) : res (option (list byte) * SecureTrie) :=
  let! (v, t) := Trie.TryGet (s_trie s) (hashKey key) in Done (v, set_trie t s).
Definition TryUpdate (s : SecureTrie) (key value : list byte) : res SecureTrie :=
  let hk := hashKey key in
  let! t := Trie.TryUpdate (s_trie s) hk value in
  let s := getSecKeyCache (set_trie t s) in
  Done (set_keys (<[hk := key]> (secKeyCache s)) s).
Definition forget_key (hk : list byte) (s : SecureTrie) : SecureTrie :=
  let s := getSecKeyCache s in set_keys (base.delete hk (secKeyCache s)) s.
Definition TryDelete (s : SecureTrie) (key : list byte) : res SecureTrie :=
  let hk := hashKey key in
  let s := forget_key hk s in
  let! t := Trie.TryDelete (s_trie s) hk in Done (set_trie t s).
(** [Get], [Update] and [Delete] log the errors; the key is forgotten all the same. *)
Definition logged {A} (old : A) (x : res A) : res A := match x with Missing _ | Invalid => Done old | _ => x end.
Definition Get (s : SecureTrie) (key : list byte) : res (option (list byte) * SecureTrie) := logged (None, s) (TryGet s key).
Definition Update (s : SecureTrie) (key value : list byte) : res SecureTrie := logged s (TryUpdate s key value).
Definition Delete (s : SecureTrie) (key : list byte) : res SecureTrie := logged (forget_key (hashKey key) s) (TryDelete s key).

Definition GetKey (s : SecureTrie) (shaKey : list byte) : option (list byte) * SecureTrie :=
  let s := getSecKeyCache s in
  (match secKeyCache s !! shaKey with Some key => Some key | None => default ∅ (t_db (s_trie s)) !! secKey shaKey end, s).

Definition Hash (s : SecureTrie) : res (GoMath.Hash * SecureTrie) :=
  let! (h, t) := Trie.Hash (s_trie s) in Done (h, set_trie t s).
(** The preimages are written in the order of a map, to distinct keys. *)
Definition put_keys (keys db : database) : database := map_fold (fun hk key db => <[secKey hk := key]> db) db keys.
Definition CommitTo (s : SecureTrie) (db : database) : res (GoMath.Hash * SecureTrie * database) :=
  let s := getSecKeyCache s in
  let db := put_keys (secKeyCache s) db in
  let s := set_keys ∅ s in
  let! (root, t, db) := Trie.CommitTo (s_trie s) db in Done (root, set_trie t s, db).
Definition attach (db : database) (s : SecureTrie) : SecureTrie :=
  let t := s_trie s in set_trie (mkTrie (t_root t) (Some db) (t_originalRoot t) (t_cachegen t) (t_cachelimit t)) s.
(** The database of the trie is the one that is written. *)
Definition Commit (s : SecureTrie) : res (GoMath.Hash * SecureTrie) :=
  let! db := index (t_db (s_trie s)) in
  let! (root, s, db) := CommitTo s db in Done (root, attach db s).
End prims.
End SecureTrie.

(** ** Theorems *)

Module SecureTrieThms.
Import Trie TrieThms SecureTrie.

(** A map with hashed keys *)
Notation hashed := (kmap (M1 := gmap (list byte)) (M2 := gmap (list byte)) Keccak256).

Section prims.
Context `{CryptoPrims}.

(** ** Hashed keys *)

Definition values_small (m : database) : Prop := map_Forall (fun _ v => zlen v < 2 ^ 32) m.

#[local] Instance secKey_inj : Inj (=) (=) secKey.
Proof. intros a b E. by apply app_inv_head in E. Qed.
Lemma secKey_not_node hk e : length hk = 32%nat -> secKey hk <> Keccak256 e.
Proof. intros Hl E. apply (f_equal length) in E. unfold secKey, Keccak256 in E. rewrite length_app, length_be_bytes, Hl in E. done. Qed.

(** The keys in use: no two of them have one hash. *)
Context (K : list byte -> Prop).
Hypothesis (HK : forall k k', K k -> K k' -> Keccak256 k = Keccak256 k' -> k = k').
Notation keys_in := (keys_on K).

Lemma hashed_small m : keys_in m -> values_small m -> small (hashed m).
Proof.
  intros Hm Hv h v (k & -> & E)%(kmap_on_Some _ K); [|done..]. split; [|exact (Hv _ _ E)].
  unfold zlen, Keccak256. rewrite length_be_bytes. lia.
Qed.

(** ** Preimages *)

(** The preimages that are not in the database yet *)
Definition own (s : SecureTrie) : database := if owned s then secKeyCache s else ∅.

Lemma put_keys_union keys db : put_keys keys db = kmap secKey keys ∪ db.
Proof.
  unfold put_keys. apply (map_fold_weak_ind (fun r m => r = kmap secKey m ∪ db)).
  - by rewrite kmap_empty, (left_id_L ∅ (∪)).
  - intros hk key m r Hn ->. rewrite kmap_insert by apply secKey_inj. by rewrite insert_union_l.
Qed.

(** ** Content *)

Record sholds (s : SecureTrie) (m : database) : Prop := {
  sh_holds : holds (s_trie s) (hashed m);
  sh_keys : keys_in m;
  sh_db : is_Some (t_db (s_trie s));
  sh_own hk k : own s !! hk = Some k -> hk = Keccak256 k /\ K k;
  sh_known k : is_Some (m !! k) -> own s !! Keccak256 k = Some k \/ rdb (s_trie s) !! secKey (Keccak256 k) = Some k;
  sh_true k x : K k -> rdb (s_trie s) !! secKey (Keccak256 k) = Some x -> x = k }.

Lemma own_get s : own (getSecKeyCache s) = own s /\ owned (getSecKeyCache s) = true /\ s_trie (getSecKeyCache s) = s_trie s /\ secKeyCache (getSecKeyCache s) = own s.
Proof. unfold getSecKeyCache, own. by destruct (owned s) eqn:E; rewrite ?E. Qed.
(** Another trie with the same database *)
Lemma sholds_set_trie s m t : sholds s m -> holds t (hashed m) -> t_db t = t_db (s_trie s) -> sholds (set_trie t s) m.
Proof. intros [H1 H2 H3 H4 H5 H6] Ht Ed. split; try done; cbn; unfold rdb in *; rewrite Ed; done. Qed.

Lemma TryGet_sholds s m k : sholds s m -> K k -> exists s', TryGet s k = Done (m !! k, s') /\ sholds s' m.
Proof.
  intros Hs Hk. unfold TryGet, hashKey. destruct (TryGet_holds _ _ (Keccak256 k) (sh_holds _ _ Hs)) as (t & -> & Ht & Ed). cbn [rbind].
  rewrite (kmap_on_lookup _ K) by (done || apply Hs). eexists. split; [done|]. by apply sholds_set_trie.
Qed.
Lemma TryDelete_sholds s m k : sholds s m -> K k -> exists s', TryDelete s k = Done s' /\ sholds s' (base.delete k m).
Proof.
  intros Hs Hk. unfold TryDelete, forget_key, hashKey. destruct (own_get s) as (E1 & E2 & E3 & E4). cbn [s_trie set_keys]. rewrite E3.
  destruct (TryDelete_holds _ _ (Keccak256 k) (sh_holds _ _ Hs)) as (t & -> & Ht & Ed). cbn [rbind]. eexists. split; [done|].
  destruct Hs as [H1 H2 H3 H4 H5 H6]. split; cbn; unfold own, rdb in *; cbn; rewrite ?E2, ?E4, ?Ed; try done.
  - by rewrite (kmap_on_delete _ K).
  - by apply keys_on_delete.
  - intros hk x [_ E]%lookup_delete_Some. by apply H4.
  - intros x [v [Hne Ev]%lookup_delete_Some]. rewrite lookup_delete_ne; [by apply H5|]. intros E. apply Hne. apply HK; [done|exact (H2 _ _ Ev)|done].
Qed.
Lemma TryUpdate_sholds s m k v : sholds s m -> K k ->
  exists s', TryUpdate s k v = Done s' /\ sholds s' (if decide (v = []) then base.delete k m else <[k := v]> m).
Proof.
  intros Hs Hk. unfold TryUpdate, hashKey. set (m' := if decide (v = []) then _ else _).
  assert (exists t, Trie.TryUpdate (s_trie s) (Keccak256 k) v = Done t /\ holds t (hashed m') /\ t_db t = t_db (s_trie s)) as (t & -> & Ht & Ed).
  { unfold m'. case_decide as Ev.
    - subst v. rewrite (kmap_on_delete _ K) by (done || apply Hs). exact (TryDelete_holds _ _ (Keccak256 k) (sh_holds _ _ Hs)).
    - rewrite (kmap_on_insert _ K) by (done || apply Hs). exact (TryUpdate_holds _ _ (Keccak256 k) v (sh_holds _ _ Hs) Ev). }
  cbn [rbind]. eexists. split; [done|]. destruct (own_get (set_trie t s)) as (E1 & E2 & E3 & E4).
  change (own (set_trie t s)) with (own s) in *. change (s_trie (set_trie t s)) with t in *. destruct Hs as [H1 H2 H3 H4 H5 H6].
  assert (forall c, own (set_keys c (getSecKeyCache (set_trie t s))) = c) as Eo by (intros c; unfold own; cbn [owned set_keys secKeyCache]; by rewrite E2).
  split; rewrite ?Eo; cbn [s_trie set_keys]; unfold rdb in *; rewrite ?E3, ?E4, ?Ed; try done.
  - unfold m'. case_decide; [by apply keys_on_delete|by apply keys_on_insert].
  - intros hk x E. destruct (decide (hk = Keccak256 k)) as [->|]; [rewrite lookup_insert_eq in E; by injection E as <-|].
    rewrite lookup_insert_ne in E by done. by apply H4.
  - intros x Hx. destruct (decide (x = k)) as [->|Hne]; [left; apply lookup_insert_eq|].
    assert (is_Some (m !! x)) as Hm.
    { unfold m' in Hx. case_decide; [rewrite lookup_delete_ne in Hx by done|rewrite lookup_insert_ne in Hx by done]; done. }
    destruct Hm as [y Hy]. rewrite lookup_insert_ne; [by apply H5; eexists|]. intros E. apply Hne. symmetry. apply HK; [done|exact (H2 _ _ Hy)|done].
Qed.
Lemma Hash_sholds s m : sholds s m -> values_small m -> exists s', Hash s = Done (root_of (hashed m), s') /\ sholds s' m.
Proof.
  intros Hs Hv. unfold Hash. destruct (Hash_holds _ _ (sh_holds _ _ Hs)) as (t & -> & Ht & Ed); [apply hashed_small; [apply Hs|done]|].
  cbn [rbind]. eexists. split; [done|]. by apply sholds_set_trie.
Qed.
Lemma GetKey_sholds s m k : sholds s m -> is_Some (m !! k) -> (GetKey s (Keccak256 k)).1 = Some k.
Proof.
  intros Hs Hk. destruct (own_get s) as (_ & _ & E3 & E4). unfold GetKey. cbn [fst]. rewrite E3, E4.
  assert (K k) as Kk by (destruct Hk as [v Hv]; exact (sh_keys _ _ Hs _ _ Hv)).
  destruct (own s !! Keccak256 k) as [x|] eqn:E.
  - apply (sh_own _ _ Hs) in E as [E Kx]. f_equal. by apply HK.
  - destruct (sh_known _ _ Hs k Hk) as [E'|E']; [congruence|done].
Qed.

(** A secure trie is the finite map of what was put under the keys: [TryGet], [TryUpdate] and
    [TryDelete] are lookup, insertion and deletion, [Hash] is the root of the map with hashed keys,
    and [GetKey] returns the key of a hash. *)
Theorem secure_refines (s : SecureTrie) (m : database) (k v : list byte) :
  sholds s m -> K k -> values_small m ->
  (exists s', TryGet s k = Done (m !! k, s') /\ sholds s' m) /\
  (exists s', TryUpdate s k v = Done s' /\ sholds s' (if decide (v = []) then base.delete k m else <[k := v]> m)) /\
  (exists s', TryDelete s k = Done s' /\ sholds s' (base.delete k m)) /\
  (exists s', Hash s = Done (root_of (hashed m), s') /\ sholds s' m) /\
  (is_Some (m !! k) -> (GetKey s (Keccak256 k)).1 = Some k).
Proof.
  intros Hs Hk Hv. split_and!; [by apply TryGet_sholds|by apply TryUpdate_sholds|by apply TryDelete_sholds|by apply Hash_sholds|by apply GetKey_sholds].
Qed.

(** ** Committing *)

Lemma put_keys_sub s m : sholds s m -> rdb (s_trie s) ⊆ put_keys (own s) (rdb (s_trie s)).
Proof.
  intros Hs. rewrite put_keys_union. apply map_subseteq_spec. intros x y E. rewrite lookup_union.
  destruct (kmap secKey (own s) !! x) as [z|] eqn:Ez; [|by rewrite E].
  apply lookup_kmap_Some in Ez as (hk & -> & Ez); [|apply secKey_inj]. apply (sh_own _ _ Hs) in Ez as [-> Kz].
  rewrite (sh_true _ _ Hs z y Kz E). by destruct (_ !! _).
Qed.
Lemma put_keys_node s m e : sholds s m -> put_keys (own s) (rdb (s_trie s)) !! Keccak256 e = rdb (s_trie s) !! Keccak256 e.
Proof.
  intros Hs. rewrite put_keys_union. apply lookup_union_r, lookup_kmap_None; [apply secKey_inj|].
  intros hk E. destruct (own s !! hk) as [k|] eqn:Ek; [|done]. apply (sh_own _ _ Hs) in Ek as [-> _].
  exfalso. eapply secKey_not_node; [|symmetry; exact E]. apply length_be_bytes.
Qed.
Lemma put_keys_known s m k : sholds s m -> is_Some (m !! k) -> put_keys (own s) (rdb (s_trie s)) !! secKey (Keccak256 k) = Some k.
Proof.
  intros Hs Hk. rewrite put_keys_union, lookup_union, lookup_kmap by apply secKey_inj. destruct (own s !! Keccak256 k) as [x|] eqn:E.
  - apply (sh_own _ _ Hs) in E as [E Kx]. assert (k = x) as <-; [|by destruct (rdb (s_trie s) !! secKey (Keccak256 k))].
    apply HK; [|done..]. destruct Hk as [v Hv]. exact (sh_keys _ _ Hs _ _ Hv).
  - destruct (sh_known _ _ Hs k Hk) as [E'|E']; [congruence|]. by rewrite E'.
Qed.
Lemma put_keys_true s m k x : sholds s m -> K k -> put_keys (own s) (rdb (s_trie s)) !! secKey (Keccak256 k) = Some x -> x = k.
Proof.
  intros Hs Kk. rewrite put_keys_union, lookup_union, lookup_kmap by apply secKey_inj. destruct (own s !! Keccak256 k) as [y|] eqn:E.
  - apply (sh_own _ _ Hs) in E as [E Ky]. intros Ex. assert (x = y) as -> by (destruct (rdb (s_trie s) !! secKey (Keccak256 k)); by injection Ex). symmetry. by apply HK.
  - intros Ex. apply (sh_true _ _ Hs k x Kk). by destruct (rdb (s_trie s) !! secKey (Keccak256 k)).
Qed.
Lemma put_keys_free s m : sholds s m -> collision_free (rdb (s_trie s)) (hashed m) -> collision_free (put_keys (own s) (rdb (s_trie s))) (hashed m).
Proof.
  intros Hs [[Hno Hc] Hr]. split; [|done]. split; [done|]. intros e x He. rewrite (put_keys_node s m) by done. by apply Hc.
Qed.

Lemma attach_sholds s m c o g l db :
  sholds s m -> holds (mkTrie c (Some db) o g l) (hashed m) -> put_keys (own s) (rdb (s_trie s)) ⊆ db ->
  (forall k x, K k -> db !! secKey (Keccak256 k) = Some x -> x = k) -> forall b, sholds (mkSecure (mkTrie c (Some db) o g l) ∅ b) m.
Proof.
  intros Hs Ht Hsub Htrue b. assert (own (mkSecure (mkTrie c (Some db) o g l) ∅ b) = ∅) as Eo by (by destruct b).
  split; rewrite ?Eo; try done; [apply Hs|]. intros k Hk. right. eapply lookup_weaken; [by apply (put_keys_known s m)|done].
Qed.

Lemma Commit_sholds s m :
  sholds s m -> values_small m -> collision_free (rdb (s_trie s)) (hashed m) ->
  exists s' db', Commit s = Done (root_of (hashed m), s') /\ sholds s' m /\ rdb (s_trie s') = db' /\ rdb (s_trie s) ⊆ db' /\
    forall cachelimit, exists s'', NewSecure (root_of (hashed m)) (Some db') cachelimit = Done s'' /\ sholds s'' m.
Proof.
  intros Hs Hv Hcf. destruct (sh_db _ _ Hs) as [db Ed]. assert (rdb (s_trie s) = db) as Er by (unfold rdb; by rewrite Ed).
  destruct (own_get s) as (_ & E2 & E3 & E4). unfold Commit. rewrite Ed. cbn [index rbind]. unfold CommitTo. cbn [s_trie set_keys]. rewrite E3, E4.
  destruct (CommitTo_holds (s_trie s) (hashed m) (put_keys (own s) db) (sh_holds _ _ Hs)) as (c & db' & -> & [Hsub Hnew] & Hc & T' & EN & HT' & Ed').
  { apply hashed_small; [apply Hs|done]. }
  { rewrite <- Er. by apply (put_keys_sub s m). }
  { rewrite <- Er. by apply put_keys_free. }
  assert (forall k x, K k -> db' !! secKey (Keccak256 k) = Some x -> x = k) as Htrue.
  { intros k x Kk Ex. apply Hnew in Ex as [Ex|[e Ee]]; [rewrite <- Er in Ex; by apply (put_keys_true s m) in Ex|].
    exfalso. eapply secKey_not_node; [|exact Ee]. apply length_be_bytes. }
  cbn [rbind]. eexists _, db'. split; [done|]. rewrite <- Er in Hsub. unfold attach, set_trie. cbn [s_trie set_keys secKeyCache owned t_root t_db].
  split_and!; [by eapply attach_sholds|done|etrans; [by apply (put_keys_sub s m)|done]|].
  intros cachelimit. unfold NewSecure. rewrite EN. cbn [rbind]. eexists. split; [done|]. unfold SetCacheLimit. rewrite Ed'.
  eapply attach_sholds; try done. destruct HT' as (t & W & R & HC). exists t. split_and!; try done. unfold rdb in *. by rewrite Ed' in R.
Qed.

(** A secure trie that is committed and opened again from its root holds the same bindings, and
    still knows the keys behind the hashes. *)
Theorem secure_Commit_NewSecure (s : SecureTrie) (m : database) (cachelimit : Z) :
  sholds s m -> values_small m -> collision_free (rdb (s_trie s)) (hashed m) ->
  exists s' s'', Commit s = Done (root_of (hashed m), s') /\ sholds s' m /\
    NewSecure (root_of (hashed m)) (Some (rdb (s_trie s'))) cachelimit = Done s'' /\ sholds s'' m.
Proof.
  intros Hs Hv Hcf. destruct (Commit_sholds s m Hs Hv Hcf) as (s' & db' & E & Hs' & <- & _ & HN).
  destruct (HN cachelimit) as (s'' & EN & Hs''). by exists s', s''.
Qed.
End prims.
End SecureTrieThms.
