(* ===== verification/VmThms.v ===== *)
(** * Theorems on the virtual machine

    The main properties of [core/vm], proved from VmRun.v (safety and termination), VmCalls.v
    (atomicity of calls) and VmFacts.v (memory and gas arithmetic).  Each theorem that has
    hypotheses is applied, in a witness, to the journalled state database of State.v at
    the ideal digest of Ideal.v. *)

From S2P Require Import Prelude GoMath Params World WorldFacts Rlp VmBase Vm VmFacts State StateProofs.
From S2P Require Import Ideal VmJump VmSafe VmCalls VmOps VmRun VmFuel StateThms.

Module VmThms.
Import Vm VmFacts VmJump WorldFacts VmSafe VmCalls VmOps VmRun.
#[local] Existing Instance StateProofs.StateDB_ops.
#[local] Existing Instance StateProofs.StateDB_spec.

(** ** A concrete machine for the witnesses *)

Definition demo_config : ChainConfig :=
  mkChainConfig (Some 1) (Some 0) None false (Some 0) 0 (Some 0) (Some 0) None.
Definition demo_env : Env :=
  mkEnv false false false demo_config (fun n => 0) 1 1 0 4712388 5 1000 131072 (fun _ => false).
Definition demo_w : W := mkW (State.New ∅ ∅ ∅) ∅ 0 0.

Lemma demo_env_ok : env_ok demo_env.
Proof. split; unfold in_u256; cbn; intros; lia || done. Qed.
Lemma demo_w_ok : W_ok demo_w.
Proof.
  split; [apply StateThms.wf_New_empty|split; [|vm_compute; reflexivity]|apply dests_ok_empty|cbn; lia].
  intros a x H. change (wabs demo_w) with (StateProofs.abs (State.New ∅ ∅ ∅)) in H.
  by rewrite StateProofs.abs_lookup in H.
Qed.
(** A world in which account 7 owns 100. *)
Definition funded_w : W := upd_sdb (AddBalance 7 100) demo_w.
Lemma funded_w_ok : W_ok funded_w.
Proof.
  pose proof demo_w_ok as [Hwf [Ha _] Hd Hdep].
  destruct (AddBalance_ok 7 100 (sdb demo_w) Hwf) as (Hwf' & Habs & _).
  split; [exact Hwf'| |exact Hd|exact Hdep].
  unfold wabs, funded_w. cbn [sdb upd_sdb]. rewrite Habs. split; [|vm_compute; reflexivity].
  eapply (upd_balance_accts 7 _ 100); [done| |exact Ha]. vm_compute. discriminate.
Qed.
Lemma funded_W_post : W_ok funded_w /\ depth funded_w <= CallCreateDepth.
Proof. split; [apply funded_w_ok|]. cbn. unfold CallCreateDepth. lia. Qed.

(** [PUSH1 1 PUSH1 2 ADD STOP] *)
Definition demo_code : list byte := [Byte.x60; Byte.x01; Byte.x60; Byte.x02; Byte.x01; Byte.x00].
Definition demo_contract : Contract :=
  mkContract 7 8 demo_code (Keccak256Hash demo_code) (Some 8) [] 100 0 false.
Lemma demo_contract_ok : contract_ok demo_contract.
Proof. split; unfold in_u64, in_u256; cbn; done || lia. Qed.

(** ** Safety and termination of the interpreter *)

(** C1: The interpreter is total and safe: with gas metering on and less than [GasCap] gas, fuel
    exceeding the gas is enough for it to return; it does not panic, never returns more gas
    than it was given, leaves the state database and the machine well formed and the call
    depth unchanged, creates no ether, and does not lower the refund counter. *)
Theorem interpreter_safe `{C : CryptoPrims} `{CO : !CryptoOK} {S} `{SI : StateDBI S} `{SP : !StateDBSpec S}
    (env : Env) (fuel : nat) (c : Contract) (input : list byte) (w : W) :
  env_ok env -> contract_ok c -> Gas c < GasCap -> (Z.to_nat (Gas c) < fuel)%nat ->
  zlen input < 2 ^ 63 -> W_ok w -> depth w <= CallCreateDepth ->
  exists ret err c' w', Run fuel env c input w = Ret (ret, err, c', w') /\
    0 <= Gas c' <= Gas c /\ W_ok w' /\ depth w' = depth w /\
    supply (wabs w') <= supply (wabs w) /\ w_refund (wabs w) <= w_refund (wabs w').
Proof.
  intros He Hc Hg Hn Hi Hw Hd.
  destruct (Run_safe env He fuel c input w Hc Hg Hn Hi Hw Hd) as ([[[ret err] c'] w'] & E & [Hg0 Hg1] & _ & Hp).
  destruct Hp as [Hok _ Hdep [Hs Hr _]]. exists ret, err, c', w'. by split_and!.
Qed.

Lemma interpreter_safe_witness :
  exists ret err c' w', Run 101 demo_env demo_contract [] funded_w = Ret (ret, err, c', w') /\
    0 <= Gas c' <= 100 /\ W_ok w' /\ depth w' = 0 /\
    supply (wabs w') <= supply (wabs funded_w) /\ w_refund (wabs funded_w) <= w_refund (wabs w').
Proof.
  apply (interpreter_safe demo_env 101 demo_contract [] funded_w);
    [apply demo_env_ok|apply demo_contract_ok|vm_compute; reflexivity|apply Nat.ltb_lt; reflexivity|
     vm_compute; reflexivity|apply funded_w_ok|vm_compute; discriminate].
Defined.

(** The fuel of the model is no part of the result: any two amounts of fuel above the gas
    give the same run. *)
Theorem fuel_irrelevant `{C : CryptoPrims} `{CO : !CryptoOK} {S} `{SI : StateDBI S} `{SP : !StateDBSpec S}
    (env : Env) (fuel fuel' : nat) (c : Contract) (input : list byte) (w : W) :
  env_ok env -> contract_ok c -> Gas c < GasCap ->
  (Z.to_nat (Gas c) < fuel)%nat -> (Z.to_nat (Gas c) < fuel')%nat ->
  zlen input < 2 ^ 63 -> W_ok w -> depth w <= CallCreateDepth ->
  Run fuel env c input w = Run fuel' env c input w.
Proof.
  intros He Hc Hg Hn Hn' Hi Hw Hd.
  assert (forall n, (Z.to_nat (Gas c) < n)%nat ->
    Run n env c input w = Run (Datatypes.S (Z.to_nat (Gas c))) env c input w) as H.
  { intros n Hgn. destruct (Run_safe env He (Datatypes.S (Z.to_nat (Gas c))) c input w) as (r & E & _); try done; [lia|].
    rewrite E. by apply (VmFuel.Run_mono env (Datatypes.S (Z.to_nat (Gas c)))). }
  by rewrite (H fuel), (H fuel').
Qed.

Lemma fuel_irrelevant_witness :
  Run 101 demo_env demo_contract [] funded_w = Run 500 demo_env demo_contract [] funded_w.
Proof.
  apply fuel_irrelevant;
    [apply demo_env_ok|apply demo_contract_ok|vm_compute; reflexivity|apply Nat.ltb_lt; reflexivity|
     apply Nat.ltb_lt; reflexivity|vm_compute; reflexivity|apply funded_w_ok|vm_compute; discriminate].
Defined.

(** ** Frames *)

(** The frames the main loop goes through, with the fuel left. *)
Inductive iterates `{C : CryptoPrims} {S} `{SI : StateDBI S} (env : Env)
  : nat -> Frame -> W (S:=S) -> nat -> Frame -> W (S:=S) -> Prop :=
| it_here fuel f w : iterates env fuel f w fuel f w
| it_step fuel f w f1 w1 fuel' f' w' :
    step (run_with (loop fuel env)) env f w = Ret (Continue f1 w1) ->
    iterates env fuel f1 w1 fuel' f' w' -> iterates env (Datatypes.S fuel) f w fuel' f' w'.

Lemma iterates_ok `{C : CryptoPrims} `{CO : !CryptoOK} {S} `{SI : StateDBI S} `{SP : !StateDBSpec S}
    (env : Env) fuel f w fuel' f' w' :
  iterates env fuel f w fuel' f' w' -> env_ok env -> frame_ok f -> W_ok w -> budget f < GasCap ->
  (Z.to_nat (gas_of f) < fuel)%nat ->
  frame_ok f' /\ W_post w w' /\ budget f' <= budget f /\ (Z.to_nat (gas_of f') < fuel')%nat.
Proof.
  induction 1 as [fuel f w|fuel f w f1 w1 fuel' f' w' E _ IH]; intros He Hf Hw Hb Hn.
  - split_and!; [done|by apply W_post_refl|done|done].
  - destruct (step_ok env He fuel (run_with (loop fuel env)) f w) as (x & Ex & Hx); try done;
      [by apply run_with_ok, loop_ok|lia|].
    rewrite E in Ex. injection Ex as <-. destruct Hx as (Hf1 & Hw1 & Hg1 & Hb1).
    pose proof (gas_pos f1 Hf1).
    destruct IH as (? & ? & ? & ?); [done|done|apply Hw1|lia|lia|].
    split_and!; [done|by eapply W_post_trans|lia|done].
Qed.

(** At every iteration of the main loop the stack holds at most 1024 words of 256 bits, the
    memory is a whole number of words, and those words have been paid for: the gas left and
    the quadratic fee of the memory in use never exceed the gas the run was given. *)
Theorem frames_bounded `{C : CryptoPrims} `{CO : !CryptoOK} {S} `{SI : StateDBI S} `{SP : !StateDBSpec S}
    (env : Env) (fuel fuel' : nat) (c : Contract) (input : list byte) (w w' : W) (f' : Frame) :
  env_ok env -> contract_ok c -> Gas c < GasCap -> (Z.to_nat (Gas c) < fuel)%nat ->
  zlen input < 2 ^ 63 -> W_ok w ->
  iterates env fuel (mkFrame 0 (set_input input c) NewMemory []) w fuel' f' w' ->
  zlen (stack f') <= 1024 /\ Forall in_u256 (stack f') /\ depth w' = depth w /\
  exists k, 0 <= k /\ mem_Len (memory f') = 32 * k /\
    Gas (contract f') + (3 * k + k * k / 512) <= Gas c.
Proof.
  intros He Hc Hg Hn Hi Hw Hit. set (f := mkFrame 0 _ _ _) in *.
  assert (frame_ok f) as Hf.
  { split; cbn; try done; [destruct Hc; by split|by exists 0]. }
  destruct (iterates_ok env _ _ _ _ _ _ Hit He Hf Hw) as (Hf' & Hw' & Hb & _);
    [unfold budget, gas_of; cbn; lia|done|].
  destruct (fo_mem f' Hf') as [k Hk]. rewrite (frame_fee f' k Hf' Hk) in Hb.
  split_and!; [apply Hf'|apply Hf'|apply Hw'|]. exists k. destruct Hk as [Hl _ Hk].
  split_and!; [lia|exact Hl|]. unfold fee, MemoryGas, QuadCoeffDiv, budget, gas_of in Hb. cbn in Hb. lia.
Qed.

Lemma frames_bounded_witness :
  exists f' w', iterates demo_env 101 (mkFrame 0 (set_input [] demo_contract) NewMemory []) funded_w 98 f' w' /\
    stack f' = [3] /\ zlen (stack f') <= 1024.
Proof.
  eexists _, _.
  assert (forall f' w', iterates demo_env 101 (mkFrame 0 (set_input [] demo_contract) NewMemory []) funded_w 98 f' w' ->
    zlen (stack f') <= 1024) as H.
  { intros f' w' Hit. eapply (frames_bounded demo_env 101 98 demo_contract [] funded_w w' f');
    [apply demo_env_ok|apply demo_contract_ok|vm_compute; reflexivity|apply Nat.ltb_lt; reflexivity|
     vm_compute; reflexivity|apply funded_w_ok|exact Hit]. }
  match goal with |- ?A /\ _ => assert A as Hit end.
  { eapply it_step; [vm_compute; reflexivity|]. eapply it_step; [vm_compute; reflexivity|].
    eapply it_step; [vm_compute; reflexivity|]. apply it_here. }
  split; [exact Hit|]. split; [reflexivity|]. exact (H _ _ Hit).
Defined.

(** ** Calls *)

Section calls.
Context `{C : CryptoPrims} `{CO : !CryptoOK} {S : Type} `{SI : StateDBI S} `{SP : !StateDBSpec S}.

(** C2: [EVM.Call] returns whatever code is called: it does not panic, returns at most the gas
    it was given, keeps the machine well formed, creates no ether, and if it reports an error
    the world is exactly what it was before the call. *)
Theorem Call_atomic (env : Env) (fuel : nat) (caller : ContractRef) (addr : Address)
    (input : list byte) (gas v : Z) (w : W (S:=S)) :
  env_ok env -> ref_ok caller -> in_u256 v -> in_u256 addr -> zlen input < 2 ^ 63 ->
  0 <= gas < GasCap -> (Z.to_nat gas < fuel)%nat -> W_ok w ->
  exists ret g err w', Call (Run fuel env) env caller addr input gas v w = Ret (ret, g, err, w') /\
    0 <= g <= gas /\ W_ok w' /\ depth w' = depth w /\ supply (wabs w') <= supply (wabs w) /\
    (err <> None -> wabs w' = wabs w).
Proof.
  intros He Hr Hv Ha Hi Hg Hn Hw.
  destruct (Call_ok fuel (Run fuel env) env caller gas v w (Run_safe env He fuel) Hr Hv Hg Hn Hw addr input Ha Hi)
    as ([[[ret g] err] w'] & E & _ & [Hg0 Hg1] & [Hok _ Hd [Hs _ _]] & Herr).
  exists ret, g, err, w'. by split_and!.
Qed.

(** The same for [EVM.CallCode]. *)
Theorem CallCode_atomic (env : Env) (fuel : nat) (caller : ContractRef) (addr : Address)
    (input : list byte) (gas v : Z) (w : W (S:=S)) :
  env_ok env -> ref_ok caller -> in_u256 v -> zlen input < 2 ^ 63 ->
  0 <= gas < GasCap -> (Z.to_nat gas < fuel)%nat -> W_ok w ->
  exists ret g err w', CallCode (Run fuel env) env caller addr input gas v w = Ret (ret, g, err, w') /\
    0 <= g <= gas /\ W_ok w' /\ depth w' = depth w /\ supply (wabs w') <= supply (wabs w) /\
    (err <> None -> wabs w' = wabs w).
Proof.
  intros He Hr Hv Hi Hg Hn Hw.
  destruct (CallCode_ok fuel (Run fuel env) env caller gas v w (Run_safe env He fuel) Hr Hv Hg Hn Hw addr input Hi)
    as ([[[ret g] err] w'] & E & _ & [Hg0 Hg1] & [Hok _ Hd [Hs _ _]] & Herr).
  exists ret, g, err, w'. by split_and!.
Qed.

(** The same for [EVM.DelegateCall] from a contract. *)
Theorem DelegateCall_atomic (env : Env) (fuel : nat) (parent : Contract) (addr : Address)
    (input : list byte) (gas : Z) (w : W (S:=S)) :
  env_ok env -> contract_ok parent -> zlen input < 2 ^ 63 ->
  0 <= gas < GasCap -> (Z.to_nat gas < fuel)%nat -> W_ok w ->
  exists ret g err w',
    EvmDelegateCall (Run fuel env) env (ContractOf parent) addr input gas w = Ret (ret, g, err, w') /\
    0 <= g <= gas /\ W_ok w' /\ depth w' = depth w /\ supply (wabs w') <= supply (wabs w) /\
    (err <> None -> wabs w' = wabs w).
Proof.
  intros He Hp Hi Hg Hn Hw.
  destruct (DelegateCall_ok fuel (Run fuel env) env parent addr input gas w (Run_safe env He fuel) Hp Hg Hn Hw Hi)
    as ([[[ret g] err] w'] & E & _ & [Hg0 Hg1] & [Hok _ Hd [Hs _ _]] & Herr).
  exists ret, g, err, w'. by split_and!.
Qed.

(** C7: [EVM.Create] returns for every initialisation code, with at most the gas it was given; if
    it reports an error, other than the missing deposit that Frontier tolerates, the world is
    what it was before, up to the nonce of the creator. *)
Theorem Create_atomic (env : Env) (fuel : nat) (caller : ContractRef) (code : list byte)
    (gas v : Z) (w : W (S:=S)) :
  env_ok env -> ref_ok caller -> in_u256 v -> zlen code < 2 ^ 62 ->
  0 <= gas < GasCap -> (Z.to_nat gas < fuel)%nat -> W_ok w ->
  exists ret addr g err w', Create (Run fuel env) env caller code gas v w = Ret (ret, addr, g, err, w') /\
    0 <= g <= gas /\ W_ok w' /\ depth w' = depth w /\ supply (wabs w') <= supply (wabs w) /\
    (err <> None -> homestead env = true \/ err <> Some ErrCodeStoreOutOfGas ->
     wabs w' = wabs w \/
     wabs w' = w_set_nonce (ref_Address caller) (u64 (w_nonce (ref_Address caller) (wabs w) + 1)) (wabs w)).
Proof.
  intros He Hr Hv Hl Hg Hn Hw.
  destruct (Create_ok fuel (Run fuel env) env caller code gas v w (Run_safe env He fuel) Hr Hv Hg Hn Hw Hl)
    as ([[[[ret addr] g] err] w'] & E & _ & _ & [Hg0 Hg1] & [Hok _ Hd [Hs _ _]] & Herr).
  exists ret, addr, g, err, w'. by split_and!.
Qed.

(** A creation whose code exceeds [MaxCodeSize] is undone, with all its gas consumed, and
    yet reports no error, so that [CREATE] pushes the address of an account that does not
    exist. *)
Theorem Create_oversize (env : Env) (addr : Address) (id : Z) (w w1 w2 : W (S:=S)) (ret : list byte)
    (c : Contract) :
  can_revert id w w1 -> W_post w1 w2 -> in_u64 (Gas c) -> MaxCodeSize < zlen ret ->
  exists w', finish_create env addr id (ret, None, c, w2) = Ret (ret, addr, 0, None, w') /\
             wabs w' = wabs w.
Proof.
  intros Hrev Hp Hg Hl. destruct (Hrev w2 Hp) as (s3 & E3 & _ & Ha). eexists. split; [|exact Ha].
  unfold finish_create. rewrite Z.gtb_ltb, (proj2 (Z.ltb_lt _ _) Hl). cbn [orb].
  rewrite E3. cbn [or_panic obind]. by rewrite UseGas_all.
Qed.
End calls.

Lemma Call_atomic_witness :
  exists ret g err w', Call (Run 1001 demo_env) demo_env (AccountRef 7) 9 [] 1000 40 funded_w
    = Ret (ret, g, err, w') /\ 0 <= g <= 1000 /\ W_ok w' /\ depth w' = depth funded_w /\
    supply (wabs w') <= supply (wabs funded_w) /\ (err <> None -> wabs w' = wabs funded_w).
Proof.
  apply (Call_atomic demo_env 1001 (AccountRef 7) 9 [] 1000 40 funded_w);
    [apply demo_env_ok|split; [discriminate|reflexivity]|split; [discriminate|reflexivity]|
     split; [discriminate|reflexivity]|reflexivity|split; [discriminate|reflexivity]|
     apply Nat.ltb_lt; reflexivity|apply funded_w_ok].
Defined.
Lemma CallCode_atomic_witness :
  exists ret g err w', CallCode (Run 1001 demo_env) demo_env (AccountRef 7) 9 [] 1000 40 funded_w
    = Ret (ret, g, err, w') /\ 0 <= g <= 1000 /\ W_ok w' /\ depth w' = depth funded_w /\
    supply (wabs w') <= supply (wabs funded_w) /\ (err <> None -> wabs w' = wabs funded_w).
Proof.
  apply (CallCode_atomic demo_env 1001 (AccountRef 7) 9 [] 1000 40 funded_w);
    [apply demo_env_ok|split; [discriminate|reflexivity]|split; [discriminate|reflexivity]|
     reflexivity|split; [discriminate|reflexivity]|apply Nat.ltb_lt; reflexivity|apply funded_w_ok].
Defined.
Lemma DelegateCall_atomic_witness :
  exists ret g err w', EvmDelegateCall (Run 1001 demo_env) demo_env (ContractOf demo_contract) 4 demo_code 1000 funded_w
    = Ret (ret, g, err, w') /\ 0 <= g <= 1000 /\ W_ok w' /\ depth w' = depth funded_w /\
    supply (wabs w') <= supply (wabs funded_w) /\ (err <> None -> wabs w' = wabs funded_w).
Proof.
  apply (DelegateCall_atomic demo_env 1001 demo_contract 4 demo_code 1000 funded_w);
    [apply demo_env_ok|apply demo_contract_ok|reflexivity|split; [discriminate|reflexivity]|
     apply Nat.ltb_lt; reflexivity|apply funded_w_ok].
Defined.
Lemma Create_atomic_witness :
  exists ret addr g err w', Create (Run 1001 demo_env) demo_env (AccountRef 7) demo_code 1000 40 funded_w
    = Ret (ret, addr, g, err, w') /\ 0 <= g <= 1000 /\ W_ok w' /\ depth w' = depth funded_w /\
    supply (wabs w') <= supply (wabs funded_w) /\
    (err <> None -> homestead demo_env = true \/ err <> Some ErrCodeStoreOutOfGas ->
     wabs w' = wabs funded_w \/
     wabs w' = w_set_nonce (ref_Address (AccountRef 7))
       (u64 (w_nonce (ref_Address (AccountRef 7)) (wabs funded_w) + 1)) (wabs funded_w)).
Proof.
  apply (Create_atomic demo_env 1001 (AccountRef 7) demo_code 1000 40 funded_w);
    [apply demo_env_ok|split; [discriminate|reflexivity]|split; [discriminate|reflexivity]|
     reflexivity|split; [discriminate|reflexivity]|apply Nat.ltb_lt; reflexivity|apply funded_w_ok].
Defined.
Lemma Create_oversize_witness :
  exists w', finish_create demo_env 9 0 (zeros 24577, None, demo_contract, set_sdb (Snapshot (sdb demo_w)).2 demo_w)
    = Ret (zeros 24577, 9, 0, None, w') /\ wabs w' = wabs demo_w.
Proof.
  destruct (snapshot_post demo_w demo_w_ok) as (id & w1 & E & H1 & _ & _ & Hrev).
  assert ((id, w1) = (0, set_sdb (Snapshot (sdb demo_w)).2 demo_w)) as [= -> ->]
    by (rewrite <- E; reflexivity).
  apply (Create_oversize demo_env 9 0 demo_w _ _ (zeros 24577) demo_contract Hrev);
    [apply W_post_refl, H1|split; [discriminate|reflexivity]|reflexivity].
Defined.

End VmThms.
