(* ===== verification/VmArith.v ===== *)
(** * Correctness of instructions and of gas arithmetic

    The arithmetic instructions against the integers modulo [2 ^ 256] read as signed or unsigned,
    memory and storage instructions as stores that return what was put into them, the fee
    of memory against its quadratic formula, and the gas passed to calls against the
    sixty-fourths of EIP 150. *)

From S2P Require Import Prelude GoMath Params World WorldFacts Rlp VmBase Vm VmFacts State StateProofs.
From S2P Require Import Ideal VmSafe VmOps VmThms.

Module VmArith.
Import Vm VmFacts WorldFacts VmSafe VmOps.

(** ** Arithmetic *)

Section arith.
Context `{C : CryptoPrims} {S : Type} `{SI : StateDBI S}.
Context (Run : RunFn (S:=S)) (env : Env) (f : Frame) (w : W (S:=S)).

(** Signed division truncates towards zero. *)
Lemma quot_abs a b : b <> 0 -> Z.abs a / Z.abs b * (if Z.sgn (a * b) <? 0 then -1 else 1) = Z.quot a b.
Proof.
  intros Hb. rewrite Z.quot_div by done. rewrite Z.sgn_mul.
  destruct (Z.ltb_spec (Z.sgn a * Z.sgn b) 0); [|destruct (Z.eq_dec a 0) as [->|Ha]].
  - assert (Z.sgn a * Z.sgn b = -1) as -> by (destruct (Z.sgn_spec a) as [[? ->]|[[? ->]|[? ->]]],
      (Z.sgn_spec b) as [[? ->]|[[? ->]|[? ->]]]; lia). lia.
  - change (Z.abs 0) with 0. rewrite Z.div_0_l by lia. lia.
  - assert (Z.sgn a * Z.sgn b = 1) as -> by (destruct (Z.sgn_spec a) as [[? ->]|[[? ->]|[? ->]]],
      (Z.sgn_spec b) as [[? ->]|[[? ->]|[? ->]]]; lia). lia.
Qed.
Lemma rem_abs a b : b <> 0 -> Z.abs a mod Z.abs b * (if Z.sgn a <? 0 then -1 else 1) = Z.rem a b.
Proof.
  intros Hb. rewrite Z.rem_mod by done.
  destruct (Z.sgn_spec a) as [[_ ->]|[[H ->]|[_ ->]]]; [| |change (- (1) <? 0) with true; ring]; cbn [Z.ltb Z.compare]; [ring|].
  rewrite <- H. change (Z.abs 0) with 0. rewrite Z.mod_0_l by lia. lia.
Qed.
Lemma S256_0 y : in_u256 y -> S256 y = 0 <-> y = 0.
Proof. unfold in_u256, S256, tt255, tt256. intros H. destruct (Z.ltb_spec y (2 ^ 255)); lia. Qed.

(** [SDIV] and [SMOD] compute, on two's complement words, the quotient truncated towards
    zero and the remainder with the sign of the dividend; by zero, both give zero. *)
Theorem signed_division x y st :
  in_u256 x -> in_u256 y -> stack f = x :: y :: st ->
  opSdiv Run env f w
    = Ret (XOk [] (set_stack ((if y =? 0 then 0 else U256 (Z.quot (S256 x) (S256 y))) :: st) f) w) /\
  opSmod Run env f w
    = Ret (XOk [] (set_stack ((if y =? 0 then 0 else U256 (Z.rem (S256 x) (S256 y))) :: st) f) w).
Proof.
  intros Hx Hy E. unfold opSdiv, opSmod, bin_op. rewrite E. pose proof (S256_0 y Hy) as H0.
  unfold Sign. destruct (Z.eqb_spec (Z.sgn (S256 y)) 0) as [Ey|Ey]; destruct (Z.eqb_spec y 0) as [E0|E0];
    try (done || lia). by rewrite quot_abs, rem_abs by lia.
Qed.

(** [EXP] is exponentiation modulo [2 ^ 256], although the loop multiplies through the words
    of the exponent one bit at a time. *)
Theorem exp_correct x y st :
  in_u256 x -> in_u256 y -> stack f = x :: y :: st ->
  opExp Run env f w = Ret (XOk [] (set_stack (x ^ y mod 2 ^ 256 :: st) f) w).
Proof.
  intros Hx Hy E. unfold opExp, bin_op. rewrite E. by rewrite Exp_fst by apply Hy.
Qed.

(** The value of the low [b] bits of [x] in two's complement. *)
Definition sign_extended (b x : Z) : Z :=
  let m := x mod 2 ^ b in if m <? 2 ^ (b - 1) then m else m - 2 ^ b.

Lemma mod_pow_S x n :
  0 <= n -> x mod 2 ^ (n + 1) = x mod 2 ^ n + (if Z.testbit x n then 2 ^ n else 0).
Proof.
  intros Hn. rewrite Z.pow_add_r, Z.rem_mul_r by (try apply Z.pow_nonzero; lia).
  rewrite Z.pow_1_r, <- Z.testbit_spec' by done. destruct (Z.testbit x n); cbn [Z.b2z]; lia.
Qed.
Lemma lor_lnot_ones x n : 0 <= n -> Z.lor x (Z.lnot (Z.ones n)) = x mod 2 ^ n - 2 ^ n.
Proof.
  intros Hn. rewrite <- (Z.lnot_involutive x) at 1. rewrite <- Z.lnot_land, Z.land_ones by done.
  assert (Z.lnot x mod 2 ^ n = 2 ^ n - 1 - x mod 2 ^ n) as ->; [|unfold Z.lnot; lia].
  pose proof (Z.pow_pos_nonneg 2 n ltac:(lia) Hn). pose proof (Z.mod_pos_bound x (2 ^ n) ltac:(lia)).
  symmetry. apply Z.mod_unique with (- (x / 2 ^ n) - 1); [lia|].
  unfold Z.lnot. pose proof (Z.div_mod x (2 ^ n) ltac:(lia)). nia.
Qed.

(** [SIGNEXTEND] with a byte index below 31 keeps the value of the low bytes read in two's
    complement; with a larger index it keeps the word. *)
Theorem signextend_correct back num st :
  in_u256 back -> in_u256 num -> stack f = back :: num :: st ->
  opSignExtend Run env f w
    = Ret (XOk [] (set_stack
        ((if back <? 31 then U256 (sign_extended (8 * (back + 1)) num) else num) :: st) f) w).
Proof.
  unfold in_u256. intros Hb Hn E. unfold opSignExtend. rewrite E.
  destruct (Z.ltb_spec back 31) as [Hlt|]; [|done]. rewrite Uint64_small, u64_small by lia.
  set (bit := back * 8 + 7). do 5 f_equal. rewrite Z.shiftl_1_l.
  replace (2 ^ bit - 1) with (Z.ones bit) by (rewrite Z.ones_equiv; lia).
  rewrite lor_lnot_ones, Z.land_ones by lia. unfold sign_extended.
  replace (8 * (back + 1)) with (bit + 1) by lia. replace (bit + 1 - 1) with bit by lia.
  pose proof (Z.pow_pos_nonneg 2 bit ltac:(lia) ltac:(lia)) as Hp.
  rewrite mod_pow_S by lia. pose proof (Z.mod_pos_bound num (2 ^ bit) Hp).
  rewrite Z.pow_add_r, Z.pow_1_r by lia. destruct (Z.testbit num bit).
  - destruct (Z.ltb_spec (num mod 2 ^ bit + 2 ^ bit) (2 ^ bit)); lia.
  - rewrite Z.add_0_r. destruct (Z.ltb_spec (num mod 2 ^ bit) (2 ^ bit)); [done|lia].
Qed.

(** [BYTE] selects a byte counted from the most significant end of the 32-byte word. *)
Theorem byte_correct th val st :
  in_u256 th -> in_u256 val -> stack f = th :: val :: st ->
  opByte Run env f w
    = Ret (XOk [] (set_stack
        ((if th <? 32 then (val / 256 ^ (31 - th)) mod 256 else 0) :: st) f) w).
Proof.
  unfold in_u256. intros Ht Hv E. unfold opByte, bin_op. rewrite E. do 5 f_equal.
  destruct (Z.ltb_spec th 32); [|done]. rewrite Int64_small by lia. unfold ByteAt.
  destruct (Nat.leb_spec 32 (Z.to_nat th)); [lia|]. rewrite bigEndianByteAt_spec, Z.abs_eq by lia.
  do 3 f_equal. lia.
Qed.
End arith.
(** [math.Exp] overwrites its first argument: it squares the base in place. *)
Theorem exp_changes_base : (Exp 3 2).2 <> 3.
Proof. vm_compute. discriminate. Qed.

(** ** Memory and storage *)

Section stores.
Context `{C : CryptoPrims} `{CO : !CryptoOK} {S : Type} `{SI : StateDBI S} `{SP : !StateDBSpec S}.
Context (Run : RunFn (S:=S)) (env : Env) (f : Frame) (w : W (S:=S)).

(** [MSTORE] followed by [MLOAD] at the same address gives back the word, and no byte
    outside the 32 it was stored in changes. *)
Theorem mstore_mload off v st :
  frame_ok f -> in_u256 off -> in_u256 v -> stack f = off :: v :: st ->
  calcMemSize off 32 <= mem_Len (memory f) ->
  exists m, opMstore Run env f w = Ret (XOk [] (set_memory m (set_stack st f)) w) /\
    (let f' := set_memory m (set_stack (off :: st) f) in
     opMload Run env f' w = Ret (XOk [] (set_stack (v :: st) f') w)) /\
    forall i, (i < Z.to_nat off \/ Z.to_nat off + 32 <= i)%nat -> store m !! i = store (memory f) !! i.
Proof.
  intros Hf Ho Hv E Hc. destruct (fo_mem f Hf) as [k [Hl _ Hk]]. change (calcMemSize off 32) with (off + 32) in Hc.
  unfold in_u256, mem_Len in *. unfold opMstore, mem_Set. rewrite E. rewrite Uint64_small by lia.
  rewrite PaddedBigBytes_spec by exact Hv. rewrite !Z.gtb_ltb.
  destruct (Z.ltb_spec (zlen (store (memory f))) 32); [lia|]. cbn [Z.ltb Z.compare].
  rewrite u64_small, slice_Some by lia. cbn [obind]. rewrite (take_ge (be_bytes 32 v)) by (by rewrite length_be_bytes).
  eexists. split; [done|]. split.
  - cbn zeta. unfold opMload. cbn [stack set_memory memory set_stack].
    unfold mem_Get. cbn [Z.eqb store]. rewrite Int64_small, Z.gtb_ltb by lia.
    unfold zlen at 1. rewrite length_copy_at by (unfold zlen in *; lia). fold (zlen (store (memory f))).
    destruct (Z.ltb_spec off (zlen (store (memory f)))); [|lia]. rewrite i64_small by lia.
    pose proof (slice_copy_at (store (memory f)) (be_bytes 32 v) (Z.to_nat off)) as Hs.
    unfold zlen in Hs, Hl, Hc. rewrite length_be_bytes, Z2Nat.id in Hs by lia. change (Z.of_nat 32) with 32 in Hs.
    rewrite Hs by lia. cbn [or_panic obind]. by rewrite SetBytes_be_bytes, Z.mod_small by exact Hv.
  - intros i Hi. cbn [store]. unfold zlen in Hl, Hc. apply lookup_copy_at_ne; rewrite length_be_bytes; lia.
Qed.

Lemma w_state_set a k v k' w0 :
  w_state a k' (w_set_state a k v w0) = if decide (k' = k) then v else w_state a k' w0.
Proof.
  unfold w_state, w_acct, w_set_state, w_upd; cbn. rewrite lookup_insert_eq. cbn. unfold store_put.
  destruct (w_accts w0 !! a) as [x|]; cbn; destruct (Z.eqb_spec v 0) as [->|];
    destruct (decide (k' = k)) as [->|]; rewrite ?lookup_delete_eq, ?lookup_insert_eq, ?lookup_delete_ne,
      ?lookup_insert_ne by done; done.
Qed.

(** [SLOAD] after [SSTORE] reads the word that was stored, at the same key, and what was
    there before, at any other key. *)
Theorem sstore_sload key v key' st :
  W_ok w -> in_u256 key -> in_u256 v -> in_u256 key' -> stack f = key :: v :: st ->
  exists w' w'', opSstore Run env f w = Ret (XOk [] (set_stack st f) w') /\
    opSload Run env (set_stack (key' :: st) f) w'
    = Ret (XOk [] (set_stack ((if decide (key' = key) then v
                               else w_state (self (contract f)) key' (wabs w)) :: st) f) w'').
Proof.
  intros Hw Hk Hv Hk' E.
  destruct (upd_post _ _ w (SetState_ok (self (contract f)) key v)) as (H1 & E1 & _);
    [by apply w_set_state_inv|done|].
  set (w' := upd_sdb _ w) in *.
  destruct (get_post _ _ w' (GetState_ok (self (contract f)) key') (wp_ok _ _ H1)) as (w2 & E2 & _).
  exists w', w2. unfold opSstore, opSload. rewrite E. cbn [stack set_stack contract].
  rewrite !BigToHash_mod, !Z.mod_small by (done || apply Hk || apply Hk' || apply Hv).
  split; [done|]. by rewrite E2, E1, w_state_set.
Qed.

(** [getData] returns the bytes from [start] on, as many as were asked for, with zeros past
    the end of the data, for every offset of 256 bits. *)
Theorem getData_correct (data : list byte) (start n : Z) :
  0 <= start -> 0 <= n < 2 ^ 63 -> zlen data < 2 ^ 63 ->
  exists d, getData data start n = Ret d /\ zlen d = n /\
    forall i : nat, (i < length d)%nat -> d !! i = Some (default Byte.x00 (data !! (Z.to_nat start + i)%nat)).
Proof.
  intros Hs Hn Hd. unfold getData, BigMin. pose proof (zlen_nonneg data) as H0.
  set (s := if start >? zlen data then zlen data else start).
  assert (0 <= s <= zlen data /\ (s = start \/ (s = zlen data /\ zlen data < start))) as [Hs' Hcase]
    by (unfold s; rewrite Z.gtb_ltb; bdestr; lia).
  set (e := if s + n >? zlen data then zlen data else s + n).
  assert (s <= e <= zlen data /\ e <= s + n /\ (e = s + n \/ e = zlen data)) as (He & He' & Hcase')
    by (unfold e; rewrite Z.gtb_ltb; bdestr; lia).
  rewrite (Uint64_small s), (Uint64_small e), slice_Some by lia. cbn [obind or_panic].
  rewrite Uint64_small, i64_small by lia. rewrite RightPadBytes_spec. clearbody s e.
  set (d := take (Z.to_nat (e - s)) (drop (Z.to_nat s) data)).
  assert (zlen d = e - s) as Hlen by (unfold d, zlen in *; rewrite length_take, length_drop; lia).
  eexists. split; [done|]. split.
  - rewrite zlen_app, Hlen. unfold zlen. rewrite length_zeros. lia.
  - intros i Hi. rewrite length_app, length_zeros in Hi. unfold zlen in *.
    destruct (decide (i < length d)%nat) as [Hid|Hid].
    + rewrite lookup_app_l by done. unfold d. rewrite lookup_take_lt, lookup_drop by lia.
      replace (Z.to_nat s) with (Z.to_nat start) by lia.
      destruct (lookup_lt_is_Some_2 data (Z.to_nat start + i)) as [x ->]; [lia|done].
    + rewrite lookup_app_r by lia. unfold zeros. rewrite lookup_replicate_2 by lia.
      by rewrite (lookup_ge_None_2 data) by lia.
Qed.
End stores.

(** ** Gas *)

(** [memoryGasCost] charges exactly the difference of the quadratic fees of the new and the
    old number of words, and records the new total, as long as the new size is below [2 ^ 32]
    words. *)
Theorem memory_fee_exact (m : Memory) (k n : Z) :
  mem_ok m k -> 0 <= n <= 32 * (2 ^ 32 - 1) ->
  let s := (n + 31) / 32 in
  memoryGasCost m n
  = (Some (fee (Z.max k s) - fee k), mkMemory (store m) (fee (Z.max k s))).
Proof.
  intros [Hlen Hfee Hk] Hn s. pose proof (word_bounds n ltac:(lia)) as [Hw Hs0]. fold s in Hw, Hs0.
  assert (s < 2 ^ 32) as Hs by lia. unfold memoryGasCost, MaxUint64. rewrite Z.gtb_ltb.
  destruct (Z.ltb_spec (2 ^ 64 - 1 - 32) n); [lia|].
  assert (Z.max k s = k -> (Some 0, m) = (Some (fee (Z.max k s) - fee k), mkMemory (store m) (fee (Z.max k s)))) as Hsame.
  { intros ->. rewrite Z.sub_diag, <- Hfee. by destruct m. }
  destruct (Z.eqb_spec n 0) as [->|]; [apply Hsame; unfold s; cbn; lia|].
  rewrite toWordSize_spec by lia. fold s. rewrite u64_small by lia. unfold mem_Len. rewrite Hlen, Z.gtb_ltb.
  destruct (Z.ltb_spec (32 * k) (s * 32)); [|apply Hsame; lia].
  rewrite Z.max_r by lia. rewrite Hfee. unfold fee, MemoryGas, QuadCoeffDiv in *.
  assert (0 <= s * s < 2 ^ 64) by nia. pose proof (Z.div_pos (s * s) 512 ltac:(lia) ltac:(lia)).
  pose proof (Z.div_lt_upper_bound (s * s) 512 (2 ^ 55) ltac:(lia) ltac:(lia)).
  pose proof (fee_mono k s ltac:(lia)) as Hm. unfold fee, MemoryGas, QuadCoeffDiv in Hm.
  pose proof (Z.div_pos (k * k) 512 ltac:(nia) ltac:(lia)).
  rewrite (u64_small (s * s)), (u64_small (s * 3)) by lia.
  rewrite (u64_small (s * 3 + _)), u64_small by lia. do 2 f_equal; lia.
Qed.

(** At [2 ^ 32] words, which the guard of [memoryGasCost] admits, the square of the word
    count wraps: the fee asked is [3 * 2 ^ 32] where the formula gives [2 ^ 55] more. *)
Theorem memory_fee_wraps :
  memoryGasCost NewMemory (32 * 2 ^ 32) = (Some (3 * 2 ^ 32), mkMemory [] (3 * 2 ^ 32)) /\
  fee (2 ^ 32) = 3 * 2 ^ 32 + 2 ^ 55.
Proof. by vm_compute. Qed.

(** Since EIP 150 a call gets what it asks for, up to all but one sixty-fourth of the gas
    left once the call itself is paid for; before, it gets what it asks for, or the call fails
    when that exceeds 64 bits. *)
Theorem callGas_correct (gt : GasTable) (avail base requested : Z) :
  0 <= base <= avail -> in_u64 avail -> 0 <= requested ->
  callGas gt avail base requested =
    if gt_CreateBySuicide gt >? 0
    then Some (Z.min requested ((avail - base) - (avail - base) / 64))
    else if requested <? 2 ^ 64 then Some requested else None.
Proof.
  unfold in_u64. intros Hb Ha Hr. unfold callGas. rewrite BitLen_64 by done. rewrite (u64_small (avail - base)) by lia.
  pose proof (Z.div_pos (avail - base) 64 ltac:(lia) ltac:(lia)).
  pose proof (Z.div_le_upper_bound (avail - base) 64 (avail - base) ltac:(lia) ltac:(lia)).
  rewrite u64_small by lia.
  destruct (_ >? 0), (Z.ltb_spec requested (2 ^ 64)); cbn [negb orb]; try done.
  - rewrite Uint64_small by lia. destruct (Z.ltb_spec (avail - base - (avail - base) / 64) requested); f_equal; lia.
  - f_equal. lia.
  - by rewrite Uint64_small by lia.
Qed.

(** The recovery precompile overwrites byte 128 of the caller's input with the recovery id
    when the input is longer than the 128 bytes it reads and its signature is well formed. *)
Theorem ecrecover_writes_input `{C : CryptoPrims} `{CO : !CryptoOK} (input : list byte) (vb : byte) :
  128 < zlen input -> zlen input < 2 ^ 63 -> input !! 63%nat = Some vb ->
  allZero (take 31 (drop 32 input)) = true ->
  ValidateSignatureValues ((byte_to_Z vb - 27) mod 256) (SetBytes (take 32 (drop 64 input)))
    (SetBytes (take 32 (drop 96 input))) false = true ->
  exists ret, ecrecover_Run input = Ret (ret, <[128%nat := byte_of_Z ((byte_to_Z vb - 27) mod 256)]> input).
Proof.
  intros Hl Hi Hv Hz Hs. unfold ecrecover_Run. rewrite RightPadBytes_spec.
  replace (Z.to_nat (128 - zlen input)) with 0%nat by lia. change (zeros 0) with (@nil byte). rewrite app_nil_r.
  rewrite !(slice_Some input) by lia. rewrite Hv. cbn [or_panic obind].
  change (Z.to_nat (96 - 64)) with 32%nat. change (Z.to_nat 64) with 64%nat.
  change (Z.to_nat (128 - 96)) with 32%nat. change (Z.to_nat 96) with 96%nat.
  change (Z.to_nat (63 - 32)) with 31%nat. change (Z.to_nat 32) with 32%nat.
  rewrite Hz, Hs. cbn [negb orb]. rewrite Z.gtb_ltb, (proj2 (Z.ltb_lt _ _) Hl).
  destruct (EcrecoverPub _ _) as [pub|] eqn:E; [|eauto]. apply ecrecover_len in E.
  rewrite (slice_Some pub) by (unfold zlen; lia). cbn [or_panic obind]. eauto.
Qed.

(** ** Witnesses *)

#[local] Existing Instance StateProofs.StateDB_ops.
#[local] Existing Instance StateProofs.StateDB_spec.
Import VmThms.
Definition demo_frame (st : list Z) : Frame := mkFrame 0 demo_contract (mkMemory (zeros 32) 3) st.
Definition minus (n : Z) : Z := 2 ^ 256 - n.

Lemma demo_frame_ok st : Forall in_u256 st -> zlen st <= 1024 -> frame_ok (demo_frame st).
Proof.
  intros H1 H2. split; [apply demo_contract_ok|by split|exact H1|exact H2|]. exists 1. by split.
Qed.

Lemma signed_division_witness :
  opSdiv (Run 0 demo_env) demo_env (demo_frame [minus 7; 2]) demo_w
    = Ret (XOk [] (demo_frame [minus 3]) demo_w) /\
  opSmod (Run 0 demo_env) demo_env (demo_frame [minus 7; 2]) demo_w
    = Ret (XOk [] (demo_frame [minus 1]) demo_w).
Proof.
  apply (signed_division (Run 0 demo_env) demo_env (demo_frame [minus 7; 2]) demo_w (minus 7) 2 []);
    [split; [discriminate|reflexivity]|split; [discriminate|reflexivity]|reflexivity].
Defined.
Lemma exp_correct_witness :
  opExp (Run 0 demo_env) demo_env (demo_frame [3; 2 ^ 64 + 5]) demo_w
    = Ret (XOk [] (demo_frame [3 ^ (2 ^ 64 + 5) mod 2 ^ 256]) demo_w).
Proof.
  apply (exp_correct (Run 0 demo_env) demo_env (demo_frame [3; 2 ^ 64 + 5]) demo_w 3 (2 ^ 64 + 5) []);
    [split; [discriminate|reflexivity]|split; [discriminate|reflexivity]|reflexivity].
Defined.
Lemma signextend_correct_witness :
  opSignExtend (Run 0 demo_env) demo_env (demo_frame [0; 0x1ff]) demo_w
    = Ret (XOk [] (demo_frame [minus 1]) demo_w).
Proof.
  apply (signextend_correct (Run 0 demo_env) demo_env (demo_frame [0; 0x1ff]) demo_w 0 0x1ff []);
    [split; [discriminate|reflexivity]|split; [discriminate|reflexivity]|reflexivity].
Defined.
Lemma byte_correct_witness :
  opByte (Run 0 demo_env) demo_env (demo_frame [30; 0x1234]) demo_w
    = Ret (XOk [] (demo_frame [0x12]) demo_w).
Proof.
  apply (byte_correct (Run 0 demo_env) demo_env (demo_frame [30; 0x1234]) demo_w 30 0x1234 []);
    [split; [discriminate|reflexivity]|split; [discriminate|reflexivity]|reflexivity].
Defined.
Lemma mstore_mload_witness :
  let f := demo_frame [0; 42] in
  exists m, opMstore (Run 0 demo_env) demo_env f demo_w = Ret (XOk [] (set_memory m (set_stack [] f)) demo_w) /\
    (let f' := set_memory m (set_stack [0] f) in
     opMload (Run 0 demo_env) demo_env f' demo_w = Ret (XOk [] (set_stack [42] f') demo_w)) /\
    forall i, (i < Z.to_nat 0 \/ Z.to_nat 0 + 32 <= i)%nat -> store m !! i = store (memory f) !! i.
Proof.
  apply (mstore_mload (Run 0 demo_env) demo_env (demo_frame [0; 42]) demo_w 0 42 []);
    [apply demo_frame_ok; [repeat constructor; discriminate|discriminate]|split; [discriminate|reflexivity]|
     split; [discriminate|reflexivity]|reflexivity|discriminate].
Defined.
Lemma sstore_sload_witness :
  exists w' w'', opSstore (Run 0 demo_env) demo_env (demo_frame [5; 42]) demo_w
      = Ret (XOk [] (demo_frame []) w') /\
    opSload (Run 0 demo_env) demo_env (demo_frame [5]) w' = Ret (XOk [] (demo_frame [42]) w'').
Proof.
  apply (sstore_sload (Run 0 demo_env) demo_env (demo_frame [5; 42]) demo_w 5 42 5 []);
    [apply demo_w_ok|split; [discriminate|reflexivity]|split; [discriminate|reflexivity]|
     split; [discriminate|reflexivity]|reflexivity].
Defined.
Lemma getData_correct_witness :
  exists d, getData [Byte.x01; Byte.x02] 1 3 = Ret d /\ zlen d = 3 /\
    forall i : nat, (i < length d)%nat ->
      d !! i = Some (default Byte.x00 ([Byte.x01; Byte.x02] !! (Z.to_nat 1 + i)%nat)).
Proof.
  apply (getData_correct [Byte.x01; Byte.x02] 1 3); [discriminate|split; [discriminate|reflexivity]|reflexivity].
Defined.
Lemma memory_fee_exact_witness :
  memoryGasCost (mkMemory (zeros 32) 3) 100
  = (Some (fee (Z.max 1 ((100 + 31) / 32)) - fee 1), mkMemory (zeros 32) (fee (Z.max 1 ((100 + 31) / 32)))).
Proof.
  apply (memory_fee_exact (mkMemory (zeros 32) 3) 1 100);
    [split; [reflexivity|reflexivity|split; [discriminate|reflexivity]]|split; discriminate].
Defined.
Lemma callGas_correct_witness :
  callGas GasTableEIP158 7400 1000 100000 = Some 6300.
Proof.
  apply (callGas_correct GasTableEIP158 7400 1000 100000);
    [split; discriminate|split; [discriminate|reflexivity]|discriminate].
Defined.
Definition demo_sig : list byte :=
  zeros 63 ++ [Byte.x1b] ++ zeros 31 ++ [Byte.x01] ++ zeros 31 ++ [Byte.x01] ++ [Byte.xff; Byte.xff].
Lemma ecrecover_writes_input_witness :
  exists ret, ecrecover_Run demo_sig = Ret (ret, <[128%nat := Byte.x00]> demo_sig) /\
    <[128%nat := Byte.x00]> demo_sig <> demo_sig.
Proof.
  destruct (ecrecover_writes_input demo_sig Byte.x1b) as [ret E];
    [reflexivity|reflexivity|reflexivity|reflexivity|reflexivity|].
  exists ret. split; [exact E|]. vm_compute. discriminate.
Defined.

End VmArith.
