(* ===== verification/Transition.v ===== *)
(** * State transitions ([core/state_transition.go], [core/gaspool.go], [core/evm.go])

    A message is applied to the state: the sender buys gas, the intrinsic gas is paid, the call or
    creation runs in the virtual machine, unused gas is sold back and the coinbase is paid. *)

From S2P Require Import Prelude GoMath Params World Rlp VmBase Vm.

Module Transition.
Import Vm.
Section transition.
Context `{C : CryptoPrims} {S : Type} `{SI : StateDBI S}.
#[local] Notation W := (W (S:=S)).

(** ** [gaspool.go] *)

Inductive txError :=
| errOutOfGas | ErrInsufficientBalanceTx | errInsufficientBalanceForGas | ErrGasLimitReached
| errInvalidNonce (have expected : Z).

Definition AddGas (amount gp : Z) : Z := gp + amount.
Definition SubGas (amount gp : Z) : option txError * Z :=
  if gp <? amount then (Some ErrGasLimitReached, gp) else (None, gp - amount).

(** ** [core/evm.go]: the context of a message *)

(** The fields of [types.Header] that are used. *)
Record Header := mkHeader {
  ParentHash : Hash;
  Number : Z;
  hTime : Z;
  hDifficulty : Z;
  hGasLimit : Z;
}.

(** [core.Message] *)
Record Message := mkMessage {
  From : Address;
  To : option Address;
  msg_GasPrice : Z;
  msg_Gas : Z;
  msg_Value : Z;
  msg_Nonce : Z;
  CheckNonce : bool;
  msg_Data : list byte;
}.

Section context.
(** The chain: headers by hash and number, their hashes, and their authors. *)
Context (GetHeader : Hash -> Z -> option Header) (hash : Header -> Hash) (Author : Header -> Address).

(** The loop of [GetHashFn], for [fuel] headers. *)
Fixpoint getHash_loop (fuel : nat) (n : Z) (header : option Header) : outcome Hash :=
  match header with
  | None => Ret 0
  | Some h =>
      if Uint64 (Number h) =? n then Ret (hash h)
      else match fuel with
           | O => OutOfFuel
           | Datatypes.S fuel' => getHash_loop fuel' n (GetHeader (ParentHash h) (u64 (Uint64 (Number h) - 1)))
           end
  end.
Definition GetHashFn (fuel : nat) (ref : Header) (n : Z) : outcome Hash :=
  getHash_loop fuel n (GetHeader (ParentHash ref) (u64 (Uint64 (Number ref) - 1))).

(** [NewEVMContext] with [NewEVM]; [getHash] is the total function that [GetHashFn] is. *)
Definition NewEVMContext (noRecursion disableGasMetering preimages : bool) (config : ChainConfig)
    (getHash : Z -> Hash) (abort : nat -> bool) (msg : Message) (header : Header)
    (author : option Address) : Env :=
  {| NoRecursion := noRecursion; DisableGasMetering := disableGasMetering;
     EnablePreimageRecording := preimages; chainConfig := config; Vm.GetHash := getHash;
     Origin := From msg; GasPrice := msg_GasPrice msg;
     Coinbase := match author with None => Author header | Some a => a end;
     GasLimit := hGasLimit header; BlockNumber := Number header; Time := hTime header;
     Difficulty := hDifficulty header; Vm.abort := abort |}.
End context.

(** ** [state_transition.go] *)

(** The mutable fields of [StateTransition]; the others are those of the message. *)
Record StateTransition := mkST { gp : Z; st_gas : Z; initialGas : Z; evm : W }.
Definition set_gp (g : Z) (st : StateTransition) := mkST g (st_gas st) (initialGas st) (evm st).
Definition set_st_gas (g : Z) (st : StateTransition) := mkST (gp st) g (initialGas st) (evm st).
Definition set_initialGas (g : Z) (st : StateTransition) := mkST (gp st) (st_gas st) g (evm st).
Definition set_evm (w : W) (st : StateTransition) := mkST (gp st) (st_gas st) (initialGas st) w.
Definition NewStateTransition (w : W) (g : Z) : StateTransition := mkST g 0 0 w.

Fixpoint count_nonzero (data : list byte) : Z :=
  match data with
  | [] => 0
  | b :: data' => (if byte_to_Z b =? 0 then 0 else 1) + count_nonzero data'
  end.
Definition IntrinsicGas (data : list byte) (contractCreation homestead : bool) : Z :=
  let igas := if contractCreation && homestead then TxGasContractCreation else TxGas in
  if zlen data >? 0 then
    let nz := count_nonzero data in
    igas + nz * TxDataNonZeroGas + (zlen data - nz) * TxDataZeroGas
  else igas.

(** Make sure an account exists: [from] and, for a call, [to]. *)
Definition ensure (a : Address) (w : W) : W :=
  let '(x, w) := get (Exist a) w in if x then w else upd_sdb (CreateAccount a) w.
Definition from (msg : Message) (st : StateTransition) : Address * StateTransition :=
  (From msg, set_evm (ensure (From msg) (evm st)) st).
Definition to (msg : Message) (st : StateTransition) : Address * StateTransition :=
  match To msg with
  | None => (0, st)
  | Some a => (a, set_evm (ensure a (evm st)) st)
  end.

Definition useGas (amount : Z) (st : StateTransition) : option txError * StateTransition :=
  if st_gas st <? amount then (Some errOutOfGas, st) else (None, set_st_gas (u64 (st_gas st - amount)) st).

Definition gasUsed (st : StateTransition) : Z := initialGas st - st_gas st.

Definition buyGas (msg : Message) (st : StateTransition) : option txError * StateTransition :=
  let mgas := msg_Gas msg in
  if BitLen mgas >? 64 then (Some errOutOfGas, st)
  else
    let mgval := mgas * msg_GasPrice msg in
    let '(sender, st) := from msg st in
    let '(balance, w) := get (GetBalance sender) (evm st) in
    let st := set_evm w st in
    if balance <? mgval then (Some errInsufficientBalanceForGas, st)
    else
      let '(err, g) := SubGas mgas (gp st) in
      match err with
      | Some e => (Some e, st)
      | None =>
          let st := set_initialGas mgas (set_st_gas (u64 (st_gas st + Uint64 mgas)) (set_gp g st)) in
          (None, set_evm (upd_sdb (SubBalance sender mgval) (evm st)) st)
      end.

Definition preCheck (msg : Message) (st : StateTransition) : option txError * StateTransition :=
  let '(sender, st) := from msg st in
  if CheckNonce msg then
    let '(n, w) := get (GetNonce sender) (evm st) in
    let st := set_evm w st in
    if negb (n =? msg_Nonce msg) then (Some (errInvalidNonce (msg_Nonce msg) n), st) else buyGas msg st
  else buyGas msg st.

(** [math.BigMin] returns one of its arguments, and [refund.Mul(refund, st.gasPrice)] is done in
    place: when the refund counter is the smaller one, the counter itself is multiplied. *)
Definition refundGas (msg : Message) (st : StateTransition) : StateTransition :=
  let '(sender, st) := from msg st in
  let remaining := st_gas st * msg_GasPrice msg in
  let st := set_evm (upd_sdb (AddBalance sender remaining) (evm st)) st in
  let uhalf := gasUsed st / 2 in
  let counter := GetRefund (sdb (evm st)) in
  let refund := BigMin uhalf counter in
  let st := set_st_gas (u64 (st_gas st + Uint64 refund)) st in
  let st := if uhalf >? counter
            then set_evm (upd_sdb (WriteRefund (counter * msg_GasPrice msg)) (evm st)) st else st in
  let st := set_evm (upd_sdb (AddBalance sender (refund * msg_GasPrice msg)) (evm st)) st in
  set_gp (AddGas (st_gas st) (gp st)) st.

(** The outcome of [TransitionDb]: returned data, required gas, used gas; or an error. *)
Inductive txResult := TxOk (ret : list byte) (requiredGas usedGas : Z) | TxErr (e : txError).

(** The call or the creation: returned data and the error of the virtual machine. *)
Definition execute_msg (Run : RunFn) (env : Env) (msg : Message) (sender : Address)
    (st : StateTransition) : outcome (list byte * option vmError * StateTransition) :=
  match To msg with
  | None =>
      let* r := Create Run env (AccountRef sender) (msg_Data msg) (st_gas st) (msg_Value msg) (evm st) in
      let '(ret, _, gas, vmerr, w) := r in Ret (ret, vmerr, set_st_gas gas (set_evm w st))
  | Some _ =>
      let '(n, w) := get (GetNonce sender) (evm st) in
      let st := set_evm (upd_sdb (SetNonce sender (u64 (n + 1))) w) st in
      let '(addr, st) := to msg st in
      let* r := Call Run env (AccountRef sender) addr (msg_Data msg) (st_gas st) (msg_Value msg) (evm st) in
      let '(ret, gas, vmerr, w) := r in Ret (ret, vmerr, set_st_gas gas (set_evm w st))
  end.

Definition TransitionDb (Run : RunFn) (env : Env) (msg : Message) (st : StateTransition)
  : outcome (txResult * StateTransition) :=
  let '(err, st) := preCheck msg st in
  match err with
  | Some e => Ret (TxErr e, st)
  | None =>
      let '(sender, st) := from msg st in
      let contractCreation := match To msg with None => true | Some _ => false end in
      let intrinsicGas := IntrinsicGas (msg_Data msg) contractCreation (homestead env) in
      if BitLen intrinsicGas >? 64 then Ret (TxErr errOutOfGas, st)
      else
        let '(err, st) := useGas (Uint64 intrinsicGas) st in
        match err with
        | Some e => Ret (TxErr e, st)
        | None =>
            let* r := execute_msg Run env msg sender st in
            let '(ret, vmerr, st) := r in
            match vmerr with
            | Some ErrInsufficientBalance => Ret (TxErr ErrInsufficientBalanceTx, st)
            | _ =>
                let requiredGas := gasUsed st in
                let st := refundGas msg st in
                let st := set_evm (upd_sdb (AddBalance (Coinbase env) (gasUsed st * msg_GasPrice msg)) (evm st)) st in
                Ret (TxOk ret requiredGas (gasUsed st), st)
            end
        end
  end.

Definition ApplyMessage (Run : RunFn) (env : Env) (w : W) (msg : Message) (g : Z)
  : outcome (txResult * StateTransition) :=
  TransitionDb Run env msg (NewStateTransition w g).

End transition.
End Transition.
