(* ===== verification/TransitionThms.v ===== *)
(** * Theorems on state transitions

    Applying a message: it returns for every message with less than [GasCap] gas, the gas it
    reports lies between the bounds the protocol gives, the block's gas pool pays exactly for
    it, and no ether is created. *)

From S2P Require Import Prelude GoMath Params World WorldFacts Rlp VmBase Vm VmFacts State StateProofs.
From S2P Require Import Ideal VmJump VmSafe VmCalls VmOps VmRun VmThms Transition.

Module TransitionThms.
Import Vm VmFacts WorldFacts VmSafe VmCalls VmRun Transition.

Section thms.
Context `{C : CryptoPrims} `{CO : !CryptoOK} {S : Type} `{SI : StateDBI S} `{SP : !StateDBSpec S}.
#[local] Notation W := (W (S:=S)).

(** ** Updates that move the supply *)

Lemma upd_W_ok (f : S -> S) h (w : W) :
  upd_ok sd_wf sd_abs sd_later f h -> W_ok w -> world_inv (h (wabs w)) ->
  W_ok (upd_sdb f w) /\ wabs (upd_sdb f w) = h (wabs w).
Proof.
  intros Hf [H1 H2 H3 H4] Hi. destruct (Hf _ H1) as (Hwf & Habs & _).
  assert (wabs (upd_sdb f w) = h (wabs w)) as E by exact Habs.
  split; [|exact E]. split; [exact Hwf|by rewrite E|exact H3|exact H4].
Qed.

Lemma add_balance_W a v (w : W) :
  W_ok w -> 0 <= v -> supply (wabs w) + v < 2 ^ 256 ->
  let w' := upd_sdb (AddBalance a v) w in
  W_ok w' /\ supply (wabs w') = supply (wabs w) + v /\ w_refund (wabs w') = w_refund (wabs w).
Proof.
  intros Hw Hv Hs. pose proof (wo_inv w Hw) as Hi. pose proof (balance_le_supply a _ Hi) as Hb.
  assert (supply (w_add_balance a v (wabs w)) = supply (wabs w) + v) as Es by (by apply supply_balance_upd).
  destruct (upd_W_ok _ _ w (AddBalance_ok a v) Hw) as [H1 E1].
  { split; [|lia]. eapply (upd_balance_accts a _ v); [done|lia|apply Hi]. }
  cbn zeta. rewrite E1. by split_and!.
Qed.
Lemma sub_balance_W a v (w : W) :
  W_ok w -> 0 <= v <= w_balance a (wabs w) ->
  let w' := upd_sdb (SubBalance a v) w in
  W_ok w' /\ supply (wabs w') = supply (wabs w) - v /\ w_refund (wabs w') = w_refund (wabs w).
Proof.
  intros Hw Hv. pose proof (wo_inv w Hw) as Hi. pose proof (wi_supply _ Hi) as Hlt.
  assert (supply (w_sub_balance a v (wabs w)) = supply (wabs w) + - v) as Es
    by (by apply supply_balance_upd).
  destruct (upd_W_ok _ _ w (SubBalance_ok a v) Hw) as [H1 E1].
  { split; [|lia]. eapply (upd_balance_accts a _ (- v)); [done|lia|apply Hi]. }
  cbn zeta. rewrite E1, Es. split_and!; [done|lia|done].
Qed.

Lemma ensure_post a (w : W) : W_ok w -> W_post w (ensure a w).
Proof.
  intros Hw. unfold ensure. destruct (get_post _ _ w (Exist_ok a) Hw) as (w1 & -> & H1 & _).
  destruct (w_exist _ _); [done|]. eapply W_post_trans; [exact H1|]. apply create_post, H1.
Qed.

Lemma write_refund_W v (w : W) :
  W_ok w -> let w' := upd_sdb (WriteRefund v) w in W_ok w' /\ supply (wabs w') = supply (wabs w).
Proof.
  intros [H1 H2 H3 H4]. destruct (WriteRefund_ok v _ H1) as [Hwf Habs].
  assert (wabs (upd_sdb (WriteRefund v) w) = set_refund v (wabs w)) as E by exact Habs.
  cbn zeta. rewrite E. split; [|done]. split; [exact Hwf| |exact H3|exact H4].
  rewrite E. destruct H2. by split.
Qed.

(** ** Messages *)

Record msg_ok (msg : Message) : Prop := {
  mo_from : in_u256 (From msg);
  mo_to a : To msg = Some a -> in_u256 a;
  mo_price : 0 <= msg_GasPrice msg;
  mo_gas : 0 <= msg_Gas msg < GasCap;
  mo_value : in_u256 (msg_Value msg);
  mo_data : zlen (msg_Data msg) < 2 ^ 62 }.

Lemma count_nonzero_range data : 0 <= count_nonzero data <= zlen data.
Proof.
  induction data as [|b data IH]; [done|]. cbn [count_nonzero]. rewrite zlen_cons. case_match; lia.
Qed.
Lemma IntrinsicGas_range data cc h : TxGas <= IntrinsicGas data cc h.
Proof.
  pose proof (count_nonzero_range data). unfold IntrinsicGas, TxGasContractCreation, TxGas, TxDataNonZeroGas, TxDataZeroGas.
  destruct (cc && h), (zlen data >? 0); lia.
Qed.

(** What [buyGas] and [preCheck] leave: an error and the same gas pool, or the gas bought. *)
Definition bought (msg : Message) (st0 : StateTransition) (r : option txError * StateTransition) : Prop :=
  let '(err, st) := r in
  W_ok (evm st) /\ depth (evm st) = depth (evm st0) /\
  w_refund (wabs (evm st0)) <= w_refund (wabs (evm st)) /\
  match err with
  | Some e => gp st = gp st0 /\ supply (wabs (evm st)) <= supply (wabs (evm st0))
  | None => msg_Gas msg <= gp st0 /\ gp st = gp st0 - msg_Gas msg /\
      st_gas st = msg_Gas msg /\ initialGas st = msg_Gas msg /\
      supply (wabs (evm st)) <= supply (wabs (evm st0)) - msg_Gas msg * msg_GasPrice msg
  end.

Lemma buyGas_ok msg (st : StateTransition) :
  msg_ok msg -> W_ok (evm st) -> st_gas st = 0 -> bought msg st (buyGas msg st).
Proof.
  intros [Hf Ht Hp Hg Hv Hd] Hw H0. unfold buyGas, GasCap in *. rewrite BitLen_64 by lia.
  destruct (Z.ltb_spec (msg_Gas msg) (2 ^ 64)); cbn [negb]; [|split_and!; done].
  cbn [from]. pose proof (ensure_post (From msg) (evm st) Hw) as H1. set (w1 := ensure _ _) in *.
  cbn [evm set_evm]. destruct (get_post _ _ w1 (GetBalance_ok (From msg)) (wp_ok _ _ H1)) as (w2 & -> & H2 & E2 & _).
  assert (W_post (evm st) w2) as [Hok _ Hdep [Hs Hr _]] by (by eapply W_post_trans).
  destruct (Z.ltb_spec (w_balance (From msg) (wabs w1)) (msg_Gas msg * msg_GasPrice msg)); [by split_and!|].
  unfold SubGas. cbn [gp set_evm]. destruct (Z.ltb_spec (gp st) (msg_Gas msg)); [by split_and!|].
  destruct (sub_balance_W (From msg) (msg_Gas msg * msg_GasPrice msg) w2 Hok) as (Hok3 & E3 & R3);
    [rewrite E2; nia|]. cbn. rewrite H0, Uint64_small by lia. rewrite u64_small by lia.
  split_and!; try done; try lia.
Qed.

Lemma preCheck_ok msg (st : StateTransition) :
  msg_ok msg -> W_ok (evm st) -> st_gas st = 0 -> bought msg st (preCheck msg st).
Proof.
  intros Hm Hw H0. unfold preCheck. cbn [from]. pose proof (ensure_post (From msg) (evm st) Hw) as H1.
  set (w1 := ensure _ _) in *.
  assert (forall w2, W_post (evm st) w2 -> bought msg st (buyGas msg (set_evm w2 st))) as Hbuy.
  { intros w2 [Hok _ Hdep [Hs Hr _]]. pose proof (buyGas_ok msg (set_evm w2 st) Hm Hok H0) as Hb.
    destruct (buyGas msg (set_evm w2 st)) as [err st']. destruct Hb as (? & Hd & ? & Hrest). cbn in *.
    split_and!; [done|congruence|lia|]. destruct err; [|split_and!; try apply Hrest; lia].
    split; [apply Hrest|lia]. }
  destruct (CheckNonce msg); [|by apply Hbuy]. cbn [evm set_evm].
  destruct (get_post _ _ w1 (GetNonce_ok (From msg)) (wp_ok _ _ H1)) as (w2 & -> & H2 & E2 & _).
  assert (W_post (evm st) w2) as Hp by (by eapply W_post_trans).
  destruct (negb _); [|by apply Hbuy]. destruct Hp as [? _ ? [? ? _]]. by split_and!.
Qed.
(** The execution: no more gas than before, and no ether created. *)
Lemma execute_msg_ok env fuel msg (st : StateTransition) :
  env_ok env -> msg_ok msg -> W_ok (evm st) -> 0 <= st_gas st < GasCap -> (Z.to_nat (st_gas st) < fuel)%nat ->
  exists ret vmerr st', execute_msg (Run fuel env) env msg (From msg) st = Ret (ret, vmerr, st') /\
    W_post (evm st) (evm st') /\ 0 <= st_gas st' <= st_gas st /\ gp st' = gp st /\ initialGas st' = initialGas st.
Proof.
  intros He [Hf Ht Hp Hgas Hv Hd] Hw Hg Hn. unfold execute_msg. destruct (To msg) as [a|] eqn:Et.
  - destruct (get_post _ _ (evm st) (GetNonce_ok (From msg)) Hw) as (w1 & -> & H1 & _).
    destruct (set_nonce_post (From msg) (u64 (w_nonce (From msg) (wabs (evm st)) + 1)) w1 (wp_ok _ _ H1)) as [H2 _].
    set (w2 := upd_sdb _ w1) in *. unfold to. rewrite Et. cbn [evm set_evm st_gas].
    pose proof (ensure_post a w2 (wp_ok _ _ H2)) as H3. set (w3 := ensure a w2) in *.
    destruct (Call_ok fuel (Run fuel env) env (AccountRef (From msg)) (st_gas st) (msg_Value msg) w3
      (Run_safe env He fuel)) with (addr := a) (input := msg_Data msg)
      as ([[[ret g] err] w4] & -> & _ & Hg4 & H4 & _); try done; [apply H3|by apply Ht|lia|].
    cbn [obind]. eexists _, _, _. split; [done|]. cbn [st_gas gp initialGas evm set_st_gas set_evm].
    split_and!; try done; try lia. eapply W_post_trans; [exact H1|]. eapply W_post_trans; [exact H2|]. by eapply W_post_trans.
  - destruct (Create_ok fuel (Run fuel env) env (AccountRef (From msg)) (msg_Data msg) (st_gas st)
      (msg_Value msg) (evm st) (Run_safe env He fuel))
      as ([[[[ret addr] g] err] w4] & -> & _ & _ & Hg4 & H4 & _); try done.
    cbn [obind]. eexists _, _, _. split; [done|]. cbn [st_gas gp initialGas evm set_st_gas set_evm].
    split_and!; try done; lia.
Qed.

(** Selling back: [st] is the transition after execution, with all of its gas left unsold. *)
Lemma refundGas_ok msg (st : StateTransition) B :
  msg_ok msg -> W_ok (evm st) -> 0 <= st_gas st <= initialGas st -> initialGas st < GasCap ->
  0 <= w_refund (wabs (evm st)) -> B < 2 ^ 256 ->
  supply (wabs (evm st)) <= B - initialGas st * msg_GasPrice msg ->
  let st' := refundGas msg st in
  exists r, 0 <= r <= gasUsed st / 2 /\ st_gas st' = st_gas st + r /\ initialGas st' = initialGas st /\
    W_ok (evm st') /\ gp st' = gp st + st_gas st' /\
    supply (wabs (evm st')) <= B - (initialGas st - st_gas st') * msg_GasPrice msg.
Proof.
  intros [Hf Ht Hp _ Hv Hd] Hw Hg Hcap Hr HB Hs. unfold refundGas, GasCap in *. cbn [from].
  pose proof (ensure_post (From msg) (evm st) Hw) as [H1 _ _ [Hs1 Hr1 _]]. set (w1 := ensure _ _) in *.
  cbn [evm set_evm st_gas]. set (p := msg_GasPrice msg) in *.
  destruct (add_balance_W (From msg) (st_gas st * p) w1 H1 ltac:(nia) ltac:(nia)) as (H2 & E2 & R2).
  set (w2 := upd_sdb (AddBalance _ _) w1) in *.
  change (gasUsed (set_evm w2 (set_evm w1 st))) with (gasUsed st).
  rewrite (GetRefund_ok (sdb w2)) by apply H2. change (sd_abs (sdb w2)) with (wabs w2). rewrite R2.
  set (counter := w_refund (wabs w1)). set (u := gasUsed st / 2).
  assert (0 <= u /\ 2 * u <= gasUsed st) as Hu.
  { unfold u. pose proof (Z.div_mod (gasUsed st) 2 ltac:(lia)). pose proof (Z.mod_pos_bound (gasUsed st) 2 ltac:(lia)).
    unfold gasUsed in *. lia. }
  set (r := BigMin u counter).
  assert (0 <= r <= u) as Hru by (unfold r, BigMin, counter; rewrite Z.gtb_ltb; bdestr; lia).
  unfold gasUsed in Hu. rewrite (Uint64_small r), u64_small by lia.
  set (w3 := evm (if u >? counter then _ else _)).
  assert (W_ok w3 /\ supply (wabs w3) = supply (wabs w2)) as [H3 E3].
  { unfold w3. destruct (u >? counter); [by apply write_refund_W|done]. }
  destruct (add_balance_W (From msg) (r * p) w3 H3 ltac:(nia) ltac:(rewrite E3, E2; nia)) as (H4 & E4 & _).
  exists r. destruct (u >? counter); cbn in *; split_and!; try done; try (unfold AddGas; lia).
  all: rewrite E4, E3, E2; nia.
Qed.

(** C4: Applying a message returns for every message with less than [GasCap] gas, whatever code
    it runs.  When it is accepted, the gas required lies between the intrinsic gas and the
    gas limit, refunds give back at most half of it, the block's gas pool is charged exactly
    the gas used, and the coinbase's fee and the refunds together create no ether.  When it
    is refused, no ether is created either, and the gas pool is never overdrawn. *)
Theorem ApplyMessage_correct env fuel (w : W) msg g :
  env_ok env -> msg_ok msg -> W_ok w -> 0 <= w_refund (wabs w) -> 0 <= g ->
  (Z.to_nat (msg_Gas msg) < fuel)%nat ->
  exists res st', ApplyMessage (Run fuel env) env w msg g = Ret (res, st') /\
    W_ok (evm st') /\ supply (wabs (evm st')) <= supply (wabs w) /\ 0 <= gp st' <= g /\
    match res with
    | TxErr _ => True
    | TxOk ret required used =>
        IntrinsicGas (msg_Data msg) (match To msg with None => true | _ => false end) (homestead env)
          <= required <= msg_Gas msg /\
        required - required / 2 <= used <= required /\ gp st' = g - used
    end.
Proof.
  intros He Hm Hw Hr Hg0 Hn. unfold ApplyMessage, TransitionDb, NewStateTransition.
  set (cc := match To msg with None => true | _ => false end).
  pose proof (preCheck_ok msg (mkST g 0 0 w) Hm Hw eq_refl) as Hb.
  destruct (preCheck msg (mkST g 0 0 w)) as [[e|] st]; destruct Hb as (Hok & Hdep & Hr1 & Hb); cbn in Hdep, Hr1, Hb.
  { destruct Hb as [Eg ?]. eexists _, _. split; [done|]. rewrite Eg. split_and!; done || lia. }
  destruct Hb as (Hle & Hgp & Hgas & Hinit & Hsup). cbn [from].
  pose proof (ensure_post (From msg) (evm st) Hok) as [Hok2 _ _ [Hs2 Hr2 _]]. set (w2 := ensure _ _) in *.
  pose proof (mo_gas _ Hm) as Hmg. pose proof (mo_price _ Hm) as Hmp.
  assert (0 <= msg_Gas msg * msg_GasPrice msg) as Hfee by nia.
  set (st2 := set_evm w2 st). set (ig := IntrinsicGas (msg_Data msg) cc (homestead env)).
  pose proof (IntrinsicGas_range (msg_Data msg) cc (homestead env)) as Hig. fold ig in Hig. unfold TxGas in Hig.
  assert (forall e : txError, exists res st', Ret (TxErr e, st2) = Ret (res, st') /\ W_ok (evm st') /\
    supply (wabs (evm st')) <= supply (wabs w) /\ 0 <= gp st' <= g /\
    match res with TxErr _ => True | TxOk ret required used =>
      ig <= required <= msg_Gas msg /\ required - required / 2 <= used <= required /\ gp st' = g - used end) as Hfail.
  { intros e. eexists _, _. split; [done|]. cbn. split_and!; done || lia. }
  rewrite BitLen_64 by lia. destruct (Z.ltb_spec ig (2 ^ 64)) as [Hi64|]; cbn [negb]; [|apply Hfail].
  unfold useGas. rewrite Uint64_small by lia. change (st_gas st2) with (st_gas st). rewrite Hgas.
  destruct (Z.ltb_spec (msg_Gas msg) ig) as [|Hige]; [apply Hfail|]. unfold GasCap in Hmg. rewrite u64_small by lia.
  destruct (execute_msg_ok env fuel msg (set_st_gas (msg_Gas msg - ig) st2) He Hm Hok2)
    as (ret & vmerr & st3 & -> & [Hok3 _ _ [Hs3 Hr3 _]] & Hg3 & Egp & Einit);
    [cbn; unfold GasCap; lia|cbn; lia|]. cbn [obind]. cbn in Hs3, Hr3, Hg3, Egp, Einit.
  destruct (refundGas_ok msg st3 (supply (wabs w)) Hm Hok3) as (r & Hru & Hst & Hinit' & Hok4 & Hgp4 & Hsup4);
    [lia|unfold GasCap; lia|lia|apply Hw|rewrite Einit, Hinit; lia|].
  set (st4 := refundGas msg st3) in *. unfold gasUsed in Hru |- *.
  pose proof (Z.div_mod (initialGas st3 - st_gas st3) 2 ltac:(lia)) as Hdm.
  pose proof (Z.mod_pos_bound (initialGas st3 - st_gas st3) 2 ltac:(lia)) as Hmod.
  rewrite Einit, Hinit in *. pose proof (wi_supply _ (wo_inv _ Hw)) as HW.
  rewrite Hst in Hsup4. set (q := (msg_Gas msg - st_gas st3) / 2) in *.
  destruct (add_balance_W (Coinbase env) ((initialGas st4 - st_gas st4) * msg_GasPrice msg) (evm st4) Hok4)
    as (Hok5 & Es5 & _); [rewrite Hinit', Hst; nia|rewrite Hinit', Hst; lia|].
  rewrite Hinit', Hst in *.
  destruct vmerr as [[]|]; eexists _, _; (split; [reflexivity|]); cbn [evm set_evm gp initialGas st_gas];
    rewrite ?Es5, ?Hinit', ?Hst; split_and!; try done; try lia.
Qed.


Lemma upd_wabs (f : S -> S) h (w : W) :
  upd_ok sd_wf sd_abs sd_later f h -> sd_wf (sdb w) ->
  sd_wf (sdb (upd_sdb f w)) /\ wabs (upd_sdb f w) = h (wabs w).
Proof. intros Hf Hw. by destruct (Hf _ Hw) as (H1 & H2 & _). Qed.

(** [refundGas] overwrites the refund counter of the state database: when the counter is the
    smaller bound, the pointer [GetRefund] returned is multiplied by the gas price in place. *)
Theorem refundGas_overwrites msg (st : StateTransition) :
  W_ok (evm st) -> w_refund (wabs (evm st)) < gasUsed st / 2 ->
  w_refund (wabs (evm (refundGas msg st))) = w_refund (wabs (evm st)) * msg_GasPrice msg.
Proof.
  intros Hw Hlt. unfold refundGas. cbn [from]. set (w1 := ensure _ _).
  assert (sd_wf (sdb w1) /\ w_refund (wabs w1) = w_refund (wabs (evm st))) as [H1 E1].
  { split; [apply ensure_post, Hw|]. unfold w1, ensure.
    destruct (get_post _ _ (evm st) (Exist_ok (From msg)) Hw) as (w0 & -> & H0 & E0 & _).
    destruct (w_exist _ _); [by rewrite E0|]. destruct (create_post (From msg) w0 (wp_ok _ _ H0)) as [_ ->].
    by rewrite E0. }
  cbn [evm set_evm st_gas].
  destruct (upd_wabs _ _ w1 (AddBalance_ok (From msg) (st_gas st * msg_GasPrice msg)) H1) as [H2 E2].
  set (w2 := upd_sdb _ w1) in *.
  change (gasUsed (set_evm w2 (set_evm w1 st))) with (gasUsed st).
  rewrite (GetRefund_ok (sdb w2) H2). change (sd_abs (sdb w2)) with (wabs w2).
  assert (w_refund (wabs w2) = w_refund (wabs (evm st))) as -> by (by rewrite E2).
  rewrite Z.gtb_ltb, (proj2 (Z.ltb_lt _ _) Hlt). cbn [evm set_evm set_st_gas set_gp].
  destruct (WriteRefund_ok (w_refund (wabs (evm st)) * msg_GasPrice msg) (sdb w2) H2) as [H3 E3].
  set (w3 := upd_sdb (WriteRefund _) w2).
  destruct (upd_wabs _ _ w3 (AddBalance_ok (From msg)
    (BigMin (gasUsed st / 2) (w_refund (wabs (evm st))) * msg_GasPrice msg)) H3) as [_ ->].
  change (wabs w3) with (sd_abs (WriteRefund (w_refund (wabs (evm st)) * msg_GasPrice msg) (sdb w2))).
  by rewrite E3.
Qed.
End thms.
(** ** Ancestor hashes *)

Section hashes.
Context (GetHeader : Hash -> Z -> option Header) (hash : Header -> Hash).

(** [hs] are the ancestors of [ref], the parent first, as far as the chain knows them. *)
Inductive ancestors : Header -> list Header -> Prop :=
| anc_end ref : GetHeader (ParentHash ref) (u64 (Number ref - 1)) = None -> ancestors ref []
| anc_parent ref h hs :
    GetHeader (ParentHash ref) (u64 (Number ref - 1)) = Some h ->
    Number h = Number ref - 1 -> 0 <= Number h -> ancestors h hs -> ancestors ref (h :: hs).

Lemma getHash_loop_ok ref hs n :
  ancestors ref hs -> 0 <= Number ref < 2 ^ 64 -> 0 <= n < Number ref -> forall fuel, (length hs <= fuel)%nat ->
  getHash_loop GetHeader hash fuel n (GetHeader (ParentHash ref) (u64 (Number ref - 1)))
  = Ret (match hs !! Z.to_nat (Number ref - 1 - n) with Some h => hash h | None => 0 end).
Proof.
  intros Hanc. induction Hanc as [ref E|ref h hs E En Hn0 _ IH]; intros Hr Hn fuel Hf.
  - rewrite E. by destruct fuel.
  - rewrite E. assert (Uint64 (Number h) = Number h) as Eu by (apply Uint64_small; lia).
    destruct fuel as [|fuel]; [cbn in Hf; lia|]. cbn [getHash_loop]. rewrite Eu.
    destruct (Z.eqb_spec (Number h) n) as [<-|Hne].
    + by replace (Z.to_nat (Number ref - 1 - Number h)) with 0%nat by lia.
    + cbn [length] in Hf. rewrite IH by lia.
      by replace (Z.to_nat (Number ref - 1 - n)) with (Datatypes.S (Z.to_nat (Number h - 1 - n))) by lia.
Qed.

(** [GetHashFn] returns the hash of the ancestor with the given number, and the zero hash
    when the chain does not hold it; it terminates on every linked chain. *)
Theorem GetHashFn_correct (ref : Header) (hs : list Header) (n : Z) (fuel : nat) :
  ancestors ref hs -> 0 <= Number ref < 2 ^ 64 -> 0 <= n < Number ref -> (length hs <= fuel)%nat ->
  GetHashFn GetHeader hash fuel ref n
  = Ret (match hs !! Z.to_nat (Number ref - 1 - n) with Some h => hash h | None => 0 end).
Proof.
  intros Hanc Hr Hn Hf. unfold GetHashFn. rewrite Uint64_small by lia. by apply getHash_loop_ok.
Qed.
End hashes.

Definition demo_headers (h : Hash) (n : Z) : option Header :=
  if n =? 1 then Some (mkHeader 10 1 0 0 0) else if n =? 0 then Some (mkHeader 9 0 0 0 0) else None.
Lemma GetHashFn_correct_witness :
  GetHashFn demo_headers (fun h => 100 + Number h) 2 (mkHeader 11 2 0 0 0) 0 = Ret 100.
Proof.
  apply (GetHashFn_correct demo_headers (fun h => 100 + Number h) (mkHeader 11 2 0 0 0)
    [mkHeader 10 1 0 0 0; mkHeader 9 0 0 0 0] 0 2).
  - apply anc_parent; [reflexivity|reflexivity|discriminate|].
    apply anc_parent; [reflexivity|reflexivity|discriminate|]. by apply anc_end.
  - split; [discriminate|reflexivity].
  - split; [discriminate|reflexivity].
  - apply Nat.leb_le. reflexivity.
Defined.

(** ** Witnesses *)

#[local] Existing Instance StateProofs.StateDB_ops.
#[local] Existing Instance StateProofs.StateDB_spec.
Import VmThms.

(** Account 7 sends 40 to account 9, with 22000 gas at price 0. *)
Definition demo_msg : Message := mkMessage 7 (Some 9) 0 22000 40 0 true [].
Lemma demo_msg_ok : msg_ok demo_msg.
Proof.
  split; [by split|intros a [= <-]; by split|discriminate|by split|by split|reflexivity].
Qed.
Lemma ApplyMessage_correct_witness :
  exists res st', ApplyMessage (Run 22001 demo_env) demo_env funded_w demo_msg 100000 = Ret (res, st') /\
    W_ok (evm st') /\ supply (wabs (evm st')) <= supply (wabs funded_w) /\ 0 <= gp st' <= 100000 /\
    match res with
    | TxErr _ => True
    | TxOk ret required used =>
        IntrinsicGas [] false (homestead demo_env) <= required <= 22000 /\
        required - required / 2 <= used <= required /\ gp st' = 100000 - used
    end.
Proof.
  apply (ApplyMessage_correct demo_env 22001 funded_w demo_msg 100000);
    [apply demo_env_ok|apply demo_msg_ok|apply funded_w_ok|discriminate|discriminate|
     apply Nat.ltb_lt; vm_compute; reflexivity].
Defined.

Lemma refundGas_overwrites_witness :
  let w := upd_sdb (AddRefund 1) demo_w in
  w_refund (wabs (evm (refundGas (mkMessage 7 (Some 9) 5 100 0 0 true []) (mkST 0 10 100 w)))) = 5.
Proof.
  refine (refundGas_overwrites (mkMessage 7 (Some 9) 5 100 0 0 true []) (mkST 0 10 100 (upd_sdb (AddRefund 1) demo_w)) _ _).
  - eapply upd_post; [apply AddRefund_ok|apply w_add_refund_inv; discriminate|apply demo_w_ok].
  - vm_compute. reflexivity.
Defined.

End TransitionThms.
