(* ===== verification/Heap.v ===== *)
(** * Go's [container/heap]

    The heap operations of the standard library on a slice, as the transaction lists and the
    transaction sets of the miner use them, with their specification: the elements are kept up to
    permutation, the heap order holds again after every operation, and [Pop] returns a least
    element.  [None] is the panic on an empty heap or an index out of range. *)

From S2P Require Import Prelude.

Module Heap.

Section ops.
Context {A : Type} (less : A -> A -> bool).

(** [h.Swap(i, j)] *)
Definition exchange (i j : nat) (h : list A) : list A :=
  match h !! i, h !! j with
  | Some x, Some y => <[i := y]> (<[j := x]> h)
  | _, _ => h
  end.
(** [h.Less(i, j)] *)
Definition Less (i j : nat) (h : list A) : bool :=
  match h !! i, h !! j with Some x, Some y => less x y | _, _ => false end.

Definition parent (j : nat) : nat := ((j - 1) / 2)%nat.

Fixpoint up (fuel : nat) (j : nat) (h : list A) : list A :=
  match fuel with
  | O => h
  | S fuel' =>
      let i := parent j in
      if (i =? j)%nat || negb (Less j i h) then h else up fuel' i (exchange i j h)
  end.

(** The elements from [n] on do not belong to the heap. *)
Fixpoint down (fuel : nat) (i n : nat) (h : list A) : list A * nat :=
  match fuel with
  | O => (h, i)
  | S fuel' =>
      let j1 := (2 * i + 1)%nat in
      if (n <=? j1)%nat then (h, i)
      else
        let j2 := (j1 + 1)%nat in
        let j := if (j2 <? n)%nat && negb (Less j1 j2 h) then j2 else j1 in
        if negb (Less j i h) then (h, i) else down fuel' j n (exchange i j h)
  end.

Fixpoint init_loop (k n : nat) (h : list A) : list A :=
  match k with O => h | S i => init_loop i n (down n i n h).1 end.
Definition Init (h : list A) : list A := init_loop (length h / 2) (length h) h.

Definition Push (x : A) (h : list A) : list A :=
  let h := h ++ [x] in up (length h) (length h - 1) h.

(** The last element, and the heap without it. *)
Definition take_last (h : list A) : option (A * list A) :=
  match last h with Some x => Some (x, take (length h - 1) h) | None => None end.

Definition Pop (h : list A) : option (A * list A) :=
  let n := (length h - 1)%nat in
  take_last (down n 0 n (exchange 0 n h)).1.

Definition Remove (i : nat) (h : list A) : option (A * list A) :=
  let n := (length h - 1)%nat in
  if (length h <=? i)%nat then None
  else if (n =? i)%nat then take_last h
  else take_last (up (S i) i (down n i n (exchange i n h)).1).

Definition Fix (i : nat) (h : list A) : list A :=
  let '(h, i') := down (length h) i (length h) h in
  if (i <? i')%nat then h else up (S i) i h.
End ops.

(** ** Facts *)

Lemma parent_spec m : (0 < m)%nat -> m = (2 * parent m + 1)%nat \/ m = (2 * parent m + 2)%nat.
Proof.
  intros Hm. unfold parent. pose proof (Nat.div_mod_eq (m - 1) 2). pose proof (Nat.mod_upper_bound (m - 1) 2). lia.
Qed.
Lemma parent_0 : parent 0 = 0%nat.
Proof. reflexivity. Qed.
#[global] Opaque parent.

Section facts.
Context {A : Type} (less : A -> A -> bool) (key : A -> Z).
Context (less_key : forall x y, less x y = (key x <? key y)).
Implicit Types h : list A.

(** The key of the element at an index. *)
Definition at_ (h : list A) (i : nat) : Z := from_option key 0 (h !! i).
(** The heap order at the elements below [n] whose parent is not below [k]. *)
Definition ordered (k n : nat) (h : list A) (m : nat) : Prop :=
  (0 < m < n)%nat -> (k <= parent m)%nat -> at_ h (parent m) <= at_ h m.
Definition heap_ok (h : list A) : Prop := forall m, ordered 0 (length h) h m.

Lemma length_exchange i j h : length (exchange i j h) = length h.
Proof. unfold exchange. destruct (h !! i), (h !! j); rewrite ?length_insert; done. Qed.
Lemma exchange_perm i j h : exchange i j h ≡ₚ h.
Proof.
  unfold exchange. destruct (h !! i) as [x|] eqn:Ei, (h !! j) as [y|] eqn:Ej; try done.
  destruct (decide (i = j)) as [->|Hij]; [rewrite list_insert_insert_eq; by rewrite list_insert_id by congruence|].
  apply Permutation_inj. split; [by rewrite !length_insert|].
  apply lookup_lt_Some in Ei as Li. apply lookup_lt_Some in Ej as Lj.
  exists (fun m => if decide (m = i) then j else if decide (m = j) then i else m). split.
  - intros a b. repeat case_decide; congruence.
  - intros m. destruct (decide (m = i)) as [->|Hmi]; [by rewrite list_lookup_insert_eq by by rewrite length_insert|].
    rewrite list_lookup_insert_ne by done. destruct (decide (m = j)) as [->|Hmj]; [by rewrite list_lookup_insert_eq by done|].
    by rewrite list_lookup_insert_ne.
Qed.
Lemma lookup_exchange_ne i j m h : m <> i -> m <> j -> exchange i j h !! m = h !! m.
Proof. intros Hi Hj. unfold exchange. destruct (h !! i), (h !! j); by rewrite ?list_lookup_insert_ne by done. Qed.
Lemma at_exchange i j m h : (i < length h)%nat -> (j < length h)%nat ->
  at_ (exchange i j h) m = at_ h (if decide (m = i) then j else if decide (m = j) then i else m).
Proof.
  intros Hi Hj. unfold at_. destruct (lookup_lt_is_Some_2 h i Hi) as [x Ex], (lookup_lt_is_Some_2 h j Hj) as [y Ey].
  repeat case_decide; subst; [| |by rewrite lookup_exchange_ne].
  all: unfold exchange; rewrite Ex, Ey.
  - by rewrite list_lookup_insert_eq by by rewrite length_insert.
  - rewrite list_lookup_insert_ne, list_lookup_insert_eq by done. congruence.
Qed.
Lemma Less_at i j h : (i < length h)%nat -> (j < length h)%nat -> Less less i j h = (at_ h i <? at_ h j).
Proof.
  intros Hi Hj. unfold Less, at_. destruct (lookup_lt_is_Some_2 h i Hi) as [x ->], (lookup_lt_is_Some_2 h j Hj) as [y ->]. apply less_key.
Qed.

Lemma down_ok fuel i n h k :
  (n <= length h)%nat -> (n - i <= fuel)%nat -> (k <= i)%nat ->
  (forall m, m <> i -> parent m <> i -> ordered k n h m) ->
  (forall m, (0 < m < n)%nat -> parent m = i -> (0 < i)%nat -> (k <= parent i)%nat -> at_ h (parent i) <= at_ h m) ->
  exists h' i', down less fuel i n h = (h', i') /\ h' ≡ₚ h /\ (forall m, (n <= m)%nat -> h' !! m = h !! m) /\
    (i <= i')%nat /\ (i' = i -> h' = h) /\ (forall m, m <> i \/ (i < i')%nat -> ordered k n h' m).
Proof.
  intros Hn. revert i h Hn. induction fuel as [|fuel IH]; intros i h Hn Hf Hk HA HB; cbn [down].
  { exists h, i. split_and!; try done. intros m [Hm|?]; [|lia]. destruct (decide (parent m = i)); [|by apply HA].
    intros Hmn _. destruct (parent_spec m); lia. }
  cbv zeta. destruct (Nat.leb_spec n (2 * i + 1)) as [Hj1|Hj1].
  { exists h, i. split_and!; try done. intros m [Hm|?]; [|lia]. destruct (decide (parent m = i)); [|by apply HA].
    intros Hmn _. destruct (parent_spec m); lia. }
  set (j := if _ && _ then _ else _).
  assert ((i < j < n)%nat /\ parent j = i /\ forall m, (0 < m < n)%nat -> parent m = i -> at_ h j <= at_ h m) as (Hj & Hpj & Hmin).
  { assert (parent (2 * i + 1) = i) by (destruct (parent_spec (2 * i + 1)); lia).
    assert (parent (2 * i + 1 + 1) = i) by (destruct (parent_spec (2 * i + 1 + 1)); lia).
    assert (forall m, (0 < m < n)%nat -> parent m = i -> m = (2 * i + 1)%nat \/ (m = (2 * i + 1 + 1)%nat /\ (2 * i + 1 + 1 < n)%nat)) as Hm by
      (intros m Hmn Hpm; destruct (parent_spec m); lia).
    unfold j. destruct (Nat.ltb_spec (2 * i + 1 + 1) n) as [H2|H2]; cbn [andb];
      [rewrite Less_at by lia; destruct (Z.ltb_spec (at_ h (2 * i + 1)) (at_ h (2 * i + 1 + 1))) as [Hlt|Hle]; cbn [negb]|].
    all: split_and!; try lia; try done; intros m Hmn Hpm; destruct (Hm m Hmn Hpm) as [->|[-> ?]]; lia. }
  clearbody j. rewrite Less_at by lia. destruct (Z.ltb_spec (at_ h j) (at_ h i)) as [Hlt|Hle]; cbn [negb].
  2: { exists h, i. split_and!; try done. intros m [Hm|?]; [|lia]. destruct (decide (parent m = i)) as [Hp|]; [|by apply HA].
       intros Hmn _. rewrite Hp. specialize (Hmin m Hmn Hp). lia. }
  assert (forall m, at_ (exchange i j h) m = at_ h (if decide (m = i) then j else if decide (m = j) then i else m)) as Hat by (intros; apply at_exchange; lia).
  destruct (IH j (exchange i j h)) as (h' & i' & E & Hp & Hout & Hle & Hsame & Hord).
  - by rewrite length_exchange.
  - lia.
  - lia.
  - intros m Hmj Hpm Hmn Hkm. rewrite !Hat. rewrite (decide_False (P := parent m = j)) by done. rewrite (decide_False (P := m = j)) by done.
    destruct (decide (parent m = i)) as [Hpi|Hpi].
    + rewrite decide_False by (intros ->; destruct (parent_spec i); lia). by apply Hmin.
    + destruct (decide (m = i)) as [->|Hmi]; [apply HB; try done; lia|]. by apply HA.
  - intros m Hmn Hpm _ _. rewrite Hpj, !Hat, decide_True, !decide_False; [|destruct (parent_spec m); lia..|done].
    rewrite <- Hpm. apply HA; [destruct (parent_spec m); lia|lia|done|lia].
  - exists h', i'. rewrite E. split_and!; [done|by rewrite Hp, exchange_perm| |lia|lia|].
    + intros m Hm. rewrite Hout by done. apply lookup_exchange_ne; lia.
    + intros m _. destruct (decide (m = j)) as [->|Hmj]; [|apply Hord; by left].
      destruct (decide (i' = j)) as [->|]; [|apply Hord; right; lia]. rewrite Hsame by done. intros _ _.
      rewrite Hpj, !Hat, decide_True, decide_False, decide_True by (done || lia). lia.
Qed.

Lemma up_ok fuel j n h :
  (n <= length h)%nat -> (j < n)%nat -> (j < fuel)%nat ->
  (forall m, m <> j -> ordered 0 n h m) ->
  (forall m, (0 < m < n)%nat -> parent m = j -> (0 < j)%nat -> at_ h (parent j) <= at_ h m) ->
  up less fuel j h ≡ₚ h /\ (forall m, (n <= m)%nat -> up less fuel j h !! m = h !! m) /\
  forall m, ordered 0 n (up less fuel j h) m.
Proof.
  intros Hn. revert j h Hn. induction fuel as [|fuel IH]; intros j h Hn Hj Hf HA HB; [lia|]. cbn [up]. cbv zeta.
  assert (j = 0%nat \/ (parent j < j)%nat) as [->|Hpj] by (destruct j; [by left|right; destruct (parent_spec (S j)); lia]).
  { rewrite parent_0. cbn. split_and!; try done. intros m. destruct (decide (m = 0%nat)) as [->|]; [intros ?; lia|by apply HA]. }
  rewrite (proj2 (Nat.eqb_neq _ _)) by lia. cbn [orb]. rewrite Less_at by lia.
  destruct (Z.ltb_spec (at_ h j) (at_ h (parent j))) as [Hlt|Hle]; cbn [negb].
  2: { split_and!; try done. intros m. destruct (decide (m = j)) as [->|]; [by intros _ _|by apply HA]. }
  assert (forall m, at_ (exchange (parent j) j h) m = at_ h (if decide (m = parent j) then j else if decide (m = j) then parent j else m)) as Hat
    by (intros; apply at_exchange; lia).
  destruct (IH (parent j) (exchange (parent j) j h)) as (Hp & Hout & Hord).
  - by rewrite length_exchange.
  - lia.
  - lia.
  - intros m Hmi Hmn _. rewrite !Hat, (decide_False (P := m = parent j)) by done.
    destruct (decide (parent m = parent j)) as [Hpm|Hpm].
    + destruct (decide (m = j)) as [->|Hmj]; [lia|]. pose proof (HA m Hmj Hmn ltac:(lia)). rewrite Hpm in *. lia.
    + rewrite (decide_False (P := m = j)) by congruence. destruct (decide (parent m = j)) as [Hpmj|Hpmj].
      * apply HB; try done. lia.
      * apply HA; [congruence|done|lia].
  - intros m Hmn Hpm Hi0. assert (parent (parent j) < parent j)%nat by (destruct (parent_spec (parent j)); lia).
    rewrite !Hat, !(decide_False (P := parent (parent j) = _)) by lia.
    pose proof (HA (parent j) ltac:(lia) ltac:(lia) ltac:(lia)). rewrite (decide_False (P := m = parent j)) by (destruct (parent_spec m); lia).
    destruct (decide (m = j)) as [->|Hmj]; [done|]. pose proof (HA m Hmj Hmn ltac:(lia)). rewrite Hpm in *. lia.
  - split_and!; [by rewrite Hp, exchange_perm| |done]. intros m Hm. rewrite Hout by done. apply lookup_exchange_ne; lia.
Qed.

Lemma heap_min h m : heap_ok h -> (m < length h)%nat -> at_ h 0 <= at_ h m.
Proof.
  intros Hh. induction m as [m IH] using lt_wf_ind. intros Hm. destruct m as [|m]; [done|].
  pose proof (parent_spec (S m)). pose proof (Hh (S m) ltac:(lia) ltac:(lia)). specialize (IH (parent (S m))). lia.
Qed.

(** Cutting off the elements that do not belong to the heap. *)
Lemma take_last_ok n h x : length h = S n -> h !! n = Some x -> (forall m, ordered 0 n h m) ->
  take_last h = Some (x, take n h) /\ h ≡ₚ x :: take n h /\ heap_ok (take n h).
Proof.
  intros Hl Hx Ho. unfold take_last. rewrite last_lookup, Hl. cbn [pred]. rewrite Hx. replace (S n - 1)%nat with n by lia. split; [done|].
  split; [rewrite <- (take_drop n h) at 1; rewrite (drop_S _ x _ Hx), drop_ge by lia; by rewrite Permutation_app_comm|].
  intros m. unfold ordered, at_. rewrite length_take, Nat.min_l by lia. intros Hm Hk.
  assert (parent m < m)%nat by (destruct (parent_spec m); lia). rewrite !lookup_take_lt by lia. by apply Ho.
Qed.

Lemma Init_ok h : heap_ok (Init less h) /\ Init less h ≡ₚ h.
Proof.
  unfold Init. set (n := length h).
  assert (forall k h', length h' = n -> (forall m, ordered k n h' m) -> (k <= n)%nat ->
    init_loop less k n h' ≡ₚ h' /\ forall m, ordered 0 n (init_loop less k n h') m) as Hloop.
  { induction k as [|k IH]; intros h' Hl Ho Hk; [by split|]. cbn [init_loop].
    destruct (down_ok n k n h' k) as (h1 & i' & E & Hp & _ & _ & _ & Hord); [lia..| | |].
    - intros m Hm Hpm Hmn Hkm. apply Ho; lia.
    - intros m _ _ Hk0 Hkp. destruct (parent_spec k); lia.
    - rewrite E. cbn [fst]. destruct (IH h1) as [H1 H2]; [by rewrite Hp| |lia|by rewrite H1]. intros m.
      destruct (decide (m = k)) as [->|Hmk]; [|apply Hord; by left]. intros Hmn Hkm. destruct (parent_spec k); lia. }
  destruct (Hloop (n / 2)%nat h) as [Hp Ho]; [done| |apply Nat.div_le_upper_bound; lia|].
  - intros m Hm Hkm. pose proof (parent_spec m). pose proof (Nat.div_mod_eq n 2). pose proof (Nat.mod_upper_bound n 2). lia.
  - split; [|done]. unfold heap_ok. by rewrite (Permutation_length Hp).
Qed.

Lemma Push_ok x h : heap_ok h -> heap_ok (Push less x h) /\ Push less x h ≡ₚ x :: h.
Proof.
  intros Hh. unfold Push. cbv zeta. set (g := h ++ [x]). assert (length g = S (length h)) as Hl by (unfold g; rewrite length_app; cbn; lia).
  destruct (up_ok (length g) (length g - 1) (length g) g) as (Hp & _ & Ho); [lia..| | |].
  - intros m Hm Hmn Hk. assert (parent m < m)%nat by (destruct (parent_spec m); lia). unfold at_, g. rewrite !lookup_app_l by lia. apply Hh; lia.
  - intros m Hm Hpm _. destruct (parent_spec m); lia.
  - split; [unfold heap_ok; by rewrite (Permutation_length Hp)|]. rewrite Hp. unfold g. by rewrite Permutation_app_comm.
Qed.

Lemma Pop_ok h : heap_ok h -> h <> [] ->
  exists x h', Pop less h = Some (x, h') /\ h !! 0%nat = Some x /\ h ≡ₚ x :: h' /\ heap_ok h' /\ forall y, y ∈ h -> key x <= key y.
Proof.
  intros Hh Hne. destruct h as [|x t] eqn:Eh; [done|]. rewrite <- Eh in *. assert (h !! 0%nat = Some x) as Hx by (by rewrite Eh).
  set (n := (length h - 1)%nat). assert (length h = S n) as Hl by (unfold n; rewrite Eh; cbn; lia).
  assert (forall m, at_ (exchange 0 n h) m = at_ h (if decide (m = 0%nat) then n else if decide (m = n) then 0%nat else m)) as Hat by (intros; apply at_exchange; lia).
  destruct (down_ok n 0 n (exchange 0 n h) 0) as (h1 & i' & E & Hp & Hout & _ & _ & Ho); [rewrite length_exchange; lia|lia|lia| |lia|].
  { intros m Hm Hpm Hmn Hk. rewrite !Hat, !(decide_False (P := _ = 0%nat)) by done. assert (parent m < m)%nat by (destruct (parent_spec m); lia).
    rewrite !decide_False by lia. apply Hh; lia. }
  assert (h1 !! n = Some x) as Hn.
  { rewrite Hout by lia. destruct (decide (n = 0%nat)) as [Hn0|Hn0].
    - rewrite Hn0. unfold exchange. rewrite Hx. rewrite list_insert_insert_eq, list_lookup_insert_eq by lia. done.
    - unfold exchange. rewrite Hx. destruct (lookup_lt_is_Some_2 h n) as [y Hy]; [lia|]. rewrite Hy.
      rewrite list_lookup_insert_ne, list_lookup_insert_eq by lia. done. }
  destruct (take_last_ok n h1 x) as (Et & Hpt & Hht); [by rewrite Hp, length_exchange|done| |].
  { intros m. destruct (decide (m = 0%nat)) as [->|]; [intros ?; lia|apply Ho; by left]. }
  exists x, (take n h1). unfold Pop. fold n. rewrite E. cbn [fst]. split_and!; [done..| |done|].
  - by rewrite <- Hpt, Hp, exchange_perm.
  - intros y Hy. apply list_elem_of_lookup in Hy as [m Hm]. apply lookup_lt_Some in Hm as Hml.
    pose proof (heap_min h m Hh Hml) as Hmin. unfold at_ in Hmin. rewrite Hx, Hm in Hmin. exact Hmin.
Qed.

(** [down] followed by [up] repairs the heap order around one element. *)
Lemma repair_ok i n h :
  (n <= length h)%nat -> (i < n)%nat ->
  (forall m, m <> i -> parent m <> i -> ordered 0 n h m) ->
  (forall m, (0 < m < n)%nat -> parent m = i -> (0 < i)%nat -> at_ h (parent i) <= at_ h m) ->
  exists h1 i', down less n i n h = (h1, i') /\ (i <= i')%nat /\
    h1 ≡ₚ h /\ (forall m, (n <= m)%nat -> h1 !! m = h !! m) /\ ((i < i')%nat -> forall m, ordered 0 n h1 m) /\
    up less (S i) i h1 ≡ₚ h /\ (forall m, (n <= m)%nat -> up less (S i) i h1 !! m = h !! m) /\
    forall m, ordered 0 n (up less (S i) i h1) m.
Proof.
  intros Hn Hi HA HB.
  destruct (down_ok n i n h 0) as (h1 & i' & E & Hp & Hout & Hle & Hsame & Ho); [done|lia|lia|done|intros; by apply HB|].
  assert (length h1 = length h) as Hl by (by rewrite Hp).
  destruct (up_ok (S i) i n h1) as (Hp' & Hout' & Ho'); [lia|done|lia|intros m Hm; apply Ho; by left| |].
  { intros m Hm Hpm Hi0. destruct (decide (i' = i)) as [Ei|Hne]; [rewrite Hsame by done; by apply HB|].
    assert (parent i < i)%nat by (destruct (parent_spec i); lia).
    pose proof (Ho i ltac:(right; lia) ltac:(lia) ltac:(lia)). pose proof (Ho m ltac:(right; lia) Hm ltac:(lia)). rewrite Hpm in *. lia. }
  exists h1, i'. split_and!; try done; [intros Hlt m; apply Ho; by right|by rewrite Hp'|]. intros m Hm. rewrite Hout' by done. by apply Hout.
Qed.

Lemma Remove_ok i x h : heap_ok h -> h !! i = Some x ->
  exists h', Remove less i h = Some (x, h') /\ h ≡ₚ x :: h' /\ heap_ok h'.
Proof.
  intros Hh Hx. apply lookup_lt_Some in Hx as Hi. set (n := (length h - 1)%nat). assert (length h = S n) as Hl by lia.
  unfold Remove. fold n. rewrite (proj2 (Nat.leb_gt _ _)) by done. destruct (Nat.eqb_spec n i) as [<-|Hne].
  { destruct (take_last_ok n h x) as (Et & Hpt & Hht); [done..| |by exists (take n h)]. intros m Hm Hk. apply Hh; lia. }
  assert (forall m, at_ (exchange i n h) m = at_ h (if decide (m = i) then n else if decide (m = n) then i else m)) as Hat by (intros; apply at_exchange; lia).
  destruct (repair_ok i n (exchange i n h)) as (h1 & i' & E & _ & _ & _ & _ & Hp & Hout & Ho); [rewrite length_exchange; lia|lia| | |].
  - intros m Hm Hpm Hmn Hk. assert (parent m < m)%nat by (destruct (parent_spec m); lia). rewrite !Hat, !decide_False by lia. apply Hh; lia.
  - intros m Hm Hpm Hi0. assert (parent i < i)%nat by (destruct (parent_spec i); lia). assert (i < m)%nat by (destruct (parent_spec m); lia).
    rewrite !Hat, !decide_False by lia. pose proof (Hh i ltac:(lia) ltac:(lia)). pose proof (Hh m ltac:(lia) ltac:(lia)). rewrite Hpm in *. lia.
  - rewrite E. cbn [fst]. destruct (take_last_ok n (up less (S i) i h1) x) as (Et & Hpt & Hht); [by rewrite Hp, length_exchange| |done|].
    + rewrite Hout by lia. unfold exchange. rewrite Hx. destruct (lookup_lt_is_Some_2 h n) as [y Hy]; [lia|]. rewrite Hy.
      rewrite list_lookup_insert_ne, list_lookup_insert_eq by lia. done.
    + eexists. split_and!; [done| |done]. by rewrite <- Hpt, Hp, exchange_perm.
Qed.

(** A new element in place of the first one *)
Lemma Fix_head_ok x y t : heap_ok (x :: t) -> heap_ok (Fix less 0 (y :: t)) /\ Fix less 0 (y :: t) ≡ₚ y :: t.
Proof.
  intros Hh. destruct (repair_ok 0 (length (y :: t)) (y :: t)) as (h1 & i' & E & Hle & Hp1 & _ & Hd & Hp & _ & Ho); [done|cbn; lia| |lia|].
  { intros m Hm Hpm Hmn Hk. specialize (Hh m). unfold ordered, at_ in *. destruct m as [|m]; [lia|]. destruct (parent (S m)) as [|q]; [lia|]. by apply Hh. }
  unfold Fix. rewrite E. destruct (Nat.ltb_spec 0 i') as [Hlt|_].
  - split; [|done]. unfold heap_ok. rewrite (Permutation_length Hp1). by apply Hd.
  - split; [|done]. unfold heap_ok. by rewrite (Permutation_length Hp).
Qed.
End facts.
End Heap.
