(* ===== verification/Types.v ===== *)
(** * Block headers ([core/types/block.go]) and fallible calls

    A header with all its fields, its hash, and the hash the proof-of-work search and the
    proof-of-authority signature cover.  The [*big.Int] fields are not nil, as in every header
    that was decoded or made by [CopyHeader]. *)

From S2P Require Import Prelude GoMath World Rlp.

(** ** A Go call that returns a value or an error, or panics *)

Inductive gores (E A : Type) := GOk (a : A) | GErr (e : E) | GPanic.
#[global] Arguments GOk {E A} a.
#[global] Arguments GErr {E A} e.
#[global] Arguments GPanic {E A}.

Definition gbind {E A B} (x : gores E A) (f : A -> gores E B) : gores E B :=
  match x with GOk a => f a | GErr e => GErr e | GPanic => GPanic end.
Notation "'let+' x := e 'in' k" := (gbind e (fun x => k))
  (at level 200, x pattern at level 0, e at level 100, k at level 200, right associativity).
(** [if cond { return err }] *)
Definition guard {E} (ok : bool) (e : E) : gores E unit := if ok then GOk tt else GErr e.
Notation "'check' b 'or' e ; k" := (gbind (guard b e) (fun _ => k))
  (at level 200, b at level 100, e at level 100, k at level 200, right associativity).

Lemma gbind_ok {E A B} (x : gores E A) (f : A -> gores E B) b :
  gbind x f = GOk b <-> exists a, x = GOk a /\ f a = GOk b.
Proof. destruct x; cbn; split; try done; [eauto|intros (? & [= <-] & ?); done|by intros (? & ? & _)..]. Qed.
#[export] Instance GOk_inj {E A} : Inj (=) (=) (@GOk E A).
Proof. by intros a b [= ->]. Qed.
Lemma guard_ok {E} b (e : E) u : guard b e = GOk u <-> b = true.
Proof. destruct b, u; done. Qed.

(** Splits a run that succeeded into its steps. *)
Ltac ginv H :=
  repeat first
    [ rewrite gbind_ok in H; let x := fresh "x" in let E := fresh "E" in destruct H as (x & E & H)
    | match type of H with guard _ _ = _ => apply guard_ok in H end ].

Module Types.

Definition BlockNonce := list byte.   (* 8 bytes *)

Record Header := mkHeader {
  ParentHash : Hash;
  UncleHash : Hash;
  Coinbase : Address;
  Root : Hash;
  TxHash : Hash;
  ReceiptHash : Hash;
  Bloom : list byte;            (* 256 bytes *)
  Difficulty : Z;
  Number : Z;
  GasLimit : Z;
  GasUsed : Z;
  Time : Z;
  Extra : list byte;
  MixDigest : Hash;
  Nonce : BlockNonce;
}.

Section hashes.
Context `{CryptoPrims}.

(** [rlpHash]: the error of [rlp.Encode] is ignored, nothing is written then. *)
Definition rlpHash (x : Rlp.value) : GoMath.Hash := Keccak256Hash (default [] (Rlp.EncodeToBytes x)).

(** The fields in front of the extra data. *)
Definition header_fields (h : Header) : list Rlp.value :=
  [ Rlp.VBytes (be_bytes 32 (ParentHash h)); Rlp.VBytes (be_bytes 32 (UncleHash h));
    Rlp.VBytes (be_bytes 20 (Coinbase h)); Rlp.VBytes (be_bytes 32 (Root h));
    Rlp.VBytes (be_bytes 32 (TxHash h)); Rlp.VBytes (be_bytes 32 (ReceiptHash h));
    Rlp.VBytes (Bloom h); Rlp.VBigInt (Some (Difficulty h)); Rlp.VBigInt (Some (Number h));
    Rlp.VBigInt (Some (GasLimit h)); Rlp.VBigInt (Some (GasUsed h)); Rlp.VBigInt (Some (Time h)) ].
Definition header_value (h : Header) : Rlp.value :=
  Rlp.VStruct (header_fields h ++ [Rlp.VBytes (Extra h); Rlp.VBytes (be_bytes 32 (MixDigest h)); Rlp.VBytes (Nonce h)]).

Definition header_Hash (h : Header) : GoMath.Hash := rlpHash (header_value h).
Definition HashNoNonce (h : Header) : GoMath.Hash :=
  rlpHash (Rlp.VSlice false (header_fields h ++ [Rlp.VBytes (Extra h)])).
Definition CalcUncleHash (uncles : list Header) : GoMath.Hash :=
  rlpHash (Rlp.VSlice false (map header_value uncles)).
End hashes.
End Types.
