(* ===== verification/Clique.v ===== *)
(** * [consensus/clique]: proof of authority

    The voting snapshots of [snapshot.go], the engine of [clique.go] that verifies, prepares and
    seals headers with them, and its user-facing methods ([api.go]).  A map with no values is a
    set.  Go iterates over maps in no particular order: [signers_in] takes the order.  The cache
    of recent snapshots is a third-party ARC cache: [arc_add] is its [Add], which may evict
    entries.  The cache of signatures only remembers results of [ecrecover] and is left out.
    Snapshots are written to the database as JSON; the database is the map from block hashes to
    what is read back, and writing to it does not fail. *)

From S2P Require Import Prelude GoMath World Rlp Types.

Module Clique.
Import Types.

(** ** Errors *)

Inductive cliqueError :=
| errUnknownBlock | errInvalidCheckpointBeneficiary | errInvalidVote | errInvalidCheckpointVote
| errMissingVanity | errMissingSignature | errExtraSigners | errInvalidCheckpointSigners
| errInvalidMixDigest | errInvalidUncleHash | errInvalidDifficulty | ErrInvalidTimestamp
| errInvalidVotingChain | errUnauthorized | errRecover | errSign
| ErrUnknownAncestor | ErrFutureBlock.
Notation result := (gores cliqueError).

(** ** Constants and configuration *)

Definition checkpointInterval : Z := 1024.
Definition epochLength : Z := 30000.
Definition blockPeriod : Z := 15.
Definition extraVanity : Z := 32.
Definition extraSeal : Z := 65.
Definition AddressLength : Z := 20.
Definition nonceAuthVote : BlockNonce := replicate 8 Byte.xff.
Definition nonceDropVote : BlockNonce := replicate 8 Byte.x00.
Definition diffInTurn : Z := 2.
Definition diffNoTurn : Z := 1.

Record CliqueConfig := mkConfig { Period : Z; Epoch : Z }.

(** The configuration [New] gives the engine. *)
Definition New_config (config : CliqueConfig) : CliqueConfig :=
  mkConfig (if Period config =? 0 then blockPeriod else Period config)
           (if Epoch config =? 0 then epochLength else Epoch config).

(** ** Snapshots ([snapshot.go]) *)

Record Vote := mkVote { v_Signer : Address; v_Block : Z; v_Address : Address; v_Authorize : bool }.
Record Tally := mkTally { t_Authorize : bool; t_Votes : Z }.

Record Snapshot := mkSnapshot {
  s_Number : Z;
  s_Hash : Hash;
  Signers : gset Address;
  Recents : gmap Z Address;
  Votes : list Vote;
  s_Tally : gmap Address Tally;
}.

Definition newSnapshot (number : Z) (hash : Hash) (signers : list Address) : Snapshot :=
  mkSnapshot number hash (list_to_set signers) ∅ [] ∅.

Definition nsigners (s : Snapshot) : Z := Z.of_nat (size (Signers s)).
(** [uint64(len(snap.Signers)/2 + 1)] *)
Definition limit_of (s : Snapshot) : Z := nsigners s / 2 + 1.

Definition set_votes (vs : list Vote) (t : gmap Address Tally) (s : Snapshot) : Snapshot :=
  mkSnapshot (s_Number s) (s_Hash s) (Signers s) (Recents s) vs t.
Definition set_recents (r : gmap Z Address) (s : Snapshot) : Snapshot :=
  mkSnapshot (s_Number s) (s_Hash s) (Signers s) r (Votes s) (s_Tally s).
Definition set_signers (x : gset Address) (s : Snapshot) : Snapshot :=
  mkSnapshot (s_Number s) (s_Hash s) x (Recents s) (Votes s) (s_Tally s).

Definition validVote (s : Snapshot) (address : Address) (authorize : bool) : bool :=
  let signer := bool_decide (address ∈ Signers s) in
  (signer && negb authorize) || (negb signer && authorize).

Definition cast (s : Snapshot) (address : Address) (authorize : bool) : Snapshot * bool :=
  if negb (validVote s address authorize) then (s, false)
  else
    let tally :=
      match s_Tally s !! address with
      | Some old => mkTally (t_Authorize old) (t_Votes old + 1)
      | None => mkTally authorize 1
      end in
    (set_votes (Votes s) (<[address := tally]> (s_Tally s)) s, true).

(** On the tally alone: that is all it changes. *)
Definition uncast (t : gmap Address Tally) (address : Address) (authorize : bool) : gmap Address Tally * bool :=
  match t !! address with
  | None => (t, false)
  | Some tally =>
      if negb (Bool.eqb (t_Authorize tally) authorize) then (t, false)
      else if t_Votes tally >? 1 then
        (<[address := mkTally (t_Authorize tally) (t_Votes tally - 1)]> t, true)
      else (delete address t, true)
  end.

(** The first vote of [signer] on [address], and the votes without it. *)
Fixpoint take_vote (signer address : Address) (vs : list Vote) : option (Vote * list Vote) :=
  match vs with
  | [] => None
  | v :: vs' =>
      if (v_Signer v =? signer) && (v_Address v =? address) then Some (v, vs')
      else match take_vote signer address vs' with
           | Some (w, rest) => Some (w, v :: rest)
           | None => None
           end
  end.

(** The loop that drops and uncasts the votes of a removed signer. *)
Fixpoint discard_votes_by (signer : Address) (vs : list Vote) (t : gmap Address Tally)
    : list Vote * gmap Address Tally :=
  match vs with
  | [] => ([], t)
  | v :: vs' =>
      if v_Signer v =? signer then discard_votes_by signer vs' (uncast t (v_Address v) (v_Authorize v)).1
      else let '(rest, t) := discard_votes_by signer vs' t in (v :: rest, t)
  end.

Section engine.
Context `{CryptoPrims}.

(** *** Signatures ([clique.go]) *)

(** The slice panics when the extra data is too short. *)
Definition sigHash (header : Header) : result Hash :=
  if zlen (Extra header) <? 65 then GPanic
  else GOk (rlpHash (Rlp.VSlice false (header_fields header ++
         [Rlp.VBytes (take (Z.to_nat (zlen (Extra header) - 65)) (Extra header));
          Rlp.VBytes (be_bytes 32 (MixDigest header)); Rlp.VBytes (Nonce header)]))).

Definition ecrecover (header : Header) : result Address :=
  check negb (zlen (Extra header) <? extraSeal) or errMissingSignature;
  let signature := drop (Z.to_nat (zlen (Extra header) - extraSeal)) (Extra header) in
  let+ h := sigHash header in
  match EcrecoverPub (be_bytes 32 h) signature with
  | None => GErr errRecover
  | Some pubkey => GOk (BytesToAddress (drop 12 (Keccak256 (drop 1 pubkey))))
  end.

(** *** Applying headers *)

Definition is_recent (s : Snapshot) (signer : Address) : bool :=
  existsb (fun p => p.2 =? signer) (map_to_list (Recents s)).

(** Who may sign block [number]: the oldest recent signer is let go first. *)
Definition shift_recents (s : Snapshot) (number : Z) : Snapshot :=
  if number >=? limit_of s then set_recents (delete (number - limit_of s) (Recents s)) s else s.

(** The tally has passed for [addr]: the list of signers changes. *)
Definition enact (s : Snapshot) (addr : Address) (number : Z) (authorize : bool) : Snapshot :=
  let s :=
    if authorize then set_signers ({[addr]} ∪ Signers s) s
    else
      let s := shift_recents (set_signers (Signers s ∖ {[addr]}) s) number in
      let '(vs, t) := discard_votes_by addr (Votes s) (s_Tally s) in set_votes vs t s in
  set_votes (filter (fun v => v_Address v <> addr) (Votes s)) (delete addr (s_Tally s)) s.

Definition enact_if_passed (s : Snapshot) (addr : Address) (number : Z) : Snapshot :=
  let tally := default (mkTally false 0) (s_Tally s !! addr) in
  if t_Votes tally >? nsigners s / 2 then enact s addr number (t_Authorize tally) else s.

(** Only one vote of a signer on an account counts: the previous one is dropped. *)
Definition drop_previous (s : Snapshot) (signer addr : Address) : Snapshot :=
  match take_vote signer addr (Votes s) with
  | Some (vote, rest) => set_votes rest (uncast (s_Tally s) (v_Address vote) (v_Authorize vote)).1 s
  | None => s
  end.
Definition record_vote (s : Snapshot) (signer : Address) (number : Z) (addr : Address) (authorize : bool) : Snapshot :=
  let '(s, ok) := cast s addr authorize in
  if ok then set_votes (Votes s ++ [mkVote signer number addr authorize]) (s_Tally s) s else s.

Definition vote_of (nonce : BlockNonce) : result bool :=
  if bool_decide (nonce = nonceAuthVote) then GOk true
  else if bool_decide (nonce = nonceDropVote) then GOk false
  else GErr errInvalidVote.

Definition apply_header (config : CliqueConfig) (s : Snapshot) (header : Header) : result Snapshot :=
  let number := Uint64 (Number header) in
  if Epoch config =? 0 then GPanic   (* integer divide by zero *)
  else
    let s := if number mod Epoch config =? 0 then set_votes [] ∅ s else s in
    let s := shift_recents s number in
    let+ signer := ecrecover header in
    check bool_decide (signer ∈ Signers s) or errUnauthorized;
    check negb (is_recent s signer) or errUnauthorized;
    let s := set_recents (<[number := signer]> (Recents s)) s in
    let s := drop_previous s signer (Coinbase header) in
    let+ authorize := vote_of (Nonce header) in
    GOk (enact_if_passed (record_vote s signer number (Coinbase header) authorize) (Coinbase header) number).

Fixpoint apply_headers (config : CliqueConfig) (s : Snapshot) (headers : list Header) : result Snapshot :=
  match headers with
  | [] => GOk s
  | h :: hs => let+ s := apply_header config s h in apply_headers config s hs
  end.

(** The headers are contiguous. *)
Fixpoint contiguous (headers : list Header) : bool :=
  match headers with
  | h :: ((h' :: _) as hs) => (Uint64 (Number h') =? u64 (Uint64 (Number h) + 1)) && contiguous hs
  | _ => true
  end.

Definition apply (config : CliqueConfig) (s : Snapshot) (headers : list Header) : result Snapshot :=
  match headers with
  | [] => GOk s
  | h :: hs =>
      check contiguous headers or errInvalidVotingChain;
      check Uint64 (Number h) =? u64 (s_Number s + 1) or errInvalidVotingChain;
      let+ snap := apply_headers config s headers in
      GOk (mkSnapshot (u64 (s_Number snap + zlen headers)) (header_Hash (List.last hs h))
             (Signers snap) (Recents snap) (Votes snap) (s_Tally snap))
  end.

(** *** The order of signers *)

(** The inner loop: [x] is compared and swapped with each element of [rest]. *)
Fixpoint select_min (x : Address) (rest : list Address) : Address * list Address :=
  match rest with
  | [] => (x, [])
  | y :: rest' =>
      if x >? y then let '(m, l) := select_min y rest' in (m, x :: l)
      else let '(m, l) := select_min x rest' in (m, y :: l)
  end.
Fixpoint sort_loop (fuel : nat) (l : list Address) : list Address :=
  match fuel, l with
  | S fuel', x :: rest => let '(m, l') := select_min x rest in m :: sort_loop fuel' l'
  | _, _ => l
  end.
(** [order] is the order in which the map of signers is iterated. *)
Definition signers_in (order : list Address) : list Address := sort_loop (length order) order.
Definition signers (s : Snapshot) : list Address := signers_in (elements (Signers s)).

Fixpoint offset_of (signer : Address) (l : list Address) : Z :=
  match l with
  | [] => 0
  | x :: l' => if x =? signer then 0 else 1 + offset_of signer l'
  end.
(** The remainder panics when there are no signers. *)
Definition inturn (s : Snapshot) (number : Z) (signer : Address) : result bool :=
  let l := signers s in
  if zlen l =? 0 then GPanic else GOk (number mod zlen l =? offset_of signer l).

(** ** The engine ([clique.go]) *)

Record Engine := mkEngine {
  e_config : CliqueConfig;
  e_recents : gmap Hash Snapshot;      (* the ARC cache *)
  e_db : gmap Hash Snapshot;           (* snapshots on disk *)
  e_proposals : gmap Address bool;
  e_signer : Address;
  e_signFn : Address -> list byte -> option (list byte);
}.
Definition set_recent_snapshots (r : gmap Hash Snapshot) (c : Engine) : Engine :=
  mkEngine (e_config c) r (e_db c) (e_proposals c) (e_signer c) (e_signFn c).
Definition set_db (d : gmap Hash Snapshot) (c : Engine) : Engine :=
  mkEngine (e_config c) (e_recents c) d (e_proposals c) (e_signer c) (e_signFn c).

Definition New (config : CliqueConfig) (db : gmap Hash Snapshot) : Engine :=
  mkEngine (New_config config) ∅ db ∅ 0 (fun _ _ => None).
Definition Authorize (signer : Address) (signFn : Address -> list byte -> option (list byte)) (c : Engine) : Engine :=
  mkEngine (e_config c) (e_recents c) (e_db c) (e_proposals c) signer signFn.

(** A call on the engine: it may fill the caches, also when it fails. *)
Definition M (A : Type) : Type := Engine -> Engine * result A.
Definition lift {A} (r : result A) : M A := fun c => (c, r).
Definition mbind {A B} (x : M A) (f : A -> M B) : M B := fun c =>
  match x c with
  | (c, GOk a) => f a c
  | (c, GErr e) => (c, GErr e)
  | (c, GPanic) => (c, GPanic)
  end.
Notation "'let^' x := e 'in' k" := (mbind e (fun x => k))
  (at level 200, x pattern at level 0, e at level 100, k at level 200, right associativity).
Definition update (f : Engine -> Engine) : M unit := fun c => (f c, GOk tt).
Definition config : M CliqueConfig := fun c => (c, GOk (e_config c)).

(** [consensus.ChainReader] and the clock *)
Record Chain := mkChain {
  CurrentHeader : option Header;
  GetHeader : Hash -> Z -> option Header;
  GetHeaderByNumber : Z -> option Header;
  GetHeaderByHash : Hash -> option Header;
  Now : Z;
}.

Variable arc_add : Hash -> Snapshot -> gmap Hash Snapshot -> gmap Hash Snapshot.

Definition uncleHash : Hash := CalcUncleHash [].

(** The checks of [verifyHeader] that look at the header alone. *)
Definition verify_fields (conf : CliqueConfig) (chain : Chain) (header : Header) : result unit :=
  let number := Uint64 (Number header) in
  check negb (Time header >? Now chain) or ErrFutureBlock;
  if Epoch conf =? 0 then GPanic   (* integer divide by zero *)
  else
    let checkpoint := number mod Epoch conf =? 0 in
    check negb (checkpoint && negb (Coinbase header =? 0)) or errInvalidCheckpointBeneficiary;
    check bool_decide (Nonce header = nonceAuthVote) || bool_decide (Nonce header = nonceDropVote) or errInvalidVote;
    check negb (checkpoint && negb (bool_decide (Nonce header = nonceDropVote))) or errInvalidCheckpointVote;
    check negb (zlen (Extra header) <? extraVanity) or errMissingVanity;
    check negb (zlen (Extra header) <? extraVanity + extraSeal) or errMissingSignature;
    let signersBytes := zlen (Extra header) - extraVanity - extraSeal in
    check negb (negb checkpoint && negb (signersBytes =? 0)) or errExtraSigners;
    check negb (checkpoint && negb (signersBytes mod AddressLength =? 0)) or errInvalidCheckpointSigners;
    check MixDigest header =? 0 or errInvalidMixDigest;
    check UncleHash header =? uncleHash or errInvalidUncleHash;
    check negb ((number >? 0) && (negb (Difficulty header =? diffInTurn) && negb (Difficulty header =? diffNoTurn)))
      or errInvalidDifficulty;
    GOk tt.

(** The signers in the extra data of the genesis header. *)
Fixpoint read_signers (n : nat) (extra : list byte) : list Address :=
  match n with
  | O => []
  | S n' => BytesToAddress (take 20 extra) :: read_signers n' (drop 20 extra)
  end.
Definition genesis_snapshot (genesis : Header) : Snapshot :=
  newSnapshot 0 (header_Hash genesis)
    (read_signers (Z.to_nat ((zlen (Extra genesis) - extraVanity - extraSeal) / AddressLength))
       (drop (Z.to_nat extraVanity) (Extra genesis))).

(** The snapshot of block zero, stored to disk.  The header that the chain has for number zero has that
    number ([co_genesis] of the file [CliqueEngine]), and [VerifyHeader] of such a header only checks its
    fields: [verifyCascadingFields] returns at once.  The number of a header is never nil. *)
Definition make_genesis (chain : Chain) : M Snapshot :=
  match GetHeaderByNumber chain 0 with
  | None => lift GPanic   (* nil pointer dereference *)
  | Some genesis =>
      let^ conf := config in
      let^ _ := lift (verify_fields conf chain genesis) in
      let snap := genesis_snapshot genesis in
      let^ _ := update (fun c => set_db (<[s_Hash snap := snap]> (e_db c)) c) in
      lift (GOk snap)
  end.

(** A snapshot in memory, or on disk for checkpoints. *)
Definition known_snapshot (c : Engine) (number : Z) (hash : Hash) : option Snapshot :=
  match e_recents c !! hash with
  | Some s => Some s
  | None => if number mod checkpointInterval =? 0 then e_db c !! hash else None
  end.

(** The header of a block: the last of the explicit parents, which it has to match, or one of
    the chain; and the parents left. *)
Definition gather (chain : Chain) (number : Z) (hash : Hash) (parents : list Header) : result (Header * list Header) :=
  match last parents with
  | Some header =>
      check negb (negb (header_Hash header =? hash) || negb (Uint64 (Number header) =? number)) or ErrUnknownAncestor;
      GOk (header, take (length parents - 1) parents)
  | None =>
      match GetHeader chain hash number with
      | None => GErr ErrUnknownAncestor
      | Some header => GOk (header, [])
      end
  end.

(** The search of [snapshot]: headers are gathered, newest first, until a snapshot is found.
    It moves back one block per round and stops at block zero: [number + 1] rounds are enough. *)
Fixpoint find_snapshot (fuel : nat) (chain : Chain) (number : Z) (hash : Hash) (parents headers : list Header)
    : M (Snapshot * list Header) :=
  match fuel with
  | O => lift GPanic
  | S fuel' => fun c =>
      match known_snapshot c number hash with
      | Some s => (c, GOk (s, headers))
      | None =>
          (if number =? 0 then let^ snap := make_genesis chain in lift (GOk (snap, headers))
           else
             let^ (header, parents) := lift (gather chain number hash parents) in
             find_snapshot fuel' chain (number - 1) (ParentHash header) parents (headers ++ [header])) c
      end
  end.

Definition snapshot (chain : Chain) (number : Z) (hash : Hash) (parents : list Header) : M Snapshot :=
  let^ (snap, headers) := find_snapshot (S (Z.to_nat number)) chain number hash parents [] in
  let^ conf := config in
  let^ snap := lift (apply conf snap (rev headers)) in
  let^ _ := update (fun c => set_recent_snapshots (arc_add (s_Hash snap) snap (e_recents c)) c) in
  let^ _ := update (fun c => if (s_Number snap mod checkpointInterval =? 0) && (zlen headers >? 0)
                             then set_db (<[s_Hash snap := snap]> (e_db c)) c else c) in
  lift (GOk snap).

(** [seen > number-limit] compares [uint64]s. *)
Definition shifted_out (s : Snapshot) (number : Z) (signer : Address) : bool :=
  forallb (fun p => negb ((p.2 =? signer) && (p.1 >? u64 (number - limit_of s)))) (map_to_list (Recents s)).

(** The checks of [verifySeal] with the snapshot of the parent. *)
Definition seal_ok (snap : Snapshot) (header : Header) : result unit :=
  let number := Uint64 (Number header) in
  let+ signer := ecrecover header in
  check bool_decide (signer ∈ Signers snap) or errUnauthorized;
  check shifted_out snap number signer or errUnauthorized;
  let+ turn := inturn snap number signer in
  check negb (turn && negb (Difficulty header =? diffInTurn)) or errInvalidDifficulty;
  check negb (negb turn && negb (Difficulty header =? diffNoTurn)) or errInvalidDifficulty;
  GOk tt.

Definition verifySeal (chain : Chain) (header : Header) (parents : list Header) : M unit :=
  let number := Uint64 (Number header) in
  let^ _ := lift (guard (negb (number =? 0)) errUnknownBlock) in
  let^ snap := snapshot chain (u64 (number - 1)) (ParentHash header) parents in
  lift (seal_ok snap header).

(** The signers of a checkpoint block, in the form its extra data holds them. *)
Definition signers_bytes (s : Snapshot) : list byte := concat (map (be_bytes 20) (signers s)).
(** [header.Extra[extraVanity:extraSuffix]]; [verifyHeader] has checked the length. *)
Definition extra_signers (header : Header) : list byte :=
  take (Z.to_nat (zlen (Extra header) - extraSeal - extraVanity)) (drop (Z.to_nat extraVanity) (Extra header)).

Definition verifyCascadingFields (chain : Chain) (header : Header) (parents : list Header) : M unit :=
  let number := Uint64 (Number header) in
  if number =? 0 then lift (GOk tt)
  else
    let parent := match last parents with
                  | Some p => Some p
                  | None => GetHeader chain (ParentHash header) (u64 (number - 1))
                  end in
    match parent with
    | None => lift (GErr ErrUnknownAncestor)
    | Some parent =>
        let^ _ := lift (guard (negb (negb (Uint64 (Number parent) =? u64 (number - 1)) ||
                                     negb (header_Hash parent =? ParentHash header))) ErrUnknownAncestor) in
        let^ conf := config in
        let^ _ := lift (guard (negb (u64 (Uint64 (Time parent) + Period conf) >? Uint64 (Time header))) ErrInvalidTimestamp) in
        let^ snap := snapshot chain (u64 (number - 1)) (ParentHash header) parents in
        let^ _ := lift (guard (negb ((number mod Epoch conf =? 0) &&
                                     negb (bool_decide (extra_signers header = signers_bytes snap))))
                         errInvalidCheckpointSigners) in
        verifySeal chain header parents
    end.

Definition verifyHeader (chain : Chain) (header : Header) (parents : list Header) : M unit :=
  let^ conf := config in
  let^ _ := lift (verify_fields conf chain header) in
  verifyCascadingFields chain header parents.
Definition VerifyHeader (chain : Chain) (header : Header) : M unit := verifyHeader chain header [].

(** The headers in front of each are its explicit parents. *)
Fixpoint verify_batch (chain : Chain) (before after : list Header) (c : Engine) : Engine * list (result unit) :=
  match after with
  | [] => (c, [])
  | h :: after' =>
      let '(c, r) := verifyHeader chain h before c in
      let '(c, rs) := verify_batch chain (before ++ [h]) after' c in
      (c, r :: rs)
  end.
Definition VerifyHeaders (chain : Chain) (headers : list Header) : Engine -> Engine * list (result unit) :=
  verify_batch chain [] headers.

(** *** Making blocks *)

(** The proposals that make sense, in the order in which they are iterated. *)
Definition meaningful (c : Engine) (snap : Snapshot) : list Address :=
  (filter (fun p => validVote snap p.1 p.2 = true) (map_to_list (e_proposals c))).*1.

Definition prepare_extra (conf : CliqueConfig) (snap : Snapshot) (number : Z) (extra : list byte) : list byte :=
  let extra := if zlen extra <? extraVanity then extra ++ zeros (Z.to_nat (extraVanity - zlen extra)) else extra in
  take (Z.to_nat extraVanity) extra ++
  (if number mod Epoch conf =? 0 then signers_bytes snap else []) ++ zeros (Z.to_nat extraSeal).

(** The vote of a block: a random meaningful proposal, except on checkpoints.  [Intn] is
    [rand.Intn]. *)
Definition choose_vote (Intn : nat -> nat) (c : Engine) (snap : Snapshot) (number : Z)
    : result (Address * BlockNonce) :=
  if Epoch (e_config c) =? 0 then GPanic
  else if negb (number mod Epoch (e_config c) =? 0) then
    let addresses := meaningful c snap in
    if (length addresses =? 0)%nat then GOk (0, replicate 8 Byte.x00)
    else match addresses !! Intn (length addresses) with
         | None => GPanic   (* index out of range *)
         | Some a => GOk (a, if default false (e_proposals c !! a) then nonceAuthVote else nonceDropVote)
         end
  else GOk (0, replicate 8 Byte.x00).

(** The header [Prepare] leaves behind when it succeeds. *)
Definition Prepare (Intn : nat -> nat) (chain : Chain) (header : Header) : M Header :=
  let number := Uint64 (Number header) in
  let^ snap := snapshot chain (u64 (number - 1)) (ParentHash header) [] in
  fun c =>
    (c,
     let+ (coinbase, nonce) := choose_vote Intn c snap number in
     let+ turn := inturn snap number (e_signer c) in
     match GetHeader chain (ParentHash header) (u64 (number - 1)) with
     | None => GErr ErrUnknownAncestor
     | Some parent =>
         let time := Time parent + Period (e_config c) in
         GOk (mkHeader (ParentHash header) (UncleHash header) coinbase (Root header) (TxHash header)
                (ReceiptHash header) (Bloom header) (if (turn : bool) then diffInTurn else diffNoTurn)
                (Number header) (GasLimit header) (GasUsed header)
                (if Int64 time <? Now chain then Now chain else time)
                (prepare_extra (e_config c) snap number (Extra header)) 0 nonce)
     end).

(** The header of the block that [Finalize] returns: no rewards and no uncles.  The roots of
    the state, of the transactions and of the receipts and the bloom filter are given. *)
Definition Finalize (root txHash receiptHash : Hash) (bloom : list byte) (header : Header) : Header :=
  mkHeader (ParentHash header) uncleHash (Coinbase header) root txHash receiptHash bloom
    (Difficulty header) (Number header) (GasLimit header) (GasUsed header) (Time header)
    (Extra header) (MixDigest header) (Nonce header).

(** Whether the local signer has to wait for others. *)
Definition must_wait (s : Snapshot) (number : Z) (signer : Address) : bool :=
  existsb (fun p => (p.2 =? signer) && ((number <? limit_of s) || (p.1 >? u64 (number - limit_of s))))
    (map_to_list (Recents s)).

(** [copy(header.Extra[len(header.Extra)-extraSeal:], sighash)] *)
Definition with_seal (sighash : list byte) (header : Header) : Header :=
  let n := Z.to_nat (zlen (Extra header) - extraSeal) in
  mkHeader (ParentHash header) (UncleHash header) (Coinbase header) (Root header) (TxHash header)
    (ReceiptHash header) (Bloom header) (Difficulty header) (Number header) (GasLimit header)
    (GasUsed header) (Time header)
    (take n (Extra header) ++ take (Z.to_nat extraSeal) sighash ++ drop (length sighash) (drop n (Extra header)))
    (MixDigest header) (Nonce header).

(** [Seal] returns no block when it is stopped while it waits. *)
Definition Seal (stopped : bool) (chain : Chain) (header : Header) : M (option Header) :=
  let number := Uint64 (Number header) in
  let^ _ := lift (guard (negb (number =? 0)) errUnknownBlock) in
  let^ snap := snapshot chain (u64 (number - 1)) (ParentHash header) [] in
  fun c =>
    (c,
     check bool_decide (e_signer c ∈ Signers snap) or errUnauthorized;
     if must_wait snap number (e_signer c) then GOk None
     else if stopped then GOk None
     else
       let+ h := sigHash header in
       match e_signFn c (e_signer c) (be_bytes 32 h) with
       | None => GErr errSign
       | Some sighash => GOk (Some (with_seal sighash header))
       end).

(** ** User-facing methods ([api.go]) *)

Definition LatestBlockNumber : Z := -1.
Definition header_at (chain : Chain) (number : option Z) : option Header :=
  match number with
  | Some n => if n =? LatestBlockNumber then CurrentHeader chain else GetHeaderByNumber chain (u64 n)
  | None => CurrentHeader chain
  end.
Definition snapshot_at (chain : Chain) (header : option Header) : M Snapshot :=
  match header with
  | None => lift (GErr errUnknownBlock)
  | Some h => snapshot chain (Uint64 (Number h)) (header_Hash h) []
  end.
Definition GetSnapshot (chain : Chain) (number : option Z) : M Snapshot := snapshot_at chain (header_at chain number).
Definition GetSnapshotAtHash (chain : Chain) (hash : Hash) : M Snapshot := snapshot_at chain (GetHeaderByHash chain hash).
Definition GetSigners (chain : Chain) (number : option Z) : M (list Address) :=
  let^ snap := snapshot_at chain (header_at chain number) in lift (GOk (signers snap)).
Definition GetSignersAtHash (chain : Chain) (hash : Hash) : M (list Address) :=
  let^ snap := snapshot_at chain (GetHeaderByHash chain hash) in lift (GOk (signers snap)).

Definition set_proposals (p : gmap Address bool) (c : Engine) : Engine :=
  mkEngine (e_config c) (e_recents c) (e_db c) p (e_signer c) (e_signFn c).
Definition Propose (address : Address) (auth : bool) (c : Engine) : Engine :=
  set_proposals (<[address := auth]> (e_proposals c)) c.
Definition Discard (address : Address) (c : Engine) : Engine := set_proposals (delete address (e_proposals c)) c.

End engine.
End Clique.
