(* ===== verification/CliqueFacts.v ===== *)
(** * The voting snapshots of [Clique]

    What a snapshot stands for - a set of signers and a set of open ballots ([poll]) - the
    invariant [wf] that ties the list of votes, the tally and the recent signers to it, and that
    applying a header keeps the invariant and acts as one abstract step [vote_step]. *)

From S2P Require Import Prelude GoMath World Rlp Types Clique.

Module CliqueFacts.
Import Types Clique.

(** ** The abstract vote *)

(** The signers, and who has an open ballot about whom; what a ballot proposes is determined by
    whether the account is a signer. *)
Record poll := mkPoll { p_signers : gset Address; p_ballots : gset (Address * Address) }.

Definition ballots_on (target : Address) (B : gset (Address * Address)) : gset (Address * Address) :=
  filter (fun b => b.2 = target) B.

(** The membership of [target] is flipped: this closes the ballots on it, and those it cast if
    it is no longer a signer. *)
Definition flip (target : Address) (p : poll) : poll :=
  if decide (target ∈ p_signers p) then
    mkPoll (p_signers p ∖ {[target]}) (filter (fun b => b.1 <> target /\ b.2 <> target) (p_ballots p))
  else mkPoll ({[target]} ∪ p_signers p) (filter (fun b => b.2 <> target) (p_ballots p)).

(** The decision of a block: a strict majority of the signers. *)
Definition decides (target : Address) (p : poll) : bool :=
  bool_decide (size (p_signers p) < 2 * size (ballots_on target (p_ballots p)))%nat.

(** A block of [signer] that votes on [target]: its previous ballot on the target is withdrawn,
    the new one counts if it would change something, and a strict majority of the signers
    decides.  Checkpoints discard all open ballots first. *)
Definition vote_step (checkpoint : bool) (signer target : Address) (authorize : bool) (p : poll) : poll :=
  let B := if checkpoint then ∅ else p_ballots p in
  let member := bool_decide (target ∈ p_signers p) in
  let p := mkPoll (p_signers p)
             ((B ∖ {[(signer, target)]}) ∪ (if xorb member authorize then {[(signer, target)]} else ∅)) in
  if decides target p then flip target p else p.

Definition ballot (v : Vote) : Address * Address := (v_Signer v, v_Address v).
Definition poll_of (s : Snapshot) : poll := mkPoll (Signers s) (list_to_set (ballot <$> Votes s)).

(** ** Counting votes *)

Definition votes_on (a : Address) (vs : list Vote) : Z := zlen (filter (fun v => v_Address v = a) vs).
(** [T] is the tally of [vs] when the votes on [a] propose [auth a]. *)
Definition tallies (auth : Address -> bool) (T : gmap Address Tally) (vs : list Vote) : Prop :=
  forall a, T !! a = if votes_on a vs =? 0 then None else Some (mkTally (auth a) (votes_on a vs)).
Definition agree (auth : Address -> bool) (vs : list Vote) : Prop :=
  Forall (fun v => v_Authorize v = auth (v_Address v)) vs.

Lemma votes_on_cons a v vs : votes_on a (v :: vs) = (if v_Address v =? a then 1 else 0) + votes_on a vs.
Proof.
  unfold votes_on, zlen. destruct (Z.eqb_spec (v_Address v) a).
  - rewrite filter_cons_True by done. cbn [length]. lia.
  - rewrite filter_cons_False by done. lia.
Qed.
Lemma votes_on_app a vs vs' : votes_on a (vs ++ vs') = votes_on a vs + votes_on a vs'.
Proof. unfold votes_on, zlen. rewrite filter_app, length_app. lia. Qed.
Lemma votes_on_nonneg a vs : 0 <= votes_on a vs.
Proof. unfold votes_on, zlen. lia. Qed.
#[local] Instance votes_on_perm a : Proper ((≡ₚ) ==> eq) (votes_on a).
Proof. intros l l' HP. unfold votes_on, zlen. by rewrite HP. Qed.
#[local] Instance tallies_perm auth T : Proper ((≡ₚ) ==> iff) (tallies auth T).
Proof. intros l l' HP. split; intros HT a; rewrite (HT a); [|symmetry]; by rewrite (votes_on_perm a _ _ HP). Qed.

Lemma tallies_nil auth : tallies auth ∅ [].
Proof. intros a. by rewrite lookup_empty. Qed.

Lemma uncast_tallies auth T v vs :
  tallies auth T (v :: vs) -> v_Authorize v = auth (v_Address v) ->
  tallies auth (uncast T (v_Address v) (v_Authorize v)).1 vs.
Proof.
  intros HT Hv a. pose proof (votes_on_nonneg (v_Address v) vs). unfold uncast.
  rewrite (HT (v_Address v)), votes_on_cons, Z.eqb_refl.
  rewrite (proj2 (Z.eqb_neq _ _)) by lia. cbn [t_Authorize t_Votes]. rewrite Hv, eqb_reflx. cbn [negb].
  specialize (HT a). rewrite votes_on_cons in HT.
  destruct (Z.gtb_spec (1 + votes_on (v_Address v) vs) 1); cbn [fst]; destruct (Z.eqb_spec (v_Address v) a) as [E|Hne]; try subst a.
  - rewrite lookup_insert_eq, (proj2 (Z.eqb_neq _ _)) by lia. do 2 f_equal. lia.
  - by rewrite lookup_insert_ne, HT.
  - rewrite lookup_delete_eq, (proj2 (Z.eqb_eq _ _)) by lia. done.
  - by rewrite lookup_delete_ne, HT.
Qed.

Lemma cast_tallies auth T v vs :
  tallies auth T vs -> v_Authorize v = auth (v_Address v) ->
  tallies auth (<[v_Address v := match T !! v_Address v with
                                 | Some old => mkTally (t_Authorize old) (t_Votes old + 1)
                                 | None => mkTally (v_Authorize v) 1 end]> T) (vs ++ [v]).
Proof.
  intros HT Hv a. pose proof (votes_on_nonneg (v_Address v) vs).
  rewrite votes_on_app, votes_on_cons. change (votes_on a []) with 0. rewrite Z.add_0_r.
  destruct (Z.eqb_spec (v_Address v) a) as [E|Hne]; [subst a|].
  - rewrite lookup_insert_eq, (HT (v_Address v)), (proj2 (Z.eqb_neq (_ + 1) _)) by lia.
    destruct (Z.eqb_spec (votes_on (v_Address v) vs) 0) as [E0|]; cbn; [rewrite Hv|]; do 2 f_equal; lia.
  - by rewrite lookup_insert_ne, HT, Z.add_0_r.
Qed.

Lemma take_vote_Some signer address vs w rest :
  take_vote signer address vs = Some (w, rest) ->
  ballot w = (signer, address) /\ exists l1 l2, vs = l1 ++ w :: l2 /\ rest = l1 ++ l2.
Proof.
  revert rest. induction vs as [|v vs IH]; intros rest; cbn; [done|].
  destruct (Z.eqb_spec (v_Signer v) signer) as [<-|]; [destruct (Z.eqb_spec (v_Address v) address) as [<-|]|]; cbn.
  { intros [= <- <-]. split; [done|]. by exists [], vs. }
  all: destruct (take_vote _ _ vs) as [[w' r]|]; [|done]; intros [= <- <-];
    destruct (IH r eq_refl) as (Hw & l1 & l2 & -> & ->); split; [done|by exists (v :: l1), l2].
Qed.
Lemma take_vote_None signer address vs : take_vote signer address vs = None -> (signer, address) ∉ ballot <$> vs.
Proof.
  induction vs as [|v vs IH]; cbn; [intros _ []%elem_of_nil|].
  destruct (Z.eqb_spec (v_Signer v) signer); [destruct (Z.eqb_spec (v_Address v) address)|]; cbn; try done.
  all: destruct (take_vote _ _ vs) as [[]|]; [done|]; intros _ [E|E]%elem_of_cons; [injection E as E1 E2; congruence|by apply IH].
Qed.

Lemma discard_votes_by_ok auth signer kept vs T :
  tallies auth T (kept ++ vs) -> agree auth vs ->
  exists T', discard_votes_by signer vs T = (filter (fun v => v_Signer v <> signer) vs, T') /\
             tallies auth T' (kept ++ filter (fun v => v_Signer v <> signer) vs).
Proof.
  revert kept T. induction vs as [|v vs IH]; intros kept T HT Ha; cbn [discard_votes_by]; [by exists T|].
  apply Forall_cons in Ha as [Hv Ha]. destruct (Z.eqb_spec (v_Signer v) signer) as [E|E].
  - rewrite filter_cons_False by tauto. apply IH; [|done]. apply uncast_tallies; [|done].
    by rewrite Permutation_middle.
  - rewrite filter_cons_True by done.
    destruct (IH (kept ++ [v]) T) as (T' & -> & HT'); [by rewrite <- app_assoc|done|].
    exists T'. split; [done|]. by rewrite <- app_assoc in HT'.
Qed.

(** ** Well-formed votes *)

(** What a vote on [a] proposes. *)
Definition polarity (S : gset Address) (a : Address) : bool := negb (bool_decide (a ∈ S)).

Record wf_votes (s : Snapshot) : Prop := {
  wf_nodup : NoDup (ballot <$> Votes s);
  wf_voters : Forall (fun v => v_Signer v ∈ Signers s) (Votes s);
  wf_agree : agree (polarity (Signers s)) (Votes s);
  wf_tally : tallies (polarity (Signers s)) (s_Tally s) (Votes s);
}.

Lemma poll_ext S B B' : B ≡ B' -> mkPoll S B = mkPoll S B'.
Proof. intros HB. f_equal. by apply leibniz_equiv. Qed.

Lemma list_to_set_remove (x : Address * Address) l1 l2 :
  NoDup (l1 ++ x :: l2) -> (list_to_set (l1 ++ l2) : gset _) = list_to_set (l1 ++ x :: l2) ∖ {[x]}.
Proof.
  rewrite <- Permutation_middle. intros [Hx _]%NoDup_cons. apply leibniz_equiv. intros y.
  rewrite elem_of_difference, elem_of_singleton, !elem_of_list_to_set, !elem_of_app, elem_of_cons, ?elem_of_app.
  rewrite elem_of_app in Hx. split; [|tauto]. intros Hy. split; [tauto|]. by intros ->.
Qed.

Lemma drop_previous_ok s signer target :
  wf_votes s ->
  let s' := drop_previous s signer target in
  wf_votes s' /\ Signers s' = Signers s /\ Recents s' = Recents s /\
  p_ballots (poll_of s') = p_ballots (poll_of s) ∖ {[(signer, target)]}.
Proof.
  intros [Hn Hs Ha Ht]. cbn zeta. unfold drop_previous.
  destruct (take_vote signer target (Votes s)) as [[w rest]|] eqn:E.
  - apply take_vote_Some in E as (Hw & l1 & l2 & El & ->). rewrite El in *.
    rewrite fmap_app, fmap_cons in Hn. pose proof (list_to_set_remove _ _ _ Hn) as Hr. apply NoDup_app in Hn as (Hn1 & Hd & [Hw2 Hn2]%NoDup_cons).
    rewrite Forall_app, Forall_cons in Hs. unfold agree in Ha. rewrite Forall_app, Forall_cons in Ha.
    rewrite <- Permutation_middle in Ht. split_and!; try done.
    + constructor; cbn.
      * rewrite fmap_app. apply NoDup_app. split_and!; try done. intros x H1 H2. apply (Hd x H1). by right.
      * apply Forall_app. tauto.
      * apply Forall_app. tauto.
      * apply uncast_tallies; tauto.
    + cbn. rewrite El, <- Hw, !fmap_app, fmap_cons. exact Hr.
  - apply take_vote_None in E. split_and!; try done. cbn. apply leibniz_equiv.
    rewrite <- (elem_of_list_to_set (C := gset (Address * Address))) in E. clear -E. set_solver.
Qed.

Lemma record_vote_ok s signer number target authorize :
  wf_votes s -> signer ∈ Signers s -> (signer, target) ∉ p_ballots (poll_of s) ->
  let s' := record_vote s signer number target authorize in
  wf_votes s' /\ Signers s' = Signers s /\ Recents s' = Recents s /\
  p_ballots (poll_of s') =
    p_ballots (poll_of s) ∪ (if xorb (bool_decide (target ∈ Signers s)) authorize then {[(signer, target)]} else ∅).
Proof.
  intros [Hn Hs Ha Ht] Hin Hnew. cbn zeta. unfold record_vote, cast, validVote.
  assert (authorize = polarity (Signers s) target \/ authorize = negb (polarity (Signers s) target)) as Hau
    by (destruct authorize, (polarity (Signers s) target); auto).
  assert ((bool_decide (target ∈ Signers s) && negb authorize || negb (bool_decide (target ∈ Signers s)) && authorize)
          = xorb (bool_decide (target ∈ Signers s)) authorize) as -> by (by destruct (bool_decide _), authorize).
  unfold polarity in Hau. destruct (xorb _ _) eqn:Ex; cbn [negb].
  - assert (authorize = polarity (Signers s) target) as Hp by (unfold polarity; by destruct (bool_decide _), authorize).
    cbn in Hnew. rewrite elem_of_list_to_set in Hnew. split_and!; try done.
    + set (v := mkVote signer number target authorize). constructor; cbn.
      * rewrite fmap_app. apply NoDup_app. split_and!; [done| |apply NoDup_singleton].
        intros x H1 ->%list_elem_of_singleton. done.
      * apply Forall_app. split; [done|]. by apply Forall_singleton.
      * apply Forall_app. split; [done|]. by apply Forall_singleton.
      * by apply (cast_tallies _ _ v).
    + cbn. rewrite fmap_app, list_to_set_app_L. f_equal. cbn. set_solver.
  - split_and!; try done. set_solver.
Qed.

(** ** Enacting a decision *)

Lemma NoDup_ballots_filter (P : Vote -> Prop) `{forall v, Decision (P v)} vs :
  NoDup (ballot <$> vs) -> NoDup (ballot <$> filter P vs).
Proof.
  induction vs as [|v vs IH]; [done|]. rewrite fmap_cons. intros [Hv Hn]%NoDup_cons.
  destruct (decide (P v)); [rewrite filter_cons_True, fmap_cons by done|by rewrite filter_cons_False; auto].
  apply NoDup_cons. split; [|auto]. rewrite list_elem_of_fmap in *. intros (w & E & [_ Hw]%list_elem_of_filter).
  apply Hv. eauto.
Qed.
Lemma Forall_filter {A} (P Q : A -> Prop) `{forall x, Decision (Q x)} l : Forall P l -> Forall P (filter Q l).
Proof. rewrite !Forall_forall. intros HP x [_ Hx]%list_elem_of_filter. auto. Qed.
Lemma ballots_filter (P : Vote -> Prop) (Q : Address * Address -> Prop)
    `{forall v, Decision (P v)} `{forall b, Decision (Q b)} vs :
  (forall v, P v <-> Q (ballot v)) ->
  (list_to_set (ballot <$> filter P vs) : gset _) = filter Q (list_to_set (ballot <$> vs)).
Proof.
  intros HPQ. apply leibniz_equiv. intros b. rewrite elem_of_filter, !elem_of_list_to_set, !list_elem_of_fmap.
  setoid_rewrite list_elem_of_filter. setoid_rewrite HPQ. naive_solver.
Qed.

Lemma votes_on_filter_ne a addr vs :
  votes_on a (filter (fun v => v_Address v <> addr) vs) = if a =? addr then 0 else votes_on a vs.
Proof.
  induction vs as [|v vs IH]; [by destruct (a =? addr)|]. rewrite votes_on_cons.
  destruct (decide (v_Address v = addr)) as [E|E].
  - rewrite filter_cons_False by tauto. rewrite IH. destruct (Z.eqb_spec a addr), (Z.eqb_spec (v_Address v) a); try done; congruence.
  - rewrite filter_cons_True by done. rewrite votes_on_cons, IH.
    destruct (Z.eqb_spec a addr), (Z.eqb_spec (v_Address v) a); try done; congruence.
Qed.

Lemma close_tallies auth auth' T vs addr :
  tallies auth T vs -> (forall a, a <> addr -> auth' a = auth a) ->
  tallies auth' (delete addr T) (filter (fun v => v_Address v <> addr) vs).
Proof.
  intros HT Ha a. rewrite votes_on_filter_ne. destruct (Z.eqb_spec a addr) as [->|Hne].
  - by rewrite lookup_delete_eq.
  - by rewrite lookup_delete_ne, (HT a), Ha.
Qed.
Lemma close_agree auth auth' vs addr :
  agree auth vs -> (forall a, a <> addr -> auth' a = auth a) -> agree auth' (filter (fun v => v_Address v <> addr) vs).
Proof.
  unfold agree. rewrite !Forall_forall. intros Hv Ha v [Hne Hin]%list_elem_of_filter. by rewrite (Hv v Hin), Ha.
Qed.

Lemma polarity_ne S S' addr a : S ∖ {[addr]} = S' ∖ {[addr]} -> a <> addr -> polarity S' a = polarity S a.
Proof. intros ES Hne. unfold polarity. f_equal. apply bool_decide_ext. set_solver. Qed.

Lemma enact_remove s addr number :
  wf_votes s -> addr ∈ Signers s ->
  let s' := enact s addr number false in
  wf_votes s' /\ poll_of s' = flip addr (poll_of s) /\
  Recents s' = Recents (shift_recents (set_signers (Signers s ∖ {[addr]}) s) number).
Proof.
  intros [Hn Hs Ha Ht] Hin. cbn zeta. unfold flip, enact. rewrite decide_True by done. cbn [p_signers p_ballots poll_of].
  set (s1 := shift_recents _ _).
  assert (Votes s1 = Votes s /\ s_Tally s1 = s_Tally s /\ Signers s1 = Signers s ∖ {[addr]}) as (-> & -> & ES)
    by (unfold s1, shift_recents; by destruct (_ >=? _)).
  destruct (discard_votes_by_ok (polarity (Signers s)) addr [] (Votes s) (s_Tally s)) as (T' & -> & HT'); [done..|].
  cbn [app] in HT'. set (vs := filter (fun v => v_Signer v <> addr) (Votes s)) in *.
  assert (forall a, a <> addr -> polarity (Signers s ∖ {[addr]}) a = polarity (Signers s) a) as Hp
    by (intros a; apply polarity_ne; set_solver).
  split_and!; [constructor; cbn; rewrite ?ES|unfold poll_of; cbn; rewrite ES; f_equal|done].
  - by do 2 apply NoDup_ballots_filter.
  - apply Forall_forall. intros v [_ [Hv Hvin]%list_elem_of_filter]%list_elem_of_filter.
    rewrite Forall_forall in Hs. specialize (Hs v Hvin). set_solver.
  - eapply close_agree; [|done]. by apply Forall_filter.
  - by eapply close_tallies.
  - unfold vs. rewrite list_filter_filter. apply ballots_filter. intros v. cbn. tauto.
Qed.
Lemma enact_add s addr number :
  wf_votes s -> addr ∉ Signers s ->
  let s' := enact s addr number true in
  wf_votes s' /\ poll_of s' = flip addr (poll_of s) /\ Recents s' = Recents s.
Proof.
  intros [Hn Hs Ha Ht] Hin. cbn zeta. unfold flip, enact. rewrite decide_False by done.
  assert (forall a, a <> addr -> polarity ({[addr]} ∪ Signers s) a = polarity (Signers s) a) as Hp
    by (intros a; apply polarity_ne; set_solver).
  split_and!; [constructor; cbn|unfold poll_of; cbn; f_equal; by apply ballots_filter|done].
  - by apply NoDup_ballots_filter.
  - apply Forall_filter. eapply Forall_impl; [exact Hs|]. intros v Hv. apply elem_of_union. by right.
  - by eapply close_agree.
  - by eapply close_tallies.
Qed.

Lemma size_ballots_on s target :
  wf_votes s -> Z.of_nat (size (ballots_on target (p_ballots (poll_of s)))) = votes_on target (Votes s).
Proof.
  intros [Hn _ _ _]. unfold ballots_on, poll_of, votes_on, zlen. cbn.
  rewrite <- (ballots_filter (fun v => v_Address v = target) (fun b => b.2 = target)) by done.
  rewrite size_list_to_set by by apply NoDup_ballots_filter. by rewrite length_fmap.
Qed.

Lemma enact_if_passed_ok s addr number :
  wf_votes s ->
  let s' := enact_if_passed s addr number in
  wf_votes s' /\ poll_of s' = (if decides addr (poll_of s) then flip addr (poll_of s) else poll_of s) /\
  (Recents s' = Recents s /\ size (Signers s) <= size (Signers s') \/
   Recents s' = Recents (shift_recents (set_signers (Signers s') s) number) /\ size (Signers s) = S (size (Signers s')))%nat.
Proof.
  intros W. cbn zeta. unfold enact_if_passed. pose proof (size_ballots_on s addr W) as Hsz.
  rewrite (wf_tally s W addr), <- Hsz. unfold decides. set (k := size (ballots_on _ _)) in *. cbn [poll_of p_signers].
  assert (t_Votes (default (mkTally false 0) (if Z.of_nat k =? 0 then None else Some (mkTally (polarity (Signers s) addr) (Z.of_nat k)))) = Z.of_nat k) as ->
    by (destruct (Z.eqb_spec (Z.of_nat k) 0); cbn; lia).
  assert (Z.of_nat k >? nsigners s / 2 = bool_decide (size (Signers s) < 2 * k)%nat) as ->.
  { unfold nsigners. apply eq_true_iff_eq. rewrite bool_decide_eq_true, Z.gtb_lt.
    pose proof (Z.div_mod (Z.of_nat (size (Signers s))) 2). pose proof (Z.mod_pos_bound (Z.of_nat (size (Signers s))) 2). lia. }
  case_bool_decide as Hk; [|split_and!; [done..|left; split; [done|lia]]].
  rewrite (proj2 (Z.eqb_neq _ _)) by lia. cbn [default from_option id t_Authorize]. unfold polarity. case_bool_decide as Hin; cbn [negb].
  - destruct (enact_remove s addr number W Hin) as (W' & HP & HR). split_and!; [done..|]. right.
    assert (Signers (enact s addr number false) = Signers s ∖ {[addr]}) as ES.
    { change (p_signers (poll_of (enact s addr number false)) = Signers s ∖ {[addr]}). rewrite HP. unfold flip.
      by rewrite decide_True. }
    rewrite ES. split; [done|]. rewrite size_difference by set_solver. rewrite size_singleton.
    assert (size (Signers s) <> 0)%nat; [|lia]. rewrite size_non_empty_iff. set_solver.
  - destruct (enact_add s addr number W Hin) as (W' & HP & HR). split_and!; [done..|]. left. split; [done|].
    change (Signers (enact s addr number true)) with ({[addr]} ∪ Signers s). apply subseteq_size. set_solver.
Qed.

(** ** The recent signers *)

(** The blocks in [R] are in a window, and no signer has two of them. *)
Record window (R : gmap Z Address) (lo hi : Z) : Prop := {
  win_range : forall k a, R !! k = Some a -> 0 < k /\ lo < k <= hi;
  win_inj : forall k k' a, R !! k = Some a -> R !! k' = Some a -> k = k';
}.
(** The invariant of the snapshot at block [n]. *)
Record wf (s : Snapshot) (n : Z) : Prop := {
  wf_v : wf_votes s;
  wf_r : window (Recents s) (n - limit_of s) n;
}.

Lemma limit_pos s : 1 <= limit_of s.
Proof. unfold limit_of, nsigners. pose proof (Z.div_pos (Z.of_nat (size (Signers s))) 2). lia. Qed.
Lemma limit_mono s s' : (size (Signers s) <= size (Signers s'))%nat -> limit_of s <= limit_of s'.
Proof. intros Hs. unfold limit_of, nsigners. apply Z.add_le_mono_r, Z.div_le_mono; lia. Qed.
Lemma limit_pred s s' : size (Signers s) = S (size (Signers s')) -> limit_of s <= limit_of s' + 1.
Proof.
  intros Hs. unfold limit_of, nsigners. rewrite Hs. apply Z.add_le_mono_r.
  replace (Z.of_nat (size (Signers s')) / 2 + 1) with ((Z.of_nat (size (Signers s')) + 1 * 2) / 2) by (by rewrite Z.div_add).
  apply Z.div_le_mono; lia.
Qed.

Lemma shift_lookup s number k a :
  Recents (shift_recents s number) !! k = Some a <->
  Recents s !! k = Some a /\ (limit_of s <= number -> k <> number - limit_of s).
Proof.
  unfold shift_recents. destruct (Z.geb_spec number (limit_of s)); cbn; [|split; [|tauto]; split; [done|lia]].
  rewrite lookup_delete_Some. naive_solver lia.
Qed.

(** One more block: the window moves up. *)
Lemma shift_window s number hi :
  window (Recents s) (number - 1 - limit_of s) hi -> window (Recents (shift_recents s number)) (number - limit_of s) hi.
Proof.
  intros [Hr Hi]. split.
  - intros k a [E Hne]%shift_lookup. destruct (Hr k a E). lia.
  - intros k k' a [E _]%shift_lookup [E' _]%shift_lookup. eauto.
Qed.
Lemma window_weaken R lo lo' hi : window R lo hi -> lo' <= lo -> window R lo' hi.
Proof. intros [Hr Hi] Hlo. split; [|done]. intros k a E. destruct (Hr k a E). lia. Qed.

Lemma is_recent_false s signer : is_recent s signer = false <-> forall k, Recents s !! k <> Some signer.
Proof.
  unfold is_recent. rewrite <- not_true_iff_false, existsb_exists. split.
  - intros Hn k E. apply Hn. exists (k, signer). split; [|apply Z.eqb_refl]. by apply list_elem_of_In, elem_of_map_to_list.
  - intros Hn ((k, a) & Hin & Ea%Z.eqb_eq). cbn in Ea. subst a. apply (Hn k). by apply elem_of_map_to_list, list_elem_of_In.
Qed.

Section apply.
Context `{CryptoPrims}.
Variable conf : CliqueConfig.
Hypothesis epoch_pos : 0 < Epoch conf.

(** Who may sign block [number] on top of [s]: a signer that did not sign any of the
    [limit_of s - 1] blocks before. *)
Definition may_sign (s : Snapshot) (number : Z) (signer : Address) : Prop :=
  signer ∈ Signers s /\ forall k, Recents s !! k = Some signer -> k + limit_of s <= number.

Definition is_checkpoint (number : Z) : bool := number mod Epoch conf =? 0.

(** What a header that was applied did. *)
Record applied (s : Snapshot) (n : Z) (header : Header) (s' : Snapshot) (signer : Address) : Prop := {
  ap_signer : ecrecover header = GOk signer;
  ap_may : may_sign s (n + 1) signer;
  ap_wf : wf s' (n + 1);
  ap_vote : exists authorize, vote_of (Nonce header) = GOk authorize /\
    poll_of s' = vote_step (is_checkpoint (n + 1)) signer (Coinbase header) authorize (poll_of s);
  ap_signed : Recents s' !! (n + 1) = Some signer;
  ap_kept : forall k a, Recents s !! k = Some a -> n + 1 < k + limit_of s -> n + 1 < k + limit_of s' ->
    Recents s' !! k = Some a;
}.

(** The steps of [apply_header] before the vote is counted. *)
Definition authorised (s : Snapshot) (number : Z) (signer : Address) : Snapshot :=
  let s := if is_checkpoint number then set_votes [] ∅ s else s in
  let s := shift_recents s number in
  set_recents (<[number := signer]> (Recents s)) s.

Lemma authorised_ok s n signer :
  wf s n -> 0 <= n -> may_sign s (n + 1) signer ->
  let s' := authorised s (n + 1) signer in
  wf_votes s' /\ Signers s' = Signers s /\ window (Recents s') (n + 1 - limit_of s) (n + 1) /\
  Recents s' !! (n + 1) = Some signer /\
  (forall k a, Recents s !! k = Some a -> n + 1 < k + limit_of s -> Recents s' !! k = Some a) /\
  p_ballots (poll_of s') = if is_checkpoint (n + 1) then ∅ else p_ballots (poll_of s).
Proof.
  intros [[Hn Hs Ha Ht] Hw] H0 [Hin Hrec]. cbn zeta. unfold authorised.
  set (s1 := if is_checkpoint (n + 1) then _ else s).
  assert (wf_votes s1 /\ Signers s1 = Signers s /\ Recents s1 = Recents s /\ limit_of s1 = limit_of s /\
          p_ballots (poll_of s1) = if is_checkpoint (n + 1) then ∅ else p_ballots (poll_of s)) as ([Hn1 Hs1 Ha1 Ht1] & ES & ER & EL & EB).
  { unfold s1. destruct (is_checkpoint _); split_and!; try done. constructor; cbn; try constructor. }
  set (s2 := shift_recents s1 (n + 1)).
  assert (Signers s2 = Signers s1 /\ Votes s2 = Votes s1 /\ s_Tally s2 = s_Tally s1) as (ES2 & EV2 & ET2)
    by (unfold s2, shift_recents; by destruct (_ >=? _)).
  assert (window (Recents s2) (n + 1 - limit_of s) n) as Hw2.
  { rewrite <- EL. apply shift_window. rewrite ER, EL. by replace (n + 1 - 1) with n by lia. }
  split_and!; cbn; try (rewrite ?ES2, ?EV2; done).
  - constructor; cbn; rewrite ?ES2, ?EV2, ?ET2; done.
  - pose proof (limit_pos s). split.
    + intros k a [[<- <-]|[? E]]%lookup_insert_Some; [lia|]. destruct (win_range _ _ _ Hw2 k a E). lia.
    + assert (forall k, Recents s2 !! k <> Some signer) as Hno.
      { intros k [E Hne]%shift_lookup. rewrite ER in E. specialize (Hrec k E). rewrite EL in Hne.
        destruct (win_range _ _ _ Hw k _ E). lia. }
      intros k k' a [[<- <-]|[? E]]%lookup_insert_Some [[<- E']|[? E']]%lookup_insert_Some; try done.
      * by destruct (Hno k').
      * subst a. by destruct (Hno k).
      * by eapply (win_inj _ _ _ Hw2).
  - by rewrite lookup_insert_eq.
  - intros k a E Hk. destruct (win_range _ _ _ Hw k a E). rewrite lookup_insert_ne by lia. apply shift_lookup.
    rewrite ER, EL. split; [done|lia].
Qed.

Lemma apply_header_eq s header number :
  Uint64 (Number header) = number ->
  apply_header conf s header =
    (let+ signer := ecrecover header in
     check bool_decide (signer ∈ Signers s) or errUnauthorized;
     check negb (is_recent (shift_recents s number) signer) or errUnauthorized;
     let+ authorize := vote_of (Nonce header) in
     GOk (enact_if_passed
            (record_vote (drop_previous (authorised s number signer) signer (Coinbase header)) signer number (Coinbase header) authorize)
            (Coinbase header) number)).
Proof.
  intros <-. unfold apply_header, authorised, is_checkpoint. rewrite (proj2 (Z.eqb_neq (Epoch conf) 0)) by lia.
  set (s1 := if _ mod _ =? 0 then _ else s). destruct (ecrecover header) as [signer| |]; [|done..]. cbn [gbind].
  assert (Signers (shift_recents s1 (Uint64 (Number header))) = Signers s /\
          is_recent (shift_recents s1 (Uint64 (Number header))) signer = is_recent (shift_recents s (Uint64 (Number header))) signer) as [-> ->]; [|done].
  unfold is_recent, s1, shift_recents, limit_of, nsigners. by destruct (_ mod _ =? 0); cbn [Signers set_votes Recents]; destruct (_ >=? _).
Qed.

(** The check of the recent signers is [may_sign]. *)
Lemma recent_may_sign s n signer :
  wf s n -> signer ∈ Signers s ->
  is_recent (shift_recents s (n + 1)) signer = false <-> may_sign s (n + 1) signer.
Proof.
  intros W Hin. rewrite is_recent_false. unfold may_sign. split.
  - intros Hno. split; [done|]. intros k E. destruct (win_range _ _ _ (wf_r _ _ W) k _ E).
    destruct (decide (k + limit_of s <= n + 1)); [done|]. destruct (Hno k). apply shift_lookup. split; [done|lia].
  - intros [_ Hk] k [E Hne]%shift_lookup. specialize (Hk k E). destruct (win_range _ _ _ (wf_r _ _ W) k _ E). lia.
Qed.

Lemma apply_header_runs s n header signer authorize :
  wf s n -> Uint64 (Number header) = n + 1 -> ecrecover header = GOk signer -> may_sign s (n + 1) signer ->
  vote_of (Nonce header) = GOk authorize -> exists s', apply_header conf s header = GOk s'.
Proof.
  intros W En Es Hm Ev. rewrite (apply_header_eq _ _ _ En), Es, Ev. cbn [gbind].
  rewrite bool_decide_true by apply Hm. apply recent_may_sign in Hm as ->; [|done|apply Hm]. cbn. eauto.
Qed.

Lemma apply_header_applied s n header s' :
  wf s n -> 0 <= n -> Uint64 (Number header) = n + 1 -> apply_header conf s header = GOk s' ->
  exists signer, applied s n header s' signer.
Proof.
  intros W H0 En. rewrite (apply_header_eq _ _ _ En). intros E. ginv E.
  rename x into signer. apply guard_ok, bool_decide_eq_true in E1 as Hin. apply guard_ok, negb_true_iff in E2 as Hrec. injection E as <-.
  apply recent_may_sign in Hrec; [|done..]. exists signer.
  destruct (authorised_ok s n signer W H0 Hrec) as (W1 & ES1 & Hw & Hnew & Hkeep & EB).
  destruct (drop_previous_ok _ signer (Coinbase header) W1) as (W2 & ES2 & ER2 & EB2).
  destruct (record_vote_ok _ signer (n + 1) (Coinbase header) x2 W2) as (W3 & ES3 & ER3 & EB3);
    [by rewrite ES2, ES1|rewrite EB2; set_solver|].
  set (s3 := record_vote _ _ _ _ _) in *. rewrite ES2, ES1 in *. rewrite ER2 in *.
  destruct (enact_if_passed_ok s3 (Coinbase header) (n + 1) W3) as (W4 & HP & HR). set (s4 := enact_if_passed _ _ _) in *.
  assert (limit_of s3 = limit_of s) as EL3 by (unfold limit_of, nsigners; by rewrite ES3).
  split; try done.
  - split; [done|]. destruct HR as [[-> Hsz]|[-> Hsz]].
    + rewrite ER3. eapply window_weaken; [done|]. apply limit_mono in Hsz. lia.
    + apply limit_pred in Hsz. change (limit_of s4) with (limit_of (set_signers (Signers s4) s3)).
      apply shift_window. cbn. rewrite ER3. change (limit_of (set_signers (Signers s4) s3)) with (limit_of s4).
      eapply window_weaken; [done|]. lia.
  - exists x2. split; [done|]. rewrite HP. unfold vote_step.
    assert (poll_of s3 = mkPoll (Signers s)
       (((if is_checkpoint (n + 1) then ∅ else p_ballots (poll_of s)) ∖ {[(signer, Coinbase header)]})
        ∪ (if xorb (bool_decide (Coinbase header ∈ Signers s)) x2 then {[(signer, Coinbase header)]} else ∅))) as ->; [|done].
    rewrite <- EB, <- EB2, <- EB3, <- ES3. done.
  - destruct HR as [[-> _]|[-> _]]; [by rewrite ER3|]. apply shift_lookup. cbn [Recents set_signers]. rewrite ER3. split; [done|].
    pose proof (limit_pos (set_signers (Signers s4) s3)). lia.
  - intros k a Ek H1 H2. destruct HR as [[-> _]|[-> _]]; [rewrite ER3; auto|]. apply shift_lookup. cbn [Recents set_signers]. rewrite ER3. split; [auto|].
    change (limit_of (set_signers (Signers s4) s3)) with (limit_of s4). lia.
Qed.
End apply.
End CliqueFacts.
