(* ===== verification/CliqueChain.v ===== *)
(** * Sequences of headers in [Clique]

    Applying headers one after another, the rotation of signers along a chain, the order of
    signers, and the search for snapshots: whatever the caches hold, [snapshot] returns the
    result of applying all headers since the genesis block. *)

From stdpp Require Import sorting.
From S2P Require Import Prelude GoMath World Rlp Types Clique CliqueFacts.

Module CliqueChain.
Import Types Clique CliqueFacts.

(** ** Number and hash of a snapshot do not matter to what is applied *)

Definition stamp (n : Z) (h : Hash) (s : Snapshot) : Snapshot :=
  mkSnapshot n h (Signers s) (Recents s) (Votes s) (s_Tally s).

Definition gmap_res {A B} (f : A -> B) (r : result A) : result B := gbind r (fun x => GOk (f x)).

Lemma stamp_shift n h s k : shift_recents (stamp n h s) k = stamp n h (shift_recents s k).
Proof. unfold shift_recents, limit_of, nsigners. cbn. by destruct (_ >=? _). Qed.
Lemma stamp_drop n h s signer addr : drop_previous (stamp n h s) signer addr = stamp n h (drop_previous s signer addr).
Proof. unfold drop_previous. cbn. by destruct (take_vote _ _ _) as [[]|]. Qed.
Lemma stamp_record n h s signer k addr auth :
  record_vote (stamp n h s) signer k addr auth = stamp n h (record_vote s signer k addr auth).
Proof.
  unfold record_vote, cast. change (validVote (stamp n h s)) with (validVote s). by destruct (negb _).
Qed.
Lemma stamp_enact n h s addr k : enact_if_passed (stamp n h s) addr k = stamp n h (enact_if_passed s addr k).
Proof.
  unfold enact_if_passed, enact. change (nsigners (stamp n h s)) with (nsigners s). cbn [s_Tally stamp].
  destruct (_ >? _); [|done]. destruct (t_Authorize _); [done|].
  change (set_signers _ (stamp n h s)) with (stamp n h (set_signers (Signers s ∖ {[addr]}) s)). rewrite stamp_shift.
  cbn [Votes s_Tally stamp]. by destruct (discard_votes_by _ _ _).
Qed.

Section chain.
Context `{CryptoPrims}.
Variable conf : CliqueConfig.
Hypothesis epoch_pos : 0 < Epoch conf.

Lemma stamp_apply_header n h s hd :
  apply_header conf (stamp n h s) hd = gmap_res (stamp n h) (apply_header conf s hd).
Proof.
  rewrite !(apply_header_eq conf epoch_pos _ hd _ eq_refl). set (k := Uint64 (Number hd)).
  destruct (ecrecover hd) as [signer| |]; [|done..]. cbn [gbind]. rewrite stamp_shift.
  change (Signers (stamp n h s)) with (Signers s). change (is_recent (stamp n h (shift_recents s k))) with (is_recent (shift_recents s k)).
  destruct (guard _ _); [|done..]. cbn [gbind]. destruct (guard _ _); [|done..]. cbn [gbind].
  destruct (vote_of _) as [auth| |]; [|done..]. cbn [gbind gmap_res].
  assert (authorised conf (stamp n h s) k signer = stamp n h (authorised conf s k signer)) as ->.
  { unfold authorised. destruct (is_checkpoint conf k); [|by rewrite stamp_shift].
    change (set_votes [] ∅ (stamp n h s)) with (stamp n h (set_votes [] ∅ s)). by rewrite stamp_shift. }
  by rewrite stamp_drop, stamp_record, stamp_enact.
Qed.
Lemma stamp_apply_headers n h s hs :
  apply_headers conf (stamp n h s) hs = gmap_res (stamp n h) (apply_headers conf s hs).
Proof.
  revert s. induction hs as [|hd hs IH]; intros s; [done|]. cbn [apply_headers]. rewrite stamp_apply_header.
  destruct (apply_header conf s hd); cbn; [apply IH|done..].
Qed.

(** ** Sequences of headers *)

(** The headers have the numbers after [n]. *)
Fixpoint numbered (n : Z) (hs : list Header) : Prop :=
  match hs with [] => True | h :: hs' => Uint64 (Number h) = n + 1 /\ numbered (n + 1) hs' end.

Lemma numbered_app n hs hs' : numbered n (hs ++ hs') <-> numbered n hs /\ numbered (n + zlen hs) hs'.
Proof.
  revert n. induction hs as [|h hs IH]; intros n; cbn [numbered app].
  { change (zlen []) with 0. rewrite Z.add_0_r. tauto. }
  rewrite IH, zlen_cons. replace (n + 1 + zlen hs) with (n + (zlen hs + 1)) by lia. tauto.
Qed.

Lemma apply_headers_app s hs hs' :
  apply_headers conf s (hs ++ hs') = (let+ s' := apply_headers conf s hs in apply_headers conf s' hs').
Proof.
  revert s. induction hs as [|h hs IH]; intros s; [done|]. cbn [apply_headers app].
  destruct (apply_header conf s h); cbn; [apply IH|done..].
Qed.

Lemma apply_headers_wf s n hs s' :
  wf s n -> 0 <= n -> numbered n hs -> apply_headers conf s hs = GOk s' -> wf s' (n + zlen hs).
Proof.
  revert s n. induction hs as [|h hs IH]; intros s n W H0; cbn [numbered apply_headers].
  { intros _ [= <-]. change (zlen []) with 0. by rewrite Z.add_0_r. }
  intros [En Hn] E. ginv E. destruct (apply_header_applied conf epoch_pos s n h x W H0 En E0) as (signer & Ha).
  rewrite zlen_cons. replace (n + (zlen hs + 1)) with (n + 1 + zlen hs) by lia. eapply IH; try done; [apply Ha|lia].
Qed.

Lemma wf_new n h l : 0 <= n -> wf (newSnapshot n h l) n.
Proof.
  intros Hn. split; [constructor; cbn; try constructor|]. split; cbn; intros k; [intros a E|intros k' a E]; by rewrite lookup_empty in E.
Qed.

(** *** [apply] *)

Lemma contiguous_cons h h' hs :
  contiguous (h :: h' :: hs) = (Uint64 (Number h') =? u64 (Uint64 (Number h) + 1)) && contiguous (h' :: hs).
Proof. done. Qed.
Lemma numbered_contiguous n hs : 0 <= n -> n + zlen hs < 2 ^ 64 -> numbered n hs -> contiguous hs = true.
Proof.
  revert n. induction hs as [|h hs IH]; intros n H0; [done|]. rewrite zlen_cons. intros Hb [En Hn]. specialize (IH (n + 1)).
  destruct hs as [|h' hs]; [done|]. rewrite contiguous_cons. rewrite zlen_cons in *. pose proof (zlen_nonneg hs).
  rewrite IH by (try done; lia). destruct Hn as [En' _]. rewrite En, En', u64_small by lia. by rewrite Z.eqb_refl.
Qed.
Lemma contiguous_numbered n h hs :
  contiguous (h :: hs) = true -> Uint64 (Number h) = n + 1 -> 0 <= n -> n + zlen (h :: hs) < 2 ^ 64 -> numbered n (h :: hs).
Proof.
  revert n h. induction hs as [|h' hs IH]; intros n h Hc En H0; rewrite zlen_cons; intros Hb; [done|].
  split; [done|]. rewrite contiguous_cons in Hc. apply andb_true_iff in Hc as [E%Z.eqb_eq Hc]. rewrite zlen_cons in Hb. pose proof (zlen_nonneg hs).
  apply IH; [done| |lia|rewrite zlen_cons; lia]. rewrite E, En, u64_small; lia.
Qed.

Definition stamped (s : Snapshot) (hs : list Header) (snap : Snapshot) : Snapshot :=
  match hs with [] => snap | h :: t => stamp (s_Number s + zlen hs) (header_Hash (List.last t h)) snap end.

Lemma apply_header_number s h s' : apply_header conf s h = GOk s' -> s_Number s' = s_Number s /\ s_Hash s' = s_Hash s.
Proof.
  assert (s = stamp (s_Number s) (s_Hash s) s) as Es by by destruct s. rewrite Es at 1. rewrite stamp_apply_header.
  destruct (apply_header conf s h); [|done..]. by intros [= <-].
Qed.
Lemma apply_headers_number s hs s' : apply_headers conf s hs = GOk s' -> s_Number s' = s_Number s /\ s_Hash s' = s_Hash s.
Proof.
  assert (s = stamp (s_Number s) (s_Hash s) s) as Es by by destruct s. rewrite Es at 1. rewrite stamp_apply_headers.
  destruct (apply_headers conf s hs); [|done..]. by intros [= <-].
Qed.

Lemma apply_numbered s hs :
  0 <= s_Number s -> s_Number s + zlen hs < 2 ^ 64 -> numbered (s_Number s) hs ->
  apply conf s hs = gmap_res (stamped s hs) (apply_headers conf s hs).
Proof.
  intros H0 Hb Hn. destruct hs as [|h hs]; [done|]. unfold apply. rewrite (numbered_contiguous _ _ H0 Hb Hn). cbn [guard gbind].
  destruct Hn as [En _]. rewrite zlen_cons in Hb. pose proof (zlen_nonneg hs). rewrite En, u64_small, Z.eqb_refl by lia. cbn [guard gbind].
  destruct (apply_headers conf s (h :: hs)) as [snap| |] eqn:E; [|done..]. cbn [gbind gmap_res stamped].
  apply apply_headers_number in E as [-> _]. rewrite u64_small by (rewrite zlen_cons; lia). done.
Qed.

Lemma apply_ok_numbered s hs s' :
  0 <= s_Number s -> s_Number s + zlen hs < 2 ^ 64 -> apply conf s hs = GOk s' -> numbered (s_Number s) hs.
Proof.
  intros H0 Hb. destruct hs as [|h hs]; [done|]. unfold apply. intros E. ginv E. apply guard_ok in E0, E1.
  apply Z.eqb_eq in E1. pose proof (zlen_nonneg hs). rewrite zlen_cons in Hb.
  apply contiguous_numbered; try done; [|rewrite zlen_cons; lia]. rewrite E1, u64_small; lia.
Qed.

Lemma last_cons {A} (l : list A) (x y : A) : List.last (y :: l) x = List.last l y.
Proof. revert x y. induction l as [|z l IH]; intros x y; [done|]. change (List.last (z :: l) x = List.last (z :: l) y). by rewrite !IH. Qed.
Lemma last_app {A} (l l' : list A) (x y : A) : List.last (l ++ y :: l') x = List.last l' y.
Proof. revert x. induction l as [|z l IH]; intros x; cbn [app]; rewrite last_cons; [done|apply IH]. Qed.

(** Applying a sequence of headers at once or in two parts is the same. *)
Lemma apply_app s hs hs' :
  0 <= s_Number s -> s_Number s + zlen (hs ++ hs') < 2 ^ 64 -> numbered (s_Number s) (hs ++ hs') ->
  apply conf s (hs ++ hs') = (let+ s1 := apply conf s hs in apply conf s1 hs').
Proof.
  intros H0 Hb Hn. destruct hs' as [|h' hs'].
  { rewrite app_nil_r. by destruct (apply conf s hs). }
  destruct hs as [|h hs]; [done|]. pose proof Hn as [Hn1 Hn2]%numbered_app. pose proof Hb as Hb'. rewrite zlen_app in Hb'.
  pose proof (zlen_nonneg (h' :: hs')). pose proof (zlen_nonneg (h :: hs)).
  rewrite !apply_numbered, apply_headers_app by (try done; lia).
  destruct (apply_headers conf s (h :: hs)) as [s1| |]; [|done..]. cbn [gbind gmap_res].
  rewrite apply_numbered by (cbn [stamped stamp s_Number]; try done; lia). cbn [stamped]. rewrite stamp_apply_headers.
  destruct (apply_headers conf s1 (h' :: hs')) as [s2| |]; [|done..]. cbn [gbind gmap_res stamped app]. unfold stamp. cbn.
  f_equal. f_equal; [rewrite app_comm_cons, zlen_app; lia|by rewrite last_app].
Qed.

(** ** Rotation *)

(** A recent signer stays on record while the limit does not fall to its distance. *)
Lemma recents_kept s n mid s2 k a :
  wf s n -> 0 <= n -> numbered n mid -> apply_headers conf s mid = GOk s2 -> Recents s !! k = Some a ->
  (forall pre s', pre `prefix_of` mid -> apply_headers conf s pre = GOk s' -> n + zlen mid + 1 - k < limit_of s') ->
  Recents s2 !! k = Some a.
Proof.
  revert s n. induction mid as [|h mid IH]; intros s n W H0; cbn [numbered apply_headers]; [by intros _ [= <-]|].
  intros [En Hn] E Hk Hl. ginv E. destruct (apply_header_applied conf epoch_pos s n h x W H0 En E0) as (signer & Ha).
  rewrite zlen_cons in Hl. pose proof (zlen_nonneg mid). eapply (IH x (n + 1)); try done; [apply Ha|lia| |].
  - apply (ap_kept _ _ _ _ _ _ Ha); [done| |].
    + specialize (Hl [] s (prefix_nil _) eq_refl). lia.
    + assert (n + (zlen mid + 1) + 1 - k < limit_of x); [|lia]. apply (Hl [h]); [by apply prefix_cons, prefix_nil|].
      cbn. by rewrite E0.
  - intros pre s' Hp Es'. assert (n + (zlen mid + 1) + 1 - k < limit_of s'); [|lia].
    apply (Hl (h :: pre)); [by apply prefix_cons|]. cbn. by rewrite E0.
Qed.
End chain.

(** ** The order of signers *)

Lemma select_min_ok x rest m l : select_min x rest = (m, l) -> m :: l ≡ₚ x :: rest /\ Forall (Z.le m) l.
Proof.
  revert x m l. induction rest as [|y rest IH]; intros x m l; cbn; [intros [= <- <-]; done|].
  destruct (Z.gtb_spec x y).
  - destruct (select_min y rest) as [m' l'] eqn:E. intros [= <- <-]. destruct (IH _ _ _ E) as [HP HF].
    split; [by rewrite perm_swap, HP|]. constructor; [|done].
    assert (y ∈ m' :: l') as Hy by (rewrite HP; left). apply elem_of_cons in Hy as [->|Hy]; [lia|].
    rewrite Forall_forall in HF. specialize (HF y Hy). lia.
  - destruct (select_min x rest) as [m' l'] eqn:E. intros [= <- <-]. destruct (IH _ _ _ E) as [HP HF].
    split; [rewrite perm_swap, HP; apply perm_swap|]. constructor; [|done].
    assert (x ∈ m' :: l') as Hx by (rewrite HP; left). apply elem_of_cons in Hx as [->|Hx]; [lia|].
    rewrite Forall_forall in HF. specialize (HF x Hx). lia.
Qed.

Lemma sort_loop_ok fuel l : (length l <= fuel)%nat -> sort_loop fuel l ≡ₚ l /\ StronglySorted Z.le (sort_loop fuel l).
Proof.
  revert l. induction fuel as [|fuel IH]; intros [|x rest] Hl; cbn in *;
    [split; [done|constructor]|lia|split; [done|constructor]|].
  destruct (select_min x rest) as [m l'] eqn:E. apply select_min_ok in E as [HP HF].
  pose proof (Permutation_length HP) as Hlen. cbn in Hlen.
  destruct (IH l') as [HP' HS]; [lia|]. split; [by rewrite HP'|]. constructor; [done|]. by rewrite HP'.
Qed.
Lemma signers_in_perm order order' : order ≡ₚ order' -> signers_in order = signers_in order'.
Proof.
  intros HP. unfold signers_in. destruct (sort_loop_ok (length order) order) as [P1 S1]; [done|].
  destruct (sort_loop_ok (length order') order') as [P2 S2]; [done|].
  apply (StronglySorted_unique Z.le); [done..|]. by rewrite P1, P2.
Qed.
Lemma signers_ok s : signers s ≡ₚ elements (Signers s) /\ StronglySorted Z.le (signers s).
Proof. by apply sort_loop_ok. Qed.

Lemma offset_of_lookup l i a : NoDup l -> l !! i = Some a -> offset_of a l = Z.of_nat i.
Proof.
  revert i. induction l as [|x l IH]; intros i Hn; [done|]. apply NoDup_cons in Hn as [Hx Hn]. cbn. destruct i as [|i]; cbn.
  - intros [= ->]. by rewrite Z.eqb_refl.
  - intros E. rewrite (proj2 (Z.eqb_neq _ _)); [rewrite (IH i) by done; lia|]. intros ->. apply Hx. by eapply list_elem_of_lookup_2.
Qed.
Lemma signers_NoDup s : NoDup (signers s).
Proof. rewrite (proj1 (signers_ok s)). apply NoDup_elements. Qed.
Lemma signers_elem s a : a ∈ signers s <-> a ∈ Signers s.
Proof. rewrite (proj1 (signers_ok s)). apply elem_of_elements. Qed.
Lemma signers_len s : zlen (signers s) = nsigners s.
Proof. unfold zlen, nsigners, size, set_size. cbn. rewrite (proj1 (signers_ok s)). done. Qed.
Lemma inturn_eq s number a : nsigners s <> 0 -> inturn s number a = GOk (number mod nsigners s =? offset_of a (signers s)).
Proof. intros Hn. unfold inturn. by rewrite signers_len, (proj2 (Z.eqb_neq _ _)). Qed.
End CliqueChain.
