(* ===== verification/CliqueEngine.v ===== *)
(** * The engine of [Clique]

    The search for snapshots: whatever the caches hold, [snapshot] returns the result of
    applying all headers since the genesis block.  What the chain reader returns is described by
    a tree of blocks, which may hold more blocks than the chain: the headers of a batch that is
    being verified are not in the chain yet. *)

From S2P Require Import Prelude GoMath World Rlp Types Clique CliqueFacts CliqueChain.

Module CliqueEngine.
Import Types Clique CliqueFacts CliqueChain.

Section engine.
Context `{CryptoPrims}.

(** The ancestors of a block down to the first, oldest first, as far as the explicit parents
    and the chain provide them. *)
Fixpoint ancestry (n : nat) (chain : Chain) (hash : Hash) (parents : list Header) : result (list Header) :=
  match n with
  | O => GOk []
  | S n' =>
      let+ (h, ps) := gather chain (Z.of_nat n) hash parents in
      let+ l := ancestry n' chain (ParentHash h) ps in
      GOk (l ++ [h])
  end.

(** Blocks by hash; a block of number one is a child of the genesis block [g]. *)
Record block_tree (g : Header) (tree : Hash -> option Header) : Prop := {
  bt_hash : forall h hd, tree h = Some hd -> header_Hash hd = h;
  bt_first : forall h hd, tree h = Some hd -> Uint64 (Number hd) = 1 -> ParentHash hd = header_Hash g;
  bt_genesis : forall hd, tree (header_Hash g) = Some hd -> Uint64 (Number hd) = 0;
}.
(** What a chain reader promises: headers are found by their hash and number. *)
Record chain_of (g : Header) (tree : Hash -> option Header) (chain : Chain) : Prop := {
  co_get : forall h n hd, GetHeader chain h n = Some hd -> tree h = Some hd /\ Uint64 (Number hd) = n;
  co_genesis : GetHeaderByNumber chain 0 = Some g;
}.

Section search.
Variables (g : Header) (tree : Hash -> option Header) (conf : CliqueConfig).
Hypothesis epoch_pos : 0 < Epoch conf.
Hypothesis tree_ok : block_tree g tree.

(** The path to a block in the tree. *)
Fixpoint path (n : nat) (hash : Hash) : option (list Header) :=
  match n with
  | O => Some []
  | S n' =>
      match tree hash with
      | Some hd => if Uint64 (Number hd) =? Z.of_nat n then (fun l => l ++ [hd]) <$> path n' (ParentHash hd) else None
      | None => None
      end
  end.

Lemma path_S n hash hs :
  path (S n) hash = Some hs <->
  exists hd l, tree hash = Some hd /\ Uint64 (Number hd) = Z.of_nat (S n) /\ path n (ParentHash hd) = Some l /\ hs = l ++ [hd].
Proof.
  cbn [path]. destruct (tree hash) as [hd|]; [|split; [done|naive_solver]].
  destruct (Z.eqb_spec (Uint64 (Number hd)) (Z.of_nat (S n))); [|split; [done|naive_solver]].
  rewrite fmap_Some. naive_solver.
Qed.
Lemma path_numbered n hash hs : path n hash = Some hs -> zlen hs = Z.of_nat n /\ numbered 0 hs.
Proof.
  revert hash hs. induction n as [|n IH]; intros hash hs; [by intros [= <-]|].
  intros (hd & l & _ & En & Hl & ->)%path_S. apply IH in Hl as [Hz Hn]. rewrite zlen_app, numbered_app. cbn [numbered].
  change (zlen [hd]) with 1. split_and!; try done; lia.
Qed.
Lemma path_tip n hash hs : path n hash = Some hs -> n <> O -> exists l hd, hs = l ++ [hd] /\ header_Hash hd = hash.
Proof.
  destruct n as [|n]; [done|]. intros (hd & l & Et & _ & _ & ->)%path_S _. exists l, hd. split; [done|]. by eapply bt_hash.
Qed.

(** The parts of the tree that are reached by a search have the numbers it expects. *)
Definition at_height (n : nat) (hash : Hash) : Prop := n = O -> hash = header_Hash g.

Lemma path_height n n' hash hs hs' :
  path n hash = Some hs -> path n' hash = Some hs' -> at_height n hash -> at_height n' hash -> n = n'.
Proof.
  intros H1 H2 A1 A2. destruct n as [|n], n' as [|n']; [done| | |].
  - rewrite (A1 eq_refl) in H2. apply path_S in H2 as (hd & l & Et & En & _). apply (bt_genesis _ _ tree_ok) in Et. lia.
  - rewrite (A2 eq_refl) in H1. apply path_S in H1 as (hd & l & Et & En & _). apply (bt_genesis _ _ tree_ok) in Et. lia.
  - apply path_S in H1 as (hd & l & Et & En & _). apply path_S in H2 as (hd' & l' & Et' & En' & _). rewrite Et in Et'. injection Et' as <-. lia.
Qed.

(** Every snapshot that is cached or stored is that of its block. *)
Definition right (hash : Hash) (s : Snapshot) : Prop :=
  exists n hs, path n hash = Some hs /\ at_height n hash /\ Z.of_nat n < 2 ^ 64 /\ apply conf (genesis_snapshot g) hs = GOk s.
Record consistent (c : Engine) : Prop := {
  cs_conf : e_config c = conf;
  cs_recents : forall hash s, e_recents c !! hash = Some s -> right hash s;
  cs_db : forall hash s, e_db c !! hash = Some s -> right hash s;
}.

Lemma right_hash hash s : right hash s -> s_Hash s = hash.
Proof.
  intros (n & hs & Hp & Ha & Hb & E). pose proof (path_numbered _ _ _ Hp) as [Hz Hn].
  rewrite apply_numbered in E by (try done; cbn; lia). destruct (apply_headers conf _ hs) as [snap| |] eqn:Es; [|done..].
  cbn in E. injection E as <-. destruct n as [|n].
  - injection Hp as <-. cbn in *. injection Es as <-. by rewrite (Ha eq_refl).
  - destruct (path_tip _ _ _ Hp) as (l & hd & -> & <-); [done|]. destruct l as [|x l]; [done|]. cbn [app stamped stamp s_Hash].
    by rewrite last_app.
Qed.

Variable chain : Chain.
Hypothesis chain_ok : chain_of g tree chain.
Definition known_parents (parents : list Header) : Prop := Forall (fun p => tree (header_Hash p) = Some p) parents.

Lemma gather_ok n hash parents h ps :
  known_parents parents -> gather chain n hash parents = GOk (h, ps) ->
  tree hash = Some h /\ Uint64 (Number h) = n /\ known_parents ps.
Proof.
  unfold gather. intros Hk. destruct (last parents) as [p|] eqn:El.
  - intros E. ginv E. injection E as <- <-. apply guard_ok, negb_true_iff, orb_false_iff in E0 as [E1 E2].
    apply negb_false_iff, Z.eqb_eq in E1, E2. apply last_Some in El as [l ->]. apply Forall_app in Hk as [Hl Hp].
    rewrite Forall_singleton in Hp. split_and!; [congruence|done|].
    apply Forall_take, Forall_app. split; [done|]. by rewrite Forall_singleton.
  - destruct (GetHeader chain hash n) as [hd|] eqn:E; [|done]. intros [= <- <-]. apply (co_get _ _ _ chain_ok) in E as [? ?]. by split_and!; [| |constructor].
Qed.
Lemma ancestry_path n hash parents hs :
  known_parents parents -> ancestry n chain hash parents = GOk hs -> path n hash = Some hs.
Proof.
  revert hash parents hs. induction n as [|n IH]; intros hash parents hs Hk; [by intros [= <-]|]. cbn [ancestry]. intros E.
  ginv E. destruct x as [h ps]. ginv E. injection E as <-. destruct (gather_ok _ _ _ _ _ Hk E0) as (Et & En & Hk').
  apply path_S. exists h, x. split_and!; try done. by eapply IH.
Qed.

(** The engine apart from its caches. *)
Definition same_settings (c c' : Engine) : Prop :=
  e_config c' = e_config c /\ e_proposals c' = e_proposals c /\ e_signer c' = e_signer c /\ e_signFn c' = e_signFn c.

Hypothesis genesis_valid : verify_fields conf chain g = GOk tt.

Lemma genesis_right : right (header_Hash g) (genesis_snapshot g).
Proof. exists O, []. by split_and!. Qed.

Lemma known_right c n hash s : consistent c -> known_snapshot c n hash = Some s -> right hash s.
Proof.
  intros [_ Hr Hd]. unfold known_snapshot. destruct (e_recents c !! hash) eqn:E; [intros [= <-]; auto|].
  destruct (_ =? 0); [auto|done].
Qed.

Lemma find_snapshot_ok n c fuel hash parents acc hs :
  consistent c -> known_parents parents -> at_height n hash -> (n < fuel)%nat -> Z.of_nat n < 2 ^ 64 ->
  ancestry n chain hash parents = GOk hs ->
  exists c' base hs1 hs2,
    find_snapshot fuel chain (Z.of_nat n) hash parents acc c = (c', GOk (base, acc ++ rev hs2)) /\
    hs = hs1 ++ hs2 /\ apply conf (genesis_snapshot g) hs1 = GOk base /\ consistent c' /\ same_settings c c'.
Proof.
  revert c fuel hash parents acc hs. induction n as [|n IH]; intros c fuel hash parents acc hs Hc Hk Ha Hf Hb Hanc.
  all: destruct fuel as [|fuel]; [lia|]; cbn [find_snapshot].
  all: pose proof (ancestry_path _ _ _ _ Hk Hanc) as Hpath.
  all: destruct (known_snapshot c _ hash) as [s|] eqn:Eknown.
  1, 3: apply known_right in Eknown as (n' & hs' & Hp' & Ha' & _ & E); [|done];
    rewrite <- (path_height _ _ _ _ _ Hpath Hp' Ha Ha'), Hpath in Hp'; injection Hp' as <-;
    exists c, s, hs, []; rewrite !app_nil_r; by split_and!.
  - change (Z.of_nat 0 =? 0) with true. injection Hanc as <-. unfold make_genesis. rewrite (co_genesis _ _ _ chain_ok). unfold mbind, config, lift, update.
    rewrite (cs_conf _ Hc), genesis_valid. eexists _, _, [], []. rewrite app_nil_r. split_and!; [done..| |by split_and!].
    split; [apply Hc|apply Hc|]. cbn. intros h s [[<- <-]|[_ E]]%lookup_insert_Some; [apply genesis_right|by eapply cs_db].
  - rewrite (proj2 (Z.eqb_neq _ _)) by lia. cbn [ancestry] in Hanc. ginv Hanc. destruct x as [h ps]. ginv Hanc. injection Hanc as <-.
    unfold mbind, lift. rewrite E. destruct (gather_ok _ _ _ _ _ Hk E) as (Et & En & Hk').
    replace (Z.of_nat (S n) - 1) with (Z.of_nat n) by lia.
    destruct (IH c fuel (ParentHash h) ps (acc ++ [h]) x) as (c' & base & hs1 & hs2 & -> & -> & Eb & Hc' & Hs'); try done; [|lia..|].
    { intros ->. apply (bt_first _ _ tree_ok _ _ Et). by rewrite En. }
    exists c', base, hs1, (hs2 ++ [h]). rewrite rev_app_distr, <- app_assoc. split_and!; try done; by rewrite app_assoc.
Qed.

(** [arc_add] stores the entry and may evict others or the entry itself. *)
Variable arc_add : Hash -> Snapshot -> gmap Hash Snapshot -> gmap Hash Snapshot.
Hypothesis arc_sub : forall k v m, arc_add k v m ⊆ <[k := v]> m.

Lemma snapshot_ok n c hash parents hs :
  consistent c -> known_parents parents -> at_height n hash -> Z.of_nat n < 2 ^ 64 ->
  ancestry n chain hash parents = GOk hs ->
  exists c', snapshot arc_add chain (Z.of_nat n) hash parents c = (c', apply conf (genesis_snapshot g) hs) /\
             consistent c' /\ same_settings c c'.
Proof.
  intros Hc Hk Ha Hb Hanc. unfold snapshot, mbind, config, update, lift. rewrite Nat2Z.id.
  destruct (find_snapshot_ok n c (S n) hash parents [] hs) as (c1 & base & hs1 & hs2 & -> & -> & Eb & Hc1 & Hs1); [done..|lia|done|done|].
  cbn [app]. rewrite rev_involutive. pose proof (ancestry_path _ _ _ _ Hk Hanc) as Hpath.
  destruct (path_numbered _ _ _ Hpath) as [Hz Hn]. rewrite (cs_conf _ Hc1).
  rewrite apply_app, Eb by (try done; cbn; lia). cbn [gbind].
  destruct (apply conf base hs2) as [s| |] eqn:Es; [|by exists c1..].
  assert (right hash s) as Hr.
  { exists n, (hs1 ++ hs2). split_and!; try done. rewrite apply_app, Eb by (try done; cbn; lia). done. }
  rewrite (right_hash _ _ Hr). eexists. split; [done|].
  assert (forall h s', <[hash := s]> (e_recents c1) !! h = Some s' -> right h s') as Hrec.
  { intros h s' [[<- <-]|[_ E]]%lookup_insert_Some; [done|by eapply cs_recents]. }
  assert (forall h s', <[hash := s]> (e_db c1) !! h = Some s' -> right h s') as Hdb.
  { intros h s' [[<- <-]|[_ E]]%lookup_insert_Some; [done|by eapply cs_db]. }
  destruct (_ && _); (split; [split; cbn; [apply Hc1| |]|done]); try apply Hc1; try done.
  all: intros h s' E; apply Hrec; by eapply lookup_weaken.
Qed.

(** The parent [verifyCascadingFields] looks at. *)
Definition parent_of (header : Header) (parents : list Header) : option Header :=
  match last parents with
  | Some p => Some p
  | None => GetHeader chain (ParentHash header) (u64 (Uint64 (Number header) - 1))
  end.

(** The checks of [verifyHeader], given the parent and its snapshot; [valid_header] of the file
    [CliqueSeal] says what they mean. *)
Record checks_pass (header parent : Header) (snap : Snapshot) : Prop := {
  cp_fields : verify_fields conf chain header = GOk tt;
  cp_number : Uint64 (Number header) = Uint64 (Number parent) + 1;
  cp_parent : header_Hash parent = ParentHash header;
  cp_time : u64 (Uint64 (Time parent) + Period conf) <= Uint64 (Time header);
  cp_signers : is_checkpoint conf (Uint64 (Number header)) = true -> extra_signers header = signers_bytes snap;
  cp_seal : seal_ok snap header = GOk tt;
}.

Lemma fields_result header : exists r, verify_fields conf chain header = r /\ (r = GOk tt \/ exists e, r = GErr e).
Proof.
  eexists. split; [done|]. unfold verify_fields. rewrite (proj2 (Z.eqb_neq (Epoch conf) 0)) by lia.
  repeat (match goal with |- context [guard ?b _] => destruct b end; cbn [guard gbind]; [|by right; eexists]). by left.
Qed.

Lemma verifyHeader_ok n c header parents parent hs :
  consistent c -> known_parents parents -> at_height n (ParentHash header) -> Z.of_nat n + 1 < 2 ^ 64 ->
  Uint64 (Number header) = Z.of_nat n + 1 -> ancestry n chain (ParentHash header) parents = GOk hs ->
  parent_of header parents = Some parent ->
  exists c' r, verifyHeader arc_add chain header parents c = (c', r) /\ consistent c' /\
    (r = GOk tt <-> exists snap, apply conf (genesis_snapshot g) hs = GOk snap /\ checks_pass header parent snap).
Proof.
  intros Hc Hk Ha Hb En Hanc Hp. unfold verifyHeader, mbind, config, lift. rewrite (cs_conf _ Hc).
  destruct (fields_result header) as (r & Er & [->|[e ->]]); rewrite Er.
  2: { eexists _, _. split_and!; [done..|]. split; [done|]. intros (snap & _ & []). congruence. }
  unfold verifyCascadingFields. fold (parent_of header parents). rewrite Hp, (proj2 (Z.eqb_neq _ _)) by lia.
  unfold mbind, config, lift. rewrite En, (cs_conf _ Hc). replace (u64 (Z.of_nat n + 1 - 1)) with (Z.of_nat n) by (rewrite u64_small; lia).
  destruct (guard _ ErrUnknownAncestor) as [[]|e|] eqn:G1.
  2, 3: eexists _, _; (split_and!; [done..|]); split; [done|]; intros (snap & _ & [_ V1 V2 _ _ _]); exfalso;
    rewrite V2, Z.eqb_refl, (proj2 (Z.eqb_eq _ _)) in G1 by lia; done.
  apply guard_ok, negb_true_iff, orb_false_iff in G1 as [G1 G1']. apply negb_false_iff, Z.eqb_eq in G1, G1'.
  destruct (guard _ ErrInvalidTimestamp) as [[]|e|] eqn:G2.
  2, 3: eexists _, _; (split_and!; [done..|]); split; [done|]; intros (snap & _ & [_ _ _ V _ _]); exfalso;
    destruct (Z.gtb_spec (u64 (Uint64 (Time parent) + Period conf)) (Uint64 (Time header))); [lia|done].
  apply guard_ok, negb_true_iff in G2. rewrite Z.gtb_ltb in G2. apply Z.ltb_ge in G2.
  destruct (snapshot_ok n c (ParentHash header) parents hs) as (c1 & E1 & Hc1 & _); [try done; lia..|]. rewrite E1.
  destruct (apply conf (genesis_snapshot g) hs) as [snap| |] eqn:Es; [|by eexists _, _; split_and!; [done..|split; [done|intros (? & [=] & _)]]..].
  destruct (guard _ errInvalidCheckpointSigners) as [[]|e|] eqn:G3.
  2, 3: eexists _, _; (split_and!; [done..|]); split; [done|]; intros (snap' & [= <-] & [_ _ _ _ V _]); exfalso;
    unfold is_checkpoint in V; rewrite En in V; destruct (_ mod _ =? 0); [|done]; rewrite bool_decide_true in G3 by auto; done.
  apply guard_ok, negb_true_iff in G3. unfold verifySeal, mbind, lift. rewrite En, (proj2 (Z.eqb_neq _ _)) by lia. cbn [negb guard].
  replace (u64 (Z.of_nat n + 1 - 1)) with (Z.of_nat n) by (rewrite u64_small; lia).
  destruct (snapshot_ok n c1 (ParentHash header) parents hs) as (c2 & E2 & Hc2 & _); [try done; lia..|]. rewrite E2, Es.
  eexists _, _. split_and!; [done..|]. split.
  - intros Hs. exists snap. split; [done|]. split; try done; [lia|]. unfold is_checkpoint. rewrite En. intros Hcp. rewrite Hcp in G3.
    cbn in G3. by apply negb_false_iff, bool_decide_eq_true in G3.
  - by intros (snap' & [= <-] & []).
Qed.
End search.

(** ** Seals *)

Lemma forallb_recents (R : gmap Z Address) (f : Z * Address -> bool) :
  forallb f (map_to_list R) = true <-> forall k a, R !! k = Some a -> f (k, a) = true.
Proof.
  rewrite forallb_forall. split.
  - intros Hf k a E. by apply Hf, list_elem_of_In, elem_of_map_to_list.
  - intros Hf [k a] Hin. by apply Hf, elem_of_map_to_list, list_elem_of_In.
Qed.
Lemma shifted_out_true s number signer :
  shifted_out s number signer = true <-> forall k, Recents s !! k = Some signer -> k <= u64 (number - limit_of s).
Proof.
  unfold shifted_out. rewrite forallb_recents. cbn. split.
  - intros Hf k E. specialize (Hf k signer E). rewrite Z.eqb_refl in Hf. cbn in Hf.
    destruct (Z.gtb_spec k (u64 (number - limit_of s))); [done|lia].
  - intros Hf k a E. destruct (Z.eqb_spec a signer) as [->|]; [|done]. specialize (Hf k E).
    destruct (Z.gtb_spec k (u64 (number - limit_of s))); [lia|done].
Qed.
Lemma must_wait_false s number signer :
  (forall k, Recents s !! k = Some signer -> limit_of s <= number /\ k <= u64 (number - limit_of s)) ->
  must_wait s number signer = false.
Proof.
  intros Hf. unfold must_wait. apply not_true_iff_false. rewrite existsb_exists. intros ([k a] & Hin & [Ea%Z.eqb_eq Hw]%andb_true_iff).
  cbn in *. subst a. apply list_elem_of_In, elem_of_map_to_list in Hin. destruct (Hf k Hin).
  apply orb_true_iff in Hw as [Hw%Z.ltb_lt|Hw%Z.gtb_lt]; lia.
Qed.

Lemma seal_ok_inv snap header :
  seal_ok snap header = GOk tt <->
  exists signer turn, ecrecover header = GOk signer /\ signer ∈ Signers snap /\
    shifted_out snap (Uint64 (Number header)) signer = true /\ inturn snap (Uint64 (Number header)) signer = GOk turn /\
    Difficulty header = if (turn : bool) then diffInTurn else diffNoTurn.
Proof.
  unfold seal_ok. split.
  - intros E. ginv E. apply guard_ok in E1, E2. apply bool_decide_eq_true in E1. apply guard_ok in E4, E5.
    exists x, x2. split_and!; try done. destruct x2; cbn in *; [apply negb_true_iff, negb_false_iff, Z.eqb_eq in E4|apply negb_true_iff, negb_false_iff, Z.eqb_eq in E5]; done.
  - intros (signer & turn & -> & Hin & Hs & Ht & Hd). cbn. rewrite bool_decide_true, Hs by done. cbn. rewrite Ht. cbn.
    rewrite Hd. by destruct turn.
Qed.

(** A header with a valid seal can be applied, once the chain is as long as the limit. *)
Lemma seal_may_sign snap n header :
  wf snap n -> 0 <= n -> n + 1 < 2 ^ 64 -> limit_of snap <= n + 1 -> Uint64 (Number header) = n + 1 ->
  seal_ok snap header = GOk tt -> exists signer, ecrecover header = GOk signer /\ may_sign snap (n + 1) signer.
Proof.
  intros W H0 Hb Hl En (signer & turn & Es & Hin & Hs & _)%seal_ok_inv. exists signer. split; [done|]. split; [done|].
  intros k E. rewrite shifted_out_true in Hs. specialize (Hs k E). pose proof (limit_pos snap).
  rewrite En, u64_small in Hs by lia. lia.
Qed.

Lemma fields_vote conf chain header : verify_fields conf chain header = GOk tt -> exists a, vote_of (Nonce header) = GOk a.
Proof.
  unfold verify_fields. intros E. ginv E. destruct (Epoch conf =? 0); [done|]. ginv E. apply guard_ok in E2.
  unfold vote_of. destruct (bool_decide (Nonce header = nonceAuthVote)); [eauto|]. cbn [orb] in E2. rewrite E2. eauto.
Qed.

(** *** Signing *)

Lemma with_seal_extra sig header :
  zlen sig = extraSeal -> extraSeal <= zlen (Extra header) ->
  exists pre old, Extra header = pre ++ old /\ zlen old = extraSeal /\ Extra (with_seal sig header) = pre ++ sig.
Proof.
  unfold extraSeal, zlen. intros Hs He. set (n := (length (Extra header) - 65)%nat).
  exists (take n (Extra header)), (drop n (Extra header)). rewrite take_drop. split; [done|]. rewrite length_drop. split; [lia|].
  cbn [with_seal Extra]. unfold extraSeal, zlen. replace (Z.to_nat (Z.of_nat (length (Extra header)) - 65)) with n by lia.
  rewrite (take_ge sig) by lia. rewrite (drop_ge (drop n _)) by (rewrite length_drop; lia). by rewrite app_nil_r.
Qed.

Lemma ecrecover_with_seal sig header h pub :
  zlen sig = extraSeal -> extraSeal <= zlen (Extra header) -> sigHash header = GOk h ->
  EcrecoverPub (be_bytes 32 h) sig = Some pub ->
  ecrecover (with_seal sig header) = GOk (BytesToAddress (drop 12 (Keccak256 (drop 1 pub)))).
Proof.
  intros Hs He Eh Ep. destruct (with_seal_extra sig header Hs He) as (pre & old & E1 & Ho & E2).
  assert (forall l, zlen l = extraSeal -> Z.to_nat (zlen (pre ++ l) - 65) = length pre) as Hlen
    by (intros l; unfold extraSeal; rewrite zlen_app; unfold zlen; lia).
  assert (sigHash (with_seal sig header) = GOk h) as Eh'.
  { rewrite <- Eh. unfold sigHash. rewrite E1, E2, !Hlen, !take_app_length by done.
    pose proof (zlen_nonneg pre). unfold extraSeal in *. rewrite !(proj2 (Z.ltb_ge _ _)) by (rewrite zlen_app; lia). done. }
  unfold ecrecover. rewrite E2. pose proof (zlen_nonneg pre). rewrite (proj2 (Z.ltb_ge _ _)) by (rewrite zlen_app; lia). cbn [negb guard gbind].
  rewrite Eh'. cbn [gbind]. change extraSeal with 65. rewrite Hlen, drop_app_length by done. by rewrite Ep.
Qed.
End engine.
End CliqueEngine.
