(* ===== verification/CliqueSeal.v ===== *)
(** * Blocks made by [Clique]

    What [Prepare], [Finalize] and [Seal] put into a header, and that it passes the checks of
    [verifyHeader]; the rules for headers that these checks enforce. *)

From stdpp Require Import sorting.
From S2P Require Import Prelude GoMath World Rlp Types Clique CliqueFacts CliqueChain CliqueEngine.

Module CliqueSeal.
Import Types Clique CliqueFacts CliqueChain CliqueEngine.

Section seal.
Context `{CryptoPrims}.
Variable conf : CliqueConfig.
Hypothesis epoch_pos : 0 < Epoch conf.

(** ** Extra data *)

Lemma signers_bytes_len s : zlen (signers_bytes s) = AddressLength * nsigners s.
Proof.
  unfold signers_bytes. rewrite <- signers_len. unfold AddressLength. induction (signers s) as [|a l IH]; [done|].
  cbn [map concat]. rewrite zlen_app, zlen_cons, IH. unfold zlen. rewrite length_be_bytes. lia.
Qed.

Definition checkpoint_bytes (snap : Snapshot) (number : Z) : list byte :=
  if is_checkpoint conf number then signers_bytes snap else [].

Lemma prepare_extra_parts snap number extra :
  exists vanity, zlen vanity = extraVanity /\
    prepare_extra conf snap number extra = vanity ++ checkpoint_bytes snap number ++ zeros (Z.to_nat extraSeal).
Proof.
  unfold prepare_extra. set (e := if zlen extra <? extraVanity then _ else extra). exists (take (Z.to_nat extraVanity) e).
  split; [|done]. assert (extraVanity <= zlen e) as He.
  { unfold e. destruct (Z.ltb_spec (zlen extra) extraVanity); [|done]. rewrite zlen_app. unfold zlen, zeros in *. rewrite length_replicate. lia. }
  unfold zlen, extraVanity in *. rewrite length_take. lia.
Qed.

Lemma extra_signers_parts header vanity mid sig :
  Extra header = vanity ++ mid ++ sig -> zlen vanity = extraVanity -> zlen sig = extraSeal -> extra_signers header = mid.
Proof.
  intros E Hv Hs. unfold extra_signers. rewrite E, !zlen_app, Hv, Hs.
  replace (Z.to_nat (extraVanity + (zlen mid + extraSeal) - extraSeal - extraVanity)) with (length mid) by (unfold zlen; lia).
  replace (Z.to_nat extraVanity) with (length vanity) by (unfold zlen in Hv; lia). by rewrite drop_app_length, take_app_length.
Qed.

(** ** The vote of a prepared block *)

Lemma meaningful_elem c snap a : a ∈ meaningful c snap -> exists b, e_proposals c !! a = Some b /\ validVote snap a b = true.
Proof.
  unfold meaningful. intros ([a' b] & -> & [Hv Hin]%list_elem_of_filter)%list_elem_of_fmap. exists b.
  split; [by apply elem_of_map_to_list|done].
Qed.

Lemma choose_vote_ok Intn c snap number :
  e_config c = conf -> (forall n, (0 < n -> Intn n < n)%nat) ->
  exists coinbase nonce, choose_vote Intn c snap number = GOk (coinbase, nonce) /\
    (nonce = nonceAuthVote \/ nonce = nonceDropVote) /\
    (is_checkpoint conf number = true -> coinbase = 0 /\ nonce = nonceDropVote).
Proof.
  intros Ec Hi. unfold choose_vote, is_checkpoint. rewrite Ec, (proj2 (Z.eqb_neq (Epoch conf) 0)) by lia.
  destruct (_ mod _ =? 0); cbn [negb]; [eexists _, _; split_and!; [done|by right|done]|].
  destruct (Nat.eqb_spec (length (meaningful c snap)) 0); [eexists _, _; split_and!; [done|by right|done]|].
  destruct (lookup_lt_is_Some_2 (meaningful c snap) (Intn (length (meaningful c snap)))) as [a Ea]; [apply Hi; lia|].
  rewrite Ea. eexists _, _. split_and!; [done| |done]. destruct (default _ _); auto.
Qed.

(** ** The header that is sealed passes the checks on its fields *)

Lemma fields_intro chain header mid vanity sig :
  Time header <= Now chain ->
  (Nonce header = nonceAuthVote \/ Nonce header = nonceDropVote) ->
  (is_checkpoint conf (Uint64 (Number header)) = true -> Coinbase header = 0 /\ Nonce header = nonceDropVote) ->
  Extra header = vanity ++ mid ++ sig -> zlen vanity = extraVanity -> zlen sig = extraSeal ->
  (is_checkpoint conf (Uint64 (Number header)) = false -> mid = []) -> (AddressLength | zlen mid) ->
  MixDigest header = 0 -> UncleHash header = uncleHash ->
  (Difficulty header = diffInTurn \/ Difficulty header = diffNoTurn) ->
  verify_fields conf chain header = GOk tt.
Proof.
  intros Ht Hn Hc He Hv Hs Hm Hd Hx Hu Hdiff. unfold verify_fields. rewrite Z.gtb_ltb, (proj2 (Z.ltb_ge _ _) Ht). cbn [negb guard gbind].
  rewrite (proj2 (Z.eqb_neq (Epoch conf) 0)) by lia. fold (is_checkpoint conf (Uint64 (Number header))).
  assert (zlen (Extra header) = extraVanity + zlen mid + extraSeal) as Hl by (rewrite He, !zlen_app; lia).
  pose proof (zlen_nonneg mid). rewrite Hl. unfold extraVanity, extraSeal in *.
  rewrite !(proj2 (Z.ltb_ge _ _)) by lia. replace (32 + zlen mid + 65 - 32 - 65) with (zlen mid) by lia.
  rewrite (proj2 (Z.mod_divide (zlen mid) AddressLength ltac:(done)) Hd), Z.eqb_refl, Hx, Hu, !Z.eqb_refl.
  assert (bool_decide (Nonce header = nonceAuthVote) || bool_decide (Nonce header = nonceDropVote) = true) as ->.
  { destruct Hn as [->| ->]; [by rewrite bool_decide_true|]. by rewrite (bool_decide_true (nonceDropVote = nonceDropVote)), orb_true_r. }
  assert (negb (Difficulty header =? diffInTurn) && negb (Difficulty header =? diffNoTurn) = false) as ->
    by (by destruct Hdiff as [->| ->]).
  destruct (is_checkpoint conf _) eqn:Ec.
  - destruct (Hc eq_refl) as [-> ->]. by rewrite bool_decide_true, !andb_false_r.
  - by rewrite (Hm eq_refl), !andb_false_r.
Qed.

(** ** Preparing and sealing *)

Variables (g : Header) (tree : Hash -> option Header) (chain : Chain).
Variable arc_add : Hash -> Snapshot -> gmap Hash Snapshot -> gmap Hash Snapshot.
Hypothesis tree_ok : block_tree g tree.
Hypothesis chain_ok : chain_of g tree chain.
Hypothesis genesis_valid : verify_fields conf chain g = GOk tt.
Hypothesis arc_sub : forall k v m, arc_add k v m ⊆ <[k := v]> m.

(** The next block: its number, the headers since the genesis block, their snapshot and its parent. *)
Variables (n : nat) (hash : Hash) (hs : list Header) (snap : Snapshot) (parent : Header).
Hypothesis height : at_height g n hash.
Hypothesis number_range : Z.of_nat n + 1 < 2 ^ 64.
Hypothesis ancestors : ancestry n chain hash [] = GOk hs.
Hypothesis snap_is : apply conf (genesis_snapshot g) hs = GOk snap.
Hypothesis parent_is : GetHeader chain hash (Z.of_nat n) = Some parent.

(** What [Prepare] promises. *)
Record prepared (signer : Address) (before header : Header) : Prop := {
  pr_parent : ParentHash header = hash;
  pr_number : Uint64 (Number header) = Z.of_nat n + 1;
  pr_mix : MixDigest header = 0;
  pr_nonce : Nonce header = nonceAuthVote \/ Nonce header = nonceDropVote;
  pr_checkpoint : is_checkpoint conf (Z.of_nat n + 1) = true -> Coinbase header = 0 /\ Nonce header = nonceDropVote;
  pr_turn : exists turn, inturn snap (Z.of_nat n + 1) signer = GOk turn /\
    Difficulty header = if (turn : bool) then diffInTurn else diffNoTurn;
  pr_extra : exists vanity, zlen vanity = extraVanity /\
    Extra header = vanity ++ checkpoint_bytes snap (Z.of_nat n + 1) ++ zeros (Z.to_nat extraSeal);
  pr_time : Time header = if Int64 (Time parent + Period conf) <? Now chain then Now chain else Time parent + Period conf;
}.

Lemma Int64_id z : 0 <= z < 2 ^ 63 -> Int64 z = z.
Proof.
  intros Hz. unfold Int64, i64. destruct (Z.ltb_spec z 0); [lia|]. rewrite ?Z.abs_eq, ?Z.mod_small by lia.
  by rewrite (proj2 (Z.ltb_lt _ _)) by lia.
Qed.
Lemma u64_prev : u64 (Z.of_nat n + 1 - 1) = Z.of_nat n.
Proof. rewrite u64_small; lia. Qed.

Lemma snapshot_now c :
  consistent g tree conf c ->
  exists c', snapshot arc_add chain (Z.of_nat n) hash [] c = (c', GOk snap) /\ consistent g tree conf c' /\ same_settings c c'.
Proof.
  intros Hc. rewrite <- snap_is. eapply snapshot_ok; try done; [constructor|lia].
Qed.

Lemma Prepare_ok Intn c header :
  consistent g tree conf c -> ParentHash header = hash -> Uint64 (Number header) = Z.of_nat n + 1 ->
  nsigners snap <> 0 -> (forall k, (0 < k -> Intn k < k)%nat) ->
  exists c' header', Prepare arc_add Intn chain header c = (c', GOk header') /\
    consistent g tree conf c' /\ same_settings c c' /\ prepared (e_signer c) header header'.
Proof.
  intros Hc Hp En Hne Hi. unfold Prepare, mbind. rewrite Hp, En, u64_prev.
  destruct (snapshot_now c Hc) as (c1 & -> & Hc1 & Hs1). destruct Hs1 as (E1 & E2 & E3 & E4).
  destruct (choose_vote_ok Intn c1 snap (Z.of_nat n + 1) (cs_conf _ _ _ _ Hc1) Hi) as (cb & nonce & -> & Hn & Hcp).
  cbn [gbind]. rewrite E3, inturn_eq by done. cbn [gbind]. rewrite parent_is, (cs_conf _ _ _ _ Hc1).
  eexists _, _. split_and!; [done..|]. split; cbn; try done; [eexists; split; [by apply inturn_eq|done]|apply prepare_extra_parts].
Qed.

Lemma Seal_ok c header sig h :
  consistent g tree conf c -> ParentHash header = hash -> Uint64 (Number header) = Z.of_nat n + 1 ->
  e_signer c ∈ Signers snap -> must_wait snap (Z.of_nat n + 1) (e_signer c) = false ->
  sigHash header = GOk h -> e_signFn c (e_signer c) (be_bytes 32 h) = Some sig ->
  exists c', Seal arc_add false chain header c = (c', GOk (Some (with_seal sig header))).
Proof.
  intros Hc Hp En Hin Hw Eh Esig. unfold Seal, mbind, lift. rewrite Hp, En, u64_prev, (proj2 (Z.eqb_neq _ _)) by lia. cbn [negb guard].
  destruct (snapshot_now c Hc) as (c1 & -> & Hc1 & (E1 & E2 & E3 & E4)). rewrite E3, E4, bool_decide_true by done. cbn [guard gbind].
  rewrite Hw, Eh. cbn [gbind]. rewrite Esig. eauto.
Qed.

(** The sealed header is valid for every clock that has reached its time. *)
Lemma sealed_valid signer before header sig root txHash receiptHash bloom h pub chain' :
  prepared signer before header -> signer ∈ Signers snap -> shifted_out snap (Z.of_nat n + 1) signer = true ->
  let header' := with_seal sig (Finalize root txHash receiptHash bloom header) in
  sigHash (Finalize root txHash receiptHash bloom header) = GOk h -> zlen sig = extraSeal ->
  EcrecoverPub (be_bytes 32 h) sig = Some pub -> BytesToAddress (drop 12 (Keccak256 (drop 1 pub))) = signer ->
  Time header <= Now chain' -> Uint64 (Number parent) = Z.of_nat n -> header_Hash parent = hash ->
  0 <= Time parent -> 0 <= Period conf -> Time parent + Period conf < 2 ^ 63 -> Now chain < 2 ^ 63 ->
  checks_pass conf chain' header' parent snap.
Proof.
  intros P Hin Hsh header' Eh Hsig Epub Eaddr Ht Enp Ehp T0 P0 T1 N1.
  destruct (pr_extra _ _ _ P) as (vanity & Hv & Ex).
  destruct (with_seal_extra sig (Finalize root txHash receiptHash bloom header)) as (pre & old & E1 & Ho & E2); [done| |].
  { change (extraSeal <= zlen (Extra header)). rewrite Ex, !zlen_app. unfold extraVanity, extraSeal, zlen, zeros in *. rewrite length_replicate. lia. }
  change (Extra (Finalize root txHash receiptHash bloom header)) with (Extra header) in E1. rewrite Ex, app_assoc in E1.
  apply app_inj_2 in E1 as [<- <-]; [|unfold zlen, extraSeal, zeros in *; rewrite length_replicate; lia]. fold header' in E2. rewrite <- app_assoc in E2.
  destruct (pr_turn _ _ _ P) as (turn & Eturn & Hd). split.
  - eapply (fields_intro _ _ (checkpoint_bytes snap (Z.of_nat n + 1)) vanity sig); try done; try apply P;
      change (Number header') with (Number header); rewrite ?(pr_number _ _ _ P); unfold checkpoint_bytes.
    + apply P.
    + by intros ->.
    + destruct (is_checkpoint _ _); [|exists 0; done]. rewrite signers_bytes_len. exists (nsigners snap). lia.
    + change (Difficulty header') with (Difficulty header). rewrite Hd. destruct turn; auto.
  - change (Number header') with (Number header). rewrite (pr_number _ _ _ P), Enp. done.
  - rewrite Ehp. symmetry. apply P.
  - change (Time header') with (Time header). rewrite (pr_time _ _ _ P). unfold Uint64. rewrite (Z.abs_eq (Time parent)), (u64_small (Time parent)), (u64_small (_ + _)) by lia.
    rewrite Int64_id by lia. destruct (Z.ltb_spec (Time parent + Period conf) (Now chain)); rewrite Z.abs_eq, u64_small; lia.
  - change (Number header') with (Number header). rewrite (pr_number _ _ _ P). intros Hcp.
    rewrite (extra_signers_parts _ _ _ _ E2 Hv Hsig). unfold checkpoint_bytes. by rewrite Hcp.
  - apply seal_ok_inv. exists signer, turn. change (Number header') with (Number header). rewrite (pr_number _ _ _ P). split_and!; try done.
    rewrite <- Eaddr. eapply ecrecover_with_seal; try done.
    change (extraSeal <= zlen (Extra header)). rewrite Ex, !zlen_app. unfold extraVanity, extraSeal, zlen, zeros in *. rewrite length_replicate. lia.
Qed.
End seal.

(** ** The rules for headers *)

Section rules.
Context `{CryptoPrims}.

(** The signers in ascending order *)
Definition ascending (snap : Snapshot) (l : list Address) : Prop := StronglySorted Z.lt l /\ forall a, a ∈ l <-> a ∈ Signers snap.
(** None of the blocks in the window of [limit_of snap] blocks that ends at [number] is by the signer. *)
Definition rested (snap : Snapshot) (number : Z) (signer : Address) : Prop :=
  forall k, Recents snap !! k = Some signer -> k + limit_of snap <= number.

(** What a valid header is, in terms of its parent, the snapshot of its parent and the time.  The first
    blocks of a chain are exempt from the rule that a signer waits: see [early_signer_accepted]. *)
Record valid_header (conf : CliqueConfig) (now : Z) (header parent : Header) (snap : Snapshot) : Prop := {
  vh_number : Uint64 (Number header) = Uint64 (Number parent) + 1;
  vh_parent : ParentHash header = header_Hash parent;
  vh_time : Time parent + Period conf <= Time header <= now;
  vh_mix : MixDigest header = 0;
  vh_uncles : UncleHash header = CalcUncleHash [];
  vh_vote : Nonce header = nonceAuthVote \/ Nonce header = nonceDropVote;
  vh_checkpoint : (Epoch conf | Uint64 (Number header)) -> Coinbase header = 0 /\ Nonce header = nonceDropVote;
  vh_extra : exists vanity listed seal, Extra header = vanity ++ concat (map (be_bytes 20) listed) ++ seal /\ zlen vanity = 32 /\ zlen seal = 65 /\
    ((Epoch conf | Uint64 (Number header)) -> ascending snap listed) /\ (~ (Epoch conf | Uint64 (Number header)) -> listed = []);
  vh_seal : exists signer, ecrecover header = GOk signer /\ signer ∈ Signers snap /\
    (limit_of snap <= Uint64 (Number header) -> rested snap (Uint64 (Number header)) signer) /\
    forall l, ascending snap l ->
      (l !! Z.to_nat (Uint64 (Number header) mod zlen l) = Some signer -> Difficulty header = 2) /\
      (l !! Z.to_nat (Uint64 (Number header) mod zlen l) <> Some signer -> Difficulty header = 1);
}.

Lemma sorted_NoDup (l : list Z) : StronglySorted Z.lt l -> NoDup l.
Proof.
  induction 1 as [|x l _ IH Hx]; constructor; [|done]. intros Hin. rewrite Forall_forall in Hx. specialize (Hx x Hin). lia.
Qed.
Lemma sorted_lt (l : list Z) : StronglySorted Z.le l -> NoDup l -> StronglySorted Z.lt l.
Proof.
  induction 1 as [|x l _ IH Hx]; [constructor|]. intros [Hn Hd]%NoDup_cons. constructor; [by apply IH|]. rewrite Forall_forall in *. intros y Hy.
  specialize (Hx y Hy). assert (x <> y) by (by intros ->). lia.
Qed.
Lemma signers_ascending snap : ascending snap (signers snap).
Proof. split; [apply sorted_lt; [apply signers_ok|apply signers_NoDup]|apply signers_elem]. Qed.
Lemma ascending_eq snap l : ascending snap l -> l = signers snap.
Proof.
  intros [Hs He]. apply (StronglySorted_unique Z.le).
  - clear He. induction Hs as [|x l _ IH Hx]; constructor; [done|]. eapply Forall_impl; [exact Hx|]. cbn. lia.
  - apply signers_ok.
  - apply NoDup_Permutation; [by apply sorted_NoDup|apply signers_NoDup|]. intros a. by rewrite He, signers_elem.
Qed.
(** The position of a signer in the list of signers *)
Lemma inturn_spec snap number signer : signer ∈ Signers snap ->
  inturn snap number signer = GOk (bool_decide (signers snap !! Z.to_nat (number mod zlen (signers snap)) = Some signer)).
Proof.
  intros Hin. apply signers_elem, list_elem_of_lookup in Hin as [i Ei]. pose proof (lookup_lt_Some _ _ _ Ei) as Hi. pose proof (signers_len snap) as Hl.
  assert (0 < nsigners snap) as Hn by (rewrite <- Hl; unfold zlen; lia). pose proof (Z.mod_pos_bound number (nsigners snap) Hn).
  rewrite inturn_eq, Hl, (offset_of_lookup _ _ _ (signers_NoDup snap) Ei) by lia. f_equal. apply eq_true_iff_eq. rewrite Z.eqb_eq, bool_decide_eq_true.
  split; [intros ->; by rewrite Nat2Z.id|]. intros E. pose proof (NoDup_lookup _ _ _ _ (signers_NoDup snap) Ei E). lia.
Qed.
(** The comparison of [verifySeal] wraps around below the limit, and then refuses no signer. *)
Lemma shifted_out_rested snap n signer : wf snap n -> 0 <= n -> n + 1 < 2 ^ 64 -> limit_of snap < 2 ^ 63 ->
  shifted_out snap (n + 1) signer = true <-> (limit_of snap <= n + 1 -> rested snap (n + 1) signer).
Proof.
  intros W H0 Hb Hlim. rewrite shifted_out_true. pose proof (limit_pos snap). split.
  - intros Hs Hl k E. specialize (Hs k E). rewrite u64_small in Hs; lia.
  - intros Hr k E. destruct (win_range _ _ _ (wf_r _ _ W) k _ E).
    destruct (decide (limit_of snap <= n + 1)) as [Hl|Hl]; [specialize (Hr Hl k E); rewrite u64_small; lia|rewrite u64_sub_wrap; lia].
Qed.

Variables (conf : CliqueConfig) (chain : Chain).
Hypothesis epoch_pos : 0 < Epoch conf.

Lemma is_checkpoint_divides number : is_checkpoint conf number = true <-> (Epoch conf | number).
Proof. unfold is_checkpoint. rewrite Z.eqb_eq. apply Z.mod_divide. lia. Qed.
Lemma fields_inv header : verify_fields conf chain header = GOk tt ->
  Time header <= Now chain /\ (Nonce header = nonceAuthVote \/ Nonce header = nonceDropVote) /\ MixDigest header = 0 /\ UncleHash header = uncleHash /\
  (is_checkpoint conf (Uint64 (Number header)) = true -> Coinbase header = 0 /\ Nonce header = nonceDropVote) /\
  97 <= zlen (Extra header) /\ (is_checkpoint conf (Uint64 (Number header)) = false -> zlen (Extra header) = 97).
Proof.
  unfold verify_fields. intros E. ginv E. rewrite (proj2 (Z.eqb_neq (Epoch conf) 0)) in E by lia. fold (is_checkpoint conf (Uint64 (Number header))) in E. ginv E.
  repeat match goal with H : guard _ _ = GOk _ |- _ => apply guard_ok in H end. unfold extraVanity, extraSeal in *.
  destruct (is_checkpoint conf _); cbn [andb negb] in *; repeat match goal with H : negb _ = true |- _ => apply negb_true_iff in H | H : negb _ = false |- _ => apply negb_false_iff in H end.
  all: rewrite ?orb_true_iff, ?bool_decide_eq_true, ?Z.eqb_eq, ?Z.ltb_ge in *; split_and!; try done; try lia.
Qed.

(** Vanity, signers and seal *)
Lemma extra_split header : 97 <= zlen (Extra header) ->
  exists vanity seal, Extra header = vanity ++ extra_signers header ++ seal /\ zlen vanity = 32 /\ zlen seal = 65.
Proof.
  intros Hl. unfold extra_signers, extraSeal, extraVanity. set (e := Extra header) in *. set (n := Z.to_nat (zlen e - 65 - 32)).
  exists (take 32 e), (drop n (drop 32 e)). change (Z.to_nat 32) with 32%nat. rewrite take_drop, take_drop. unfold zlen in *. rewrite length_take, !length_drop. split_and!; [done|lia|lia].
Qed.
Lemma seal_rules snap n header : wf snap n -> 0 <= n -> n + 1 < 2 ^ 64 -> limit_of snap < 2 ^ 63 -> Uint64 (Number header) = n + 1 ->
  seal_ok snap header = GOk tt <->
  exists signer, ecrecover header = GOk signer /\ signer ∈ Signers snap /\ (limit_of snap <= n + 1 -> rested snap (n + 1) signer) /\
    forall l, ascending snap l ->
      (l !! Z.to_nat ((n + 1) mod zlen l) = Some signer -> Difficulty header = 2) /\ (l !! Z.to_nat ((n + 1) mod zlen l) <> Some signer -> Difficulty header = 1).
Proof.
  intros W H0 Hb Hl En. rewrite seal_ok_inv, En. split.
  - intros (signer & turn & Es & Hin & Hs & Ht & Hd). exists signer. split_and!; [done..|by apply shifted_out_rested|].
    intros l ->%ascending_eq. rewrite inturn_spec in Ht by done. injection Ht as <-. case_bool_decide; by split.
  - intros (signer & Es & Hin & Hs & Hd). eexists signer, _. split_and!; [done..|by apply shifted_out_rested|by apply inturn_spec|].
    destruct (Hd _ (signers_ascending snap)) as [H1 H2]. case_bool_decide; [by apply H1|by apply H2].
Qed.
(** The checks of [verifyHeader] are the rules. *)
Lemma checks_valid snap n header parent :
  wf snap n -> 0 <= n -> n + 1 < 2 ^ 64 -> limit_of snap < 2 ^ 63 -> Uint64 (Number header) = n + 1 ->
  0 <= Time parent -> 0 <= Period conf -> Time parent + Period conf < 2 ^ 64 -> 0 <= Time header < 2 ^ 64 ->
  checks_pass conf chain header parent snap <-> valid_header conf (Now chain) header parent snap.
Proof.
  intros W H0 Hb Hl En T0 P0 T1 T2. pose proof (seal_rules snap n header W H0 Hb Hl En) as Hseal.
  assert (u64 (Uint64 (Time parent) + Period conf) <= Uint64 (Time header) <-> Time parent + Period conf <= Time header) as Htime.
  { unfold Uint64. rewrite !Z.abs_eq, (u64_small (Time parent)), !u64_small by lia. done. }
  split; intros V.
  - destruct V as [V1 V2 V3 V4 V5 V6]. destruct (fields_inv header V1) as (F1 & F2 & F3 & F4 & F5 & F6 & F7). destruct (extra_split header F6) as (vanity & seal & Ex & Hv & Hs).
    split; try done; [split; [by apply Htime|done]|by rewrite <- is_checkpoint_divides| |rewrite En; by apply Hseal].
    pose proof (is_checkpoint_divides (Uint64 (Number header))) as Hd. destruct (is_checkpoint _ _).
    + exists vanity, (signers snap), seal. rewrite (V5 eq_refl) in Ex. split_and!; try done; [intros _; apply signers_ascending|intros Hn; by destruct Hn; apply Hd].
    + exists vanity, [], seal. specialize (F7 eq_refl). split_and!; try done; [|by intros Hx%Hd]. rewrite Ex, !zlen_app in F7. rewrite Ex. f_equal. destruct (extra_signers header) as [|x l]; [done|]. rewrite zlen_cons in F7. pose proof (zlen_nonneg l). lia.
  - destruct V as [V1 V2 V3 V4 V5 V6 V7 (vanity & listed & seal & Ex & Hv & Hs & Hc & Hn) V9]. rewrite En in V9. rewrite <- is_checkpoint_divides in V7, Hc, Hn.
    destruct V9 as (signer & V9). assert (seal_ok snap header = GOk tt) as Hok by (apply Hseal; by exists signer). split; try done; [|apply Htime, V3|].
    + eapply (fields_intro conf epoch_pos chain header _ vanity seal); try done; [lia|intros Hf; by rewrite Hn by (by rewrite Hf)| |].
      * destruct (is_checkpoint _ _); [rewrite (ascending_eq _ _ (Hc eq_refl)); exists (nsigners snap); fold (signers_bytes snap); rewrite signers_bytes_len; lia|].
        rewrite Hn by done. by exists 0.
      * apply seal_ok_inv in Hok as (? & turn & _ & _ & _ & _ & ->). destruct turn; auto.
    + intros Hf. rewrite (extra_signers_parts _ _ _ _ Ex Hv Hs), (ascending_eq _ _ (Hc Hf)). done.
Qed.
End rules.
End CliqueSeal.
