(* ===== verification/CliqueThms.v ===== *)
(** * Properties of the proof-of-authority engine

    Voting: a header acts on a snapshot as one step of an abstract poll, signers change by
    strict majority only, and signers take turns.  Verification: the caches do not influence
    the result, a header that is accepted can be built on, and an honest signer's blocks are
    accepted. *)

From stdpp Require Import sorting.
From S2P Require Import Prelude GoMath World Rlp Types Demo Clique CliqueFacts CliqueChain CliqueEngine CliqueSeal.

Module CliqueThms.
Import Types Clique CliqueFacts CliqueChain CliqueEngine CliqueSeal.

Section thms.
Context `{CryptoPrims}.
Variable conf : CliqueConfig.
Hypothesis epoch_pos : 0 < Epoch conf.

(** ** Snapshots of a chain *)

Lemma wf_stamp n h s k : wf s k -> wf (stamp n h s) k.
Proof. intros [[] W]. split; [by constructor|exact W]. Qed.

(** The snapshot after the headers [hs] since the genesis block. *)
Definition replay (g : Header) (hs : list Header) : result Snapshot := apply conf (genesis_snapshot g) hs.

Lemma replay_wf g hs s : zlen hs < 2 ^ 64 -> replay g hs = GOk s -> wf s (zlen hs) /\ s_Number s = zlen hs.
Proof.
  intros Hb E. unfold replay in E. assert (numbered 0 hs) as Hn by (eapply (apply_ok_numbered _ (genesis_snapshot g)); done).
  rewrite apply_numbered in E by done. destruct (apply_headers _ _ hs) as [s1| |] eqn:Es; [|done..].
  injection E as <-. pose proof Es as W%(apply_headers_wf conf epoch_pos _ 0); [|by apply wf_new|done..].
  destruct hs; [|split; [by apply wf_stamp|done]]. cbn in Es. injection Es as <-. done.
Qed.

Lemma replay_app g hs hs' s :
  zlen (hs ++ hs') < 2 ^ 64 -> replay g (hs ++ hs') = GOk s -> exists s1, replay g hs = GOk s1 /\ apply conf s1 hs' = GOk s.
Proof.
  intros Hb E. unfold replay in *. assert (numbered 0 (hs ++ hs')) as Hn by (eapply (apply_ok_numbered _ (genesis_snapshot g)); done).
  rewrite apply_app in E by done. by apply gbind_ok in E.
Qed.
Lemma apply_one s h s' :
  apply conf s [h] = GOk s' -> s_Number s + 1 < 2 ^ 64 -> 0 <= s_Number s ->
  Uint64 (Number h) = s_Number s + 1 /\ exists s1, apply_header conf s h = GOk s1 /\ s' = stamp (s_Number s + 1) (header_Hash h) s1.
Proof.
  intros E Hb H0. assert (numbered (s_Number s) [h]) as Hn by (by eapply apply_ok_numbered). split; [apply Hn|].
  rewrite apply_numbered in E by done. cbn [apply_headers] in E. destruct (apply_header conf s h) as [s1| |]; [|done..].
  injection E as <-. by exists s1.
Qed.

Lemma ecrecover_no_panic h : ecrecover h <> GPanic.
Proof.
  unfold ecrecover, sigHash, extraSeal. destruct (Z.ltb_spec (zlen (Extra h)) 65); [done|]. cbn. by destruct (EcrecoverPub _ _).
Qed.

(** C14: Applying a header is one step of the abstract poll, in which each signer has at most one
    ballot per account and a strict majority of the signers flips an account's membership.  It
    succeeds exactly when the header is signed by a signer that signed none of the last
    [limit - 1] blocks and its nonce is a vote, and it keeps the invariant: the tally counts the
    votes, which are by current signers and would change something, and no recent signer
    appears twice. *)
Theorem apply_header_refines (s : Snapshot) (n : Z) (header : Header) :
  wf s n -> 0 <= n -> Uint64 (Number header) = n + 1 ->
  match apply_header conf s header with
  | GOk s' => exists signer, applied conf s n header s' signer
  | GErr _ => ~ exists signer authorize, ecrecover header = GOk signer /\ may_sign s (n + 1) signer /\
                                         vote_of (Nonce header) = GOk authorize
  | GPanic => False
  end.
Proof.
  intros W H0 En. destruct (apply_header conf s header) as [s'|e|] eqn:E.
  - by apply apply_header_applied.
  - intros (signer & auth & Es & Hm & Ev). destruct (apply_header_runs conf epoch_pos s n header signer auth) as [? ?]; try done. congruence.
  - rewrite (apply_header_eq conf epoch_pos _ _ _ En) in E. pose proof (ecrecover_no_panic header).
    destruct (ecrecover header) as [signer| |]; [|done..]. cbn [gbind] in E. destruct (bool_decide (signer ∈ _)); [|done].
    cbn [guard gbind] in E. destruct (negb (is_recent _ _)); [|done]. cbn [guard gbind] in E.
    unfold vote_of in E. by repeat case_bool_decide.
Qed.

(** The accounts with a ballot on [target]. *)
Definition voters (target : Address) (B : gset (Address * Address)) : gset Address :=
  list_to_set (elements (ballots_on target B)).*1.
Lemma voters_size target B : size (voters target B) = size (ballots_on target B).
Proof.
  unfold voters. rewrite size_list_to_set; [by rewrite length_fmap|]. apply NoDup_fmap_2_strong; [|apply NoDup_elements].
  intros [v a] [v' a'] [E _]%elem_of_elements%elem_of_filter [E' _]%elem_of_elements%elem_of_filter E''. cbn in *. congruence.
Qed.
Lemma elem_of_voters target B v : v ∈ voters target B <-> (v, target) ∈ B.
Proof.
  unfold voters. rewrite elem_of_list_to_set, list_elem_of_fmap. split.
  - intros ([v' a] & -> & [E Hin]%elem_of_elements%elem_of_filter). cbn in *. by subst.
  - intros Hin. exists (v, target). split; [done|]. by apply elem_of_elements, elem_of_filter.
Qed.

Lemma vote_step_signers cp signer target auth p a :
  ~ (a ∈ p_signers p <-> a ∈ p_signers (vote_step cp signer target auth p)) ->
  a = target /\ exists B, (size (p_signers p) < 2 * size (ballots_on target B))%nat /\
    forall v, (v, target) ∈ B -> (v, target) ∈ p_ballots p \/
      v = signer /\ auth = negb (bool_decide (target ∈ p_signers p)).
Proof.
  unfold vote_step. set (B := _ ∪ _). unfold decides. cbn [p_signers p_ballots].
  case_bool_decide as Hd; [|tauto]. intros Hne. split.
  - unfold flip in Hne. cbn [p_signers p_ballots] in Hne. destruct (decide (a = target)); [done|].
    exfalso. destruct (decide (target ∈ p_signers p)); apply Hne; cbn; set_solver.
  - exists B. split; [done|]. intros v [Hv|Hv]%elem_of_union.
    + left. apply elem_of_difference in Hv as [Hv _]. destruct cp; set_solver.
    + right. destruct (xorb _ _) eqn:Ex; [|set_solver]. apply elem_of_singleton in Hv. injection Hv as ->.
      split; [done|]. by destruct (bool_decide _), auth.
Qed.

(** C15: The set of signers changes only by a strict majority: if a block changes whether [a] is
    a signer, it votes on [a], and more than half of the signers - the block's own and those
    with an open vote for the change - want it. *)
Theorem signers_change_by_majority (g : Header) (hs : list Header) (header : Header) (s s' : Snapshot) (a : Address) :
  zlen hs + 1 < 2 ^ 64 -> replay g hs = GOk s -> apply conf s [header] = GOk s' ->
  ~ (a ∈ Signers s <-> a ∈ Signers s') ->
  a = Coinbase header /\
  exists V : gset Address, V ⊆ Signers s /\ (size (Signers s) < 2 * size V)%nat /\
    forall v, v ∈ V ->
      ecrecover header = GOk v /\ vote_of (Nonce header) = GOk (negb (bool_decide (a ∈ Signers s))) \/
      exists vote, vote ∈ Votes s /\ v_Signer vote = v /\ v_Address vote = a /\
                   v_Authorize vote = negb (bool_decide (a ∈ Signers s)).
Proof.
  intros Hb Es E Hne. pose proof (zlen_nonneg hs). destruct (replay_wf g hs s) as [W En]; [lia|done|].
  destruct (apply_one s header s') as (Eh & s1 & E1 & ->); [done|lia..|]. rewrite En in *.
  destruct (apply_header_applied conf epoch_pos s _ header s1 W) as (signer & [Esig [Hin _] _ (auth & Ea & Hp) _ _]); [lia|done..|].
  destruct (vote_step_signers (is_checkpoint conf (zlen hs + 1)) signer (Coinbase header) auth (poll_of s) a) as (-> & B & Hsz & HB).
  { by rewrite <- Hp. }
  split; [done|]. exists (voters (Coinbase header) B). rewrite voters_size. destruct (wf_v _ _ W) as [_ Hv Hag _].
  assert (forall v, (v, Coinbase header) ∈ p_ballots (poll_of s) -> exists vote, vote ∈ Votes s /\ ballot vote = (v, Coinbase header)) as Hvote.
  { cbn. intros v (vote & -> & Hvin)%elem_of_list_to_set%list_elem_of_fmap. eauto. }
  split_and!; [|done|].
  - intros v [Hv'| [-> _]]%elem_of_voters%HB; [|done]. apply Hvote in Hv' as (vote & Hvin & [= <- _]).
    rewrite Forall_forall in Hv. by apply Hv.
  - intros v [Hv'| [-> ->]]%elem_of_voters%HB; [right|by left]. apply Hvote in Hv' as (vote & Hvin & [= <- E']).
    exists vote. split_and!; try done. unfold agree in Hag. rewrite Forall_forall in Hag. rewrite (Hag vote Hvin), E'. done.
Qed.

Lemma replay_headers g hs s :
  zlen hs < 2 ^ 64 -> replay g hs = GOk s <->
  exists s', apply_headers conf (genesis_snapshot g) hs = GOk s' /\ numbered 0 hs /\ s = stamped (genesis_snapshot g) hs s'.
Proof.
  intros Hb. unfold replay. split.
  - intros E. assert (numbered 0 hs) as Hn by (by eapply (apply_ok_numbered _ (genesis_snapshot g))).
    rewrite apply_numbered in E by done. destruct (apply_headers _ _ hs) as [s'| |]; [|done..]. injection E as <-. by exists s'.
  - intros (s' & E & Hn & ->). rewrite apply_numbered, E by done. done.
Qed.
Lemma stamped_limit s hs s' : limit_of (stamped s hs s') = limit_of s'.
Proof. by destruct hs. Qed.

Lemma rotate_headers s0 n x mid y s1 s2 s3 :
  wf s0 n -> 0 <= n -> numbered n (x :: mid ++ [y]) ->
  apply_header conf s0 x = GOk s1 -> apply_headers conf s1 mid = GOk s2 -> apply_header conf s2 y = GOk s3 ->
  (forall mid1 s', mid1 `prefix_of` mid -> apply_headers conf s1 mid1 = GOk s' -> zlen mid + 1 < limit_of s') ->
  ecrecover x <> ecrecover y.
Proof.
  intros W H0 [En Hn] Ex Em Ey Hl. apply numbered_app in Hn as [Hnm [Eny _]]. pose proof (zlen_nonneg mid).
  destruct (apply_header_applied conf epoch_pos s0 n x s1) as (signer & Hx); [done..|].
  pose proof (apply_headers_wf conf epoch_pos s1 (n + 1) mid s2 (ap_wf _ _ _ _ _ _ Hx) ltac:(lia) Hnm Em) as W2.
  destruct (apply_header_applied conf epoch_pos s2 _ y s3 W2) as (signer' & Hy); [lia|done..|].
  rewrite (ap_signer _ _ _ _ _ _ Hx), (ap_signer _ _ _ _ _ _ Hy). intros [= <-].
  assert (Recents s2 !! (n + 1) = Some signer) as Hkept.
  { eapply recents_kept; [done|apply Hx|lia|done|done|apply Hx|]. intros mid1 s' Hp Es'. specialize (Hl mid1 s' Hp Es'). lia. }
  apply (ap_may _ _ _ _ _ _ Hy) in Hkept. specialize (Hl mid s2 (reflexivity _) Em). lia.
Qed.

(** C16: Signers rotate: in every chain that can be applied, two blocks that are [d] apart have
    different signers, if the limit - half the number of signers, plus one - is above [d] from
    the first of them on until the second is applied. *)
Theorem signers_rotate (g : Header) (pre mid : list Header) (x y : Header) (s : Snapshot) :
  zlen (pre ++ x :: mid ++ [y]) < 2 ^ 64 -> replay g (pre ++ x :: mid ++ [y]) = GOk s ->
  (forall mid1 s', mid1 `prefix_of` mid -> replay g (pre ++ x :: mid1) = GOk s' -> zlen mid + 1 < limit_of s') ->
  ecrecover x <> ecrecover y.
Proof.
  intros Hb (s' & E & Hn & _)%replay_headers Hl; [|done]. rewrite zlen_app, zlen_cons, zlen_app in Hb.
  change (zlen [y]) with 1 in Hb. pose proof (zlen_nonneg pre). pose proof (zlen_nonneg mid).
  rewrite apply_headers_app in E. apply gbind_ok in E as (s0 & E0 & E). cbn [apply_headers] in E. apply gbind_ok in E as (s1 & Ex & E).
  rewrite apply_headers_app in E. apply gbind_ok in E as (s2 & Em & E). cbn [apply_headers] in E. apply gbind_ok in E as (s3 & Ey & _).
  apply numbered_app in Hn as [Hnp Hn]. rewrite Z.add_0_l in Hn.
  assert (wf s0 (0 + zlen pre)) as W0 by (eapply apply_headers_wf; try done; by apply wf_new).
  eapply rotate_headers; try done.
  intros mid1 t [suf ->] Et. rewrite <- (stamped_limit (genesis_snapshot g) (pre ++ x :: mid1)). rewrite zlen_app in *. pose proof (zlen_nonneg suf).
  apply (Hl mid1); [by eexists|]. apply replay_headers; [rewrite zlen_app, zlen_cons; lia|]. exists t. split_and!; [|apply numbered_app|done].
  - rewrite apply_headers_app, E0. cbn. by rewrite Ex.
  - split; [done|]. destruct Hn as [Hx Hn]. rewrite <- app_assoc in Hn. apply numbered_app in Hn as [Hn _]. done.
Qed.

(** The list of signers is the sorted list of the set, in whatever order the map of signers
    is iterated; and at every height exactly one signer is in turn. *)
Theorem one_in_turn (s : Snapshot) (number : Z) (order : list Address) :
  order ≡ₚ elements (Signers s) -> Signers s <> ∅ ->
  signers_in order = signers s /\ signers s ≡ₚ order /\ StronglySorted Z.le (signers s) /\
  exists a, a ∈ Signers s /\ forall b, b ∈ Signers s -> inturn s number b = GOk (bool_decide (b = a)).
Proof.
  intros Ho Hne. destruct (signers_ok s) as [HP HS]. split_and!; [by apply signers_in_perm|by rewrite HP, Ho|done|].
  assert (0 < nsigners s) as Hn.
  { unfold nsigners. assert (size (Signers s) <> 0)%nat; [|lia]. rewrite size_non_empty_iff. by intros Hs%leibniz_equiv. }
  pose proof (Z.mod_pos_bound number (nsigners s) Hn) as Hm. pose proof (signers_len s) as Hl.
  destruct (lookup_lt_is_Some_2 (signers s) (Z.to_nat (number mod nsigners s))) as [a Ea]; [unfold zlen in Hl; lia|].
  exists a. split; [by eapply signers_elem, list_elem_of_lookup_2|]. intros b Hb. rewrite inturn_eq by lia. f_equal.
  apply signers_elem, list_elem_of_lookup in Hb as [i Ei]. rewrite (offset_of_lookup _ _ _ (signers_NoDup s) Ei).
  apply eq_true_iff_eq. rewrite Z.eqb_eq, bool_decide_eq_true. split; [intros E|intros ->].
  - rewrite E, Nat2Z.id in Ea. congruence.
  - pose proof (NoDup_lookup _ _ _ _ (signers_NoDup s) Ei Ea). lia.
Qed.

(** While the chain is shorter than the limit, [verifySeal] accepts a signer that signed
    recently: [number-limit] wraps around, so that no recent block is above it.  Such a header
    cannot be applied, so that its children are rejected; [Seal] has the missing guard. *)
Theorem early_signer_accepted (s : Snapshot) (n k : Z) (header : Header) (signer : Address) (turn : bool) :
  wf s n -> 0 <= n -> n + 1 < limit_of s -> limit_of s < 2 ^ 63 -> Uint64 (Number header) = n + 1 ->
  ecrecover header = GOk signer -> signer ∈ Signers s -> Recents s !! k = Some signer ->
  inturn s (n + 1) signer = GOk turn -> Difficulty header = (if turn then diffInTurn else diffNoTurn) ->
  seal_ok s header = GOk tt /\ apply_header conf s header = GErr errUnauthorized /\ must_wait s (n + 1) signer = true.
Proof.
  intros W H0 Hl Hb En Es Hin Hk Ht Hd. split_and!.
  - apply seal_ok_inv. exists signer, turn. rewrite En. split_and!; try done. apply shifted_out_true. intros k' E.
    destruct (win_range _ _ _ (wf_r _ _ W) k' _ E). unfold u64. rewrite <- (Z.mod_add _ 1), Z.mod_small; lia.
  - rewrite (apply_header_eq conf epoch_pos _ _ _ En), Es. cbn [gbind]. rewrite bool_decide_true by done. cbn [guard gbind].
    destruct (is_recent (shift_recents s (n + 1)) signer) eqn:E; [done|]. rewrite is_recent_false in E. destruct (E k).
    apply shift_lookup. split; [done|lia].
  - unfold must_wait. apply existsb_exists. exists (k, signer). split; [by apply list_elem_of_In, elem_of_map_to_list|]. cbn.
    rewrite Z.eqb_refl, (proj2 (Z.ltb_lt _ _) Hl). done.
Qed.

(** A lone signer can vote itself out; [Prepare] on top of that block divides by the number
    of signers, zero, and panics. *)
Theorem lone_signer_removed (s : Snapshot) (n : Z) (header : Header) (a : Address) :
  wf s n -> 0 <= n -> Uint64 (Number header) = n + 1 -> Signers s = {[a]} -> may_sign s (n + 1) a ->
  ecrecover header = GOk a -> Coinbase header = a -> Nonce header = nonceDropVote ->
  exists s', apply_header conf s header = GOk s' /\ Signers s' = ∅ /\
    forall arc_add Intn chain next c c',
      snapshot arc_add chain (u64 (Uint64 (Number next) - 1)) (ParentHash next) [] c = (c', GOk s') ->
      Prepare arc_add Intn chain next c = (c', GPanic).
Proof.
  intros W H0 En ES Hm Es Ec Enonce. assert (vote_of (Nonce header) = GOk false) as Ev by by rewrite Enonce.
  destruct (apply_header_runs conf epoch_pos s n header a false W En Es Hm Ev) as [s' E]. exists s'.
  destruct (apply_header_applied conf epoch_pos s n header s' W H0 En E) as (a' & [Es' _ _ (auth & Ev' & Hp) _ _]).
  rewrite Es in Es'. injection Es' as <-. rewrite Ev in Ev'. injection Ev' as <-. rewrite Ec in Hp.
  assert (Signers s' = ∅) as Hempty.
  { change (p_signers (poll_of s') = ∅). rewrite Hp. unfold vote_step. set (B := _ ∪ _). cbn [p_signers poll_of].
    unfold decides, flip. cbn [p_signers p_ballots]. rewrite ES, size_singleton, decide_True by set_solver.
    assert (size (ballots_on a B) <> 0)%nat as Hsz.
    { apply size_non_empty_iff. intros Hz. assert ((a, a) ∈ ballots_on a B) as Hx; [|set_solver].
      apply elem_of_filter. split; [done|]. unfold B. cbn. rewrite ES, bool_decide_true by set_solver. cbn. set_solver. }
    rewrite bool_decide_true by lia. cbn. set_solver. }
  split_and!; [done..|]. intros arc_add Intn chain next c c' Esnap. unfold Prepare, mbind. rewrite Esnap. f_equal.
  assert (forall b k, inturn s' k b = GPanic) as Hpanic by (intros b k; unfold inturn; by rewrite signers_len, (proj2 (Z.eqb_eq _ _)) by (unfold nsigners; by rewrite Hempty)).
  unfold choose_vote. destruct (_ =? 0); [done|]. destruct (negb _); [|cbn; by rewrite Hpanic].
  destruct (_ =? 0)%nat; [cbn; by rewrite Hpanic|]. destruct (_ !! _); cbn; by rewrite ?Hpanic.
Qed.

(** ** The engine *)

Section chain.
Variables (g : Header) (tree : Hash -> option Header) (chain : Chain).
Variable arc_add : Hash -> Snapshot -> gmap Hash Snapshot -> gmap Hash Snapshot.
Hypothesis tree_ok : block_tree g tree.
Hypothesis chain_ok : chain_of g tree chain.
Hypothesis genesis_valid : verify_fields conf chain g = GOk tt.
Hypothesis arc_sub : forall k v m, arc_add k v m ⊆ <[k := v]> m.

(** C17: The caches do not matter: whatever correct snapshots are in memory and on disk, and
    whatever the memory evicts, [snapshot] returns what applying all headers since the genesis
    block gives, errors included, and leaves correct snapshots behind. *)
Theorem snapshot_correct (n : nat) (c : Engine) (hash : Hash) (parents hs : list Header) :
  consistent g tree conf c -> known_parents tree parents -> at_height g n hash -> Z.of_nat n < 2 ^ 64 ->
  ancestry n chain hash parents = GOk hs ->
  exists c', snapshot arc_add chain (Z.of_nat n) hash parents c = (c', replay g hs) /\ consistent g tree conf c'.
Proof.
  intros Hc Hk Ha Hb Hanc. unfold replay.
  destruct (snapshot_ok g tree conf epoch_pos tree_ok chain chain_ok genesis_valid arc_add arc_sub n c hash parents hs)
    as (c' & E & Hc' & _); eauto.
Qed.

(** Once the chain is as long as the limit, a header that passes the checks can be applied. *)
Lemma accepted_applies (n : Z) (header parent : Header) (hs : list Header) (snap : Snapshot) :
  zlen hs = n -> n + 1 < 2 ^ 64 -> Uint64 (Number header) = n + 1 -> numbered 0 hs -> replay g hs = GOk snap -> wf snap n ->
  limit_of snap <= n + 1 -> checks_pass conf chain header parent snap -> exists snap', replay g (hs ++ [header]) = GOk snap'.
Proof.
  intros Hz Hb En Hn Es W Hl V. pose proof (zlen_nonneg hs).
  destruct (seal_may_sign snap n header) as (signer & Esig & Hm); [done|lia|done..|apply V|].
  destruct (fields_vote _ _ _ (cp_fields _ _ _ _ _ V)) as [auth Ea].
  destruct (apply_header_runs conf epoch_pos snap _ header signer auth W) as [s' Es']; [done..|].
  apply replay_headers in Es as (s0 & E0 & _ & ->); [|lia]. exists (stamped (genesis_snapshot g) (hs ++ [header]) (stamp (s_Number s0) (s_Hash s0) s')).
  apply replay_headers; [rewrite zlen_app; change (zlen [header]) with 1; lia|]. eexists. split_and!; [|apply numbered_app; cbn; split_and!; try done; lia|done].
  rewrite apply_headers_app, E0. cbn [gbind apply_headers].
  assert (s0 = stamp (s_Number s0) (s_Hash s0) (stamped (genesis_snapshot g) hs s0)) as Est by (by destruct hs, s0).
  rewrite Est at 1. rewrite stamp_apply_header, Es' by done. done.
Qed.

(** C18: A header is accepted exactly when it follows the rules ([valid_header]): it is the successor of
    its parent, the period after it and not in the future; it has no mix digest and no uncles; its nonce
    is a vote, and at a checkpoint no vote to add and no beneficiary; its extra data is the vanity, at a
    checkpoint the signers in ascending order, and the seal; and the seal is by one of the signers its
    ancestors voted for, that signed none of the last [limit - 1] blocks, with difficulty 2 if the block
    number is its place among the signers and 1 otherwise.  The first [limit - 1] blocks are exempt from
    the rule that a signer waits.  From there on, a header that is accepted can be applied, so that the
    chain can be continued from it.  Times fit 64 bits and there are fewer than 2^63 signers. *)
Theorem verifyHeader_correct (n : nat) (c : Engine) (header parent : Header) (parents hs : list Header) :
  consistent g tree conf c -> known_parents tree parents -> at_height g n (ParentHash header) ->
  Z.of_nat n + 1 < 2 ^ 64 -> Uint64 (Number header) = Z.of_nat n + 1 ->
  ancestry n chain (ParentHash header) parents = GOk hs -> parent_of chain header parents = Some parent ->
  0 <= Time parent -> 0 <= Period conf -> Time parent + Period conf < 2 ^ 64 -> 0 <= Time header < 2 ^ 64 ->
  (forall snap, replay g hs = GOk snap -> limit_of snap < 2 ^ 63) ->
  exists c' r, verifyHeader arc_add chain header parents c = (c', r) /\ consistent g tree conf c' /\
    (r = GOk tt <-> exists snap, replay g hs = GOk snap /\ valid_header conf (Now chain) header parent snap) /\
    (r = GOk tt -> forall snap, replay g hs = GOk snap -> limit_of snap <= Z.of_nat n + 1 ->
     exists snap', replay g (hs ++ [header]) = GOk snap').
Proof.
  intros Hc Hk Ha Hb En Hanc Hp T0 P0 T1 T2 Hlim.
  destruct (verifyHeader_ok g tree conf epoch_pos tree_ok chain chain_ok genesis_valid arc_add arc_sub n c header parents parent hs)
    as (c' & r & E & Hc' & Hr); [done..|]. exists c', r.
  pose proof (ancestry_path g tree chain chain_ok _ _ _ _ Hk Hanc) as [Hz Hn]%path_numbered.
  assert (forall snap, replay g hs = GOk snap -> wf snap (Z.of_nat n)) as Hwf by (intros snap Es; rewrite <- Hz; by apply (replay_wf g hs snap); [lia|]).
  assert (forall snap, replay g hs = GOk snap -> checks_pass conf chain header parent snap <-> valid_header conf (Now chain) header parent snap) as Hv
    by (intros snap Es; apply (checks_valid conf chain epoch_pos snap (Z.of_nat n)); auto with lia).
  split_and!; [done..| |].
  - rewrite Hr. split; intros (snap & Es & V); exists snap; (split; [done|by apply Hv]).
  - intros (snap & Es & V)%Hr snap' Es' Hl. unfold replay in Es'. rewrite Es in Es'. injection Es' as <-. by eapply accepted_applies; eauto.
Qed.

(** The same chain at another time. *)
Definition with_clock (now : Z) : Chain :=
  mkChain (CurrentHeader chain) (GetHeader chain) (GetHeaderByNumber chain) (GetHeaderByHash chain) now.

Lemma fields_clock now header :
  verify_fields conf chain header = GOk tt -> Now chain <= now -> verify_fields conf (with_clock now) header = GOk tt.
Proof.
  unfold verify_fields. cbn [Now with_clock]. intros E Hn. apply gbind_ok in E as ([] & Ht & E).
  apply guard_ok, negb_true_iff in Ht. rewrite Z.gtb_ltb in Ht. apply Z.ltb_ge in Ht.
  rewrite Z.gtb_ltb, (proj2 (Z.ltb_ge _ _)) by lia. exact E.
Qed.
Lemma ancestry_clock now n hash parents : ancestry n (with_clock now) hash parents = ancestry n chain hash parents.
Proof.
  revert hash parents. induction n as [|n IH]; intros hash parents; [done|]. cbn [ancestry].
  change (gather (with_clock now)) with (gather chain). destruct (gather chain _ hash parents) as [[h ps]| |]; [|done..].
  cbn [gbind]. by rewrite IH.
Qed.

(** C19: The blocks of an honest signer are accepted: a signer that did not sign recently can
    prepare and seal a block on top of any block of the chain, and every node accepts it as soon
    as its clock has reached the block's time, whatever its caches hold. *)
Theorem sealed_block_accepted (n : nat) (c : Engine) (header parent : Header) (hs : list Header) (snap : Snapshot)
    (Intn : nat -> nat) (root txHash receiptHash : Hash) (bloom : list byte) :
  consistent g tree conf c -> at_height g n (ParentHash header) -> Z.of_nat n + 1 < 2 ^ 64 ->
  Uint64 (Number header) = Z.of_nat n + 1 -> ancestry n chain (ParentHash header) [] = GOk hs ->
  GetHeader chain (ParentHash header) (Z.of_nat n) = Some parent -> replay g hs = GOk snap ->
  0 <= Time parent -> 0 <= Period conf -> Time parent + Period conf < 2 ^ 63 -> Now chain < 2 ^ 63 ->
  may_sign snap (Z.of_nat n + 1) (e_signer c) -> (forall k, (0 < k -> Intn k < k)%nat) ->
  (forall msg, exists sig pub, e_signFn c (e_signer c) msg = Some sig /\ zlen sig = extraSeal /\
     EcrecoverPub msg sig = Some pub /\ BytesToAddress (drop 12 (Keccak256 (drop 1 pub))) = e_signer c) ->
  exists c1 h1 c2 h2,
    Prepare arc_add Intn chain header c = (c1, GOk h1) /\
    Seal arc_add false chain (Finalize root txHash receiptHash bloom h1) c1 = (c2, GOk (Some h2)) /\
    forall now c', Now chain <= now -> Time h2 <= now -> consistent g tree conf c' ->
      exists c'', verifyHeader arc_add (with_clock now) h2 [] c' = (c'', GOk tt).
Proof.
  intros Hc Ha Hb En Hanc Hp Es T0 P0 T1 N1 [Hin Hrec] Hi Hsig.
  destruct (co_get _ _ _ chain_ok _ _ _ Hp) as [Etp Enp]. apply (bt_hash _ _ tree_ok) in Etp as Ehp.
  assert (nsigners snap <> 0) as Hne.
  { unfold nsigners. assert (size (Signers snap) <> 0)%nat; [|lia]. rewrite size_non_empty_iff. set_solver. }
  pose proof (ancestry_path g tree chain chain_ok _ _ _ _ ltac:(constructor) Hanc) as [Hz _]%path_numbered.
  destruct (replay_wf g hs snap) as [W _]; [lia|done|]. rewrite Hz in W. pose proof (limit_pos snap) as Hlim.
  assert (forall k, Recents snap !! k = Some (e_signer c) -> limit_of snap <= Z.of_nat n + 1 /\ k <= u64 (Z.of_nat n + 1 - limit_of snap)) as Hk.
  { intros k E. specialize (Hrec k E). destruct (win_range _ _ _ (wf_r _ _ W) k _ E). split; [lia|]. rewrite u64_small; lia. }
  destruct (Prepare_ok conf epoch_pos g tree chain arc_add tree_ok chain_ok genesis_valid arc_sub n (ParentHash header) hs snap parent Ha Hb Hanc Es Hp Intn c header)
    as (c1 & h1 & E1 & Hc1 & (_ & _ & S1 & S2) & P); [done..|].
  set (h1' := Finalize root txHash receiptHash bloom h1).
  assert (exists h, sigHash h1' = GOk h) as [h Eh].
  { unfold sigHash. destruct (pr_extra _ _ _ _ _ _ _ _ _ P) as (vanity & Hv & Ex). change (Extra h1') with (Extra h1).
    rewrite (proj2 (Z.ltb_ge _ _)); [eauto|]. rewrite Ex, !zlen_app. unfold zlen at 3. rewrite length_zeros. unfold extraVanity, extraSeal in *.
    pose proof (zlen_nonneg (checkpoint_bytes conf snap (Z.of_nat n + 1))). lia. }
  destruct (Hsig (be_bytes 32 h)) as (sig & pub & Esig & Hls & Epub & Eaddr).
  destruct (Seal_ok conf epoch_pos g tree chain arc_add tree_ok chain_ok genesis_valid arc_sub n (ParentHash header) hs snap Ha Hb Hanc Es c1 h1' sig h)
    as [c2 E2]; [done|apply P|apply P|by rewrite S1|rewrite S1; by apply must_wait_false|done|by rewrite S1, S2|].
  exists c1, h1, c2, (with_seal sig h1'). split_and!; [done..|]. intros now c' Hnow Ht Hc'.
  assert (checks_pass conf (with_clock now) (with_seal sig h1') parent snap) as V.
  { eapply (sealed_valid conf epoch_pos chain n (ParentHash header) snap parent); try done. apply shifted_out_true. intros k E. by apply Hk. }
  destruct (verifyHeader_ok g tree conf epoch_pos tree_ok (with_clock now) ltac:(by destruct chain_ok) (fields_clock now g genesis_valid Hnow)
              arc_add arc_sub n c' (with_seal sig h1') [] parent hs) as (c'' & r & E & _ & Hr); try done.
  - constructor.
  - change (ParentHash (with_seal sig h1')) with (ParentHash h1). by rewrite (pr_parent _ _ _ _ _ _ _ _ _ P).
  - apply P.
  - change (ParentHash (with_seal sig h1')) with (ParentHash h1). by rewrite (pr_parent _ _ _ _ _ _ _ _ _ P), ancestry_clock.
  - unfold parent_of. cbn [last]. change (ParentHash (with_seal sig h1')) with (ParentHash h1). change (Number (with_seal sig h1')) with (Number h1).
    rewrite (pr_parent _ _ _ _ _ _ _ _ _ P), (pr_number _ _ _ _ _ _ _ _ _ P), u64_prev by done. done.
  - exists c''. rewrite E. f_equal. apply Hr. eauto.
Qed.
End chain.
End thms.

(** ** Examples: three signers, of which two vote for a fourth *)

#[local] Existing Instance mix_prims.

Definition demo_conf : CliqueConfig := mkConfig 15 30000.
Definition demo_seal (b : Z) : list byte := byte_of_Z b :: zeros 64.
Definition demo_addr (b : Z) : Address := BytesToAddress (drop 12 (Keccak256 (replicate 64 (byte_of_Z b)))).
Definition demo_genesis (signers : list Z) : Header :=
  mkHeader 0 uncleHash 0 0 0 0 [] 1 0 5000 0 0
    (zeros 32 ++ concat (map (fun b => be_bytes 20 (demo_addr b)) signers) ++ zeros 65) 0 nonceDropVote.
(** A block on [parent], whose snapshot is [s], signed by [b]. *)
Definition demo_block (parent : Header) (s : Snapshot) (b : Z) (target : Address) (nonce : BlockNonce) : Header :=
  let number := Number parent + 1 in
  mkHeader (header_Hash parent) uncleHash target 0 0 0 []
    (match inturn s number (demo_addr b) with GOk true => 2 | _ => 1 end) number 5000 0 (15 * number)
    (zeros 32 ++ demo_seal b) 0 nonce.
Definition demo_apply (s : Snapshot) (h : Header) : Snapshot :=
  match apply demo_conf s [h] with GOk s' => s' | _ => s end.

Definition demo_g : Header := demo_genesis [1; 2; 3].
Definition demo_s0 : Snapshot := genesis_snapshot demo_g.
Definition demo_b1 : Header := demo_block demo_g demo_s0 1 (demo_addr 4) nonceAuthVote.
Definition demo_s1 : Snapshot := demo_apply demo_s0 demo_b1.
Definition demo_b2 : Header := demo_block demo_b1 demo_s1 2 (demo_addr 4) nonceAuthVote.
Definition demo_s2 : Snapshot := demo_apply demo_s1 demo_b2.

Lemma demo_epoch : 0 < Epoch demo_conf.
Proof. done. Qed.
Lemma demo_replay0 : replay demo_conf demo_g [] = GOk demo_s0.
Proof. reflexivity. Qed.
Lemma demo_replay1 : replay demo_conf demo_g [demo_b1] = GOk demo_s1.
Proof. vm_compute. reflexivity. Qed.
Lemma demo_replay2 : replay demo_conf demo_g [demo_b1; demo_b2] = GOk demo_s2.
Proof. vm_compute. reflexivity. Qed.
Lemma demo_apply2 : apply demo_conf demo_s1 [demo_b2] = GOk demo_s2.
Proof. vm_compute. reflexivity. Qed.
Lemma demo_wf0 : wf demo_s0 0.
Proof. by apply wf_new. Qed.
Lemma demo_change : demo_addr 4 ∉ Signers demo_s1 /\ demo_addr 4 ∈ Signers demo_s2.
Proof. apply (bool_decide_unpack _). vm_compute. exact I. Qed.
Lemma demo_numbers : Uint64 (Number demo_b1) = 1 /\ Uint64 (Number demo_b2) = 2.
Proof. by vm_compute. Qed.
Lemma demo_number0 : Uint64 (Number demo_g) = 0.
Proof. by vm_compute. Qed.
Lemma demo_links : ParentHash demo_b1 = header_Hash demo_g /\ ParentHash demo_b2 = header_Hash demo_b1.
Proof. split; reflexivity. Qed.
Lemma demo_limit : limit_of demo_s1 = 2.
Proof. by vm_compute. Qed.
Lemma demo_signers_nonempty : Signers demo_s0 <> ∅.
Proof. apply (bool_decide_unpack _). vm_compute. exact I. Qed.

#[local] Opaque demo_g demo_b1 demo_b2 demo_s0 demo_s1 demo_s2 header_Hash.

Lemma apply_header_refines_witness :
  match apply_header demo_conf demo_s0 demo_b1 with
  | GOk s' => exists signer, applied demo_conf demo_s0 0 demo_b1 s' signer
  | GErr _ => ~ exists signer authorize, ecrecover demo_b1 = GOk signer /\ may_sign demo_s0 (0 + 1) signer /\
                                         vote_of (Nonce demo_b1) = GOk authorize
  | GPanic => False
  end.
Proof. apply (apply_header_refines demo_conf demo_epoch demo_s0 0 demo_b1 demo_wf0); [lia|apply demo_numbers]. Defined.

Lemma signers_change_by_majority_witness :
  demo_addr 4 = Coinbase demo_b2 /\
  exists V : gset Address, V ⊆ Signers demo_s1 /\ (size (Signers demo_s1) < 2 * size V)%nat /\
    forall v, v ∈ V ->
      ecrecover demo_b2 = GOk v /\ vote_of (Nonce demo_b2) = GOk (negb (bool_decide (demo_addr 4 ∈ Signers demo_s1))) \/
      exists vote, vote ∈ Votes demo_s1 /\ v_Signer vote = v /\ v_Address vote = demo_addr 4 /\
                   v_Authorize vote = negb (bool_decide (demo_addr 4 ∈ Signers demo_s1)).
Proof.
  apply (signers_change_by_majority demo_conf demo_epoch demo_g [demo_b1] demo_b2 demo_s1 demo_s2 (demo_addr 4));
    [done|exact demo_replay1|exact demo_apply2|]. intros Hx. apply (proj1 demo_change), Hx, demo_change.
Defined.

Lemma signers_rotate_witness : ecrecover demo_b1 <> ecrecover demo_b2.
Proof.
  apply (signers_rotate demo_conf demo_epoch demo_g [] [] demo_b1 demo_b2 demo_s2); [done|exact demo_replay2|].
  intros mid1 s' ->%prefix_nil_inv E. assert (s' = demo_s1) as ->; [|by rewrite demo_limit].
  exact (GOk_inj _ _ (eq_trans (eq_sym E) demo_replay1)).
Defined.

Lemma one_in_turn_witness :
  signers_in (rev (elements (Signers demo_s0))) = signers demo_s0 /\ signers demo_s0 ≡ₚ rev (elements (Signers demo_s0)) /\
  StronglySorted Z.le (signers demo_s0) /\
  exists a, a ∈ Signers demo_s0 /\ forall b, b ∈ Signers demo_s0 -> inturn demo_s0 7 b = GOk (bool_decide (b = a)).
Proof.
  apply (one_in_turn demo_s0 7 (rev (elements (Signers demo_s0)))); [|exact demo_signers_nonempty].
  symmetry. apply Permutation_rev.
Defined.

(** The chain of these blocks. *)
Definition demo_tree (h : Hash) : option Header :=
  if h =? header_Hash demo_g then Some demo_g
  else if h =? header_Hash demo_b1 then Some demo_b1
  else if h =? header_Hash demo_b2 then Some demo_b2 else None.
Definition demo_chain : Chain :=
  mkChain (Some demo_b2)
    (fun h n => match demo_tree h with Some hd => if Uint64 (Number hd) =? n then Some hd else None | None => None end)
    (fun n => if n =? 0 then Some demo_g else None) demo_tree 100.
Definition demo_arc (k : Hash) (v : Snapshot) (m : gmap Hash Snapshot) : gmap Hash Snapshot := <[k := v]> m.
(** The snapshot of the first block is in memory, that of the genesis block on disk. *)
Definition demo_engine : Engine :=
  mkEngine demo_conf {[header_Hash demo_b1 := demo_s1]} {[header_Hash demo_g := demo_s0]}
    {[demo_addr 5 := true]} (demo_addr 3) (fun _ _ => Some (demo_seal 3)).

Lemma demo_hashes : header_Hash demo_b1 <> header_Hash demo_g /\ header_Hash demo_b2 <> header_Hash demo_g /\
  header_Hash demo_b2 <> header_Hash demo_b1.
Proof. apply (bool_decide_unpack _). vm_compute. exact I. Qed.
Lemma demo_tree_cases h hd :
  demo_tree h = Some hd -> h = header_Hash hd /\ (hd = demo_g \/ hd = demo_b1 \/ hd = demo_b2).
Proof.
  unfold demo_tree. destruct (Z.eqb_spec h (header_Hash demo_g)) as [->|_]; [intros <-%(inj Some); auto|].
  destruct (Z.eqb_spec h (header_Hash demo_b1)) as [->|_]; [intros <-%(inj Some); auto|].
  destruct (Z.eqb_spec h (header_Hash demo_b2)) as [->|_]; [intros <-%(inj Some); auto|done].
Qed.
Lemma demo_tree_ok : block_tree demo_g demo_tree.
Proof.
  split.
  - by intros h hd [-> _]%demo_tree_cases.
  - intros h hd [_ [-> | [-> | ->]]]%demo_tree_cases E.
    + exfalso. rewrite demo_number0 in E. discriminate E.
    + exact (proj1 demo_links).
    + exfalso. rewrite (proj2 demo_numbers) in E. discriminate E.
  - intros hd [E [-> | [-> | ->]]]%demo_tree_cases; [exact demo_number0|exfalso..].
    + exact (proj1 demo_hashes (eq_sym E)).
    + exact (proj1 (proj2 demo_hashes) (eq_sym E)).
Qed.
Lemma demo_chain_ok : chain_of demo_g demo_tree demo_chain.
Proof.
  split; [|done]. intros h n hd. cbn [GetHeader demo_chain]. destruct (demo_tree h) as [x|]; [|done].
  destruct (Z.eqb_spec (Uint64 (Number x)) n); [|done]. by intros <-%(inj Some).
Qed.
Lemma demo_genesis_valid : verify_fields demo_conf demo_chain demo_g = GOk tt.
Proof. by vm_compute. Qed.
Lemma demo_arc_sub k v m : demo_arc k v m ⊆ <[k := v]> m.
Proof. done. Qed.
Lemma demo_path1 : path demo_tree 1 (header_Hash demo_b1) = Some [demo_b1].
Proof.
  apply path_S. exists demo_b1, []. split_and!; [|exact (proj1 demo_numbers)|reflexivity..]. unfold demo_tree.
  by rewrite (proj2 (Z.eqb_neq _ _) (proj1 demo_hashes)), Z.eqb_refl.
Qed.
Lemma demo_consistent : consistent demo_g demo_tree demo_conf demo_engine.
Proof.
  split; [reflexivity| |]; cbn [e_recents e_db demo_engine]; intros h s E; apply lookup_singleton_Some in E as [<- <-].
  - exists 1%nat, [demo_b1]. split_and!; [exact demo_path1|intros [=]|lia|exact demo_replay1].
  - exists O, []. split_and!; [reflexivity|intros _; reflexivity|lia|exact demo_replay0].
Qed.
Lemma demo_ancestry2 : ancestry 2 demo_chain (header_Hash demo_b2) [demo_b2] = GOk [demo_b1; demo_b2].
Proof. vm_compute. reflexivity. Qed.
Lemma demo_ancestry2' : ancestry 2 demo_chain (header_Hash demo_b2) [] = GOk [demo_b1; demo_b2].
Proof. vm_compute. reflexivity. Qed.
Lemma demo_ancestry1 : ancestry 1 demo_chain (ParentHash demo_b2) [] = GOk [demo_b1].
Proof. vm_compute. reflexivity. Qed.
Lemma demo_parents : known_parents demo_tree [demo_b2].
Proof.
  apply Forall_singleton. unfold demo_tree. destruct demo_hashes as (_ & H1 & H2).
  by rewrite (proj2 (Z.eqb_neq _ _) H1), (proj2 (Z.eqb_neq _ _) H2), Z.eqb_refl.
Qed.

Lemma snapshot_correct_witness :
  exists c', snapshot demo_arc demo_chain (Z.of_nat 2) (header_Hash demo_b2) [demo_b2] demo_engine
             = (c', replay demo_conf demo_g [demo_b1; demo_b2]) /\ consistent demo_g demo_tree demo_conf c'.
Proof.
  apply (snapshot_correct demo_conf demo_epoch demo_g demo_tree demo_chain demo_arc demo_tree_ok demo_chain_ok
           demo_genesis_valid demo_arc_sub 2 demo_engine _ _ _ demo_consistent demo_parents);
    [intros [=]|lia|exact demo_ancestry2].
Defined.

Lemma demo_parent2 : parent_of demo_chain demo_b2 [] = Some demo_b1.
Proof. vm_compute. reflexivity. Qed.
Lemma demo_times : 0 <= Time demo_b1 /\ Time demo_b1 + Period demo_conf < 2 ^ 64 /\ 0 <= Time demo_b2 < 2 ^ 64.
Proof. assert (Time demo_b1 = 15 /\ Time demo_b2 = 30) as [-> ->] by (split; vm_compute; reflexivity). cbn. lia. Qed.
Lemma demo_accepted2 : (verifyHeader demo_arc demo_chain demo_b2 [] demo_engine).2 = GOk tt.
Proof. vm_compute. reflexivity. Qed.

Lemma verifyHeader_correct_witness :
  exists c' r, verifyHeader demo_arc demo_chain demo_b2 [] demo_engine = (c', r) /\ consistent demo_g demo_tree demo_conf c' /\
    (r = GOk tt <-> exists snap, replay demo_conf demo_g [demo_b1] = GOk snap /\ valid_header demo_conf (Now demo_chain) demo_b2 demo_b1 snap) /\
    (r = GOk tt -> forall snap, replay demo_conf demo_g [demo_b1] = GOk snap -> limit_of snap <= Z.of_nat 1 + 1 ->
     exists snap', replay demo_conf demo_g ([demo_b1] ++ [demo_b2]) = GOk snap').
Proof.
  apply (verifyHeader_correct demo_conf demo_epoch demo_g demo_tree demo_chain demo_arc demo_tree_ok demo_chain_ok
           demo_genesis_valid demo_arc_sub 1 demo_engine demo_b2 demo_b1 [] [demo_b1] demo_consistent);
    [constructor|intros [=]|lia|exact (proj2 demo_numbers)|exact demo_ancestry1|exact demo_parent2|exact (proj1 demo_times)|cbn; lia|exact (proj1 (proj2 demo_times))|exact (proj2 (proj2 demo_times))|].
  intros snap E. rewrite <- (GOk_inj _ _ (eq_trans (eq_sym demo_replay1) E)), demo_limit. lia.
Defined.

(** The template of the third block. *)
Definition demo_next : Header := mkHeader (header_Hash demo_b2) 0 0 0 0 0 [] 0 3 5000 0 0 [] 0 (zeros 8).
Lemma demo_get2 : GetHeader demo_chain (ParentHash demo_next) (Z.of_nat 2) = Some demo_b2.
Proof. vm_compute. reflexivity. Qed.
Definition may_signb (s : Snapshot) (number : Z) (signer : Address) : bool :=
  bool_decide (signer ∈ Signers s) &&
  forallb (fun p => negb (p.2 =? signer) || (p.1 + limit_of s <=? number)) (map_to_list (Recents s)).
Lemma may_signb_ok s number signer : may_signb s number signer = true -> may_sign s number signer.
Proof.
  unfold may_signb. rewrite andb_true_iff, bool_decide_eq_true, forallb_recents. intros [Hin Hr]. split; [done|].
  intros k E. specialize (Hr k signer E). cbn in Hr. rewrite Z.eqb_refl in Hr. cbn in Hr. by apply Z.leb_le.
Qed.
Lemma demo_may3 : may_sign demo_s2 (Z.of_nat 2 + 1) (demo_addr 3).
Proof. apply may_signb_ok. vm_compute. reflexivity. Qed.
Lemma demo_signs msg : exists sig pub, e_signFn demo_engine (e_signer demo_engine) msg = Some sig /\ zlen sig = extraSeal /\
  EcrecoverPub msg sig = Some pub /\ BytesToAddress (drop 12 (Keccak256 (drop 1 pub))) = e_signer demo_engine.
Proof. exists (demo_seal 3), (replicate 65 Byte.x03). by split_and!. Qed.

Lemma sealed_block_accepted_witness :
  exists c1 h1 c2 h2,
    Prepare demo_arc (fun _ => O) demo_chain demo_next demo_engine = (c1, GOk h1) /\
    Seal demo_arc false demo_chain (Finalize 1 2 3 [] h1) c1 = (c2, GOk (Some h2)) /\
    forall now c', 100 <= now -> Time h2 <= now -> consistent demo_g demo_tree demo_conf c' ->
      exists c'', verifyHeader demo_arc (with_clock demo_chain now) h2 [] c' = (c'', GOk tt).
Proof.
  apply (sealed_block_accepted demo_conf demo_epoch demo_g demo_tree demo_chain demo_arc demo_tree_ok demo_chain_ok
           demo_genesis_valid demo_arc_sub 2 demo_engine demo_next demo_b2 [demo_b1; demo_b2] demo_s2 (fun _ => O) 1 2 3 [] demo_consistent);
    [intros [=]|lia|done|exact demo_ancestry2'|exact demo_get2|exact demo_replay2|done|done|done|done|exact demo_may3|lia|exact demo_signs].
Defined.

(** *** Five signers, of which the first signs twice *)
Definition early_g : Header := demo_genesis [1; 2; 3; 4; 5].
Definition early_s0 : Snapshot := genesis_snapshot early_g.
Definition early_b1 : Header := demo_block early_g early_s0 1 0 nonceDropVote.
Definition early_s1 : Snapshot := demo_apply early_s0 early_b1.
Definition early_b2 : Header := demo_block early_b1 early_s1 1 0 nonceDropVote.
Lemma early_replay : replay demo_conf early_g [early_b1] = GOk early_s1.
Proof. vm_compute. reflexivity. Qed.
Lemma early_facts : limit_of early_s1 = 3 /\ Uint64 (Number early_b2) = 2 /\ ecrecover early_b2 = GOk (demo_addr 1) /\
  demo_addr 1 ∈ Signers early_s1 /\ Recents early_s1 !! 1 = Some (demo_addr 1) /\
  inturn early_s1 2 (demo_addr 1) = GOk (Difficulty early_b2 =? 2) /\
  Difficulty early_b2 = if Difficulty early_b2 =? 2 then diffInTurn else diffNoTurn.
Proof. split_and!; vm_compute; reflexivity. Qed.

#[local] Opaque early_g early_b1 early_b2 early_s1.

Lemma early_signer_accepted_witness :
  seal_ok early_s1 early_b2 = GOk tt /\ apply_header demo_conf early_s1 early_b2 = GErr errUnauthorized /\
  must_wait early_s1 (1 + 1) (demo_addr 1) = true.
Proof.
  destruct early_facts as (F1 & F2 & F3 & F4 & F5 & F6 & F7).
  apply (early_signer_accepted demo_conf demo_epoch early_s1 1 1 early_b2 (demo_addr 1) (Difficulty early_b2 =? 2)
           (proj1 (replay_wf demo_conf demo_epoch early_g [early_b1] early_s1 eq_refl early_replay)));
    [lia|rewrite F1; lia|rewrite F1; lia|exact F2|exact F3|exact F4|exact F5|exact F6|exact F7].
Defined.

(** *** A lone signer *)
Definition lone_g : Header := demo_genesis [1].
Definition lone_s0 : Snapshot := genesis_snapshot lone_g.
Definition lone_b1 : Header := demo_block lone_g lone_s0 1 (demo_addr 1) nonceDropVote.
Lemma lone_facts : Signers lone_s0 = {[demo_addr 1]} /\ may_sign lone_s0 (0 + 1) (demo_addr 1) /\ ecrecover lone_b1 = GOk (demo_addr 1).
Proof. split_and!; [vm_compute; reflexivity|apply may_signb_ok; vm_compute; reflexivity|vm_compute; reflexivity]. Qed.

Lemma lone_signer_removed_witness :
  exists s', apply_header demo_conf lone_s0 lone_b1 = GOk s' /\ Signers s' = ∅ /\
    forall arc_add Intn chain next c c',
      snapshot arc_add chain (u64 (Uint64 (Number next) - 1)) (ParentHash next) [] c = (c', GOk s') ->
      Prepare arc_add Intn chain next c = (c', GPanic).
Proof.
  destruct lone_facts as (F1 & F2 & F3).
  apply (lone_signer_removed demo_conf demo_epoch lone_s0 0 lone_b1 (demo_addr 1) ltac:(by apply wf_new)); done.
Defined.
End CliqueThms.
