(* ===== verification/Hashimoto.v ===== *)
(** * [consensus/bzhash/algorithm.go]: the proof-of-work function

    The verification cache, the mining dataset and the two ways to evaluate the function: from
    the dataset ([hashimotoFull]) and from the cache alone ([hashimotoLight]).  A [uint32] is a
    [Z] with explicit wrap-around [u32].  A slice of [uint32] that is viewed as bytes is the list
    of its bytes in the machine's order; [little] says which order that is.  [None] is a panic.
    Keccak-512 is a parameter; progress reports and logging are left out. *)

From S2P Require Import Prelude GoMath World.

Module Hashimoto.

Definition u32 (z : Z) : Z := z mod 2 ^ 32.

(** ** Constants *)

Definition datasetInitBytes : Z := 2 ^ 30.
Definition datasetGrowthBytes : Z := 2 ^ 23.
Definition cacheInitBytes : Z := 2 ^ 24.
Definition cacheGrowthBytes : Z := 2 ^ 17.
Definition epochLength : Z := 30000.
Definition mixBytes : Z := 128.
Definition hashBytes : Z := 64.
Definition hashWords : Z := 16.
Definition datasetParents : nat := 256.
Definition cacheRounds : nat := 3.
Definition loopAccesses : nat := 64.

(** ** Words and bytes ([encoding/binary]) *)

(** [LittleEndian.Uint32], [BigEndian.Uint32] of a group of four bytes, and their inverses. *)
Definition word (little : bool) (b : list byte) : Z := SetBytes (if little then rev b else b).
Definition put_word (little : bool) (w : Z) : list byte :=
  if little then rev (be_bytes 4 w) else be_bytes 4 w.
(** [LittleEndian.Uint32(b[off:])] *)
Definition le32 (b : list byte) (off : Z) : option Z := word true <$> slice b off (off + 4).

Fixpoint words (little : bool) (n : nat) (b : list byte) : list Z :=
  match n with O => [] | S n' => word little (take 4 b) :: words little n' (drop 4 b) end.
Definition bytes_of (little : bool) (ws : list Z) : list byte := concat (map (put_word little) ws).

(** The byte order of every word is reversed. *)
Fixpoint swap_words (n : nat) (b : list byte) : list byte :=
  match n with O => b | S n' => rev (take 4 b) ++ swap_words n' (drop 4 b) end.
Definition swap (buffer : list byte) : option (list byte) :=
  if (length buffer mod 4 =? 0)%nat then Some (swap_words (length buffer / 4) buffer) else None.
(** [prepare]: the words of a byte stream. *)
Definition prepare (n : nat) (src : list byte) : option (list Z) :=
  if (4 * n <=? length src)%nat then Some (words true n src) else None.

(** A buffer after [copy(buffer[off:], data)]. *)
Definition copy_into (off : Z) (data buffer : list byte) : option (list byte) :=
  if (0 <=? off) && (off <=? zlen buffer) then Some (copy_at buffer (Z.to_nat off) data) else None.
(** A buffer after a hash is written to [buffer[off:]] by a [hasher]: a digest that does not fit
    is put into new memory instead. *)
Definition hash_into (off : Z) (digest buffer : list byte) : option (list byte) :=
  if (0 <=? off) && (off <=? zlen buffer) then
    Some (if off + zlen digest <=? zlen buffer then copy_at buffer (Z.to_nat off) digest else buffer)
  else None.

Definition xor_byte (a b : byte) : byte := byte_of_Z (Z.lxor (byte_to_Z a) (byte_to_Z b)).
Definition XORBytes (a b : list byte) : list byte := zip_with xor_byte a b.

Section algorithm.
Context `{CryptoPrims}.
Variable Keccak512 : list byte -> list byte.
(** Whether the machine is little endian. *)
Variable little : bool.

(** ** The verification cache *)

Definition seedHash (block : Z) : list byte :=
  if block <? epochLength then zeros 32
  else Nat.iter (Z.to_nat (block / epochLength)) Keccak256 (zeros 32).

Fixpoint fill_cache (n : nat) (offset : Z) (cache : list byte) : option (list byte) :=
  match n with
  | O => Some cache
  | S n' =>
      if offset <? zlen cache then
        prev ← slice cache (offset - hashBytes) offset;
        cache ← hash_into offset (Keccak512 prev) cache;
        fill_cache n' (offset + hashBytes) cache
      else Some cache
  end.

(** One step of randmemohash, on row [j]. *)
Definition memo_step (rows : Z) (j : Z) (cache : list byte) : option (list byte) :=
  let srcOff := ((j - 1 + rows) mod rows) * hashBytes in
  let dstOff := j * hashBytes in
  w ← le32 cache dstOff;
  let xorOff := u32 ((w mod u32 rows) * hashBytes) in
  a ← slice cache srcOff (srcOff + hashBytes);
  b ← slice cache xorOff (xorOff + hashBytes);
  hash_into dstOff (Keccak512 (XORBytes a b)) cache.
Fixpoint memo_round (n : nat) (rows : Z) (j : Z) (cache : list byte) : option (list byte) :=
  match n with
  | O => Some cache
  | S n' => cache ← memo_step rows j cache; memo_round n' rows (j + 1) cache
  end.
Fixpoint memo_rounds (k : nat) (rows : Z) (cache : list byte) : option (list byte) :=
  match k with
  | O => Some cache
  | S k' => cache ← memo_round (Z.to_nat rows) rows 0 cache; memo_rounds k' rows cache
  end.

(** [generateCache] of a zeroed slice of [n] words.  There are [size / 64] rows to fill. *)
Definition generateCache (n : nat) (seed : list byte) : option (list Z) :=
  let cache := zeros (4 * n) in
  let size := zlen cache in
  let rows := size / hashBytes in
  cache ← hash_into 0 (Keccak512 seed) cache;
  cache ← fill_cache (S (Z.to_nat (size / hashBytes))) hashBytes cache;
  cache ← memo_rounds cacheRounds rows cache;
  cache ← (if little then Some cache else swap cache);
  Some (words little n cache).

(** ** The dataset *)

Definition fnv (a b : Z) : Z := Z.lxor (u32 (a * 0x01000193)) b.
(** [fnvHash]: the index panics when [data] is shorter. *)
Fixpoint fnvHash (mix data : list Z) : option (list Z) :=
  match mix, data with
  | [], _ => Some []
  | m :: mix', d :: data' => cons (fnv m d) <$> fnvHash mix' data'
  | _ :: _, [] => None
  end.

(** The loop over the parents of an item: [n] rounds from [i]. *)
Fixpoint mix_parents (n : nat) (i : Z) (cache : list Z) (rows index : Z) (intMix : list Z) : option (list Z) :=
  match n with
  | O => Some intMix
  | S n' =>
      m ← intMix !! Z.to_nat (i mod 16);
      let parent := fnv (Z.lxor index i) m mod rows in
      data ← slice cache (u32 (parent * hashWords)) (zlen cache);
      intMix ← fnvHash intMix data;
      mix_parents n' (i + 1) cache rows index intMix
  end.

Definition generateDatasetItem (cache : list Z) (index : Z) : option (list byte) :=
  let rows := u32 (zlen cache / hashWords) in
  if rows =? 0 then None
  else
    row ← slice cache (u32 ((index mod rows) * hashWords)) (u32 ((index mod rows) * hashWords) + hashWords);
    let row := match row with w :: rest => Z.lxor w index :: rest | [] => [] end in
    let mix := Keccak512 (bytes_of true row) in
    intMix ← mix_parents datasetParents 0 cache rows index (words true 16 mix);
    Some (Keccak512 (bytes_of true intMix)).

(** The segment of the dataset that thread [id] of [threads] generates. *)
Definition segment (size threads id : Z) : Z * Z :=
  let batch := u32 ((size + hashBytes * threads - 1) / (hashBytes * threads)) in
  let first := u32 (id * batch) in
  let limit := u32 (first + batch) in
  let rows := u32 (size / hashBytes) in
  (first, if limit >? rows then rows else limit).

(** A thread puts an item into its place; its progress report divides by [percent]. *)
Definition put_item (cache : list Z) (size index : Z) (dataset : list byte) : option (list byte) :=
  item ← generateDatasetItem cache index;
  item ← (if little then Some item else swap item);
  dataset ← copy_into (u32 (index * hashBytes)) item dataset;
  if u32 (size / hashBytes / 100) =? 0 then None else Some dataset.
Fixpoint put_items (cache : list Z) (size : Z) (indices : list Z) (dataset : list byte) : option (list byte) :=
  match indices with
  | [] => Some dataset
  | index :: rest => dataset ← put_item cache size index dataset; put_items cache size rest dataset
  end.

Definition indices (size threads id : Z) : list Z :=
  let '(first, limit) := segment size threads id in
  map (fun k => first + Z.of_nat k) (seq 0 (Z.to_nat (limit - first))).
(** All items, thread by thread. *)
Definition all_indices (size : Z) (threads : nat) : list Z :=
  concat (map (fun id => indices size (Z.of_nat threads) (Z.of_nat id)) (seq 0 threads)).

(** [generateDataset] of a zeroed slice of [n] words, when the threads' steps happen in the
    order [schedule]: an arrangement of [all_indices]. *)
Definition generateDataset (n : nat) (cache : list Z) (schedule : list Z) : option (list Z) :=
  dataset ← put_items cache (4 * Z.of_nat n) schedule (zeros (4 * n));
  Some (words little n dataset).

(** ** The function *)

Fixpoint mix_loop (n : nat) (i : Z) (rows seedHead : Z) (lookup : Z -> option (list Z)) (mix : list Z) : option (list Z) :=
  match n with
  | O => Some mix
  | S n' =>
      m ← mix !! Z.to_nat (i mod zlen mix);
      let parent := fnv (Z.lxor (u32 i) seedHead) m mod rows in
      d0 ← lookup (u32 (2 * parent));
      d1 ← lookup (u32 (2 * parent + 1));
      mix ← fnvHash mix (take 16 d0 ++ take 16 d1);
      mix_loop n' (i + 1) rows seedHead lookup mix
  end.

(** Groups of four words are compressed to one. *)
Fixpoint compress (mix : list Z) : list Z :=
  match mix with
  | a :: b :: c :: d :: rest => fnv (fnv (fnv a b) c) d :: compress rest
  | _ => []
  end.

Definition hashimoto (hash : list byte) (nonce size : Z) (lookup : Z -> option (list Z))
    : option (list byte * list byte) :=
  let rows := u32 (size / mixBytes) in
  if rows =? 0 then None   (* integer divide by zero *)
  else
    let seed := Keccak512 (take 32 (hash ++ zeros 32) ++ rev (be_bytes 8 nonce)) in
    let seedHead := word true (take 4 seed) in
    mix ← mix_loop loopAccesses 0 rows seedHead lookup (words true 16 seed ++ words true 16 seed);
    let digest := bytes_of true (compress mix) in
    Some (digest, Keccak256 (seed ++ digest)).

Definition hashimotoLight (size : Z) (cache : list Z) (hash : list byte) (nonce : Z) : option (list byte * list byte) :=
  hashimoto hash nonce size (fun index =>
    rawData ← generateDatasetItem cache index; Some (words true (length rawData / 4) rawData)).

Definition hashimotoFull (dataset : list Z) (hash : list byte) (nonce : Z) : option (list byte * list byte) :=
  hashimoto hash nonce (zlen dataset * 4) (fun index =>
    let offset := u32 (index * hashWords) in slice dataset offset (u32 (offset + hashWords))).
End algorithm.
End Hashimoto.
