(* ===== verification/HashimotoFacts.v ===== *)
(** * The proof-of-work function: dataset and cache

    The dataset is made of 64-byte rows, one per item; [put_items] writes the rows of the items
    it is given, whatever the order.  Evaluating the function with the dataset or with the cache
    looks up the same items. *)

From S2P Require Import Prelude GoMath World Hashimoto.

Module HashimotoFacts.
Import Hashimoto.

(** ** Words *)

Lemma length_words little n b : length (words little n b) = n.
Proof. revert b. induction n; intros b; cbn; auto. Qed.
Lemma words_drop little k n b : drop k (words little (k + n) b) = words little n (drop (4 * k) b).
Proof.
  revert b. induction k as [|k IH]; intros b; [done|]. cbn [Nat.add words drop]. rewrite IH, drop_drop.
  f_equal. f_equal. lia.
Qed.
Lemma words_take little k n b : take k (words little (k + n) b) = words little k b.
Proof. revert b. induction k as [|k IH]; intros b; [done|]. cbn. f_equal. apply IH. Qed.
Lemma words_take_bytes little n b m : (4 * n <= m)%nat -> words little n (take m b) = words little n b.
Proof.
  revert b m. induction n as [|n IH]; intros b m Hm; [done|]. cbn [words]. rewrite take_take, Nat.min_l by lia.
  f_equal. rewrite <- (IH (drop 4 b) (m - 4)%nat) by lia. f_equal. by rewrite skipn_firstn_comm.
Qed.

Lemma swap_words_words n b : (4 * n <= length b)%nat -> words false n (swap_words n b) = words true n b.
Proof.
  revert b. induction n as [|n IH]; intros b Hb; [done|]. cbn [words swap_words].
  assert (length (rev (take 4 b)) = 4%nat) as Hl by (rewrite length_rev, length_take; lia).
  rewrite take_app_length', drop_app_length' by done. f_equal. apply IH. rewrite length_drop. lia.
Qed.
Lemma length_swap_words n b : length (swap_words n b) = length b.
Proof.
  revert b. induction n as [|n IH]; intros b; [done|]. cbn [swap_words].
  rewrite length_app, length_rev, IH, length_take, length_drop. lia.
Qed.

(** ** Rows *)

Definition row (i : nat) (b : list byte) : list byte := take 64 (drop (64 * i) b).

Lemma length_copy (b item : list byte) off : (off + length item <= length b)%nat -> length (copy_at b off item) = length b.
Proof. intros Hl. apply length_copy_at. lia. Qed.
Lemma row_copy_at (b item : list byte) i j :
  length item = 64%nat -> (64 * j + 64 <= length b)%nat ->
  row i (copy_at b (64 * j) item) = if decide (i = j) then item else row i b.
Proof.
  intros Hi Hb. unfold row, copy_at. rewrite (take_ge item) by lia.
  destruct (decide (i = j)) as [->|Hne].
  - rewrite drop_app_length' by (rewrite length_take; lia). by rewrite take_app_length'.
  - apply list_eq. intros k. destruct (decide (k < 64)%nat) as [Hk|Hk];
      [|rewrite !lookup_ge_None_2 by (rewrite length_take; lia); done].
    rewrite !lookup_take_lt, !lookup_drop by done.
    destruct (decide (i < j)%nat) as [Hlt|Hlt].
    + rewrite lookup_app_l by (rewrite length_take; lia). by rewrite lookup_take_lt by lia.
    + rewrite lookup_app_r, length_take, Nat.min_l by (rewrite ?length_take; lia).
      rewrite lookup_app_r, lookup_drop by lia. f_equal. lia.
Qed.

Lemma words_row little n i b : (i < n)%nat ->
  take 16 (drop (16 * i) (words little (16 * n) b)) = words little 16 (row i b).
Proof.
  intros Hi. replace (16 * n)%nat with (16 * i + (16 + 16 * (n - i - 1)))%nat by lia.
  rewrite words_drop, words_take. unfold row. rewrite words_take_bytes by lia. do 2 f_equal. lia.
Qed.

Lemma u32_small z : 0 <= z < 2 ^ 32 -> u32 z = z.
Proof. apply Z.mod_small. Qed.
Lemma u32_range z : 0 <= u32 z < 2 ^ 32.
Proof. by apply Z.mod_pos_bound. Qed.

(** ** The threads' segments *)

Lemma elem_of_indices size threads id i :
  i ∈ indices size threads id <-> (segment size threads id).1 <= i < (segment size threads id).2.
Proof.
  unfold indices. destruct (segment size threads id) as [first limit]. cbn [fst snd]. rewrite list_elem_of_fmap. split.
  - intros (k & -> & [_ Hk]%elem_of_seq). lia.
  - intros Hi. exists (Z.to_nat (i - first)). split; [lia|]. apply elem_of_seq. lia.
Qed.

(** The threads' segments cover exactly the rows of the dataset. *)
Lemma all_indices_elem n threads i :
  0 < n -> (0 < threads)%nat -> n + Z.of_nat threads < 2 ^ 32 ->
  i ∈ all_indices (64 * n) threads <-> 0 <= i < n.
Proof.
  intros Hn Ht Hb. set (T := Z.of_nat threads) in *. set (q := (64 * n + hashBytes * T - 1) / (hashBytes * T)).
  assert (n <= T * q < n + T) as Hq.
  { unfold q, hashBytes. pose proof (Z.div_mod (64 * n + 64 * T - 1) (64 * T) ltac:(lia)).
    pose proof (Z.mod_pos_bound (64 * n + 64 * T - 1) (64 * T) ltac:(lia)). nia. }
  assert (0 < q) as Hq0 by nia.
  assert (forall id, 0 <= id < T -> segment (64 * n) T id = (id * q, Z.min (id * q + q) n)) as Hseg.
  { intros id Hid. unfold segment. fold q. rewrite (u32_small q) by nia. rewrite (u32_small (id * q)), (u32_small (id * q + q)) by nia.
    unfold hashBytes. rewrite (Z.mul_comm 64 n), Z.div_mul, (u32_small n) by lia. f_equal.
    destruct (Z.gtb_spec (id * q + q) n); lia. }
  unfold all_indices. rewrite list_elem_of_In, in_concat. setoid_rewrite <- list_elem_of_In. split.
  - intros (l & (id & -> & [_ Hid]%elem_of_seq)%list_elem_of_fmap & Hi). apply elem_of_indices in Hi. rewrite Hseg in Hi by lia. cbn in Hi. nia.
  - intros Hi. exists (indices (64 * n) T (i / q)).
    assert (0 <= i / q < T) by (split; [apply Z.div_pos; lia|apply Z.div_lt_upper_bound; nia]).
    split.
    + apply list_elem_of_fmap. exists (Z.to_nat (i / q)). split; [by rewrite Z2Nat.id by lia|]. apply elem_of_seq. lia.
    + apply elem_of_indices. rewrite Hseg by done. cbn. pose proof (Z.div_mod i q ltac:(lia)). pose proof (Z.mod_pos_bound i q Hq0). nia.
Qed.

Section algorithm.
Context `{CryptoPrims}.
Variable Keccak512 : list byte -> list byte.
Hypothesis keccak512_len : forall d, length (Keccak512 d) = 64%nat.

(** ** Items *)

(** A cache of [rows] rows whose offsets fit into 32 bits. *)
Definition cache_ok (cache : list Z) (rows : Z) : Prop := zlen cache = rows * hashWords /\ 0 < rows < 2 ^ 28.

Lemma cache_rows cache rows : cache_ok cache rows -> u32 (zlen cache / hashWords) = rows.
Proof. intros [-> Hr]. unfold hashWords. rewrite Z.div_mul by lia. apply u32_small. lia. Qed.

Lemma fnvHash_total mix data : (length mix <= length data)%nat -> exists mix', fnvHash mix data = Some mix' /\ length mix' = length mix.
Proof.
  revert data. induction mix as [|m mix IH]; intros [|d data] Hl; cbn in *; [by eexists|by eexists|lia|].
  destruct (IH data) as (mix' & -> & Hl'); [lia|]. eexists. split; [done|]. cbn. by rewrite Hl'.
Qed.

Lemma mix_parents_total n i cache rows index intMix :
  cache_ok cache rows -> 0 <= i -> length intMix = 16%nat ->
  exists mix, mix_parents n i cache rows index intMix = Some mix /\ length mix = 16%nat.
Proof.
  intros [Hc Hr]. revert i intMix. induction n as [|n IH]; intros i intMix Hi Hl; [by eexists|]. cbn [mix_parents].
  destruct (lookup_lt_is_Some_2 intMix (Z.to_nat (i mod 16))) as [m Em]; [pose proof (Z.mod_pos_bound i 16); lia|].
  rewrite Em. cbn [mbind option_bind]. set (parent := fnv _ m mod rows).
  assert (0 <= parent < rows) as Hp by (apply Z.mod_pos_bound; lia).
  unfold hashWords in *. rewrite u32_small by lia. rewrite slice_Some by lia. cbn [mbind option_bind].
  destruct (fnvHash_total intMix (take (Z.to_nat (zlen cache - parent * 16)) (drop (Z.to_nat (parent * 16)) cache))) as (mix' & -> & Hl').
  { rewrite length_take, length_drop. unfold zlen in *. lia. }
  cbn [mbind option_bind]. apply IH; lia.
Qed.

Lemma item_total cache rows index :
  cache_ok cache rows -> exists item, generateDatasetItem Keccak512 cache index = Some item /\ length item = 64%nat.
Proof.
  intros Hc. unfold generateDatasetItem. rewrite (cache_rows _ _ Hc). destruct (Hc) as [Hl Hr].
  rewrite (proj2 (Z.eqb_neq _ _)) by lia. assert (0 <= index mod rows < rows) as Hi by (apply Z.mod_pos_bound; lia).
  unfold hashWords in *. rewrite u32_small by lia. rewrite slice_Some by lia. cbn [mbind option_bind].
  destruct (mix_parents_total datasetParents 0 cache rows index (words true 16 (Keccak512 (bytes_of true
    match take (Z.to_nat (index mod rows * 16 + 16 - index mod rows * 16)) (drop (Z.to_nat (index mod rows * 16)) cache) with
    | [] => [] | w :: rest => Z.lxor w index :: rest end)))) as (mix & -> & _); [done|lia|apply length_words|].
  cbn [mbind option_bind]. eexists. split; [done|]. apply keccak512_len.
Qed.

(** The item as it is stored on the machine. *)
Definition stored_item (little : bool) (item : list byte) : list byte := if little then item else swap_words 16 item.
Definition item_of (cache : list Z) (index : Z) : list byte := default [] (generateDatasetItem Keccak512 cache index).

Lemma length_item cache rows index : cache_ok cache rows -> length (item_of cache index) = 64%nat.
Proof. intros Hc. unfold item_of. destruct (item_total cache rows index Hc) as (item & -> & ?). done. Qed.
Lemma words_stored little item : length item = 64%nat -> words little 16 (stored_item little item) = words true 16 item.
Proof. intros Hl. destruct little; [done|]. apply swap_words_words. lia. Qed.
Lemma length_stored little item : length (stored_item little item) = length item.
Proof. destruct little; [done|]. apply length_swap_words. Qed.

(** ** Writing items *)

Lemma put_item_ok little cache rows size index (ds : list byte) :
  cache_ok cache rows -> u32 (size / hashBytes / 100) <> 0 ->
  0 <= index -> 64 * (index mod 2 ^ 26) + 64 <= zlen ds ->
  put_item Keccak512 little cache size index ds =
    Some (copy_at ds (64 * Z.to_nat (index mod 2 ^ 26)) (stored_item little (item_of cache index))).
Proof.
  intros Hc Hp Hi Hl. unfold put_item, item_of. destruct (item_total cache rows index Hc) as (item & -> & Hlen). cbn [mbind option_bind].
  assert ((if little then Some item else swap item) = Some (stored_item little item)) as ->.
  { destruct little; [done|]. unfold swap. rewrite Hlen. done. }
  cbn [mbind option_bind]. assert (u32 (index * hashBytes) = 64 * (index mod 2 ^ 26)) as ->.
  { unfold u32, hashBytes. change (2 ^ 32) with (2 ^ 26 * 64). rewrite Z.mul_mod_distr_r by lia. lia. }
  assert (0 <= index mod 2 ^ 26) by (by apply Z.mod_pos_bound). unfold copy_into.
  rewrite (proj2 (Z.leb_le 0 _)), (proj2 (Z.leb_le _ (zlen ds))) by lia. cbn [andb mbind option_bind].
  rewrite (proj2 (Z.eqb_neq _ _)) by done. rewrite Z2Nat.inj_mul by lia. done.
Qed.

(** All items of a schedule, below 4 GiB. *)
Lemma put_items_ok little cache rows size schedule (ds : list byte) :
  cache_ok cache rows -> u32 (size / hashBytes / 100) <> 0 ->
  Forall (fun i => 0 <= i < 2 ^ 26 /\ 64 * i + 64 <= zlen ds) schedule ->
  exists ds', put_items Keccak512 little cache size schedule ds = Some ds' /\ length ds' = length ds /\
    forall k, row k ds' = if decide (Z.of_nat k ∈ schedule) then stored_item little (item_of cache (Z.of_nat k)) else row k ds.
Proof.
  intros Hc Hp. revert ds. induction schedule as [|i schedule IH]; intros ds Hs; cbn [put_items].
  { exists ds. split_and!; [done..|]. intros k. rewrite decide_False; [done|]. apply not_elem_of_nil. }
  apply Forall_cons in Hs as [[Hi Hl] Hs]. rewrite (put_item_ok little cache rows size i ds) by (rewrite ?Z.mod_small by lia; done || lia).
  rewrite Z.mod_small by lia. cbn [mbind option_bind]. set (item := stored_item _ _).
  assert (length item = 64%nat) as Hlen by (unfold item; rewrite length_stored; by eapply length_item).
  destruct (IH (copy_at ds (64 * Z.to_nat i) item)) as (ds' & E & Hd & Hr).
  { unfold zlen in *. rewrite length_copy by lia. exact Hs. }
  exists ds'. split_and!; [done|rewrite Hd; apply length_copy; unfold zlen in *; lia|]. intros k. rewrite Hr.
  destruct (decide (Z.of_nat k ∈ schedule)) as [Hin|Hin]; [by rewrite decide_True by by right|].
  rewrite row_copy_at by (unfold zlen in *; lia). destruct (decide (k = Z.to_nat i)) as [->|Hne].
  - rewrite Z2Nat.id by lia. by rewrite decide_True by left.
  - rewrite decide_False; [done|]. intros [E'|E']%elem_of_cons; [lia|done].
Qed.

(** Rows from 4 GiB on are never written. *)
Lemma put_items_high little cache rows size schedule (ds : list byte) :
  cache_ok cache rows -> u32 (size / hashBytes / 100) <> 0 -> 2 ^ 32 <= zlen ds ->
  Forall (fun i => 0 <= i) schedule ->
  exists ds', put_items Keccak512 little cache size schedule ds = Some ds' /\ length ds' = length ds /\
    forall k, 2 ^ 26 <= Z.of_nat k -> row k ds' = row k ds.
Proof.
  intros Hc Hp. revert ds. induction schedule as [|i schedule IH]; intros ds Hl Hs; cbn [put_items]; [by exists ds|].
  apply Forall_cons in Hs as [Hi Hs]. assert (0 <= i mod 2 ^ 26 < 2 ^ 26) as Hm by (by apply Z.mod_pos_bound).
  rewrite (put_item_ok little cache rows size i ds) by (done || lia). cbn [mbind option_bind]. set (item := stored_item _ _).
  assert (length item = 64%nat) as Hlen by (unfold item; rewrite length_stored; by eapply length_item).
  assert (length (copy_at ds (64 * Z.to_nat (i mod 2 ^ 26)) item) = length ds) as Hcl by (apply length_copy; unfold zlen in *; lia).
  destruct (IH (copy_at ds (64 * Z.to_nat (i mod 2 ^ 26)) item)) as (ds' & E & Hd & Hr); [unfold zlen in *; lia|done|].
  exists ds'. split_and!; [done|lia|]. intros k Hk. rewrite Hr by done.
  rewrite row_copy_at by (unfold zlen in *; lia). rewrite decide_False by lia. done.
Qed.

(** ** Dataset and cache give the same results *)

Lemma mix_loop_ext n i rows seedHead lookup lookup' mix :
  0 < rows -> 2 * rows < 2 ^ 32 -> (forall k, 0 <= k < 2 * rows -> lookup k = lookup' k) ->
  mix_loop n i rows seedHead lookup mix = mix_loop n i rows seedHead lookup' mix.
Proof.
  intros H0 Hr He. revert i mix. induction n as [|n IH]; intros i mix; [done|]. cbn [mix_loop].
  destruct (mix !! _) as [m|]; [|done]. cbn [mbind option_bind]. set (parent := fnv _ m mod rows).
  assert (0 <= parent < rows) as Hp by (by apply Z.mod_pos_bound). rewrite !u32_small, !He by lia.
  destruct (lookup' _); [|done]. cbn [mbind option_bind]. destruct (lookup' _); [|done]. cbn [mbind option_bind].
  destruct (fnvHash _ _); [|done]. cbn [mbind option_bind]. apply IH.
Qed.

Lemma generateDataset_rows little cache rows n threads schedule :
  cache_ok cache rows -> 100 <= n <= 2 ^ 26 -> (0 < threads)%nat -> n + Z.of_nat threads < 2 ^ 32 ->
  schedule ≡ₚ all_indices (64 * n) threads ->
  exists ds, generateDataset Keccak512 little (16 * Z.to_nat n) cache schedule = Some ds /\ zlen ds = 16 * n /\
    forall k, 0 <= k < n ->
      take 16 (drop (16 * Z.to_nat k) ds) = words true 16 (item_of cache k).
Proof.
  intros Hc Hn Ht Hb Hs. unfold generateDataset.
  replace (4 * Z.of_nat (16 * Z.to_nat n)) with (64 * n) by lia.
  destruct (put_items_ok little cache rows (64 * n) schedule (zeros (4 * (16 * Z.to_nat n)))) as (ds & E & Hl & Hr); [done| | |].
  { unfold hashBytes. rewrite (Z.mul_comm 64 n), Z.div_mul by lia. pose proof (Z.div_le_lower_bound n 100 1).
    pose proof (Z.div_le_upper_bound n 100 n). rewrite u32_small; lia. }
  { apply Forall_forall. intros i Hi. rewrite Hs, all_indices_elem in Hi by lia. unfold zlen. rewrite length_zeros. lia. }
  rewrite E. cbn [mbind option_bind]. eexists. split; [done|]. split; [unfold zlen; rewrite length_words; lia|]. intros k Hk.
  rewrite words_row by lia. rewrite Hr, Z2Nat.id by lia. rewrite decide_True by (rewrite Hs, all_indices_elem; lia).
  apply words_stored. by eapply length_item.
Qed.

Lemma hashimoto_ext hash nonce size lookup lookup' :
  0 <= size < 2 ^ 38 -> (forall k, 0 <= k < 2 * (size / mixBytes) -> lookup k = lookup' k) ->
  hashimoto Keccak512 hash nonce size lookup = hashimoto Keccak512 hash nonce size lookup'.
Proof.
  intros Hs He. unfold hashimoto. assert (0 <= size / mixBytes < 2 ^ 31) as Hr.
  { split; [apply Z.div_pos|apply Z.div_lt_upper_bound]; unfold mixBytes; lia. }
  rewrite u32_small by lia. destruct (Z.eqb_spec (size / mixBytes) 0); [done|].
  erewrite mix_loop_ext; [done|lia..|done].
Qed.

Lemma dataset_lookup cache rows n ds k :
  cache_ok cache rows -> 0 <= n <= 2 ^ 26 -> zlen ds = 16 * n -> 0 <= k < n ->
  take 16 (drop (16 * Z.to_nat k) ds) = words true 16 (item_of cache k) ->
  slice ds (u32 (k * hashWords)) (u32 (u32 (k * hashWords) + hashWords)) =
  (rawData ← generateDatasetItem Keccak512 cache k; Some (words true (length rawData / 4) rawData)).
Proof.
  intros Hc Hn Hl Hk E. unfold hashWords. rewrite (u32_small (k * 16)), u32_small by lia.
  rewrite slice_Some by lia. destruct (item_total cache rows k Hc) as (item & Ei & Hi). unfold item_of in E. rewrite Ei in *.
  cbn [mbind option_bind default from_option id] in *. rewrite Hi. change (64 / 4)%nat with 16%nat. rewrite <- E. do 3 f_equal; lia.
Qed.

(** ** The cache *)

Lemma hash_into_ok off digest (b : list byte) :
  0 <= off -> off + zlen digest <= zlen b ->
  hash_into off digest b = Some (copy_at b (Z.to_nat off) digest) /\ length (copy_at b (Z.to_nat off) digest) = length b.
Proof.
  intros H0 Hl. pose proof (zlen_nonneg digest). unfold hash_into. rewrite (proj2 (Z.leb_le 0 _)), !(proj2 (Z.leb_le _ (zlen b))) by lia.
  split; [done|]. apply length_copy. unfold zlen in *. lia.
Qed.

Lemma slice_row (b : list byte) i :
  (64 * i + 64 <= length b)%nat -> slice b (64 * Z.of_nat i) (64 * Z.of_nat i + 64) = Some (row i b).
Proof. intros Hl. rewrite slice_Some by (unfold zlen; lia). unfold row. do 2 f_equal; [lia|]. f_equal. lia. Qed.

(** Filling the cache from row [i]: every row is the hash of the one before it. *)
Lemma fill_cache_ok n r i (b : list byte) :
  length b = (64 * r)%nat -> (r <= i + 1 + n)%nat ->
  exists b', fill_cache Keccak512 n (64 * (Z.of_nat i + 1)) b = Some b' /\ length b' = (64 * r)%nat /\
    (forall k, (k <= i)%nat -> row k b' = row k b) /\
    forall k, (i <= k)%nat -> (k + 1 < r)%nat -> row (k + 1) b' = Keccak512 (row k b').
Proof.
  revert i b. induction n as [|n IH]; intros i b Hl Hn; cbn [fill_cache].
  { exists b. split_and!; [done..|]. intros k H1 H2. lia. }
  destruct (Z.ltb_spec (64 * (Z.of_nat i + 1)) (zlen b)) as [Hlt|Hge]; unfold zlen in *;
    [|exists b; split_and!; [done..|]; intros k H1 H2; lia].
  unfold hashBytes. replace (64 * (Z.of_nat i + 1) - 64) with (64 * Z.of_nat i) by lia.
  assert (slice b (64 * Z.of_nat i) (64 * (Z.of_nat i + 1)) = Some (row i b)) as -> by (rewrite <- slice_row by lia; f_equal; lia).
  cbn [mbind option_bind].
  destruct (hash_into_ok (64 * (Z.of_nat i + 1)) (Keccak512 (row i b)) b) as [-> Hlen]; [lia|unfold zlen; rewrite keccak512_len; lia|].
  cbn [mbind option_bind]. replace (Z.to_nat (64 * (Z.of_nat i + 1))) with (64 * (i + 1))%nat in * by lia.
  replace (64 * (Z.of_nat i + 1) + 64) with (64 * (Z.of_nat (i + 1) + 1)) by lia. set (b1 := copy_at _ _ _) in *.
  assert (forall k, row k b1 = if decide (k = (i + 1)%nat) then Keccak512 (row i b) else row k b) as Hrow
    by (intros k; apply row_copy_at; [apply keccak512_len|lia]).
  destruct (IH (i + 1)%nat b1) as (b' & E & Hl' & Hlow & Hhigh); [lia..|]. exists b'. split_and!; [done..| |].
  - intros k Hk. rewrite Hlow, Hrow, decide_False by lia. done.
  - intros k H1 H2. destruct (decide (k = i)) as [->|]; [|apply Hhigh; lia].
    rewrite (Hlow (i + 1)%nat), (Hlow i), !Hrow, decide_True, decide_False by lia. done.
Qed.

Lemma memo_step_total r j (b : list byte) :
  length b = (64 * r)%nat -> 0 <= j < Z.of_nat r -> Z.of_nat r < 2 ^ 26 ->
  exists b', memo_step Keccak512 (Z.of_nat r) j b = Some b' /\ length b' = (64 * r)%nat.
Proof.
  intros Hl Hj Hr. unfold memo_step, le32, hashBytes. rewrite (slice_Some b (j * 64)) by (unfold zlen; lia). cbn [fmap option_fmap option_map mbind option_bind].
  set (w := word true _). rewrite (u32_small (Z.of_nat r)) by lia. pose proof (Z.mod_pos_bound w (Z.of_nat r) ltac:(lia)).
  pose proof (Z.mod_pos_bound (j - 1 + Z.of_nat r) (Z.of_nat r) ltac:(lia)). rewrite u32_small by lia.
  rewrite !slice_Some by (unfold zlen; lia). cbn [mbind option_bind].
  match goal with |- context [hash_into ?o ?d b] => destruct (hash_into_ok o d b) as [-> Hb] end;
    [lia|unfold zlen; rewrite keccak512_len; lia|]. eexists. split; [done|lia].
Qed.
Lemma memo_round_total n r j (b : list byte) :
  length b = (64 * r)%nat -> 0 <= j -> j + Z.of_nat n <= Z.of_nat r -> Z.of_nat r < 2 ^ 26 ->
  exists b', memo_round Keccak512 n (Z.of_nat r) j b = Some b' /\ length b' = (64 * r)%nat.
Proof.
  revert j b. induction n as [|n IH]; intros j b Hl H0 Hj Hr; cbn [memo_round]; [by exists b|].
  destruct (memo_step_total r j b) as (b1 & -> & Hl1); [done|lia..|]. cbn [mbind option_bind]. apply IH; lia.
Qed.
Lemma memo_rounds_total k r (b : list byte) :
  length b = (64 * r)%nat -> Z.of_nat r < 2 ^ 26 ->
  exists b', memo_rounds Keccak512 k (Z.of_nat r) b = Some b' /\ length b' = (64 * r)%nat.
Proof.
  revert b. induction k as [|k IH]; intros b Hl Hr; cbn [memo_rounds]; [by exists b|].
  destruct (memo_round_total (Z.to_nat (Z.of_nat r)) r 0 b) as (b1 & -> & Hl1); [done|lia..|]. cbn [mbind option_bind]. by apply IH.
Qed.

(** The cache is generated on every machine, with the same words. *)
Lemma generateCache_total r seed :
  (0 < r)%nat -> Z.of_nat r < 2 ^ 26 ->
  exists ws, cache_ok ws (Z.of_nat r) /\ forall little, generateCache Keccak512 little (16 * r) seed = Some ws.
Proof.
  intros H0 Hr. set (b0 := zeros (4 * (16 * r))). assert (length b0 = (64 * r)%nat) as Hl0 by (unfold b0; rewrite length_zeros; lia).
  destruct (hash_into_ok 0 (Keccak512 seed) b0) as [E1 Hl1]; [lia|unfold zlen; rewrite keccak512_len; lia|].
  set (b1 := copy_at _ _ _) in *.
  destruct (fill_cache_ok (S r) r 0 b1) as (b2 & E2 & Hl2 & _); [lia..|].
  destruct (memo_rounds_total cacheRounds r b2) as (b3 & E3 & Hl3); [done..|].
  exists (words true (16 * r) b3). split.
  { split; [unfold zlen, hashWords; rewrite length_words; lia|lia]. }
  intros little. unfold generateCache. fold b0. replace (zlen b0 / hashBytes) with (Z.of_nat r)
    by (unfold zlen, hashBytes; rewrite Hl0, Nat2Z.inj_mul, Z.mul_comm, Z.div_mul; lia).
  rewrite E1. cbn [mbind option_bind]. rewrite Nat2Z.id. change hashBytes with (64 * (Z.of_nat 0 + 1)). rewrite E2. cbn [mbind option_bind].
  rewrite E3. cbn [mbind option_bind]. destruct little; cbn [mbind option_bind]; [done|].
  unfold swap. rewrite Hl3. replace (64 * r)%nat with (16 * r * 4)%nat by lia. rewrite Nat.Div0.mod_mul, Nat.div_mul by lia. cbn [Nat.eqb mbind option_bind].
  rewrite swap_words_words by lia. done.
Qed.
(** ** The function returns *)

Lemma mix_loop_total n i rows seedHead lookup mix :
  0 <= i -> length mix = 32%nat -> (forall k, exists d, lookup k = Some d /\ length d = 16%nat) ->
  exists mix', mix_loop n i rows seedHead lookup mix = Some mix' /\ length mix' = 32%nat.
Proof.
  intros Hi Hl Hk. revert i mix Hi Hl. induction n as [|n IH]; intros i mix Hi Hl; cbn [mix_loop]; [by exists mix|].
  destruct (lookup_lt_is_Some_2 mix (Z.to_nat (i mod zlen mix))) as [m ->].
  { unfold zlen. rewrite Hl. pose proof (Z.mod_pos_bound i 32). lia. }
  cbn [mbind option_bind].
  match goal with |- context [lookup (u32 (2 * ?p))] => destruct (Hk (u32 (2 * p))) as (d0 & -> & H0), (Hk (u32 (2 * p + 1))) as (d1 & -> & H1) end.
  cbn [mbind option_bind]. destruct (fnvHash_total mix (take 16 d0 ++ take 16 d1)) as (mix' & -> & Hl').
  { rewrite length_app, !length_take. lia. }
  cbn [mbind option_bind]. apply IH; lia.
Qed.

Lemma hashimotoLight_total cache rows size hash nonce :
  cache_ok cache rows -> 128 <= size < 2 ^ 38 ->
  exists digest result, hashimotoLight Keccak512 size cache hash nonce = Some (digest, result) /\
    length digest = 32%nat /\ exists d, result = Keccak256 d.
Proof.
  intros Hc Hs. unfold hashimotoLight, hashimoto. assert (1 <= size / mixBytes < 2 ^ 31) as Hr.
  { split; [apply Z.div_le_lower_bound|apply Z.div_lt_upper_bound]; unfold mixBytes; lia. }
  rewrite u32_small, (proj2 (Z.eqb_neq _ _)) by lia. set (lookup := fun index : Z => generateDatasetItem Keccak512 cache index ≫= _).
  set (seed := Keccak512 (_ ++ _)).
  destruct (mix_loop_total loopAccesses 0 (size / mixBytes) (word true (take 4 seed)) lookup (words true 16 seed ++ words true 16 seed))
    as (mix & -> & Hl); [done|by rewrite length_app, length_words| |].
  { intros k. unfold lookup. destruct (item_total cache rows k Hc) as (item & -> & Hi). eexists. split; [done|]. rewrite length_words, Hi. done. }
  cbn [mbind option_bind]. eexists _, _. split; [done|]. split; [|by eexists].
  do 33 (destruct mix as [|? mix]; try discriminate Hl). cbn [compress]. unfold bytes_of.
  cbn [map concat]. rewrite !length_app. unfold put_word. rewrite !length_rev, !length_be_bytes. done.
Qed.
End algorithm.
End HashimotoFacts.
