(* ===== verification/HashimotoThms.v ===== *)
(** * The proof-of-work function: theorems

    The dataset and the cache give the same results on every machine and for every schedule of the
    threads, the tables of sizes are within the bounds the algorithm needs, and what happens to a
    dataset of more than 4 GiB. *)

From S2P Require Import Prelude GoMath World Demo Hashimoto HashimotoSizes HashimotoFacts.

Module HashimotoThms.
Import Hashimoto HashimotoSizes HashimotoFacts.

(** ** The tables *)

Definition row_sizes_ok (e : nat) (c d : Z) : bool :=
  (c mod 64 =? 0) && (d mod 128 =? 0)
  && (2 ^ 24 + 2 ^ 17 * Z.of_nat e - 6400 <? c) && (c <? 2 ^ 24 + 2 ^ 17 * Z.of_nat e)
  && (2 ^ 30 + 2 ^ 23 * Z.of_nat e - 14080 <? d) && (d <? 2 ^ 30 + 2 ^ 23 * Z.of_nat e)
  && Bool.eqb (d <=? 2 ^ 32) (e <? 385)%nat.
Fixpoint table_ok (e : nat) (cs ds : list Z) : bool :=
  match cs, ds with
  | [], [] => true
  | c :: cs', d :: ds' => row_sizes_ok e c d && table_ok (S e) cs' ds'
  | _, _ => false
  end.

Lemma table_ok_lookup e k cs ds :
  table_ok e cs ds = true -> (k < length cs)%nat ->
  exists c d, cs !! k = Some c /\ ds !! k = Some d /\ row_sizes_ok (e + k) c d = true.
Proof.
  revert e k ds. induction cs as [|c cs IH]; intros e k [|d ds] Ht Hk; cbn in *; try done; [lia|].
  apply andb_prop in Ht as [H1 H2]. destruct k as [|k]; [exists c, d; by rewrite Nat.add_0_r|].
  destruct (IH (S e) k ds H2 ltac:(lia)) as (c' & d' & ? & ? & ?). exists c', d'. by rewrite Nat.add_succ_r.
Qed.
Lemma tables_checked : table_ok 0 cacheSizes datasetSizes = true.
Proof. vm_compute. reflexivity. Qed.
Lemma length_cacheSizes : length cacheSizes = 2048%nat.
Proof. vm_compute. reflexivity. Qed.
Lemma length_datasetSizes : length datasetSizes = 2048%nat.
Proof. vm_compute. reflexivity. Qed.
Lemma datasetSizes_385 : datasetSizes !! 385%nat = Some 4303349632.
Proof. vm_compute. reflexivity. Qed.
#[local] Opaque cacheSizes datasetSizes.

(** The sizes of an epoch in rows: [r] of the cache, [n] of the dataset. *)
Lemma epoch_sizes (e : nat) : (e < 2048)%nat ->
  exists r n, cacheSizes !! e = Some (64 * r) /\ datasetSizes !! e = Some (64 * n) /\ n mod 2 = 0 /\
    2 ^ 24 + 2 ^ 17 * Z.of_nat e - 6400 < 64 * r < 2 ^ 24 + 2 ^ 17 * Z.of_nat e /\
    2 ^ 30 + 2 ^ 23 * Z.of_nat e - 14080 < 64 * n < 2 ^ 30 + 2 ^ 23 * Z.of_nat e /\
    (64 * n <= 2 ^ 32 <-> (e < 385)%nat).
Proof.
  intros He. destruct (table_ok_lookup 0 e _ _ tables_checked) as (c & d & Hc & Hd & H); [by rewrite length_cacheSizes|].
  unfold row_sizes_ok in H. rewrite !andb_true_iff, !Z.eqb_eq, !Z.ltb_lt, eqb_true_iff in H. destruct H as [(((((H1 & H2) & H3) & H4) & H5) & H6) H7].
  apply Z.div_exact in H1, H2; [|lia..]. exists (c / 64), (2 * (d / 128)).
  rewrite <- H1. replace (64 * (2 * (d / 128))) with d by lia. assert (2 * (d / 128) mod 2 = 0) by (by rewrite Z.mul_comm, Z.mod_mul).
  split_and!; try done; [lia..|]. destruct (Z.leb_spec d (2 ^ 32)), (Nat.ltb_spec (0 + e) 385); try done; lia.
Qed.

(** For every epoch of the tables the cache has whole rows and the dataset an even number of
    rows (whole pairs); both stay below their growing thresholds, by less than 6400 and 14080
    bytes; cache offsets and row numbers fit into 32 bits; and the dataset fits into 4 GiB exactly
    for the epochs before 385. *)
Theorem table_bounds (e : nat) : (e < 2048)%nat ->
  exists c d, cacheSizes !! e = Some c /\ datasetSizes !! e = Some d /\
    c mod hashBytes = 0 /\ d mod mixBytes = 0 /\
    cacheInitBytes + cacheGrowthBytes * Z.of_nat e - 6400 < c < cacheInitBytes + cacheGrowthBytes * Z.of_nat e /\
    datasetInitBytes + datasetGrowthBytes * Z.of_nat e - 14080 < d < datasetInitBytes + datasetGrowthBytes * Z.of_nat e /\
    u32 c = c /\ u32 (d / hashBytes) = d / hashBytes /\
    (d <= 2 ^ 32 <-> (e < 385)%nat).
Proof.
  intros He. destruct (epoch_sizes e He) as (r & n & Hr & Hn & Hm & Bc & Bd & H4). exists (64 * r), (64 * n).
  unfold hashBytes, mixBytes, cacheInitBytes, cacheGrowthBytes, datasetInitBytes, datasetGrowthBytes.
  apply Z.div_exact in Hm; [|done]. rewrite (Z.mul_comm 64 n), Z.div_mul, (Z.mul_comm n 64) by done.
  rewrite !u32_small by lia. split_and!; try done; try lia; [by rewrite Z.mul_comm, Z.mod_mul|].
  rewrite Hm. replace (64 * (2 * (n / 2))) with (n / 2 * 128) by lia. by rewrite Z.mod_mul.
Qed.
Lemma table_bounds_witness :
  exists c d, cacheSizes !! 384%nat = Some c /\ datasetSizes !! 384%nat = Some d /\
    c mod hashBytes = 0 /\ d mod mixBytes = 0 /\
    cacheInitBytes + cacheGrowthBytes * Z.of_nat 384 - 6400 < c < cacheInitBytes + cacheGrowthBytes * Z.of_nat 384 /\
    datasetInitBytes + datasetGrowthBytes * Z.of_nat 384 - 14080 < d < datasetInitBytes + datasetGrowthBytes * Z.of_nat 384 /\
    u32 c = c /\ u32 (d / hashBytes) = d / hashBytes /\
    (d <= 2 ^ 32 <-> (384 < 385)%nat).
Proof. apply (table_bounds 384). lia. Defined.

(** ** The function *)

Section algorithm.
Context `{CryptoPrims}.
Variable Keccak512 : list byte -> list byte.
Hypothesis keccak512_len : forall d, length (Keccak512 d) = 64%nat.

Lemma late_percent n : 2 ^ 26 < n < 2 ^ 29 -> u32 (4 * Z.of_nat (16 * Z.to_nat n) / hashBytes / 100) <> 0.
Proof.
  intros Hn. unfold hashBytes. replace (4 * Z.of_nat (16 * Z.to_nat n)) with (n * 64) by lia. rewrite Z.div_mul by done.
  pose proof (Z.div_le_lower_bound n 100 1). pose proof (Z.div_le_upper_bound n 100 n). rewrite u32_small; lia.
Qed.
Lemma words_zero_row little n k : (k < n)%nat -> words little 16 (row k (zeros (4 * (16 * n)))) = replicate 16 0.
Proof.
  intros Hk. unfold row, zeros. rewrite drop_replicate, take_replicate, Nat.min_l by lia. destruct little; vm_compute; done.
Qed.

Lemma dataset_agrees little cache rows n threads schedule :
  cache_ok cache rows -> 100 <= n <= 2 ^ 26 -> (0 < threads)%nat -> n + Z.of_nat threads < 2 ^ 32 ->
  schedule ≡ₚ all_indices (64 * n) threads ->
  exists ds, generateDataset Keccak512 little (16 * Z.to_nat n) cache schedule = Some ds /\
    forall hash nonce, hashimotoFull Keccak512 ds hash nonce = hashimotoLight Keccak512 (64 * n) cache hash nonce.
Proof.
  intros Hc Hn Ht Hb Hs. destruct (generateDataset_rows Keccak512 keccak512_len little cache rows n threads schedule) as (ds & E & Hl & Hr); [done..|].
  exists ds. split; [done|]. intros hash nonce. unfold hashimotoFull, hashimotoLight. rewrite Hl. replace (16 * n * 4) with (64 * n) by lia.
  apply hashimoto_ext; [lia|]. intros k Hk. cbv zeta. apply (dataset_lookup Keccak512 keccak512_len cache rows n); try done; [lia| |].
  all: pose proof (Z.mul_div_le (64 * n) mixBytes ltac:(done)); unfold mixBytes in *; try lia. apply Hr. lia.
Qed.

(** C20: Mining from the dataset and verifying from the cache compute the same function.  For a cache
    with whole rows, a dataset of 100 to 2^26 rows, any number of threads, any interleaving of
    their steps and either byte order, [generateDataset] returns a dataset on which
    [hashimotoFull] returns a result for every hash and nonce: the digest (32 bytes) and the value
    that [hashimotoLight] computes from the cache. *)
Theorem full_is_light little cache rows n threads schedule :
  cache_ok cache rows -> 100 <= n <= 2 ^ 26 -> (0 < threads)%nat -> n + Z.of_nat threads < 2 ^ 32 ->
  schedule ≡ₚ all_indices (64 * n) threads ->
  exists ds, generateDataset Keccak512 little (16 * Z.to_nat n) cache schedule = Some ds /\
    forall hash nonce, exists digest result,
      hashimotoFull Keccak512 ds hash nonce = Some (digest, result) /\
      hashimotoLight Keccak512 (64 * n) cache hash nonce = Some (digest, result) /\ length digest = 32%nat.
Proof.
  intros Hc Hn Ht Hb Hs. destruct (dataset_agrees little cache rows n threads schedule) as (ds & E & He); [done..|].
  exists ds. split; [done|]. intros hash nonce. rewrite He.
  destruct (hashimotoLight_total Keccak512 keccak512_len cache rows (64 * n) hash nonce) as (digest & result & -> & Hl & _); [done|lia|].
  by exists digest, result.
Qed.

(** [generateDataset] computes the place of an item in 32 bits.  From epoch 385 on the dataset is
    larger than 4 GiB, and every row from 2^26 on stays zero, whatever the threads do: the items
    are written over the rows at the beginning.  [hashimotoFull] reads zeros there where
    [hashimotoLight] computes the item. *)
Theorem late_rows_zero little cache rows (e : nat) size threads schedule :
  cache_ok cache rows -> (385 <= e)%nat -> datasetSizes !! e = Some size -> (0 < threads)%nat -> Z.of_nat threads < 2 ^ 31 ->
  schedule ≡ₚ all_indices size threads ->
  exists ds, generateDataset Keccak512 little (Z.to_nat (size / 4)) cache schedule = Some ds /\
    2 ^ 26 < size / hashBytes /\
    forall k, 2 ^ 26 <= k < size / hashBytes -> take 16 (drop (16 * Z.to_nat k) ds) = replicate 16 0.
Proof.
  intros Hc He Hsize Ht Hb Hs. apply lookup_lt_Some in Hsize as He'. rewrite length_datasetSizes in He'.
  destruct (epoch_sizes e He') as (r & n & _ & Hn & _ & _ & Bd & H4). rewrite Hsize in Hn. apply Some_inj in Hn. subst size.
  assert (2 ^ 26 < n < 2 ^ 29) as Bn by lia. unfold hashBytes. rewrite (Z.mul_comm 64 n), Z.div_mul by done.
  replace (Z.to_nat (n * 64 / 4)) with (16 * Z.to_nat n)%nat by (replace (n * 64) with (16 * n * 4) by lia; rewrite Z.div_mul by done; lia).
  unfold generateDataset. set (b := zeros _). assert (length b = (64 * Z.to_nat n)%nat) as Hb0 by (unfold b; rewrite length_zeros; lia).
  destruct (put_items_high Keccak512 keccak512_len little cache rows (4 * Z.of_nat (16 * Z.to_nat n)) schedule b) as (ds & E & Hl & Hr); [done|exact (late_percent n Bn)|unfold zlen; lia| |].
  { apply Forall_forall. intros i Hi. rewrite Hs, all_indices_elem in Hi by lia. lia. }
  rewrite E. cbn [mbind option_bind]. eexists. split; [done|]. split; [lia|]. intros k Hk.
  rewrite words_row by lia. rewrite Hr by lia. apply words_zero_row. lia.
Qed.
End algorithm.

Definition demo_cache : list Z := replicate 16 7.
Lemma demo_cache_ok : cache_ok demo_cache 1.
Proof. vm_compute. done. Qed.
Lemma full_is_light_witness :
  exists ds, generateDataset mix_512 false (16 * Z.to_nat 100) demo_cache (all_indices (64 * 100) 4) = Some ds /\
    forall hash nonce, exists digest result,
      hashimotoFull (H := mix_prims) mix_512 ds hash nonce = Some (digest, result) /\
      hashimotoLight (H := mix_prims) mix_512 (64 * 100) demo_cache hash nonce = Some (digest, result) /\ length digest = 32%nat.
Proof.
  apply (full_is_light (H := mix_prims) mix_512 length_mix_512 false demo_cache 1 100 4 (all_indices (64 * 100) 4)).
  - exact demo_cache_ok.
  - lia.
  - lia.
  - lia.
  - reflexivity.
Defined.
Lemma late_rows_zero_witness :
  exists ds, generateDataset mix_512 true (Z.to_nat (4303349632 / 4)) demo_cache (all_indices 4303349632 4) = Some ds /\
    2 ^ 26 < 4303349632 / hashBytes /\
    forall k, 2 ^ 26 <= k < 4303349632 / hashBytes -> take 16 (drop (16 * Z.to_nat k) ds) = replicate 16 0.
Proof.
  apply (late_rows_zero mix_512 length_mix_512 true demo_cache 1 385 4303349632 4 (all_indices 4303349632 4)).
  - exact demo_cache_ok.
  - lia.
  - exact datasetSizes_385.
  - lia.
  - lia.
  - reflexivity.
Defined.
End HashimotoThms.
