(* ===== verification/Transactions.v ===== *)
(** * [core/types/transaction.go] and [transaction_signing.go]

    Transactions, their hashes and sizes, the three ways to sign them, and the set from which the
    miner takes transactions by price while honouring nonces.  The fields of a transaction that
    only cache its hash, size and sender are left out; a [*big.Int] field is a number, a nil
    recipient is [None].  A panic is [GPanic] or [None]. *)

From S2P Require Import Prelude GoMath Params World Rlp VmBase Transition Heap Types.

Module Transactions.
Import Types.

Inductive txError := ErrInvalidSig | ErrInvalidChainId | errRecover | errInvalidPublicKey | errSign.
Notation result := (gores txError).

(** ** Transactions *)

Record Transaction := mkTransaction {
  AccountNonce : Z;
  Price : Z;
  tx_GasLimit : Z;
  Recipient : option Address;
  Amount : Z;
  Payload : list byte;
  sigV : Z;
  sigR : Z;
  sigS : Z;
}.

#[export] Instance Transaction_eq_dec : EqDecision Transaction.
Proof. solve_decision. Defined.

Definition newTransaction (nonce : Z) (to : option Address) (amount gasLimit gasPrice : option Z) (data : list byte)
    : Transaction :=
  mkTransaction nonce (default 0 gasPrice) (default 0 gasLimit) to (default 0 amount) data 0 0 0.
Definition NewTransaction (nonce : Z) (to : Address) (amount gasLimit gasPrice : option Z) (data : list byte) : Transaction :=
  newTransaction nonce (Some to) amount gasLimit gasPrice data.
Definition NewContractCreation (nonce : Z) (amount gasLimit gasPrice : option Z) (data : list byte) : Transaction :=
  newTransaction nonce None amount gasLimit gasPrice data.

Definition Cost (tx : Transaction) : Z := Price tx * tx_GasLimit tx + Amount tx.

Definition recipient_value (to : option Address) : Rlp.value :=
  match to with Some a => Rlp.VBytes (be_bytes 20 a) | None => Rlp.VNilByteArray end.
(** The fields that are signed *)
Definition unsigned_fields (tx : Transaction) : list Rlp.value :=
  [ Rlp.VUint (AccountNonce tx); Rlp.VBigInt (Some (Price tx)); Rlp.VBigInt (Some (tx_GasLimit tx));
    recipient_value (Recipient tx); Rlp.VBigInt (Some (Amount tx)); Rlp.VBytes (Payload tx) ].
Definition tx_value (tx : Transaction) : Rlp.value :=
  Rlp.VStruct (unsigned_fields tx ++
    [Rlp.VBigInt (Some (sigV tx)); Rlp.VBigInt (Some (sigR tx)); Rlp.VBigInt (Some (sigS tx))]).

(** The number of bytes that [rlp.Encode] writes; its error is ignored. *)
Definition Size (tx : Transaction) : Z := zlen (default [] (Rlp.EncodeToBytes (tx_value tx))).

(** ** Signatures *)

Definition isProtectedV (V : Z) : bool :=
  if BitLen V <=? 8 then let v := Uint64 V in negb (v =? 27) && negb (v =? 28) else true.
Definition Protected (tx : Transaction) : bool := isProtectedV (sigV tx).

Definition deriveChainId (v : Z) : Z :=
  if BitLen v <=? 64 then
    let v := Uint64 v in
    if (v =? 27) || (v =? 28) then 0 else u64 (v - 35) / 2
  else (v - 35) / 2.
Definition ChainId_ (tx : Transaction) : Z := deriveChainId (sigV tx).

Inductive Signer := FrontierSigner | HomesteadSigner | EIP155Signer (chainId chainIdMul : Z).
Definition NewEIP155Signer (chainId : option Z) : Signer :=
  let chainId := default 0 chainId in EIP155Signer chainId (chainId * 2).
Definition signer_Equal (s s2 : Signer) : bool :=
  match s, s2 with
  | FrontierSigner, FrontierSigner | HomesteadSigner, HomesteadSigner => true
  | EIP155Signer c _, EIP155Signer c2 _ => c2 =? c
  | _, _ => false
  end.

Definition deriveSigner (V : Z) : Signer :=
  if negb (Sign V =? 0) && isProtectedV V then NewEIP155Signer (Some (deriveChainId V)) else HomesteadSigner.
Definition MakeSigner (config : ChainConfig) (blockNumber : Z) : Signer :=
  if IsEIP155 config blockNumber then NewEIP155Signer (Params.ChainId config)
  else if IsHomestead config blockNumber then HomesteadSigner
  else FrontierSigner.

Definition set_signature (v r s : Z) (tx : Transaction) : Transaction :=
  mkTransaction (AccountNonce tx) (Price tx) (tx_GasLimit tx) (Recipient tx) (Amount tx) (Payload tx) v r s.

(** [sig] is the signature as [R || S || V]; the last byte is added to at its width. *)
Definition WithSignature (signer : Signer) (tx : Transaction) (sig : list byte) : result Transaction :=
  match sig !! 64%nat with
  | Some b =>
      if negb (length sig =? 65)%nat then GPanic
      else
        let r := SetBytes (take 32 sig) in
        let s := SetBytes (take 32 (drop 32 sig)) in
        let v := byte_to_Z b in
        match signer with
        | EIP155Signer chainId chainIdMul =>
            let V := if negb (Sign chainId =? 0) then (v + 35) mod 256 + chainIdMul else v in
            GOk (set_signature V r s tx)
        | _ => GOk (set_signature ((v + 27) mod 256) r s tx)
        end
  | None => GPanic
  end.

Section crypto.
Context `{CryptoPrims}.

Definition tx_Hash (tx : Transaction) : Hash := rlpHash (tx_value tx).

Definition signer_Hash (signer : Signer) (tx : Transaction) : Hash :=
  match signer with
  | EIP155Signer chainId _ =>
      rlpHash (Rlp.VSlice false (unsigned_fields tx ++ [Rlp.VBigInt (Some chainId); Rlp.VUint 0; Rlp.VUint 0]))
  | _ => rlpHash (Rlp.VSlice false (unsigned_fields tx))
  end.

(** The recovery of the public key, once the byte [V] is known. *)
Definition recover (signer : Signer) (tx : Transaction) (V : Z) (homestead : bool) : result (list byte) :=
  check ValidateSignatureValues V (sigR tx) (sigS tx) homestead or ErrInvalidSig;
  let sig := LeftPadBytes (Bytes (sigR tx)) 32 ++ LeftPadBytes (Bytes (sigS tx)) 32 ++ [byte_of_Z V] in
  match EcrecoverPub (be_bytes 32 (signer_Hash signer tx)) sig with
  | None => GErr errRecover
  | Some pub =>
      check (match pub with b :: _ => byte_to_Z b =? 4 | [] => false end) or errInvalidPublicKey;
      GOk pub
  end.
Definition recover_plain (signer : Signer) (tx : Transaction) (homestead : bool) : result (list byte) :=
  check negb (BitLen (sigV tx) >? 8) or ErrInvalidSig;
  recover signer tx ((Uint64 (sigV tx) - 27) mod 256) homestead.

Definition PublicKey (signer : Signer) (tx : Transaction) : result (list byte) :=
  match signer with
  | FrontierSigner => recover_plain FrontierSigner tx false
  | HomesteadSigner => recover_plain HomesteadSigner tx true
  | EIP155Signer chainId chainIdMul =>
      if negb (Protected tx) then recover_plain HomesteadSigner tx true
      else
        check ChainId_ tx =? chainId or ErrInvalidChainId;
        recover signer tx ((Uint64 (sigV tx - chainIdMul) - 35) mod 256) true
  end.

Definition pub_address (pub : list byte) : Address := BytesToAddress (drop 12 (Keccak256 (drop 1 pub))).
Definition Sender (signer : Signer) (tx : Transaction) : result Address :=
  let+ pub := PublicKey signer tx in GOk (pub_address pub).

(** [Sign] is [crypto.Sign] with the private key. *)
Definition SignTx (Sign : list byte -> option (list byte)) (tx : Transaction) (s : Signer) : result Transaction :=
  match Sign (be_bytes 32 (signer_Hash s tx)) with
  | None => GErr errSign
  | Some sig => WithSignature s tx sig
  end.

Definition AsMessage (s : Signer) (tx : Transaction) : result Transition.Message :=
  let+ from := Sender s tx in
  GOk (Transition.mkMessage from (Recipient tx) (Price tx) (tx_GasLimit tx) (Amount tx) (AccountNonce tx) true (Payload tx)).

(** ** Sets of transactions *)

Definition TxDifference (a b : list Transaction) : list Transaction :=
  let remove : gset Hash := list_to_set (map tx_Hash b) in
  filter (fun tx => tx_Hash tx ∉ remove) a.

Definition byPrice (x y : Transaction) : bool := Price x >? Price y.

Record TransactionsByPriceAndNonce := mkTxSet {
  txs : gmap Address (list Transaction);
  heads : list Transaction;
}.

(** The first transaction of every account, in the order in which Go ranges over the map; an
    account without transactions panics. *)
Fixpoint take_heads (order : list (Address * list Transaction)) (m : gmap Address (list Transaction))
    : option (list Transaction * gmap Address (list Transaction)) :=
  match order with
  | [] => Some ([], m)
  | (acc, accTxs) :: order' =>
      match accTxs with
      | [] => None
      | tx :: rest => p ← take_heads order' (<[acc := rest]> m); Some (tx :: p.1, p.2)
      end
  end.
Definition NewTransactionsByPriceAndNonce (order : list (Address * list Transaction)) (m : gmap Address (list Transaction))
    : option TransactionsByPriceAndNonce :=
  p ← take_heads order m; Some (mkTxSet p.2 (Heap.Init byPrice p.1)).

Definition Peek (t : TransactionsByPriceAndNonce) : option Transaction := heads t !! 0%nat.

(** A sender that cannot be derived is the zero address. *)
Definition sender_of (tx : Transaction) : Address :=
  match Sender (deriveSigner (sigV tx)) tx with GOk a => a | _ => 0 end.

Definition pop_head (t : TransactionsByPriceAndNonce) : option TransactionsByPriceAndNonce :=
  p ← Heap.Pop byPrice (heads t); Some (mkTxSet (txs t) p.2).
Definition Shift (t : TransactionsByPriceAndNonce) : option TransactionsByPriceAndNonce :=
  match heads t with
  | [] => None
  | head :: others =>
      let acc := sender_of head in
      match txs t !! acc with
      | Some (tx :: rest) => Some (mkTxSet (<[acc := rest]> (txs t)) (Heap.Fix byPrice 0 (tx :: others)))
      | _ => pop_head t
      end
  end.
Definition Pop (t : TransactionsByPriceAndNonce) : option TransactionsByPriceAndNonce := pop_head t.
End crypto.
End Transactions.
