(* ===== verification/TransactionThms.v ===== *)
(** * Transactions: theorems

    Signing and recovery of the sender, protection against replay on another chain, and the order in
    which the miner takes transactions. *)

From S2P Require Import Prelude GoMath Params World Rlp RlpProofs VmBase Ideal Demo RlpRaw Transition Heap Types Transactions.

Module TransactionThms.
Import Types Transactions Rlp RlpProofs RlpRaw.

(** ** Signatures *)

Lemma LeftPad_be z n : 0 <= z < 256 ^ Z.of_nat n -> LeftPadBytes (Bytes z) (Z.of_nat n) = be_bytes n z.
Proof.
  intros Hz. pose proof (SetBytes_bound (Bytes z)) as Hb. rewrite SetBytes_Bytes in Hb by lia. rewrite LeftPadBytes_spec.
  assert (length (Bytes z) <= n)%nat as Hl.
  { unfold Bytes. rewrite length_be_bytes. pose proof (BitLen_nonneg z). apply Nat2Z.inj_le. rewrite Z2Nat.id by (apply Z.div_pos; lia).
    assert (BitLen z <= 8 * Z.of_nat n); [|pose proof (Z.div_le_mono (BitLen z + 7) (Z.of_nat n * 8 + 7) 8); rewrite (Z.div_add_l (Z.of_nat n)) in *; change (7 / 8) with 0 in *; lia].
    apply BitLen_bound; [lia..|]. rewrite Z.pow_mul_r by lia. change (2 ^ 8) with 256. lia. }
  unfold zlen in *. replace n with ((n - length (Bytes z)) + length (Bytes z))%nat at 2 by lia. rewrite be_bytes_pad by lia.
  f_equal; [f_equal; lia|]. rewrite <- (be_bytes_SetBytes (Bytes z)) at 1. by rewrite SetBytes_Bytes by lia.
Qed.

(** A signature as [crypto.Sign] makes it: 65 bytes, [r] and [s] in their ranges ([s] in the lower
    half), and a last byte of 0 or 1. *)
Definition sig_r (sig : list byte) : Z := SetBytes (take 32 sig).
Definition sig_s (sig : list byte) : Z := SetBytes (take 32 (drop 32 sig)).
Definition well_formed (sig : list byte) (v : Z) : Prop :=
  length sig = 65%nat /\ sig !! 64%nat = Some (byte_of_Z v) /\ (v = 0 \/ v = 1) /\
  1 <= sig_r sig < secp256k1_N /\ 1 <= sig_s sig <= secp256k1_halfN.

Lemma sig_rebuilt sig v : well_formed sig v ->
  LeftPadBytes (Bytes (sig_r sig)) 32 ++ LeftPadBytes (Bytes (sig_s sig)) 32 ++ [byte_of_Z v] = sig.
Proof.
  intros (Hl & Hv & _ & Hr & Hs). assert (secp256k1_N < 256 ^ Z.of_nat 32 /\ secp256k1_halfN < 256 ^ Z.of_nat 32) as [B1 B2] by done.
  change 32 with (Z.of_nat 32). rewrite !LeftPad_be by lia.
  assert (length (take 32 sig) = 32%nat) as L1 by (rewrite length_take; lia).
  assert (length (take 32 (drop 32 sig)) = 32%nat) as L2 by (rewrite length_take, length_drop; lia).
  pose proof (be_bytes_SetBytes (take 32 sig)) as E1. rewrite L1 in E1. pose proof (be_bytes_SetBytes (take 32 (drop 32 sig))) as E2. rewrite L2 in E2.
  unfold sig_r, sig_s. rewrite E1, E2.
  rewrite <- (take_drop 32 sig) at 3. f_equal. rewrite <- (take_drop 32 (drop 32 sig)) at 2. f_equal. rewrite drop_drop. change (32 + 32)%nat with 64%nat.
  rewrite (drop_S _ _ _ Hv), drop_ge by lia. done.
Qed.
Lemma sig_valid sig v homestead : well_formed sig v -> ValidateSignatureValues v (sig_r sig) (sig_s sig) homestead = true.
Proof.
  intros (_ & _ & Hv & Hr & Hs). assert (secp256k1_halfN < secp256k1_N) by done. unfold ValidateSignatureValues.
  rewrite (proj2 (Z.ltb_ge (sig_r sig) 1)), (proj2 (Z.ltb_ge (sig_s sig) 1)) by lia. cbn [orb].
  rewrite Z.gtb_ltb, (proj2 (Z.ltb_ge _ _)) by lia. rewrite andb_false_r. rewrite !(proj2 (Z.ltb_lt _ _)) by lia. destruct Hv as [-> | ->]; done.
Qed.

(** The value of [V] in a signed transaction *)
Definition signed_V (signer : Signer) (v : Z) : Z :=
  match signer with
  | EIP155Signer chainId chainIdMul => if negb (Sign chainId =? 0) then v + 35 + chainIdMul else v
  | _ => v + 27
  end.
Lemma WithSignature_ok signer tx sig v : well_formed sig v ->
  WithSignature signer tx sig = GOk (set_signature (signed_V signer v) (sig_r sig) (sig_s sig) tx).
Proof.
  intros (Hl & Hb & Hv & _). unfold WithSignature. rewrite Hb, Hl. cbn [Nat.eqb negb]. fold (sig_r sig) (sig_s sig).
  rewrite byte_to_of_Z, (Z.mod_small v) by lia. destruct signer as [| |c m]; cbn [signed_V].
  - by rewrite Z.mod_small by lia.
  - by rewrite Z.mod_small by lia.
  - by rewrite Z.mod_small by lia.
Qed.

Lemma BitLen_byte z : 0 <= z < 256 -> BitLen z <= 8.
Proof. intros Hz. apply BitLen_bound; [lia..|]. change (2 ^ 8) with 256. lia. Qed.
Lemma BitLen_u64 z : 0 <= z -> BitLen z <= 64 -> z < 2 ^ 64.
Proof. intros Hz Hb. by apply BitLen_bound in Hb. Qed.
Lemma BitLen_over z : 0 <= z -> (BitLen z <=? 8) = true -> z < 256.
Proof. intros Hz Hb%Z.leb_le. by apply BitLen_bound in Hb. Qed.

Lemma protected_V v c : 0 < c -> v = 0 \/ v = 1 -> isProtectedV (v + 35 + c * 2) = true.
Proof.
  intros Hc Hv. unfold isProtectedV. destruct (BitLen _ <=? 8) eqn:E; [|done]. apply BitLen_over in E; [|lia].
  rewrite Uint64_small by lia. rewrite !(proj2 (Z.eqb_neq _ _)) by lia. done.
Qed.
Lemma chain_of_V v c : 0 < c -> v = 0 \/ v = 1 -> deriveChainId (v + 35 + c * 2) = c.
Proof.
  intros Hc Hv. assert ((v + 35 + c * 2 - 35) / 2 = c) as E.
  { replace (v + 35 + c * 2 - 35) with (v + c * 2) by lia. rewrite Z.div_add by lia. destruct Hv as [-> | ->]; done. }
  unfold deriveChainId. destruct (BitLen _ <=? 64) eqn:Eb; [|exact E].
  apply Z.leb_le, BitLen_u64 in Eb; [|lia]. rewrite Uint64_small by lia. rewrite !(proj2 (Z.eqb_neq _ _)) by lia.
  cbn [orb]. unfold u64. by rewrite Z.mod_small by lia.
Qed.

Section recover.
Context `{CryptoPrims}.

Lemma signer_Hash_set signer v r s tx : signer_Hash signer (set_signature v r s tx) = signer_Hash signer tx.
Proof. done. Qed.

(** The key that signed is recovered once the byte [V] is back to 0 or 1. *)
Lemma recover_ok signer V tx sig v homestead b pub : well_formed sig v -> byte_to_Z b = 4 ->
  EcrecoverPub (be_bytes 32 (signer_Hash signer tx)) sig = Some (b :: pub) ->
  recover signer (set_signature V (sig_r sig) (sig_s sig) tx) v homestead = GOk (b :: pub).
Proof.
  intros Hs Hb E. unfold recover. cbn [sigR sigS set_signature]. rewrite (sig_valid _ _ _ Hs), signer_Hash_set, (sig_rebuilt _ _ Hs), E.
  cbn. by rewrite Hb.
Qed.
Lemma recover_plain_ok signer tx sig v homestead b pub : well_formed sig v -> byte_to_Z b = 4 ->
  EcrecoverPub (be_bytes 32 (signer_Hash signer tx)) sig = Some (b :: pub) ->
  recover_plain signer (set_signature (v + 27) (sig_r sig) (sig_s sig) tx) homestead = GOk (b :: pub).
Proof.
  intros Hs Hb E. pose proof Hs as (_ & _ & Hv & _). unfold recover_plain. cbn [sigV set_signature].
  rewrite Z.gtb_ltb, (proj2 (Z.ltb_ge _ _)) by (apply BitLen_byte; lia). cbn [negb]. rewrite Uint64_small by lia.
  replace (v + 27 - 27) with v by lia. rewrite Z.mod_small by lia. by apply recover_ok.
Qed.

(** The signers that mainnet and the test networks use: a chain has a positive id. *)
Definition signer_wf (signer : Signer) : Prop :=
  match signer with EIP155Signer c m => 0 < c /\ m = c * 2 | _ => True end.

Lemma PublicKey_ok signer tx sig v b pub : signer_wf signer -> well_formed sig v -> byte_to_Z b = 4 ->
  EcrecoverPub (be_bytes 32 (signer_Hash signer tx)) sig = Some (b :: pub) ->
  PublicKey signer (set_signature (signed_V signer v) (sig_r sig) (sig_s sig) tx) = GOk (b :: pub).
Proof.
  intros Hw Hs Hb E. destruct signer as [| |c m]; cbn [signed_V PublicKey]; [by apply recover_plain_ok..|].
  destruct Hw as [Hc ->]. pose proof Hs as (_ & _ & Hv & _). replace (Sign c =? 0) with false by (by destruct c). cbn [negb].
  unfold Protected, ChainId_. cbn [sigV set_signature]. rewrite protected_V, chain_of_V, Z.eqb_refl by done. cbn [negb guard gbind].
  replace (v + 35 + c * 2 - c * 2) with (v + 35) by lia. rewrite Uint64_small by lia.
  replace (v + 35 - 35) with v by lia. rewrite Z.mod_small by lia. by apply recover_ok.
Qed.

(** The signer that [From] derives from the signature alone *)
Lemma derived_signer signer v : signer_wf signer -> v = 0 \/ v = 1 ->
  deriveSigner (signed_V signer v) = match signer with EIP155Signer _ _ => signer | _ => HomesteadSigner end.
Proof.
  intros Hw Hv. destruct signer as [| |c m]; cbn [signed_V]; [by destruct Hv as [-> | ->]..|].
  destruct Hw as [Hc ->]. replace (Sign c =? 0) with false by (by destruct c). cbn [negb]. unfold deriveSigner.
  replace (Sign (v + 35 + c * 2) =? 0) with false by (destruct (v + 35 + c * 2) eqn:E; lia || done).
  by rewrite protected_V, chain_of_V by done.
Qed.

(** ** The signed data *)

Lemma strs_inj (xs ys : list (list byte)) :
  zlen (concat (map rlp (map Str xs))) < 2 ^ 64 -> concat (map rlp (map Str xs)) = concat (map rlp (map Str ys)) -> xs = ys.
Proof.
  revert ys. induction xs as [|x xs IH]; intros [|y ys] Hl E; cbn [map concat] in *; [done| | |].
  - symmetry in E. by apply app_eq_nil in E as [E%(rlp_nonempty (Str y)) _].
  - by apply app_eq_nil in E as [E%(rlp_nonempty (Str x)) _].
  - pose proof (Split_item (Str x) (concat (map rlp (map Str xs))) I Hl) as S1. rewrite E in S1, Hl.
    rewrite (Split_item (Str y) _ I Hl) in S1. injection S1 as _ <- E'. f_equal. apply IH; [|done].
    rewrite zlen_app in Hl. rewrite <- E'. pose proof (zlen_nonneg (rlp (Str y))). lia.
Qed.
Lemma list_strs_inj (xs ys : list (list byte)) : zlen (rlp (Lst (map Str xs))) < 2 ^ 64 ->
  rlp (Lst (map Str xs)) = rlp (Lst (map Str ys)) -> xs = ys.
Proof.
  intros Hl E. pose proof (Split_item (Lst (map Str xs)) []) as S1. pose proof (Split_item (Lst (map Str ys)) []) as S2.
  rewrite app_nil_r in *. rewrite E in S1. specialize (S1 I). rewrite <- E in S1, S2. specialize (S1 Hl). specialize (S2 I Hl).
  rewrite S1 in S2. injection S2 as S2. apply strs_inj; [|done]. cbn [rlp] in Hl. rewrite zlen_app in Hl.
  pose proof (zlen_nonneg (puthead 192 247 (zlen (concat (map rlp (map Str xs)))))). lia.
Qed.

(** The strings that are hashed *)
Definition signed_strings (signer : Signer) (tx : Transaction) : list (list byte) :=
  [Bytes (AccountNonce tx); Bytes (Price tx); Bytes (tx_GasLimit tx);
   match Recipient tx with Some a => be_bytes 20 a | None => [] end; Bytes (Amount tx); Payload tx] ++
  match signer with EIP155Signer c _ => [Bytes c; []; []] | _ => [] end.
(** Numbers are not negative, the nonce and the recipient have their widths, and the encoding its
    size in 64 bits. *)
Definition tx_wf (signer : Signer) (tx : Transaction) : Prop :=
  in_u64 (AccountNonce tx) /\ 0 <= Price tx /\ 0 <= tx_GasLimit tx /\ 0 <= Amount tx /\
  match Recipient tx with Some a => 0 <= a < 2 ^ 160 | None => True end /\
  match signer with EIP155Signer c _ => 0 <= c | _ => True end /\
  zlen (rlp (Lst (map Str (signed_strings signer tx)))) < 2 ^ 64.

Lemma signer_Hash_strings signer tx : tx_wf signer tx ->
  signer_Hash signer tx = Keccak256Hash (rlp (Lst (map Str (signed_strings signer tx)))).
Proof.
  intros ([Hn1 Hn2] & Hp & Hg & Ha & _ & Hc & Hl).
  assert (forall l, forallb uints_ok l = true -> forallb encodable l = true -> flat_map items l = map Str (signed_strings signer tx) ->
    rlpHash (VSlice false l) = Keccak256Hash (rlp (Lst (map Str (signed_strings signer tx))))) as Hrlp.
  { intros l Hu He Ei. unfold rlpHash. rewrite EncodeToBytes_enc; cbn [uints_ok encodable].
    - rewrite He. cbn [default]. unfold enc. cbn [items map concat]. by rewrite Ei, app_nil_r.
    - done.
    - unfold enc. cbn [items map concat]. by rewrite Ei, app_nil_r. }
  assert (forallb uints_ok (unsigned_fields tx) = true) as U.
  { unfold unsigned_fields, recipient_value. cbn. apply Z.leb_le in Hn1. apply Z.ltb_lt in Hn2. rewrite Hn1, Hn2. by destruct (Recipient tx). }
  assert (forallb encodable (unsigned_fields tx) = true) as E.
  { unfold unsigned_fields, recipient_value. cbn. apply Z.leb_le in Hp, Hg, Ha. rewrite Hp, Hg, Ha. by destruct (Recipient tx). }
  assert (flat_map items (unsigned_fields tx) = map Str (signed_strings FrontierSigner tx)) as I6.
  { unfold unsigned_fields, recipient_value, signed_strings. cbn. by destruct (Recipient tx). }
  destruct signer as [| |c m]; cbn [signer_Hash]; (apply Hrlp; [by rewrite ?forallb_app, ?U|rewrite ?forallb_app, ?E; cbn|rewrite ?flat_map_app, ?I6]); try done.
  by apply Z.leb_le in Hc as ->.
Qed.
End recover.

(** ** Properties *)

(** C27: A signature as [crypto.Sign] makes it, attached by [SignTx] under any of the three signers, the
    replay-protected one with a positive chain id, gives back the signer's address, both to the signer and to code that derives the signer from the
    signature alone; the signed fields stay as they were. *)
Theorem SignTx_sender `{CryptoPrims} (sign : list byte -> option (list byte)) (signer : Signer) (tx : Transaction) (sig : list byte) (v : Z) (b : byte) (pub : list byte) :
  signer_wf signer -> sign (be_bytes 32 (signer_Hash signer tx)) = Some sig -> well_formed sig v ->
  EcrecoverPub (be_bytes 32 (signer_Hash signer tx)) sig = Some (b :: pub) -> byte_to_Z b = 4 ->
  exists tx', SignTx sign tx signer = GOk tx' /\ Sender signer tx' = GOk (pub_address (b :: pub)) /\
    sender_of tx' = pub_address (b :: pub) /\ unsigned_fields tx' = unsigned_fields tx.
Proof.
  intros Hw E Hs Er Hb. unfold SignTx. rewrite E, (WithSignature_ok _ _ _ _ Hs). eexists. split; [done|].
  unfold Sender, sender_of. rewrite (PublicKey_ok _ _ _ _ _ _ Hw Hs Hb Er). split; [done|]. split; [|done].
  cbn [sigV set_signature]. rewrite derived_signer by (try done; by destruct Hs as (_ & _ & ? & _)). unfold Sender.
  destruct signer as [| |c m]; [|by rewrite (PublicKey_ok _ _ _ _ _ _ Hw Hs Hb Er)..].
  change (signed_V FrontierSigner v) with (signed_V HomesteadSigner v). by rewrite (PublicKey_ok HomesteadSigner _ _ _ _ _ I Hs Hb Er).
Qed.

Definition demo_sig : list byte := bs (4 :: List.repeat 7 63 ++ [1]).
Definition demo_tx (price : Z) : Transaction := NewTransaction 3 77 (Some 10) (Some 21000) (Some price) [].
Lemma demo_sig_ok : well_formed demo_sig 1.
Proof. split; [reflexivity|]. split; [reflexivity|]. split; [by right|]. vm_compute. repeat split; discriminate. Qed.

Lemma SignTx_sender_witness : exists tx', SignTx (fun _ => Some demo_sig) (demo_tx 5) (NewEIP155Signer (Some 61)) = GOk tx' /\
  @Sender mix_prims (NewEIP155Signer (Some 61)) tx' = GOk (@pub_address mix_prims (bs (List.repeat 4 65))).
Proof.
  pose proof (@SignTx_sender mix_prims (fun _ => Some demo_sig) (NewEIP155Signer (Some 61)) (demo_tx 5) demo_sig 1
    Byte.x04 (bs (List.repeat 4 64)) (conj eq_refl eq_refl) eq_refl demo_sig_ok eq_refl eq_refl) as (tx' & E & S & _).
  exact (ex_intro _ tx' (conj E S)).
Defined.

(** A transaction signed for one chain is refused by every other signer: by the signer of
    another chain as belonging to a wrong chain, by the unprotected signers as badly signed. *)
Theorem replay_refused `{CryptoPrims} (c : Z) (other : Signer) (tx tx' : Transaction) (sig : list byte) (v : Z) :
  0 < c -> well_formed sig v -> WithSignature (NewEIP155Signer (Some c)) tx sig = GOk tx' ->
  signer_Equal other (NewEIP155Signer (Some c)) = false ->
  Sender other tx' = GErr (match other with EIP155Signer _ _ => ErrInvalidChainId | _ => ErrInvalidSig end).
Proof.
  intros Hc Hs. pose proof Hs as (_ & _ & Hv & _). rewrite (WithSignature_ok _ _ _ _ Hs). intros <-%GOk_inj Ho.
  change (NewEIP155Signer (Some c)) with (EIP155Signer c (c * 2)) in *. cbn [signed_V]. replace (Sign c =? 0) with false by (by destruct c). cbn [negb].
  assert (forall s r h, recover_plain s (set_signature (v + 35 + c * 2) r h tx) (match s with FrontierSigner => false | _ => true end) = GErr ErrInvalidSig) as Hp.
  { intros s r h. unfold recover_plain. cbn [sigV set_signature]. rewrite Z.gtb_ltb. destruct (Z.ltb_spec 8 (BitLen (v + 35 + c * 2))); [done|].
    cbn [negb guard gbind]. assert (v + 35 + c * 2 < 256) by (apply BitLen_over; [lia|by apply Z.leb_le]).
    rewrite Uint64_small, Z.mod_small by lia. unfold recover, ValidateSignatureValues.
    rewrite !(proj2 (Z.eqb_neq (v + 35 + c * 2 - 27) _)) by lia. rewrite ?andb_false_r. cbn [orb]. by repeat case_match. }
  unfold Sender. destruct other as [| |c' m]; cbn [PublicKey]; [by rewrite (Hp FrontierSigner)|by rewrite (Hp HomesteadSigner)|].
  unfold Protected, ChainId_. cbn [sigV set_signature]. rewrite protected_V, chain_of_V by done. cbn [negb].
  cbn in Ho. by rewrite Ho.
Qed.

Lemma replay_refused_witness :
  @Sender mix_prims HomesteadSigner (set_signature 158 (sig_r demo_sig) (sig_s demo_sig) (demo_tx 5)) = GErr ErrInvalidSig /\
  @Sender mix_prims (NewEIP155Signer (Some 1)) (set_signature 158 (sig_r demo_sig) (sig_s demo_sig) (demo_tx 5)) = GErr ErrInvalidChainId.
Proof.
  split; refine (@replay_refused mix_prims 61 _ (demo_tx 5) _ demo_sig 1 eq_refl demo_sig_ok _ _); reflexivity.
Defined.

(** The signer of chain 0, which [MakeSigner] gives for a configuration without a chain id,
    stores the raw last byte of the signature as [V]: no transaction it signs is accepted by it. *)
Theorem chain_zero_unusable `{CryptoPrims} (config : ChainConfig) (n : Z) (tx tx' : Transaction) (sig : list byte) (v : Z) :
  Params.ChainId config = None -> IsEIP155 config n = true -> well_formed sig v ->
  WithSignature (MakeSigner config n) tx sig = GOk tx' -> Sender (MakeSigner config n) tx' = GErr ErrInvalidChainId.
Proof.
  intros Hc Hn Hs. pose proof Hs as (_ & _ & Hv & _). unfold MakeSigner. rewrite Hn, Hc.
  rewrite (WithSignature_ok _ _ _ _ Hs). intros <-%GOk_inj. by destruct Hv as [-> | ->].
Qed.

Definition no_chain_id : ChainConfig := mkChainConfig None (Some 0) None false (Some 0) 0 (Some 0) (Some 0) None.
Lemma chain_zero_unusable_witness :
  @Sender mix_prims (MakeSigner no_chain_id 5) (set_signature 1 (sig_r demo_sig) (sig_s demo_sig) (demo_tx 5)) = GErr ErrInvalidChainId.
Proof.
  refine (@chain_zero_unusable mix_prims no_chain_id 5 (demo_tx 5) _ demo_sig 1 eq_refl eq_refl demo_sig_ok _). reflexivity.
Defined.

(** The hash that is signed determines what was signed: the six fields of the transaction and,
    for a signer of a chain, the chain; the unprotected signers sign the same hash. *)
Theorem signer_Hash_binds `{CryptoPrims} `{!CryptoOK} (s s' : Signer) (tx tx' : Transaction) :
  tx_wf s tx -> tx_wf s' tx' -> signer_Hash s tx = signer_Hash s' tx' ->
  set_signature 0 0 0 tx = set_signature 0 0 0 tx' /\
  match s, s' with EIP155Signer c _, EIP155Signer c' _ => c = c' | EIP155Signer _ _, _ | _, EIP155Signer _ _ => False | _, _ => True end.
Proof.
  intros W W' E. rewrite !signer_Hash_strings in E by done. apply keccak_inj, list_strs_inj in E; [|apply W].
  destruct W as ([? ?] & ? & ? & ? & Hr & Hc & _), W' as ([? ?] & ? & ? & ? & Hr' & Hc' & _).
  assert (forall x y, 0 <= x -> 0 <= y -> Bytes x = Bytes y -> x = y) as Binj
    by (intros x y Hx Hy Ex; rewrite <- (SetBytes_Bytes x), <- (SetBytes_Bytes y), Ex by lia; done).
  assert (forall a, length (be_bytes 20 a) = 20%nat) as L by (intros; apply length_be_bytes).
  assert (Recipient tx = Recipient tx') as ER.
  { assert (match Recipient tx with Some a => be_bytes 20 a | None => [] end = match Recipient tx' with Some a => be_bytes 20 a | None => [] end) as E4
      by (unfold signed_strings in E; by injection E).
    destruct (Recipient tx) as [a|], (Recipient tx') as [a'|]; [|by specialize (L a); rewrite E4 in L|by specialize (L a'); rewrite <- E4 in L|done].
    f_equal. by apply (be_bytes_inj 20). }
  unfold set_signature, signed_strings in *. rewrite ER in *.
  destruct s as [| |c m], s' as [| |c' m']; cbn [app] in E; try discriminate E; injection E as E1 E2 E3 E4 E5; intros;
    (split; [f_equal; auto|auto]).
Qed.

Lemma signer_Hash_binds_witness : signer_Hash (NewEIP155Signer (Some 1)) (demo_tx 5) <> signer_Hash (NewEIP155Signer (Some 2)) (demo_tx 5).
Proof.
  intros E. pose proof (signer_Hash_binds (NewEIP155Signer (Some 1)) (NewEIP155Signer (Some 2)) (demo_tx 5) (demo_tx 5)) as B.
  destruct B as [_ B]; [..|discriminate B]; [vm_compute; repeat split; discriminate..|exact E].
Defined.
End TransactionThms.
