(* ===== verification/TransactionOrder.v ===== *)
(** * Transactions by price and nonce: theorems

    The heap of next transactions is a faithful view of what every account still has to offer: taking
    transactions one at a time yields the most expensive next transaction at every step, and honours
    the order of every account. *)

From S2P Require Import Prelude GoMath World Demo Heap Types Transactions.

Module TransactionOrder.
Import Types Transactions.

(** What the accounts still have to offer. *)
Notation offers := (gmap Address (list Transaction)).

(** ** Specification: taking the best offer, one at a time

    After a transaction was taken the account goes on with its next one, or is left out. *)
Inductive by_price (keep : Transaction -> bool) : offers -> list Transaction -> Prop :=
| bp_done rem : (forall acc l, rem !! acc = Some l -> l = []) -> by_price keep rem []
| bp_take rem acc tx rest out :
    rem !! acc = Some (tx :: rest) ->
    (forall acc' tx' rest', rem !! acc' = Some (tx' :: rest') -> Price tx' <= Price tx) ->
    by_price keep (<[acc := if keep tx then rest else []]> rem) out ->
    by_price keep rem (tx :: out).

(** ** The number of transactions on offer *)

Definition total (rem : offers) : nat := length (flat_map snd (map_to_list rem)).
Lemma total_insert acc l l' rem : rem !! acc = Some l ->
  (total (<[acc := l']> rem) + length l = total rem + length l')%nat.
Proof.
  intros E. assert (forall x, total (<[acc := x]> (delete acc rem)) = (length x + total (delete acc rem))%nat) as H.
  { intros x. unfold total. rewrite (Permutation_length (l' := flat_map snd ((acc, x) :: map_to_list (delete acc rem)))); [cbn; by rewrite length_app|].
    apply Permutation_flat_map, map_to_list_insert, lookup_delete_eq. }
  pose proof (H l) as H1. pose proof (H l') as H2. rewrite insert_delete_eq in H1, H2. rewrite insert_id in H1 by done. lia.
Qed.

Section order.
Context `{CryptoPrims}.

(** The miner's loop, with the decision after every transaction; [None] is a panic or a loop that did
    not end. *)
Fixpoint drain (keep : Transaction -> bool) (fuel : nat) (t : TransactionsByPriceAndNonce) : option (list Transaction) :=
  match Peek t, fuel with
  | None, _ => Some []
  | Some _, O => None
  | Some tx, S fuel' =>
      t' ← (if keep tx then Shift t else Pop t); out ← drain keep fuel' t'; Some (tx :: out)
  end.

Notation heap_ok := (Heap.heap_ok (fun tx => - Price tx)).
Lemma byPrice_key x y : byPrice x y = (- Price x <? - Price y).
Proof. unfold byPrice. rewrite Z.gtb_ltb. destruct (Z.ltb_spec (Price y) (Price x)), (Z.ltb_spec (- Price x) (- Price y)); lia || done. Qed.

Record offered (rem : offers) (t : TransactionsByPriceAndNonce) : Prop := {
  of_heap : heap_ok (heads t);
  of_nodup : NoDup (map sender_of (heads t));
  of_owner : forall acc l tx, rem !! acc = Some l -> tx ∈ l -> sender_of tx = acc;
  of_heads : forall tx, tx ∈ heads t -> rem !! sender_of tx = Some (tx :: default [] (txs t !! sender_of tx));
  of_all : forall acc tx rest, rem !! acc = Some (tx :: rest) -> tx ∈ heads t;
}.

Lemma Peek_best rem t tx : offered rem t -> Peek t = Some tx ->
  exists others, heads t = tx :: others /\
    forall acc tx' rest, rem !! acc = Some (tx' :: rest) -> Price tx' <= Price tx.
Proof.
  intros O E. unfold Peek in E. destruct (heads t) as [|x others] eqn:Eh; [done|]. injection E as ->. exists others. split; [done|].
  intros acc tx' rest Hr. pose proof (of_all _ _ O _ _ _ Hr) as Hin. apply list_elem_of_lookup in Hin as [m Hm].
  apply lookup_lt_Some in Hm as Hl. pose proof (Heap.heap_min _ _ m (of_heap _ _ O) Hl) as Hmin. unfold Heap.at_ in Hmin.
  rewrite Hm, Eh in Hmin. cbn in Hmin. lia.
Qed.

(** Leaving out the account of the first transaction *)
Lemma Pop_offered rem t tx others : offered rem t -> heads t = tx :: others ->
  exists t', Pop t = Some t' /\ offered (<[sender_of tx := []]> rem) t'.
Proof.
  intros O Eh. unfold Pop, pop_head. destruct (Heap.Pop_ok byPrice _ byPrice_key (heads t) (of_heap _ _ O)) as (x & h' & E & E0 & Hp & Hh & _); [by rewrite Eh|].
  rewrite Eh in E0. injection E0 as <-. rewrite E. eexists. split; [done|].
  assert (NoDup (map sender_of (tx :: h'))) as [Hni Hnd]%NoDup_cons by (rewrite <- Hp; apply O).
  assert (forall y, y ∈ h' -> sender_of y <> sender_of tx) as Hne by (intros y Hy Ey; apply Hni; rewrite <- Ey; by apply list_elem_of_fmap_2).
  split; cbn [heads txs snd]; [done|done| | |].
  - intros acc l y Hl Hy. apply lookup_insert_Some in Hl as [[_ <-]|[_ Hl]]; [by apply elem_of_nil in Hy|by eapply of_owner].
  - intros y Hy. rewrite lookup_insert_ne by (symmetry; by apply Hne). apply O. rewrite Hp. by right.
  - intros acc y rest Hr. apply lookup_insert_Some in Hr as [[_ Hr]|[Hne' Hr]]; [done|].
    pose proof (of_all _ _ O _ _ _ Hr) as Hin. rewrite Hp in Hin. apply elem_of_cons in Hin as [->|Hin]; [|done].
    destruct Hne'. eapply (of_owner _ _ O); [exact Hr|by left].
Qed.

(** Going on with the next transaction of the account *)
Lemma Shift_offered rem t tx others rest : offered rem t -> heads t = tx :: others -> rem !! sender_of tx = Some (tx :: rest) ->
  exists t', Shift t = Some t' /\ offered (<[sender_of tx := rest]> rem) t'.
Proof.
  intros O Eh Er. pose proof (of_heads _ _ O tx ltac:(rewrite Eh; by left)) as Et. rewrite Er in Et. injection Et as Et.
  unfold Shift. rewrite Eh. destruct (txs t !! sender_of tx) as [[|y rest']|] eqn:Ex; cbn in Et; subst rest; [by eapply Pop_offered| |by eapply Pop_offered].
  eexists. split; [done|]. pose proof (of_heap _ _ O) as Hh. rewrite Eh in Hh.
  destruct (Heap.Fix_head_ok byPrice _ byPrice_key tx y others Hh) as [Hh' Hp].
  assert (sender_of y = sender_of tx) as Ey by (eapply (of_owner _ _ O); [exact Er|right; left]).
  pose proof (of_nodup _ _ O) as Hnd. rewrite Eh in Hnd. cbn in Hnd. apply NoDup_cons in Hnd as [Hni Hnd].
  split; cbn [heads txs]; [done| | | |].
  - rewrite Hp. cbn. rewrite Ey. by apply NoDup_cons.
  - intros acc l z Hl Hz. apply lookup_insert_Some in Hl as [[<- <-]|[_ Hl]]; [|by eapply of_owner].
    eapply (of_owner _ _ O); [exact Er|by right].
  - intros z Hz. rewrite Hp in Hz. apply elem_of_cons in Hz as [->|Hz]; [by rewrite Ey, !lookup_insert_eq|].
    assert (sender_of tx <> sender_of z) by (intros E; apply Hni; rewrite E; by apply list_elem_of_fmap_2).
    rewrite !lookup_insert_ne by done. apply O. rewrite Eh. by right.
  - intros acc z rest Hr. rewrite Hp. apply lookup_insert_Some in Hr as [[_ Hr]|[Hne Hr]]; [injection Hr as ->; by left|].
    pose proof (of_all _ _ O _ _ _ Hr) as Hin. rewrite Eh in Hin. apply elem_of_cons in Hin as [->|Hin]; [|by right].
    destruct Hne. eapply (of_owner _ _ O); [exact Hr|by left].
Qed.

Lemma drain_by_price keep fuel rem t : offered rem t -> (total rem <= fuel)%nat ->
  exists out, drain keep fuel t = Some out /\ by_price keep rem out.
Proof.
  revert rem t. induction fuel as [|fuel IH]; intros rem t O Hf; cbn [drain]; (destruct (Peek t) as [tx|] eqn:Ep;
    [destruct (Peek_best _ _ _ O Ep) as (others & Eh & Hbest); pose proof (of_heads _ _ O tx ltac:(rewrite Eh; by left)) as Er;
     set (rest := default [] _) in Er; pose proof (total_insert _ _ (if keep tx then rest else []) _ Er) as Ht; cbn [length] in Ht;
     assert (length (if keep tx then rest else []) <= length rest)%nat by (destruct (keep tx); cbn; lia)
    |exists []; split; [done|]; apply bp_done; intros acc [|x l] Hl; [done|]; pose proof (of_all _ _ O _ _ _ Hl) as Hin;
     unfold Peek in Ep; destruct (heads t); [by apply elem_of_nil in Hin|done]]).
  - lia.
  - assert (exists t', (if keep tx then Shift t else Pop t) = Some t' /\ offered (<[sender_of tx := if keep tx then rest else []]> rem) t') as (t' & -> & O')
      by (destruct (keep tx); [by eapply Shift_offered|by eapply Pop_offered]).
    destruct (IH _ _ O') as (out & E & B); [lia|]. exists (tx :: out). cbn. rewrite E. split; [done|]. by eapply bp_take.
Qed.

(** ** The set as it is made *)

Lemma take_heads_ok order m : NoDup (map fst order) -> Forall (fun p => p.2 <> []) order ->
  exists hs m', take_heads order m = Some (hs, m') /\ map Some hs = map (fun p => head p.2) order /\
    (forall acc l, (acc, l) ∈ order -> m' !! acc = Some (tail l)) /\ (forall acc, acc ∉ map fst order -> m' !! acc = m !! acc).
Proof.
  revert m. induction order as [|[acc l] order IH]; intros m Hnd Hne; cbn [take_heads].
  { exists [], m. split_and!; try done. intros acc l Hin. by apply elem_of_nil in Hin. }
  cbn in Hnd. apply NoDup_cons in Hnd as [Hni Hnd]. apply Forall_cons in Hne as [Hl Hne]. cbn in Hl. destruct l as [|tx rest]; [done|].
  destruct (IH (<[acc := rest]> m) Hnd Hne) as (hs & m' & -> & Ehs & Hin & Hout). exists (tx :: hs), m'. cbn [mbind option_bind fst snd].
  split_and!; [done|cbn; by rewrite Ehs| |].
  - intros a l [E|Hi]%elem_of_cons; [injection E as -> ->; rewrite Hout by done; apply lookup_insert_eq|by apply Hin].
  - intros a Ha. cbn in Ha. rewrite Hout by set_solver. rewrite lookup_insert_ne; [done|set_solver].
Qed.

(** Every account offers something, and what it sent *)
Definition accounts_ok (m : offers) : Prop :=
  forall acc l, m !! acc = Some l -> l <> [] /\ Forall (fun tx => sender_of tx = acc) l.

Lemma New_offered order m : accounts_ok m -> order ≡ₚ map_to_list m ->
  exists t, NewTransactionsByPriceAndNonce order m = Some t /\ offered m t.
Proof.
  intros Hm Hp. assert (NoDup (map fst order)) as Hnd by (rewrite Hp; apply NoDup_fst_map_to_list).
  assert (forall acc l, (acc, l) ∈ order <-> m !! acc = Some l) as Hio by (intros; rewrite Hp; apply elem_of_map_to_list).
  assert (Forall (fun p => p.2 <> []) order) as Hne by (apply Forall_forall; intros [a l] Hi; by apply Hio, Hm in Hi as [? _]).
  destruct (take_heads_ok order m Hnd Hne) as (hs & m' & E & Ehs & Hin & _). unfold NewTransactionsByPriceAndNonce. rewrite E. cbn [mbind option_bind fst snd].
  eexists. split; [done|]. destruct (Heap.Init_ok byPrice _ byPrice_key hs) as [Hh Hph].
  assert (forall tx, tx ∈ hs <-> exists acc rest, m !! acc = Some (tx :: rest)) as Hhs.
  { intros tx. transitivity (Some tx ∈ map Some hs); [rewrite list_elem_of_fmap; naive_solver|]. rewrite Ehs, list_elem_of_fmap.
    split; [intros ([a l] & El & Hi)|intros (a & rest & Hl); exists (a, tx :: rest); by rewrite Hio].
    exists a. apply Hio in Hi. cbn in El. destruct l as [|y rest]; [done|]. injection El as ->. eauto. }
  assert (forall tx acc rest, m !! acc = Some (tx :: rest) -> sender_of tx = acc) as Hown
    by (intros tx acc rest Hl; apply Hm in Hl as [_ Hl]; by apply Forall_cons in Hl as [? _]).
  split; cbn [heads txs]; [done| | | |].
  - rewrite Hph. assert (map sender_of hs = map fst order) as ->; [|done]. clear -Ehs Hne Hio Hown. revert hs Ehs.
    assert (forall p, p ∈ order -> m !! p.1 = Some p.2) as Hio' by (intros [a l] Hi; by apply Hio). clear Hio.
    induction order as [|[acc l] order IH]; intros [|tx hs] Ehs; try done. cbn in Ehs |- *. injection Ehs as El Ehs.
    apply Forall_cons in Hne as [_ Hne]. f_equal; [|apply IH; [done|intros; apply Hio'; by right|done]].
    destruct l as [|y rest]; [done|]. injection El as ->. eapply (Hown _ _ rest). apply (Hio' (acc, y :: rest)). by left.
  - intros acc l tx Hl Htx. apply Hm in Hl as [_ Hl]. rewrite Forall_forall in Hl. by apply Hl.
  - intros tx Htx. rewrite Hph in Htx. apply Hhs in Htx as (acc & rest & Hl). rewrite (Hown _ _ _ Hl). rewrite Hl. by rewrite (Hin acc (tx :: rest)) by by apply Hio.
  - intros acc tx rest Hl. rewrite Hph. apply Hhs. eauto.
Qed.
End order.

(** ** Properties *)

(** C25: Whatever order Go gives to the accounts, the set can be made, and taking transactions until
    nothing is left, going on with the account or leaving it out after every one, takes at every step
    a transaction than which no account offers a more expensive next one, and takes the transactions of
    every account in their order; as many steps as there are transactions are enough. *)
Theorem price_order `{CryptoPrims} (keep : Transaction -> bool) (order : list (Address * list Transaction)) (m : offers) :
  accounts_ok m -> order ≡ₚ map_to_list m ->
  exists t out, NewTransactionsByPriceAndNonce order m = Some t /\ drain keep (total m) t = Some out /\ by_price keep m out.
Proof.
  intros Hm Hp. destruct (New_offered order m Hm Hp) as (t & E & O). destruct (drain_by_price keep (total m) m t O) as (out & Ed & B); [done|]. eauto.
Qed.

(** An account without signatures and one with, by turns *)
Definition demo_unsigned (nonce price : Z) : Transaction := mkTransaction nonce price 0 None 0 [] 0 0 0.
Definition demo_signed (nonce price : Z) : Transaction := mkTransaction nonce price 0 None 0 [] 28 (4 * 2 ^ 248) 7.
Definition demo_account : Address := Eval vm_compute in @sender_of mix_prims (demo_signed 0 0).
Definition demo_order : list (Address * list Transaction) :=
  [(0, [demo_unsigned 1 4; demo_unsigned 2 9]); (demo_account, [demo_signed 1 6; demo_signed 2 3])].
Lemma demo_account_ok : demo_account <> 0 /\ @sender_of mix_prims (demo_signed 1 6) = demo_account /\ @sender_of mix_prims (demo_signed 2 3) = demo_account.
Proof. vm_compute. split_and!; [discriminate|reflexivity..]. Qed.

Lemma price_order_witness : exists t out,
  NewTransactionsByPriceAndNonce demo_order (list_to_map demo_order) = Some t /\
  @drain mix_prims (fun _ => true) (total (list_to_map demo_order)) t = Some out /\ by_price (fun _ => true) (list_to_map demo_order) out.
Proof.
  apply (@price_order mix_prims (fun _ => true) demo_order (list_to_map demo_order)).
  - intros acc l Hl%elem_of_list_to_map_2. unfold demo_order in Hl. rewrite !elem_of_cons in Hl.
    destruct Hl as [Hl|[Hl|Hl%elem_of_nil]]; [| |done]; injection Hl as -> ->.
    + split; [discriminate|]. repeat constructor.
    + split; [discriminate|]. constructor; [apply demo_account_ok|]. constructor; [apply demo_account_ok|constructor].
  - symmetry. apply map_to_list_to_map. cbn [demo_order map fst]. apply NoDup_cons. split; [|apply NoDup_singleton].
    intros E%list_elem_of_singleton. by apply demo_account_ok.
Defined.

Lemma demo_drained : (t ← NewTransactionsByPriceAndNonce demo_order (list_to_map demo_order); @drain mix_prims (fun _ => true) 4 t) =
  Some [demo_signed 1 6; demo_unsigned 1 4; demo_unsigned 2 9; demo_signed 2 3].
Proof. vm_compute. reflexivity. Qed.
End TransactionOrder.
