(* ===== verification/TxList.v ===== *)
(** * [core/tx_list.go]

    The transactions of one account by nonce, with a heap of nonces and a cached order, the list with
    its caps on cost and gas, and the heap of all transactions by price.

    What Go leaves open is an argument: the order in which a map is ranged over, and the order that
    [sort.Sort] gives to equal elements.  The indices of a map of nonces are unsigned 64-bit numbers; a
    panic is [None].  A nonce of the index without a transaction would put a nil pointer into a
    result, which panics at its first use; here it panics at once. *)

From stdpp Require Import sorting.
From S2P Require Import Prelude GoMath World Heap Types Transactions.

(** ** What Go leaves open *)

Class GoOrder := {
  range : forall A, gmap Z A -> list (Z * A);
  sort_by : forall A, (A -> Z) -> list A -> list A;
}.
Arguments range {_ A}.
Arguments sort_by {_ A}.
Class GoOrderOK `{GoOrder} : Prop := {
  range_perm A (m : gmap Z A) : range m ≡ₚ map_to_list m;
  sort_perm A key (l : list A) : sort_by key l ≡ₚ l;
  sort_sorted A key (l : list A) : StronglySorted (fun x y => key x <= key y) (sort_by key l);
}.

Module TxList.
Import Types Transactions.

(** ** [txSortedMap] *)

Definition nonce_less (x y : Z) : bool := x <? y.

Record txSortedMap := mkMap {
  items : gmap Z Transaction;
  index : list Z;
  cache : option (list Transaction);
}.
Definition newTxSortedMap : txSortedMap := mkMap ∅ [] None.

Definition Get (nonce : Z) (m : txSortedMap) : option Transaction := items m !! nonce.
Definition Put (tx : Transaction) (m : txSortedMap) : txSortedMap :=
  let nonce := AccountNonce tx in
  let index' := match items m !! nonce with None => Heap.Push nonce_less nonce (index m) | Some _ => index m end in
  mkMap (<[nonce := tx]> (items m)) index' None.

(** Popping every nonce below the threshold; every round takes an element of the heap. *)
Fixpoint forward_loop (fuel : nat) (threshold : Z) (items : gmap Z Transaction) (index : list Z)
    : option (list Transaction * gmap Z Transaction * list Z) :=
  match fuel, index with
  | S fuel', first :: _ =>
      if first <? threshold then
        p ← Heap.Pop nonce_less index;
        tx ← items !! p.1;
        q ← forward_loop fuel' threshold (delete p.1 items) p.2;
        Some (tx :: q.1.1, q.1.2, q.2)
      else Some ([], items, index)
  | _, _ => Some ([], items, index)
  end.
(** [m.cache[n:]] and [m.cache[:len(m.cache)-n]] *)
Definition cut_front (n : nat) (cache : option (list Transaction)) : option (option (list Transaction)) :=
  match cache with
  | None => Some None
  | Some c => if (n <=? length c)%nat then Some (Some (drop n c)) else None
  end.
Definition cut_back (n : nat) (cache : option (list Transaction)) : option (option (list Transaction)) :=
  match cache with
  | None => Some None
  | Some c => if (n <=? length c)%nat then Some (Some (take (length c - n) c)) else None
  end.
Definition Forward (threshold : Z) (m : txSortedMap) : option (list Transaction * txSortedMap) :=
  p ← forward_loop (length (index m)) threshold (items m) (index m);
  c ← cut_front (length p.1.1) (cache m);
  Some (p.1.1, mkMap p.1.2 p.2 c).

Section ordered.
Context `{GoOrder}.

Definition Filter (filter_ : Transaction -> bool) (m : txSortedMap) : list Transaction * txSortedMap :=
  let removed := filter (fun tx => filter_ tx = true) (map snd (range (items m))) in
  let items' := filter (fun p : Z * Transaction => filter_ p.2 = false) (items m) in
  match removed with
  | [] => ([], m)
  | _ => (removed, mkMap items' (Heap.Init nonce_less (map fst (range items'))) None)
  end.

(** The transactions at the sorted indices [threshold + n - 1] down to [threshold]. *)
Fixpoint cap_loop (n threshold : nat) (sorted : list Z) (items : gmap Z Transaction)
    : option (list Transaction * gmap Z Transaction) :=
  match n with
  | O => Some ([], items)
  | S n' =>
      nonce ← sorted !! (threshold + n')%nat;
      tx ← items !! nonce;
      p ← cap_loop n' threshold sorted (delete nonce items);
      Some (tx :: p.1, p.2)
  end.
Definition Cap (threshold : Z) (m : txSortedMap) : option (list Transaction * txSortedMap) :=
  if Z.of_nat (size (items m)) <=? threshold then Some ([], m)
  else if threshold <? 0 then None
  else
    let t := Z.to_nat threshold in
    let sorted := sort_by id (index m) in
    p ← cap_loop (size (items m) - t) t sorted (items m);
    c ← cut_back (length p.1) (cache m);
    Some (p.1, mkMap p.2 (Heap.Init nonce_less (take t sorted)) c).

Fixpoint find_nonce (nonce : Z) (index : list Z) : option nat :=
  match index with
  | [] => None
  | n :: index' => if n =? nonce then Some 0%nat else S <$> find_nonce nonce index'
  end.
Definition Remove (nonce : Z) (m : txSortedMap) : option (bool * txSortedMap) :=
  match items m !! nonce with
  | None => Some (false, m)
  | Some _ =>
      index' ← match find_nonce nonce (index m) with
               | Some i => snd <$> Heap.Remove nonce_less i (index m)
               | None => Some (index m)
               end;
      Some (true, mkMap (delete nonce (items m)) index' None)
  end.

Fixpoint ready_loop (fuel : nat) (next : Z) (items : gmap Z Transaction) (index : list Z)
    : option (list Transaction * gmap Z Transaction * list Z) :=
  match fuel, index with
  | S fuel', first :: _ =>
      if first =? next then
        tx ← items !! next;
        p ← Heap.Pop nonce_less index;
        q ← ready_loop fuel' (u64 (next + 1)) (delete next items) p.2;
        Some (tx :: q.1.1, q.1.2, q.2)
      else Some ([], items, index)
  | _, _ => Some ([], items, index)
  end.
Definition Ready (start : Z) (m : txSortedMap) : option (list Transaction * txSortedMap) :=
  match index m with
  | [] => Some ([], m)
  | first :: _ =>
      if first >? start then Some ([], m)
      else
        p ← ready_loop (length (index m)) first (items m) (index m);
        Some (p.1.1, mkMap p.1.2 p.2 None)
  end.

Definition map_Len (m : txSortedMap) : Z := Z.of_nat (size (items m)).
Definition Flatten (m : txSortedMap) : list Transaction * txSortedMap :=
  let c := match cache m with None => sort_by AccountNonce (map snd (range (items m))) | Some c => c end in
  (c, mkMap (items m) (index m) (Some c)).

(** ** [txList] *)

Record txList := mkList {
  strict : bool;
  txs : txSortedMap;
  costcap : Z;
  gascap : Z;
}.
Definition set_txs (m : txSortedMap) (l : txList) : txList := mkList (strict l) m (costcap l) (gascap l).
Definition newTxList (strict : bool) : txList := mkList strict newTxSortedMap 0 0.

Definition Overlaps (tx : Transaction) (l : txList) : bool := bool_decide (is_Some (Get (AccountNonce tx) (txs l))).

(** The price that a replacement must exceed: [100+int64(priceBump)] is computed at 64 bits. *)
Definition bump_threshold (old : Transaction) (priceBump : Z) : Z := Price old * i64 (100 + i64 priceBump) / 100.
Definition list_Add (tx : Transaction) (priceBump : Z) (l : txList) : bool * option Transaction * txList :=
  let old := Get (AccountNonce tx) (txs l) in
  let put := mkList (strict l) (Put tx (txs l))
               (if costcap l <? Cost tx then Cost tx else costcap l)
               (if gascap l <? tx_GasLimit tx then tx_GasLimit tx else gascap l) in
  match old with
  | Some o => if bump_threshold o priceBump >=? Price tx then (false, None, l) else (true, old, put)
  | None => (true, old, put)
  end.

Definition list_Forward (threshold : Z) (l : txList) : option (list Transaction * txList) :=
  p ← Forward threshold (txs l); Some (p.1, set_txs p.2 l).

Definition MaxUint64 : Z := 2 ^ 64 - 1.
Definition lowest (removed : list Transaction) : Z :=
  fold_left (fun low tx => if low >? AccountNonce tx then AccountNonce tx else low) removed MaxUint64.
(** The transactions that cost too much, and those of a strict list that they leave behind a gap. *)
Definition list_Filter (costLimit gasLimit : Z) (l : txList) : list Transaction * list Transaction * txList :=
  if (costcap l <=? costLimit) && (gascap l <=? gasLimit) then ([], [], l)
  else
    let '(removed, m) := Filter (fun tx => (Cost tx >? costLimit) || (tx_GasLimit tx >? gasLimit)) (txs l) in
    let '(invalids, m) :=
      if strict l && negb (length removed =? 0)%nat
      then Filter (fun tx => AccountNonce tx >? lowest removed) m else ([], m) in
    (removed, invalids, mkList (strict l) m costLimit gasLimit).

Definition list_Cap (threshold : Z) (l : txList) : option (list Transaction * txList) :=
  p ← Cap threshold (txs l); Some (p.1, set_txs p.2 l).
Definition list_Remove (tx : Transaction) (l : txList) : option (bool * list Transaction * txList) :=
  let nonce := AccountNonce tx in
  p ← Remove nonce (txs l);
  if negb p.1 then Some (false, [], set_txs p.2 l)
  else if strict l then
    let '(invalids, m) := Filter (fun tx => AccountNonce tx >? nonce) p.2 in Some (true, invalids, set_txs m l)
  else Some (true, [], set_txs p.2 l).
Definition list_Ready (start : Z) (l : txList) : option (list Transaction * txList) :=
  p ← Ready start (txs l); Some (p.1, set_txs p.2 l).
Definition Len (l : txList) : Z := map_Len (txs l).
Definition Empty (l : txList) : bool := Len l =? 0.
Definition list_Flatten (l : txList) : list Transaction * txList :=
  let '(c, m) := Flatten (txs l) in (c, set_txs m l).
End ordered.
End TxList.
