(* ===== verification/TxListFacts.v ===== *)
(** * The transactions of an account: facts

    A [txSortedMap] stands for the list of its transactions by increasing nonce ([view]): every
    operation keeps the heap, the map and the cached order in step, and is an operation on that list. *)

From stdpp Require Import sorting.
From S2P Require Import Prelude GoMath World Heap Types Transactions TxList.

Module TxListFacts.
Import Types Transactions TxList.

(** ** Transactions by nonce *)

Definition nonce_le (a b : Transaction) : Prop := AccountNonce a <= AccountNonce b.
Definition nonce_lt (a b : Transaction) : Prop := AccountNonce a < AccountNonce b.
#[export] Instance nonce_le_dec a b : Decision (nonce_le a b).
Proof. unfold nonce_le. apply _. Defined.
#[export] Instance nonce_le_trans : Transitive nonce_le.
Proof. intros a b c. unfold nonce_le. lia. Qed.
#[export] Instance nonce_le_total : Total nonce_le.
Proof. intros a b. unfold nonce_le. lia. Qed.
Notation strictly := (StronglySorted nonce_lt).

Definition by_nonce (its : gmap Z Transaction) : list Transaction := merge_sort nonce_le (map snd (map_to_list its)).
Definition view (m : txSortedMap) : list Transaction := by_nonce (items m).
(** Transactions are stored under their nonce. *)
Definition keyed (its : gmap Z Transaction) : Prop := forall n tx, its !! n = Some tx -> AccountNonce tx = n.

Lemma strictly_ext l1 l2 : strictly l1 -> strictly l2 -> (forall x, x ∈ l1 <-> x ∈ l2) -> l1 = l2.
Proof.
  revert l2. induction l1 as [|x l1 IH]; intros [|y l2] H1 H2 E; [done| | |].
  - pose proof (proj2 (E y) ltac:(by left)) as Hy. by apply elem_of_nil in Hy.
  - pose proof (proj1 (E x) ltac:(by left)) as Hx. by apply elem_of_nil in Hx.
  - apply StronglySorted_inv in H1 as [S1 F1], H2 as [S2 F2]. rewrite Forall_forall in F1, F2. unfold nonce_lt in *.
    assert (x = y) as <-.
    { pose proof (proj1 (E x) ltac:(by left)) as [|Hx]%elem_of_cons; [done|]. pose proof (proj2 (E y) ltac:(by left)) as [|Hy]%elem_of_cons; [done|].
      pose proof (F1 _ Hy). pose proof (F2 _ Hx). lia. }
    f_equal. apply IH; [done..|]. intros z. specialize (E z). rewrite !elem_of_cons in E.
    assert (forall w, w ∈ l1 -> w <> x) by (intros w Hw ->; specialize (F1 _ Hw); lia).
    assert (forall w, w ∈ l2 -> w <> x) by (intros w Hw ->; specialize (F2 _ Hw); lia). naive_solver.
Qed.
Lemma strictly_filter P `{!forall x, Decision (P x)} l : strictly l -> strictly (filter P l).
Proof.
  induction 1 as [|x l _ IH F]; [constructor|]. rewrite filter_cons. case_decide; [|done]. constructor; [done|].
  rewrite Forall_forall in *. intros y [_ Hy]%list_elem_of_filter. by apply F.
Qed.
Lemma strictly_app l1 l2 : strictly (l1 ++ l2) <-> strictly l1 /\ strictly l2 /\ forall x y, x ∈ l1 -> y ∈ l2 -> nonce_lt x y.
Proof.
  induction l1 as [|z l1 IH]; cbn [app].
  - split; [intros H; split_and!; [constructor|done|]; by intros x y ?%elem_of_nil|by intros (_ & ? & _)].
  - split.
    + intros [[S1 [S2 Hc]]%IH F]%StronglySorted_inv. rewrite Forall_app, !Forall_forall in F. destruct F as [F1 F2].
      split_and!; [constructor; [done|by apply Forall_forall]|done|]. intros x y [->|Hx]%elem_of_cons Hy; auto.
    + intros ([S1 F1]%StronglySorted_inv & S2 & Hc). constructor; [apply IH; split_and!; [done..|]; intros; apply Hc; [by right|done]|].
      apply Forall_app. split; [done|]. apply Forall_forall. intros y Hy. apply Hc; [by left|done].
Qed.
Lemma strictly_NoDup l : strictly l -> NoDup (map AccountNonce l).
Proof.
  induction 1 as [|x l _ IH F]; [constructor|]. cbn. apply NoDup_cons. split; [|done].
  intros (y & E & Hy)%list_elem_of_fmap. rewrite Forall_forall in F. specialize (F _ Hy). unfold nonce_lt in F. lia.
Qed.

Lemma by_nonce_perm its : by_nonce its ≡ₚ map snd (map_to_list its).
Proof. apply merge_sort_Permutation. Qed.
Lemma elem_by_nonce its tx : keyed its -> tx ∈ by_nonce its <-> its !! AccountNonce tx = Some tx.
Proof.
  intros K. rewrite by_nonce_perm, list_elem_of_fmap. split.
  - intros ([n tx'] & -> & Hin%elem_of_map_to_list). cbn. by rewrite (K _ _ Hin).
  - intros Hin. exists (AccountNonce tx, tx). split; [done|]. by apply elem_of_map_to_list.
Qed.
Lemma keys_nonces its : keyed its -> map AccountNonce (by_nonce its) ≡ₚ map fst (map_to_list its).
Proof.
  intros K. rewrite by_nonce_perm, map_map. assert (map (fun p => AccountNonce p.2) (map_to_list its) = map fst (map_to_list its)) as ->; [|done].
  apply map_ext_in. intros [n tx] Hin%list_elem_of_In%elem_of_map_to_list. by apply K.
Qed.
Lemma by_nonce_strict its : keyed its -> strictly (by_nonce its).
Proof.
  intros K. pose proof (StronglySorted_merge_sort nonce_le (map snd (map_to_list its))) as S. fold (by_nonce its) in S.
  assert (NoDup (map AccountNonce (by_nonce its))) as N by (rewrite keys_nonces by done; apply NoDup_fst_map_to_list).
  induction S as [|x l S IH F]; [constructor|]. cbn in N. apply NoDup_cons in N as [Hx N]. constructor; [by apply IH|].
  rewrite Forall_forall in *. intros y Hy. pose proof (F _ Hy). unfold nonce_le, nonce_lt in *.
  assert (AccountNonce x <> AccountNonce y) by (intros E; apply Hx; rewrite E; by apply list_elem_of_fmap_2). lia.
Qed.
Lemma by_nonce_unique its l : keyed its -> strictly l -> (forall tx, tx ∈ l <-> its !! AccountNonce tx = Some tx) -> by_nonce its = l.
Proof. intros K S E. apply strictly_ext; [by apply by_nonce_strict|done|]. intros x. by rewrite elem_by_nonce, E. Qed.
Lemma length_by_nonce its : length (by_nonce its) = size its.
Proof. rewrite by_nonce_perm, length_map. apply length_map_to_list. Qed.
Lemma by_nonce_lookup its n : keyed its -> its !! n = find (fun tx => AccountNonce tx =? n) (by_nonce its).
Proof.
  intros K. destruct (find _ _) as [tx|] eqn:E.
  - apply find_some in E as [Hin%list_elem_of_In <-%Z.eqb_eq]. by apply elem_by_nonce.
  - destruct (its !! n) as [tx|] eqn:En; [|done]. pose proof (K _ _ En). subst n.
    apply find_none with (x := tx) in E; [lia|]. by apply list_elem_of_In, elem_by_nonce.
Qed.

Lemma keyed_delete n its : keyed its -> keyed (delete n its).
Proof. intros K k tx [_ E]%lookup_delete_Some. by apply K. Qed.
Lemma keyed_insert tx its : keyed its -> keyed (<[AccountNonce tx := tx]> its).
Proof. intros K k tx' [[<- <-]|[_ E]]%lookup_insert_Some; [done|by apply K]. Qed.
Lemma keyed_filter P `{!forall p, Decision (P p)} its : keyed its -> keyed (filter P its).
Proof. intros K k tx [E _]%map_lookup_filter_Some. by apply K. Qed.

Lemma by_nonce_filter (P : Transaction -> Prop) `{!forall tx, Decision (P tx)} its : keyed its ->
  by_nonce (filter (fun p : Z * Transaction => P p.2) its) = filter P (by_nonce its).
Proof.
  intros K. apply by_nonce_unique; [by apply keyed_filter|by apply strictly_filter, by_nonce_strict|].
  intros tx. rewrite list_elem_of_filter, elem_by_nonce, map_lookup_filter_Some by done. cbn. tauto.
Qed.
Lemma by_nonce_delete n its : keyed its -> by_nonce (delete n its) = filter (fun tx => AccountNonce tx <> n) (by_nonce its).
Proof.
  intros K. apply by_nonce_unique; [by apply keyed_delete|by apply strictly_filter, by_nonce_strict|].
  intros tx. rewrite list_elem_of_filter, elem_by_nonce, lookup_delete_Some by done. naive_solver.
Qed.

(** ** The heap of nonces and the map *)

Notation heap_ok := (Heap.heap_ok (fun n : Z => n)).
Lemma nonce_less_key x y : nonce_less x y = (x <? y).
Proof. done. Qed.

Record paired (its : gmap Z Transaction) (idx : list Z) : Prop := {
  pd_heap : heap_ok idx;
  pd_index : idx ≡ₚ map AccountNonce (by_nonce its);
  pd_keyed : keyed its;
}.

Lemma paired_pop its first idx0 : paired its (first :: idx0) ->
  exists tx idx, Heap.Pop nonce_less (first :: idx0) = Some (first, idx) /\ its !! first = Some tx /\
    by_nonce its = tx :: by_nonce (delete first its) /\ paired (delete first its) idx.
Proof.
  intros [Hh Hp K]. destruct (Heap.Pop_ok nonce_less _ nonce_less_key _ Hh) as (x & idx & E & [= <-] & Hp' & Hh' & Hmin); [done|].
  assert (forall tx, tx ∈ by_nonce its -> first <= AccountNonce tx) as Hmin' by (intros y Hy; apply Hmin; rewrite Hp; by apply list_elem_of_fmap_2).
  assert (first ∈ map AccountNonce (by_nonce its)) as (tx & En & Hin)%list_elem_of_fmap by (rewrite <- Hp; by left).
  assert (by_nonce its = tx :: by_nonce (delete first its)) as Ev.
  { apply by_nonce_unique; [done| |].
    - constructor; [by apply by_nonce_strict, keyed_delete|]. apply Forall_forall. intros y.
      rewrite by_nonce_delete, list_elem_of_filter by done. intros [Hne Hy]. specialize (Hmin' _ Hy). unfold nonce_lt. lia.
    - intros y. rewrite elem_of_cons, elem_by_nonce, lookup_delete_Some by (by apply keyed_delete). apply elem_by_nonce in Hin; [|done].
      split; [intros [->|[_ Hy]]; done|]. intros Hy. destruct (decide (first = AccountNonce y)) as [E1|]; [|by right]. left. congruence. }
  exists tx, idx. split_and!; [done|rewrite En; by apply elem_by_nonce|done|]. split; [done| |by apply keyed_delete].
  rewrite Ev in Hp. cbn in Hp. rewrite <- En, Hp' in Hp. by apply Permutation_cons_inv in Hp.
Qed.
Lemma paired_least its first idx0 tx : paired its (first :: idx0) -> tx ∈ by_nonce its -> first <= AccountNonce tx.
Proof.
  intros [Hh Hp K] Hin. destruct (Heap.Pop_ok nonce_less _ nonce_less_key _ Hh) as (x & idx & E & [= <-] & Hp' & Hh' & Hmin); [done|].
  apply Hmin. rewrite Hp. by apply list_elem_of_fmap_2.
Qed.
Lemma paired_nil its : paired its [] -> by_nonce its = [].
Proof. intros [_ Hp _]. destruct (by_nonce its); [done|]. by apply Permutation_nil in Hp. Qed.

Lemma paired_shorter its its' idx idx0 first tx fuel : paired its' idx -> paired its (first :: idx0) -> by_nonce its = tx :: by_nonce its' ->
  (S (length idx0) <= S fuel -> length idx <= fuel)%nat.
Proof.
  intros P' P Ev. pose proof (Permutation_length (pd_index _ _ P)) as L. rewrite Ev, length_map in L.
  rewrite (pd_index _ _ P'), length_map. cbn in L. lia.
Qed.
#[local] Arguments paired_shorter {_ _ _ _ _ _ _}.

Lemma filter_none {A} (P : A -> Prop) `{!forall x, Decision (P x)} (l : list A) : (forall x, x ∈ l -> ~ P x) -> filter P l = [].
Proof. induction l as [|x l IH]; [done|]. intros Hn. rewrite filter_cons, decide_False by (apply Hn; by left). apply IH. intros; apply Hn; by right. Qed.
Lemma filter_all {A} (P : A -> Prop) `{!forall x, Decision (P x)} (l : list A) : (forall x, x ∈ l -> P x) -> filter P l = l.
Proof. induction l as [|x l IH]; [done|]. intros Hn. rewrite filter_cons, decide_True by (apply Hn; by left). f_equal. apply IH. intros; apply Hn; by right. Qed.

Lemma forward_loop_ok fuel t its idx : paired its idx -> (length idx <= fuel)%nat ->
  exists its' idx', forward_loop fuel t its idx = Some (filter (fun tx => AccountNonce tx < t) (by_nonce its), its', idx') /\
    paired its' idx' /\ by_nonce its' = filter (fun tx => ~ AccountNonce tx < t) (by_nonce its).
Proof.
  revert its idx. induction fuel as [|fuel IH]; intros its [|first idx0] P Hf; cbn [forward_loop length] in *; [|lia| |].
  1, 2: exists its, []; by rewrite (paired_nil _ P).
  destruct (Z.ltb_spec first t) as [Hlt|Hge].
  - destruct (paired_pop _ _ _ P) as (tx & idx & -> & El & Ev & P'). cbn [mbind option_bind fst snd]. rewrite El. cbn [mbind option_bind].
    destruct (IH _ _ P') as (its' & idx' & -> & P'' & Ev'). { by apply (paired_shorter P' P Ev). }
    exists its', idx'. cbn [mbind option_bind fst snd]. pose proof (pd_keyed _ _ P _ _ El) as En.
    rewrite Ev, !filter_cons, (decide_True (P := AccountNonce tx < t)), (decide_False (P := ~ _)) by lia. done.
  - exists its, (first :: idx0). rewrite filter_none, filter_all by (intros x Hx; pose proof (paired_least _ _ _ _ P Hx); lia). done.
Qed.

(** A run of consecutive nonces *)
Fixpoint run (next : Z) (l : list Transaction) : list Transaction :=
  match l with
  | tx :: l' => if AccountNonce tx =? next then tx :: run (next + 1) l' else []
  | [] => []
  end.
Lemma ready_loop_ok fuel next its idx : paired its idx -> (length idx <= fuel)%nat ->
  Forall (fun tx => next <= AccountNonce tx < 2 ^ 64) (by_nonce its) -> 0 <= next ->
  exists its' idx', ready_loop fuel (u64 next) its idx = Some (run next (by_nonce its), its', idx') /\
    paired its' idx' /\ by_nonce its' = drop (length (run next (by_nonce its))) (by_nonce its).
Proof.
  revert next its idx. induction fuel as [|fuel IH]; intros next its [|first idx0] P Hf B Hn; cbn [ready_loop length] in *; [|lia| |].
  1, 2: exists its, []; by rewrite (paired_nil _ P).
  destruct (paired_pop _ _ _ P) as (tx & idx & E & El & Ev & P'). pose proof (pd_keyed _ _ P _ _ El) as En.
  rewrite Ev in B |- *. apply Forall_cons in B as [B0 B]. assert (u64 next = next) as -> by (apply Z.mod_small; lia).
  cbn [run]. rewrite En. destruct (Z.eqb_spec first next) as [Heq|Hne].
  - rewrite <- Heq, El, E. cbn [mbind option_bind fst snd]. assert (u64 (first + 1) = u64 (u64 (first + 1))) as Eu by (symmetry; apply Z.mod_mod; lia).
    destruct (IH (first + 1) _ _ P') as (its' & idx' & -> & P'' & Ev'); [by apply (paired_shorter P' P Ev)| |lia|].
    + pose proof (by_nonce_strict _ (pd_keyed _ _ P)) as S. rewrite Ev in S. apply StronglySorted_inv in S as [_ S].
      rewrite Forall_forall in *. intros y Hy. specialize (S _ Hy). specialize (B _ Hy). unfold nonce_lt in S. lia.
    + exists its', idx'. cbn [mbind option_bind fst snd]. done.
  - exists its, (first :: idx0). cbn. by rewrite Ev.
Qed.

(** ** The invariant *)

Record wf (m : txSortedMap) : Prop := {
  wf_paired : paired (items m) (index m);
  wf_u64 : Forall (fun tx => in_u64 (AccountNonce tx)) (view m);
  wf_cache : cache m = None \/ cache m = Some (view m);
}.
#[export] Hint Resolve wf_paired pd_keyed by_nonce_strict keyed_delete keyed_insert : txlist.
Lemma wf_keyed m : wf m -> keyed (items m).
Proof. intros [P _ _]. apply P. Qed.
Lemma view_strict m : wf m -> strictly (view m).
Proof. intros W. by apply by_nonce_strict, wf_keyed. Qed.
Lemma elem_view m tx : wf m -> tx ∈ view m <-> items m !! AccountNonce tx = Some tx.
Proof. intros W. by apply elem_by_nonce, wf_keyed. Qed.
Lemma length_view m : Z.of_nat (length (view m)) = map_Len m.
Proof. unfold map_Len, view. by rewrite length_by_nonce. Qed.
Lemma map_wf_new : wf newTxSortedMap.
Proof.
  assert (by_nonce ∅ = []) as E by (unfold by_nonce; by rewrite map_to_list_empty).
  split; [split; cbn; [intros m Hm; cbn in Hm; lia|by rewrite E|]|unfold view; cbn; by rewrite E|by left]. intros n tx Hn. by rewrite lookup_empty in Hn.
Qed.
Lemma index_nil m : wf m -> index m = [] <-> view m = [].
Proof.
  intros [[_ Hp _] _ _]. fold (view m) in Hp. split; intros E; rewrite E in Hp; [|by apply Permutation_nil_r in Hp].
  destruct (view m); [done|]. by apply Permutation_nil in Hp.
Qed.

Lemma split_at t l : strictly l -> l = filter (fun tx => AccountNonce tx < t) l ++ filter (fun tx => ~ AccountNonce tx < t) l.
Proof.
  induction 1 as [|x l S IH F]; [done|]. rewrite !filter_cons. destruct (decide (AccountNonce x < t)) as [Hx|Hx].
  - rewrite (decide_False (P := ~ _)) by tauto. cbn. by f_equal.
  - rewrite (decide_True (P := ~ _)) by done. rewrite Forall_forall in F. unfold nonce_lt in F.
    rewrite filter_none, filter_all by (intros y Hy; specialize (F _ Hy); lia). done.
Qed.

(** ** The operations *)

Definition put_nonce (tx : Transaction) (l : list Transaction) : list Transaction :=
  filter (fun x => AccountNonce x < AccountNonce tx) l ++ tx :: filter (fun x => AccountNonce tx < AccountNonce x) l.

Lemma view_put tx its : keyed its -> by_nonce (<[AccountNonce tx := tx]> its) = put_nonce tx (by_nonce its).
Proof.
  intros K. apply by_nonce_unique; [by apply keyed_insert| |].
  - apply strictly_app. split_and!; [by apply strictly_filter, by_nonce_strict| |].
    + constructor; [by apply strictly_filter, by_nonce_strict|]. apply Forall_forall. by intros x [? _]%list_elem_of_filter.
    + unfold nonce_lt. intros x y [Hx _]%list_elem_of_filter [->|[Hy _]%list_elem_of_filter]%elem_of_cons; lia.
  - intros x. unfold put_nonce. rewrite elem_of_app, elem_of_cons, !list_elem_of_filter, !elem_by_nonce by done.
    rewrite lookup_insert_Some. destruct (Z.lt_trichotomy (AccountNonce x) (AccountNonce tx)) as [?|[?|?]]; [naive_solver lia..|naive_solver lia].
Qed.
Lemma Get_view m n : wf m -> Get n m = find (fun tx => AccountNonce tx =? n) (view m).
Proof. intros W. by apply by_nonce_lookup, wf_keyed. Qed.
Lemma Put_ok tx m : wf m -> in_u64 (AccountNonce tx) -> wf (Put tx m) /\ view (Put tx m) = put_nonce tx (view m).
Proof.
  intros W Hn. pose proof (wf_keyed _ W) as K. destruct W as [[Hh Hp _] U _]. pose proof (view_put tx _ K) as Ev. split; [|done].
  split; [split|unfold view; cbn [items Put]; rewrite Ev|by left]; cbn [items index Put].
  - destruct (items m !! AccountNonce tx); [done|]. by apply (Heap.Push_ok nonce_less _ nonce_less_key).
  - rewrite (keys_nonces (<[_ := _]> _)) by (by apply keyed_insert). rewrite keys_nonces in Hp by done.
    destruct (items m !! AccountNonce tx) as [old|] eqn:E.
    + rewrite Hp. transitivity (map fst ((AccountNonce tx, old) :: map_to_list (delete (AccountNonce tx) (items m)))).
      * by rewrite <- map_to_list_insert, insert_delete_id by (done || apply lookup_delete_eq).
      * rewrite <- (insert_delete_eq (items m)), map_to_list_insert by apply lookup_delete_eq. done.
    + destruct (Heap.Push_ok nonce_less _ nonce_less_key (AccountNonce tx) _ Hh) as [_ ->]. rewrite Hp. by rewrite map_to_list_insert.
  - by apply keyed_insert.
  - unfold put_nonce. apply Forall_app. rewrite Forall_cons, !Forall_forall in *. split_and!; [|done|]; intros x [_ Hx]%list_elem_of_filter; by apply U.
Qed.

Lemma Forward_ok t m : wf m -> exists m', Forward t m = Some (filter (fun tx => AccountNonce tx < t) (view m), m') /\
  wf m' /\ view m' = filter (fun tx => ~ AccountNonce tx < t) (view m).
Proof.
  intros W. pose proof (view_strict _ W) as S. destruct W as [P U C]. unfold Forward.
  destruct (forward_loop_ok (length (index m)) t _ _ P) as (its & idx & -> & P' & Ev); [done|]. cbn [mbind option_bind fst snd]. fold (view m) in *.
  set (front := filter _ (view m)). set (back := filter (fun tx => ~ _) (view m)) in Ev |- *. assert (view m = front ++ back) as Es by (by apply split_at).
  assert (Forall (fun tx => in_u64 (AccountNonce tx)) back) as U' by (rewrite Es in U; by apply Forall_app in U as [_ ?]).
  destruct C as [-> | ->]; cbn [cut_front mbind option_bind].
  - eexists. split; [done|]. split; [|done]. split; cbn; [done| |by left]. unfold view. cbn. by rewrite Ev.
  - rewrite Es, length_app, (proj2 (Nat.leb_le _ _)), drop_app_length by lia. eexists. split; [done|]. split; [|done].
    split; cbn; [done|unfold view; cbn; by rewrite Ev|right; unfold view; cbn; by rewrite Ev].
Qed.
Definition ready (start : Z) (l : list Transaction) : list Transaction :=
  match l with tx :: _ => if AccountNonce tx <=? start then run (AccountNonce tx) l else [] | [] => [] end.
Lemma Ready_ok start m : wf m -> exists m', Ready start m = Some (ready start (view m), m') /\
  wf m' /\ view m' = drop (length (ready start (view m))) (view m).
Proof.
  intros W. unfold Ready. destruct (index m) as [|first idx0] eqn:Ei.
  { apply index_nil in Ei; [|done]. rewrite Ei. exists m. by rewrite Ei. }
  destruct W as [P U C] eqn:Ew. clear Ew. pose proof P as P0. rewrite Ei in P0. destruct (paired_pop _ _ _ P0) as (tx & idx & _ & El & Ev & _). fold (view m) in Ev.
  pose proof (pd_keyed _ _ P _ _ El) as En.
  assert (ready start (view m) = if first <=? start then run first (view m) else []) as -> by (unfold ready; rewrite Ev, En; done).
  rewrite Z.gtb_ltb. destruct (Z.ltb_spec start first) as [Hs|Hs]; [rewrite (proj2 (Z.leb_gt _ _)) by done; by exists m|].
  rewrite (proj2 (Z.leb_le _ _)) by done. rewrite Forall_forall in U.
  assert (tx ∈ view m) as Hin by (rewrite Ev; by left). pose proof (U _ Hin) as [U1 U2].
  destruct (ready_loop_ok (length (index m)) first (items m) (index m) P) as (its & idx' & E & P' & Ev'); [done| |lia|].
  { apply Forall_forall. intros y Hy. split; [eapply paired_least; [exact P0|done]|by apply U]. }
  assert (u64 first = first) as Eu by (apply Z.mod_small; lia). rewrite Eu, Ei in E. rewrite E. cbn [mbind option_bind fst snd]. fold (view m) in *.
  eexists. split; [done|]. split; [|done]. split; cbn; [done| |by left]. unfold view at 1. cbn. rewrite Ev'. apply Forall_drop. by apply Forall_forall.
Qed.

Section ordered.
Context `{GoOrder} `{!GoOrderOK}.

Lemma range_txs its : map snd (range its) ≡ₚ by_nonce its.
Proof. by rewrite range_perm, by_nonce_perm. Qed.
Lemma filter_perm {A} (P : A -> Prop) `{!forall x, Decision (P x)} (l l' : list A) : l ≡ₚ l' -> filter P l ≡ₚ filter P l'.
Proof. by intros ->. Qed.

Lemma Filter_ok (f : Transaction -> bool) m : wf m ->
  exists removed m', Filter f m = (removed, m') /\ removed ≡ₚ filter (fun tx => f tx = true) (view m) /\
    wf m' /\ view m' = filter (fun tx => f tx = false) (view m).
Proof.
  intros W. pose proof (wf_keyed _ W) as K. unfold Filter.
  pose proof (filter_perm (fun tx => f tx = true) _ _ (range_txs (items m))) as Hp. fold (view m) in Hp.
  set (removed := filter _ (map snd _)) in *. destruct removed as [|x rs] eqn:Er.
  - exists [], m. split_and!; [done..|]. rewrite filter_all; [done|]. intros y Hy. apply not_true_iff_false. intros Hf.
    assert (y ∈ filter (fun tx => f tx = true) (view m)) as Hin by (by apply list_elem_of_filter). rewrite <- Hp in Hin. by apply elem_of_nil in Hin.
  - eexists _, _. split; [done|]. split; [done|]. set (its := filter _ (items m)). assert (keyed its) as K' by by apply keyed_filter.
    assert (by_nonce its = filter (fun tx => f tx = false) (view m)) as Ev by exact (by_nonce_filter (fun tx => f tx = false) (items m) K).
    split; [|done]. destruct (Heap.Init_ok nonce_less _ nonce_less_key (map fst (range its))) as [Hh Hpi].
    split; [split; cbn [items index]; [done| |done]|unfold view; cbn [items]; rewrite Ev|by left].
    + by rewrite Hpi, range_perm, keys_nonces.
    + pose proof (wf_u64 _ W) as U. rewrite Forall_forall in *. intros y [_ Hy]%list_elem_of_filter. by apply U.
Qed.

Lemma sorted_index m : wf m -> sort_by id (index m) = map AccountNonce (view m).
Proof.
  intros W. apply (StronglySorted_unique_strong Z.le); [intros; lia|apply sort_sorted| |rewrite sort_perm; apply W].
  pose proof (view_strict _ W) as S. induction S as [|x l S IH F]; [constructor|]. constructor; [done|].
  rewrite Forall_forall in F. apply Forall_forall. intros n (y & -> & Hy)%list_elem_of_fmap. specialize (F _ Hy). unfold nonce_lt in F. lia.
Qed.
Lemma by_nonce_last its l tx : keyed its -> by_nonce its = l ++ [tx] -> its !! AccountNonce tx = Some tx /\ by_nonce (delete (AccountNonce tx) its) = l.
Proof.
  intros K E. split; [apply elem_by_nonce; [done|]; rewrite E, elem_of_app; right; by left|].
  rewrite by_nonce_delete, E, filter_app by done. pose proof (by_nonce_strict _ K) as S. rewrite E in S. apply strictly_app in S as (_ & _ & Hc).
  rewrite filter_cons, decide_False by tauto. rewrite filter_nil, app_nil_r. apply filter_all. intros y Hy.
  specialize (Hc y tx Hy ltac:(by left)). unfold nonce_lt in Hc. lia.
Qed.
Lemma map_cap_loop_ok n t sorted its : keyed its -> length (by_nonce its) = (t + n)%nat -> take (t + n) sorted = map AccountNonce (by_nonce its) ->
  exists its', cap_loop n t sorted its = Some (reverse (drop t (by_nonce its)), its') /\ keyed its' /\ by_nonce its' = take t (by_nonce its).
Proof.
  revert its. induction n as [|n IH]; intros its K Hl Hs; cbn [cap_loop].
  - exists its. rewrite drop_ge, take_ge by lia. done.
  - destruct (by_nonce its) as [|tx0 l0] eqn:E0 using rev_ind; [cbn in Hl; lia|clear IHl0].
    rewrite length_app in Hl. cbn in Hl. destruct (by_nonce_last _ _ _ K E0) as [El Ed].
    assert (sorted !! (t + n)%nat = Some (AccountNonce tx0)) as ->.
    { rewrite <- (lookup_take_lt sorted (t + S n)) by lia. rewrite Hs, map_app, lookup_app_r by (rewrite length_map; lia).
      rewrite length_map. replace (t + n - length l0)%nat with 0%nat by lia. done. }
    cbn [mbind option_bind]. rewrite El. cbn [mbind option_bind].
    destruct (IH (delete (AccountNonce tx0) its)) as (its' & -> & K' & E'); [by apply keyed_delete|rewrite Ed; lia| |].
    { rewrite Ed. assert (take (t + n) (take (t + S n) sorted) = take (t + n) sorted) as <- by (rewrite take_take; f_equal; lia).
      rewrite Hs, map_app. rewrite take_app_le by (rewrite length_map; lia). by rewrite take_ge by (rewrite length_map; lia). }
    exists its'. cbn [mbind option_bind fst snd]. rewrite Ed in E' |- *. rewrite drop_app_le, take_app_le by lia.
    by rewrite reverse_app, E'.
Qed.
Lemma Cap_ok t m : wf m -> 0 <= t -> exists m', Cap t m = Some (reverse (drop (Z.to_nat t) (view m)), m') /\
  wf m' /\ view m' = take (Z.to_nat t) (view m).
Proof.
  intros W Ht. pose proof (wf_keyed _ W) as K. unfold Cap. rewrite <- length_by_nonce. fold (view m). destruct (Z.leb_spec (Z.of_nat (length (view m))) t) as [Hle|Hgt].
  { exists m. rewrite drop_ge, take_ge by lia. done. }
  rewrite (proj2 (Z.ltb_ge _ _)) by done. rewrite sorted_index by done.
  destruct (map_cap_loop_ok (length (view m) - Z.to_nat t) (Z.to_nat t) (map AccountNonce (view m)) (items m)) as (its & -> & K' & Ev); [done|unfold view in *; lia| |].
  { fold (view m). by rewrite take_ge by (rewrite length_map; lia). }
  cbn [mbind option_bind fst snd]. fold (view m) in *. rewrite length_reverse, length_drop.
  destruct (Heap.Init_ok nonce_less _ nonce_less_key (take (Z.to_nat t) (map AccountNonce (view m)))) as [Hh Hp].
  assert (forall c, c = None \/ c = Some (take (Z.to_nat t) (view m)) -> wf (mkMap its (Heap.Init nonce_less (take (Z.to_nat t) (map AccountNonce (view m)))) c)) as Hw.
  { intros c Hc. split; [split; cbn; [done| |done]|unfold view; cbn; rewrite Ev; apply Forall_take; apply W|].
    - by rewrite Hp, Ev, <- fmap_take.
    - rewrite <- Ev in Hc. exact Hc. }
  destruct (wf_cache _ W) as [-> | ->]; cbn [cut_back mbind option_bind].
  - eexists. split; [done|]. split; [apply Hw; by left|done].
  - rewrite (proj2 (Nat.leb_le _ _)) by lia. eexists. split; [done|]. split; [|done].
    replace (length (view m) - (length (view m) - Z.to_nat t))%nat with (Z.to_nat t) by lia. apply Hw. by right.
Qed.

Lemma find_nonce_ok n idx : n ∈ idx -> exists i, find_nonce n idx = Some i /\ idx !! i = Some n.
Proof.
  induction idx as [|x idx IH]; [by intros ?%elem_of_nil|]. intros Hin. cbn. destruct (Z.eqb_spec x n) as [->|Hne]; [by exists 0%nat|].
  apply elem_of_cons in Hin as [->|Hin]; [done|]. destruct (IH Hin) as (i & -> & Hi). by exists (S i).
Qed.
Lemma map_Remove_ok n m : wf m -> exists m', Remove n m = Some (bool_decide (is_Some (Get n m)), m') /\
  wf m' /\ view m' = filter (fun tx => AccountNonce tx <> n) (view m).
Proof.
  intros W. pose proof (wf_keyed _ W) as K. pose proof (by_nonce_delete n _ K) as Ev. unfold Remove, Get. destruct (items m !! n) as [tx|] eqn:E.
  - assert (AccountNonce tx = n /\ tx ∈ view m) as [Hn Hin] by (split; [by apply K|apply elem_view; [done|]; by rewrite (K _ _ E)]).
    destruct W as [[Hh Hp _] U _]. fold (view m) in Hp.
    destruct (find_nonce_ok n (index m)) as (i & -> & Hi); [rewrite Hp, <- Hn; by apply list_elem_of_fmap_2|].
    destruct (Heap.Remove_ok nonce_less _ nonce_less_key i n (index m) Hh Hi) as (idx & -> & Hp' & Hh'). cbn [fmap option_fmap option_map mbind option_bind snd].
    eexists. rewrite bool_decide_true by done. split; [done|]. split; [|done].
    split; [split; cbn [items index]; [done| |by apply keyed_delete]|unfold view; cbn [items]; rewrite Ev|by left].
    + rewrite keys_nonces by (by apply keyed_delete). unfold view in Hp. rewrite Hp', keys_nonces in Hp by done.
      rewrite <- (insert_delete_id _ _ _ E), map_to_list_insert in Hp by apply lookup_delete_eq. cbn in Hp. by apply Permutation_cons_inv in Hp.
    + rewrite Forall_forall in *. intros y [_ Hy]%list_elem_of_filter. by apply U.
  - exists m. rewrite bool_decide_false by (by intros []). split_and!; [done..|]. rewrite filter_all; [done|].
    intros y Hy En. apply elem_view in Hy; [|done]. congruence.
Qed.

Lemma Flatten_ok m : wf m -> exists m', Flatten m = (view m, m') /\ wf m' /\ view m' = view m.
Proof.
  intros W. unfold Flatten. assert (match cache m with None => sort_by AccountNonce (map snd (range (items m))) | Some c => c end = view m) as ->.
  { destruct (wf_cache _ W) as [-> | ->]; [|done]. pose proof (wf_keyed _ W) as K.
    apply (StronglySorted_unique_strong nonce_le); [|apply sort_sorted|apply StronglySorted_merge_sort; apply _|by rewrite sort_perm, range_txs].
    intros x y. rewrite sort_perm, range_txs. unfold view. rewrite !elem_by_nonce by done. unfold nonce_le. intros Hx Hy H1 H2.
    assert (AccountNonce x = AccountNonce y) as E by lia. congruence. }
  eexists. split; [done|]. split; [|done]. destruct W as [P U C]. split; [done|done|by right].
Qed.
End ordered.
End TxListFacts.
