(* ===== verification/TxListThms.v ===== *)
(** * The transactions of an account: theorems *)

From stdpp Require Import sorting.
From S2P Require Import Prelude GoMath World Heap Types Transactions TxList TxListFacts.

Module TxListThms.
Import Types Transactions TxList TxListFacts.

(** ** Lists *)

Definition lview (l : txList) : list Transaction := view (txs l).
(** The caps are above the cost and the gas of every transaction. *)
Definition capped (cost gas : Z) (tx : Transaction) : bool := (Cost tx <=? cost) && (tx_GasLimit tx <=? gas).
Record lwf (l : txList) : Prop := {
  lwf_map : wf (txs l);
  lwf_caps : Forall (fun tx => capped (costcap l) (gascap l) tx = true) (lview l);
}.
Lemma lwf_sub l m : lwf l -> wf m -> (forall tx, tx ∈ view m -> tx ∈ lview l) -> lwf (set_txs m l).
Proof. intros [_ C] W Hs. split; [done|]. unfold lview, set_txs. cbn [txs costcap gascap]. rewrite Forall_forall in *. auto. Qed.
Lemma lwf_new b : lwf (newTxList b).
Proof. split; [apply map_wf_new|]. unfold lview, view. cbn. unfold by_nonce. by rewrite map_to_list_empty. Qed.
Lemma capped_le c g c' g' tx : c <= c' -> g <= g' -> capped c g tx = true -> capped c' g' tx = true.
Proof. unfold capped. rewrite !andb_true_iff, !Z.leb_le. lia. Qed.
Lemma lview_elem l tx : lwf l -> tx ∈ lview l <-> Get (AccountNonce tx) (txs l) = Some tx.
Proof. intros [W _]. by apply elem_view. Qed.

(** The longest prefix whose elements pass *)
Fixpoint prefix_while {A} (f : A -> bool) (l : list A) : list A :=
  match l with x :: l' => if f x then x :: prefix_while f l' else [] | [] => [] end.

Lemma lowest_spec (removed : list Transaction) acc :
  let r := fold_left (fun low tx => if low >? AccountNonce tx then AccountNonce tx else low) removed acc in
  r <= acc /\ Forall (fun tx => r <= AccountNonce tx) removed /\ (r = acc \/ exists tx, tx ∈ removed /\ AccountNonce tx = r).
Proof.
  revert acc. induction removed as [|x l IH]; intros acc; cbn [fold_left]; [split_and!; [lia|constructor|by left]|].
  specialize (IH (if acc >? AccountNonce x then AccountNonce x else acc)). rewrite Z.gtb_ltb in *. cbn zeta in *.
  destruct IH as (H1 & H2 & H3). set (r := fold_left _ l _) in *. split_and!.
  - destruct (Z.ltb_spec (AccountNonce x) acc); lia.
  - constructor; [destruct (Z.ltb_spec (AccountNonce x) acc); lia|done].
  - destruct H3 as [H3|(tx & Hin & E)]; [|right; exists tx; split; [by right|done]].
    destruct (Z.ltb_spec (AccountNonce x) acc); [|by left]. right. exists x. split; [by left|done].
Qed.
Lemma lowest_nonce removed : Forall (fun tx => in_u64 (AccountNonce tx)) removed -> removed <> [] ->
  (exists tx, tx ∈ removed /\ AccountNonce tx = lowest removed) /\ Forall (fun tx => lowest removed <= AccountNonce tx) removed.
Proof.
  intros U Hne. destruct (lowest_spec removed MaxUint64) as (_ & H2 & H3). fold (lowest removed) in *. split; [|done].
  destruct H3 as [H3|]; [|done]. destruct removed as [|x l]; [done|]. exists x. split; [by left|].
  apply Forall_cons in U as [[_ U] _]. apply Forall_cons in H2 as [H2 _]. unfold MaxUint64 in *. lia.
Qed.
(** In a list by increasing nonce, what is below the first failure is the longest passing prefix. *)
Lemma prefix_below f (l : list Transaction) n : StronglySorted nonce_lt l ->
  (exists tx, tx ∈ l /\ f tx = false /\ AccountNonce tx = n) -> (forall tx, tx ∈ l -> f tx = false -> n <= AccountNonce tx) ->
  prefix_while f l = filter (fun tx => AccountNonce tx < n) l.
Proof.
  induction 1 as [|x l S IH F]; intros (y & Hy & Hf & Hn) Hlow; [done|]. cbn [prefix_while]. rewrite filter_cons.
  rewrite Forall_forall in F. unfold nonce_lt in F. destruct (f x) eqn:Ex.
  - assert (y ∈ l) as Hyl by (apply elem_of_cons in Hy as [->|?]; congruence). specialize (F _ Hyl).
    rewrite decide_True by lia. f_equal. apply IH; [eauto|]. intros; apply Hlow; [by right|done].
  - assert (n = AccountNonce x) as -> by (pose proof (Hlow x ltac:(by left) Ex); apply elem_of_cons in Hy as [->|Hy]; [lia|specialize (F _ Hy); lia]).
    rewrite decide_False by lia. symmetry. apply filter_none. intros z Hz. specialize (F _ Hz). lia.
Qed.
Lemma prefix_all {A} f (l : list A) : Forall (fun x => f x = true) l -> prefix_while f l = l.
Proof. induction 1 as [|x l Hx _ IH]; [done|]. cbn. by rewrite Hx, IH. Qed.

Lemma filter_beyond n (v : list Transaction) :
  filter (fun x => (AccountNonce x >? n) = true) (filter (fun x => AccountNonce x <> n) v) = filter (fun x => n < AccountNonce x) v /\
  filter (fun x => (AccountNonce x >? n) = false) (filter (fun x => AccountNonce x <> n) v) = filter (fun x => AccountNonce x < n) v.
Proof.
  induction v as [|x v [IH1 IH2]]; [done|]. rewrite !filter_cons. assert ((AccountNonce x >? n) = true <-> n < AccountNonce x) as E1 by lia.
  assert ((AccountNonce x >? n) = false <-> AccountNonce x <= n) as E2 by lia.
  destruct (decide (AccountNonce x <> n)); rewrite ?filter_cons; repeat case_decide; rewrite ?IH1, ?IH2; (done || lia).
Qed.

Section ordered.
Context `{GoOrder} `{!GoOrderOK}.

Lemma list_Add_ok tx bump l : lwf l -> in_u64 (AccountNonce tx) ->
  (exists old, Get (AccountNonce tx) (txs l) = Some old /\ Price tx <= bump_threshold old bump /\ list_Add tx bump l = (false, None, l)) \/
  (exists l', list_Add tx bump l = (true, Get (AccountNonce tx) (txs l), l') /\ lwf l' /\ strict l' = strict l /\ lview l' = put_nonce tx (lview l) /\
     forall old, Get (AccountNonce tx) (txs l) = Some old -> bump_threshold old bump < Price tx).
Proof.
  intros [W C] Hn. destruct (Put_ok tx _ W Hn) as [W' V]. fold (lview l) in V. unfold list_Add.
  set (put := mkList _ _ _ _). assert (lwf put) as Wp.
  { split; [done|]. change (lview put) with (view (Put tx (txs l))). rewrite V. unfold put_nonce. apply Forall_app. rewrite Forall_cons, !Forall_forall in *.
    assert (costcap l <= costcap put /\ Cost tx <= costcap put /\ gascap l <= gascap put /\ tx_GasLimit tx <= gascap put) as (? & ? & ? & ?)
      by (cbn; destruct (Z.ltb_spec (costcap l) (Cost tx)), (Z.ltb_spec (gascap l) (tx_GasLimit tx)); lia).
    split_and!; [|unfold capped; rewrite andb_true_iff, !Z.leb_le; lia|]; intros y [_ Hy]%list_elem_of_filter; apply (capped_le (costcap l) (gascap l)); auto. }
  destruct (Get (AccountNonce tx) (txs l)) as [old|] eqn:E.
  - rewrite Z.geb_leb. destruct (Z.leb_spec (Price tx) (bump_threshold old bump)); [left; eauto|]. right. exists put. split_and!; try done. by intros old' [= <-].
  - right. exists put. by split_and!.
Qed.
Lemma list_Forward_ok t l : lwf l -> exists l', list_Forward t l = Some (filter (fun tx => AccountNonce tx < t) (lview l), l') /\
  lwf l' /\ strict l' = strict l /\ lview l' = filter (fun tx => ~ AccountNonce tx < t) (lview l).
Proof.
  intros L. destruct (Forward_ok t _ (lwf_map _ L)) as (m & E & W & V). unfold list_Forward. rewrite E. cbn [mbind option_bind fst snd]. eexists. split; [done|]. split; [|done].
  apply lwf_sub; [done..|]. rewrite V. by intros tx [_ ?]%list_elem_of_filter.
Qed.
Lemma list_Cap_ok t l : lwf l -> 0 <= t -> exists l', list_Cap t l = Some (reverse (drop (Z.to_nat t) (lview l)), l') /\
  lwf l' /\ strict l' = strict l /\ lview l' = take (Z.to_nat t) (lview l).
Proof.
  intros L Ht. destruct (Cap_ok t _ (lwf_map _ L) Ht) as (m & E & W & V). unfold list_Cap. rewrite E. cbn [mbind option_bind fst snd]. eexists. split; [done|]. split; [|done].
  apply lwf_sub; [done..|]. rewrite V. intros tx Hin. eapply elem_of_submseteq; [done|]. apply submseteq_take.
Qed.
Lemma list_Ready_ok start l : lwf l -> exists l', list_Ready start l = Some (ready start (lview l), l') /\
  lwf l' /\ strict l' = strict l /\ lview l' = drop (length (ready start (lview l))) (lview l).
Proof.
  intros L. destruct (Ready_ok start _ (lwf_map _ L)) as (m & E & W & V). unfold list_Ready. rewrite E. cbn [mbind option_bind fst snd]. eexists. split; [done|]. split; [|done].
  apply lwf_sub; [done..|]. rewrite V. intros tx Hin. eapply elem_of_submseteq; [done|]. apply submseteq_drop.
Qed.
Lemma list_Flatten_ok l : lwf l -> exists l', list_Flatten l = (lview l, l') /\ lwf l' /\ strict l' = strict l /\ lview l' = lview l.
Proof.
  intros L. destruct (Flatten_ok _ (lwf_map _ L)) as (m & E & W & V). unfold list_Flatten. rewrite E. cbn [mbind option_bind fst snd]. eexists. split; [done|]. split; [|done].
  apply lwf_sub; [done..|]. by rewrite V.
Qed.
Lemma list_Remove_ok tx l : lwf l ->
  exists invalids l', list_Remove tx l = Some (bool_decide (is_Some (Get (AccountNonce tx) (txs l))), invalids, l') /\ lwf l' /\ strict l' = strict l /\
    if strict l && bool_decide (is_Some (Get (AccountNonce tx) (txs l)))
    then invalids ≡ₚ filter (fun x => AccountNonce tx < AccountNonce x) (lview l) /\ lview l' = filter (fun x => AccountNonce x < AccountNonce tx) (lview l)
    else invalids = [] /\ lview l' = filter (fun x => AccountNonce x <> AccountNonce tx) (lview l).
Proof.
  intros L. set (n := AccountNonce tx). destruct (map_Remove_ok n _ (lwf_map _ L)) as (m & E & W & V). fold (lview l) in V. unfold list_Remove. fold n. rewrite E.
  cbn [mbind option_bind fst snd]. assert (forall x, x ∈ view m -> x ∈ lview l) as Hs by (rewrite V; by intros x [_ ?]%list_elem_of_filter).
  destruct (bool_decide _) eqn:Eb; cbn [negb]; [|rewrite andb_false_r; do 2 eexists; split; [done|]; split; [by apply lwf_sub|done]].
  rewrite andb_true_r. destruct (strict l) eqn:Es; [|do 2 eexists; split; [done|]; split; [by apply lwf_sub|done]].
  destruct (Filter_ok (fun x => AccountNonce x >? n) m W) as (inv & m' & -> & Hp & W' & V'). rewrite V in Hp, V'.
  do 2 eexists. split; [done|]. split; [apply lwf_sub; [done..|]; rewrite V'; intros x [_ [_ ?]%list_elem_of_filter]%list_elem_of_filter; done|].
  destruct (filter_beyond n (lview l)) as [E1 E2]. rewrite E1 in Hp. rewrite E2 in V'. done.
Qed.

Lemma filter_split {A} (f : A -> bool) (l : list A) : l ≡ₚ filter (fun x => f x = true) l ++ filter (fun x => f x = false) l.
Proof.
  induction l as [|x l IH]; [done|]. rewrite !filter_cons. destruct (f x) eqn:E; repeat case_decide; try done; cbn [app]; [by rewrite <- IH|].
  by rewrite <- Permutation_middle, <- IH.
Qed.
Lemma filter_iff_in {A} (P Q : A -> Prop) `{!forall x, Decision (P x)} `{!forall x, Decision (Q x)} (l : list A) :
  (forall x, x ∈ l -> P x <-> Q x) -> filter P l = filter Q l.
Proof.
  induction l as [|x l IH]; [done|]. intros E. rewrite !filter_cons, IH by (intros; apply E; by right).
  pose proof (E x ltac:(by left)). repeat case_decide; tauto.
Qed.
Lemma none_fails {A} (f : A -> bool) (l : list A) : [] ≡ₚ filter (fun x => f x = false) l -> Forall (fun x => f x = true) l.
Proof.
  intros E. apply Forall_forall. intros x Hx. destruct (f x) eqn:Ex; [done|].
  assert (x ∈ filter (fun x => f x = false) l) as Hin by (by apply list_elem_of_filter). rewrite <- E in Hin. by apply elem_of_nil in Hin.
Qed.
Lemma strictly_inj v x y : StronglySorted nonce_lt v -> x ∈ v -> y ∈ v -> AccountNonce x = AccountNonce y -> x = y.
Proof.
  induction 1 as [|z v S IH F]; [by intros ?%elem_of_nil|]. rewrite Forall_forall in F. unfold nonce_lt in F.
  intros [->|Hx]%elem_of_cons [->|Hy]%elem_of_cons E; [done|specialize (F _ Hy); lia|specialize (F _ Hx); lia|auto].
Qed.
(** What a strict list keeps: the transactions that pass, below the lowest that fails *)
Lemma kept_prefix (f : Transaction -> bool) v removed : StronglySorted nonce_lt v -> Forall (fun tx => in_u64 (AccountNonce tx)) v ->
  removed ≡ₚ filter (fun tx => f tx = false) v -> removed <> [] ->
  filter (fun tx => (AccountNonce tx >? lowest removed) = false) (filter (fun tx => f tx = true) v) = prefix_while f v.
Proof.
  intros S U Hr Hne. assert (forall x, x ∈ removed <-> f x = false /\ x ∈ v) as Hin by (intros; by rewrite Hr, list_elem_of_filter).
  rewrite Forall_forall in U. destruct (lowest_nonce removed) as [(y & [Fy Hy]%Hin & Ey) Hlow]; [apply Forall_forall; intros x [_ Hx]%Hin; by apply U|done|].
  rewrite Forall_forall in Hlow. rewrite (prefix_below f v (lowest removed) S); [|by exists y|intros x Hx Fx; apply Hlow; by apply Hin].
  rewrite list_filter_filter. apply filter_iff_in. intros x Hx. split.
  - intros [Hg Fx]. assert (AccountNonce x <> AccountNonce y) by (intros E; rewrite (strictly_inj v x y S Hx Hy E) in Fx; congruence). lia.
  - intros Hlt. split; [lia|]. destruct (f x) eqn:Fx; [done|]. specialize (Hlow x). rewrite Hin in Hlow. specialize (Hlow (conj Fx Hx)). lia.
Qed.
Lemma prefix_while_sub {A} f (l : list A) x : x ∈ prefix_while f l -> x ∈ l /\ f x = true.
Proof.
  induction l as [|y l IH]; cbn; [by intros ?%elem_of_nil|]. destruct (f y) eqn:E; [|by intros ?%elem_of_nil].
  intros [->|[? ?]%IH]%elem_of_cons; split; try done; [by left|by right].
Qed.

Lemma list_Filter_ok c g l : lwf l ->
  exists removed invalids l', list_Filter c g l = (removed, invalids, l') /\ lwf l' /\ strict l' = strict l /\
    removed ≡ₚ filter (fun tx => capped c g tx = false) (lview l) /\
    lview l' = (if strict l then prefix_while (capped c g) (lview l) else filter (fun tx => capped c g tx = true) (lview l)) /\
    removed ++ invalids ++ lview l' ≡ₚ lview l.
Proof.
  intros L. pose proof L as [W C]. unfold list_Filter. pose proof (view_strict _ W) as S. fold (lview l) in S.
  destruct ((costcap l <=? c) && (gascap l <=? g)) eqn:Ec.
  { apply andb_prop in Ec as [E1%Z.leb_le E2%Z.leb_le]. assert (Forall (fun tx => capped c g tx = true) (lview l)) as F
      by (eapply Forall_impl; [exact C|]; intros tx; by apply capped_le).
    exists [], [], l. rewrite Forall_forall in F. split_and!; try done.
    - rewrite filter_none; [done|]. intros x Hx. by rewrite F.
    - destruct (strict l); [by rewrite prefix_all by by apply Forall_forall|by rewrite filter_all]. }
  clear Ec. set (f := fun tx => _ || _). assert (forall tx, f tx = negb (capped c g tx)) as Ef
    by (intros tx; unfold f, capped; rewrite !Z.gtb_ltb, !Z.ltb_antisym, negb_andb; done).
  destruct (Filter_ok f _ W) as (removed & m & -> & Hr & Wm & V). fold (lview l) in Hr, V. cbn [fst snd].
  assert (forall b, filter (fun tx => f tx = b) (lview l) = filter (fun tx => capped c g tx = negb b) (lview l)) as Eff.
  { intros b. apply list_filter_iff. intros x. rewrite Ef. destruct (capped c g x), b; done. }
  rewrite Eff in Hr, V. cbn [negb] in Hr, V.
  assert (forall m', (forall tx, tx ∈ view m' -> capped c g tx = true) -> wf m' -> lwf (mkList (strict l) m' c g)) as Hl
    by (intros m' Hs W'; split; [done|]; apply Forall_forall; done).
  assert (lview l ≡ₚ removed ++ view m) as Hall by (rewrite Hr, V, Permutation_app_comm; apply filter_split).
  assert (forall tx, tx ∈ view m -> capped c g tx = true) as Hc by (rewrite V; by intros tx [? _]%list_elem_of_filter).
  destruct (strict l) eqn:Es; cbn [andb]; [|exists removed, [], (mkList false m c g); by split_and!; auto].
  destruct removed as [|r rs] eqn:Er; cbn [length Nat.eqb negb].
  { exists [], [], (mkList true m c g). cbn [app] in *. split_and!; try done; [by apply Hl|]. change (lview (mkList true m c g)) with (view m).
    pose proof (none_fails _ _ Hr) as F. rewrite V, prefix_all by done. apply filter_all. by apply Forall_forall. }
  rewrite <- Er in *. destruct (Filter_ok (fun tx => AccountNonce tx >? lowest removed) m Wm) as (inv & m' & -> & Hi & Wm' & V').
  exists removed, inv, (mkList true m' c g). split_and!; try done.
  - apply Hl; [|done]. rewrite V'. intros tx [_ ?]%list_elem_of_filter. by apply Hc.
  - change (lview (mkList true m' c g)) with (view m'). rewrite V', V. apply kept_prefix; [done|apply W|done|by rewrite Er].
  - rewrite Hall. f_equiv. change (lview (mkList true m' c g)) with (view m'). rewrite Hi, V'. symmetry. apply filter_split.
Qed.
End ordered.

(** ** An order for examples: maps by key, equal elements as they come *)

Definition key_le {A} (key : A -> Z) (x y : A) : Prop := key x <= key y.
#[export] Instance key_le_dec {A} (key : A -> Z) x y : Decision (key_le key x y).
Proof. unfold key_le. apply _. Defined.
#[export] Instance key_le_trans {A} (key : A -> Z) : Transitive (key_le key).
Proof. intros x y z. unfold key_le. lia. Qed.
#[export] Instance key_le_total {A} (key : A -> Z) : Total (key_le key).
Proof. intros x y. unfold key_le. lia. Qed.
Definition plain_order : GoOrder := {|
  range := fun A m => map_to_list m;
  sort_by := fun A key l => merge_sort (key_le key) l |}.
Lemma plain_order_ok : @GoOrderOK plain_order.
Proof. split; [done|intros; apply merge_sort_Permutation|intros; apply (StronglySorted_merge_sort (key_le key))]. Qed.

Definition nth_tx (nonce price gas : Z) : Transaction := mkTransaction nonce price gas None 0 [] 0 0 0.
Definition demo_list (strict : bool) (l : list Transaction) : txList := fold_left (fun l tx => (list_Add tx 10 l).2) l (newTxList strict).

Lemma demo_list_wf b l : Forall (fun tx => in_u64 (AccountNonce tx)) l -> lwf (demo_list b l).
Proof.
  unfold demo_list. assert (lwf (newTxList b)) as L by apply lwf_new. revert L. generalize (newTxList b).
  induction l as [|tx l IH]; intros l0 L F; cbn [fold_left]; [done|]. apply Forall_cons in F as [Hn F]. apply IH; [|done].
  destruct (list_Add_ok tx 10 l0 L Hn) as [(? & _ & _ & ->)|(l' & -> & L' & _)]; done.
Qed.

(** ** Properties *)

(** C26: A map of transactions by nonce with its heap and its cached order stands for the list of its
    transactions by increasing nonce, and every operation is the operation on that list: [Put] inserts or
    replaces, [Forward] cuts off the low nonces, [Cap] the transactions beyond a number, [Ready] takes
    the run of consecutive nonces at the front if it starts low enough, [Filter] and [Remove] delete, and
    [Flatten] returns the list. *)
Theorem txSortedMap_refines `{GoOrder} `{!GoOrderOK} (m : txSortedMap) (tx : Transaction) (n t : Z) (f : Transaction -> bool) :
  wf m -> in_u64 (AccountNonce tx) -> 0 <= t ->
  (wf (Put tx m) /\ view (Put tx m) = put_nonce tx (view m)) /\
  (exists m', Forward n m = Some (filter (fun tx => AccountNonce tx < n) (view m), m') /\ wf m' /\ view m' = filter (fun tx => ~ AccountNonce tx < n) (view m)) /\
  (exists m', Cap t m = Some (reverse (drop (Z.to_nat t) (view m)), m') /\ wf m' /\ view m' = take (Z.to_nat t) (view m)) /\
  (exists m', Ready n m = Some (ready n (view m), m') /\ wf m' /\ view m' = drop (length (ready n (view m))) (view m)) /\
  (exists removed m', Filter f m = (removed, m') /\ removed ≡ₚ filter (fun tx => f tx = true) (view m) /\ wf m' /\ view m' = filter (fun tx => f tx = false) (view m)) /\
  (exists m', Remove n m = Some (bool_decide (is_Some (Get n m)), m') /\ wf m' /\ view m' = filter (fun tx => AccountNonce tx <> n) (view m)) /\
  (exists m', Flatten m = (view m, m') /\ wf m' /\ view m' = view m).
Proof.
  intros W Hn Ht. split_and!; [by apply Put_ok..|by apply Forward_ok|by apply Cap_ok|by apply Ready_ok|by apply Filter_ok|by apply map_Remove_ok|by apply Flatten_ok].
Qed.

Lemma txSortedMap_refines_witness : exists m',
  @Cap plain_order 2 (txs (demo_list false [nth_tx 7 1 1; nth_tx 2 1 1; nth_tx 5 1 1])) = Some ([nth_tx 7 1 1], m') /\
  view m' = [nth_tx 2 1 1; nth_tx 5 1 1].
Proof.
  destruct (@txSortedMap_refines plain_order plain_order_ok (txs (demo_list false [nth_tx 7 1 1; nth_tx 2 1 1; nth_tx 5 1 1])) (nth_tx 3 1 1) 0 2 (fun _ => true))
    as (_ & _ & (m' & E & _ & V) & _); [apply demo_list_wf; repeat constructor; done|done|done|].
  assert (view (txs (demo_list false [nth_tx 7 1 1; nth_tx 2 1 1; nth_tx 5 1 1])) = [nth_tx 2 1 1; nth_tx 5 1 1; nth_tx 7 1 1]) as E0 by (vm_compute; reflexivity).
  rewrite E0 in E, V. by exists m'.
Defined.

(** Filtering an account's list by its balance and the block's gas removes exactly the
    transactions that cost more, although the list skips the work when its caps allow it; a strict list
    keeps the longest prefix it can pay and hands back the rest.  No transaction is lost, and the caps
    still bound what remains. *)
Theorem list_Filter_exact `{GoOrder} `{!GoOrderOK} (costLimit gasLimit : Z) (l : txList) : lwf l ->
  exists removed invalids l', list_Filter costLimit gasLimit l = (removed, invalids, l') /\ lwf l' /\
    removed ≡ₚ filter (fun tx => capped costLimit gasLimit tx = false) (lview l) /\
    lview l' = (if strict l then prefix_while (capped costLimit gasLimit) (lview l)
                else filter (fun tx => capped costLimit gasLimit tx = true) (lview l)) /\
    removed ++ invalids ++ lview l' ≡ₚ lview l.
Proof. intros L. destruct (list_Filter_ok costLimit gasLimit l L) as (r & i & l' & E & L' & _ & H1). by exists r, i, l'. Qed.

Lemma list_Filter_exact_witness : exists removed invalids l',
  @list_Filter plain_order 60 100 (demo_list true [nth_tx 1 1 50; nth_tx 2 3 50; nth_tx 3 1 50]) = (removed, invalids, l') /\
  removed ≡ₚ [nth_tx 2 3 50] /\ lview l' = [nth_tx 1 1 50].
Proof.
  destruct (@list_Filter_exact plain_order plain_order_ok 60 100 (demo_list true [nth_tx 1 1 50; nth_tx 2 3 50; nth_tx 3 1 50]))
    as (r & i & l' & E & _ & Hr & V & _); [apply demo_list_wf; repeat constructor; done|].
  assert (lview (demo_list true [nth_tx 1 1 50; nth_tx 2 3 50; nth_tx 3 1 50]) = [nth_tx 1 1 50; nth_tx 2 3 50; nth_tx 3 1 50]) as E0 by (vm_compute; reflexivity).
  rewrite E0 in Hr, V. by exists r, i, l'.
Defined.

(** A transaction enters a list unless the list has one with its nonce whose price, raised by the
    bump, it does not exceed; a refused transaction leaves the list as it was, an accepted one takes the
    place of the old one, which is returned. *)
Theorem list_Add_replaces (tx : Transaction) (priceBump : Z) (l : txList) :
  lwf l -> in_u64 (AccountNonce tx) -> 0 <= priceBump < 2 ^ 63 - 100 ->
  match Get (AccountNonce tx) (txs l) with
  | Some old =>
      if Price tx <=? Price old * (100 + priceBump) / 100 then list_Add tx priceBump l = (false, None, l)
      else exists l', list_Add tx priceBump l = (true, Some old, l') /\ lwf l' /\ lview l' = put_nonce tx (lview l)
  | None => exists l', list_Add tx priceBump l = (true, None, l') /\ lwf l' /\ lview l' = put_nonce tx (lview l)
  end.
Proof.
  intros L Hn Hb. assert (forall old, bump_threshold old priceBump = Price old * (100 + priceBump) / 100) as Eb
    by (intros old; unfold bump_threshold; by rewrite (i64_small priceBump), i64_small by lia).
  destruct (list_Add_ok tx priceBump l L Hn) as [(old & -> & Hp & E)|(l' & E & L' & _ & V & Hp)].
  - rewrite Eb in Hp. by rewrite (proj2 (Z.leb_le _ _)).
  - destruct (Get _ _) as [old|]; [|by exists l']. specialize (Hp _ eq_refl). rewrite Eb in Hp. rewrite (proj2 (Z.leb_gt _ _)) by done. by exists l'.
Qed.

Lemma list_Add_replaces_witness : exists l', list_Add (nth_tx 2 12 9) 10 (demo_list false [nth_tx 2 10 5]) = (true, Some (nth_tx 2 10 5), l') /\
  lview l' = [nth_tx 2 12 9].
Proof.
  pose proof (list_Add_replaces (nth_tx 2 12 9) 10 (demo_list false [nth_tx 2 10 5])) as T.
  change (Get _ (txs (demo_list false [nth_tx 2 10 5]))) with (Some (nth_tx 2 10 5)) in T. cbv match beta in T.
  change (Price (nth_tx 2 12 9) <=? _) with false in T. cbv match in T.
  destruct T as (l' & E & _ & V); [apply demo_list_wf; repeat constructor; done|done|done|].
  assert (lview (demo_list false [nth_tx 2 10 5]) = [nth_tx 2 10 5]) as E0 by (vm_compute; reflexivity). rewrite E0 in V. by exists l'.
Defined.
End TxListThms.
