(* ===== verification/Prque.v ===== *)
(** * [gopkg.in/karalabe/cookiejar.v2/collections/prque]

    The priority queue of the transaction pool: [container/heap] over a stack in blocks ([sstack]).
    The stack is a list in disguise ([sstack_refines]), so the queue is the heap of [Heap] over a list.
    A priority, a [float32] made from an integer, is the integer it equals.  Cells that hold no item
    are [None]; a panic is [None]. *)

From S2P Require Import Prelude Heap.

Module Prque.
Section queue.
Context {A : Type}.

Record item := mkItem { value : A; priority : Z }.
Implicit Types l : list item.

(** ** [sstack] *)

Definition blockSize : nat := 4096.
Notation block := (list (option item)).

(** [active] is the number of the block that the slice [active] shares. *)
Record sstack := mkStack {
  size : nat;
  capacity : nat;
  offset : nat;
  blocks : list block;
  active : nat;
}.
Definition new_block : block := replicate blockSize None.
Definition newSstack : sstack := mkStack 0 blockSize 0 [new_block] 0.

Definition cell (i : nat) (bs : list block) : option (option item) := b ← bs !! (i / blockSize)%nat; b !! (i mod blockSize)%nat.
(** A write through the slice of one block *)
Definition store (k o : nat) (x : option item) (bs : list block) : option (list block) :=
  b ← bs !! k; if (o <? length b)%nat then Some (<[k := <[o := x]> b]> bs) else None.

Definition ss_Push (x : item) (s : sstack) : option sstack :=
  let '(bs, act, cap, off) :=
    if (size s =? capacity s)%nat then (blocks s ++ [new_block], length (blocks s), (capacity s + blockSize)%nat, 0%nat)
    else if (offset s =? blockSize)%nat then (blocks s, (size s / blockSize)%nat, capacity s, 0%nat)
    else (blocks s, active s, capacity s, offset s) in
  bs ← store act off (Some x) bs;
  Some (mkStack (size s + 1) cap (off + 1) bs act).
Definition ss_Pop (s : sstack) : option (item * sstack) :=
  if (size s =? 0)%nat then None   (* the index of the block would be negative, or the cell nil *)
  else
    let size' := (size s - 1)%nat in
    let '(off, act) := if (offset s =? 0)%nat then ((blockSize - 1)%nat, (size' / blockSize)%nat) else ((offset s - 1)%nat, active s) in
    b ← blocks s !! act;
    x ← b !! off;
    x ← x;
    bs ← store act off None (blocks s);
    Some (x, mkStack size' (capacity s) off bs act).
Definition ss_Len (s : sstack) : nat := size s.
Definition more (x y : item) : bool := priority x >? priority y.
Definition ss_Less (i j : nat) (s : sstack) : option bool :=
  x ← cell i (blocks s); x ← x; y ← cell j (blocks s); y ← y; Some (more x y).
Definition ss_Swap (i j : nat) (s : sstack) : option sstack :=
  x ← cell i (blocks s); y ← cell j (blocks s);
  bs ← store (i / blockSize) (i mod blockSize) y (blocks s);
  bs ← store (j / blockSize) (j mod blockSize) x bs;
  Some (mkStack (size s) (capacity s) (offset s) bs (active s)).

(** ** [Prque], over the contents of the stack *)

Definition New : list item := [].
Definition Push (data : A) (p : Z) (q : list item) : list item := Heap.Push more (mkItem data p) q.
Definition Pop (q : list item) : option (A * Z * list item) := p ← Heap.Pop more q; Some (value p.1, priority p.1, p.2).
Definition Empty (q : list item) : bool := (length q =? 0)%nat.

(** ** The stack is a list *)

#[local] Opaque blockSize.
Lemma block_pos : (0 < blockSize)%nat.
Proof. apply Nat.ltb_lt. reflexivity. Qed.

Record holds (s : sstack) (l : list item) : Prop := {
  hd_size : size s = length l;
  hd_capacity : capacity s = (length (blocks s) * blockSize)%nat;
  hd_fits : (size s <= capacity s)%nat;
  hd_blocks : Forall (fun b => length b = blockSize) (blocks s);
  hd_active : (active s < length (blocks s))%nat;
  hd_offset : size s = (active s * blockSize + offset s)%nat /\ (offset s <= blockSize)%nat;
  hd_cells : forall i, (i < size s)%nat -> cell i (blocks s) = Some (l !! i);
}.

Lemma block_store_ok k o x bs : Forall (fun b => length b = blockSize) bs -> (k < length bs)%nat -> (o < blockSize)%nat ->
  exists bs', store k o x bs = Some bs' /\ length bs' = length bs /\ Forall (fun b => length b = blockSize) bs' /\
    forall i, cell i bs' = if decide (i = k * blockSize + o)%nat then Some x else cell i bs.
Proof.
  intros F Hk Ho. destruct (lookup_lt_is_Some_2 bs k Hk) as [b Hb]. pose proof (Forall_lookup_1 _ _ _ _ F Hb) as Hl. cbn in Hl.
  unfold store. rewrite Hb. cbn [mbind option_bind]. rewrite (proj2 (Nat.ltb_lt _ _)) by lia. eexists. split; [done|].
  split; [by rewrite length_insert|]. split; [apply Forall_insert; [done|by rewrite length_insert]|].
  intros i. unfold cell. pose proof block_pos. pose proof (Nat.div_mod_eq i blockSize). pose proof (Nat.mod_upper_bound i blockSize ltac:(lia)).
  destruct (decide (i = k * blockSize + o)%nat) as [->|Hne].
  - assert ((k * blockSize + o) / blockSize = k)%nat as -> by (rewrite Nat.div_add_l, Nat.div_small by lia; lia).
    assert ((k * blockSize + o) mod blockSize = o)%nat as -> by (rewrite Nat.add_comm, Nat.Div0.mod_add; by apply Nat.mod_small).
    rewrite list_lookup_insert_eq by done. cbn [mbind option_bind]. by rewrite list_lookup_insert_eq by lia.
  - destruct (decide (i / blockSize = k)%nat) as [E|E]; [|by rewrite list_lookup_insert_ne].
    rewrite E, list_lookup_insert_eq, Hb by done. cbn [mbind option_bind]. rewrite list_lookup_insert_ne; [done|]. intros Eo. apply Hne. rewrite <- E, Eo. lia.
Qed.
Lemma cell_at k o (bs : list block) b : (o < blockSize)%nat -> bs !! k = Some b -> cell (k * blockSize + o) bs = b !! o.
Proof.
  intros Ho Hb. pose proof block_pos. unfold cell. assert ((k * blockSize + o) / blockSize = k)%nat as -> by (rewrite Nat.div_add_l, Nat.div_small by lia; lia).
  rewrite Hb. cbn. f_equal. rewrite Nat.add_comm, Nat.Div0.mod_add. by apply Nat.mod_small.
Qed.
Lemma cell_new i bs : (i < length bs * blockSize)%nat -> cell i (bs ++ [new_block]) = cell i bs.
Proof. intros Hi. unfold cell. rewrite lookup_app_l; [done|]. pose proof block_pos. apply Nat.Div0.div_lt_upper_bound. lia. Qed.

Lemma ss_Push_ok x s l : holds s l -> exists s', ss_Push x s = Some s' /\ holds s' (l ++ [x]).
Proof.
  intros [Hs Hc Hf Hb Ha [Ho1 Ho2] Hl]. pose proof block_pos as B. unfold ss_Push.
  assert (exists bs act cap off, (if (size s =? capacity s)%nat then (blocks s ++ [new_block], length (blocks s), (capacity s + blockSize)%nat, 0%nat)
    else if (offset s =? blockSize)%nat then (blocks s, (size s / blockSize)%nat, capacity s, 0%nat) else (blocks s, active s, capacity s, offset s)) = (bs, act, cap, off) /\
    Forall (fun b => length b = blockSize) bs /\ (act < length bs)%nat /\ (off < blockSize)%nat /\ size s = (act * blockSize + off)%nat /\
    cap = (length bs * blockSize)%nat /\ (size s < cap)%nat /\ forall i, (i < size s)%nat -> cell i bs = cell i (blocks s)) as (bs & act & cap & off & -> & F & Hact & Hoff & Hi & Hcap & Hlt & Hold).
  { destruct (Nat.eqb_spec (size s) (capacity s)); [|destruct (Nat.eqb_spec (offset s) blockSize) as [Eo|Eo]]; do 4 eexists; (split; [reflexivity|]).
    - rewrite length_app. cbn [length]. split_and!; try lia; [apply Forall_app; split; [done|]; constructor; [apply length_replicate|done]|].
      intros i Hi. apply cell_new. lia.
    - assert (size s / blockSize = active s + 1)%nat as E by (rewrite Ho1, Eo; replace (active s * blockSize + blockSize)%nat with ((active s + 1) * blockSize)%nat by lia; apply Nat.div_mul; lia).
      rewrite E. split_and!; try done; nia.
    - split_and!; try done; lia. }
  destruct (block_store_ok act off (Some x) bs F Hact Hoff) as (bs' & -> & Hlen & F' & Hcell). cbn [mbind option_bind]. eexists. split; [done|].
  split; cbn [size capacity blocks active offset]; rewrite ?length_app, ?Hlen; cbn [length]; try lia; [done|].
  intros i Hlt'. rewrite Hcell. case_decide as Ei; [rewrite lookup_app_r by lia; replace (i - length l)%nat with 0%nat by lia; done|].
  rewrite Hold, Hl, lookup_app_l by lia. done.
Qed.
Lemma ss_Pop_ok x s l : holds s (l ++ [x]) -> exists s', ss_Pop s = Some (x, s') /\ holds s' l.
Proof.
  intros [Hs Hc Hf Hb Ha [Ho1 Ho2] Hl]. pose proof block_pos as B. rewrite length_app in Hs. cbn in Hs. unfold ss_Pop. rewrite (proj2 (Nat.eqb_neq _ _)) by lia.
  assert (exists off act, (if (offset s =? 0)%nat then ((blockSize - 1)%nat, ((size s - 1) / blockSize)%nat) else ((offset s - 1)%nat, active s)) = (off, act) /\
    (act < length (blocks s))%nat /\ (off < blockSize)%nat /\ (size s - 1 = act * blockSize + off)%nat) as (off & act & -> & Hact & Hoff & Hi).
  { destruct (Nat.eqb_spec (offset s) 0) as [Eo|Eo]; do 2 eexists; (split; [reflexivity|]); [|lia].
    assert ((size s - 1) / blockSize = active s - 1)%nat as ->; [|destruct (active s); [lia|]; cbn in *; lia].
    destruct (active s) as [|a]; [lia|]. rewrite Ho1, Eo. replace (S a * blockSize + 0 - 1)%nat with (a * blockSize + (blockSize - 1))%nat by lia.
    rewrite Nat.div_add_l, Nat.div_small by lia. lia. }
  destruct (lookup_lt_is_Some_2 _ _ Hact) as [b Eb]. rewrite Eb. cbn [mbind option_bind].
  assert (b !! off = Some (Some x)) as ->.
  { rewrite <- (cell_at act off (blocks s)), <- Hi, Hl by (done || lia). f_equal. rewrite lookup_app_r by lia. by replace (size s - 1 - length l)%nat with 0%nat by lia. }
  destruct (block_store_ok act off None (blocks s) Hb Hact Hoff) as (bs' & E & Hlen & F' & Hcell). cbn [mbind option_bind]. rewrite E. eexists. split; [done|].
  split; cbn [size capacity blocks active offset]; rewrite ?Hlen; try lia; [done|].
  intros i Hlt. rewrite Hcell, decide_False, Hl, lookup_app_l by lia. done.
Qed.

Lemma holds_new : holds newSstack [].
Proof.
  pose proof block_pos. split; cbn [newSstack size capacity blocks active offset length]; try lia. constructor; [apply length_replicate|done].
Qed.
Lemma ss_Less_ok i j s l x y : holds s l -> l !! i = Some x -> l !! j = Some y -> ss_Less i j s = Some (more x y).
Proof.
  intros Hd Hi Hj. pose proof (hd_size _ _ Hd). apply lookup_lt_Some in Hi as Li. apply lookup_lt_Some in Hj as Lj. unfold ss_Less.
  rewrite !(hd_cells _ _ Hd) by lia. by rewrite Hi, Hj.
Qed.
Lemma index_split i n : (i < n * blockSize)%nat -> (i / blockSize < n)%nat /\ (i mod blockSize < blockSize)%nat /\ (i / blockSize * blockSize + i mod blockSize)%nat = i.
Proof.
  pose proof block_pos. intros Hi. pose proof (Nat.div_mod_eq i blockSize). pose proof (Nat.mod_upper_bound i blockSize ltac:(lia)).
  split_and!; [apply Nat.Div0.div_lt_upper_bound; lia|done|lia].
Qed.
Lemma ss_Swap_ok i j s l : holds s l -> (i < length l)%nat -> (j < length l)%nat -> exists s', ss_Swap i j s = Some s' /\ holds s' (Heap.exchange i j l).
Proof.
  intros [Hs Hc Hf Hb Ha Ho Hl] Hi Hj. destruct (lookup_lt_is_Some_2 l i Hi) as [x Ex]. destruct (lookup_lt_is_Some_2 l j Hj) as [y Ey].
  unfold ss_Swap. rewrite !Hl, Ex, Ey by lia. cbn [mbind option_bind].
  destruct (index_split i (length (blocks s)) ltac:(lia)) as (I1 & I2 & I3). destruct (index_split j (length (blocks s)) ltac:(lia)) as (J1 & J2 & J3).
  destruct (block_store_ok _ _ (Some y) _ Hb I1 I2) as (bs1 & -> & L1 & F1 & C1). cbn [mbind option_bind]. rewrite <- L1 in J1.
  destruct (block_store_ok _ _ (Some x) _ F1 J1 J2) as (bs2 & -> & L2 & F2 & C2). cbn [mbind option_bind]. rewrite I3 in C1. rewrite J3 in C2.
  eexists. split; [done|]. pose proof (Heap.length_exchange i j l) as E.
  split; cbn [size capacity blocks active offset]; rewrite ?E, ?L2, ?L1; try done.
  intros k Hk. rewrite C2, C1. unfold Heap.exchange. rewrite Ex, Ey. destruct (decide (k = j)) as [->|Hkj].
  - destruct (decide (i = j)) as [->|Hij]; [rewrite list_lookup_insert_eq by (rewrite length_insert; lia); congruence|].
    by rewrite list_lookup_insert_ne, list_lookup_insert_eq by lia.
  - destruct (decide (k = i)) as [->|Hki]; [by rewrite list_lookup_insert_eq by (rewrite length_insert; lia)|].
    rewrite !list_lookup_insert_ne by done. by apply Hl.
Qed.
End queue.
Arguments item : clear implicits.
Arguments sstack : clear implicits.

(** ** Properties *)

(** The stack in blocks is a list: a new one holds nothing, [Push] appends, [Pop] takes the last
    item, [Len], [Less] and [Swap] are those of the list; no operation leaves the blocks, however
    [Push] and [Pop] cross their borders. *)
Theorem sstack_refines {A} (s : sstack A) (l : list (item A)) (x : item A) (i j : nat) : holds s l ->
  holds newSstack (@nil (item A)) /\ ss_Len s = length l /\
  (exists s', ss_Push x s = Some s' /\ holds s' (l ++ [x]) /\ exists s'', ss_Pop s' = Some (x, s'') /\ holds s'' l) /\
  (forall l0 y, l = l0 ++ [y] -> exists s', ss_Pop s = Some (y, s') /\ holds s' l0) /\
  ((i < length l)%nat -> (j < length l)%nat ->
    (exists b, ss_Less i j s = Some b /\ Some b = (x ← l !! i; y ← l !! j; Some (more x y))) /\
    exists s', ss_Swap i j s = Some s' /\ holds s' (Heap.exchange i j l)).
Proof.
  intros Hd. split_and!.
  - apply holds_new.
  - apply Hd.
  - destruct (ss_Push_ok x s l Hd) as (s' & E & Hd'). exists s'. split_and!; [done..|]. by apply ss_Pop_ok.
  - intros l0 y ->. by apply ss_Pop_ok.
  - intros Hi Hj. destruct (lookup_lt_is_Some_2 l i Hi) as [a Ea]. destruct (lookup_lt_is_Some_2 l j Hj) as [b Eb].
    split; [|by apply ss_Swap_ok]. exists (more a b). rewrite Ea, Eb. split; [by apply (ss_Less_ok i j s l)|done].
Qed.

Lemma sstack_refines_witness : exists s', ss_Push (mkItem 5 9) newSstack = Some s' /\ holds s' [mkItem 5 9].
Proof.
  destruct (sstack_refines newSstack [] (mkItem 5 9) 0 0 holds_new) as (_ & _ & (s' & E & Hd' & _) & _). by exists s'.
Defined.
End Prque.
