(* ===== verification/TxPriced.v ===== *)
(** * [core/tx_list.go]: [txPricedList], and [core/tx_pool.go]: [txSet]

    The heap of all transactions of the pool by price, with its count of stale entries, and the set of
    local transactions that forgets its members after two hours.  The list's pointer to the map of all
    transactions is an argument of the operations.  A time is a number of nanoseconds since Go's zero
    time; a panic is [None]. *)

From S2P Require Import Prelude GoMath World Heap Types Transactions TxList.

Module TxPriced.
Import Types Transactions.

(** ** [txSet] *)

Definition zeroTime : Z := 0.
Definition txSetDuration : Z := 2 * 3600 * 1000000000.

Record txSet := mkSet {
  txMap : gset Hash;
  txOrd : gmap Z (Hash * Z);
  addPtr : Z;
  delPtr : Z;
}.
Definition newTxSet : txSet := mkSet ∅ ∅ 0 0.
Definition contains (hash : Hash) (ts : txSet) : bool := bool_decide (hash ∈ txMap ts).

(** An entry that is missing reads as the zero hash at the zero time. *)
Fixpoint expire (fuel : nat) (delBefore : Z) (ts : txSet) : txSet :=
  match fuel with
  | O => ts
  | S fuel' =>
      let '(hash, time) := default (0, zeroTime) (txOrd ts !! delPtr ts) in
      if (delPtr ts <? addPtr ts) && (time <? delBefore) then
        expire fuel' delBefore (mkSet (txMap ts ∖ {[hash]}) (delete (delPtr ts) (txOrd ts)) (addPtr ts) (u64 (delPtr ts + 1)))
      else ts
  end.
Definition add (hash : Hash) (now : Z) (ts : txSet) : txSet :=
  let ts := mkSet (txMap ts ∪ {[hash]}) (<[addPtr ts := (hash, now)]> (txOrd ts)) (u64 (addPtr ts + 1)) (delPtr ts) in
  expire (Z.to_nat (addPtr ts - delPtr ts)) (now - txSetDuration) ts.

(** ** [txPricedList] *)

Definition price_less (x y : Transaction) : bool := Price x <? Price y.

Record txPricedList := mkPriced {
  pitems : list Transaction;
  stales : Z;
}.
Definition newTxPricedList : txPricedList := mkPriced [] 0.

Definition Put (tx : Transaction) (l : txPricedList) : txPricedList := mkPriced (Heap.Push price_less tx (pitems l)) (stales l).

Definition Removed `{GoOrder} (all : gmap Hash Transaction) (l : txPricedList) : txPricedList :=
  let stales := stales l + 1 in
  if stales <=? Z.quot (zlen (pitems l)) 4 then mkPriced (pitems l) stales
  else mkPriced (Heap.Init price_less (map snd (range all))) 0.

Section crypto.
Context `{CryptoPrims}.
Variable all : gmap Hash Transaction.

Definition stale (tx : Transaction) : bool := bool_decide (all !! tx_Hash tx = None).

(** One transaction is popped in every round. *)
Fixpoint cap_loop (fuel : nat) (threshold : Z) (local : txSet) (l : txPricedList)
    : option (list Transaction * list Transaction * txPricedList) :=
  match fuel, pitems l with
  | S fuel', _ :: _ =>
      p ← Heap.Pop price_less (pitems l);
      let tx := p.1 in
      if stale tx then cap_loop fuel' threshold local (mkPriced p.2 (stales l - 1))
      else
        let l := mkPriced p.2 (stales l) in
        if Price tx >=? threshold then Some ([], [], l)
        else
          q ← cap_loop fuel' threshold local l;
          if contains (tx_Hash tx) local then Some (q.1.1, tx :: q.1.2, q.2) else Some (tx :: q.1.1, q.1.2, q.2)
  | _, _ => Some ([], [], l)
  end.
Definition push_all (save : list Transaction) (l : txPricedList) : txPricedList := fold_left (fun l tx => Put tx l) save l.
Definition Cap (threshold : Z) (local : txSet) (l : txPricedList) : option (list Transaction * txPricedList) :=
  q ← cap_loop (length (pitems l)) threshold local l;
  Some (q.1.1, push_all q.1.2 q.2).

Fixpoint drop_stale (fuel : nat) (l : txPricedList) : option txPricedList :=
  match fuel, pitems l with
  | S fuel', head :: _ =>
      if stale head then p ← Heap.Pop price_less (pitems l); drop_stale fuel' (mkPriced p.2 (stales l - 1))
      else Some l
  | _, _ => Some l
  end.
Definition Underpriced (tx : Transaction) (local : txSet) (l : txPricedList) : option (bool * txPricedList) :=
  if contains (tx_Hash tx) local then Some (false, l)
  else
    l ← drop_stale (length (pitems l)) l;
    match pitems l with
    | [] => Some (false, l)
    | cheapest :: _ => Some (Price cheapest >=? Price tx, l)
    end.

Fixpoint discard_loop (fuel : nat) (count : Z) (local : txSet) (l : txPricedList)
    : option (list Transaction * list Transaction * txPricedList) :=
  match fuel, pitems l with
  | S fuel', _ :: _ =>
      if count >? 0 then
        p ← Heap.Pop price_less (pitems l);
        let tx := p.1 in
        if stale tx then discard_loop fuel' count local (mkPriced p.2 (stales l - 1))
        else
          let l := mkPriced p.2 (stales l) in
          if contains (tx_Hash tx) local then
            q ← discard_loop fuel' count local l; Some (q.1.1, tx :: q.1.2, q.2)
          else
            q ← discard_loop fuel' (count - 1) local l; Some (tx :: q.1.1, q.1.2, q.2)
      else Some ([], [], l)
  | _, _ => Some ([], [], l)
  end.
(** A negative count makes a slice of negative capacity. *)
Definition Discard (count : Z) (local : txSet) (l : txPricedList) : option (list Transaction * txPricedList) :=
  if count <? 0 then None
  else
    q ← discard_loop (length (pitems l)) count local l;
    Some (q.1.1, push_all q.1.2 q.2).
End crypto.
End TxPriced.
