(* ===== verification/TxPricedThms.v ===== *)
(** * The heap of prices: theorems *)

From S2P Require Import Prelude GoMath World Demo Heap Types Transactions TxList TxListFacts TxPriced.

Module TxPricedThms.
Import Types Transactions TxPriced.

Notation heap_ok := (Heap.heap_ok Price).
Lemma price_less_key x y : price_less x y = (Price x <? Price y).
Proof. done. Qed.

Section facts.
Context `{CryptoPrims}.
Variables (all : gmap Hash Transaction) (local : txSet).

(** Entries that are still in the pool, and those among them that may be dropped *)
Definition live (l : list Transaction) : list Transaction := filter (fun tx => stale all tx = false) l.
Definition is_local (tx : Transaction) : bool := contains (tx_Hash tx) local.
Notation remote tx := (is_local tx = false).

Lemma live_perm l l' : l ≡ₚ l' -> live l ≡ₚ live l'.
Proof. apply TxListFacts.filter_perm. Qed.
Lemma live_cons tx l : live (tx :: l) = if stale all tx then live l else tx :: live l.
Proof. unfold live. rewrite filter_cons. by destruct (stale all tx); case_decide. Qed.
Lemma live_elem tx l : tx ∈ live l <-> stale all tx = false /\ tx ∈ l.
Proof. unfold live. by rewrite list_elem_of_filter. Qed.

Lemma push_all_ok save l : heap_ok (pitems l) -> heap_ok (pitems (push_all save l)) /\ pitems (push_all save l) ≡ₚ save ++ pitems l.
Proof.
  revert l. induction save as [|x save IH]; intros l Hh; [done|]. unfold push_all in *. cbn [fold_left].
  destruct (Heap.Push_ok price_less _ price_less_key x (pitems l) Hh) as [H1 H2].
  destruct (IH (Put x l) H1) as [H3 H4]. split; [done|]. rewrite H4. cbn [pitems Put]. rewrite H2. by rewrite <- Permutation_middle.
Qed.

Lemma live_saved save l before : heap_ok (pitems l) -> (forall x, x ∈ save -> x ∈ live before) ->
  live (pitems (push_all save l)) ≡ₚ save ++ live (pitems l).
Proof.
  intros Hh Hs. destruct (push_all_ok save l Hh) as [_ Hp]. rewrite (live_perm _ _ Hp). unfold live at 1. rewrite filter_app. apply Permutation_app; [|done].
  rewrite TxListFacts.filter_all; [done|]. intros x Hx. apply Hs, live_elem in Hx as [? _]. done.
Qed.
Lemma pop_step x t : heap_ok (x :: t) ->
  exists h, Heap.Pop price_less (x :: t) = Some (x, h) /\ x :: t ≡ₚ x :: h /\ heap_ok h /\ length h = length t /\ forall y, y ∈ x :: t -> Price x <= Price y.
Proof.
  intros Hh. destruct (Heap.Pop_ok price_less _ price_less_key (x :: t) Hh) as (z & h & E & [= <-] & Hp & Hh' & Hm); [done|].
  exists h. split_and!; try done. by apply Permutation_length in Hp as [= ->].
Qed.

Record discarded (count : Z) (before drop save after : list Transaction) : Prop := {
  dc_live : live before ≡ₚ drop ++ save ++ live after;
  dc_remote : Forall (fun tx => remote tx) drop;
  dc_local : Forall (fun tx => is_local tx = true) save;
  dc_count : zlen drop <= count;
  dc_cheapest : forall x y, x ∈ drop -> y ∈ after -> Price x <= Price y;
  dc_all : zlen drop < count -> after = [];
}.
Lemma discarded_nil count l : 0 <= count -> (0 < count -> l = []) -> discarded count l [] [] l.
Proof. intros Hc Hl. split; [done|constructor..|done|by intros x y ?%elem_of_nil|exact Hl]. Qed.
Lemma discard_loop_ok fuel count l : heap_ok (pitems l) -> (length (pitems l) <= fuel)%nat -> 0 <= count ->
  exists drop save l', discard_loop all fuel count local l = Some (drop, save, l') /\ heap_ok (pitems l') /\
    discarded count (pitems l) drop save (pitems l') /\ (forall y, y ∈ pitems l' -> y ∈ pitems l).
Proof.
  revert count l. induction fuel as [|fuel IH]; intros count [[|x t] st] Hh Hf Hc; cbn [discard_loop pitems length] in *; [|lia| |].
  1, 2: exists [], [], (mkPriced [] st); split_and!; try done; by apply discarded_nil.
  rewrite Z.gtb_ltb. destruct (Z.ltb_spec 0 count) as [Hpos|Hz].
  2: { exists [], [], (mkPriced (x :: t) st). split_and!; try done. apply discarded_nil; lia. }
  destruct (pop_step x t Hh) as (h & -> & Hp & Hh' & Hl & Hmin). cbn [mbind option_bind fst snd stales pitems].
  assert (forall y, y ∈ h -> y ∈ x :: t) as Hsub by (intros y Hy; rewrite Hp; by right).
  pose proof (live_perm _ _ Hp) as Hpl. rewrite (live_cons x h) in Hpl. destruct (stale all x) eqn:Es.
  { destruct (IH count (mkPriced h (st - 1)) Hh') as (d & s & l' & -> & Hh2 & D & Hs2); [cbn; lia|done|].
    exists d, s, l'. split_and!; try done; [|intros y Hy; apply Hsub, Hs2, Hy]. destruct D. split; try done. by rewrite Hpl. }
  fold (is_local x). destruct (is_local x) eqn:El.
  - destruct (IH count (mkPriced h st) Hh') as (d & s & l' & -> & Hh2 & D & Hs2); [cbn; lia|done|].
    exists d, (x :: s), l'. split_and!; try done; [|intros y Hy; apply Hsub, Hs2, Hy]. destruct D as [D1 D2 D3 D4 D5 D6]. cbn [pitems] in D1.
    split; try done; [|by constructor]. rewrite Hpl, D1. cbn [app]. by rewrite <- Permutation_middle.
  - destruct (IH (count - 1) (mkPriced h st) Hh') as (d & s & l' & -> & Hh2 & D & Hs2); [cbn; lia|lia|].
    exists (x :: d), s, l'. split_and!; try done; [|intros y Hy; apply Hsub, Hs2, Hy]. destruct D as [D1 D2 D3 D4 D5 D6]. cbn [pitems] in D1.
    split; [by rewrite Hpl, D1|by constructor|done|rewrite zlen_cons; lia| |rewrite zlen_cons; intros; apply D6; lia].
    intros a b [->|Ha]%elem_of_cons Hb; [|by apply D5]. by apply Hmin, Hsub, Hs2.
Qed.

(** What a lowering of the price threshold takes off the heap; [lost] is on no list. *)
Record capped_at (threshold : Z) (before drop save lost after : list Transaction) : Prop := {
  ca_live : live before ≡ₚ drop ++ save ++ lost ++ live after;
  ca_drop : Forall (fun tx => remote tx /\ Price tx < threshold) drop;
  ca_save : Forall (fun tx => is_local tx = true /\ Price tx < threshold) save;
  ca_lost : lost = [] /\ after = [] \/ exists tx, lost = [tx] /\ threshold <= Price tx;
  ca_after : Forall (fun tx => threshold <= Price tx) after;
}.
Lemma cap_loop_ok fuel threshold l : heap_ok (pitems l) -> (length (pitems l) <= fuel)%nat ->
  exists drop save lost l', cap_loop all fuel threshold local l = Some (drop, save, l') /\ heap_ok (pitems l') /\
    capped_at threshold (pitems l) drop save lost (pitems l').
Proof.
  revert l. induction fuel as [|fuel IH]; intros [[|x t] st] Hh Hf; cbn [cap_loop pitems length] in *; [|lia| |].
  1, 2: exists [], [], [], (mkPriced [] st); split_and!; try done; split; [done|constructor|constructor|by left|constructor].
  destruct (pop_step x t Hh) as (h & -> & Hp & Hh' & Hl & Hmin). cbn [mbind option_bind fst snd stales pitems].
  pose proof (live_perm _ _ Hp) as Hpl. rewrite (live_cons x h) in Hpl. destruct (stale all x) eqn:Es.
  { destruct (IH (mkPriced h (st - 1)) Hh') as (d & s & lo & l' & -> & Hh2 & [D1 D2 D3 D4 D5]); [cbn; lia|].
    exists d, s, lo, l'. split_and!; try done. split; try done. by rewrite Hpl. }
  rewrite Z.geb_leb. destruct (Z.leb_spec threshold (Price x)) as [Hge|Hlt].
  { exists [], [], [x], (mkPriced h st). split_and!; try done. split; [done|constructor|constructor|right; by exists x|].
    apply Forall_forall. intros y Hy. specialize (Hmin y). rewrite Hp in Hmin. specialize (Hmin ltac:(by right)). lia. }
  destruct (IH (mkPriced h st) Hh') as (d & s & lo & l' & -> & Hh2 & [D1 D2 D3 D4 D5]); [cbn; lia|]. cbn [mbind option_bind fst snd pitems] in *.
  fold (is_local x). destruct (is_local x) eqn:El; [exists d, (x :: s), lo, l'|exists (x :: d), s, lo, l']; (split_and!; [done..|]); split; try done;
    [rewrite Hpl, D1; cbn [app]; by rewrite <- Permutation_middle|by constructor|by rewrite Hpl, D1|by constructor].
Qed.

Lemma drop_stale_ok fuel l : heap_ok (pitems l) -> (length (pitems l) <= fuel)%nat ->
  exists l', drop_stale all fuel l = Some l' /\ heap_ok (pitems l') /\ live (pitems l') ≡ₚ live (pitems l) /\
    match pitems l' with [] => True | x :: _ => stale all x = false end.
Proof.
  revert l. induction fuel as [|fuel IH]; intros [[|x t] st] Hh Hf; cbn [drop_stale pitems length] in *; [|lia| |].
  1, 2: by exists (mkPriced [] st).
  destruct (stale all x) eqn:Es; [|by exists (mkPriced (x :: t) st)].
  destruct (pop_step x t Hh) as (h & -> & Hp & Hh' & Hl & _). cbn [mbind option_bind fst snd stales pitems].
  destruct (IH (mkPriced h (st - 1)) Hh') as (l' & -> & Hh2 & Hlive & Hhd); [cbn; lia|]. exists l'. split_and!; try done.
  rewrite Hlive. cbn [pitems]. rewrite (live_perm _ _ Hp), live_cons, Es. done.
Qed.
End facts.

(** ** Properties *)

(** [Discard] takes the cheapest transactions that are in the pool and not local, as many as asked
    for or all there are, and keeps every other transaction of the pool on the heap. *)
Theorem Discard_cheapest `{CryptoPrims} (all : gmap Hash Transaction) (local : txSet) (count : Z) (l : txPricedList) :
  heap_ok (pitems l) -> 0 <= count ->
  exists drop l', Discard all count local l = Some (drop, l') /\ heap_ok (pitems l') /\
    live all (pitems l) ≡ₚ drop ++ live all (pitems l') /\
    Forall (fun tx => is_local local tx = false) drop /\ zlen drop <= count /\
    (forall x y, x ∈ drop -> y ∈ live all (pitems l') -> is_local local y = false -> Price x <= Price y) /\
    (zlen drop < count -> Forall (fun tx => is_local local tx = true) (live all (pitems l'))).
Proof.
  intros Hh Hc. unfold Discard. rewrite (proj2 (Z.ltb_ge _ _)) by done.
  destruct (discard_loop_ok all local (length (pitems l)) count l Hh) as (d & s & l1 & -> & Hh1 & [D1 D2 D3 D4 D5 D6] & _); [done..|].
  cbn [mbind option_bind fst snd]. destruct (push_all_ok s l1 Hh1) as [Hh2 Hp]. exists d, (push_all s l1).
  assert (live all (pitems (push_all s l1)) ≡ₚ s ++ live all (pitems l1)) as Hl
    by (apply (live_saved all s l1 (pitems l)); [done|intros x Hx; rewrite D1, !elem_of_app; auto]).
  rewrite Forall_forall in D3. split_and!; try done; [by rewrite Hl|..].
  - intros x y Hx Hy Hr. rewrite Hl, elem_of_app in Hy. destruct Hy as [Hy|[_ Hy]%live_elem]; [rewrite (D3 _ Hy) in Hr; done|by apply D5].
  - intros Hlt. rewrite (D6 Hlt) in Hl. apply Forall_forall. intros x Hx. rewrite Hl, elem_of_app in Hx. destruct Hx as [Hx|Hx%elem_of_nil]; [by apply D3|done].
Qed.

Definition priced_tx (nonce price : Z) : Transaction := mkTransaction nonce price 0 None 0 [] 0 0 0.
Definition demo_priced : txPricedList := push_all [priced_tx 1 9; priced_tx 2 4; priced_tx 3 7] newTxPricedList.
Definition demo_all : gmap Hash Transaction := list_to_map (map (fun tx => (@tx_Hash mix_prims tx, tx)) (pitems demo_priced)).
Lemma demo_priced_ok : heap_ok (pitems demo_priced).
Proof. apply (push_all_ok [priced_tx 1 9; priced_tx 2 4; priced_tx 3 7] newTxPricedList). intros m Hm. cbn in Hm. lia. Qed.

Lemma Discard_cheapest_witness : exists drop l', @Discard mix_prims demo_all 2 newTxSet demo_priced = Some (drop, l') /\
  heap_ok (pitems l') /\ @live mix_prims demo_all (pitems demo_priced) ≡ₚ drop ++ @live mix_prims demo_all (pitems l').
Proof.
  destruct (@Discard_cheapest mix_prims demo_all newTxSet 2 demo_priced demo_priced_ok ltac:(done)) as (d & l' & E & Hh & Hl & _).
  exact (ex_intro _ d (ex_intro _ l' (conj E (conj Hh Hl)))).
Defined.

(** A transaction is refused as underpriced exactly when it is not local and no transaction of the
    pool is cheaper than it; stale entries do not count. *)
Theorem Underpriced_exact `{CryptoPrims} (all : gmap Hash Transaction) (local : txSet) (tx : Transaction) (l : txPricedList) :
  heap_ok (pitems l) -> live all (pitems l) <> [] ->
  exists b l', Underpriced all tx local l = Some (b, l') /\ heap_ok (pitems l') /\ live all (pitems l') ≡ₚ live all (pitems l) /\
    (b = true <-> is_local local tx = false /\ Forall (fun x => Price tx <= Price x) (live all (pitems l))).
Proof.
  intros Hh Hne. unfold Underpriced. fold (is_local local tx). destruct (is_local local tx); [exists false, l; by split_and!; [..|split; [|intros [? _]]]|].
  destruct (drop_stale_ok all (length (pitems l)) l Hh) as (l' & -> & Hh' & Hl & Hhd); [done|]. cbn [mbind option_bind].
  destruct (pitems l') as [|c t] eqn:Ei; [destruct Hne; by apply Permutation_nil in Hl|]. rewrite <- Ei in *.
  eexists _, l'. split; [done|]. split_and!; try done. rewrite Z.geb_leb, Z.leb_le. split.
  - intros Hc. split; [done|]. apply Forall_forall. intros x Hx. rewrite <- Hl in Hx. apply live_elem in Hx as [_ Hx].
    apply list_elem_of_lookup in Hx as [m Hm]. apply lookup_lt_Some in Hm as Hlt. pose proof (Heap.heap_min _ _ m Hh' Hlt) as Hmin.
    unfold Heap.at_ in Hmin. rewrite Hm, Ei in Hmin. cbn in Hmin. lia.
  - intros [_ F]. rewrite Forall_forall in F. apply F. rewrite <- Hl. apply live_elem. split; [done|]. rewrite Ei. by left.
Qed.

Lemma Underpriced_exact_witness : exists b l', @Underpriced mix_prims demo_all (priced_tx 4 4) newTxSet demo_priced = Some (b, l') /\
  (b = true <-> true = true /\ Forall (fun x => 4 <= Price x) (@live mix_prims demo_all (pitems demo_priced))).
Proof.
  destruct (@Underpriced_exact mix_prims demo_all newTxSet (priced_tx 4 4) demo_priced demo_priced_ok) as (b & l' & E & _ & _ & Hb); [vm_compute; discriminate|].
  exists b, l'. split; [exact E|]. split; [intros Ht; split; [reflexivity|]; by apply Hb|intros [_ F]; apply Hb; split; [reflexivity|exact F]].
Defined.

(** Capping the heap at a price returns the cheaper remote transactions and keeps the local ones,
    but the first transaction at or above the price has been popped when the loop ends and is not put
    back: it stays in the pool and is on the heap no more. *)
Theorem Cap_forgets `{CryptoPrims} (all : gmap Hash Transaction) (local : txSet) (threshold : Z) (l : txPricedList) :
  heap_ok (pitems l) -> Exists (fun tx => threshold <= Price tx) (live all (pitems l)) ->
  exists drop lost l', Cap all threshold local l = Some (drop, l') /\ heap_ok (pitems l') /\
    live all (pitems l) ≡ₚ lost :: drop ++ live all (pitems l') /\ threshold <= Price lost /\
    Forall (fun tx => is_local local tx = false /\ Price tx < threshold) drop.
Proof.
  intros Hh Hex. unfold Cap. destruct (cap_loop_ok all local (length (pitems l)) threshold l Hh) as (d & s & lo & l1 & -> & Hh1 & [D1 D2 D3 D4 D5]); [done|].
  cbn [mbind option_bind fst snd]. destruct (push_all_ok s l1 Hh1) as [Hh2 Hp].
  assert (live all (pitems (push_all s l1)) ≡ₚ s ++ live all (pitems l1)) as Hl
    by (apply (live_saved all s l1 (pitems l)); [done|intros x Hx; rewrite D1, !elem_of_app; auto]).
  destruct D4 as [[-> E]|(x & -> & Hx)].
  - exfalso. rewrite E in D1. cbn in D1. rewrite app_nil_r in D1. apply Exists_exists in Hex as (y & Hy & Hge). rewrite D1, elem_of_app in Hy.
    rewrite Forall_forall in D2, D3. destruct Hy as [Hy|Hy]; [apply D2 in Hy|apply D3 in Hy]; lia.
  - exists d, x, (push_all s l1). split_and!; try done. rewrite D1, Hl. cbn [app]. by rewrite <- !Permutation_middle.
Qed.

Lemma Cap_forgets_witness : exists drop lost l', @Cap mix_prims demo_all 4 newTxSet demo_priced = Some (drop, l') /\
  @live mix_prims demo_all (pitems demo_priced) ≡ₚ lost :: drop ++ @live mix_prims demo_all (pitems l') /\ 4 <= Price lost.
Proof.
  destruct (@Cap_forgets mix_prims demo_all newTxSet 4 demo_priced demo_priced_ok) as (d & lo & l' & E & _ & Hl & Hx & _);
    [|exact (ex_intro _ d (ex_intro _ lo (ex_intro _ l' (conj E (conj Hl Hx)))))].
  vm_compute. left. discriminate.
Defined.
End TxPricedThms.
