(* ===== verification/ManagedState.v ===== *)
(** * [core/state/managed_state.go], and [StateDB.Copy] of [core/state/statedb.go]

    The overlay of pending nonces that the transaction pool keeps over a copy of the state.  The
    account's pointer to its state object is never read and is left out; a slice of nonces is a list.
    Copies share the trie and the cache of code sizes in Go; the overlay only reads them.  A panic is [None]. *)

From S2P Require Import Prelude GoMath World State Ideal.

Module ManagedState.
Import State.
Section managed.
Context `{C : CryptoPrims}.

(** A dirty address without a live object is a nil pointer. *)
Definition Copy (s : StateDB) : option StateDB :=
  let live := filter (fun p : Address * stateObject => p.1 ∈ stateObjectsDirty s) (stateObjects s) in
  if bool_decide (stateObjectsDirty s ⊆ dom (stateObjects s)) then
    Some (mkStateDB (db s) (trie s) (codeSizeCache s)
      (deepCopy true <$> live)
      (stateObjectsDirty s)
      (filter (fun a => from_option so_suicided false (live !! a) = true) (stateObjectsDirty s))
      (refund s) 0 0 0 (logs s) (logSize s) (preimages s) [] [] 0)
  else None.

Record account := mkManagedAccount {
  nstart : Z;
  nonces : list bool;
}.
Record ManagedState := mkManaged {
  backing : StateDB;
  accounts : gmap Address account;
}.
Definition newAccount (o : stateObject) : account := mkManagedAccount (Nonce (so_data o)) [].

Definition ManageState (statedb : StateDB) : option ManagedState := s ← Copy statedb; Some (mkManaged s ∅).
Definition ms_SetState (statedb : StateDB) (ms : ManagedState) : ManagedState := mkManaged statedb (accounts ms).

Definition HasAccount (addr : Address) (ms : ManagedState) : bool := bool_decide (is_Some (accounts ms !! addr)).

(** The nonce that follows the managed ones, at 64 bits *)
Definition next_nonce (acc : account) : Z := u64 (zlen (nonces acc) + nstart acc).

Definition getAccount (addr : Address) (ms : ManagedState) : account * ManagedState :=
  match accounts ms !! addr with
  | None =>
      let '(so, s) := GetOrNewStateObject addr (backing ms) in
      (newAccount so, mkManaged s (<[addr := newAccount so]> (accounts ms)))
  | Some acc =>
      let '(so, s) := getStateObject addr (backing ms) in
      match so with
      | Some so =>
          if next_nonce acc <? Nonce (so_data so)
          then (newAccount so, mkManaged s (<[addr := newAccount so]> (accounts ms)))
          else (acc, mkManaged s (accounts ms))
      | None => (acc, mkManaged s (accounts ms))
      end
  end.
Definition set_account (addr : Address) (acc : account) (ms : ManagedState) : ManagedState :=
  mkManaged (backing ms) (<[addr := acc]> (accounts ms)).

Definition ms_GetNonce (addr : Address) (ms : ManagedState) : Z * ManagedState :=
  if HasAccount addr ms then
    let '(acc, ms) := getAccount addr ms in (next_nonce acc, ms)
  else let '(n, s) := GetNonce addr (backing ms) in (n, mkManaged s (accounts ms)).

Definition ms_SetNonce (addr : Address) (nonce : Z) (ms : ManagedState) : ManagedState :=
  let '(so, s) := GetOrNewStateObject addr (backing ms) in
  let '(so, s) := so_SetNonce nonce so s in
  mkManaged (setStateObject so s) (<[addr := newAccount so]> (accounts ms)).

(** The index of the first nonce that was given back *)
Fixpoint first_free (l : list bool) : option nat :=
  match l with
  | [] => None
  | used :: l' => if used then S <$> first_free l' else Some 0%nat
  end.
Definition NewNonce (addr : Address) (ms : ManagedState) : Z * ManagedState :=
  let '(acc, ms) := getAccount addr ms in
  match first_free (nonces acc) with
  | Some i => (u64 (nstart acc + Z.of_nat i), ms)
  | None =>
      let acc := mkManagedAccount (nstart acc) (nonces acc ++ [true]) in
      (u64 (zlen (nonces acc) - 1 + nstart acc), set_account addr acc ms)
  end.

(** [n - nstart] wraps around below [nstart] and is then longer than any slice. *)
Definition RemoveNonce (addr : Address) (n : Z) (ms : ManagedState) : ManagedState :=
  if HasAccount addr ms then
    let '(acc, ms) := getAccount addr ms in
    let k := u64 (n - nstart acc) in
    if k <=? zlen (nonces acc)
    then set_account addr (mkManagedAccount (nstart acc) (take (Z.to_nat k) (nonces acc))) ms
    else ms
  else ms.

(** ** Facts *)

(** The nonce of an account in the state, without loading it *)
Definition state_nonce (a : Address) (s : StateDB) : Z :=
  match stateObjects s !! a with
  | Some o => if so_deleted o then 0 else Nonce (so_data o)
  | None => from_option Nonce 0 (trie s !! a)
  end.
Definition addr_ok (s : StateDB) : Prop := forall a o, stateObjects s !! a = Some o -> so_address o = a.

Lemma GetNonce_state a s : (GetNonce a s).1 = state_nonce a s.
Proof.
  unfold GetNonce, getStateObject, state_nonce. destruct (stateObjects s !! a) as [o|]; [by destruct (so_deleted o)|]. by destruct (trie s !! a).
Qed.
(** Loading an account changes no nonce. *)
Lemma getStateObject_state a s : addr_ok s ->
  addr_ok (getStateObject a s).2 /\ (forall a', state_nonce a' (getStateObject a s).2 = state_nonce a' s) /\
  match (getStateObject a s).1 with
  | Some o => so_address o = a /\ so_deleted o = false /\ Nonce (so_data o) = state_nonce a s
  | None => state_nonce a s = 0
  end.
Proof.
  intros A. unfold getStateObject, state_nonce. destruct (stateObjects s !! a) as [o|] eqn:E.
  - destruct (so_deleted o) eqn:D; cbn [fst snd]; split_and!; try done. by apply A.
  - destruct (trie s !! a) as [d|] eqn:T; cbn [fst snd]; [|by split_and!]. split_and!; try done.
    + intros a' o. cbn. rewrite lookup_insert_Some. intros [[<- <-]|[_ Ho]]; [done|by apply A].
    + intros a'. cbn. destruct (decide (a = a')) as [<-|Hne]; [by rewrite lookup_insert_eq, E, T|by rewrite lookup_insert_ne].
Qed.
Lemma GetOrNewStateObject_state a s : addr_ok s ->
  addr_ok (GetOrNewStateObject a s).2 /\ (forall a', state_nonce a' (GetOrNewStateObject a s).2 = state_nonce a' s) /\
  so_address (GetOrNewStateObject a s).1 = a /\ so_deleted (GetOrNewStateObject a s).1 = false /\
  Nonce (so_data (GetOrNewStateObject a s).1) = state_nonce a s.
Proof.
  intros A. unfold GetOrNewStateObject. destruct (getStateObject_state a s A) as (A' & N & O).
  destruct (getStateObject a s) as [[o|] s'] eqn:E; cbn [fst snd] in *; [destruct O as (O1 & O2 & O3); rewrite O2; by split_and!|].
  unfold createObject. assert (getStateObject a s' = (None, s')) as ->.
  { unfold getStateObject in *. destruct (stateObjects s !! a) as [o|] eqn:Eo.
    - destruct (so_deleted o) eqn:D; [injection E as <-; by rewrite Eo, D|done].
    - destruct (trie s !! a) eqn:T; [done|]. injection E as <-. by rewrite Eo, T. }
  cbn -[state_nonce]. split_and!; try done.
  - intros a' o. cbn. rewrite lookup_insert_Some. intros [[<- <-]|[_ Ho]]; [done|by apply A'].
  - intros a'. rewrite <- N. unfold state_nonce. cbn. destruct (decide (a = a')) as [<-|Hne]; [|by rewrite lookup_insert_ne].
    rewrite lookup_insert_eq. cbn. specialize (N a). rewrite O in N. unfold state_nonce in N. done.
Qed.

(** What the overlay answers for an account: the managed nonces, unless the state is ahead of them *)
Definition managed_nonce (a : Address) (ms : ManagedState) : Z :=
  match accounts ms !! a with
  | Some acc => if next_nonce acc <? state_nonce a (backing ms) then state_nonce a (backing ms) else next_nonce acc
  | None => state_nonce a (backing ms)
  end.
(** Nonces are 64-bit numbers, and none is ever given back in the middle. *)
Record ms_wf (ms : ManagedState) : Prop := {
  mw_addr : addr_ok (backing ms);
  mw_state : forall a, in_u64 (state_nonce a (backing ms));
  mw_nonces : forall a acc, accounts ms !! a = Some acc ->
    0 <= nstart acc /\ zlen (nonces acc) + nstart acc < 2 ^ 64 /\ Forall (fun used => used = true) (nonces acc);
}.
Lemma next_nonce_small acc : 0 <= nstart acc -> zlen (nonces acc) + nstart acc < 2 ^ 64 -> next_nonce acc = zlen (nonces acc) + nstart acc.
Proof. intros H1 H2. pose proof (zlen_nonneg (nonces acc)). apply Z.mod_small. lia. Qed.
Lemma first_free_none l : Forall (fun used => used = true) l -> first_free l = None.
Proof. induction 1 as [|b l -> _ IH]; [done|]. cbn. by rewrite IH. Qed.
Lemma state_le_managed a ms : state_nonce a (backing ms) <= managed_nonce a ms.
Proof. unfold managed_nonce. destruct (accounts ms !! a); [|lia]. destruct (Z.ltb_spec (next_nonce a0) (state_nonce a (backing ms))); lia. Qed.

(** The same state, and the same accounts but one *)
Lemma managed_other a a' ms ms' : a' <> a -> state_nonce a' (backing ms') = state_nonce a' (backing ms) ->
  accounts ms' !! a' = accounts ms !! a' -> managed_nonce a' ms' = managed_nonce a' ms.
Proof. intros _ E1 E2. unfold managed_nonce. by rewrite E1, E2. Qed.
Lemma managed_at a ms acc : accounts ms !! a = Some acc -> state_nonce a (backing ms) <= next_nonce acc -> managed_nonce a ms = next_nonce acc.
Proof. intros E Hle. unfold managed_nonce. rewrite E. by rewrite (proj2 (Z.ltb_ge _ _)). Qed.
Lemma newAccount_next o n : Nonce (so_data o) = n -> in_u64 n -> next_nonce (newAccount o) = n.
Proof. intros <- [? ?]. unfold next_nonce. cbn. change (zlen []) with 0. by apply Z.mod_small. Qed.
Lemma ms_wf_new ms s a o : ms_wf ms -> addr_ok s -> (forall a', in_u64 (state_nonce a' s)) -> in_u64 (Nonce (so_data o)) ->
  ms_wf (mkManaged s (<[a := newAccount o]> (accounts ms))).
Proof.
  intros W A S [? ?]. split; cbn; [done|done|]. intros a' acc' [[_ <-]|[_ E]]%lookup_insert_Some; [|by apply (mw_nonces _ W a')].
  cbn. change (zlen []) with 0. by split_and!; [|lia|constructor].
Qed.
Lemma ms_wf_set ms s a acc : ms_wf ms -> addr_ok s -> (forall a', in_u64 (state_nonce a' s)) ->
  0 <= nstart acc -> zlen (nonces acc) + nstart acc < 2 ^ 64 -> Forall (fun used => used = true) (nonces acc) ->
  ms_wf (mkManaged s (<[a := acc]> (accounts ms))).
Proof.
  intros W A S H1 H2 H3. split; cbn; [done|done|]. intros a' acc' [[_ <-]|[_ E]]%lookup_insert_Some; [done|]. by apply (mw_nonces _ W a').
Qed.

Lemma getAccount_ok a ms : ms_wf ms -> exists acc ms', getAccount a ms = (acc, ms') /\ ms_wf ms' /\ accounts ms' !! a = Some acc /\
  next_nonce acc = managed_nonce a ms /\ (forall a', state_nonce a' (backing ms') = state_nonce a' (backing ms)) /\
  (forall a', a' <> a -> accounts ms' !! a' = accounts ms !! a').
Proof.
  intros W. pose proof W as [A S N]. unfold getAccount, managed_nonce. destruct (accounts ms !! a) as [acc|] eqn:E.
  - destruct (getStateObject_state a _ A) as (A' & N' & O). destruct (getStateObject a (backing ms)) as [[o|] s']; cbn [fst snd] in *.
    + destruct O as (_ & _ & O). rewrite O. assert (forall a', in_u64 (state_nonce a' s')) as S' by (intros; by rewrite N').
      destruct (Z.ltb_spec (next_nonce acc) (state_nonce a (backing ms))) as [Hlt|Hge].
      * do 2 eexists. split; [done|]. cbn [backing accounts]. split_and!; [apply ms_wf_new; by rewrite ?O|apply lookup_insert_eq|by apply newAccount_next|done|].
        intros a' Hne. by apply lookup_insert_ne.
      * do 2 eexists. split; [done|]. cbn [backing accounts]. by split_and!.
    + do 2 eexists. split; [done|]. cbn [backing accounts]. split_and!; try done; [split; try done; intros; by rewrite N'|].
      rewrite O. rewrite (proj2 (Z.ltb_ge _ _)); [done|]. destruct (N _ _ E) as (? & ? & _). pose proof (zlen_nonneg (nonces acc)). rewrite next_nonce_small; lia.
  - destruct (GetOrNewStateObject_state a _ A) as (A' & N' & _ & _ & O). destruct (GetOrNewStateObject a (backing ms)) as [o s']; cbn [fst snd] in *.
    do 2 eexists. split; [done|]. cbn [backing accounts].
    split_and!; [apply ms_wf_new; try done; [intros; by rewrite N'|by rewrite O]|apply lookup_insert_eq|by apply newAccount_next|done|].
    intros a' Hne. by apply lookup_insert_ne.
Qed.
Lemma ms_GetNonce_ok a ms : ms_wf ms -> (ms_GetNonce a ms).1 = managed_nonce a ms /\ ms_wf (ms_GetNonce a ms).2 /\
  forall a', managed_nonce a' (ms_GetNonce a ms).2 = managed_nonce a' ms.
Proof.
  intros W. unfold ms_GetNonce, HasAccount. case_bool_decide as E.
  - destruct (getAccount_ok a ms W) as (acc & ms' & -> & W' & E' & Hn & S & Ho). cbn [fst snd]. split_and!; [done..|]. intros a'.
    destruct (decide (a' = a)) as [->|Hne]; [|apply (managed_other a); auto].
    rewrite (managed_at a ms' acc E'); [done|]. rewrite S, Hn. apply state_le_managed.
  - apply eq_None_not_Some in E. destruct (getStateObject_state a _ (mw_addr _ W)) as (A' & N' & _). pose proof (GetNonce_state a (backing ms)) as G.
    unfold GetNonce in *. destruct (getStateObject a (backing ms)) as [o s']; cbn [fst snd] in *. split_and!.
    + unfold managed_nonce. by rewrite E.
    + destruct W as [A S N]. split; try done. cbn. intros. by rewrite N'.
    + intros a'. unfold managed_nonce. cbn [backing accounts]. by rewrite N'.
Qed.
Lemma ms_SetNonce_ok a n ms : ms_wf ms -> in_u64 n -> ms_wf (ms_SetNonce a n ms) /\
  forall a', managed_nonce a' (ms_SetNonce a n ms) = if decide (a' = a) then n else managed_nonce a' ms.
Proof.
  intros W [Hn1 Hn2]. pose proof W as [A S N]. unfold ms_SetNonce. destruct (GetOrNewStateObject_state a _ A) as (A' & N' & Oa & Od & _).
  destruct (GetOrNewStateObject a (backing ms)) as [o s']; cbn [fst snd] in *.
  assert (exists o1 s1, so_SetNonce n o s' = (o1, s1) /\ so_address o1 = a /\ so_deleted o1 = false /\ Nonce (so_data o1) = n /\
    stateObjects s1 = stateObjects s' /\ trie s1 = trie s') as (o1 & s1 & -> & Ea & Ed & En & Eo & Et).
  { unfold so_SetNonce, so_setNonce, fire_onDirty. cbn [so_upd_data so_onDirty]. destruct (so_onDirty o); do 2 eexists; (split; [reflexivity|]); by split_and!. }
  assert (forall a', state_nonce a' (setStateObject o1 s1) = if decide (a' = a) then n else state_nonce a' (backing ms)) as Hs.
  { intros a'. unfold state_nonce at 1. cbn. rewrite Ea, Eo, Et. case_decide as D; [subst a'; by rewrite lookup_insert_eq, Ed|].
    rewrite lookup_insert_ne by done. apply (N' a'). }
  split.
  - apply ms_wf_new; [done| | |by rewrite En].
    + intros a' x. cbn. rewrite Ea, Eo, lookup_insert_Some. intros [[<- <-]|[_ Hx]]; [done|by apply A'].
    + intros a'. rewrite Hs. case_decide; [done|apply S].
  - intros a'. case_decide as D; [subst a'|].
    + rewrite (managed_at _ _ (newAccount o1)); cbn [accounts backing]; [by apply newAccount_next|apply lookup_insert_eq|].
      rewrite Hs, decide_True, (newAccount_next o1 n) by done. lia.
    + apply (managed_other a); [done| |cbn; by rewrite lookup_insert_ne]. cbn [backing]. by rewrite Hs, decide_False.
Qed.
Lemma NewNonce_ok a ms : ms_wf ms -> managed_nonce a ms + 1 < 2 ^ 64 -> (NewNonce a ms).1 = managed_nonce a ms /\ ms_wf (NewNonce a ms).2 /\
  forall a', managed_nonce a' (NewNonce a ms).2 = if decide (a' = a) then managed_nonce a ms + 1 else managed_nonce a' ms.
Proof.
  intros W Hlt. unfold NewNonce. destruct (getAccount_ok a ms W) as (acc & ms' & -> & W' & E' & Hn & S & Ho). pose proof W' as [A2 S2 N2].
  destruct (N2 _ _ E') as (H1 & H2 & H3). rewrite first_free_none by done. cbn [fst snd nonces nstart]. rewrite zlen_app. change (zlen [true]) with 1.
  rewrite next_nonce_small in Hn by done. pose proof (zlen_nonneg (nonces acc)).
  set (acc' := mkManagedAccount (nstart acc) (nonces acc ++ [true])). assert (next_nonce acc' = managed_nonce a ms + 1) as Hn'.
  { rewrite next_nonce_small; unfold acc'; cbn [nstart nonces]; rewrite ?zlen_app; change (zlen [true]) with 1; lia. }
  split_and!.
  - unfold u64. rewrite Z.mod_small; lia.
  - apply ms_wf_set; [done..|unfold acc'; cbn [nonces nstart]; rewrite zlen_app; change (zlen [true]) with 1; lia|]. apply Forall_app. by repeat constructor.
  - intros a'. case_decide as D; [subst a'|].
    + rewrite (managed_at _ _ acc'); cbn; [done|apply lookup_insert_eq|]. rewrite S, Hn'. pose proof (state_le_managed a ms). lia.
    + apply (managed_other a); [done|apply S|]. cbn. rewrite lookup_insert_ne by done. by apply Ho.
Qed.
Lemma RemoveNonce_ok a n ms acc ms' : ms_wf ms -> getAccount a ms = (acc, ms') -> HasAccount a ms = true ->
  nstart acc <= n <= managed_nonce a ms -> state_nonce a (backing ms) <= n ->
  ms_wf (RemoveNonce a n ms) /\ forall a', managed_nonce a' (RemoveNonce a n ms) = if decide (a' = a) then n else managed_nonce a' ms.
Proof.
  intros W E Hh Hn Hs. destruct (getAccount_ok a ms W) as (acc0 & ms0 & E0 & W' & E' & Hnx & S & Ho). rewrite E in E0. injection E0 as <- <-.
  pose proof W' as [A2 S2 N2]. destruct (N2 _ _ E') as (H1 & H2 & H3). rewrite next_nonce_small in Hnx by done. unfold RemoveNonce. rewrite Hh, E.
  assert (u64 (n - nstart acc) = n - nstart acc) as -> by (apply Z.mod_small; lia). rewrite (proj2 (Z.leb_le _ _)) by lia.
  set (acc' := mkManagedAccount _ _). assert (zlen (nonces acc') = n - nstart acc) as Hl by (unfold acc', zlen in *; cbn [nonces]; rewrite length_take; lia).
  assert (next_nonce acc' = n) as Hn' by (rewrite next_nonce_small; unfold acc' in *; cbn [nstart] in *; lia).
  split; [apply ms_wf_set; [done..|unfold acc' in *; cbn [nstart] in *; lia|by apply Forall_take]|].
  intros a'. case_decide as D; [subst a'|].
  - rewrite (managed_at _ _ acc'); cbn; [done|apply lookup_insert_eq|]. rewrite S, Hn'. done.
  - apply (managed_other a); [done|apply S|]. cbn. rewrite lookup_insert_ne by done. by apply Ho.
Qed.

(** A live account that is not marked dirty has the nonce that the trie has for it. *)
Definition settled (s : StateDB) : Prop :=
  stateObjectsDirty s ⊆ dom (stateObjects s) /\
  forall a o, stateObjects s !! a = Some o -> a ∉ stateObjectsDirty s -> so_deleted o = false /\ from_option Nonce 0 (trie s !! a) = Nonce (so_data o).
Lemma ManageState_ok s : addr_ok s -> settled s -> (forall a, in_u64 (state_nonce a s)) ->
  exists ms, ManageState s = Some ms /\ ms_wf ms /\ forall a, managed_nonce a ms = state_nonce a s.
Proof.
  intros A [Hd Hset] U. unfold ManageState, Copy. rewrite bool_decide_true by done. cbn [mbind option_bind]. eexists. split; [done|].
  set (live := filter _ (stateObjects s)). assert (forall a, live !! a = if decide (a ∈ stateObjectsDirty s) then stateObjects s !! a else None) as Hl.
  { intros a. unfold live. case_decide as D.
    - destruct (stateObjects s !! a) as [o|] eqn:E; [by apply map_lookup_filter_Some|]. apply map_lookup_filter_None. by left.
    - apply map_lookup_filter_None. right. by intros o _. }
  set (s' := mkStateDB _ _ _ _ _ _ _ _ _ _ _ _ _ _ _ _). assert (forall a, state_nonce a s' = state_nonce a s) as Hs.
  { intros a. unfold state_nonce, s'. cbn [stateObjects trie]. rewrite lookup_fmap, Hl. case_decide as D; [by destruct (stateObjects s !! a)|].
    cbn. destruct (stateObjects s !! a) as [o|] eqn:E; [|done]. by destruct (Hset _ _ E D) as [-> ->]. }
  split; [split; cbn [backing accounts]|intros a; unfold managed_nonce; cbn; apply Hs].
  - intros a o. unfold s'. cbn. rewrite lookup_fmap, Hl. case_decide; [|done]. destruct (stateObjects s !! a) as [x|] eqn:E; [|done].
    cbn. intros [= <-]. cbn. by apply A.
  - intros a. by rewrite Hs.
  - intros a acc. by rewrite lookup_empty.
Qed.
End managed.

(** ** Properties *)

(** The overlay starts with the nonces of the state and keeps one next nonce for every account:
    [SetNonce] sets it, [NewNonce] returns it and moves it up by one, [RemoveNonce] takes it back to a
    nonce that was given out, [GetNonce] reads it; no operation touches another account, and the overlay
    never falls behind the state. *)
Theorem managed_nonces `{CryptoPrims} (ms : ManagedState) (a : Address) (n : Z) : ms_wf ms -> in_u64 n ->
  state_nonce a (backing ms) <= managed_nonce a ms /\
  (let '(r, ms') := ms_GetNonce a ms in r = managed_nonce a ms /\ ms_wf ms' /\ forall a', managed_nonce a' ms' = managed_nonce a' ms) /\
  (ms_wf (ms_SetNonce a n ms) /\ forall a', managed_nonce a' (ms_SetNonce a n ms) = if decide (a' = a) then n else managed_nonce a' ms) /\
  (managed_nonce a ms + 1 < 2 ^ 64 -> let '(r, ms') := NewNonce a ms in
     r = managed_nonce a ms /\ ms_wf ms' /\ forall a', managed_nonce a' ms' = if decide (a' = a) then managed_nonce a ms + 1 else managed_nonce a' ms) /\
  (HasAccount a ms = true -> nstart (getAccount a ms).1 <= n <= managed_nonce a ms -> state_nonce a (backing ms) <= n ->
     ms_wf (RemoveNonce a n ms) /\ forall a', managed_nonce a' (RemoveNonce a n ms) = if decide (a' = a) then n else managed_nonce a' ms).
Proof.
  intros W Hn. split_and!; [apply state_le_managed| |by apply ms_SetNonce_ok..| |].
  - pose proof (ms_GetNonce_ok a ms W) as G. by destruct (ms_GetNonce a ms).
  - intros Hlt. pose proof (NewNonce_ok a ms W Hlt) as G. by destruct (NewNonce a ms).
  - intros Hh Hr Hs. destruct (getAccount a ms) as [acc ms'] eqn:E. by apply (RemoveNonce_ok a n ms acc ms').
Qed.

Definition empty_state : StateDB := New ∅ ∅ ∅.
Lemma managed_nonces_witness : exists ms, ManageState empty_state = Some ms /\
  forall a', managed_nonce a' (ms_SetNonce 7 3 ms) = if decide (a' = 7) then 3 else managed_nonce a' ms.
Proof.
  assert (forall a, stateObjects empty_state !! a = None) as E by (intros; apply lookup_empty).
  assert (forall a, state_nonce a empty_state = 0) as En by (intros a; unfold state_nonce; by rewrite E).
  destruct (ManageState_ok empty_state) as (ms & Em & W & _).
  - intros a o Ho. by rewrite E in Ho.
  - split; [apply empty_subseteq|]. intros a o Ho. by rewrite E in Ho.
  - intros a. by rewrite En.
  - exists ms. split; [done|]. by apply (managed_nonces ms 7 3 W).
Defined.
End ManagedState.
