(* ===== verification/TxPool.v ===== *)
(** * [core/tx_pool.go]

    The pool of pending and queued transactions.  What its callbacks answer (the current state and the
    gas limit) and the clock are an argument of every operation, one snapshot per call; the lists of
    an account are values that are written back to the maps that own them, and the events that are posted
    and the metrics are left out.  Reading a nonce or a balance may load an account into the live set of
    the state that the callback returned, which nothing reads afterwards.  Lengths of
    slices and maps, and their sums, are numbers: they are far below the width of an integer.  An
    operation that panics is [None]. *)

From S2P Require Import Prelude GoMath Params World State VmBase Transition Heap Types Transactions TxList TxPriced Prque ManagedState.

Module TxPool.
Import Types Transactions TxList TxPriced ManagedState.

Inductive poolError :=
| ErrInvalidSender | ErrNonceTooLow | ErrUnderpriced | ErrReplaceUnderpriced | ErrInsufficientFunds
| ErrIntrinsicGas | ErrGasLimit | ErrNegativeValue | ErrOversizedData
| errKnown    (* known transaction *)
| errState.   (* the error of [currentState] *)

(** ** Configuration *)

Record TxPoolConfig := mkConfig {
  PriceLimit : Z;
  PriceBump : Z;
  AccountSlots : Z;
  GlobalSlots : Z;
  AccountQueue : Z;
  GlobalQueue : Z;
  Lifetime : Z;
}.
Definition DefaultTxPoolConfig : TxPoolConfig := mkConfig 1 10 16 4096 64 1024 (3 * 3600 * 1000000000).
Definition sanitize (c : TxPoolConfig) : TxPoolConfig :=
  mkConfig (if PriceLimit c <? 1 then PriceLimit DefaultTxPoolConfig else PriceLimit c)
           (if PriceBump c <? 1 then PriceBump DefaultTxPoolConfig else PriceBump c)
           (AccountSlots c) (GlobalSlots c) (AccountQueue c) (GlobalQueue c) (Lifetime c).

(** ** The pool *)

Record TxPool := mkPool {
  config : TxPoolConfig;
  signer : Signer;
  pendingState : option ManagedState;
  gasPrice : Z;
  locals : txSet;
  pending : gmap Address txList;
  queue : gmap Address txList;
  beats : gmap Address Z;
  all : gmap Hash Transaction;
  priced : txPricedList;
  homestead : bool;
}.
Definition set_managed m p := mkPool (config p) (signer p) m (gasPrice p) (locals p) (pending p) (queue p) (beats p) (all p) (priced p) (homestead p).
Definition set_gasPrice g p := mkPool (config p) (signer p) (pendingState p) g (locals p) (pending p) (queue p) (beats p) (all p) (priced p) (homestead p).
Definition set_locals l p := mkPool (config p) (signer p) (pendingState p) (gasPrice p) l (pending p) (queue p) (beats p) (all p) (priced p) (homestead p).
Definition upd_pending f p := mkPool (config p) (signer p) (pendingState p) (gasPrice p) (locals p) (f (pending p)) (queue p) (beats p) (all p) (priced p) (homestead p).
Definition upd_queue f p := mkPool (config p) (signer p) (pendingState p) (gasPrice p) (locals p) (pending p) (f (queue p)) (beats p) (all p) (priced p) (homestead p).
Definition upd_beats f p := mkPool (config p) (signer p) (pendingState p) (gasPrice p) (locals p) (pending p) (queue p) (f (beats p)) (all p) (priced p) (homestead p).
Definition upd_all f p := mkPool (config p) (signer p) (pendingState p) (gasPrice p) (locals p) (pending p) (queue p) (beats p) (f (all p)) (priced p) (homestead p).
Definition set_priced l p := mkPool (config p) (signer p) (pendingState p) (gasPrice p) (locals p) (pending p) (queue p) (beats p) (all p) l (homestead p).
Definition set_homestead b p := mkPool (config p) (signer p) (pendingState p) (gasPrice p) (locals p) (pending p) (queue p) (beats p) (all p) (priced p) b.

(** What the callbacks and the clock answer during an operation *)
Record Env := mkEnv {
  currentState : option State.StateDB;
  gasLimit : Z;
  now : Z;
}.

Section pool.
Context `{CryptoPrims} `{GoOrder}.

Definition state_GetNonce (a : Address) (s : State.StateDB) : Z := (State.GetNonce a s).1.
Definition state_GetBalance (a : Address) (s : State.StateDB) : Z := (State.GetBalance a s).1.

(** [from, _ := types.Sender(pool.signer, tx)] *)
Definition from_of (p : TxPool) (tx : Transaction) : Address := match Sender (signer p) tx with GOk a => a | _ => 0 end.

(** ** Validation *)

Definition validateTx (env : Env) (tx : Transaction) (p : TxPool) : gores poolError unit :=
  let local := contains (tx_Hash tx) (locals p) in
  check negb (negb local && (gasPrice p >? Price tx)) or ErrUnderpriced;
  match currentState env with
  | None => GErr errState
  | Some st =>
      match Sender (signer p) tx with
      | GPanic => GPanic
      | GErr _ => GErr ErrInvalidSender
      | GOk from =>
          check negb (state_GetNonce from st >? AccountNonce tx) or ErrNonceTooLow;
          check negb (gasLimit env <? tx_GasLimit tx) or ErrGasLimit;
          check negb (Amount tx <? 0) or ErrNegativeValue;
          check negb (state_GetBalance from st <? Cost tx) or ErrInsufficientFunds;
          let intrGas := Transition.IntrinsicGas (Payload tx) (match Recipient tx with None => true | Some _ => false end) (homestead p) in
          check negb (tx_GasLimit tx <? intrGas) or ErrIntrinsicGas;
          check negb (Size tx >? 32 * 1024) or ErrOversizedData;
          GOk tt
      end
  end.

(** ** Queueing, promoting and removing one transaction *)

(** [delete(pool.all, hash); pool.priced.Removed()] *)
Definition forget (hash : Hash) (p : TxPool) : TxPool :=
  let p := upd_all (delete hash) p in set_priced (Removed (all p) (priced p)) p.
Definition forget_all (txs : list Transaction) (p : TxPool) : TxPool := fold_left (fun p tx => forget (tx_Hash tx) p) txs p.
(** [pool.all[hash] = tx; pool.priced.Put(tx)] *)
Definition remember (hash : Hash) (tx : Transaction) (p : TxPool) : TxPool :=
  let p := upd_all (<[hash := tx]>) p in set_priced (TxPriced.Put tx (priced p)) p.
Definition forget_old (old : option Transaction) (p : TxPool) : TxPool :=
  match old with Some o => forget (tx_Hash o) p | None => p end.

Definition enqueueTx (hash : Hash) (tx : Transaction) (p : TxPool) : (poolError + bool) * TxPool :=
  let from := from_of p tx in
  let l := default (newTxList false) (queue p !! from) in
  let '(inserted, old, l) := list_Add tx (PriceBump (config p)) l in
  let p := upd_queue (<[from := l]>) p in
  if negb inserted then (inl ErrReplaceUnderpriced, p)
  else
    let p := forget_old old p in
    (inr (bool_decide (is_Some old)), remember hash tx p).

Definition promoteTx (env : Env) (addr : Address) (hash : Hash) (tx : Transaction) (p : TxPool) : option TxPool :=
  let l := default (newTxList true) (pending p !! addr) in
  let '(inserted, old, l) := list_Add tx (PriceBump (config p)) l in
  let p := upd_pending (<[addr := l]>) p in
  if negb inserted then Some (forget hash p)
  else
    let p := forget_old old p in
    let p := match all p !! hash with None => remember hash tx p | Some _ => p end in
    let p := upd_beats (<[addr := now env]>) p in
    ms ← pendingState p;
    Some (set_managed (Some (ms_SetNonce addr (u64 (AccountNonce tx + 1)) ms)) p).

(** [if nonce := tx.Nonce(); pool.pendingState.GetNonce(addr) > nonce { pool.pendingState.SetNonce(addr, nonce) }] *)
Definition lower_nonce (addr : Address) (nonce : Z) (p : TxPool) : option TxPool :=
  ms ← pendingState p;
  let '(n, ms) := ms_GetNonce addr ms in
  Some (set_managed (Some (if n >? nonce then ms_SetNonce addr nonce ms else ms)) p).

Definition enqueue_all (txs : list Transaction) (p : TxPool) : TxPool := fold_left (fun p tx => (enqueueTx (tx_Hash tx) tx p).2) txs p.

(** The transaction in the queue of its account *)
Definition remove_queued (addr : Address) (tx : Transaction) (p : TxPool) : option TxPool :=
  match queue p !! addr with
  | None => Some p
  | Some future =>
      r ← list_Remove tx future;
      let p := upd_queue (<[addr := r.2]>) p in
      Some (if Empty r.2 then upd_queue (delete addr) p else p)
  end.
Definition removeTx (hash : Hash) (p : TxPool) : option TxPool :=
  match all p !! hash with
  | None => Some p
  | Some tx =>
      let addr := from_of p tx in
      let p := forget hash p in
      match pending p !! addr with
      | None => remove_queued addr tx p
      | Some l =>
          '(removed, invalids, l) ← list_Remove tx l;
          let p := upd_pending (<[addr := l]>) p in
          if (removed : bool) then
            let p := if Empty l then upd_beats (delete addr) (upd_pending (delete addr) p) else enqueue_all invalids p in
            lower_nonce addr (AccountNonce tx) p
          else remove_queued addr tx p
      end
  end.
Fixpoint remove_all (hashes : list Hash) (p : TxPool) : option TxPool :=
  match hashes with [] => Some p | h :: hs => p ← removeTx h p; remove_all hs p end.

(** ** Promotion *)

(** An integer as a [float32]: 24 significant bits, rounded to the nearest, to the even one if two are
    as near. *)
Definition float32 (n : Z) : Z :=
  let e := Z.log2 n - 23 in
  if e <=? 0 then n
  else
    let q := Z.shiftr n e in let r := n - Z.shiftl q e in let half := Z.shiftl 1 (e - 1) in
    let q := if r <? half then q else if half <? r then q + 1 else if Z.even q then q else q + 1 in
    Z.shiftl q e.

(** The queue of one account: old, unpayable, executable and excess transactions leave it.  The
    second component is what is left, to be counted. *)
Fixpoint promote_all (env : Env) (addr : Address) (txs : list Transaction) (p : TxPool) : option TxPool :=
  match txs with
  | [] => Some p
  | tx :: txs' => p ← promoteTx env addr (tx_Hash tx) tx p; promote_all env addr txs' p
  end.
Definition promote_account (env : Env) (st : State.StateDB) (addr : Address) (p : TxPool) : option (TxPool * Z) :=
  match queue p !! addr with
  | None => Some (p, 0)
  | Some l =>
      '(old, l) ← list_Forward (state_GetNonce addr st) l;
      let p := forget_all old (upd_queue (<[addr := l]>) p) in
      let '(drops, _, l) := list_Filter (state_GetBalance addr st) (gasLimit env) l in
      let p := forget_all drops (upd_queue (<[addr := l]>) p) in
      ms ← pendingState p;
      let '(n, ms) := ms_GetNonce addr ms in
      let p := set_managed (Some ms) p in
      '(txs, l) ← list_Ready n l;
      p ← promote_all env addr txs (upd_queue (<[addr := l]>) p);
      '(drops, l) ← list_Cap (i64 (AccountQueue (config p))) l;
      let p := forget_all drops (upd_queue (<[addr := l]>) p) in
      Some (if Empty l then upd_queue (delete addr) p else p, Len l)
  end.
Fixpoint promote_accounts (env : Env) (st : State.StateDB) (accounts : list Address) (queued : Z) (p : TxPool) : option (TxPool * Z) :=
  match accounts with
  | [] => Some (p, queued)
  | addr :: accounts' =>
      '(p, n) ← promote_account env st addr p;
      promote_accounts env st accounts' (queued + n) p
  end.

(** ** Equalising the pending lists *)

Definition count (m : gmap Address txList) : Z := fold_left (fun n l => n + Len l) (map snd (range m)) 0.

Definition spammers (p : TxPool) : list (Prque.item Address) :=
  fold_left (fun q '(addr, l) =>
    if Len l >? AccountSlots (config p) then
      match range (items (txs l)) with
      | (_, tx) :: _ => if contains (tx_Hash tx) (locals p) then q else Prque.Push addr (float32 (Len l)) q
      | [] => q
      end
    else q) (range (pending p)) Prque.New.

(** The last transaction of an account is dropped. *)
Fixpoint drop_capped (addr : Address) (drops : list Transaction) (p : TxPool) : option TxPool :=
  match drops with
  | [] => Some p
  | tx :: drops' => p ← lower_nonce addr (AccountNonce tx) (forget (tx_Hash tx) p); drop_capped addr drops' p
  end.
Definition cap_one (addr : Address) (p : TxPool) : option TxPool :=
  l ← pending p !! addr;
  '(drops, l) ← list_Cap (Len l - 1) l;
  drop_capped addr drops (upd_pending (<[addr := l]>) p).
(** One round over the offenders *)
Fixpoint cap_round (offenders : list Address) (pending : Z) (p : TxPool) : option (Z * TxPool) :=
  match offenders with
  | [] => Some (pending, p)
  | addr :: offenders' => p ← cap_one addr p; cap_round offenders' (pending - 1) p
  end.
(** Rounds over [offenders] while the pool is too full and the account [last] has more than
    [threshold] transactions; every round drops one transaction at least. *)
Fixpoint cap_rounds (fuel : nat) (offenders : list Address) (last : Address) (threshold pending : Z) (p : TxPool) : option (Z * TxPool) :=
  match fuel with
  | O => Some (pending, p)
  | S fuel' =>
      if pending >? GlobalSlots (config p) then
        l ← TxPool.pending p !! last;
        if Len l >? threshold then
          '(pending, p) ← cap_round offenders pending p;
          cap_rounds fuel' offenders last threshold pending p
        else Some (pending, p)
      else Some (pending, p)
  end.
Definition rounds_fuel (pending : Z) (p : TxPool) : nat := Z.to_nat (pending - GlobalSlots (config p)).

(** Pop an offender, and bring the ones before it down to its length.  The offenders come oldest
    first. *)
Fixpoint equalize (fuel : nat) (spam : list (Prque.item Address)) (offenders : list Address) (pending : Z) (p : TxPool)
    : option (list Address * Z * TxPool) :=
  match fuel with
  | O => Some (offenders, pending, p)
  | S fuel' =>
      if (pending >? GlobalSlots (config p)) && negb (Prque.Empty spam) then
        '(offender, _, spam) ← Prque.Pop spam;
        match last offenders with
        | None => equalize fuel' spam [offender] pending p
        | Some prev =>
            l ← TxPool.pending p !! offender;
            '(pending, p) ← cap_rounds (rounds_fuel pending p) offenders prev (Len l) pending p;
            equalize fuel' spam (offenders ++ [offender]) pending p
        end
      else Some (offenders, pending, p)
  end.
Definition limit_pending (p : TxPool) : option TxPool :=
  let pending := count (pending p) in
  if pending >? GlobalSlots (config p) then
    let spam := spammers p in
    '(offenders, pending, p) ← equalize (length spam) spam [] pending p;
    match last offenders with
    | None => Some p
    | Some prev =>
        '(_, p) ← cap_rounds (rounds_fuel pending p) offenders prev (AccountSlots (config p)) pending p;
        Some p
    end
  else Some p.

(** ** Dropping queued transactions *)

(** Transactions are dropped from the end. *)
Fixpoint drop_last (hashes : list Hash) (drop : Z) (p : TxPool) : option (Z * TxPool) :=
  match hashes with
  | [] => Some (drop, p)
  | h :: hs => if drop >? 0 then p ← removeTx h p; drop_last hs (drop - 1) p else Some (drop, p)
  end.
(** [addresses] comes latest heartbeat first. *)
Fixpoint drop_queued (addresses : list Address) (drop : Z) (p : TxPool) : option TxPool :=
  if drop >? 0 then
    match addresses with
    | [] => None
    | addr :: addresses' =>
        l ← queue p !! addr;
        let '(txs, l) := list_Flatten l in
        let p := upd_queue (<[addr := l]>) p in
        if Len l <=? drop then
          p ← remove_all (map tx_Hash txs) p;
          drop_queued addresses' (drop - Len l) p
        else
          '(drop, p) ← drop_last (reverse (map tx_Hash txs)) drop p;
          drop_queued addresses' drop p
    end
  else Some p.
Definition heartbeat (p : TxPool) (addr : Address) : Z := default zeroTime (beats p !! addr).
Definition limit_queue (queued : Z) (p : TxPool) : option TxPool :=
  if queued >? GlobalQueue (config p) then
    let addresses := sort_by (heartbeat p) (map fst (range (queue p))) in
    drop_queued (reverse addresses) (queued - GlobalQueue (config p)) p
  else Some p.

Definition promoteExecutables (env : Env) (st : State.StateDB) (accounts : option (list Address)) (p : TxPool) : option TxPool :=
  let accounts := default (map fst (range (queue p))) accounts in
  '(p, queued) ← promote_accounts env st accounts 0 p;
  p ← limit_pending p;
  limit_queue queued p.

(** ** Adding transactions *)

(** Making room in a pool that is full; the error is that of a transaction that is not better than any
    in the pool. *)
Definition make_room (tx : Transaction) (p : TxPool) : option ((poolError + unit) * TxPool) :=
  let limit := u64 (GlobalSlots (config p) + GlobalQueue (config p)) in
  if Z.of_nat (size (all p)) >=? limit then
    '(underpriced, l) ← Underpriced (all p) tx (locals p) (priced p);
    let p := set_priced l p in
    if (underpriced : bool) then Some (inl ErrUnderpriced, p)
    else
      '(drop, l) ← Discard (all p) (Z.of_nat (size (all p)) - i64 (u64 (limit - 1))) (locals p) (priced p);
      p ← remove_all (map tx_Hash drop) (set_priced l p);
      Some (inr tt, p)
  else Some (inr tt, p).

(** The boolean says that an older transaction was replaced. *)
Definition add (env : Env) (tx : Transaction) (p : TxPool) : option ((poolError + bool) * TxPool) :=
  let hash := tx_Hash tx in
  match all p !! hash with
  | Some _ => Some (inl errKnown, p)
  | None =>
      match validateTx env tx p with
      | GPanic => None
      | GErr e => Some (inl e, p)
      | GOk _ =>
          '(room, p) ← make_room tx p;
          match room with
          | inl e => Some (inl e, p)
          | inr _ =>
              let from := from_of p tx in
              match pending p !! from with
              | Some l =>
                  if Overlaps tx l then
                    let '(inserted, old, l) := list_Add tx (PriceBump (config p)) l in
                    let p := upd_pending (<[from := l]>) p in
                    if negb inserted then Some (inl ErrReplaceUnderpriced, p)
                    else Some (inr (bool_decide (is_Some old)), remember hash tx (forget_old old p))
                  else Some (enqueueTx hash tx p)
              | None => Some (enqueueTx hash tx p)
              end
          end
      end
  end.
Definition Add (env : Env) (tx : Transaction) (p : TxPool) : option (option poolError * TxPool) :=
  '(r, p) ← add env tx p;
  match r with
  | inl e => Some (Some e, p)
  | inr true => Some (None, p)
  | inr false =>
      match currentState env with
      | None => Some (Some errState, p)
      | Some st => p ← promoteExecutables env st (Some [from_of p tx]) p; Some (None, p)
      end
  end.
(** The accounts that got something new *)
Fixpoint add_batch (env : Env) (txs : list Transaction) (dirty : gset Address) (p : TxPool) : option (gset Address * TxPool) :=
  match txs with
  | [] => Some (dirty, p)
  | tx :: txs' =>
      '(r, p) ← add env tx p;
      add_batch env txs' (match r with inr false => dirty ∪ {[from_of p tx]} | _ => dirty end) p
  end.
Definition set_order (m : gset Address) : list Address := map fst (range (gset_to_gmap tt m)).
Definition AddBatch (env : Env) (txs : list Transaction) (p : TxPool) : option (option poolError * TxPool) :=
  '(dirty, p) ← add_batch env txs ∅ p;
  if bool_decide (dirty = ∅) then Some (None, p)
  else match currentState env with
       | None => Some (Some errState, p)
       | Some st => p ← promoteExecutables env st (Some (set_order dirty)) p; Some (None, p)
       end.

(** ** Following the chain *)

Definition demote_account (env : Env) (st : State.StateDB) (addr : Address) (p : TxPool) : option TxPool :=
  l ← pending p !! addr;
  '(old, l) ← list_Forward (state_GetNonce addr st) l;
  let p := forget_all old (upd_pending (<[addr := l]>) p) in
  let '(drops, invalids, l) := list_Filter (state_GetBalance addr st) (gasLimit env) l in
  let p := forget_all drops (upd_pending (<[addr := l]>) p) in
  let p := enqueue_all invalids p in
  Some (if Empty l then upd_beats (delete addr) (upd_pending (delete addr) p) else p).
Fixpoint demote_accounts (env : Env) (st : State.StateDB) (accounts : list Address) (p : TxPool) : option TxPool :=
  match accounts with [] => Some p | addr :: accounts' => p ← demote_account env st addr p; demote_accounts env st accounts' p end.
Definition demoteUnexecutables (env : Env) (st : State.StateDB) (p : TxPool) : option TxPool :=
  demote_accounts env st (map fst (range (pending p))) p.

Definition update_nonce (addr : Address) (p : TxPool) : option TxPool :=
  l ← pending p !! addr;
  let '(txs, l) := list_Flatten l in
  tx ← last txs;
  ms ← pendingState p;
  Some (set_managed (Some (ms_SetNonce addr (u64 (AccountNonce tx + 1)) ms)) (upd_pending (<[addr := l]>) p)).
Fixpoint update_nonces (accounts : list Address) (p : TxPool) : option TxPool :=
  match accounts with [] => Some p | addr :: accounts' => p ← update_nonce addr p; update_nonces accounts' p end.
Definition resetState (env : Env) (p : TxPool) : option TxPool :=
  match currentState env with
  | None => Some p
  | Some st =>
      ms ← ManageState st;
      p ← demoteUnexecutables env st (set_managed (Some ms) p);
      p ← update_nonces (map fst (range (pending p))) p;
      promoteExecutables env st None p
  end.
Definition NewTxPool (conf : TxPoolConfig) (chainconfig : ChainConfig) (env : Env) : option TxPool :=
  let conf := sanitize conf in
  resetState env (mkPool conf (NewEIP155Signer (Params.ChainId chainconfig)) None (PriceLimit conf) newTxSet ∅ ∅ ∅ ∅ newTxPricedList false).

(** The two events of [eventLoop] *)
Definition on_ChainHead (chainconfig : ChainConfig) (env : Env) (number : option Z) (p : TxPool) : option TxPool :=
  let p := match number with
           | Some n => if IsHomestead chainconfig n then set_homestead true p else p
           | None => p
           end in
  resetState env p.
Definition on_RemovedTransactions (env : Env) (txs : list Transaction) (p : TxPool) : option TxPool :=
  r ← AddBatch env txs p; Some r.2.

(** ** The other operations *)

Definition SetGasPrice (price : Z) (p : TxPool) : option TxPool :=
  let p := set_gasPrice price p in
  '(drop, l) ← TxPriced.Cap (all p) price (locals p) (priced p);
  remove_all (map tx_Hash drop) (set_priced l p).
Definition SetLocal (env : Env) (tx : Transaction) (p : TxPool) : TxPool := set_locals (TxPriced.add (tx_Hash tx) (now env) (locals p)) p.
Definition stats (p : TxPool) : Z * Z := (count (pending p), count (queue p)).
Definition flatten_all (m : gmap Address txList) : gmap Address (list Transaction) * gmap Address txList :=
  ((fun l => (list_Flatten l).1) <$> m, (fun l => (list_Flatten l).2) <$> m).
Definition Content (p : TxPool) : gmap Address (list Transaction) * gmap Address (list Transaction) * TxPool :=
  let '(pend, m) := flatten_all (pending p) in
  let '(queued, m') := flatten_all (queue p) in
  (pend, queued, upd_queue (fun _ => m') (upd_pending (fun _ => m) p)).
Definition Pending (p : TxPool) : gmap Address (list Transaction) * TxPool :=
  let '(pend, m) := flatten_all (pending p) in (pend, upd_pending (fun _ => m) p).
Definition pool_Get (hash : Hash) (p : TxPool) : option Transaction := all p !! hash.
Definition pool_Remove (hash : Hash) (p : TxPool) : option TxPool := removeTx hash p.
Definition RemoveBatch (txs : list Transaction) (p : TxPool) : option TxPool := remove_all (map tx_Hash txs) p.

(** [time.Since] saturates at the width of a duration. *)
Definition Since (env : Env) (t : Z) : Z := Z.max (- 2 ^ 63) (Z.min (2 ^ 63 - 1) (now env - t)).
(** A tick of [expirationLoop] *)
Fixpoint expire_accounts (env : Env) (accounts : list Address) (p : TxPool) : option TxPool :=
  match accounts with
  | [] => Some p
  | addr :: accounts' =>
      p ← (if Since env (heartbeat p addr) >? Lifetime (config p) then
             l ← queue p !! addr;
             let '(txs, l) := list_Flatten l in
             remove_all (map tx_Hash txs) (upd_queue (<[addr := l]>) p)
           else Some p);
      expire_accounts env accounts' p
  end.
Definition expire_tick (env : Env) (p : TxPool) : option TxPool := expire_accounts env (map fst (range (queue p))) p.
End pool.
End TxPool.
