(* ===== verification/TxPoolInv.v ===== *)
(** * The transaction pool: its invariant

    Every transaction of a pending or queued list is known to the pool under its hash and sits with its
    sender, and no nonce of an account is both pending and queued.  Every operation keeps this and
    never panics. *)

From stdpp Require Import sorting.
From S2P Require Import Prelude GoMath Params World State Transition Heap Types Transactions TxList TxListFacts TxListThms TxPriced TxPricedThms Prque ManagedState TxPool.

Module TxPoolInv.
Import Types Transactions TxList TxListFacts TxListThms TxPriced ManagedState TxPool.

(** A transaction in the list of an account *)
Definition has (m : gmap Address txList) (a : Address) (tx : Transaction) : Prop := exists l, m !! a = Some l /\ tx ∈ lview l.

Lemma has_insert m a l b tx : has (<[a := l]> m) b tx <-> a = b /\ tx ∈ lview l \/ a <> b /\ has m b tx.
Proof.
  unfold has. split.
  - intros (l' & [[-> ->]|[Hne E]]%lookup_insert_Some & Hin); [by left|right; eauto].
  - intros [[-> Hin]|[Hne (l' & E & Hin)]]; [exists l; by rewrite lookup_insert_eq|exists l'; by rewrite lookup_insert_ne].
Qed.
Lemma has_delete m a b tx : has (delete a m) b tx <-> a <> b /\ has m b tx.
Proof.
  unfold has. split; [intros (l & [Hne E]%lookup_delete_Some & Hin); eauto|].
  intros [Hne (l & E & Hin)]. exists l. by rewrite lookup_delete_ne.
Qed.
Lemma has_at m a l tx : m !! a = Some l -> has m a tx <-> tx ∈ lview l.
Proof. intros E. unfold has. rewrite E. split; [intros (l' & [= <-] & ?); done|eauto]. Qed.
Lemma has_none m a tx : m !! a = None -> ~ has m a tx.
Proof. intros E (l & E' & _). congruence. Qed.
Lemma has_default m a tx b : has m a tx <-> tx ∈ lview (default (newTxList b) (m !! a)).
Proof.
  destruct (m !! a) as [l|] eqn:E; cbn; [by apply has_at|]. split; [by intros ?%has_none|]. intros Hin. exfalso.
  unfold lview, view, by_nonce in Hin. cbn in Hin. rewrite map_to_list_empty in Hin. by apply elem_of_nil in Hin.
Qed.

Section inv.
Context `{CP : CryptoPrims} `{GO : GoOrder} {GOK : GoOrderOK}.
Implicit Types p : TxPool.

Definition listed p (a : Address) (tx : Transaction) : Prop := has (pending p) a tx \/ has (queue p) a tx.

Record inv p : Prop := {
  i_pending : forall a l, pending p !! a = Some l -> lwf l /\ strict l = true;
  i_queue : forall a l, queue p !! a = Some l -> lwf l /\ strict l = false;
  i_all : forall a tx, listed p a tx -> all p !! tx_Hash tx = Some tx /\ from_of p tx = a;
  i_disjoint : forall a tx tx', has (pending p) a tx -> has (queue p) a tx' -> AccountNonce tx <> AccountNonce tx';
  i_hash : forall h tx, all p !! h = Some tx -> tx_Hash tx = h /\ in_u64 (AccountNonce tx);
  i_heap : Heap.heap_ok Price (pitems (priced p));
  i_managed : exists ms, pendingState p = Some ms /\ ms_wf ms;
}.

(** What an operation leaves alone; it may make the pool forget transactions. *)
Record sub p p' : Prop := {
  sb_config : config p' = config p;
  sb_signer : signer p' = signer p;
  sb_locals : locals p' = locals p;
  sb_all : all p' ⊆ all p;
}.
Lemma sub_refl p : sub p p.
Proof. by split. Qed.
Lemma sub_trans p1 p2 p3 : sub p1 p2 -> sub p2 p3 -> sub p1 p3.
Proof. intros [? ? ? ?] [? ? ? ?]. split; [congruence..|by etrans]. Qed.
Lemma from_of_sub p p' tx : signer p' = signer p -> from_of p' tx = from_of p tx.
Proof. intros E. unfold from_of. by rewrite E. Qed.

(** ** Lists that shrink *)

Lemma inv_shrink p p' : inv p -> signer p' = signer p -> all p' = all p -> priced p' = priced p -> pendingState p' = pendingState p ->
  (forall a l, pending p' !! a = Some l -> lwf l /\ strict l = true) -> (forall a l, queue p' !! a = Some l -> lwf l /\ strict l = false) ->
  (forall a tx, has (pending p') a tx -> has (pending p) a tx) -> (forall a tx, has (queue p') a tx -> has (queue p) a tx) -> inv p'.
Proof.
  intros [I1 I2 I3 I4 I5 I6 I7] Es Ea Ep Em HP HQ SP SQ. split; rewrite ?Ea, ?Ep, ?Em; try done.
  - intros a tx Hl. rewrite (from_of_sub p) by done. apply I3. destruct Hl; [left; by apply SP|right; by apply SQ].
  - intros a tx tx' H1 H2. apply (I4 a); auto.
Qed.
Lemma inv_queue_set p a l l' : inv p -> queue p !! a = Some l -> lwf l' -> strict l' = false -> (forall tx, tx ∈ lview l' -> tx ∈ lview l) ->
  inv (upd_queue (<[a := l']>) p).
Proof.
  intros I E L S Hs. apply (inv_shrink p); [done..|apply I| |done|]; cbn [queue upd_queue].
  - intros b x [[_ <-]|[_ Eb]]%lookup_insert_Some; [done|by eapply I].
  - intros b tx [[<- Hin]|[_ Hh]]%has_insert; [|done]. exists l. auto.
Qed.
Lemma inv_pending_set p a l l' : inv p -> pending p !! a = Some l -> lwf l' -> strict l' = true -> (forall tx, tx ∈ lview l' -> tx ∈ lview l) ->
  inv (upd_pending (<[a := l']>) p).
Proof.
  intros I E L S Hs. apply (inv_shrink p); [done..| |apply I| |done]; cbn [pending upd_pending].
  - intros b x [[_ <-]|[_ Eb]]%lookup_insert_Some; [done|by eapply I].
  - intros b tx [[<- Hin]|[_ Hh]]%has_insert; [|done]. exists l. auto.
Qed.
Lemma inv_queue_delete p a : inv p -> inv (upd_queue (delete a) p).
Proof.
  intros I. apply (inv_shrink p); [done..|apply I| |done|]; cbn [queue upd_queue]; [|by intros b tx [_ ?]%has_delete].
  intros b x [_ Eb]%lookup_delete_Some. by eapply I.
Qed.
Lemma inv_pending_delete p a : inv p -> inv (upd_pending (delete a) p).
Proof.
  intros I. apply (inv_shrink p); [done..| |apply I| |done]; cbn [pending upd_pending]; [|by intros b tx [_ ?]%has_delete].
  intros b x [_ Eb]%lookup_delete_Some. by eapply I.
Qed.
Lemma inv_beats p f : inv p -> inv (upd_beats f p).
Proof. intros [I1 I2 I3 I4 I5 I6 I7]. by split. Qed.
Lemma inv_managed p ms : inv p -> ms_wf ms -> inv (set_managed (Some ms) p).
Proof. intros [I1 I2 I3 I4 I5 I6 I7] W. split; try done. by exists ms. Qed.
Lemma inv_priced p l : inv p -> Heap.heap_ok Price (pitems l) -> inv (set_priced l p).
Proof. intros [I1 I2 I3 I4 I5 I6 I7] W. by split. Qed.

(** ** Forgetting *)

(** No list holds a transaction with this hash. *)
Definition absent p (h : Hash) : Prop := forall a tx, listed p a tx -> tx_Hash tx <> h.

Lemma Removed_heap (m : gmap Hash Transaction) l : Heap.heap_ok Price (pitems l) -> Heap.heap_ok Price (pitems (Removed m l)).
Proof.
  intros Hh. unfold Removed. destruct (_ <=? _); [done|]. cbn. apply (Heap.Init_ok price_less _ TxPricedThms.price_less_key).
Qed.
Lemma forget_inv p h : inv p -> absent p h -> inv (forget h p).
Proof.
  intros [I1 I2 I3 I4 I5 I6 I7] A. split; try done.
  - intros a tx Hl. destruct (I3 a tx Hl) as [E F]. split; [|done]. cbn. rewrite lookup_delete_ne; [done|]. intros Eh. by apply (A a tx Hl).
  - intros h' tx. cbn. intros [_ E]%lookup_delete_Some. by apply I5.
  - by apply Removed_heap.
Qed.
Lemma forget_sub p h : sub p (forget h p).
Proof. split; try done. apply delete_subseteq. Qed.
Lemma forget_all_inv p txs : inv p -> (forall tx, tx ∈ txs -> absent p (tx_Hash tx)) ->
  inv (forget_all txs p) /\ sub p (forget_all txs p) /\ pending (forget_all txs p) = pending p /\ queue (forget_all txs p) = queue p /\
  beats (forget_all txs p) = beats p /\ pendingState (forget_all txs p) = pendingState p /\
  (forall h, (forall tx, tx ∈ txs -> tx_Hash tx <> h) -> all (forget_all txs p) !! h = all p !! h).
Proof.
  unfold forget_all. revert p. induction txs as [|tx txs IH]; intros p I A; cbn [fold_left]; [split_and!; try done; apply sub_refl|].
  destruct (IH (forget (tx_Hash tx) p)) as (I' & S & E1 & E2 & E3 & E4 & E5); [apply forget_inv; [done|]; apply A; by left|intros tx' Hin; apply A; by right|].
  split_and!; try done; [eapply sub_trans; [apply forget_sub|done]|]. intros h Hh. rewrite E5 by (intros; apply Hh; by right). cbn.
  apply lookup_delete_ne. apply Hh. by left.
Qed.

(** Two listed transactions with one hash are one transaction. *)
Lemma listed_hash p a b tx tx' : inv p -> listed p a tx -> listed p b tx' -> tx_Hash tx = tx_Hash tx' -> tx = tx' /\ a = b.
Proof. intros I H1 H2 E. destruct (i_all _ I _ _ H1) as [E1 F1], (i_all _ I _ _ H2) as [E2 F2]. rewrite E, E2 in E1. injection E1 as ->. split; congruence. Qed.
Lemma has_nonce m a l tx tx' : m !! a = Some l -> lwf l -> has m a tx -> has m a tx' -> AccountNonce tx = AccountNonce tx' -> tx = tx'.
Proof. intros E L H1 H2 En. apply (has_at _ _ l) in H1, H2; [|done..]. apply lview_elem in H1, H2; [|done..]. rewrite En in H1. congruence. Qed.
Lemma pending_nonce p a tx tx' : inv p -> has (pending p) a tx -> has (pending p) a tx' -> AccountNonce tx = AccountNonce tx' -> tx = tx'.
Proof. intros I H1 H2 E. pose proof H1 as (l & El & _). apply (has_nonce (pending p) a l); try done. apply (i_pending _ I a l El). Qed.
Lemma queue_nonce p a tx tx' : inv p -> has (queue p) a tx -> has (queue p) a tx' -> AccountNonce tx = AccountNonce tx' -> tx = tx'.
Proof. intros I H1 H2 E. pose proof H1 as (l & El & _). apply (has_nonce (queue p) a l); try done. apply (i_queue _ I a l El). Qed.
(** A transaction's nonce names it among all the lists of its account. *)
Lemma listed_nonce p a tx tx' : inv p -> listed p a tx -> listed p a tx' -> AccountNonce tx = AccountNonce tx' -> tx = tx'.
Proof.
  intros I [H1|H1] [H2|H2] E; [by eapply pending_nonce| | |by eapply queue_nonce].
  - by destruct (i_disjoint _ I _ _ _ H1 H2).
  - by destruct (i_disjoint _ I _ _ _ H2 H1).
Qed.

(** A transaction of the pool that has just left its list: it may be forgotten, queued or promoted. *)
Record loose p (a : Address) (tx : Transaction) : Prop := {
  ls_all : all p !! tx_Hash tx = Some tx;
  ls_from : from_of p tx = a;
  ls_free : forall tx', listed p a tx' -> AccountNonce tx' <> AccountNonce tx;
}.
Lemma loose_absent p a tx : inv p -> loose p a tx -> absent p (tx_Hash tx).
Proof.
  intros I [L1 L2 L3] b tx' Hl E. destruct (i_all _ I _ _ Hl) as [E1 F1]. rewrite E, L1 in E1. injection E1 as <-. subst b.
  rewrite L2 in Hl. by apply (L3 tx).
Qed.
(** Leaving a list *)
Lemma loose_left p p' a tx : inv p -> listed p a tx -> signer p' = signer p -> all p' !! tx_Hash tx = all p !! tx_Hash tx ->
  (forall tx', listed p' a tx' -> listed p a tx' /\ tx' <> tx) -> loose p' a tx.
Proof.
  intros I Hl Hs Ha Hsub. destruct (i_all _ I _ _ Hl) as [E F]. split; [by rewrite Ha|by rewrite (from_of_sub p)|].
  intros tx' Hl'. apply Hsub in Hl' as [Hl' Hne]. intros En. apply Hne. by eapply listed_nonce.
Qed.

(** ** A transaction that enters a list *)

Lemma elem_put_nonce tx v x : x ∈ put_nonce tx v <-> x = tx \/ x ∈ v /\ AccountNonce x <> AccountNonce tx.
Proof.
  unfold put_nonce. rewrite elem_of_app, elem_of_cons, !list_elem_of_filter.
  destruct (Z.lt_trichotomy (AccountNonce x) (AccountNonce tx)) as [?|[?|?]]; naive_solver lia.
Qed.
Lemma Get_has m a l n tx : m !! a = Some l -> lwf l -> Get n (txs l) = Some tx <-> has m a tx /\ AccountNonce tx = n.
Proof.
  intros E L. rewrite (has_at _ _ _ _ E), lview_elem by done. split; [|by intros [? <-]]. intros G.
  assert (AccountNonce tx = n) as <-; [|done]. by apply (wf_keyed _ (lwf_map _ L)).
Qed.
(** The two lists of an account after a transaction has entered one of them; [old] is what it replaced. *)
Lemma list_Add_has m a tx bump b : (forall l, m !! a = Some l -> lwf l /\ strict l = b) -> in_u64 (AccountNonce tx) ->
  exists inserted old l, list_Add tx bump (default (newTxList b) (m !! a)) = (inserted, old, l) /\ lwf l /\ strict l = b /\
    (forall o, old = Some o -> inserted = true /\ has m a o /\ AccountNonce o = AccountNonce tx) /\
    (if (inserted : bool) then (forall c x, has (<[a := l]> m) c x <-> c = a /\ x = tx \/ has m c x /\ (c = a -> AccountNonce x <> AccountNonce tx)) /\
                               (old = None -> forall x, has m a x -> AccountNonce x <> AccountNonce tx)
     else exists o, has m a o /\ AccountNonce o = AccountNonce tx /\ forall c x, has (<[a := l]> m) c x <-> has m c x).
Proof.
  intros Hm Hn. set (l0 := default _ _). assert (lwf l0 /\ strict l0 = b) as [L S].
  { unfold l0. destruct (m !! a) as [l|]; [by apply Hm|]. split; [apply lwf_new|done]. }
  assert (forall x, has m a x <-> x ∈ lview l0) as Hh by (intros; apply has_default).
  assert (forall o, Get (AccountNonce tx) (txs l0) = Some o -> has m a o /\ AccountNonce o = AccountNonce tx) as Hg.
  { intros o G. rewrite Hh, lview_elem by done. assert (AccountNonce o = AccountNonce tx) as -> by (by apply (wf_keyed _ (lwf_map _ L))). done. }
  destruct (list_Add_ok tx bump l0 L Hn) as [(old & G & _ & ->)|(l' & -> & L' & S' & V & _)].
  - exists false, None, l0. split_and!; try done. exists old. apply Hg in G as [? ?]. split_and!; try done. intros c x. rewrite has_insert, <- Hh.
    destruct (decide (a = c)) as [<-|]; naive_solver.
  - exists true, (Get (AccountNonce tx) (txs l0)), l'. split_and!; try done; [by rewrite S'|intros o Ho; split; [done|by apply Hg]| |].
    + intros c x. rewrite has_insert, V, elem_put_nonce, <- Hh. destruct (decide (a = c)) as [<-|]; naive_solver.
    + intros Hno x Hx En. apply Hh, lview_elem in Hx; [|done]. rewrite En in Hx. congruence.
Qed.

Lemma remember_heap p h tx : Heap.heap_ok Price (pitems (priced p)) -> Heap.heap_ok Price (pitems (priced (remember h tx p))).
Proof. intros Hh. cbn. apply (Heap.Push_ok price_less _ TxPricedThms.price_less_key tx _ Hh). Qed.
Lemma forget_old_heap p old : Heap.heap_ok Price (pitems (priced p)) -> Heap.heap_ok Price (pitems (priced (forget_old old p))).
Proof. intros Hh. destruct old; [|done]. by apply Removed_heap. Qed.

(** The pool after [tx] has entered the list of [a] and [old] has left it: everything the lists hold is
    known. *)
Lemma known_after p a tx old (m : gmap Hash Transaction) : inv p -> from_of p tx = a -> absent p (tx_Hash tx) ->
  (forall o, old = Some o -> listed p a o /\ AccountNonce o = AccountNonce tx) ->
  m = <[tx_Hash tx := tx]> (match old with Some o => delete (tx_Hash o) (all p) | None => all p end) ->
  (m !! tx_Hash tx = Some tx) /\
  (forall c x, listed p c x -> (c = a -> AccountNonce x <> AccountNonce tx) -> m !! tx_Hash x = Some x) /\
  (in_u64 (AccountNonce tx) -> forall h x, m !! h = Some x -> tx_Hash x = h /\ in_u64 (AccountNonce x)) /\
  m ⊆ <[tx_Hash tx := tx]> (all p).
Proof.
  intros I F A Ho ->. split_and!.
  - apply lookup_insert_eq.
  - intros c x Hl Hne. rewrite lookup_insert_ne by (intros E; by apply (A c x Hl)). destruct (i_all _ I _ _ Hl) as [E _].
    destruct old as [o|]; [|done]. rewrite lookup_delete_ne; [done|]. intros Eh. destruct (Ho o eq_refl) as [Hlo En].
    destruct (listed_hash p a c o x I Hlo Hl Eh) as [-> ->]. by apply Hne.
  - intros Hn h x [[<- <-]|[_ E]]%lookup_insert_Some; [done|]. destruct old; [apply lookup_delete_Some in E as [_ E]|]; by apply (i_hash _ I).
  - apply insert_mono. destruct old; [apply delete_subseteq|done].
Qed.

Record moved p p' : Prop := { mv_config : config p' = config p; mv_signer : signer p' = signer p; mv_locals : locals p' = locals p }.

Lemma insert_known (m : gmap Hash Transaction) h tx : (forall y, m !! h = Some y -> y = tx) -> m ⊆ <[h := tx]> m.
Proof.
  intros Hy. destruct (m !! h) as [y|] eqn:E; [rewrite insert_id; [done|]; rewrite E; f_equal; by apply Hy|by apply insert_subseteq].
Qed.
Lemma enqueueTx_inv p tx : inv p -> absent p (tx_Hash tx) -> in_u64 (AccountNonce tx) -> (forall y, all p !! tx_Hash tx = Some y -> y = tx) ->
  (forall x, has (pending p) (from_of p tx) x -> AccountNonce x <> AccountNonce tx) ->
  exists r p', enqueueTx (tx_Hash tx) tx p = (r, p') /\ inv p' /\ moved p p' /\ pending p' = pending p /\ pendingState p' = pendingState p /\
    all p' ⊆ <[tx_Hash tx := tx]> (all p) /\
    (match r with
     | inr _ => forall c x, has (queue p') c x <-> c = from_of p tx /\ x = tx \/ has (queue p) c x /\ (c = from_of p tx -> AccountNonce x <> AccountNonce tx)
     | inl _ => exists o, has (queue p) (from_of p tx) o /\ AccountNonce o = AccountNonce tx
     end) /\
    ((forall x, has (queue p) (from_of p tx) x -> AccountNonce x <> AccountNonce tx) -> r = inr false /\ all p' = <[tx_Hash tx := tx]> (all p)).
Proof.
  intros I A Hn Hk Hp. pose proof I as [I1 I2 I3 I4 I5 I6 I7]. unfold enqueueTx. set (a := from_of p tx).
  destruct (list_Add_has (queue p) a tx (PriceBump (config p)) false) as (ins & old & l & -> & L & S & Ho & Hi); [intros l El; by apply (I2 a)|done|].
  destruct ins; cbn [negb].
  2: { destruct Hi as (o & Hao & En & Hi). do 2 eexists. split; [done|]. split_and!; try done; [| |by exists o|by intros Hno; destruct (Hno o)].
    - apply (inv_shrink p); try done; [|intros c x; cbn; by rewrite Hi]. cbn. intros c x [[_ <-]|[_ E]]%lookup_insert_Some; [done|by apply (I2 c)].
    - by apply insert_known. }
  destruct Hi as [Hi Hnone]. set (p' := remember _ _ _).
  assert (forall o, old = Some o -> listed p a o /\ AccountNonce o = AccountNonce tx) as Ho' by (intros o E; destruct (Ho o E) as (_ & ? & ?); split; [by right|done]).
  destruct (known_after p a tx old (all p') I eq_refl A Ho') as (K1 & K2 & K3 & K4); [by destruct old|].
  assert (pending p' = pending p /\ queue p' = <[a := l]> (queue p) /\ moved p p' /\ pendingState p' = pendingState p) as (E1 & E2 & E4 & E5)
    by (destruct old; by split_and!).
  exists (inr (bool_decide (is_Some old))), p'. split; [done|]. split.
  - split; rewrite ?E1, ?E2, ?E5; try done.
    + intros c x [[_ <-]|[_ E]]%lookup_insert_Some; [done|by apply (I2 c)].
    + intros c x Hl. rewrite (from_of_sub p) by apply E4. unfold listed in Hl. rewrite E1, E2, Hi in Hl. destruct Hl as [Hl|[[-> ->]|[Hl Hne]]].
      * split; [|by apply I3; left]. apply (K2 c); [by left|]. intros ->. by apply Hp.
      * done.
      * split; [|by apply I3; right]. apply (K2 c); [by right|done].
    + intros c x x' H1 H2. apply Hi in H2 as [[-> ->]|[H2 _]]; [by apply Hp|by apply (I4 c)].
    + by apply K3.
    + apply remember_heap, forget_old_heap. done.
  - split_and!; try done; [by rewrite E2|]. intros Hno. assert (old = None) as ->; [|done]. destruct old as [o|]; [|done].
    destruct (Ho o eq_refl) as (_ & Hh & En). by destruct (Hno o Hh).
Qed.

(** No account has an empty pending list. *)
Definition no_empty p : Prop := forall a l, pending p !! a = Some l -> lview l <> [].

(** ** Loose transactions that are queued or promoted *)

Lemma loose_enqueue p a tx : inv p -> loose p a tx ->
  exists p', enqueueTx (tx_Hash tx) tx p = (inr false, p') /\ inv p' /\ sub p p' /\ pending p' = pending p /\ pendingState p' = pendingState p /\ all p' = all p /\
    forall c x, has (queue p') c x <-> c = a /\ x = tx \/ has (queue p) c x.
Proof.
  intros I L. pose proof L as [L1 L2 L3]. destruct (enqueueTx_inv p tx) as (r & p' & E & I' & M & E1 & E2 & _ & Hq & Hr).
  - done.
  - by eapply loose_absent.
  - by apply (i_hash _ I) in L1 as [_ ?].
  - intros y Hy. congruence.
  - intros x Hx. apply L3. rewrite L2 in Hx. by left.
  - destruct Hr as [-> Ea]; [intros x Hx; apply L3; rewrite L2 in Hx; by right|]. rewrite insert_id in Ea by done. destruct M as [M1 M2 M3].
    exists p'. split_and!; try done; [split; try done; by rewrite Ea|]. intros c x. rewrite Hq, L2. split; [tauto|]. intros [?|Hh]; [by left|right].
    split; [done|]. intros ->. apply L3. by right.
Qed.
(** A loose transaction stays loose while another one of the account enters a list. *)
Lemma loose_other p p' a tx x : signer p' = signer p -> all p' = all p -> (forall y, listed p' a y -> listed p a y \/ y = tx) ->
  AccountNonce x <> AccountNonce tx -> loose p a x -> loose p' a x.
Proof.
  intros Es Ea Hl Hne [L1 L2 L3]. split; [by rewrite Ea|by rewrite (from_of_sub p)|]. intros y [Hy| ->]%Hl; [by apply L3|done].
Qed.
Lemma enqueue_all_inv p a txs : inv p -> NoDup (map AccountNonce txs) -> Forall (loose p a) txs ->
  inv (enqueue_all txs p) /\ sub p (enqueue_all txs p) /\ pending (enqueue_all txs p) = pending p /\ pendingState (enqueue_all txs p) = pendingState p /\
  all (enqueue_all txs p) = all p /\ forall c x, has (queue (enqueue_all txs p)) c x <-> c = a /\ x ∈ txs \/ has (queue p) c x.
Proof.
  unfold enqueue_all. revert p. induction txs as [|tx txs IH]; intros p I N F; cbn [fold_left].
  { split_and!; try done; []; intros c x. split; [by right|]. intros [[_ Hx]|Hx]; [by apply elem_of_nil in Hx|done]. }
  cbn in N. apply NoDup_cons in N as [Hni N]. apply Forall_cons in F as [L F].
  destruct (loose_enqueue p a tx I L) as (p1 & E & I1 & S1 & P1 & M1 & A1 & Q1). rewrite E. cbn [snd].
  destruct (IH p1 I1 N) as (I2 & S2 & P2 & M2 & A2 & Q2).
  { rewrite Forall_forall in *. intros x Hx. apply (loose_other p p1 a tx); [apply S1|done| | |by apply F].
    - intros y [Hy|Hy]; [rewrite P1 in Hy; left; by left|]. apply Q1 in Hy as [[_ ->]|Hy]; [by right|left; by right].
    - intros En. apply Hni. rewrite <- En. by apply list_elem_of_fmap_2. }
  split_and!; try done; [by eapply sub_trans|congruence|congruence|congruence|].
  intros c x. rewrite Q2, Q1, elem_of_cons. tauto.
Qed.

Lemma loose_promote env p a tx : inv p -> loose p a tx ->
  exists p', promoteTx env a (tx_Hash tx) tx p = Some p' /\ inv p' /\ sub p p' /\ queue p' = queue p /\ all p' = all p /\
    (forall c x, has (pending p') c x <-> c = a /\ x = tx \/ has (pending p) c x) /\ (no_empty p -> no_empty p').
Proof.
  intros I L. pose proof L as [L1 L2 L3]. pose proof I as [I1 I2 I3 I4 I5 I6 (ms & Em & W)]. apply I5 in L1 as Hn. destruct Hn as [_ Hn]. unfold promoteTx.
  destruct (list_Add_has (pending p) a tx (PriceBump (config p)) true) as (ins & old & l & -> & Lw & S & Ho & Hi); [intros l El; by apply (I1 a)|done|].
  destruct ins; cbn [negb]; [|destruct Hi as (o & Hao & En & _); destruct (L3 o); [by left|done]].
  destruct Hi as [Hi _]. assert (old = None) as ->.
  { destruct old as [o|]; [|done]. destruct (Ho o eq_refl) as (_ & Hh & En). destruct (L3 o); [by left|done]. }
  cbn [forget_old all upd_pending]. rewrite L1. cbn [pendingState upd_beats upd_pending]. rewrite Em. cbn [mbind option_bind]. eexists. split; [done|].
  assert (forall c x, has (<[a := l]> (pending p)) c x <-> c = a /\ x = tx \/ has (pending p) c x) as Hh.
  { intros c x. rewrite Hi. split; [tauto|]. intros [?|Hx]; [by left|right]. split; [done|]. intros ->. apply L3. by left. }
  split; [split; cbn; try done|split; [split; try done|split_and!; try done]].
  - intros c x [[_ <-]|[_ E]]%lookup_insert_Some; [done|by apply (I1 c)].
  - intros c x [Hl|Hl]; [|by apply I3; right]. cbn in Hl. apply Hh in Hl as [[-> ->]|Hl]; [done|by apply I3; left].
  - intros c x x' H1 H2. apply Hh in H1 as [[-> ->]|H1]; [|by apply (I4 c)]. intros E. apply (L3 x'); [by right|done].
  - eexists. split; [done|]. apply ms_SetNonce_ok; [done|]. unfold in_u64, u64. apply Z.mod_pos_bound. lia.
  - intros Hne c k. cbn. intros [[<- <-]|[_ E]]%lookup_insert_Some; [|by apply (Hne c)]. intros E.
    assert (has (<[a := l]> (pending p)) a tx) as Hx by (apply Hh; by left). apply (has_at _ _ l) in Hx; [|by rewrite lookup_insert_eq]. rewrite E in Hx. by apply elem_of_nil in Hx.
Qed.
Lemma promote_all_inv env p a txs : inv p -> NoDup (map AccountNonce txs) -> Forall (loose p a) txs ->
  exists p', promote_all env a txs p = Some p' /\ inv p' /\ sub p p' /\ queue p' = queue p /\ all p' = all p /\
    (forall c x, has (pending p') c x <-> c = a /\ x ∈ txs \/ has (pending p) c x) /\ (no_empty p -> no_empty p').
Proof.
  revert p. induction txs as [|tx txs IH]; intros p I N F; cbn [promote_all].
  { exists p. split_and!; try done; []; intros c x. split; [by right|]. intros [[_ Hx]|Hx]; [by apply elem_of_nil in Hx|done]. }
  cbn in N. apply NoDup_cons in N as [Hni N]. apply Forall_cons in F as [L F].
  destruct (loose_promote env p a tx I L) as (p1 & -> & I1 & S1 & Q1 & A1 & P1 & N1). cbn [mbind option_bind].
  destruct (IH p1 I1 N) as (p2 & -> & I2 & S2 & Q2 & A2 & P2 & N2).
  { rewrite Forall_forall in *. intros x Hx. apply (loose_other p p1 a tx); [apply S1|done| | |by apply F].
    - intros y [Hy|Hy]; [|rewrite Q1 in Hy; left; by right]. apply P1 in Hy as [[_ ->]|Hy]; [by right|left; by left].
    - intros En. apply Hni. rewrite <- En. by apply list_elem_of_fmap_2. }
  exists p2. split_and!; try done; [by eapply sub_trans|congruence|congruence| |by auto]. intros c x. rewrite P2, P1, elem_of_cons. tauto.
Qed.

(** ** Removing a transaction *)

Lemma Empty_lview l : Empty l = true <-> lview l = [].
Proof. unfold Empty, Len. rewrite <- length_view. fold (lview l). rewrite Z.eqb_eq. destruct (lview l); cbn; [done|]. split; [lia|done]. Qed.
Lemma lower_nonce_inv p a n : inv p -> in_u64 n ->
  exists p', lower_nonce a n p = Some p' /\ inv p' /\ sub p p' /\ pending p' = pending p /\ queue p' = queue p /\ all p' = all p.
Proof.
  intros I Hn. destruct (i_managed _ I) as (ms & Em & W). unfold lower_nonce. rewrite Em. cbn [mbind option_bind].
  pose proof (ms_GetNonce_ok a ms W) as (_ & W' & _). destruct (ms_GetNonce a ms) as [k ms']. cbn [snd] in W'.
  eexists. split; [done|]. split_and!; try done. apply inv_managed; [done|]. destruct (k >? n); [by apply ms_SetNonce_ok|done].
Qed.

(** What is left of an account without a nonce *)
Definition without (m m' : gmap Address txList) (a : Address) (n : Z) : Prop :=
  (forall c x, has m' c x <-> has m c x /\ (c = a -> AccountNonce x <> n)) /\ forall c, c <> a -> m' !! c = m !! c.

Lemma absent_without p p' h tx a : inv p -> all p !! h = Some tx -> a = from_of p tx ->
  (forall c x, listed p' c x -> listed p c x) -> (forall x, listed p' a x -> AccountNonce x <> AccountNonce tx) -> absent p' h.
Proof.
  intros I Ea -> Hs Hn c x Hl Eh. apply Hs in Hl as Hl0. destruct (i_all _ I _ _ Hl0) as [E F]. rewrite Eh, Ea in E. injection E as <-. subst c. by apply (Hn tx).
Qed.
Lemma remove_queued_inv p h tx a : inv p -> all p !! h = Some tx -> a = from_of p tx ->
  (forall x, has (pending p) a x -> AccountNonce x <> AccountNonce tx) ->
  exists p', remove_queued a tx (forget h p) = Some p' /\ inv p' /\ sub p p' /\ pending p' = pending p /\ without (queue p) (queue p') a (AccountNonce tx).
Proof.
  intros I Ea Hf Hp. unfold remove_queued. change (queue (forget h p)) with (queue p). destruct (queue p !! a) as [l|] eqn:El.
  - destruct (i_queue _ I _ _ El) as [L S]. destruct (list_Remove_ok tx l L) as (inv0 & l' & -> & L' & S' & V). rewrite S in V. cbn [andb] in V. destruct V as [_ V].
    cbn [mbind option_bind fst snd]. change (upd_queue <[a := l']> (forget h p)) with (forget h (upd_queue <[a := l']> p)).
    set (p1 := upd_queue <[a := l']> p). assert (inv p1) as I1 by (apply (inv_queue_set p a l); [done..|by rewrite S'|]; rewrite V; by intros x [_ ?]%list_elem_of_filter).
    assert (without (queue p) (queue p1) a (AccountNonce tx)) as W.
    { split; [|intros c Hc; cbn; by rewrite lookup_insert_ne]. intros c x. cbn. rewrite has_insert, V, list_elem_of_filter, <- (has_at _ _ _ _ El).
      destruct (decide (a = c)) as [<-|]; naive_solver. }
    assert (inv (forget h p1)) as I2.
    { apply forget_inv; [done|]. apply (absent_without p p1 h tx a); try done.
      - intros c x [Hx|Hx]; [by left|right]. by apply W in Hx as [? _].
      - intros x [Hx|Hx]; [by apply Hp|]. apply W in Hx as [_ Hx]. by apply Hx. }
    eexists. split; [done|]. destruct (Empty l') eqn:Em; [|split_and!; try done; split; try done; apply delete_subseteq].
    apply Empty_lview in Em. split_and!; [by apply inv_queue_delete|split; try done; apply delete_subseteq|done|]. destruct W as [W1 W2]. split.
    + intros c x. rewrite <- W1. cbn. rewrite has_delete, !has_insert, Em. split; [intros [? [[? _]|[_ ?]]]; [done|by right]|].
      intros [[_ Hx]|[? ?]]; [by apply elem_of_nil in Hx|by auto].
    + intros c Hc. rewrite <- W2 by done. cbn. by rewrite lookup_delete_ne.
  - exists (forget h p). split; [done|]. assert (forall x, ~ has (queue p) a x) as Hq by (intros x; by apply has_none).
    split_and!; [|apply forget_sub|done|split; [|done]; intros c x; split; [|by intros [? _]]; intros Hx; split; [done|]; intros ->; by apply Hq in Hx].
    apply forget_inv; [done|]. apply (absent_without p p h tx a); try done. intros x [Hx|Hx]; [by apply Hp|by apply Hq in Hx].
Qed.

Lemma remove_pending p a l l' invalids h tx tx' : inv p -> all p !! h = Some tx -> a = from_of p tx -> pending p !! a = Some l ->
  has (pending p) a tx' -> AccountNonce tx' = AccountNonce tx -> lwf l' -> strict l' = strict l ->
  invalids ≡ₚ filter (fun x => AccountNonce tx < AccountNonce x) (lview l) -> lview l' = filter (fun x => AccountNonce x < AccountNonce tx) (lview l) ->
  let p1 := forget h (upd_pending <[a := l']> p) in
  let p2 := if Empty l' then upd_beats (delete a) (upd_pending (delete a) p1) else enqueue_all invalids p1 in
  exists p', lower_nonce a (AccountNonce tx) p2 = Some p' /\ inv p' /\ sub p p' /\ (forall c x, listed p' c x -> listed p c x) /\
    ((forall b k, pending p !! b = Some k -> lview k <> []) -> forall b k, pending p' !! b = Some k -> lview k <> []).
Proof.
  intros I Ea Hf El Htx' En L' S' Vi Vl p1 p2. destruct (i_pending _ I _ _ El) as [L S]. apply (i_hash _ I) in Ea as Hn. destruct Hn as [_ Hn].
  assert (inv (upd_pending <[a := l']> p)) as I0 by (apply (inv_pending_set p a l); [done..|by rewrite S'|]; rewrite Vl; by intros x [_ ?]%list_elem_of_filter).
  assert (forall x, has (pending p1) a x <-> AccountNonce x < AccountNonce tx /\ x ∈ lview l) as Hp1.
  { intros x. rewrite (has_at _ _ l'), Vl, list_elem_of_filter by (cbn; by rewrite lookup_insert_eq). done. }
  assert (forall c x, listed p1 c x -> listed p c x) as Hs1.
  { intros c x [Hx|Hx]; [|by right]. left. cbn in Hx. apply has_insert in Hx as [[<- Hx]|[_ Hx]]; [|done]. apply (has_at _ _ _ _ El).
    rewrite Vl in Hx. by apply list_elem_of_filter in Hx as [_ ?]. }
  assert (inv p1) as I1.
  { apply forget_inv; [done|]. apply (absent_without p _ h tx a); try done. intros x [Hx|Hx]; [apply Hp1 in Hx as [? _]; lia|].
    rewrite <- En. intros E. by apply (i_disjoint _ I a tx' x). }
  assert (sub p p1) as S1 by (split; try done; apply delete_subseteq).
  assert (exists q, p2 = q /\ inv q /\ sub p1 q /\ (forall c x, listed q c x -> listed p c x) /\
    ((forall b k, pending p !! b = Some k -> lview k <> []) -> forall b k, pending q !! b = Some k -> lview k <> [])) as (q & -> & I2 & S2 & Hs2 & Hne2).
  { eexists. split; [reflexivity|]. unfold p2. destruct (Empty l') eqn:Em.
    - split_and!; [by apply inv_beats, inv_pending_delete|done| |].
      + intros c x [Hx|Hx]; [|by apply Hs1; right]. cbn in Hx. apply has_delete in Hx as [_ Hx]. apply Hs1. by left.
      + intros Hne b k. cbn. intros [Hb [[? _]|[_ E]]%lookup_insert_Some]%lookup_delete_Some; [done|by apply (Hne b)].
    - destruct (enqueue_all_inv p1 a invalids I1) as (I2 & S2 & P2 & _ & _ & Q2).
      + rewrite Vi. apply strictly_NoDup, strictly_filter, view_strict, L.
      + apply Forall_forall. intros x Hx. rewrite Vi in Hx. apply list_elem_of_filter in Hx as [Hlt Hx].
        assert (listed p a x) as Hlx by (left; by apply (has_at _ _ _ _ El)). destruct (i_all _ I _ _ Hlx) as [Ex Fx]. split; [|done|].
        * cbn. rewrite lookup_delete_ne; [done|]. intros Eh. rewrite <- Eh, Ea in Ex. injection Ex as ->. lia.
        * intros y [Hy|Hy]; [apply Hp1 in Hy as [? _]; lia|]. intros E. apply (i_disjoint _ I a x y); [by apply (has_at _ _ _ _ El)|done|done].
      + split_and!; try done.
        * intros c x [Hx|Hx]; [rewrite P2 in Hx; apply Hs1; by left|]. apply Q2 in Hx as [[-> Hx]|Hx]; [|by right].
          left. apply (has_at _ _ _ _ El). rewrite Vi in Hx. by apply list_elem_of_filter in Hx as [_ ?].
        * intros Hne b k. rewrite P2. cbn. intros [[_ <-]|[_ E]]%lookup_insert_Some; [|by apply (Hne b)]. intros E. apply Empty_lview in E. congruence. }
  destruct (lower_nonce_inv q a (AccountNonce tx) I2 Hn) as (p' & E & I' & S3 & P3 & Q3 & _). exists p'. split; [done|]. split; [done|].
  split; [exact (sub_trans _ _ _ S1 (sub_trans _ _ _ S2 S3))|]. split; [|by rewrite P3]. intros c x. unfold listed. rewrite P3, Q3. apply Hs2.
Qed.
Lemma removeTx_inv p h : inv p ->
  exists p', removeTx h p = Some p' /\ inv p' /\ sub p p' /\ (forall c x, listed p' c x -> listed p c x) /\
    ((forall a l, pending p !! a = Some l -> lview l <> []) -> forall a l, pending p' !! a = Some l -> lview l <> []) /\
    forall tx, all p !! h = Some tx -> (forall x, has (pending p) (from_of p tx) x -> AccountNonce x <> AccountNonce tx) ->
      (forall c x, has (pending p') c x <-> has (pending p) c x) /\ without (queue p) (queue p') (from_of p tx) (AccountNonce tx).
Proof.
  intros I. unfold removeTx. destruct (all p !! h) as [tx|] eqn:Ea; [|exists p; split_and!; done].
  set (a := from_of p tx). change (pending (forget h p)) with (pending p). apply (i_hash _ I) in Ea as Hn. destruct Hn as [_ Hn].
  destruct (pending p !! a) as [l|] eqn:El.
  2: { destruct (remove_queued_inv p h tx a) as (p' & -> & I' & S' & P' & W); try done; [intros x Hx; by apply has_none in Hx|].
    exists p'. split_and!; try done; rewrite ?P'; try done; [|by intros tx' [= <-]]. intros c x [Hx|Hx]; [rewrite P' in Hx; by left|right]. by apply W in Hx as [? _]. }
  destruct (i_pending _ I _ _ El) as [L S]. destruct (list_Remove_ok tx l L) as (invalids & l' & -> & L' & S' & V). rewrite S in V. cbn [andb mbind option_bind] in *.
  change (upd_pending <[a := l']> (forget h p)) with (forget h (upd_pending <[a := l']> p)). set (p1 := upd_pending <[a := l']> p).
  assert (forall x, x ∈ lview l' -> x ∈ lview l) as Hsub.
  { intros x. destruct (bool_decide _); destruct V as [_ ->]; by intros [_ ?]%list_elem_of_filter. }
  assert (inv p1) as I1 by (apply (inv_pending_set p a l); [done..|by rewrite S'|done]).
  assert (forall c x, listed p1 c x -> listed p c x) as Hs1.
  { intros c x [Hx|Hx]; [|by right]. cbn in Hx. apply has_insert in Hx as [[<- Hx]|[_ Hx]]; left; [apply (has_at _ _ _ _ El); by apply Hsub|done]. }
  assert (forall c x, c <> a -> pending p1 !! c = pending p !! c) as Hother by (intros c x Hc; cbn; by rewrite lookup_insert_ne).
  case_bool_decide as Hin.
  - destruct V as [Vi Vl]. destruct Hin as [tx' Hg]. apply (Get_has (pending p) a) in Hg as [Htx' En]; [|done..].
    destruct (remove_pending p a l l' invalids h tx tx') as (p' & E & I' & S0 & Hl & Hne); try done. exists p'. split_and!; try done.
    intros t [= <-] Hno. by destruct (Hno tx').
  - assert (forall c x, has (pending p1) c x <-> has (pending p) c x) as Hsame.
    { intros c x. cbn. rewrite has_insert. destruct V as [_ ->]. rewrite list_elem_of_filter, <- (has_at _ _ _ _ El). destruct (decide (a = c)) as [<-|]; [|naive_solver].
      split; [naive_solver|]. intros Hx. left. split_and!; try done. intros En. apply Hin. exists x. by apply (Get_has (pending p) a). }
    destruct (remove_queued_inv p1 h tx a) as (p' & -> & I' & [S1 S2 S3 S4] & P' & W); try done.
    { intros x Hx En. apply Hin. exists x. apply (Get_has (pending p) a); [done..|]. by rewrite <- Hsame. }
    exists p'. split_and!; try done.
    + intros c x Hl. apply Hs1. destruct Hl as [Hx|Hx]; [rewrite P' in Hx; by left|right]. by apply W in Hx as [? _].
    + intros Hne b k. rewrite P'. cbn. intros [[<- <-]|[_ Hb]]%lookup_insert_Some; [|by apply (Hne b)].
      specialize (Hne _ _ El). destruct (lview l) as [|x v] eqn:Ev; [done|]. intros E0. assert (has (pending p1) a x) as Hx
        by (apply Hsame, (has_at _ _ _ _ El); rewrite Ev; by left). apply (has_at _ _ l') in Hx; [|cbn; by rewrite lookup_insert_eq]. rewrite E0 in Hx. by apply elem_of_nil in Hx.
    + intros t [= <-] _. split; [by rewrite P'|done].
Qed.

Lemma remove_all_inv p hs : inv p -> exists p', remove_all hs p = Some p' /\ inv p' /\ sub p p' /\
  (forall c x, listed p' c x -> listed p c x) /\ (no_empty p -> no_empty p').
Proof.
  revert p. induction hs as [|h hs IH]; intros p I; cbn [remove_all]; [exists p; split_and!; done|].
  destruct (removeTx_inv p h I) as (p1 & -> & I1 & S1 & L1 & N1 & _). cbn [mbind option_bind].
  destruct (IH p1 I1) as (p2 & -> & I2 & S2 & L2 & N2). exists p2. split_and!; try done; [by eapply sub_trans| |].
  - intros c x Hx. by apply L1, L2.
  - intros Hn. exact (N2 (N1 Hn)).
Qed.

(** ** Promotion *)

(** A queued list that shrinks, and the transactions that left it *)
Lemma queue_shrinks p a l l' : inv p -> queue p !! a = Some l -> lwf l' -> strict l' = false -> (forall x, x ∈ lview l' -> x ∈ lview l) ->
  inv (upd_queue <[a := l']> p) /\ forall x, x ∈ lview l -> x ∉ lview l' -> loose (upd_queue <[a := l']> p) a x.
Proof.
  intros I E L S Hs. split; [by apply (inv_queue_set p a l)|]. intros x Hx Hx'. apply (loose_left p); [done|right; by apply (has_at _ _ _ _ E)|done|done|].
  intros y [Hy|Hy].
  - split; [by left|]. intros ->. apply (i_disjoint _ I a x x); [done|by apply (has_at _ _ _ _ E)|done].
  - cbn in Hy. apply has_insert in Hy as [[_ Hy]|[? _]]; [|done]. split; [right; apply (has_at _ _ _ _ E); by apply Hs|]. by intros ->.
Qed.
Lemma pending_shrinks p a l l' : inv p -> pending p !! a = Some l -> lwf l' -> strict l' = true -> (forall x, x ∈ lview l' -> x ∈ lview l) ->
  inv (upd_pending <[a := l']> p) /\ forall x, x ∈ lview l -> x ∉ lview l' -> loose (upd_pending <[a := l']> p) a x.
Proof.
  intros I E L S Hs. split; [by apply (inv_pending_set p a l)|]. intros x Hx Hx'. apply (loose_left p); [done|left; by apply (has_at _ _ _ _ E)|done|done|].
  intros y [Hy|Hy].
  - cbn in Hy. apply has_insert in Hy as [[_ Hy]|[? _]]; [|done]. split; [left; apply (has_at _ _ _ _ E); by apply Hs|]. by intros ->.
  - split; [by right|]. intros ->. apply (i_disjoint _ I a x x); [by apply (has_at _ _ _ _ E)|done|done].
Qed.
Lemma queue_drops p a l l' drops : inv p -> queue p !! a = Some l -> lwf l' -> strict l' = false -> (forall x, x ∈ lview l' -> x ∈ lview l) ->
  (forall x, x ∈ drops -> x ∈ lview l /\ x ∉ lview l') ->
  let p' := forget_all drops (upd_queue <[a := l']> p) in
  inv p' /\ sub p p' /\ pending p' = pending p /\ queue p' = <[a := l']> (queue p) /\ pendingState p' = pendingState p.
Proof.
  intros I E L S Hs Hd p'. destruct (queue_shrinks p a l l' I E L S Hs) as [I1 Lo].
  destruct (forget_all_inv (upd_queue <[a := l']> p) drops I1) as (I2 & [S1 S2 S3 S4] & E1 & E2 & _ & E4 & _); [|by split_and!].
  intros x [Hx Hx']%Hd. eapply loose_absent; [done|]. by apply Lo.
Qed.

Definition qlen p (a : Address) : Z := from_option Len 0 (queue p !! a).
Lemma Len_lview l : Len l = zlen (lview l).
Proof. unfold Len. rewrite <- length_view. done. Qed.
Lemma ready_split n v : ready n v = take (length (ready n v)) v.
Proof.
  assert (forall k w, run k w = take (length (run k w)) w) as R.
  { intros k w. revert k. induction w as [|x w IH]; intros k; cbn; [done|]. destruct (AccountNonce x =? k); cbn; [by f_equal|done]. }
  destruct v as [|x v]; [done|]. unfold ready. destruct (AccountNonce x <=? n); [apply R|done].
Qed.
Lemma strictly_cut k v x : StronglySorted nonce_lt v -> x ∈ take k v -> x ∉ drop k v.
Proof.
  intros S Hx Hx'. rewrite <- (take_drop k v) in S. apply strictly_app in S as (_ & _ & Hc). specialize (Hc x x Hx Hx'). unfold nonce_lt in Hc. lia.
Qed.
Lemma elem_take {A} k (v : list A) x : x ∈ take k v -> x ∈ v.
Proof. intros Hx. rewrite <- (take_drop k v). apply elem_of_app. by left. Qed.
Lemma elem_drop {A} k (v : list A) x : x ∈ drop k v -> x ∈ v.
Proof. intros Hx. rewrite <- (take_drop k v). apply elem_of_app. by right. Qed.

Definition config_ok (c : TxPoolConfig) : Prop :=
  0 <= AccountSlots c /\ 0 <= GlobalSlots c /\ 0 <= GlobalQueue c /\ GlobalSlots c + GlobalQueue c < 2 ^ 63 /\ 0 <= AccountQueue c < 2 ^ 63.

(** The second half: ready transactions move to the pending list, and what is too much is dropped. *)
Lemma promote_ready env p a l n : inv p -> config_ok (config p) -> queue p !! a = Some l ->
  exists p' k,
    ('(txs, l) ← list_Ready n l;
     p ← promote_all env a txs (upd_queue (<[a := l]>) p);
     '(drops, l) ← list_Cap (i64 (AccountQueue (config p))) l;
     let p := forget_all drops (upd_queue (<[a := l]>) p) in
     Some (if Empty l then upd_queue (delete a) p else p, Len l)) = Some (p', k) /\
    inv p' /\ sub p p' /\ k = qlen p' a /\ (forall c, c <> a -> queue p' !! c = queue p !! c) /\ (no_empty p -> no_empty p').
Proof.
  intros I (_ & _ & _ & _ & Hcq) E. destruct (i_queue _ I _ _ E) as [L S].
  destruct (list_Ready_ok n l L) as (l3 & -> & L3 & S3 & V3). cbn [mbind option_bind].
  destruct (queue_shrinks p a l l3) as [I4 Lo]; try done; [by rewrite S3|rewrite V3; intros x; apply elem_drop|].
  pose proof (view_strict _ (lwf_map _ L)) as St. fold (lview l) in St. set (txs := ready n (lview l)) in *.
  assert (txs = take (length txs) (lview l)) as Et by apply ready_split.
  destruct (promote_all_inv env (upd_queue <[a := l3]> p) a txs I4) as (p5 & -> & I5 & B5 & Q5 & A5 & P5 & N5).
  { rewrite Et. apply strictly_NoDup. rewrite <- (take_drop (length txs) (lview l)) in St. by apply strictly_app in St as (? & _). }
  { apply Forall_forall. intros x Hx. rewrite Et in Hx. apply Lo; [by eapply elem_take|]. rewrite V3. by apply strictly_cut. }
  assert (sub p p5) as B0 by (destruct B5; by split). cbn [mbind option_bind]. rewrite (sb_config _ _ B0).
  rewrite i64_small by lia. destruct (list_Cap_ok (AccountQueue (config p)) l3 L3) as (l4 & -> & L4 & S4 & V4); [lia|]. cbn [mbind option_bind].
  assert (queue p5 !! a = Some l3) as E5 by (rewrite Q5; cbn; by rewrite lookup_insert_eq).
  destruct (queue_drops p5 a l3 l4 (reverse (drop (Z.to_nat (AccountQueue (config p))) (lview l3)))) as (I6 & B6 & P6 & Q6 & M6); try done.
  { by rewrite S4, S3. }
  { rewrite V4. intros x. apply elem_take. }
  { intros x Hx. rewrite elem_of_reverse in Hx. split; [exact (elem_drop _ _ _ Hx)|]. rewrite V4. intros Hx'. eapply strictly_cut; [|done|done]. apply view_strict, L3. }
  set (p6 := forget_all _ _) in *. pose proof (sub_trans _ _ _ B0 B6) as B.
  assert (forall c, c <> a -> queue p6 !! c = queue p !! c) as Hother by (intros c Hc; rewrite Q6, lookup_insert_ne, Q5 by done; cbn; by rewrite lookup_insert_ne).
  assert (no_empty p -> no_empty p6) as Hne by (unfold no_empty in *; rewrite P6; exact N5).
  do 2 eexists. split; [done|]. destruct (Empty l4) eqn:Em.
  - split_and!; [by apply inv_queue_delete| |unfold qlen; cbn; rewrite lookup_delete_eq; by apply Z.eqb_eq in Em|intros c Hc; cbn; by rewrite lookup_delete_ne, Hother|done].
    destruct B. by split.
  - split_and!; try done. unfold qlen. by rewrite Q6, lookup_insert_eq.
Qed.
Lemma promote_account_inv env st p a : inv p -> config_ok (config p) ->
  exists p' n, promote_account env st a p = Some (p', n) /\ inv p' /\ sub p p' /\ n = qlen p' a /\ (forall c, c <> a -> queue p' !! c = queue p !! c) /\
    (no_empty p -> no_empty p').
Proof.
  intros I Hcfg. unfold promote_account. destruct (queue p !! a) as [l|] eqn:El; [|exists p, 0; unfold qlen; rewrite El; by split_and!].
  destruct (i_queue _ I _ _ El) as [L S].
  destruct (list_Forward_ok (state_GetNonce a st) l L) as (l1 & -> & L1 & S1 & V1). cbn [mbind option_bind].
  destruct (queue_drops p a l l1 (filter (fun tx => AccountNonce tx < state_GetNonce a st) (lview l))) as (I1 & B1 & P1 & Q1 & M1); try done; [by rewrite S1| | |].
  { rewrite V1. by intros x [_ ?]%list_elem_of_filter. }
  { intros x [Hlt Hx]%list_elem_of_filter. split; [done|]. rewrite V1. by intros [? _]%list_elem_of_filter. }
  set (p1 := forget_all _ _) in *.
  destruct (list_Filter_ok (state_GetBalance a st) (gasLimit env) l1 L1) as (drops & inval & l2 & -> & L2 & S2 & Hd & V2 & _). rewrite S1, S in V2.
  destruct (queue_drops p1 a l1 l2 drops) as (I2 & B2 & P2 & Q2 & M2); try done; [by rewrite Q1, lookup_insert_eq|by rewrite S2, S1|..].
  { rewrite V2. by intros x [_ ?]%list_elem_of_filter. }
  { intros x. rewrite Hd, V2. intros [Hf Hx]%list_elem_of_filter. split; [done|]. intros [Ht _]%list_elem_of_filter. congruence. }
  set (p2 := forget_all drops _) in *. destruct (i_managed _ I2) as (ms & Em & W). rewrite Em. cbn [mbind option_bind].
  pose proof (ms_GetNonce_ok a ms W) as (_ & W' & _). destruct (ms_GetNonce a ms) as [n ms']. cbn [snd] in W'.
  assert (inv (set_managed (Some ms') p2)) as I3 by by apply inv_managed. set (p3 := set_managed _ p2) in *.
  pose proof (sub_trans _ _ _ B1 B2) as B. assert (sub p p3) as B3 by (destruct B; by split).
  destruct (promote_ready env p3 a l2 n I3) as (p' & k & E & I' & B' & Ek & Ho & Hne); [by rewrite (sb_config _ _ B3)|change (queue p3) with (queue p2); by rewrite Q2, lookup_insert_eq|].
  exists p', k. split; [exact E|]. split_and!; try done; [by eapply sub_trans| |].
  - intros c Hc. rewrite Ho by done. change (queue p3) with (queue p2). rewrite Q2, lookup_insert_ne, Q1 by done. by rewrite lookup_insert_ne.
  - intros Hn. apply Hne. unfold no_empty in *. change (pending p3) with (pending p2). rewrite P2, P1. done.
Qed.
End inv.
End TxPoolInv.
