(* ===== verification/TxPoolLimits.v ===== *)
(** * The transaction pool: its limits

    The equalisation of the pending lists when there are too many transactions, and the eviction of queued
    ones: both end, never leave a slice, and reach their limits. *)

From stdpp Require Import sorting.
From S2P Require Import Prelude GoMath Params World State Transition Heap Types Transactions TxList TxListFacts TxListThms TxPriced TxPricedThms Prque ManagedState TxPool TxPoolInv.

Module TxPoolLimits.
Import Types Transactions TxList TxListFacts TxListThms TxPriced ManagedState TxPool TxPoolInv.

(** ** Sums of lengths *)

Definition sumZ (l : list Z) : Z := foldr Z.add 0 l.
Lemma sumZ_app l l' : sumZ (l ++ l') = sumZ l + sumZ l'.
Proof. unfold sumZ. induction l as [|x l IH]; cbn; lia. Qed.
Lemma sumZ_perm l l' : l ≡ₚ l' -> sumZ l = sumZ l'.
Proof. induction 1; unfold sumZ in *; cbn; lia. Qed.
Lemma sumZ_nonneg l : Forall (fun x => 0 <= x) l -> 0 <= sumZ l.
Proof. induction 1; unfold sumZ in *; cbn; lia. Qed.

Section limits.
Context `{CP : CryptoPrims} `{GO : GoOrder} {GOK : GoOrderOK}.
Implicit Types p : TxPool.

Definition lens (m : gmap Address txList) : Z := sumZ (map (fun q => Len q.2) (map_to_list m)).
Lemma count_lens m : count m = lens m.
Proof.
  unfold count, lens. assert (forall l k, fold_left (fun n l => n + Len l) l k = k + sumZ (map Len l)) as F.
  { induction l as [|x l IH]; intros k; cbn [fold_left map]; [unfold sumZ; cbn; lia|]. rewrite IH. unfold sumZ. cbn. lia. }
  rewrite F. cbn. rewrite map_map. by rewrite (sumZ_perm _ _ (Permutation_map _ (range_perm _ m))).
Qed.
Lemma lens_insert m a l l' : m !! a = Some l -> lens (<[a := l']> m) = lens m - Len l + Len l'.
Proof.
  intros E. unfold lens. rewrite <- (insert_delete_eq m a l'). rewrite <- (insert_delete_id m a l E) at 2.
  rewrite !(sumZ_perm _ _ (Permutation_map _ (map_to_list_insert _ _ _ (lookup_delete_eq m a)))). cbn. lia.
Qed.

Definition plen p (a : Address) : Z := from_option Len 0 (pending p !! a).
Lemma Len_nonneg l : 0 <= Len l.
Proof. unfold Len, map_Len. lia. Qed.
Lemma plen_pos p a : 1 <= plen p a -> exists l, pending p !! a = Some l /\ Len l = plen p a.
Proof. unfold plen. destruct (pending p !! a) as [l|]; cbn; [eauto|lia]. Qed.

(** ** Dropping the last transaction of an account *)

Lemma drop_capped_inv p a drops : inv p -> (forall tx, tx ∈ drops -> absent p (tx_Hash tx) /\ in_u64 (AccountNonce tx)) ->
  exists p', drop_capped a drops p = Some p' /\ inv p' /\ sub p p' /\ pending p' = pending p /\ queue p' = queue p.
Proof.
  revert p. induction drops as [|tx drops IH]; intros p I Hd; cbn [drop_capped]; [exists p; by split_and!|].
  destruct (Hd tx ltac:(by left)) as [A Hn]. pose proof (forget_inv p (tx_Hash tx) I A) as I1.
  destruct (lower_nonce_inv _ a (AccountNonce tx) I1 Hn) as (p2 & -> & I2 & S2 & P2 & Q2 & _). cbn [mbind option_bind].
  destruct (IH p2 I2) as (p3 & -> & I3 & S3 & P3 & Q3).
  { intros x Hx. destruct (Hd x ltac:(by right)) as [Ax Hx']. split; [|done]. intros c y. unfold listed. rewrite P2, Q2. apply Ax. }
  exists p3. split_and!; try done; [|by rewrite P3, P2|by rewrite Q3, Q2]. exact (sub_trans _ _ _ (forget_sub p _) (sub_trans _ _ _ S2 S3)).
Qed.
Lemma cap_one_inv p a : inv p -> 1 <= plen p a ->
  exists p' l', cap_one a p = Some p' /\ inv p' /\ sub p p' /\ queue p' = queue p /\ pending p' = <[a := l']> (pending p) /\ Len l' = plen p a - 1.
Proof.
  intros I Hl. destruct (plen_pos p a Hl) as (l & El & Hlen). unfold cap_one. rewrite El. cbn [mbind option_bind].
  destruct (i_pending _ I _ _ El) as [L S]. destruct (list_Cap_ok (Len l - 1) l L) as (l' & -> & L' & S' & V'); [lia|]. cbn [mbind option_bind].
  destruct (pending_shrinks p a l l' I El L') as [I1 Lo]; [by rewrite S'|rewrite V'; intros x; apply elem_take|].
  destruct (drop_capped_inv (upd_pending <[a := l']> p) a (reverse (drop (Z.to_nat (Len l - 1)) (lview l))) I1) as (p2 & -> & I2 & S2 & P2 & Q2).
  { intros x Hx. rewrite elem_of_reverse in Hx. pose proof (elem_drop _ _ _ Hx) as Hxl. split.
    - eapply loose_absent; [done|]. apply Lo; [done|]. rewrite V'. intros Hx'. eapply strictly_cut; [apply (view_strict _ (lwf_map _ L))|done|done].
    - pose proof (wf_u64 _ (lwf_map _ L)) as U. rewrite Forall_forall in U. by apply U. }
  exists p2, l'. split_and!; try done; [destruct S2; by split|]. rewrite !Len_lview, V' in *. unfold zlen in *. rewrite length_take. lia.
Qed.

(** ** Rounds *)

(** Between two pools, the lists of [offenders] have become shorter by [k], the others are as they were. *)
Record cut p p' (offenders : list Address) (k : Z) : Prop := {
  ct_inv : inv p';
  ct_sub : sub p p';
  ct_queue : queue p' = queue p;
  ct_in : forall a, a ∈ offenders -> plen p' a = plen p a - k;
  ct_out : forall a, a ∉ offenders -> pending p' !! a = pending p !! a;
  ct_dom : forall a, is_Some (pending p' !! a) <-> is_Some (pending p !! a);
  ct_lens : lens (pending p') = lens (pending p) - k * zlen offenders;
}.
Lemma cap_round_inv p offenders n : inv p -> NoDup offenders -> (forall a, a ∈ offenders -> 1 <= plen p a) ->
  exists p', cap_round offenders n p = Some (n - zlen offenders, p') /\ cut p p' offenders 1.
Proof.
  revert p n. induction offenders as [|a offenders IH]; intros p n I N Hl; cbn [cap_round].
  { exists p. split; [f_equal; f_equal; unfold zlen; cbn; lia|]. split; try done; [by intros a ?%elem_of_nil|unfold zlen; cbn; lia]. }
  apply NoDup_cons in N as [Ha N]. destruct (cap_one_inv p a I) as (p1 & l' & -> & I1 & S1 & Q1 & P1 & Hlen); [apply Hl; by left|]. cbn [mbind option_bind].
  assert (forall c, c <> a -> pending p1 !! c = pending p !! c) as Ho by (intros c Hc; by rewrite P1, lookup_insert_ne).
  destruct (IH p1 (n - 1) I1 N) as (p2 & -> & [C1 C2 C3 C4 C5 C6 C7]).
  { intros c Hc. unfold plen. rewrite Ho by (by intros ->). apply Hl. by right. }
  destruct (plen_pos p a) as (l & El & Hll); [apply Hl; by left|].
  exists p2. split; [f_equal; f_equal; rewrite zlen_cons; lia|]. split; [done|by eapply sub_trans|congruence|..].
  - intros c [->|Hc]%elem_of_cons; [unfold plen at 1; rewrite C5, P1, lookup_insert_eq by done; done|].
    rewrite C4 by done. unfold plen. rewrite Ho; [done|by intros ->].
  - intros c [Hc1 Hc2]%not_elem_of_cons. rewrite C5, Ho by done. done.
  - intros c. rewrite C6, P1, lookup_insert_is_Some. destruct (decide (a = c)) as [<-|]; [rewrite El; naive_solver|naive_solver].
  - rewrite C7, P1, (lens_insert _ a l l' El), zlen_cons. lia.
Qed.

Lemma cut_refl p offenders : inv p -> cut p p offenders 0.
Proof. intros I. split; try done; [intros; lia|lia]. Qed.
Lemma cut_trans p1 p2 p3 offenders k k' : cut p1 p2 offenders k -> cut p2 p3 offenders k' -> cut p1 p3 offenders (k + k').
Proof.
  intros [C1 C2 C3 C4 C5 C6 C7] [D1 D2 D3 D4 D5 D6 D7]. split; [done|by eapply sub_trans|congruence|..].
  - intros a Ha. rewrite D4, C4 by done. lia.
  - intros a Ha. by rewrite D5, C5.
  - intros a. by rewrite D6, C6.
  - rewrite D7, C7. lia.
Qed.
Lemma cap_rounds_inv fuel p offenders prev thr L : inv p -> NoDup offenders -> prev ∈ offenders -> is_Some (pending p !! prev) ->
  (forall a, a ∈ offenders -> plen p a = L) -> 0 <= thr -> (Z.to_nat (lens (pending p) - GlobalSlots (config p)) <= fuel)%nat ->
  exists p' k, cap_rounds fuel offenders prev thr (lens (pending p)) p = Some (lens (pending p'), p') /\ cut p p' offenders k /\ 0 <= k /\
    (k = 0 \/ thr <= L - k) /\ (lens (pending p') <= GlobalSlots (config p) \/ L - k <= thr).
Proof.
  revert p L. induction fuel as [|fuel IH]; intros p L I N Hprev [l El] HL Ht Hf; cbn [cap_rounds].
  { exists p, 0. split_and!; try done; [by apply cut_refl|by left|left; lia]. }
  rewrite Z.gtb_ltb. destruct (Z.ltb_spec (GlobalSlots (config p)) (lens (pending p))) as [Hgt|Hle].
  2: { exists p, 0. split_and!; try done; [by apply cut_refl|by left|left; lia]. }
  rewrite El. cbn [mbind option_bind]. assert (Len l = L) as -> by (rewrite <- (HL prev Hprev); unfold plen; by rewrite El).
  rewrite Z.gtb_ltb. destruct (Z.ltb_spec thr L) as [HltL|HgeL].
  2: { exists p, 0. split_and!; try done; [by apply cut_refl|by left|right; lia]. }
  destruct (cap_round_inv p offenders (lens (pending p)) I N) as (p1 & -> & C1); [intros a Ha; rewrite HL by done; lia|]. cbn [mbind option_bind].
  pose proof C1 as [D1 D2 D3 D4 D5 D6 D7]. replace (lens (pending p) - zlen offenders) with (lens (pending p1)) by lia.
  assert (0 < zlen offenders) as Hz by (destruct offenders; [by apply elem_of_nil in Hprev|]; rewrite zlen_cons; pose proof (zlen_nonneg offenders); lia).
  destruct (IH p1 (L - 1)) as (p2 & k & -> & C2 & Hk & Hk1 & Hk2); try done.
  - apply D6. by rewrite El.
  - intros a Ha. by rewrite D4, HL.
  - rewrite (sb_config _ _ D2). lia.
  - exists p2, (1 + k). rewrite (sb_config _ _ D2) in Hk2. split_and!; try done; [by eapply cut_trans|lia|right; lia|]. destruct Hk2; [by left|right; lia].
Qed.

(** ** The queue of spammers *)

Notation sheap := (Heap.heap_ok (fun i : Prque.item Address => - Prque.priority i)).
Lemma more_key (x y : Prque.item Address) : Prque.more x y = (- Prque.priority x <? - Prque.priority y).
Proof. unfold Prque.more. rewrite Z.gtb_ltb. destruct (Z.ltb_spec (Prque.priority y) (Prque.priority x)), (Z.ltb_spec (- Prque.priority x) (- Prque.priority y)); lia || done. Qed.

(** An account whose first transaction is not local, and which has more than its share *)
Definition is_spam p (l : txList) : bool :=
  (Len l >? AccountSlots (config p)) && match range (items (txs l)) with (_, tx) :: _ => negb (contains (tx_Hash tx) (locals p)) | [] => false end.
Definition spams p (a : Address) : Prop := exists l, pending p !! a = Some l /\ is_spam p l = true.

Lemma float32_small n : n < 2 ^ 24 -> float32 n = n.
Proof.
  intros Hn. unfold float32. rewrite (proj2 (Z.leb_le _ _)); [done|]. destruct (Z.le_gt_cases n 0); [rewrite Z.log2_nonpos; lia|].
  assert (Z.log2 n < 24) by (apply Z.log2_lt_pow2; lia). lia.
Qed.
Lemma spam_loop p todo q : sheap q ->
  let q' := fold_left (fun q '(addr, l) => if Len l >? AccountSlots (config p) then match range (items (txs l)) with
        | (_, tx) :: _ => if contains (tx_Hash tx) (locals p) then q else Prque.Push addr (float32 (Len l)) q | [] => q end else q) todo q in
  sheap q' /\ q' ≡ₚ map (fun e => Prque.mkItem e.1 (float32 (Len e.2))) (filter (fun e => is_spam p e.2 = true) todo) ++ q.
Proof.
  revert q. induction todo as [|[b l] todo IH]; intros q Hq; cbn [fold_left]; [done|]. rewrite filter_cons. cbn [snd].
  assert ((if Len l >? AccountSlots (config p) then match range (items (txs l)) with
        | (_, tx) :: _ => if contains (tx_Hash tx) (locals p) then q else Prque.Push b (float32 (Len l)) q | [] => q end else q) =
        if is_spam p l then Prque.Push b (float32 (Len l)) q else q) as ->.
  { unfold is_spam. destruct (Len l >? _); [|done]. cbn [andb]. destruct (range (items (txs l))) as [|[n tx] rest]; [done|]. by destruct (contains _ _). }
  destruct (is_spam p l) eqn:Es; case_decide; try done; cbn [map fst snd app]; [|by apply IH].
  destruct (Heap.Push_ok Prque.more _ more_key (Prque.mkItem b (float32 (Len l))) q Hq) as [Hh Hp].
  destruct (IH _ Hh) as [H1 H2]. split; [done|]. unfold Prque.Push in *. rewrite H2, Hp. by rewrite <- Permutation_middle.
Qed.
Lemma spammers_ok p : sheap (spammers p) /\ NoDup (map Prque.value (spammers p)) /\
  (forall i, i ∈ spammers p -> Prque.priority i = float32 (plen p (Prque.value i))) /\ (forall a, a ∈ map Prque.value (spammers p) <-> spams p a).
Proof.
  destruct (spam_loop p (range (pending p)) Prque.New) as [Hh Hp]; [intros m Hm; cbn in Hm; lia|]. fold (spammers p) in Hh, Hp.
  unfold Prque.New in Hp. rewrite app_nil_r in Hp.
  assert (forall a l, (a, l) ∈ range (pending p) <-> pending p !! a = Some l) as Hr by (intros; rewrite range_perm; apply elem_of_map_to_list).
  split_and!; [done| | |].
  - rewrite Hp, map_map. cbn. assert (NoDup (map fst (range (pending p)))) as N by (rewrite range_perm; apply NoDup_fst_map_to_list).
    apply (sublist_NoDup _ _ N). clear.
    induction (range (pending p)) as [|e l IH]; [done|]. rewrite filter_cons. case_decide; cbn; [by apply sublist_skip|by apply sublist_cons].
  - intros i Hi. rewrite Hp in Hi. apply list_elem_of_fmap in Hi as ([a l] & -> & [_ Hi]%list_elem_of_filter). cbn. apply Hr in Hi. unfold plen. by rewrite Hi.
  - intros a. rewrite Hp, map_map. cbn. rewrite list_elem_of_fmap. unfold spams. split.
    + intros ([b l] & -> & [Hs Hi]%list_elem_of_filter). apply Hr in Hi. eauto.
    + intros (l & El & Hs). exists (a, l). split; [done|]. apply list_elem_of_filter. split; [done|by apply Hr].
Qed.

Lemma cut_no_empty p p' offenders k : cut p p' offenders k -> (forall a, a ∈ offenders -> 1 <= plen p' a) -> no_empty p -> no_empty p'.
Proof.
  intros [C1 C2 C3 C4 C5 C6 C7] Hl Hne a l El Ev. destruct (decide (a ∈ offenders)) as [Ha|Ha]; [|rewrite C5 in El by done; by apply (Hne a l)].
  specialize (Hl a Ha). unfold plen in Hl. rewrite El in Hl. cbn in Hl. rewrite Len_lview, Ev in Hl. unfold zlen in Hl. cbn in Hl. lia.
Qed.

(** ** Equalising *)

Definition spam_ok p (spam : list (Prque.item Address)) : Prop :=
  sheap spam /\ forall i, i ∈ spam -> Prque.priority i = plen p (Prque.value i) /\ AccountSlots (config p) < plen p (Prque.value i).
(** The offenders so far are equally long, and at least as long as the spammers that are left. *)
Definition level p (spam : list (Prque.item Address)) (offenders : list Address) : Prop :=
  offenders = [] \/ exists L, AccountSlots (config p) < L /\ (forall a, a ∈ offenders -> plen p a = L) /\ forall i, i ∈ spam -> plen p (Prque.value i) <= L.

Record equalized p p' (spam : list (Prque.item Address)) (offenders offenders' : list Address) : Prop := {
  eq_inv : inv p';
  eq_sub : sub p p';
  eq_queue : queue p' = queue p;
  eq_nodup : NoDup offenders';
  eq_in : forall a, a ∈ offenders' -> a ∈ offenders \/ a ∈ map Prque.value spam;
  eq_out : forall a, a ∉ offenders -> a ∉ map Prque.value spam -> pending p' !! a = pending p !! a;
  eq_dom : forall a, is_Some (pending p' !! a) <-> is_Some (pending p !! a);
  eq_full : no_empty p -> no_empty p';
  eq_lens : lens (pending p') <= lens (pending p);
  eq_level : lens (pending p') <= GlobalSlots (config p) \/
             level p' [] offenders' /\ forall a, a ∈ offenders \/ a ∈ map Prque.value spam -> a ∈ offenders';
}.
Lemma equalized_refl p spam offenders : inv p -> NoDup offenders -> lens (pending p) <= GlobalSlots (config p) \/ (level p [] offenders /\ spam = []) ->
  equalized p p spam offenders offenders.
Proof.
  intros I N Hl. split; try done; [by left|]. destruct Hl as [|[Hl ->]]; [by left|right]. split; [done|]. cbn. intros a [Ha|Ha%elem_of_nil]; done.
Qed.

Lemma pop_spam p x t : spam_ok p (x :: t) -> NoDup (map Prque.value (x :: t)) ->
  exists spam, Prque.Pop (x :: t) = Some (Prque.value x, Prque.priority x, spam) /\ x :: t ≡ₚ x :: spam /\ spam_ok p spam /\ length spam = length t /\
    forall i, i ∈ x :: t -> plen p (Prque.value i) <= plen p (Prque.value x).
Proof.
  intros [Hh Hi] N. unfold Prque.Pop. destruct (Heap.Pop_ok Prque.more _ more_key (x :: t) Hh) as (y & spam & -> & [= <-] & Hp & Hh' & Hmin); [done|].
  exists spam. split; [done|]. split; [done|]. split; [split; [done|]; intros i Hin; apply Hi; rewrite Hp; by right|].
  split; [by apply Permutation_length in Hp as [= ->]|]. intros i Hin. specialize (Hmin i Hin). cbn in Hmin.
  destruct (Hi i Hin) as [<- _], (Hi x ltac:(by left)) as [<- _]. lia.
Qed.
(** The pool after the offenders so far have been brought down to the length of the next one *)
Lemma spam_ok_cut p p' spam offenders k : cut p p' offenders k -> (forall a, a ∈ offenders -> a ∉ map Prque.value spam) -> spam_ok p spam -> spam_ok p' spam.
Proof.
  intros C Hd [Hh Hi]. split; [done|]. intros i Hin. rewrite (sb_config _ _ (ct_sub _ _ _ _ C)). unfold plen.
  rewrite (ct_out _ _ _ _ C); [by apply Hi|]. intros Hx. apply (Hd _ Hx). by apply list_elem_of_fmap_2.
Qed.

(** One step of the loop, and the rest of it *)
Lemma equalized_cut p p1 p2 k x t spam offenders offenders' : inv p -> cut p p1 offenders k -> 0 <= k -> (forall a, a ∈ offenders -> 1 <= plen p1 a) ->
  x :: t ≡ₚ x :: spam -> equalized p1 p2 spam (offenders ++ [Prque.value x]) offenders' -> equalized p p2 (x :: t) offenders offenders'.
Proof.
  intros I C Hk Hl Hp [E1 E2 E3 E4 E5 E6 E7 E8 E9 E10]. pose proof C as [C1 C2 C3 C4 C5 C6 C7].
  assert (forall a, a ∈ map Prque.value (x :: t) <-> a = Prque.value x \/ a ∈ map Prque.value spam) as Hm by (intros a; rewrite Hp; cbn; apply elem_of_cons).
  split; [done|by eapply sub_trans|congruence|done|..].
  - intros a Ha%E5. rewrite Hm. rewrite elem_of_app, list_elem_of_singleton in Ha. tauto.
  - intros a Ha1 Ha2. rewrite Hm in Ha2. rewrite E6; [by apply C5| |tauto]. rewrite elem_of_app, list_elem_of_singleton. tauto.
  - intros a. by rewrite E7, C6.
  - intros Hn. apply E8. by eapply cut_no_empty.
  - pose proof (zlen_nonneg offenders). nia.
  - rewrite (sb_config _ _ C2) in E10. destruct E10 as [|[Hv Ha]]; [by left|right]. split; [done|]. intros a. rewrite Hm. intros Hx. apply Ha.
    rewrite elem_of_app, list_elem_of_singleton. tauto.
Qed.
Lemma equalize_inv fuel p spam offenders : inv p -> config_ok (config p) -> NoDup (offenders ++ map Prque.value spam) -> spam_ok p spam ->
  lens (pending p) <= GlobalSlots (config p) \/ level p spam offenders -> (length spam <= fuel)%nat ->
  exists offenders' p', equalize fuel spam offenders (lens (pending p)) p = Some (offenders', lens (pending p'), p') /\ equalized p p' spam offenders offenders'.
Proof.
  revert p spam offenders. induction fuel as [|fuel IH]; intros p spam offenders I Hc N Hs Hv Hf; cbn [equalize]; apply NoDup_app in N as N'; destruct N' as (N1 & Nd & N2).
  { exists offenders, p. split; [done|]. destruct spam; [|cbn in Hf; lia]. apply equalized_refl; [done..|]. destruct Hv; auto. }
  rewrite Z.gtb_ltb. destruct (Z.ltb_spec (GlobalSlots (config p)) (lens (pending p))) as [Hgt|Hle]; cbn [andb].
  2: { exists offenders, p. split; [done|]. apply equalized_refl; [done..|by left]. }
  destruct Hv as [|Hv]; [lia|]. destruct spam as [|x t]; cbn [Prque.Empty length Nat.eqb negb].
  { exists offenders, p. split; [done|]. apply equalized_refl; [done..|by right]. }
  destruct (pop_spam p x t Hs N2) as (spam & -> & Hp & Hs' & Hl & Hmax). cbn [mbind option_bind].
  assert (map Prque.value (x :: t) ≡ₚ Prque.value x :: map Prque.value spam) as Hpm by (rewrite Hp; done).
  destruct (proj2 Hs x ltac:(by left)) as [_ Hx]. pose proof Hc as (Hc1 & Hc2 & _). assert (length spam <= fuel)%nat as Hf' by (rewrite Hl; cbn in Hf; lia).
  assert (NoDup ((offenders ++ [Prque.value x]) ++ map Prque.value spam)) as N3 by (rewrite <- app_assoc; cbn [app]; by rewrite <- Hpm).
  destruct (last offenders) as [prev|] eqn:El.
  - apply last_Some_elem_of in El. destruct Hv as [->|(L & HL & Heq & Hle)]; [by apply elem_of_nil in El|].
    destruct (plen_pos p (Prque.value x)) as (l & Epx & Hlx); [lia|]. rewrite Epx. cbn [mbind option_bind]. rewrite Hlx.
    destruct (plen_pos p prev) as (lp & Epp & _); [rewrite Heq by done; lia|].
    destruct (cap_rounds_inv (rounds_fuel (lens (pending p)) p) p offenders prev (plen p (Prque.value x)) L) as (p1 & k & -> & C & Hk & Hk1 & Hk2); try done; try lia; [done..|].
    cbn [mbind option_bind]. pose proof C as [C1 C2 C3 C4 C5 C6 C7]. pose proof (Hle x ltac:(by left)) as HxL.
    assert (Prque.value x ∉ offenders) as Hxo by (intros Ho; apply (Nd _ Ho); rewrite Hpm; by left).
    assert (forall a, a ∈ offenders -> a ∉ map Prque.value spam) as Hdj by (intros a Ha Ha'; apply (Nd _ Ha); rewrite Hpm; by right).
    destruct (IH p1 spam (offenders ++ [Prque.value x])) as (offs' & p2 & -> & E2); try done; [by rewrite (sb_config _ _ C2)|by eapply spam_ok_cut| |].
    + rewrite (sb_config _ _ C2). destruct Hk2 as [|Hk2]; [by left|right]. right. exists (plen p (Prque.value x)). rewrite (sb_config _ _ C2). split_and!; [done|..].
      * intros a. rewrite elem_of_app, list_elem_of_singleton. intros [Ha|Ha]; [rewrite C4, Heq by done; lia|]. subst a. unfold plen. by rewrite C5.
      * intros i Hi. unfold plen at 1. rewrite C5; [apply Hmax; rewrite Hp; by right|]. intros Ho. apply (Hdj _ Ho). by apply list_elem_of_fmap_2.
    + exists offs', p2. split; [done|]. eapply equalized_cut; try done. intros a Ha. rewrite C4, Heq by done. lia.
  - apply last_None in El as ->. destruct (IH p spam [Prque.value x]) as (offs' & p2 & -> & E2); try done.
    + right. right. exists (plen p (Prque.value x)). split_and!; [done|intros a Ha%list_elem_of_singleton; by subst a|]. intros i Hi. apply Hmax. rewrite Hp. by right.
    + exists offs', p2. split; [done|]. apply (equalized_cut p p p2 0 x t spam [] offs'); try done; [by apply cut_refl|by intros a ?%elem_of_nil].
Qed.

(** What the pending lists look like in the end: there are few enough, or every account with more than its
    share was passed over because its first transaction is local. *)
Definition limited p p' : Prop :=
  lens (pending p') <= GlobalSlots (config p) \/
  forall a l, pending p' !! a = Some l -> AccountSlots (config p) < Len l -> pending p !! a = Some l /\ is_spam p l = false.

Lemma final_rounds p p1 offenders : equalized p p1 (spammers p) [] offenders -> config_ok (config p) ->
  (forall a, a ∈ map Prque.value (spammers p) <-> spams p a) ->
  exists p', match last offenders with
    | None => Some p1
    | Some prev => '(_, p) ← cap_rounds (rounds_fuel (lens (pending p1)) p1) offenders prev (AccountSlots (config p1)) (lens (pending p1)) p1; Some p
    end = Some p' /\ inv p' /\ sub p p' /\ queue p' = queue p /\ limited p p' /\ (1 <= AccountSlots (config p) -> no_empty p -> no_empty p').
Proof.
  intros [E1 E2 E3 E4 E5 E6 E7 E8 E9 E10] (Hc1 & Hc2 & _) Hsp. pose proof (sb_config _ _ E2) as Ec.
  assert (forall q, (forall a, a ∉ map Prque.value (spammers p) -> pending q !! a = pending p !! a) ->
    (forall a, a ∈ offenders -> plen q a <= AccountSlots (config p)) -> (forall a, a ∈ map Prque.value (spammers p) -> a ∈ offenders) -> limited p q) as Hlim.
  { intros q Hq Ho Ha. right. intros a l El Hlt. assert (a ∉ map Prque.value (spammers p)) as Hna.
    { intros Hin%Ha%Ho. unfold plen in Hin. rewrite El in Hin. cbn in Hin. lia. }
    rewrite Hq in El by done. split; [done|]. apply not_true_iff_false. intros Hs. apply Hna, Hsp. by exists l. }
  destruct (last offenders) as [prev|] eqn:El.
  - apply last_Some_elem_of in El. destruct E10 as [Hle|[Hv Ha]].
    { unfold rounds_fuel. rewrite Ec, Z2Nat.nonpos by lia. cbn. exists p1. split_and!; try done; first [by left|by auto]. }
    destruct Hv as [->|(L & HL & Heq & _)]; [by apply elem_of_nil in El|]. rewrite Ec in *.
    destruct (plen_pos p1 prev) as (lp & Ep & _); [rewrite Heq by done; lia|].
    destruct (cap_rounds_inv (rounds_fuel (lens (pending p1)) p1) p1 offenders prev (AccountSlots (config p)) L) as (p2 & k & -> & C & Hk & Hk1 & Hk2); try done.
    cbn [mbind option_bind]. pose proof C as [C1 C2 C3 C4 C5 C6 C7]. exists p2. split_and!; try done; [by eapply sub_trans|congruence| |].
    + destruct Hk2 as [Hk2|Hk2]; [left; by rewrite <- Ec|]. apply Hlim.
      * intros a Hna. rewrite C5; [apply E6; [|done]; by apply not_elem_of_nil|]. intros [Hx|Hx]%E5; [by apply elem_of_nil in Hx|done].
      * intros a Hin. rewrite C4, Heq by done. lia.
      * intros a Hin. apply Ha. by right.
    + intros H1 Hn. eapply cut_no_empty; [done| |by apply E8]. intros a Hin. rewrite C4, Heq by done. lia.
  - apply last_None in El as ->. exists p1. split_and!; try done; try by auto. destruct E10 as [|[_ Ha]]; [by left|].
    apply Hlim; [intros a Hna; apply E6; [by apply not_elem_of_nil|done]|by intros a ?%elem_of_nil|]. intros a Hin. apply Ha. by right.
Qed.
Lemma limit_pending_inv p : inv p -> config_ok (config p) -> (forall a l, pending p !! a = Some l -> Len l < 2 ^ 24) ->
  exists p', limit_pending p = Some p' /\ inv p' /\ sub p p' /\ queue p' = queue p /\ limited p p' /\ (1 <= AccountSlots (config p) -> no_empty p -> no_empty p').
Proof.
  intros I Hc Hb. unfold limit_pending. rewrite count_lens, Z.gtb_ltb.
  destruct (Z.ltb_spec (GlobalSlots (config p)) (lens (pending p))) as [Hgt|Hle]; [|exists p; split_and!; try done; by left].
  destruct (spammers_ok p) as (Hh & N & Hi & Hs).
  assert (spam_ok p (spammers p)) as Hok.
  { split; [done|]. intros i Hin. rewrite Hi by done. assert (Prque.value i ∈ map Prque.value (spammers p)) as Hm by (by apply list_elem_of_fmap_2).
    apply Hs in Hm as (l & El & Hsp). unfold plen. rewrite El. cbn. rewrite float32_small by (by eapply Hb). split; [done|]. unfold is_spam in Hsp.
    apply andb_prop in Hsp as [Hsp _]. by apply Z.gtb_lt in Hsp. }
  destruct (equalize_inv (length (spammers p)) p (spammers p) []) as (offs & p1 & -> & E); try done; [by right; left|].
  cbn [mbind option_bind]. by apply final_rounds.
Qed.

(** ** Removing queued transactions *)

Definition qview p (a : Address) : list Transaction := from_option lview [] (queue p !! a).
Lemma qview_has p a x : has (queue p) a x <-> x ∈ qview p a.
Proof. unfold qview. destruct (queue p !! a) as [l|] eqn:E; cbn; [by apply has_at|]. split; [by intros ?%has_none|by intros ?%elem_of_nil]. Qed.
Lemma qview_strict p a : inv p -> StronglySorted nonce_lt (qview p a).
Proof. intros I. unfold qview. destruct (queue p !! a) as [l|] eqn:E; cbn; [|constructor]. apply view_strict. by apply (i_queue _ I a l E). Qed.
Lemma qlen_qview p a : qlen p a = zlen (qview p a).
Proof. unfold qlen, qview. destruct (queue p !! a); cbn; [apply Len_lview|done]. Qed.
Lemma lens_change (m m' : gmap Address txList) a : (forall c, c <> a -> m' !! c = m !! c) ->
  lens m' = lens m - from_option Len 0 (m !! a) + from_option Len 0 (m' !! a).
Proof.
  intros Ho. assert (forall q : gmap Address txList, lens q = lens (delete a q) + from_option Len 0 (q !! a)) as F.
  { intros q. destruct (q !! a) as [l|] eqn:E; cbn; [|rewrite delete_id by done; lia]. unfold lens. rewrite <- (insert_delete_id q a l E) at 1.
    rewrite (sumZ_perm _ _ (Permutation_map _ (map_to_list_insert _ _ _ (lookup_delete_eq q a)))). unfold sumZ. cbn. lia. }
  rewrite (F m), (F m'). assert (delete a m' = delete a m) as ->; [|lia]. apply map_eq. intros c.
  destruct (decide (c = a)) as [->|Hc]; [by rewrite !lookup_delete_eq|]. by rewrite !lookup_delete_ne, Ho.
Qed.

Record unqueued p p' (a : Address) (gone : list Transaction) : Prop := {
  uq_inv : inv p';
  uq_sub : sub p p';
  uq_full : no_empty p -> no_empty p';
  uq_pending : forall c x, has (pending p') c x <-> has (pending p) c x;
  uq_other : forall c, c <> a -> queue p' !! c = queue p !! c;
  uq_view : forall x, x ∈ qview p' a <-> x ∈ qview p a /\ x ∉ gone;
}.
Lemma remove_listed p a txs : inv p -> NoDup txs -> (forall x, x ∈ txs -> x ∈ qview p a) ->
  exists p', remove_all (map tx_Hash txs) p = Some p' /\ unqueued p p' a txs.
Proof.
  revert p. induction txs as [|tx txs IH]; intros p I N Hin; cbn [map remove_all].
  { exists p. split; [done|]. split; try done. intros x. rewrite elem_of_nil. tauto. }
  apply NoDup_cons in N as [Hni N]. assert (has (queue p) a tx) as Htx by (apply qview_has, Hin; by left).
  destruct (i_all _ I a tx ltac:(by right)) as [Ea Ef].
  destruct (removeTx_inv p (tx_Hash tx) I) as (p1 & -> & I1 & S1 & _ & F1 & Hw). cbn [mbind option_bind].
  destruct (Hw tx Ea) as [Hp [Hq Ho]]; rewrite Ef in *; [intros x Hx En; by apply (i_disjoint _ I a x tx)|].
  assert (forall x, x ∈ qview p1 a <-> x ∈ qview p a /\ x <> tx) as Hv1.
  { intros x. rewrite <- !qview_has, Hq. split; [intros [Hx Hne]; split; [done|]; intros ->; by apply Hne|]. intros [Hx Hne]. split; [done|].
    intros _ En. apply Hne. by apply (queue_nonce p a). }
  destruct (IH p1 I1 N) as (p2 & -> & [U1 U2 U3 U4 U5 U6]).
  { intros x Hx. apply Hv1. split; [apply Hin; by right|]. by intros ->. }
  exists p2. split; [done|]. split; [done|by eapply sub_trans|intros Hn; exact (U3 (F1 Hn))|..].
  - intros c x. by rewrite U4, Hp.
  - intros c Hc. by rewrite U5, Ho.
  - intros x. rewrite U6, Hv1, elem_of_cons. tauto.
Qed.
Lemma unqueued_len p p' a gone : inv p -> unqueued p p' a gone -> NoDup gone -> (forall x, x ∈ gone -> x ∈ qview p a) ->
  qlen p' a = qlen p a - zlen gone /\ lens (queue p') = lens (queue p) - zlen gone.
Proof.
  intros I [U1 U2 U3 U4 U5 U6] N Hin. assert (forall q, inv q -> NoDup (qview q a)) as Hnd by (intros q Iq; eapply NoDup_fmap_1, strictly_NoDup; by apply qview_strict).
  assert (qview p a ≡ₚ gone ++ qview p' a) as Hp.
  { apply NoDup_Permutation; [by apply Hnd|apply NoDup_app; split_and!; [done| |by apply Hnd]; intros x Hx Hx'; by apply U6 in Hx' as [_ ?]|].
    intros x. rewrite elem_of_app, U6. destruct (decide (x ∈ gone)); naive_solver. }
  assert (qlen p' a = qlen p a - zlen gone) as Hl by (rewrite !qlen_qview; unfold zlen; rewrite (Permutation_length Hp), length_app; lia).
  split; [done|]. rewrite (lens_change (queue p) (queue p') a) by done. unfold qlen in Hl. rewrite Hl. lia.
Qed.

(** The order of a list is cached; the list stays as it is. *)
Lemma flatten_queue p a l : inv p -> queue p !! a = Some l ->
  exists l', list_Flatten l = (qview p a, l') /\ Len l' = qlen p a /\ inv (upd_queue <[a := l']> p) /\ qview (upd_queue <[a := l']> p) a = qview p a /\
    lens (queue (upd_queue <[a := l']> p)) = lens (queue p) /\ forall c, c <> a -> queue (upd_queue <[a := l']> p) !! c = queue p !! c.
Proof.
  intros I El. destruct (i_queue _ I _ _ El) as [L S]. destruct (list_Flatten_ok l L) as (l' & E & L' & S' & V'). exists l'.
  unfold qview, qlen. rewrite El. cbn [from_option queue upd_queue]. rewrite lookup_insert_eq. cbn [from_option]. split_and!; [done|by rewrite !Len_lview, V'| |done| |].
  - apply (inv_queue_set p a l); [done..|by rewrite S'|by rewrite V'].
  - rewrite (lens_insert _ a l) by done. rewrite !Len_lview, V'. lia.
  - intros c Hc. by rewrite lookup_insert_ne.
Qed.
Lemma drop_last_take hs drop p : 0 <= drop <= zlen hs -> drop_last hs drop p = (p ← remove_all (take (Z.to_nat drop) hs) p; Some (0, p)).
Proof.
  revert drop p. induction hs as [|h hs IH]; intros drop p Hd.
  - change (zlen (@nil Hash)) with 0 in Hd. assert (drop = 0) as -> by lia. done.
  - rewrite zlen_cons in Hd. cbn [drop_last]. rewrite Z.gtb_ltb. destruct (Z.ltb_spec 0 drop) as [Hlt|Hge].
    + assert (Z.to_nat drop = S (Z.to_nat (drop - 1))) as -> by lia. cbn [take remove_all]. destruct (removeTx h p); cbn [mbind option_bind]; [|done]. apply IH. lia.
    + assert (drop = 0) as -> by lia. done.
Qed.
Lemma qview_nodup p a : inv p -> NoDup (qview p a).
Proof. intros I. eapply NoDup_fmap_1, strictly_NoDup. by apply qview_strict. Qed.

(** Dropping some queued transactions of one account *)
Lemma unqueue_ok p a l gone : inv p -> queue p !! a = Some l -> NoDup gone -> (forall x, x ∈ gone -> x ∈ qview p a) ->
  exists p', remove_all (map tx_Hash gone) (upd_queue <[a := (list_Flatten l).2]> p) = Some p' /\ inv p' /\ sub p p' /\ (no_empty p -> no_empty p') /\
    (forall c, c <> a -> queue p' !! c = queue p !! c) /\ lens (queue p') = lens (queue p) - zlen gone.
Proof.
  intros I El N Hin. destruct (flatten_queue p a l I El) as (l' & -> & Hl & I1 & V1 & Hq & Ho). cbn [snd].
  destruct (remove_listed (upd_queue <[a := l']> p) a gone) as (p' & -> & U); [done..|by rewrite V1|].
  destruct (unqueued_len _ _ _ _ I1 U N) as [_ Hlen]; [by rewrite V1|]. destruct U as [U1 U2 U3 U4 U5 U6]. exists p'. split_and!; try done.
  - destruct U2. by split.
  - intros c Hc. by rewrite U5, Ho.
  - by rewrite Hlen, Hq.
Qed.
Definition qsum p (accounts : list Address) : Z := sumZ (map (qlen p) accounts).
Lemma qsum_same p p' accounts : (forall c, c ∈ accounts -> queue p' !! c = queue p !! c) -> qsum p' accounts = qsum p accounts.
Proof. intros Ho. unfold qsum. f_equal. apply map_ext_in. intros c Hc%list_elem_of_In. unfold qlen. by rewrite Ho. Qed.

Lemma drop_queued_inv addresses drop p : inv p -> NoDup addresses -> (forall a, a ∈ addresses -> is_Some (queue p !! a)) ->
  0 <= drop <= qsum p addresses ->
  exists p', drop_queued addresses drop p = Some p' /\ inv p' /\ sub p p' /\ (no_empty p -> no_empty p') /\ lens (queue p') = lens (queue p) - drop.
Proof.
  revert drop p. induction addresses as [|a addresses IH]; intros drop p I N Hq Hd; cbn [drop_queued]; rewrite Z.gtb_ltb.
  { unfold qsum, sumZ in Hd. cbn in Hd. rewrite (proj2 (Z.ltb_ge _ _)) by lia. exists p. split_and!; try done. lia. }
  destruct (Z.ltb_spec 0 drop) as [Hlt|Hge]; [|exists p; split_and!; try done; lia].
  apply NoDup_cons in N as [Ha N]. destruct (Hq a ltac:(by left)) as [l El]. rewrite El. cbn [mbind option_bind].
  change (qsum p (a :: addresses)) with (qlen p a + qsum p addresses) in Hd.
  destruct (flatten_queue p a l I El) as (l' & Ef & Hl & _). rewrite Ef, Hl. pose proof (qlen_qview p a) as Hqv.
  destruct (Z.leb_spec (qlen p a) drop) as [Hle|Hgt].
  - destruct (unqueue_ok p a l (qview p a) I El (qview_nodup p a I) ltac:(done)) as (p1 & E1 & I1 & S1 & F1 & O1 & L1). rewrite Ef in E1. cbn [snd] in E1. rewrite E1. cbn [mbind option_bind].
    assert (forall c, c ∈ addresses -> queue p1 !! c = queue p !! c) as Hsame by (intros c Hc; apply O1; by intros ->).
    destruct (IH (drop - qlen p a) p1 I1 N) as (p2 & -> & I2 & S2 & F2 & L2); [intros c Hc; rewrite Hsame by done; apply Hq; by right|rewrite (qsum_same p p1) by done; lia|].
    exists p2. split_and!; try done; [by eapply sub_trans|by auto|lia].
  - set (gone := take (Z.to_nat drop) (reverse (qview p a))).
    assert (NoDup gone) as Ng by (apply (sublist_NoDup _ (reverse (qview p a))); [rewrite reverse_Permutation; by apply qview_nodup|apply sublist_take]).
    destruct (unqueue_ok p a l gone I El Ng) as (p1 & E1 & I1 & S1 & F1 & O1 & L1); [intros x Hx%elem_take; by rewrite elem_of_reverse in Hx|].
    rewrite Ef in E1. cbn [snd] in E1. rewrite drop_last_take by (unfold zlen in *; rewrite length_reverse, length_map; lia).
    assert (take (Z.to_nat drop) (reverse (map tx_Hash (qview p a))) = map tx_Hash gone) as ->.
    { unfold gone. assert (reverse (map tx_Hash (qview p a)) = map tx_Hash (reverse (qview p a))) as -> by (symmetry; apply fmap_reverse). symmetry. apply fmap_take. }
    rewrite E1. cbn [mbind option_bind]. assert (zlen gone = drop) as Hz by (unfold gone, zlen in *; rewrite length_take, length_reverse; lia).
    exists p1. destruct addresses; cbn [drop_queued]; split_and!; try done; lia.
Qed.

(** ** The sums over accounts *)

Definition msum (m : gmap Address txList) (accounts : list Address) : Z := sumZ (map (fun a => from_option Len 0 (m !! a)) accounts).
Lemma msum_step m a accounts : a ∉ accounts -> lens m - msum m (a :: accounts) = lens (delete a m) - msum (delete a m) accounts.
Proof.
  intros Ha. rewrite (lens_change (delete a m) m a) by (intros c Hc; by rewrite lookup_delete_ne). rewrite lookup_delete_eq.
  assert (msum (delete a m) accounts = msum m accounts) as ->.
  { unfold msum. f_equal. apply map_ext_in. intros c Hc%list_elem_of_In. rewrite lookup_delete_ne; [done|]. by intros ->. }
  unfold msum, sumZ. cbn. lia.
Qed.
Lemma qsum_le p accounts : NoDup accounts -> qsum p accounts <= lens (queue p).
Proof.
  change (qsum p accounts) with (msum (queue p) accounts). generalize (queue p). induction accounts as [|a accounts IH]; intros m N.
  - apply sumZ_nonneg, Forall_forall. intros n ([b l] & -> & _)%list_elem_of_fmap. apply Len_nonneg.
  - apply NoDup_cons in N as [Ha N]. pose proof (msum_step m a accounts Ha). specialize (IH (delete a m) N). lia.
Qed.
Lemma qsum_cover p accounts : NoDup accounts -> (forall a, is_Some (queue p !! a) -> a ∈ accounts) -> lens (queue p) <= qsum p accounts.
Proof.
  change (qsum p accounts) with (msum (queue p) accounts). generalize (queue p). induction accounts as [|a accounts IH]; intros m N Hk.
  - assert (m = ∅) as ->; [|unfold lens, sumZ; rewrite map_to_list_empty; done]. apply map_empty. intros c. apply eq_None_not_Some. intros Hc%Hk. by apply elem_of_nil in Hc.
  - apply NoDup_cons in N as [Ha N]. pose proof (msum_step m a accounts Ha).
    enough (lens (delete a m) <= msum (delete a m) accounts) by lia. apply IH; [done|].
    intros c [l Hc]. apply lookup_delete_Some in Hc as [Hne Hc]. assert (is_Some (m !! c)) as Hs by (by rewrite Hc). apply Hk, elem_of_cons in Hs as [->|]; done.
Qed.
Lemma qsum_keys p : qsum p (map fst (map_to_list (queue p))) = lens (queue p).
Proof.
  unfold qsum, lens. f_equal. rewrite map_map. apply map_ext_in. intros [a l] Hin%list_elem_of_In%elem_of_map_to_list. unfold qlen. cbn. by rewrite Hin.
Qed.
Lemma qsum_perm p l l' : l ≡ₚ l' -> qsum p l = qsum p l'.
Proof. intros Hp. apply sumZ_perm. by apply Permutation_map. Qed.

Lemma limit_queue_inv queued p : inv p -> config_ok (config p) -> queued <= lens (queue p) ->
  exists p', limit_queue queued p = Some p' /\ inv p' /\ sub p p' /\ (no_empty p -> no_empty p') /\
    lens (queue p') = lens (queue p) - Z.max 0 (queued - GlobalQueue (config p)).
Proof.
  intros I (_ & _ & Hg & _) Hq. unfold limit_queue. rewrite Z.gtb_ltb. destruct (Z.ltb_spec (GlobalQueue (config p)) queued) as [Hlt|Hge].
  2: { exists p. split_and!; try done. lia. }
  set (keys := reverse _). assert (keys ≡ₚ map fst (map_to_list (queue p))) as Hk by (unfold keys; by rewrite reverse_Permutation, sort_perm, range_perm).
  destruct (drop_queued_inv keys (queued - GlobalQueue (config p)) p I) as (p' & -> & I' & S' & F' & L').
  - rewrite Hk. apply NoDup_fst_map_to_list.
  - intros a Ha. rewrite Hk in Ha. apply list_elem_of_fmap in Ha as ([b l] & -> & Hin%elem_of_map_to_list). cbn. by rewrite Hin.
  - rewrite (qsum_perm p keys _ Hk), qsum_keys. lia.
  - exists p'. split_and!; try done. lia.
Qed.

(** ** Promotion as a whole *)

Lemma promote_accounts_inv env st accounts k p : inv p -> config_ok (config p) -> NoDup accounts ->
  exists p' n, promote_accounts env st accounts k p = Some (p', n) /\ inv p' /\ sub p p' /\ (no_empty p -> no_empty p') /\ n = k + qsum p' accounts /\
    forall c, c ∉ accounts -> queue p' !! c = queue p !! c.
Proof.
  revert k p. induction accounts as [|a accounts IH]; intros k p I Hc N; cbn [promote_accounts].
  { exists p, k. split_and!; try done. unfold qsum, sumZ. cbn. lia. }
  apply NoDup_cons in N as [Ha N]. destruct (promote_account_inv env st p a I Hc) as (p1 & n & -> & I1 & S1 & Hn & O1 & F1). cbn [mbind option_bind].
  destruct (IH (k + n) p1 I1) as (p2 & n2 & -> & I2 & S2 & F2 & Hn2 & O2); [by rewrite (sb_config _ _ S1)|done|].
  exists p2, n2. split_and!; try done; [by eapply sub_trans|by auto| |].
  - change (qsum p2 (a :: accounts)) with (qlen p2 a + qsum p2 accounts). unfold qlen in *. rewrite O2 by done. lia.
  - intros c [Hc1 Hc2]%not_elem_of_cons. by rewrite O2, O1.
Qed.
Lemma Len_all p a l : inv p -> pending p !! a = Some l -> Len l <= Z.of_nat (size (all p)).
Proof.
  intros I El. assert (forall x, x ∈ lview l -> all p !! tx_Hash x = Some x) as Hx by (intros x Hx; apply (i_all _ I a); left; by apply (has_at _ _ _ _ El)).
  assert (NoDup (lview l)) as N by (eapply NoDup_fmap_1, strictly_NoDup, view_strict; by apply (i_pending _ I a l El)).
  rewrite Len_lview. unfold zlen. apply Nat2Z.inj_le. rewrite <- (length_map (fun x => (tx_Hash x, x))), <- length_map_to_list.
  apply submseteq_length, NoDup_submseteq; [apply NoDup_fmap_2; [intros x y [= _ ?]; done|done]|].
  intros [h y] (x & [= -> ->] & Hin)%list_elem_of_fmap. apply elem_of_map_to_list. by apply Hx.
Qed.
Lemma small_all p p' : sub p p' -> Z.of_nat (size (all p)) < 2 ^ 24 -> Z.of_nat (size (all p')) < 2 ^ 24.
Proof. intros S Hs. pose proof (map_subseteq_size _ _ (sb_all _ _ S)). lia. Qed.

Lemma promoteExecutables_inv env st accounts p : inv p -> config_ok (config p) -> Z.of_nat (size (all p)) < 2 ^ 24 ->
  (forall l, accounts = Some l -> NoDup l) ->
  exists p', promoteExecutables env st accounts p = Some p' /\ inv p' /\ sub p p' /\ (1 <= AccountSlots (config p) -> no_empty p -> no_empty p') /\
    (accounts = None -> lens (queue p') <= GlobalQueue (config p)).
Proof.
  intros I Hc Hs Ha. unfold promoteExecutables. set (accs := default _ accounts).
  assert (NoDup (map fst (range (queue p)))) as Nk by (rewrite range_perm; apply NoDup_fst_map_to_list).
  destruct (promote_accounts_inv env st accs 0 p I Hc) as (p1 & n & -> & I1 & S1 & F1 & Hn & O1); [unfold accs; destruct accounts; cbn; auto|]. cbn [mbind option_bind].
  assert (NoDup accs) as Na by (unfold accs; destruct accounts; cbn; auto).
  destruct (limit_pending_inv p1 I1) as (p2 & -> & I2 & S2 & Q2 & _ & F2); [by rewrite (sb_config _ _ S1)| |].
  { intros a l El. pose proof (Len_all p1 a l I1 El). pose proof (small_all _ _ S1 Hs). lia. }
  cbn [mbind option_bind]. pose proof (sub_trans _ _ _ S1 S2) as S12.
  assert (n <= lens (queue p2)) as Hnl by (rewrite Hn, Q2; pose proof (qsum_le p1 accs Na); lia).
  destruct (limit_queue_inv n p2 I2) as (p3 & -> & I3 & S3 & F3 & L3); [by rewrite (sb_config _ _ S12)|done|].
  exists p3. split_and!; try done; [by eapply sub_trans| |].
  - intros H1 Hne. apply F3, F2; [by rewrite (sb_config _ _ S1)|by apply F1].
  - intros ->. rewrite L3, (sb_config _ _ S12), Q2 in *. assert (n = lens (queue p1)) as ->; [|lia].
    pose proof (qsum_le p1 accs Na). assert (lens (queue p1) <= qsum p1 accs); [|lia]. apply qsum_cover; [done|].
    intros a [l El]. destruct (decide (a ∈ accs)) as [|Hna]; [done|]. rewrite O1 in El by done. unfold accs. cbn.
    rewrite range_perm. apply list_elem_of_fmap. exists (a, l). split; [done|]. by apply elem_of_map_to_list.
Qed.
End limits.
End TxPoolLimits.
