(* ===== verification/TxPoolOps.v ===== *)
(** * The transaction pool: every operation keeps the invariant *)

From stdpp Require Import sorting.
From S2P Require Import Prelude GoMath Params World State Transition Heap Types Transactions TxList TxListFacts TxListThms TxPriced TxPricedThms Prque ManagedState TxPool TxPoolInv TxPoolLimits.

Module TxPoolOps.
Import Types Transactions TxList TxListFacts TxListThms TxPriced ManagedState TxPool TxPoolInv TxPoolLimits.

Section ops.
Context `{CP : CryptoPrims} `{GO : GoOrder} {GOK : GoOrderOK}.
Implicit Types p : TxPool.

(** ** Demotion *)

Lemma pending_drops p a l l' drops : inv p -> pending p !! a = Some l -> lwf l' -> strict l' = true -> (forall x, x ∈ lview l' -> x ∈ lview l) ->
  (forall x, x ∈ drops -> x ∈ lview l /\ x ∉ lview l') ->
  let p' := forget_all drops (upd_pending <[a := l']> p) in
  inv p' /\ sub p p' /\ pending p' = <[a := l']> (pending p) /\ queue p' = queue p /\ pendingState p' = pendingState p /\
  forall x, x ∈ lview l -> x ∉ lview l' -> x ∉ drops -> loose p' a x.
Proof.
  intros I E L S Hs Hd p'. destruct (pending_shrinks p a l l' I E L S Hs) as [I1 Lo].
  destruct (forget_all_inv (upd_pending <[a := l']> p) drops I1) as (I2 & [S1 S2 S3 S4] & E1 & E2 & _ & E4 & E5).
  { intros x [Hx Hx']%Hd. eapply loose_absent; [done|]. by apply Lo. }
  split_and!; try done. intros x Hx Hx' Hxd. destruct (Lo x Hx Hx') as [L1 L2 L3]. split.
  - unfold p'. rewrite E5; [done|]. intros d Hdd Eh. destruct (Hd d Hdd) as [Hdl _]. assert (forall y, y ∈ lview l -> listed p a y) as Hin by (intros; left; by apply (has_at _ _ _ _ E)).
    destruct (listed_hash p a a d x I (Hin d Hdl) (Hin x Hx) Eh) as [-> _]. done.
  - by rewrite (from_of_sub p).
  - intros y Hy. apply L3. unfold listed in *. unfold p' in Hy. rewrite E1, E2 in Hy. done.
Qed.
Lemma demote_account_inv env st p a : inv p -> is_Some (pending p !! a) ->
  exists p', demote_account env st a p = Some p' /\ inv p' /\ sub p p' /\ (forall c, c <> a -> pending p' !! c = pending p !! c) /\
    forall l, pending p' !! a = Some l -> lview l <> [].
Proof.
  intros I [l El]. unfold demote_account. rewrite El. cbn [mbind option_bind]. destruct (i_pending _ I _ _ El) as [L S].
  destruct (list_Forward_ok (state_GetNonce a st) l L) as (l1 & -> & L1 & S1 & V1). cbn [mbind option_bind].
  destruct (pending_drops p a l l1 (filter (fun tx => AccountNonce tx < state_GetNonce a st) (lview l))) as (I1 & B1 & P1 & Q1 & M1 & _); try done; [by rewrite S1| | |].
  { rewrite V1. by intros x [_ ?]%list_elem_of_filter. }
  { intros x [Hlt Hx]%list_elem_of_filter. split; [done|]. rewrite V1. by intros [? _]%list_elem_of_filter. }
  set (p1 := forget_all _ _) in *. destruct (list_Filter_ok (state_GetBalance a st) (gasLimit env) l1 L1) as (drops & inval & l2 & -> & L2 & S2 & Hd & V2 & Hall).
  assert (NoDup (map AccountNonce (drops ++ inval ++ lview l2))) as Nn by (rewrite Hall; apply strictly_NoDup, view_strict, L1).
  assert (forall x, x ∈ lview l1 <-> x ∈ drops \/ x ∈ inval \/ x ∈ lview l2) as Hin by (intros x; rewrite <- Hall, !elem_of_app; done).
  rewrite !map_app in Nn. apply NoDup_app in Nn as (_ & Nd & (Ni & Nil & _)%NoDup_app).
  assert (forall x, x ∈ drops -> (x ∉ inval) /\ (x ∉ lview l2)) as Hdis.
  { intros x Hx. specialize (Nd (AccountNonce x) ltac:(by apply list_elem_of_fmap_2)). rewrite elem_of_app in Nd.
    split; intros Hx'; apply Nd; [left|right]; by apply list_elem_of_fmap_2. }
  destruct (pending_drops p1 a l1 l2 drops) as (I2 & B2 & P2 & Q2 & M2 & Lo); try done; [by rewrite P1, lookup_insert_eq|by rewrite S2, S1|..].
  { intros x Hx. apply Hin. auto. }
  { intros x Hx. split; [apply Hin; auto|by apply Hdis]. }
  set (p2 := forget_all drops _) in *. destruct (enqueue_all_inv p2 a inval I2 Ni) as (I3 & B3 & P3 & M3 & A3 & Q3).
  { apply Forall_forall. intros x Hx. apply Lo; [apply Hin; auto| |intros Hx'; by apply Hdis in Hx' as [? _]].
    intros Hx'. apply (Nil (AccountNonce x)); by apply list_elem_of_fmap_2. }
  set (p3 := enqueue_all inval p2) in *. pose proof (sub_trans _ _ _ B1 (sub_trans _ _ _ B2 B3)) as B.
  assert (pending p3 = <[a := l2]> (pending p1)) as P4 by (by rewrite P3, P2). rewrite P1 in P4.
  eexists. split; [done|]. destruct (Empty l2) eqn:Em.
  - split_and!; [by apply inv_beats, inv_pending_delete|destruct B; by split| |].
    + intros c Hc. cbn. rewrite lookup_delete_ne, P4, !lookup_insert_ne by done. done.
    + intros k. cbn. by rewrite lookup_delete_eq.
  - split_and!; try done.
    + intros c Hc. rewrite P4, !lookup_insert_ne by done. done.
    + intros k. rewrite P4, lookup_insert_eq. intros [= <-] Ev. apply Empty_lview in Ev. congruence.
Qed.
Lemma demote_accounts_inv env st accounts p : inv p -> NoDup accounts -> (forall a, a ∈ accounts -> is_Some (pending p !! a)) ->
  exists p', demote_accounts env st accounts p = Some p' /\ inv p' /\ sub p p' /\ (forall c, c ∉ accounts -> pending p' !! c = pending p !! c) /\
    forall a l, a ∈ accounts -> pending p' !! a = Some l -> lview l <> [].
Proof.
  revert p. induction accounts as [|a accounts IH]; intros p I N Hs; cbn [demote_accounts]; [exists p; split_and!; try done; by intros a l ?%elem_of_nil|].
  apply NoDup_cons in N as [Ha N]. destruct (demote_account_inv env st p a I) as (p1 & -> & I1 & S1 & O1 & E1); [apply Hs; by left|]. cbn [mbind option_bind].
  destruct (IH p1 I1 N) as (p2 & -> & I2 & S2 & O2 & E2); [intros c Hc; rewrite O1 by (by intros ->); apply Hs; by right|].
  exists p2. split_and!; try done; [by eapply sub_trans| |].
  - intros c [H1 H2]%not_elem_of_cons. by rewrite O2, O1.
  - intros c l [->|Hc]%elem_of_cons; [rewrite O2 by done; apply E1|by apply E2].
Qed.
Lemma demote_inv env st p : inv p -> exists p', demoteUnexecutables env st p = Some p' /\ inv p' /\ sub p p' /\ no_empty p'.
Proof.
  intros I. unfold demoteUnexecutables.
  assert (forall a, a ∈ map fst (range (pending p)) <-> is_Some (pending p !! a)) as Hk.
  { intros a. rewrite range_perm, list_elem_of_fmap. split; [intros ([b l] & -> & E%elem_of_map_to_list); cbn; by rewrite E|].
    intros [l E]. exists (a, l). split; [done|]. by apply elem_of_map_to_list. }
  destruct (demote_accounts_inv env st (map fst (range (pending p))) p I) as (p' & -> & I' & S' & O' & E'); [rewrite range_perm; apply NoDup_fst_map_to_list|intros a; apply Hk|].
  exists p'. split_and!; try done. intros a l El. destruct (decide (a ∈ map fst (range (pending p)))) as [Ha|Ha]; [by eapply E'|].
  exfalso. apply Ha, Hk. rewrite <- O' by done. by rewrite El.
Qed.
(** ** Resetting to a new head *)

(** What the pool needs of a state *)
Definition state_ok (st : State.StateDB) : Prop := addr_ok st /\ settled st /\ forall a, in_u64 (state_nonce a st).
Definition env_ok (env : Env) : Prop := forall st, currentState env = Some st -> state_ok st.

Lemma flatten_pending p a l : inv p -> pending p !! a = Some l ->
  exists l', list_Flatten l = (lview l, l') /\ lview l' = lview l /\ inv (upd_pending <[a := l']> p).
Proof.
  intros I El. destruct (i_pending _ I _ _ El) as [L S]. destruct (list_Flatten_ok l L) as (l' & E & L' & S' & V'). exists l'.
  split_and!; [done..|]. apply (inv_pending_set p a l); [done..|by rewrite S'|by rewrite V'].
Qed.
Lemma update_nonce_inv p a l : inv p -> no_empty p -> pending p !! a = Some l ->
  exists p', update_nonce a p = Some p' /\ inv p' /\ sub p p' /\ no_empty p' /\ (forall c, is_Some (pending p' !! c) <-> is_Some (pending p !! c)).
Proof.
  intros I Hn El. unfold update_nonce. rewrite El. cbn [mbind option_bind]. destruct (flatten_pending p a l I El) as (l' & -> & V & I').
  destruct (last (lview l)) as [tx|] eqn:Et; [|apply last_None in Et; by destruct (Hn a l El)]. destruct (i_managed _ I) as (ms & -> & W). cbn [mbind option_bind].
  destruct (ms_SetNonce_ok a (u64 (AccountNonce tx + 1)) ms W) as [W' _]; [apply u64_range|].
  eexists. split; [done|]. split_and!; [by apply inv_managed|done| |].
  - intros c k. cbn. intros [[_ <-]|[_ E]]%lookup_insert_Some; [rewrite V|]; by eapply Hn.
  - intros c. cbn. destruct (decide (a = c)) as [<-|]; [rewrite lookup_insert_eq, El; split; eauto|by rewrite lookup_insert_ne].
Qed.
Lemma update_nonces_inv p accounts : inv p -> no_empty p -> (forall a, a ∈ accounts -> is_Some (pending p !! a)) ->
  exists p', update_nonces accounts p = Some p' /\ inv p' /\ sub p p' /\ no_empty p'.
Proof.
  revert p. induction accounts as [|a accounts IH]; intros p I Hn Hs; cbn [update_nonces]; [by exists p|].
  destruct (Hs a) as [l El]; [by left|]. destruct (update_nonce_inv p a l I Hn El) as (p1 & -> & I1 & S1 & N1 & D1). cbn [mbind option_bind].
  destruct (IH p1 I1 N1) as (p2 & -> & I2 & S2 & N2); [intros c Hc; apply D1, Hs; by right|]. exists p2. split_and!; try done. by eapply sub_trans.
Qed.
Lemma resetState_inv env st p : currentState env = Some st -> state_ok st -> (forall ms, ms_wf ms -> inv (set_managed (Some ms) p)) ->
  config_ok (config p) -> Z.of_nat (size (all p)) < 2 ^ 24 ->
  exists p', resetState env p = Some p' /\ inv p' /\ sub p p' /\ (1 <= AccountSlots (config p) -> no_empty p') /\ lens (queue p') <= GlobalQueue (config p).
Proof.
  intros Es (A & Se & U) Hi Hc Hs. unfold resetState. rewrite Es. destruct (ManageState_ok st A Se U) as (ms & -> & W & _). cbn [mbind option_bind].
  destruct (demote_inv env st _ (Hi ms W)) as (p1 & -> & I1 & S1 & N1). cbn [mbind option_bind].
  assert (sub p p1) as S1' by (destruct S1; by split).
  destruct (update_nonces_inv p1 (map fst (range (pending p1))) I1 N1) as (p2 & -> & I2 & S2 & N2).
  { intros a. rewrite range_perm. intros ([b l] & -> & E%elem_of_map_to_list)%list_elem_of_fmap. cbn. by rewrite E. }
  cbn [mbind option_bind]. pose proof (sub_trans _ _ _ S1' S2) as S12.
  destruct (promoteExecutables_inv env st None p2 I2) as (p3 & -> & I3 & S3 & N3 & L3); [by rewrite (sb_config _ _ S12)|by eapply small_all|done|].
  rewrite (sb_config _ _ S12) in *. exists p3. split_and!; try done; [by eapply sub_trans|by auto|by apply L3].
Qed.

(** ** Adding *)

Lemma Underpriced_heap (m : gmap Hash Transaction) tx local l : Heap.heap_ok Price (pitems l) ->
  exists b l', Underpriced m tx local l = Some (b, l') /\ Heap.heap_ok Price (pitems l').
Proof.
  intros Hh. unfold Underpriced. destruct (contains _ _); [by exists false, l|].
  destruct (TxPricedThms.drop_stale_ok m (length (pitems l)) l Hh) as (l' & -> & Hh' & _); [done|]. cbn [mbind option_bind]. destruct (pitems l') eqn:E; eexists _, l'; by rewrite ?E.
Qed.
Lemma Discard_heap (m : gmap Hash Transaction) count local l : Heap.heap_ok Price (pitems l) -> 0 <= count ->
  exists drop l', Discard m count local l = Some (drop, l') /\ Heap.heap_ok Price (pitems l').
Proof.
  intros Hh Hc. unfold Discard. rewrite (proj2 (Z.ltb_ge _ _)) by done.
  destruct (TxPricedThms.discard_loop_ok m local (length (pitems l)) count l Hh) as (d & s & l1 & -> & Hh1 & _); [done..|]. cbn [mbind option_bind fst snd].
  do 2 eexists. split; [done|]. by apply TxPricedThms.push_all_ok.
Qed.
Lemma Cap_heap (m : gmap Hash Transaction) threshold local l : Heap.heap_ok Price (pitems l) ->
  exists drop l', TxPriced.Cap m threshold local l = Some (drop, l') /\ Heap.heap_ok Price (pitems l').
Proof.
  intros Hh. unfold TxPriced.Cap. destruct (TxPricedThms.cap_loop_ok m local (length (pitems l)) threshold l Hh) as (d & s & lo & l1 & -> & Hh1 & _); [done|].
  cbn [mbind option_bind fst snd]. do 2 eexists. split; [done|]. by apply TxPricedThms.push_all_ok.
Qed.
Lemma make_room_inv tx p : inv p -> config_ok (config p) ->
  exists r p', make_room tx p = Some (r, p') /\ inv p' /\ sub p p' /\ (no_empty p -> no_empty p').
Proof.
  intros I (_ & Hg & Hq & Hgq & _). unfold make_room. set (limit := u64 _). assert (limit = GlobalSlots (config p) + GlobalQueue (config p)) as El by (apply Z.mod_small; lia).
  rewrite Z.geb_leb. destruct (Z.leb_spec limit (Z.of_nat (size (all p)))) as [Hfull|]; [|by exists (inr tt), p].
  destruct (Underpriced_heap (all p) tx (locals p) (priced p) (i_heap _ I)) as (b & l & -> & Hl). cbn [mbind option_bind].
  pose proof (inv_priced p l I Hl) as I1. destruct b; [exists (inl ErrUnderpriced), (set_priced l p); by split_and!|].
  destruct (Discard_heap (all p) (Z.of_nat (size (all p)) - i64 (u64 (limit - 1))) (locals p) l Hl) as (d & l2 & E2 & Hl2).
  { destruct (decide (limit = 0)) as [E0|E0]; [rewrite E0; change (i64 (u64 (0 - 1))) with (- 1); lia|]. rewrite i64_small; unfold u64; rewrite Z.mod_small; lia. }
  cbn [all locals priced set_priced]. rewrite E2. cbn [mbind option_bind]. destruct (remove_all_inv (set_priced l2 (set_priced l p)) (map tx_Hash d)) as (p' & -> & I' & S' & _ & N').
  { by apply inv_priced. }
  exists (inr tt), p'. split_and!; try done. destruct S'. by split.
Qed.
Lemma unknown_absent p h : inv p -> all p !! h = None -> absent p h.
Proof. intros I E a tx Hl <-. destruct (i_all _ I _ _ Hl). congruence. Qed.
(** A transaction that takes the place of a pending one *)
Lemma replace_pending_inv p tx l : inv p -> all p !! tx_Hash tx = None -> in_u64 (AccountNonce tx) -> pending p !! from_of p tx = Some l -> Overlaps tx l = true ->
  exists ins old l', list_Add tx (PriceBump (config p)) l = (ins, old, l') /\ lview l' <> [] /\
    let p1 := upd_pending <[from_of p tx := l']> p in
    if (ins : bool) then let p' := remember (tx_Hash tx) tx (forget_old old p1) in
      inv p' /\ moved p p' /\ all p' ⊆ <[tx_Hash tx := tx]> (all p) /\ pending p' = <[from_of p tx := l']> (pending p)
    else inv p1.
Proof.
  intros I Hu Hn El Ho. pose proof I as [I1 I2 I3 I4 I5 I6 I7]. set (a := from_of p tx) in *. pose proof (unknown_absent _ _ I Hu) as A.
  destruct (list_Add_has (pending p) a tx (PriceBump (config p)) true) as (ins & old & l' & E & L & S & Hold & Hi); [intros k Ek; by apply (I1 a)|done|].
  rewrite El in E. cbn [default from_option id] in E. exists ins, old, l'. split; [exact E|].
  assert (exists o, has (pending p) a o /\ AccountNonce o = AccountNonce tx) as (o & Hao & En).
  { unfold Overlaps in Ho. apply bool_decide_eq_true in Ho as [o Ho]. exists o. eapply (Get_has (pending p)); [done| |done]. by apply (I1 a). }
  destruct ins.
  2: { destruct Hi as (_ & _ & _ & Hi). split.
    - intros Ev. pose proof (proj2 (Hi a o) Hao) as Hx. apply has_insert in Hx as [[_ Hx]|[? _]]; [|done]. rewrite Ev in Hx. by apply elem_of_nil in Hx.
    - apply (inv_shrink p); try done; [|intros c x; cbn; by rewrite Hi]. cbn. intros c x [[_ <-]|[_ Ex]]%lookup_insert_Some; [done|by apply (I1 c)]. }
  destruct Hi as [Hi Hnone]. split.
  { intros Ev. pose proof (proj2 (Hi a tx) (or_introl (conj eq_refl eq_refl))) as Hx. apply has_insert in Hx as [[_ Hx]|[? _]]; [|done]. rewrite Ev in Hx. by apply elem_of_nil in Hx. }
  cbv zeta. set (p' := remember _ _ _).
  assert (forall o, old = Some o -> listed p a o /\ AccountNonce o = AccountNonce tx) as Ho' by (intros x Ex; destruct (Hold x Ex) as (_ & ? & ?); split; [by left|done]).
  destruct (known_after p a tx old (all p') I eq_refl A Ho') as (K1 & K2 & K3 & K4); [by destruct old|].
  assert (queue p' = queue p /\ pending p' = <[a := l']> (pending p) /\ moved p p' /\ pendingState p' = pendingState p) as (E1 & E2 & E4 & E5)
    by (destruct old; by split_and!).
  assert (forall x, has (queue p) a x -> AccountNonce x <> AccountNonce tx) as Hq by (intros x Hx Ex; apply (I4 a o x); congruence || done).
  split_and!; try done. split; rewrite ?E1, ?E2, ?E5; try done.
  - intros c x [[_ <-]|[_ Ex]]%lookup_insert_Some; [done|by apply (I1 c)].
  - intros c x Hl. rewrite (from_of_sub p) by apply E4. unfold listed in Hl. rewrite E1, E2, Hi in Hl. destruct Hl as [[[-> ->]|[Hl Hne]]|Hl].
    + done.
    + split; [|by apply I3; left]. apply (K2 c); [by left|done].
    + split; [|by apply I3; right]. apply (K2 c); [by right|]. intros ->. by apply Hq.
  - intros c x x' H1 H2. apply Hi in H1 as [[-> ->]|[H1 _]]; [intros Ex; by apply (Hq x')|by apply (I4 c)].
  - by apply K3.
  - apply remember_heap, forget_old_heap. done.
Qed.

Lemma check_total {E A} b (e : E) (k : gores E A) : k <> GPanic -> (check b or e; k) <> GPanic.
Proof. by destruct b. Qed.
Lemma Sender_total s tx : Sender s tx <> GPanic.
Proof.
  assert (forall s' v h, recover s' tx v h <> GPanic) as R by (intros; unfold recover; apply check_total; case_match; [by apply check_total|done]).
  assert (forall s' h, recover_plain s' tx h <> GPanic) as R' by (intros; by apply check_total).
  assert (PublicKey s tx <> GPanic) as Hp by (destruct s; cbn [PublicKey]; [by auto..|]; case_match; [by auto|by apply check_total]).
  unfold Sender. by destruct (PublicKey s tx).
Qed.
Lemma validateTx_total env tx p : validateTx env tx p <> GPanic.
Proof.
  apply check_total. destruct (currentState env); [|done]. pose proof (Sender_total (signer p) tx).
  destruct (Sender (signer p) tx); [|done..]. cbv zeta. by repeat apply check_total.
Qed.

(** [add] on every branch: it never panics, knows at most one more transaction, and keeps the invariant. *)
Record grown p p' (tx : Transaction) : Prop := {
  gr_inv : inv p';
  gr_moved : moved p p';
  gr_all : all p' ⊆ <[tx_Hash tx := tx]> (all p);
  gr_full : no_empty p -> no_empty p';
}.
Lemma sub_grown p p' tx : inv p' -> sub p p' -> (no_empty p -> no_empty p') -> all p !! tx_Hash tx = None -> grown p p' tx.
Proof. intros I [? ? ? Ha] Hn Hu. split; [done|by split| |done]. etrans; [exact Ha|]. by apply insert_subseteq. Qed.
Lemma grown_after p p1 p2 tx : sub p p1 -> (no_empty p -> no_empty p1) -> grown p1 p2 tx -> grown p p2 tx.
Proof.
  intros [S1 S2 S3 S4] Hn [G1 [M1 M2 M3] G3 G4]. split; [done|split; congruence| |by auto]. etrans; [exact G3|]. by apply insert_mono.
Qed.
Lemma add_inv env tx p : inv p -> config_ok (config p) -> in_u64 (AccountNonce tx) ->
  exists r p', add env tx p = Some (r, p') /\ (p' = p \/ grown p p' tx).
Proof.
  intros I Hc Hn. unfold add. destruct (all p !! tx_Hash tx) as [y|] eqn:Hu; [eexists _, p; by split; [|left]|].
  pose proof (validateTx_total env tx p) as Hv. destruct (validateTx env tx p) as [u|e|]; [|eexists _, p; by split; [|left]|done].
  destruct (make_room_inv tx p I Hc) as (r & p1 & -> & I1 & S1 & N1). cbn [mbind option_bind].
  destruct r as [e|u']; [eexists _, p1; split; [done|]; right; by apply sub_grown|].
  assert (all p1 !! tx_Hash tx = None) as Hu1 by (by eapply lookup_weaken_None; [|apply S1]).
  assert ((forall x, has (pending p1) (from_of p1 tx) x -> AccountNonce x <> AccountNonce tx) ->
    exists r p', Some (enqueueTx (tx_Hash tx) tx p1) = Some (r, p') /\ (p' = p \/ grown p p' tx)) as Henq.
  { intros Hp. destruct (enqueueTx_inv p1 tx I1 (unknown_absent _ _ I1 Hu1) Hn ltac:(congruence) Hp) as (r & p' & -> & I' & M' & P' & _ & A' & _).
    exists r, p'. split; [done|]. right. apply (grown_after p p1); [done..|]. split; try done. unfold no_empty. by rewrite P'. }
  destruct (pending p1 !! from_of p1 tx) as [l|] eqn:El; [|apply Henq; by intros x ?%has_none].
  destruct (Overlaps tx l) eqn:Ho.
  - destruct (replace_pending_inv p1 tx l I1 Hu1 Hn El Ho) as (ins & old & l' & -> & Hne & Hp). cbv zeta in Hp.
    assert (no_empty p1 -> forall a k, <[from_of p1 tx := l']> (pending p1) !! a = Some k -> lview k <> []) as Hfull
      by (intros Hf a k [[_ <-]|[_ E]]%lookup_insert_Some; [done|by eapply Hf]).
    destruct ins; cbn [negb]; (eexists _, _; split; [done|]; right; apply (grown_after p p1); [done..|]).
    + destruct Hp as (I2 & M2 & A2 & P2). split; try done. unfold no_empty. rewrite P2. exact Hfull.
    + apply sub_grown; done.
  - apply Henq. intros x Hx En. apply bool_decide_eq_false in Ho. apply Ho. exists x. eapply Get_has; [done| |done]. by apply (i_pending _ I1 _ _ El).
Qed.
Lemma grown_size p p' tx : grown p p' tx -> Z.of_nat (size (all p')) <= Z.of_nat (size (all p)) + 1.
Proof.
  intros [_ _ Ha _]. apply map_subseteq_size in Ha. rewrite map_size_insert in Ha. destruct (all p !! tx_Hash tx); cbn in Ha; lia.
Qed.
Lemma add_keeps env tx p : inv p -> config_ok (config p) -> in_u64 (AccountNonce tx) ->
  exists r p', add env tx p = Some (r, p') /\ inv p' /\ moved p p' /\ Z.of_nat (size (all p')) <= Z.of_nat (size (all p)) + 1 /\ (no_empty p -> no_empty p').
Proof.
  intros I Hc Hn. destruct (add_inv env tx p I Hc Hn) as (r & p' & E & [->|G]); exists r; [exists p|exists p']; split_and!; try done; try lia; try apply G.
  by eapply grown_size.
Qed.

(** What every operation does to a pool that is well-formed *)
Record kept p p' : Prop := {
  kp_inv : inv p';
  kp_config : config p' = config p;
  kp_full : 1 <= AccountSlots (config p) -> no_empty p -> no_empty p';
}.
Lemma kept_refl p : inv p -> kept p p.
Proof. by split. Qed.
Lemma kept_trans p1 p2 p3 : kept p1 p2 -> kept p2 p3 -> kept p1 p3.
Proof. intros [? E1 F1] [? E2 F2]. split; [done|congruence|]. rewrite E1 in F2. auto. Qed.
Lemma sub_kept p p' : inv p' -> sub p p' -> (no_empty p -> no_empty p') -> kept p p'.
Proof. intros I [? ? ? ?] Hn. by split; auto. Qed.

Lemma Add_kept env tx p : inv p -> config_ok (config p) -> in_u64 (AccountNonce tx) -> Z.of_nat (size (all p)) + 1 < 2 ^ 24 ->
  exists e p', Add env tx p = Some (e, p') /\ kept p p'.
Proof.
  intros I Hc Hn Hs. unfold Add. destruct (add_keeps env tx p I Hc Hn) as (r & p1 & -> & I1 & M1 & S1 & N1). cbn [mbind option_bind].
  assert (kept p p1) as K by (split; [done|apply M1|by auto]).
  destruct r as [e|[]]; [by eexists _, p1..|]. destruct (currentState env) as [st|]; [|by eexists _, p1].
  destruct (promoteExecutables_inv env st (Some [from_of p1 tx]) p1 I1) as (p2 & -> & I2 & S2 & N2 & _); [by rewrite (mv_config _ _ M1)|lia|intros l [= <-]; apply NoDup_singleton|].
  cbn [mbind option_bind]. eexists _, p2. split; [done|]. eapply kept_trans; [done|]. split; [done|apply S2|done].
Qed.
Lemma add_batch_kept env txs dirty p : inv p -> config_ok (config p) -> Forall (fun tx => in_u64 (AccountNonce tx)) txs ->
  exists d p', add_batch env txs dirty p = Some (d, p') /\ kept p p' /\ Z.of_nat (size (all p')) <= Z.of_nat (size (all p)) + zlen txs.
Proof.
  intros I Hc F. revert dirty p I Hc. induction F as [|tx txs Hn F IH]; intros dirty p I Hc; cbn [add_batch].
  { exists dirty, p. split_and!; [done|by apply kept_refl|]. change (zlen _) with 0. lia. }
  destruct (add_keeps env tx p I Hc Hn) as (r & p1 & -> & I1 & M1 & S1 & N1). cbn [mbind option_bind].
  destruct (IH (match r with inr false => dirty ∪ {[from_of p1 tx]} | _ => dirty end) p1 I1) as (d & p2 & -> & K2 & S2); [by rewrite (mv_config _ _ M1)|].
  exists d, p2. split_and!; [done|eapply kept_trans; [|done]; split; [done|apply M1|by auto]|]. rewrite zlen_cons. lia.
Qed.
Lemma set_order_NoDup (m : gset Address) : NoDup (set_order m).
Proof. unfold set_order. rewrite range_perm. apply NoDup_fst_map_to_list. Qed.
Lemma AddBatch_kept env txs p : inv p -> config_ok (config p) -> Forall (fun tx => in_u64 (AccountNonce tx)) txs ->
  Z.of_nat (size (all p)) + zlen txs < 2 ^ 24 -> exists e p', AddBatch env txs p = Some (e, p') /\ kept p p'.
Proof.
  intros I Hc F Hs. unfold AddBatch. destruct (add_batch_kept env txs ∅ p I Hc F) as (d & p1 & -> & K1 & S1). cbn [mbind option_bind].
  case_bool_decide; [by eexists _, p1|]. destruct (currentState env) as [st|]; [|by eexists _, p1].
  destruct (promoteExecutables_inv env st (Some (set_order d)) p1) as (p2 & -> & I2 & S2 & N2 & _);
    [apply K1|by rewrite (kp_config _ _ K1)|lia|intros l [= <-]; apply set_order_NoDup|].
  cbn [mbind option_bind]. eexists _, p2. split; [done|]. eapply kept_trans; [done|]. split; [done|apply S2|done].
Qed.
Lemma remove_all_kept p hs : inv p -> exists p', remove_all hs p = Some p' /\ kept p p'.
Proof. intros I. destruct (remove_all_inv p hs I) as (p' & E & I' & S' & _ & N'). exists p'. split; [done|]. by apply sub_kept. Qed.
Lemma inv_same p p' : inv p -> signer p' = signer p -> all p' = all p -> priced p' = priced p -> pendingState p' = pendingState p ->
  pending p' = pending p -> queue p' = queue p -> inv p'.
Proof.
  intros I E1 E2 E3 E4 E5 E6. apply (inv_shrink p); rewrite ?E5, ?E6; try done; apply I.
Qed.
Lemma SetGasPrice_kept p price : inv p -> exists p', SetGasPrice price p = Some p' /\ kept p p'.
Proof.
  intros I. unfold SetGasPrice. destruct (Cap_heap (all p) price (locals p) (priced p) (i_heap _ I)) as (d & l & E & Hl).
  cbn [all locals priced set_gasPrice]. rewrite E. cbn [mbind option_bind].
  destruct (remove_all_kept (set_priced l (set_gasPrice price p)) (map tx_Hash d)) as (p' & -> & [K1 K2 K3]); [|by exists p'].
  apply inv_priced; [|done]. by apply (inv_same p).
Qed.
Lemma expire_accounts_kept env accounts p : inv p -> NoDup accounts -> (forall a, a ∈ accounts -> is_Some (queue p !! a)) ->
  exists p', expire_accounts env accounts p = Some p' /\ kept p p'.
Proof.
  revert p. induction accounts as [|a accounts IH]; intros p I N Hq; cbn [expire_accounts]; [exists p; split; [done|by apply kept_refl]|].
  apply NoDup_cons in N as [Ha N]. destruct (Hq a) as [l El]; [by left|]. case_match.
  - rewrite El. cbn [mbind option_bind]. destruct (flatten_queue p a l I El) as (l' & E & _).
    destruct (unqueue_ok p a l (qview p a) I El (qview_nodup p a I)) as (p1 & E1 & I1 & S1 & N1 & O1 & _); [done|].
    rewrite E in *. cbn [snd] in E1. rewrite E1. cbn [mbind option_bind]. destruct (IH p1 I1 N) as (p2 & -> & K2).
    { intros c Hc. rewrite O1 by (by intros ->). apply Hq. by right. }
    exists p2. split; [done|]. eapply kept_trans; [|done]. by apply sub_kept.
  - cbn [mbind option_bind]. apply IH; [done..|]. intros c Hc. apply Hq. by right.
Qed.
Lemma expire_tick_kept env p : inv p -> exists p', expire_tick env p = Some p' /\ kept p p'.
Proof.
  intros I. apply expire_accounts_kept; [done|rewrite range_perm; apply NoDup_fst_map_to_list|].
  intros a. rewrite range_perm. intros ([b l] & -> & E%elem_of_map_to_list)%list_elem_of_fmap. cbn. by rewrite E.
Qed.
Lemma resetState_kept env p : inv p -> config_ok (config p) -> env_ok env -> Z.of_nat (size (all p)) < 2 ^ 24 -> exists p', resetState env p = Some p' /\ kept p p'.
Proof.
  intros I Hc He Hs. destruct (currentState env) as [st|] eqn:Es.
  - destruct (resetState_inv env st p Es (He st Es)) as (p' & E & I' & S' & N' & _); [intros ms; by apply inv_managed|done..|].
    exists p'. split; [done|]. split; [done|apply S'|by auto].
  - exists p. unfold resetState. rewrite Es. split; [done|by apply kept_refl].
Qed.
(** ** Reading the lists, which caches their order *)

Lemma flatten_all_ok (m : gmap Address txList) b : (forall a l, m !! a = Some l -> lwf l /\ strict l = b) ->
  (forall a, (flatten_all m).1 !! a = lview <$> m !! a) /\
  (forall a l', (flatten_all m).2 !! a = Some l' -> lwf l' /\ strict l' = b /\ exists l, m !! a = Some l /\ lview l' = lview l).
Proof.
  intros Hm. split; intros a; [|intros l']; unfold flatten_all; cbn [fst snd]; rewrite lookup_fmap; destruct (m !! a) as [l|] eqn:E; try done;
    cbn [fmap option_fmap option_map]; destruct (Hm a l E) as [L S]; destruct (list_Flatten_ok l L) as (k & -> & Lk & Sk & Vk); cbn [fst snd]; [done|].
  intros [= <-]. split_and!; [done|congruence|]. by exists l.
Qed.
Lemma flatten_has (m : gmap Address txList) b a x : (forall a l, m !! a = Some l -> lwf l /\ strict l = b) -> has (flatten_all m).2 a x -> has m a x.
Proof. intros Hm (l' & E & Hx). destruct (proj2 (flatten_all_ok m b Hm) a l' E) as (_ & _ & l & El & V). exists l. by rewrite <- V. Qed.
Lemma flatten_kept p p' : inv p -> config p' = config p -> signer p' = signer p -> all p' = all p -> priced p' = priced p -> pendingState p' = pendingState p ->
  pending p' = (flatten_all (pending p)).2 -> queue p' = queue p \/ queue p' = (flatten_all (queue p)).2 -> kept p p'.
Proof.
  intros I E0 E1 E2 E3 E4 Ep Eq. destruct (flatten_all_ok (pending p) true (i_pending _ I)) as [_ Hp]. destruct (flatten_all_ok (queue p) false (i_queue _ I)) as [_ Hq].
  split; [|done|].
  - apply (inv_shrink p); try done; [..| |].
    + intros a l. rewrite Ep. intros El. by destruct (Hp a l El) as (? & ? & _).
    + intros a l. destruct Eq as [->| ->]; [apply I|]. intros El. by destruct (Hq a l El) as (? & ? & _).
    + intros a x. rewrite Ep. apply (flatten_has _ true), I.
    + intros a x. destruct Eq as [->| ->]; [done|]. apply (flatten_has _ false), I.
  - intros _ Hn a l. rewrite Ep. intros El. destruct (Hp a l El) as (_ & _ & l0 & E & ->). by eapply Hn.
Qed.
End ops.
End TxPoolOps.
