(* ===== verification/TxPoolThms.v ===== *)
(** * The transaction pool: theorems

    The states a pool can reach, what holds in all of them, the limits that a reset establishes, and
    where the pool falls short of what its comments say. *)

From stdpp Require Import sorting.
From S2P Require Import Prelude GoMath Params World State VmBase Demo Transition Heap Types Transactions TxList TxListFacts TxListThms TxPriced TxPricedThms Prque ManagedState TxPool TxPoolInv TxPoolLimits TxPoolOps.

Module TxPoolThms.
Import Types Transactions TxList TxListFacts TxListThms TxPriced ManagedState TxPool TxPoolInv TxPoolLimits TxPoolOps.

(** ** The operations of a pool, and the pools they reach *)

Inductive op :=
| OpAdd (env : Env) (tx : Transaction)
| OpAddBatch (env : Env) (txs : list Transaction)
| OpRemove (hash : Hash)
| OpRemoveBatch (txs : list Transaction)
| OpSetGasPrice (price : Z)
| OpSetLocal (env : Env) (tx : Transaction)
| OpContent
| OpPending
| OpChainHead (chainconfig : ChainConfig) (env : Env) (number : option Z)
| OpRemovedTransactions (env : Env) (txs : list Transaction)
| OpExpire (env : Env).

Section pool.
Context `{CP : CryptoPrims} `{GO : GoOrder}.

Definition run (o : op) (p : TxPool) : option TxPool :=
  match o with
  | OpAdd env tx => r ← Add env tx p; Some r.2
  | OpAddBatch env txs => r ← AddBatch env txs p; Some r.2
  | OpRemove hash => pool_Remove hash p
  | OpRemoveBatch txs => RemoveBatch txs p
  | OpSetGasPrice price => SetGasPrice price p
  | OpSetLocal env tx => Some (SetLocal env tx p)
  | OpContent => Some (Content p).2
  | OpPending => Some (Pending p).2
  | OpChainHead chainconfig env number => on_ChainHead chainconfig env number p
  | OpRemovedTransactions env txs => on_RemovedTransactions env txs p
  | OpExpire env => expire_tick env p
  end.

(** Nonces are 64-bit integers, states are as the state database makes them, and the pool has fewer
    transactions than a [float32] can count. *)
Definition room (k : Z) (p : TxPool) : Prop := Z.of_nat (size (all p)) + k < 2 ^ 24.
Definition op_ok (p : TxPool) (o : op) : Prop :=
  match o with
  | OpAdd _ tx => in_u64 (AccountNonce tx) /\ room 1 p
  | OpAddBatch _ txs | OpRemovedTransactions _ txs => Forall (fun tx => in_u64 (AccountNonce tx)) txs /\ room (zlen txs) p
  | OpChainHead _ env _ => env_ok env /\ room 0 p
  | _ => True
  end.

Inductive reachable (conf : TxPoolConfig) (chainconfig : ChainConfig) (env : Env) : TxPool -> Prop :=
| reach_new p : NewTxPool conf chainconfig env = Some p -> reachable conf chainconfig env p
| reach_run p o p' : reachable conf chainconfig env p -> op_ok p o -> run o p = Some p' -> reachable conf chainconfig env p'.

Context {GOK : GoOrderOK}.

Lemma run_kept p o : inv p -> config_ok (config p) -> op_ok p o -> exists p', run o p = Some p' /\ kept p p'.
Proof.
  intros I Hc Ho. destruct o as [env tx|env ts|hash|ts|price|env tx| | |chainconfig env number|env ts|env]; cbn [run op_ok] in *; unfold room in *.
  - destruct Ho as [Hn Hr]. destruct (Add_kept env tx p I Hc Hn Hr) as (e & p' & -> & K). by exists p'.
  - destruct Ho as [Hn Hr]. destruct (AddBatch_kept env ts p I Hc Hn Hr) as (e & p' & -> & K). by exists p'.
  - apply (remove_all_kept p [hash]) in I as (p' & E & K). exists p'. split; [|done]. cbn [remove_all] in E. unfold pool_Remove. by destruct (removeTx hash p).
  - by apply remove_all_kept.
  - by apply SetGasPrice_kept.
  - eexists. split; [done|]. split; [by apply (inv_same p)|done|done].
  - eexists. split; [done|]. apply flatten_kept; try done. by right.
  - eexists. split; [done|]. apply flatten_kept; try done. by left.
  - destruct Ho as [He Hr]. unfold on_ChainHead. set (p0 := match number with Some _ => _ | None => _ end).
    assert (kept p p0 /\ all p0 = all p) as [K0 Ea].
    { assert (kept p (set_homestead true p)) by (split; [by apply (inv_same p)|done|done]).
      unfold p0. destruct number as [n|]; [destruct (IsHomestead chainconfig n)|]; split; try done; by apply kept_refl. }
    destruct (resetState_kept env p0) as (p' & -> & K); [apply K0|by rewrite (kp_config _ _ K0)|done|rewrite Ea; lia|].
    exists p'. split; [done|]. by eapply kept_trans.
  - destruct Ho as [Hn Hr]. unfold on_RemovedTransactions. destruct (AddBatch_kept env ts p I Hc Hn Hr) as (e & p' & -> & K). by exists p'.
  - by apply expire_tick_kept.
Qed.
Lemma NewTxPool_ok conf chainconfig env st : currentState env = Some st -> state_ok st -> config_ok conf ->
  exists p, NewTxPool conf chainconfig env = Some p /\ inv p /\ config p = sanitize conf /\ (1 <= AccountSlots conf -> no_empty p).
Proof.
  intros Es Hst Hc. destruct (resetState_inv env st (mkPool (sanitize conf) (NewEIP155Signer (Params.ChainId chainconfig)) None (PriceLimit (sanitize conf))
    newTxSet ∅ ∅ ∅ ∅ newTxPricedList false) Es Hst) as (p & E & I & S & N & _); [|done|done|exists p; split_and!; [done..|apply S|done]].
  intros ms W. assert (forall a x, ~ has ∅ a x) as He by (intros a x (l & E & _); by rewrite lookup_empty in E).
  split; try (intros a l E; cbn [pending queue all set_managed] in E; by rewrite lookup_empty in E).
  - by intros a tx [Hx|Hx]; apply He in Hx.
  - by intros a tx tx' Hx; apply He in Hx.
  - intros m Hm. cbn in Hm. lia.
  - by exists ms.
Qed.
Lemma reachable_kept conf chainconfig env st p : currentState env = Some st -> state_ok st -> config_ok conf -> reachable conf chainconfig env p ->
  inv p /\ config p = sanitize conf /\ (1 <= AccountSlots conf -> no_empty p).
Proof.
  intros Es Hst Hc R. induction R as [p E|p o p' R IH Ho E].
  - destruct (NewTxPool_ok conf chainconfig env st Es Hst Hc) as (p' & E' & H). rewrite E in E'. by injection E' as <-.
  - destruct IH as (I & Ec & N). destruct (run_kept p o I) as (p'' & E' & [K1 K2 K3]); [by rewrite Ec|done|]. rewrite E in E'. injection E' as <-.
    rewrite Ec in *. by split_and!; auto.
Qed.

(** The first pending transaction of an account is removed: what follows it leaves the pending list and
    is not queued either. *)
Lemma remove_first p a l tx rest : inv p -> pending p !! a = Some l -> lview l = tx :: rest ->
  exists p', removeTx (tx_Hash tx) p = Some p' /\ pending p' = delete a (pending p) /\ queue p' = queue p /\ all p' = delete (tx_Hash tx) (all p).
Proof.
  intros I El Ev. destruct (i_pending _ I _ _ El) as [L S]. assert (has (pending p) a tx) as Htx by (apply (has_at _ _ _ _ El); rewrite Ev; by left).
  destruct (i_all _ I a tx ltac:(by left)) as [Ea Ef]. apply (i_hash _ I) in Ea as Hn. destruct Hn as [_ Hn]. unfold removeTx. rewrite Ea, Ef.
  change (pending (forget _ p)) with (pending p). rewrite El. destruct (list_Remove_ok tx l L) as (invalids & l' & -> & L' & S' & V). cbn [mbind option_bind].
  rewrite bool_decide_true in * by (exists tx; by apply (Get_has (pending p) a)). rewrite S in V. cbn [andb] in V. destruct V as [_ V].
  assert (Empty l' = true) as ->.
  { apply Empty_lview. rewrite V, Ev. assert (StronglySorted nonce_lt (tx :: rest)) as [_ Hs]%StronglySorted_inv by (rewrite <- Ev; apply view_strict, L).
    rewrite filter_cons, decide_False by lia. apply filter_none. intros x Hx. rewrite Forall_forall in Hs. specialize (Hs x Hx). unfold nonce_lt in Hs. lia. }
  unfold lower_nonce. destruct (i_managed _ I) as (ms & Em & W). cbn [pendingState upd_beats upd_pending forget set_priced upd_all]. rewrite Em. cbn [mbind option_bind].
  destruct (ms_GetNonce a ms) as [k ms']. eexists. split; [done|]. cbn. split_and!; [apply delete_insert_eq|done|done].
Qed.
End pool.

(** ** A pool to compute with

    The sender of a transaction is the first byte of its [R]. *)

Definition byte_prims : CryptoPrims := {|
  Keccak256Hash := mix_digest;
  EcrecoverPub := fun _ sig => match sig with [] => None | b :: _ => Some (Byte.x04 :: replicate 64 b) end;
  Sha256 := fun d => be_bytes 32 (mix_digest d);
  Ripemd160 := fun d => be_bytes 20 (mix_digest d) |}.
Definition demo_tx (sender nonce price : Z) : Transaction := mkTransaction nonce price 21000 (Some 1) 0 [] 27 (sender * 2 ^ 248 + 1) 1.
Definition demo_from (sender : Z) : Address := match @Sender byte_prims HomesteadSigner (demo_tx sender 0 0) with GOk a => a | _ => 0 end.
Definition rich (sender : Z) (s : State.StateDB) : State.StateDB := @State.AddBalance byte_prims (demo_from sender) (10 ^ 18) s.
Definition demo_state : State.StateDB := Eval vm_compute in rich 2 (rich 1 empty_state).
Definition demo_env : Env := mkEnv (Some demo_state) 4712388 1000.
Definition demo_chain : ChainConfig := mkChainConfig (Some 1) (Some 0) None false (Some 0) 0 (Some 0) (Some 0) None.
Definition demo_adds (conf : TxPoolConfig) (l : list Transaction) : option TxPool :=
  p ← @NewTxPool byte_prims plain_order conf demo_chain demo_env;
  foldl (fun p tx => p ← p; r ← @Add byte_prims plain_order demo_env tx p; Some r.2) (Some p) l.

Lemma demo_state_ok : state_ok demo_state.
Proof.
  assert (forall a o, State.stateObjects demo_state !! a = Some o -> State.so_address o = a /\ a ∈ State.stateObjectsDirty demo_state /\ in_u64 (State.Nonce (State.so_data o))) as Ho.
  { intros a o E%elem_of_map_to_list. revert a o E. cut (Forall (fun q => State.so_address q.2 = q.1 /\ q.1 ∈ State.stateObjectsDirty demo_state /\ in_u64 (State.Nonce (State.so_data q.2)))
      (map_to_list (State.stateObjects demo_state))); [rewrite Forall_forall; intros F a o E; exact (F (a, o) E)|].
    unfold in_u64. apply (bool_decide_unpack _). vm_compute. exact I. }
  split_and!.
  - intros a o E. by apply Ho.
  - split; [apply (bool_decide_unpack (State.stateObjectsDirty demo_state ⊆ dom (State.stateObjects demo_state))); vm_compute; exact I|]. intros a o E Hn. by destruct (Ho a o E) as (_ & ? & _).
  - intros a. unfold state_nonce. destruct (State.stateObjects demo_state !! a) as [o|] eqn:E.
    + destruct (State.so_deleted o); [done|]. by apply (Ho a o).
    + assert (State.trie demo_state !! a = None) as -> by exact (lookup_empty (M := gmap Address) (A := State.Account) a). done.
Qed.

(** A pool with two pending transactions of one account *)
Definition blank_pool : TxPool := mkPool DefaultTxPoolConfig HomesteadSigner None 0 newTxSet ∅ ∅ ∅ ∅ newTxPricedList false.
Definition demo_pool (l : list Transaction) : TxPool := default blank_pool (demo_adds DefaultTxPoolConfig l).
Definition demo_pool0 : TxPool := Eval vm_compute in demo_pool [].
Definition demo_pool1 : TxPool := Eval vm_compute in demo_pool [demo_tx 1 0 1].
Definition demo_pool2 : TxPool := Eval vm_compute in demo_pool [demo_tx 1 0 1; demo_tx 1 1 1].
Lemma demo_config_ok : config_ok DefaultTxPoolConfig.
Proof. unfold config_ok. cbn. lia. Qed.
Lemma demo_reach : @reachable byte_prims plain_order DefaultTxPoolConfig demo_chain demo_env demo_pool2.
Proof.
  apply (reach_run _ _ _ demo_pool1 (OpAdd demo_env (demo_tx 1 1 1))); [|split; vm_compute; split; congruence|vm_compute; reflexivity].
  apply (reach_run _ _ _ demo_pool0 (OpAdd demo_env (demo_tx 1 0 1))); [|split; vm_compute; split; congruence|vm_compute; reflexivity].
  apply reach_new. vm_compute. reflexivity.
Qed.
Lemma demo_pool2_inv : @inv byte_prims demo_pool2.
Proof. by apply (@reachable_kept byte_prims plain_order plain_order_ok DefaultTxPoolConfig demo_chain demo_env demo_state demo_pool2 eq_refl demo_state_ok demo_config_ok demo_reach). Qed.

(** ** Properties *)

(** C5: No operation of the pool panics, in whatever order the operations, the chain events and the
    expiry ticks come: every pool that is reached from a new one has the invariant (each account has one
    transaction per nonce over its two lists, the pending lists are strict, every listed transaction is known
    under its hash and belongs to the account it is listed under, the price heap is a heap, and the managed
    nonces are sound), keeps its pending lists nonempty, and the next operation succeeds. *)
Theorem pool_never_panics `{CP : CryptoPrims} `{GO : GoOrder} {GOK : GoOrderOK} (conf : TxPoolConfig) (chainconfig : ChainConfig) (env : Env) (st : State.StateDB) (p : TxPool) :
  currentState env = Some st -> state_ok st -> config_ok conf -> reachable conf chainconfig env p ->
  inv p /\ (1 <= AccountSlots conf -> no_empty p) /\ forall o, op_ok p o -> exists p', run o p = Some p'.
Proof.
  intros Es Hst Hc R. destruct (reachable_kept conf chainconfig env st p Es Hst Hc R) as (I & Ec & N). split_and!; [done..|]. intros o Ho.
  destruct (run_kept p o I) as (p' & E & _); [by rewrite Ec|done|by exists p'].
Qed.
Lemma pool_never_panics_witness : @no_empty demo_pool2 /\ exists p', @run byte_prims plain_order (OpRemove 0) demo_pool2 = Some p'.
Proof.
  destruct (@pool_never_panics byte_prims plain_order plain_order_ok DefaultTxPoolConfig demo_chain demo_env demo_state demo_pool2 eq_refl demo_state_ok demo_config_ok demo_reach)
    as (_ & N & R). split; [apply N; cbn; lia|exact (R (OpRemove 0) I)].
Defined.

(** C23: Equalising the pending lists ends, keeps the invariant and the queue, and leaves no more than
    [GlobalSlots] pending transactions, or no account but the spared local ones above [AccountSlots]. *)
Theorem limit_pending_bounds `{CP : CryptoPrims} `{GO : GoOrder} {GOK : GoOrderOK} (p : TxPool) : inv p -> config_ok (config p) -> room 0 p ->
  exists p', limit_pending p = Some p' /\ inv p' /\ queue p' = queue p /\
    (lens (pending p') <= GlobalSlots (config p) \/
     forall a l, pending p' !! a = Some l -> AccountSlots (config p) < Len l -> pending p !! a = Some l /\ is_spam p l = false).
Proof.
  intros I Hc Hr. unfold room in Hr. destruct (limit_pending_inv p I Hc) as (p' & E & I' & _ & Q & L & _); [|by exists p'].
  intros a l El. pose proof (Len_all p a l I El). lia.
Qed.
Definition demo_tight : TxPool := mkPool (mkConfig 1 10 1 1 64 1024 1) (signer demo_pool2) (pendingState demo_pool2) 1 (locals demo_pool2)
  (pending demo_pool2) (queue demo_pool2) (beats demo_pool2) (all demo_pool2) (priced demo_pool2) (homestead demo_pool2).
Lemma limit_pending_bounds_witness : lens (pending demo_tight) = 2 /\ exists p', @limit_pending byte_prims plain_order demo_tight = Some p' /\ lens (pending p') = 1.
Proof.
  split; [vm_compute; reflexivity|].
  destruct (@limit_pending_bounds byte_prims plain_order plain_order_ok demo_tight) as (p' & E & _).
  - by apply (inv_same demo_pool2 demo_tight demo_pool2_inv).
  - unfold config_ok. cbn. lia.
  - vm_compute. reflexivity.
  - assert (lens (pending (default blank_pool (@limit_pending byte_prims plain_order demo_tight))) = 1) as Hl by (vm_compute; reflexivity).
    rewrite E in Hl. exact (ex_intro _ p' (conj E Hl)).
Defined.

(** C24: A new head resets the pool: the operation succeeds, keeps the invariant and adds no transaction,
    the queue then holds [GlobalQueue] transactions at most and, if accounts have at least one slot, no
    pending list is empty. *)
Theorem resetState_bounds `{CP : CryptoPrims} `{GO : GoOrder} {GOK : GoOrderOK} (env : Env) (st : State.StateDB) (p : TxPool) :
  inv p -> currentState env = Some st -> state_ok st -> config_ok (config p) -> room 0 p ->
  exists p', resetState env p = Some p' /\ inv p' /\ all p' ⊆ all p /\ (1 <= AccountSlots (config p) -> no_empty p') /\ lens (queue p') <= GlobalQueue (config p).
Proof.
  intros I Es Hst Hc Hr. unfold room in Hr. destruct (resetState_inv env st p Es Hst) as (p' & E & I' & S & N & L); [intros ms; by apply inv_managed|done|lia|].
  exists p'. split_and!; try done. apply S.
Qed.
Lemma resetState_bounds_witness : exists p', @resetState byte_prims plain_order demo_env demo_pool2 = Some p' /\ no_empty p' /\ lens (queue p') <= 1024.
Proof.
  destruct (@resetState_bounds byte_prims plain_order plain_order_ok demo_env demo_state demo_pool2 demo_pool2_inv eq_refl demo_state_ok demo_config_ok)
    as (p' & E & _ & _ & N & L); [vm_compute; reflexivity|]. specialize (N ltac:(cbn; lia)). exact (ex_intro _ p' (conj E (conj N L))).
Defined.

(** C39: Removing the first pending transaction of an account strands the ones after it: they are in
    neither list any more, but still known, so that adding them again is refused. *)
Theorem removeTx_strands `{CP : CryptoPrims} `{GO : GoOrder} {GOK : GoOrderOK} (p : TxPool) (a : Address) (l : txList) (tx : Transaction) (rest : list Transaction) :
  inv p -> pending p !! a = Some l -> lview l = tx :: rest ->
  exists p', removeTx (tx_Hash tx) p = Some p' /\
    forall x, x ∈ rest -> pool_Get (tx_Hash x) p' = Some x /\ (forall c, ~ listed p' c x) /\ forall env, add env x p' = Some (inl errKnown, p').
Proof.
  intros I El Ev. destruct (remove_first p a l tx rest I El Ev) as (p' & E & P' & Q' & A'). exists p'. split; [done|]. intros x Hx.
  assert (forall y, y ∈ lview l -> listed p a y) as Hin by (intros y Hy; left; by apply (has_at _ _ _ _ El)).
  assert (listed p a x) as Hlx by (apply Hin; rewrite Ev; by right). destruct (i_all _ I _ _ Hlx) as [Ea Ef].
  assert (AccountNonce tx < AccountNonce x) as Hlt.
  { assert (StronglySorted nonce_lt (tx :: rest)) as [_ Hs]%StronglySorted_inv by (rewrite <- Ev; apply view_strict, (i_pending _ I a l El)).
    rewrite Forall_forall in Hs. exact (Hs x Hx). }
  assert (all p' !! tx_Hash x = Some x) as Ex.
  { rewrite A', lookup_delete_ne; [done|]. intros Eh. destruct (listed_hash p a a tx x I) as [-> _]; [apply Hin; rewrite Ev; by left|done|done|lia]. }
  split_and!; [done| |intros env; unfold add; by rewrite Ex].
  intros c Hc. unfold listed in Hc. rewrite P', Q' in Hc. rewrite has_delete in Hc. destruct Hc as [[Hne Hc]|Hc].
  - destruct (i_all _ I c x) as [_ Ec]; [by left|]. congruence.
  - destruct (i_all _ I c x) as [_ Ec]; [by right|]. assert (c = a) as -> by congruence. destruct Hlx as [Hp|Hq]; [by apply (i_disjoint _ I a x x)|].
    apply (i_disjoint _ I a x x); [apply (has_at _ _ _ _ El); rewrite Ev; by right|done|done].
Qed.
Lemma removeTx_strands_witness : exists p', @removeTx byte_prims plain_order (@tx_Hash byte_prims (demo_tx 1 0 1)) demo_pool2 = Some p' /\
  pool_Get (@tx_Hash byte_prims (demo_tx 1 1 1)) p' = Some (demo_tx 1 1 1) /\ forall c, ~ listed p' c (demo_tx 1 1 1).
Proof.
  destruct (@removeTx_strands byte_prims plain_order plain_order_ok demo_pool2 (demo_from 1) (default (newTxList true) (pending demo_pool2 !! demo_from 1))
    (demo_tx 1 0 1) [demo_tx 1 1 1] demo_pool2_inv) as (p' & E & Hx); [vm_compute; reflexivity|vm_compute; reflexivity|].
  destruct (Hx (demo_tx 1 1 1)) as (E1 & E2 & _); [by left|]. exact (ex_intro _ p' (conj E (conj E1 E2))).
Defined.

(** With no slots guaranteed to an account, a remote transaction that makes the pool too full leaves
    its account with an empty pending list, and the miner's ordering of the pending transactions panics. *)
Theorem empty_list_panics : exists p, demo_adds (mkConfig 1 10 0 0 64 4 1) [demo_tx 1 0 1] = Some p /\ ~ no_empty p /\
  NewTransactionsByPriceAndNonce (map_to_list (@Pending plain_order p).1) (@Pending plain_order p).1 = None.
Proof.
  set (o := demo_adds _ _). assert (exists p, o = Some p /\ pending p !! demo_from 1 = Some (default (newTxList true) (pending p !! demo_from 1)) /\
    lview (default (newTxList true) (pending p !! demo_from 1)) = [] /\ NewTransactionsByPriceAndNonce (map_to_list (@Pending plain_order p).1) (@Pending plain_order p).1 = None) as (p & E & H1 & H2 & H3).
  { exists (default blank_pool o). vm_compute. by split_and!. }
  exact (ex_intro _ p (conj E (conj (fun N : no_empty p => N _ _ H1 H2) H3))).
Qed.

(** The limit on queued transactions does not hold between resets: adding counts the queued
    transactions of the sender alone, so two senders fill a queue of one. *)
Theorem queue_limit_exceeded : exists p, demo_adds (mkConfig 1 10 16 4096 64 1 1) [demo_tx 1 5 1; demo_tx 2 5 1] = Some p /\
  GlobalQueue (config p) = 1 /\ lens (queue p) = 2.
Proof.
  exists (default blank_pool (demo_adds (mkConfig 1 10 16 4096 64 1 1) [demo_tx 1 5 1; demo_tx 2 5 1])). vm_compute. by split_and!.
Qed.

(** The pool accepts exactly the transactions that are priced high enough or local, whose
    sender can be derived and has not used the nonce, that fit the block's gas limit, move no negative amount, are
    paid for by the sender's balance, cover their intrinsic gas, and are at most 32 KB. *)
Theorem validateTx_exact `{CryptoPrims} (env : Env) (tx : Transaction) (p : TxPool) :
  validateTx env tx p = GOk tt <->
  (contains (tx_Hash tx) (locals p) = true \/ gasPrice p <= Price tx) /\
  exists st from, currentState env = Some st /\ Sender (signer p) tx = GOk from /\
    state_GetNonce from st <= AccountNonce tx /\ tx_GasLimit tx <= gasLimit env /\ 0 <= Amount tx /\ Cost tx <= state_GetBalance from st /\
    Transition.IntrinsicGas (Payload tx) (match Recipient tx with None => true | Some _ => false end) (homestead p) <= tx_GasLimit tx /\ Size tx <= 32768.
Proof.
  assert (forall (b : bool) (e : poolError) k, (check b or e; k) = GOk tt <-> b = true /\ k = GOk tt) as Hck by (intros [] e k; cbn; naive_solver).
  unfold validateTx. rewrite Hck. destruct (contains _ _); cbn [negb andb]; rewrite ?Z.gtb_ltb, ?negb_true_iff, ?Z.ltb_ge.
  all: destruct (currentState env) as [st|]; [|naive_solver]; destruct (Sender (signer p) tx) as [from| |]; [|naive_solver..].
  all: rewrite !Hck, !negb_true_iff, !Z.gtb_ltb, !Z.ltb_ge; naive_solver lia.
Qed.
End TxPoolThms.
