(* ===== verification/Bzhash.v ===== *)
(** * [consensus/bzhash]: proof of work

    The rules of [consensus.go] for headers, difficulties, uncles and rewards, the seal over the
    function of [algorithm.go], the miner's search ([sealer.go]), the caches and datasets kept in
    memory and on disk ([bzhash.go]), and the miner's choice of a gas limit
    ([core/block_validator.go]).  What the system returns (the clock, the content of files, the
    order of Go's map iteration, the order in which threads finish) is an argument. *)

From stdpp Require Import strings.
From S2P Require Import Prelude GoMath Params World Rlp Types Misc Hashimoto HashimotoSizes.

Module Bzhash.
Local Open Scope Z_scope.
Import Types Misc Hashimoto HashimotoSizes.

Inductive bzhashError :=
| errLargeBlockTime | errZeroBlockTime | errTooManyUncles | errDuplicateUncle | errUncleIsAncestor
| errDanglingUncle | errNonceOutOfRange | errInvalidDifficulty | errInvalidMixDigest | errInvalidPoW
| ErrUnknownAncestor | ErrFutureBlock | ErrInvalidNumber
| errExtraTooLong | errDifficultyMismatch | errGasLimitTooHigh | errGasUsed | errGasLimit
| errMisc (e : miscError)
| errNoFile | ErrInvalidDumpMagic | errNotWritten.
Notation result := (gores bzhashError).

Definition blockReward : Z := 5 * 10 ^ 18.
Definition maxUncles : Z := 2.
(** The comment in the source says [2 ^ 256 - 1]. *)
Definition maxUint256 : Z := 2 ^ 256.
Definition MaxBig63 : Z := 2 ^ 63 - 1.
Definition MaxBig256 : Z := 2 ^ 256 - 1.

(** The fields of the engine that its rules depend on. *)
Inductive Bzhash := mkBzhash {
  cachedir : string;
  cachesinmem : Z;
  dagdir : string;
  dagsinmem : Z;
  tester : bool;
  fakeMode : bool;
  fakeFull : bool;
  fakeFail : Z;
  shared : option Bzhash;
}.
Definition New (cachedir : string) (cachesinmem : Z) (dagdir : string) (dagsinmem : Z) : Bzhash :=
  let cachesinmem := if cachesinmem <=? 0 then 1 else cachesinmem in
  mkBzhash cachedir cachesinmem dagdir dagsinmem false false false 0 None.
Definition NewTester : Bzhash := mkBzhash EmptyString 1 EmptyString 0 true false false 0 None.
Definition NewFaker : Bzhash := mkBzhash EmptyString 0 EmptyString 0 false true false 0 None.
Definition NewFakeFailer (fail : Z) : Bzhash := mkBzhash EmptyString 0 EmptyString 0 false true false fail None.
Definition NewFullFaker : Bzhash := mkBzhash EmptyString 0 EmptyString 0 false true true 0 None.
Definition sharedBzhash : Bzhash := New EmptyString 3 EmptyString 1.
Definition NewShared : Bzhash := mkBzhash EmptyString 0 EmptyString 0 false false false 0 (Some sharedBzhash).

Record Block := mkBlock { b_header : Header; Uncles : list Header }.
(** [consensus.ChainReader] and the clock *)
Record Chain := mkChain {
  Config : ChainConfig;
  GetHeader : Hash -> Z -> option Header;
  GetBlock : Hash -> Z -> option Block;
  Now : Z;
}.

(** ** Difficulty *)

Definition expDiffPeriod : Z := 100000.

Definition calcDifficultyHomestead (time : Z) (parent : Header) : Z :=
  let x := 1 - (time - Time parent) / 10 in
  let x := if x <? -99 then -99 else x in
  let y := Difficulty parent / DifficultyBoundDivisor in
  let x := Difficulty parent + y * x in
  let x := if x <? MinimumDifficulty then MinimumDifficulty else x in
  let periodCount := (Number parent + 1) / expDiffPeriod in
  if periodCount >? 1 then x + 2 ^ (periodCount - 2) else x.

Definition calcDifficultyFrontier (time : Z) (parent : Header) : Z :=
  let adjust := Difficulty parent / DifficultyBoundDivisor in
  let diff := if time - Time parent <? DurationLimit then Difficulty parent + adjust else Difficulty parent - adjust in
  let diff := if diff <? MinimumDifficulty then MinimumDifficulty else diff in
  let periodCount := (Number parent + 1) / expDiffPeriod in
  if periodCount >? 1 then BigMax (diff + 2 ^ (periodCount - 2)) MinimumDifficulty else diff.

Definition CalcDifficulty (config : ChainConfig) (time : Z) (parent : Header) : Z :=
  let next := Number parent + 1 in
  if IsHomestead config next then calcDifficultyHomestead time parent else calcDifficultyFrontier time parent.

Section engine.
Context `{CryptoPrims}.
Variable Keccak512 : list byte -> list byte.
Variable little : bool.
(** [big.Int.ProbablyPrime] and enough rounds of the search for a prime. *)
Variables (prime : Z -> bool) (fuel : nat).

(** ** Seals *)

Definition of_option {A} (x : option A) : result A := match x with Some a => GOk a | None => GPanic end.

(** The file of an epoch: its words when it can be opened and mapped, and whether a new one can
    be written. *)
Record Disk := mkDisk { file : option (list Z); writable : bool }.
Definition dumpMagic : list Z := [0xbaddcafe; 0xfee1dead].

(** The words of a file are compared with [dumpMagic]: a shorter file panics. *)
Fixpoint skip_magic (magic buffer : list Z) : result (list Z) :=
  match magic, buffer with
  | [], _ => GOk buffer
  | _ :: _, [] => GPanic
  | m :: magic', w :: buffer' => if w =? m then skip_magic magic' buffer' else GErr ErrInvalidDumpMagic
  end.
Definition memoryMap (file : option (list Z)) : result (list Z) :=
  match file with Some buffer => skip_magic dumpMagic buffer | None => GErr errNoFile end.
(** [generator] is what the generator writes; the new file is mapped again. *)
Definition memoryMapAndGenerate (disk : Disk) (generator : result (list Z)) : result (list Z) :=
  if writable disk then let+ data := generator in memoryMap (Some (dumpMagic ++ data))
  else GErr errNotWritten.
(** The value of [x], or of [k] when [x] is an error. *)
Definition or_else {A} (x k : result A) : result A := match x with GErr _ => k | _ => x end.

Definition make_cache (size : Z) (seed : list byte) : result (list Z) :=
  of_option (generateCache Keccak512 little (Z.to_nat (size / 4)) seed).
Definition cache_generate (disk : Disk) (dir : string) (test : bool) (epoch : Z) : result (list Z) :=
  let block := u64 (epoch * epochLength + 1) in
  if test then make_cache 1024 (seedHash block)
  else
    let+ size := of_option (cacheSize fuel prime block) in
    let seed := seedHash block in
    if bool_decide (dir = EmptyString) then make_cache size seed
    else or_else (memoryMap (file disk))
           (or_else (memoryMapAndGenerate disk (make_cache size seed)) (make_cache size seed)).

(** [schedule] is the order in which the threads of [generateDataset] produce the items, given
    the number of words. *)
Definition make_dataset (schedule : nat -> list Z) (words : Z) (cache : list Z) : result (list Z) :=
  of_option (generateDataset Keccak512 little (Z.to_nat words) cache (schedule (Z.to_nat words))).
(** Without a directory the dataset is generated, and then again for the file. *)
Definition dataset_generate (schedule : nat -> list Z) (disk : Disk) (dir : string) (test : bool) (epoch : Z)
    : result (list Z) :=
  let block := u64 (epoch * epochLength + 1) in
  if test then
    let+ cache := make_cache 1024 (seedHash block) in
    make_dataset schedule (32 * 1024 / 4) cache
  else
    let+ csize := of_option (cacheSize fuel prime block) in
    let+ dsize := of_option (datasetSize fuel prime block) in
    let seed := seedHash block in
    let+ _ := (if bool_decide (dir = EmptyString) then
                 let+ cache := make_cache csize seed in make_dataset schedule (dsize / 4) cache
               else GOk []) in
    or_else (memoryMap (file disk))
      (let+ cache := make_cache csize seed in
       or_else (memoryMapAndGenerate disk (make_dataset schedule (dsize / 4) cache))
         (make_dataset schedule (dsize / 2) cache)).

(** What [Bzhash.cache] and [Bzhash.dataset] return for a block: the slot of its epoch (see
    [acquire]), generated. *)
Variables (cacheDisk dagDisk : Z -> Disk).
Definition cache (bzhash : Bzhash) (block : Z) : result (list Z) :=
  let epoch := block / epochLength in
  cache_generate (cacheDisk epoch) (cachedir bzhash) (tester bzhash) epoch.
Definition dataset (schedule : nat -> list Z) (bzhash : Bzhash) (block : Z) : result (list Z) :=
  let epoch := block / epochLength in
  dataset_generate schedule (dagDisk epoch) (dagdir bzhash) (tester bzhash) epoch.

Fixpoint VerifySeal (bzhash : Bzhash) (header : Header) {struct bzhash} : result unit :=
  if fakeMode bzhash then guard (negb (fakeFail bzhash =? Uint64 (Number header))) errInvalidPoW
  else
    match shared bzhash with
    | Some s => VerifySeal s header
    | None =>
        let number := Uint64 (Number header) in
        check negb (number / epochLength >=? zlen cacheSizes) or errNonceOutOfRange;
        check negb (Difficulty header <=? 0) or errInvalidDifficulty;
        let+ cache := cache bzhash number in
        let+ size := of_option (if tester bzhash then Some (32 * 1024) else datasetSize fuel prime number) in
        let+ (digest, res) := of_option (hashimotoLight Keccak512 size cache (be_bytes 32 (HashNoNonce header)) (SetBytes (Nonce header))) in
        check bool_decide (be_bytes 32 (MixDigest header) = digest) or errInvalidMixDigest;
        let target := maxUint256 / Difficulty header in
        guard (negb (SetBytes res >? target)) errInvalidPoW
    end.

(** ** Headers *)

Definition of_misc (x : gores miscError unit) : result unit :=
  match x with GOk u => GOk u | GErr e => GErr (errMisc e) | GPanic => GPanic end.

Definition verifyHeader (bzhash : Bzhash) (chain : Chain) (header parent : Header) (uncle seal : bool) : result unit :=
  check negb (zlen (Extra header) >? MaximumExtraDataSize) or errExtraTooLong;
  check negb (if uncle then Time header >? MaxBig256 else Time header >? Now chain)
    or (if uncle then errLargeBlockTime else ErrFutureBlock);
  check negb (Time header <=? Time parent) or errZeroBlockTime;
  let expected := CalcDifficulty (Config chain) (Uint64 (Time header)) parent in
  check expected =? Difficulty header or errDifficultyMismatch;
  check negb (GasLimit header >? MaxBig63) or errGasLimitTooHigh;
  check negb (GasUsed header >? GasLimit header) or errGasUsed;
  let diff := Z.abs (GasLimit parent - GasLimit header) in
  let limit := GasLimit parent / GasLimitBoundDivisor in
  check negb ((diff >=? limit) || (GasLimit header <? MinGasLimit)) or errGasLimit;
  check Number header - Number parent =? 1 or ErrInvalidNumber;
  let+ _ := (if seal then VerifySeal bzhash header else GOk tt) in
  let+ _ := of_misc (VerifyDAOHeaderExtraData (Config chain) header) in
  of_misc (VerifyForkHashes (Config chain) header uncle).

Definition VerifyHeader (bzhash : Bzhash) (chain : Chain) (header : Header) (seal : bool) : result unit :=
  if fakeFull bzhash then GOk tt
  else
    let number := Uint64 (Number header) in
    match GetHeader chain (header_Hash header) number with
    | Some _ => GOk tt
    | None =>
        match GetHeader chain (ParentHash header) (u64 (number - 1)) with
        | None => GErr ErrUnknownAncestor
        | Some parent => verifyHeader bzhash chain header parent false seal
        end
    end.

(** The result of a worker for the header at [index] of a batch. *)
Definition verifyHeaderWorker (bzhash : Bzhash) (chain : Chain) (headers : list Header) (seals : list bool) (index : nat)
    : result unit :=
  let+ header := of_option (headers !! index) in
  let parent :=
    match index with
    | O => GetHeader chain (ParentHash header) (u64 (Uint64 (Number header) - 1))
    | S prev =>
        match headers !! prev with
        | Some p => if header_Hash p =? ParentHash header then Some p else None
        | None => None
        end
    end in
  match parent with
  | None => GErr ErrUnknownAncestor
  | Some parent =>
      match GetHeader chain (header_Hash header) (Uint64 (Number header)) with
      | Some _ => GOk tt
      | None =>
          let+ seal := of_option (seals !! index) in
          verifyHeader bzhash chain header parent false seal
      end
  end.
(** The collector of [VerifyHeaders]: [checked] are the finished indices, [out] the next result to
    send.  It sends every result that is ready, in order, and stops after the last one; [n] bounds
    the number of rounds of the inner loop. *)
Fixpoint send_ready (n : nat) (errors : nat -> result unit) (len : nat) (checked : gset nat) (out : nat)
    (sent : list (result unit)) : nat * list (result unit) * bool :=
  match n with
  | O => (out, sent, false)
  | S n' =>
      if bool_decide (out ∈ checked) then
        let sent := sent ++ [errors out] in
        if (out =? len - 1)%nat then (out, sent, true) else send_ready n' errors len checked (S out) sent
      else (out, sent, false)
  end.
(** [order] is the order in which the workers finish. *)
Fixpoint collect (order : list nat) (errors : nat -> result unit) (len : nat) (checked : gset nat) (out : nat)
    (sent : list (result unit)) : list (result unit) * bool :=
  match order with
  | [] => (sent, false)
  | index :: order' =>
      let checked := {[index]} ∪ checked in
      let '(out, sent, finished) := send_ready (S len) errors len checked out sent in
      if finished then (sent, true) else collect order' errors len checked out sent
  end.
(** The results that are sent, and whether the collector is done. *)
Definition VerifyHeaders (bzhash : Bzhash) (chain : Chain) (headers : list Header) (seals : list bool) (order : list nat)
    : list (result unit) * bool :=
  if fakeFull bzhash || (length headers =? 0)%nat then (map (fun _ => GOk tt) headers, true)
  else collect order (verifyHeaderWorker bzhash chain headers seals) (length headers) ∅ 0 [].

(** ** Uncles *)

(** The uncles and the headers of the last [n] ancestors. *)
Fixpoint gather_ancestors (n : nat) (chain : Chain) (parent : Hash) (number : Z)
    (uncles : gset Hash) (ancestors : gmap Hash Header) : gset Hash * gmap Hash Header :=
  match n with
  | O => (uncles, ancestors)
  | S n' =>
      match GetBlock chain parent number with
      | None => (uncles, ancestors)
      | Some a =>
          gather_ancestors n' chain (ParentHash (b_header a)) (u64 (number - 1))
            (list_to_set (map header_Hash (Uncles a)) ∪ uncles)
            (<[header_Hash (b_header a) := b_header a]> ancestors)
      end
  end.

Fixpoint verify_uncles (bzhash : Bzhash) (chain : Chain) (block : Block) (ancestors : gmap Hash Header)
    (uncles : gset Hash) (us : list Header) : result unit :=
  match us with
  | [] => GOk tt
  | uncle :: us' =>
      let hash := header_Hash uncle in
      check negb (bool_decide (hash ∈ uncles)) or errDuplicateUncle;
      check bool_decide (ancestors !! hash = None) or errUncleIsAncestor;
      match ancestors !! ParentHash uncle with
      | None => GErr errDanglingUncle
      | Some parent =>
          check negb (ParentHash uncle =? ParentHash (b_header block)) or errDanglingUncle;
          let+ _ := verifyHeader bzhash chain uncle parent true true in
          verify_uncles bzhash chain block ancestors ({[hash]} ∪ uncles) us'
      end
  end.

Definition VerifyUncles (bzhash : Bzhash) (chain : Chain) (block : Block) : result unit :=
  if fakeFull bzhash then GOk tt
  else
    check negb (zlen (Uncles block) >? maxUncles) or errTooManyUncles;
    let '(uncles, ancestors) :=
      gather_ancestors 7 chain (ParentHash (b_header block)) (u64 (Uint64 (Number (b_header block)) - 1)) ∅ ∅ in
    let hash := header_Hash (b_header block) in
    verify_uncles bzhash chain block (<[hash := b_header block]> ancestors) ({[hash]} ∪ uncles) (Uncles block).

(** ** Making blocks *)

Definition set_difficulty (d : Z) (h : Header) : Header :=
  mkHeader (ParentHash h) (UncleHash h) (Coinbase h) (Root h) (TxHash h) (ReceiptHash h) (Bloom h) d
    (Number h) (GasLimit h) (GasUsed h) (Time h) (Extra h) (MixDigest h) (Nonce h).
Definition set_seal (mix : Hash) (nonce : BlockNonce) (h : Header) : Header :=
  mkHeader (ParentHash h) (UncleHash h) (Coinbase h) (Root h) (TxHash h) (ReceiptHash h) (Bloom h) (Difficulty h)
    (Number h) (GasLimit h) (GasUsed h) (Time h) (Extra h) mix nonce.

Definition Prepare (chain : Chain) (header : Header) : result Header :=
  match GetHeader chain (ParentHash header) (u64 (Uint64 (Number header) - 1)) with
  | None => GErr ErrUnknownAncestor
  | Some parent => GOk (set_difficulty (CalcDifficulty (Config chain) (Uint64 (Time header)) parent) header)
  end.

(** The search for a nonce, for [attempts] rounds: no block when it is aborted before. *)
Fixpoint mine_loop (attempts : nat) (header : Header) (dataset : list Z) (target nonce : Z) : result (option Header) :=
  match attempts with
  | O => GOk None
  | S attempts' =>
      let+ (digest, res) := of_option (hashimotoFull Keccak512 dataset (be_bytes 32 (HashNoNonce header)) nonce) in
      if SetBytes res <=? target then GOk (Some (set_seal (BytesToHash digest) (be_bytes 8 nonce) header))
      else mine_loop attempts' header dataset target (u64 (nonce + 1))
  end.
(** [big.Int.Div]: the remainder is not negative. *)
Definition bigDiv (x y : Z) : Z := Z.sgn y * (x / Z.abs y).
Definition mine (bzhash : Bzhash) (schedule : nat -> list Z) (attempts : nat) (header : Header) (seed : Z)
    : result (option Header) :=
  if Difficulty header =? 0 then GPanic   (* division by zero *)
  else
    let target := bigDiv maxUint256 (Difficulty header) in
    let+ dataset := dataset schedule bzhash (Uint64 (Number header)) in
    mine_loop attempts header dataset target seed.

(** What [Seal] waits for: the outside stops it, a thread that started from [seed] reports a block
    in its [attempts]-th round, or the number of threads is changed. *)
Inductive sealEvent := Stop | Found (seed : Z) (attempts : nat) | Update.
Fixpoint seal_wait (bzhash : Bzhash) (schedule : nat -> list Z) (header : Header) (events : list sealEvent)
    : result (option Header) :=
  match events with
  | [] | Stop :: _ => GOk None
  | Found seed attempts :: _ => mine bzhash schedule attempts header seed
  | Update :: events' => seal_wait bzhash schedule header events'
  end.
Fixpoint Seal (bzhash : Bzhash) (schedule : nat -> list Z) (header : Header) (events : list sealEvent) {struct bzhash}
    : result (option Header) :=
  if fakeMode bzhash then GOk (Some (set_seal 0 (replicate 8 Byte.x00) header))
  else
    match shared bzhash with
    | Some s => Seal s schedule header events
    | None => seal_wait bzhash schedule header events
    end.

(** ** Rewards *)

Section rewards.
Context {S : Type} `{StateDBI S}.

Definition uncle_reward (header uncle : Header) : Z := ((Number uncle + 8) - Number header) * blockReward / 8.

Fixpoint reward_uncles (header : Header) (uncles : list Header) (reward : Z) (state : S) : Z * S :=
  match uncles with
  | [] => (reward, state)
  | uncle :: uncles' =>
      let state := AddBalance (Coinbase uncle) (uncle_reward header uncle) state in
      reward_uncles header uncles' (reward + blockReward / 32) state
  end.
Definition AccumulateRewards (state : S) (header : Header) (uncles : list Header) : S :=
  let '(reward, state) := reward_uncles header uncles blockReward state in
  AddBalance (Coinbase header) reward state.

(** The state and the header of the block that [Finalize] returns.  [IntermediateRoot] gives the
    root of the state; the roots of the transactions and receipts and the bloom filter are
    given. *)
Definition Finalize (IntermediateRoot : bool -> S -> Hash * S) (config : ChainConfig) (txHash receiptHash : Hash)
    (bloom : list byte) (header : Header) (state : S) (uncles : list Header) : Header * S :=
  let state := AccumulateRewards state header uncles in
  let '(root, state) := IntermediateRoot (IsEIP158 config (Number header)) state in
  (mkHeader (ParentHash header) (CalcUncleHash uncles) (Coinbase header) root txHash receiptHash bloom
    (Difficulty header) (Number header) (GasLimit header) (GasUsed header) (Time header)
    (Extra header) (MixDigest header) (Nonce header), state).
End rewards.
End engine.

(** ** Caches in memory

    The maps [caches] and [datasets] of the engine, with the epoch and the time of the last use of
    their entries, and the epoch of the entry made in advance. *)
Record slot := mkSlot { s_epoch : Z; s_used : Z }.
Record Slots := mkSlots { slots : gmap Z slot; future : option Z }.

(** The entry to evict, in the order in which Go ranges over the map. *)
Fixpoint oldest (best : option slot) (order : list slot) : option slot :=
  match order with
  | [] => best
  | c :: rest =>
      oldest (match best with
              | None => Some c
              | Some e => if s_used e >? s_used c then Some c else Some e
              end) rest
  end.

Section memory.
(** The order in which Go ranges over the map. *)
Variable range : gmap Z slot -> list slot.

Fixpoint evict_loop (n : nat) (inmem : Z) (m : gmap Z slot) : option (gmap Z slot) :=
  match n with
  | O => None
  | S n' =>
      if (Z.of_nat (size m) >? 0) && (Z.of_nat (size m) >=? inmem) then
        match oldest None (range m) with
        | None => None   (* nil dereference *)
        | Some e => evict_loop n' inmem (delete (s_epoch e) m)
        end
      else Some m
  end.

(** [Bzhash.cache] and [Bzhash.dataset] up to the generation of the content: the entry of an epoch
    is found or made, the entry for the next epoch is scheduled.  [now] and [later] are the two
    readings of the clock. *)
Definition acquire (inmem : Z) (now later : Z) (epoch : Z) (st : Slots) : option (slot * Slots) :=
  match slots st !! epoch with
  | Some c => Some (mkSlot (s_epoch c) later, mkSlots (<[epoch := mkSlot (s_epoch c) later]> (slots st)) (future st))
  | None =>
      m ← evict_loop (S (size (slots st))) inmem (slots st);
      let future0 := if bool_decide (future st = Some epoch) then None else future st in
      let future1 :=
        match future0 with
        | None => Some (u64 (epoch + 1))
        | Some f => if f <=? epoch then Some (u64 (epoch + 1)) else Some f
        end in
      let current := mkSlot epoch now in
      Some (mkSlot (s_epoch current) later, mkSlots (<[epoch := mkSlot (s_epoch current) later]> m) future1)
  end.
End memory.

(** ** The gas limit of the next block ([core/block_validator.go])

    [target] is the variable [params.TargetGasLimit]. *)
Definition CalcGasLimit (target : Z) (parent : Header) : Z :=
  let contrib := GasUsed parent * 3 / 2 / GasLimitBoundDivisor in
  let decay := GasLimit parent / GasLimitBoundDivisor - 1 in
  let gl := BigMax (GasLimit parent - decay + contrib) MinGasLimit in
  if gl <? target then BigMin (GasLimit parent + decay) target else gl.
End Bzhash.
