(* ===== verification/BzhashRules.v ===== *)
(** * The rules of proof of work: theorems

    Bounds of the difficulty, acceptance of the blocks that a miner prepares, the order of the
    results of parallel verification, and the caches kept in memory. *)

From S2P Require Import Prelude GoMath Params World Rlp Types Misc Demo Hashimoto HashimotoSizes Bzhash.

Module BzhashRules.
Import Types Misc Bzhash.

(** ** Difficulty *)

(** The exponential factor at the block after [parent]. *)
Definition bomb (parent : Header) : Z :=
  let periodCount := (Number parent + 1) / expDiffPeriod in
  if periodCount >? 1 then 2 ^ (periodCount - 2) else 0.
(** The difficulty without it. *)
Definition adjusted (homestead : bool) (time : Z) (parent : Header) : Z :=
  let y := Difficulty parent / DifficultyBoundDivisor in
  Z.max MinimumDifficulty
    (if homestead then Difficulty parent + y * Z.max (-99) (1 - (time - Time parent) / 10)
     else if time - Time parent <? DurationLimit then Difficulty parent + y else Difficulty parent - y).

Lemma clamp a m : (if a <? m then m else a) = Z.max m a.
Proof. destruct (Z.ltb_spec a m); lia. Qed.
Lemma bomb_nonneg parent : 0 <= bomb parent.
Proof. unfold bomb. cbv zeta. destruct (_ >? 1); [apply Z.pow_nonneg|]; lia. Qed.

Lemma CalcDifficulty_eq config time parent :
  CalcDifficulty config time parent = adjusted (IsHomestead config (Number parent + 1)) time parent + bomb parent.
Proof.
  pose proof (bomb_nonneg parent) as Hb. unfold CalcDifficulty, adjusted, bomb in *. cbv zeta in *.
  destruct (IsHomestead _ _).
  - unfold calcDifficultyHomestead. rewrite !clamp. destruct (_ >? 1); lia.
  - unfold calcDifficultyFrontier, BigMax. rewrite !clamp. destruct (_ >? 1); lia.
Qed.

Lemma adjusted_bounds homestead time parent :
  MinimumDifficulty <= Difficulty parent -> Time parent < time ->
  let y := Difficulty parent / DifficultyBoundDivisor in
  MinimumDifficulty <= adjusted homestead time parent /\
  Difficulty parent - 99 * y <= adjusted homestead time parent <= Difficulty parent + y.
Proof.
  intros Hd Ht. cbv zeta. unfold adjusted. cbv zeta. set (y := _ / _).
  assert (0 <= y) by (apply Z.div_pos; unfold MinimumDifficulty in Hd; [lia|done]).
  pose proof (Z.div_pos (time - Time parent) 10).
  split; [lia|]. destruct homestead; [|destruct (_ <? _); lia].
  assert (-99 <= Z.max (-99) (1 - (time - Time parent) / 10) <= 1) by lia. nia.
Qed.
Lemma adjusted_mono homestead time time' parent :
  0 <= Difficulty parent -> time <= time' -> adjusted homestead time' parent <= adjusted homestead time parent.
Proof.
  intros Hd Ht. unfold adjusted. cbv zeta. set (y := _ / _). assert (0 <= y) by (by apply Z.div_pos).
  apply Z.max_le_compat_l. destruct homestead.
  - assert ((time - Time parent) / 10 <= (time' - Time parent) / 10) by (apply Z.div_le_mono; lia).
    apply Z.add_le_mono_l, Z.mul_le_mono_nonneg_l; [done|]. lia.
  - destruct (Z.ltb_spec (time' - Time parent) DurationLimit), (Z.ltb_spec (time - Time parent) DurationLimit); lia.
Qed.

(** Under both rules the difficulty of a block that is later than its parent is at least the
    minimum, falls by at most 99/2048 and grows by at most 1/2048 of the parent's, apart from the
    exponential factor, which depends on the number only; and a later block is never more
    difficult.  So the minimum is kept along a chain. *)
Theorem CalcDifficulty_bounds config time parent :
  MinimumDifficulty <= Difficulty parent -> Time parent < time ->
  let y := Difficulty parent / DifficultyBoundDivisor in
  let d := CalcDifficulty config time parent in
  MinimumDifficulty <= d - bomb parent <= d /\
  Difficulty parent - 99 * y <= d - bomb parent <= Difficulty parent + y /\
  forall time', time <= time' -> CalcDifficulty config time' parent <= d.
Proof.
  intros Hd Ht. cbv zeta. pose proof (bomb_nonneg parent).
  pose proof (adjusted_bounds (IsHomestead config (Number parent + 1)) time parent Hd Ht) as H'. cbv zeta in H'.
  rewrite CalcDifficulty_eq. split_and!; try lia. intros time' Ht'. rewrite CalcDifficulty_eq.
  apply Z.add_le_mono_r, adjusted_mono; [unfold MinimumDifficulty in Hd; lia|done].
Qed.
Definition demo_parent : Header :=
  mkHeader 0 0 0 0 0 0 [] 200000 249999 4712388 4000000 1000 [] 0 (replicate 8 Byte.x00).
Definition demo_homestead : ChainConfig := mkChainConfig None (Some 0) None false None 0 None None None.
Lemma CalcDifficulty_bounds_witness :
  let y := Difficulty demo_parent / DifficultyBoundDivisor in
  let d := CalcDifficulty demo_homestead 1015 demo_parent in
  MinimumDifficulty <= d - bomb demo_parent <= d /\
  Difficulty demo_parent - 99 * y <= d - bomb demo_parent <= Difficulty demo_parent + y /\
  forall time', 1015 <= time' -> CalcDifficulty demo_homestead time' demo_parent <= d.
Proof. apply (CalcDifficulty_bounds demo_homestead 1015 demo_parent); vm_compute; [discriminate|reflexivity]. Defined.

(** ** Blocks of a miner *)

Lemma CalcGasLimit_step target parent :
  MinGasLimit <= GasLimit parent -> 0 <= GasUsed parent <= GasLimit parent -> 5124 <= target ->
  let gl := CalcGasLimit target parent in
  Z.abs (GasLimit parent - gl) < GasLimit parent / GasLimitBoundDivisor /\ MinGasLimit <= gl.
Proof.
  intros Hp Hu Ht. cbv zeta. unfold CalcGasLimit, BigMax, BigMin, MinGasLimit, GasLimitBoundDivisor in *. cbv zeta.
  set (pl := GasLimit parent) in *. set (used := GasUsed parent) in *.
  pose proof (Z.div_mod pl 1024). pose proof (Z.mod_pos_bound pl 1024).
  pose proof (Z.div_mod (used * 3) 2). pose proof (Z.mod_pos_bound (used * 3) 2).
  pose proof (Z.div_mod (used * 3 / 2) 1024). pose proof (Z.mod_pos_bound (used * 3 / 2) 1024).
  set (q := pl / 1024) in *. set (c := used * 3 / 2 / 1024) in *. set (m := used * 3 / 2) in *.
  rewrite clamp. destruct (Z.ltb_spec (Z.max 5000 (pl - (q - 1) + c)) target); [|lia].
  destruct (Z.gtb_spec (pl + (q - 1)) target); lia.
Qed.

(** [set_seal] and [set_difficulty] leave the rest of a header alone. *)
Section miner.
Context `{CryptoPrims} (Keccak512 : list byte -> list byte) (little : bool) (prime : Z -> bool) (fuel : nat).
Context (cacheDisk : Z -> Disk).

Lemma check_true {E B} (b : bool) (e : E) (k : gores E B) : b = true -> (check b or e; k) = k.
Proof. by intros ->. Qed.

(** A miner's block is accepted.  Let [header] follow a known parent: the next number, a time
    after the parent's that is not in the future, at most 32 bytes of extra data that satisfy the
    DAO rule, and the gas limit that [CalcGasLimit] chooses for a target of at least 5124 (the
    default is 4712388).  Then [Prepare] sets a difficulty such that, with any seal [VerifySeal]
    accepts, [VerifyHeader] accepts the header. *)
Theorem prepared_accepted chain bzhash target header parent :
  GetHeader chain (ParentHash header) (u64 (Uint64 (Number header) - 1)) = Some parent ->
  Number header = Number parent + 1 -> Time parent < Time header <= Now chain ->
  zlen (Extra header) <= MaximumExtraDataSize ->
  VerifyDAOHeaderExtraData (Config chain) header = GOk tt -> EIP150Block (Config chain) <> Some (Number header) ->
  MinGasLimit <= GasLimit parent < 2 ^ 62 -> 0 <= GasUsed parent <= GasLimit parent -> 5124 <= target ->
  GasLimit header = CalcGasLimit target parent -> GasUsed header <= GasLimit header ->
  exists h, Prepare chain header = GOk h /\
    forall mix nonce, VerifySeal Keccak512 little prime fuel cacheDisk bzhash (set_seal mix nonce h) = GOk tt ->
      VerifyHeader Keccak512 little prime fuel cacheDisk bzhash chain (set_seal mix nonce h) true = GOk tt.
Proof.
  intros Hpar Hn Ht Hx Hdao Heip Hpl Hpu Htg Hgl Hgu. unfold Prepare. rewrite Hpar. eexists. split; [done|]. intros mix nonce Hseal.
  destruct (CalcGasLimit_step target parent) as [Hstep Hmin]; [lia..|]. rewrite <- Hgl in Hstep, Hmin.
  assert (GasLimit parent / GasLimitBoundDivisor <= GasLimit parent) by (apply Z.div_le_upper_bound; unfold GasLimitBoundDivisor, MinGasLimit in *; lia).
  unfold VerifyHeader. destruct (fakeFull bzhash); [done|].
  set (h := set_seal _ _ _) in *. change (Number h) with (Number header). change (ParentHash h) with (ParentHash header).
  destruct (GetHeader chain (header_Hash h) _); [done|]. rewrite Hpar. unfold verifyHeader, MaxBig63, of_misc.
  change (VerifyDAOHeaderExtraData (Config chain) h) with (VerifyDAOHeaderExtraData (Config chain) header). rewrite Hdao, Hseal.
  change (Extra h) with (Extra header). change (Time h) with (Time header). change (GasLimit h) with (GasLimit header).
  change (GasUsed h) with (GasUsed header). change (Number h) with (Number header).
  change (Difficulty h) with (CalcDifficulty (Config chain) (Uint64 (Time header)) parent). cbv zeta.
  rewrite !check_true by lia. cbn [gbind]. unfold VerifyForkHashes. change (Number h) with (Number header).
  destruct (EIP150Block (Config chain)) as [b|]; [|done]. rewrite (proj2 (Z.eqb_neq _ _)); [done|]. by intros ->.
Qed.

(** ** The order of results *)

Lemma send_ready_ok n errors len checked out sent :
  (len - out <= n)%nat -> (out < len)%nat -> sent = map errors (seq 0 out) -> (forall i, (i < out)%nat -> i ∈ checked) ->
  exists k, (out <= k <= len)%nat /\ (forall i, (i < k)%nat -> i ∈ checked) /\ ((k < len)%nat -> k ∉ checked) /\
    send_ready n errors len checked out sent =
      (if decide (k = len) then (len - 1)%nat else k, map errors (seq 0 k), bool_decide (k = len)).
Proof.
  revert out sent. induction n as [|n IH]; intros out sent Hn Ho -> Hc; [lia|]. cbn [send_ready].
  case_bool_decide as Hin; cbv zeta.
  - assert (map errors (seq 0 out) ++ [errors out] = map errors (seq 0 (S out))) as E by (by rewrite seq_S, map_app).
    assert (forall i, (i < S out)%nat -> i ∈ checked) as Hc'.
    { intros i Hi. destruct (decide (i = out)) as [->|]; [done|]. apply Hc. lia. }
    rewrite E. destruct (Nat.eqb_spec out (len - 1)) as [->|Hne].
    + exists len. replace (S (len - 1)) with len in * by lia. rewrite decide_True, bool_decide_eq_true_2 by done.
      split_and!; try done; lia.
    + destruct (IH (S out) (map errors (seq 0 (S out)))) as (k & Hk & Hkc & Hkn & ->); [lia|lia|done..|].
      exists k. split_and!; try done; lia.
  - exists out. rewrite decide_False, bool_decide_eq_false_2 by lia. split_and!; try done; lia.
Qed.

Lemma collect_ok order errors len checked out :
  (out < len)%nat -> (forall i, (i < out)%nat -> i ∈ checked) -> out ∉ checked ->
  exists k, (k <= len)%nat /\ (forall i, (i < k)%nat -> i ∈ checked \/ i ∈ order) /\
    ((k < len)%nat -> k ∉ checked /\ k ∉ order) /\
    collect order errors len checked out (map errors (seq 0 out)) = (map errors (seq 0 k), bool_decide (k = len)).
Proof.
  revert checked out. induction order as [|index order IH]; intros checked out Ho Hc Hnot; cbn [collect].
  { exists out. rewrite bool_decide_eq_false_2 by lia. split_and!; auto with lia. intros _. split; [done|]. apply not_elem_of_nil. }
  destruct (send_ready_ok (S len) errors len ({[index]} ∪ checked) out (map errors (seq 0 out))) as (k & Hk & Hkc & Hkn & ->); [lia..|done| |].
  { intros i Hi. apply elem_of_union_r. auto. }
  case_bool_decide as Hd.
  - subst k. exists len. rewrite bool_decide_eq_true_2 by done. split_and!; [done| |lia|done]. intros i Hi.
    specialize (Hkc i Hi). set_solver.
  - rewrite decide_False by done. destruct (IH ({[index]} ∪ checked) k) as (k' & ? & Hkc' & Hkn' & ->); [lia|done|apply Hkn; lia|].
    exists k'. split_and!; [done| | |done]; [intros i Hi; specialize (Hkc' i Hi)|intros Hi; specialize (Hkn' Hi)]; set_solver.
Qed.

(** The results of a batch come in the order of the headers and none is lost.  Whatever workers
    have finished, in whatever order, exactly the results of the longest finished prefix are
    sent, each that of the header itself; the collector is done when, and only when, all have
    finished. *)
Theorem VerifyHeaders_in_order bzhash chain headers seals order :
  fakeFull bzhash = false -> headers <> [] ->
  let worker := verifyHeaderWorker Keccak512 little prime fuel cacheDisk bzhash chain headers seals in
  exists k, (k <= length headers)%nat /\ (forall i, (i < k)%nat -> i ∈ order) /\ ((k < length headers)%nat -> k ∉ order) /\
    VerifyHeaders Keccak512 little prime fuel cacheDisk bzhash chain headers seals order =
      (map worker (seq 0 k), bool_decide (Forall (fun i => i ∈ order) (seq 0 (length headers)))).
Proof.
  intros Hf Hh worker. unfold VerifyHeaders. rewrite Hf. assert (0 < length headers)%nat as Hl by (destruct headers; [done|cbn; lia]).
  rewrite (proj2 (Nat.eqb_neq _ _)) by lia. cbn [orb].
  destruct (collect_ok order worker (length headers) ∅ 0) as (k & Hk & Hin & Hnot & E); [done|lia|set_solver|].
  exists k. split_and!; [done|intros i Hi; destruct (Hin i Hi); set_solver|intros Hi; apply Hnot in Hi as [_ ?]; done|].
  change (map worker (seq 0 0)) with (@nil (gores bzhashError unit)) in E. fold worker. rewrite E. f_equal. apply bool_decide_ext. rewrite Forall_seq. split.
  - intros -> i Hi. destruct (Hin i); [lia|set_solver|done].
  - intros Hall. destruct (decide (k = length headers)); [done|]. destruct Hnot as [_ Hno]; [lia|]. destruct Hno. apply Hall. lia.
Qed.
End miner.

(** ** Caches in memory *)

Lemma oldest_ok best l :
  (best <> None \/ l <> []) ->
  exists e, oldest best l = Some e /\ (best = Some e \/ e ∈ l) /\
    (forall c, best = Some c \/ c ∈ l -> s_used e <= s_used c).
Proof.
  revert best. induction l as [|c l IH]; intros best Hne; cbn [oldest].
  { destruct best as [e|]; [|naive_solver]. exists e. split_and!; [done|by left|]. intros c [[= ->]|Hc%elem_of_nil]; [lia|done]. }
  set (best' := match best with None => Some c | Some e => if s_used e >? s_used c then Some c else Some e end).
  destruct (IH best') as (e & -> & Hin & Hmin); [left; unfold best'; by destruct best as [b|]; [destruct (_ >? _)|]|].
  exists e. split; [done|]. assert (exists b, best' = Some b /\ (best = Some b \/ b = c) /\ s_used b <= s_used c /\ (forall x, best = Some x -> s_used b <= s_used x)) as (b & Eb & Hb & Hbc & Hbx).
  { unfold best'. destruct best as [b|]; [|exists c; naive_solver lia]. destruct (Z.gtb_spec (s_used b) (s_used c)); [exists c|exists b]; naive_solver lia. }
  rewrite Eb in Hin, Hmin. pose proof (Hmin b ltac:(by left)). split.
  - destruct Hin as [[= ->]|Hin]; [destruct Hb as [->| ->]; [by left|right; left]|right; by right].
  - intros x [Hx|[->|Hx]%elem_of_cons]; [specialize (Hbx x Hx); lia|lia|]. apply Hmin. by right.
Qed.

(** Every slot is stored under its epoch. *)
Definition slots_ok (m : gmap Z slot) : Prop := map_Forall (fun k c => s_epoch c = k) m.

Section memory.
Context (range : gmap Z slot -> list slot) (range_ok : forall m, range m ≡ₚ (map_to_list m).*2).

Lemma elem_of_range m c : c ∈ range m <-> exists k, m !! k = Some c.
Proof.
  rewrite range_ok, list_elem_of_fmap. split.
  - intros ([k c'] & -> & Hin%elem_of_map_to_list). by exists k.
  - intros [k Hk]. exists (k, c). split; [done|]. by apply elem_of_map_to_list.
Qed.

Lemma evict_loop_ok n inmem m : slots_ok m -> (size m < n)%nat ->
  exists m', evict_loop range n inmem m = Some m' /\ m' ⊆ m /\ (size m' = 0%nat \/ Z.of_nat (size m') < inmem) /\
    forall k c k' c', m !! k = Some c -> m' !! k = None -> m' !! k' = Some c' -> s_used c <= s_used c'.
Proof.
  revert m. induction n as [|n IH]; intros m Hm Hn; [lia|]. cbn [evict_loop].
  destruct (_ && _) eqn:Hb; [|exists m; split_and!; [done..|lia|naive_solver]].
  destruct (oldest_ok None (range m)) as (e & -> & Hin & Hmin).
  { right. intros E. pose proof (range_ok m) as Hr. rewrite E in Hr. apply Permutation_nil, fmap_nil_inv, map_to_list_empty_iff in Hr. subst m. by rewrite map_size_empty in Hb. }
  destruct Hin as [|Hin]; [done|]. apply elem_of_range in Hin as [k0 Hk0]. pose proof (Hm k0 e Hk0) as He. cbn beta in He. subst k0.
  assert (size (delete (s_epoch e) m) < size m)%nat as Hsz by (rewrite map_size_delete_Some by done; lia).
  destruct (IH (delete (s_epoch e) m)) as (m' & -> & Hsub & Hs & Hlru); [by apply map_Forall_delete|lia|].
  exists m'. split_and!; [done|by etrans; [|apply delete_subseteq]|done|]. intros k c k' c' Hk Hnone Hk'.
  destruct (decide (k = s_epoch e)) as [->|Hne]; [|apply (Hlru k c k' c'); [by rewrite lookup_delete_ne|done..]].
  assert (c = e) as -> by congruence. apply Hmin. right. apply elem_of_range. exists k'.
  apply (lookup_weaken _ _ _ _ Hk'). by etrans; [|apply delete_subseteq].
Qed.

(** Asking for the cache (or dataset) of an epoch always returns a slot of that epoch, in every
    state with each slot under its own epoch.  No slot of another epoch is changed, at most
    [max 1 inmem] slots are kept, a slot that is dropped was used no later than any that stays, and
    the slot made in advance belongs to a later epoch. *)
Theorem acquire_ok inmem now later epoch st :
  slots_ok (slots st) -> Z.of_nat (size (slots st)) <= Z.max 1 inmem -> 0 <= epoch < 2 ^ 64 - 1 ->
  exists st', acquire range inmem now later epoch st = Some (mkSlot epoch later, st') /\
    slots_ok (slots st') /\ Z.of_nat (size (slots st')) <= Z.max 1 inmem /\
    delete epoch (slots st') ⊆ slots st /\ slots st' !! epoch = Some (mkSlot epoch later) /\
    (forall k c k' c', slots st !! k = Some c -> slots st' !! k = None -> k' <> epoch -> slots st' !! k' = Some c' -> s_used c <= s_used c') /\
    (slots st !! epoch = None -> exists f, future st' = Some f /\ epoch < f).
Proof.
  intros Hok Hsz He. unfold acquire. destruct (slots st !! epoch) as [c|] eqn:Ec.
  - pose proof (Hok _ _ Ec) as Hc. cbn beta in Hc. rewrite Hc. eexists. split; [done|]. cbn [slots future].
    split_and!; [by apply map_Forall_insert_2| | |apply lookup_insert_eq| |done].
    + by rewrite map_size_insert_Some by done.
    + rewrite delete_insert_eq. apply delete_subseteq.
    + intros k x k' x' Hk Hno. destruct (decide (k = epoch)) as [->|]; [by rewrite lookup_insert_eq in Hno|]. rewrite lookup_insert_ne in Hno by done. congruence.
  - destruct (evict_loop_ok (S (size (slots st))) inmem (slots st) Hok) as (m & -> & Hsub & Hm & Hlru); [lia|]. cbn [mbind option_bind].
    eexists. split; [done|]. cbn [slots future s_epoch]. assert (m !! epoch = None) as Hme by (by eapply lookup_weaken_None).
    split_and!; [apply map_Forall_insert_2; [done|intros k x Hk; apply Hok; by eapply lookup_weaken]| | |apply lookup_insert_eq| |].
    + rewrite map_size_insert_None by done. lia.
    + by rewrite delete_insert_id.
    + intros k x k' x' Hk Hno Hne Hk'. rewrite lookup_insert_ne in Hk' by done.
      apply lookup_insert_None in Hno as [Hno _]. by eapply Hlru.
    + intros _. assert (u64 (epoch + 1) = epoch + 1) as -> by (apply Z.mod_small; lia).
      case_bool_decide; [eexists; split; [done|lia]|]. destruct (future st) as [f|]; [|eexists; split; [done|lia]].
      destruct (Z.leb_spec f epoch); eexists; split; done || lia.
Qed.
End memory.

Definition demo_range (m : gmap Z slot) : list slot := (map_to_list m).*2.
Definition demo_slots : Slots := mkSlots (<[3 := mkSlot 3 50]> (<[4 := mkSlot 4 60]> ∅)) (Some 5).
Lemma demo_slots_ok : slots_ok (slots demo_slots).
Proof. apply map_Forall_insert_2; [done|]. apply map_Forall_insert_2; [done|]. apply map_Forall_empty. Qed.
Lemma acquire_ok_witness :
  exists st', acquire demo_range 2 100 101 5 demo_slots = Some (mkSlot 5 101, st') /\
    slots_ok (slots st') /\ Z.of_nat (size (slots st')) <= Z.max 1 2 /\
    delete 5 (slots st') ⊆ slots demo_slots /\ slots st' !! 5 = Some (mkSlot 5 101) /\
    (forall k c k' c', slots demo_slots !! k = Some c -> slots st' !! k = None -> k' <> 5 -> slots st' !! k' = Some c' -> s_used c <= s_used c') /\
    (slots demo_slots !! 5 = None -> exists f, future st' = Some f /\ 5 < f).
Proof.
  apply (acquire_ok demo_range (fun m => reflexivity _) 2 100 101 5 demo_slots); [exact demo_slots_ok|vm_compute; discriminate|lia].
Defined.

Definition demo_child : Header :=
  mkHeader 7 0 0 0 0 0 [] 0 250000 (CalcGasLimit 4712388 demo_parent) 21000 1015 [] 0 (replicate 8 Byte.x00).
Definition demo_chain : Chain :=
  mkChain demo_homestead (fun h _ => if h =? 7 then Some demo_parent else None) (fun _ _ => None) 2000.
Definition demo_disk (epoch : Z) : Disk := mkDisk None true.

Lemma prepared_accepted_witness :
  exists h, Prepare demo_chain demo_child = GOk h /\
    forall mix nonce, VerifySeal (H := mix_prims) mix_512 true (fun _ => true) 1 demo_disk NewFaker (set_seal mix nonce h) = GOk tt ->
      VerifyHeader (H := mix_prims) mix_512 true (fun _ => true) 1 demo_disk NewFaker demo_chain (set_seal mix nonce h) true = GOk tt.
Proof.
  apply (prepared_accepted (H := mix_prims) mix_512 true (fun _ => true) 1 demo_disk demo_chain NewFaker 4712388 demo_child demo_parent);
    try reflexivity; vm_compute; try split; try reflexivity; discriminate.
Defined.
Lemma VerifyHeaders_in_order_witness :
  let worker := verifyHeaderWorker (H := mix_prims) mix_512 true (fun _ => true) 1 demo_disk NewFaker demo_chain
    [demo_child; demo_child; demo_child] [true; true; true] in
  exists k, (k <= 3)%nat /\ (forall i, (i < k)%nat -> i ∈ [2%nat; 0%nat]) /\ ((k < 3)%nat -> k ∉ [2%nat; 0%nat]) /\
    VerifyHeaders (H := mix_prims) mix_512 true (fun _ => true) 1 demo_disk NewFaker demo_chain
      [demo_child; demo_child; demo_child] [true; true; true] [2%nat; 0%nat] =
      (map worker (seq 0 k), bool_decide (Forall (fun i => i ∈ [2%nat; 0%nat]) (seq 0 3))).
Proof.
  apply (VerifyHeaders_in_order (H := mix_prims) mix_512 true (fun _ => true) 1 demo_disk NewFaker demo_chain
    [demo_child; demo_child; demo_child] [true; true; true] [2%nat; 0%nat]); [reflexivity|discriminate].
Defined.
End BzhashRules.
