(* ===== verification/BzhashSeal.v ===== *)
(** * Mining and verifying seals: theorems

    The cache and the dataset of an engine hold what the files or the generators give; a nonce that
    the miner finds in the dataset passes the verification from the cache, and the miner misses
    none.  What the fallback for datasets that cannot be written does instead. *)

From stdpp Require Import strings.
From S2P Require Import Prelude GoMath Params World Rlp Types Misc Demo Hashimoto HashimotoSizes HashimotoFacts HashimotoThms Bzhash.

Module BzhashSeal.
Import Types Misc Hashimoto HashimotoSizes HashimotoFacts HashimotoThms Bzhash.
Local Open Scope Z_scope.

(** A file that can be mapped holds [data]. *)
Definition holds (disk : Disk) (data : result (list Z)) : Prop :=
  match memoryMap (file disk) with GOk w => data = GOk w | GErr _ => True | GPanic => False end.
(** No file, on a disk that can be written. *)
Definition fresh : Disk := mkDisk None true.

Lemma mapped_back data : memoryMap (Some (dumpMagic ++ data)) = GOk data.
Proof. reflexivity. Qed.

(** The first nonces that the miner tries. *)
Definition nonce_at (seed : Z) (k : nat) : Z := u64 (seed + Z.of_nat k).

Section seal.
Context `{CryptoPrims}.
Context (Keccak512 : list byte -> list byte) (keccak512_len : forall d, length (Keccak512 d) = 64%nat).
Context (little : bool) (prime : Z -> bool) (fuel : nat).
Context (cacheDisk dagDisk : Z -> Disk).
(** The threads that generate a dataset, in some interleaving. *)
Context (threads : nat) (threads_pos : (0 < threads)%nat) (threads_small : Z.of_nat threads < 2 ^ 31).
Context (schedule : nat -> list Z) (schedule_ok : forall n, schedule n ≡ₚ all_indices (4 * Z.of_nat n) threads).

Lemma make_cache_ok r seed : 0 < r < 2 ^ 26 ->
  exists ws, make_cache Keccak512 little (64 * r) seed = GOk ws /\ cache_ok ws r.
Proof.
  intros Hr. destruct (generateCache_total Keccak512 keccak512_len (Z.to_nat r) seed) as (ws & Hc & E); [lia..|].
  exists ws. rewrite Z2Nat.id in Hc by lia. split; [|done]. unfold make_cache. replace (64 * r) with (16 * r * 4) by lia.
  rewrite Z.div_mul, Z2Nat.inj_mul by lia. change (Z.to_nat 16) with 16%nat. by rewrite E.
Qed.
Lemma make_dataset_ok ws r n : cache_ok ws r -> 100 <= n <= 2 ^ 26 ->
  exists ds, make_dataset Keccak512 little schedule (16 * n) ws = GOk ds /\
    forall hash nonce, hashimotoFull Keccak512 ds hash nonce = hashimotoLight Keccak512 (64 * n) ws hash nonce.
Proof.
  intros Hc Hn. unfold make_dataset. rewrite Z2Nat.inj_mul by lia. change (Z.to_nat 16) with 16%nat.
  destruct (dataset_agrees Keccak512 keccak512_len little ws r n threads (schedule (16 * Z.to_nat n))) as (ds & E & He); [done..|lia| |].
  { rewrite schedule_ok. replace (4 * Z.of_nat (16 * Z.to_nat n)) with (64 * n) by lia. done. }
  exists ds. by rewrite E.
Qed.

(** The first block of an epoch of the tables *)
Lemma first_block e : 0 <= e < 2048 -> u64 (e * epochLength + 1) = e * epochLength + 1 /\ (e * epochLength + 1) / epochLength = e.
Proof. intros He. unfold epochLength. split; [apply Z.mod_small; lia|]. rewrite Z.add_comm, Z.div_add by lia. done. Qed.
Lemma epoch_table b e : 0 <= e < 2048 -> b / epochLength = e ->
  exists r n, cacheSize fuel prime b = Some (64 * r) /\ datasetSize fuel prime b = Some (64 * n) /\
    0 < r < 2 ^ 26 /\ 100 <= n /\ (e < 385 -> n <= 2 ^ 26) /\ (e < 128 -> 2 * n <= 2 ^ 26).
Proof.
  intros He Hb. destruct (epoch_sizes (Z.to_nat e)) as (r & n & Hr & Hn & _ & Bc & Bd & H4); [lia|]. exists r, n.
  unfold cacheSize, datasetSize. rewrite Hb, Hr, Hn. split_and!; try done; lia.
Qed.

(** ** The data of an epoch *)

Lemma cache_total dir test e :
  0 <= e < 2048 -> holds (cacheDisk e) (cache_generate Keccak512 little prime fuel fresh dir test e) ->
  exists ws r, cache_ok ws r /\ cache_generate Keccak512 little prime fuel (cacheDisk e) dir test e = GOk ws /\
    (if test then make_cache Keccak512 little 1024 (seedHash (e * epochLength + 1)) = GOk ws
     else cacheSize fuel prime (e * epochLength + 1) = Some (64 * r) /\
          make_cache Keccak512 little (64 * r) (seedHash (e * epochLength + 1)) = GOk ws).
Proof.
  intros He Hh. unfold cache_generate in *. destruct (first_block e He) as [Hu Hd]. rewrite Hu in *. destruct test.
  { destruct (make_cache_ok 16 (seedHash (e * epochLength + 1))) as (ws & E & Hc); [lia|]. change (64 * 16) with 1024 in E. exists ws, 16. by rewrite E. }
  destruct (epoch_table _ _ He Hd) as (r & n & Ec & _ & Hr & _). rewrite Ec in *. cbn [of_option gbind] in *.
  destruct (make_cache_ok r (seedHash (e * epochLength + 1)) Hr) as (ws & E & Hc). rewrite E in *. exists ws, r. split; [done|].
  split; [|done]. case_bool_decide; [done|]. unfold holds in Hh. destruct (memoryMap (file (cacheDisk e))) as [w| |]; [| |done]; cbn [or_else] in *.
  - cbn in Hh. congruence.
  - unfold memoryMapAndGenerate. destruct (writable _); [|done]. by cbn [gbind].
Qed.

(** The cache and the dataset of an epoch, with the number [n] of rows of the dataset. *)
Definition epoch_data (bzhash : Bzhash) (number : Z) (ws ds : list Z) (n : Z) : Prop :=
  (exists r, cache_ok ws r) /\ 100 <= n <= 2 ^ 26 /\
  cache Keccak512 little prime fuel cacheDisk bzhash number = GOk ws /\
  dataset Keccak512 little prime fuel dagDisk schedule bzhash number = GOk ds /\
  (if tester bzhash then Some (32 * 1024) else datasetSize fuel prime number) = Some (64 * n) /\
  forall hash nonce, hashimotoFull Keccak512 ds hash nonce = hashimotoLight Keccak512 (64 * n) ws hash nonce.

Lemma epoch_data_total bzhash number :
  let e := number / epochLength in
  0 <= e < 385 -> writable (dagDisk e) = true ->
  holds (cacheDisk e) (cache_generate Keccak512 little prime fuel fresh (cachedir bzhash) (tester bzhash) e) ->
  holds (dagDisk e) (dataset_generate Keccak512 little prime fuel schedule fresh (dagdir bzhash) (tester bzhash) e) ->
  exists ws ds n, epoch_data bzhash number ws ds n.
Proof.
  intros e He Hw Hc Hd. destruct (cache_total _ _ e ltac:(lia) Hc) as (ws & r & Hws & Ec & Hm). destruct (first_block e ltac:(lia)) as [Hu Hf].
  unfold epoch_data, cache, dataset. fold e. rewrite Ec. unfold dataset_generate in *. rewrite Hu in *. destruct (tester bzhash).
  { destruct (make_dataset_ok ws r 512 Hws) as (ds & E & Hag); [lia|]. exists ws, ds, 512. rewrite Hm. cbn [gbind].
    change (32 * 1024 / 4) with (16 * 512). rewrite E. split_and!; [by eexists|lia..|done| |done|]; done. }
  destruct Hm as [Hcs Hmk]. destruct (epoch_table (e * epochLength + 1) e ltac:(lia) Hf) as (r' & n & Ecs & Eds & Hr & Hn & Hn' & _).
  assert (datasetSize fuel prime number = Some (64 * n)) as Enum by (rewrite <- Eds; unfold datasetSize; by rewrite Hf).
  rewrite Hcs, Eds in *. cbn [of_option gbind] in *. rewrite Hmk in *. cbn [gbind] in *.
  destruct (make_dataset_ok ws r n Hws) as (ds & E & Hag); [lia|]. replace (64 * n / 4) with (16 * n) in * by (replace (64 * n) with (16 * n * 4) by lia; by rewrite Z.div_mul).
  rewrite E in *. exists ws, ds, n. split_and!; [by eexists|lia..|done| |done|done].
  replace (if bool_decide (dagdir bzhash = EmptyString) then GOk ds else GOk []) with (@GOk bzhashError _ (if bool_decide (dagdir bzhash = EmptyString) then ds else [])) in * by (by case_bool_decide).
  cbn [gbind] in *. unfold holds in Hd. destruct (memoryMap (file (dagDisk e))) as [w| |]; [| |done]; cbn [or_else] in *.
  - cbn in Hd. congruence.
  - unfold memoryMapAndGenerate. rewrite Hw. by cbn [gbind].
Qed.

(** ** Seals *)

Definition verifies (bzhash : Bzhash) (h : Header) : Prop :=
  VerifySeal Keccak512 little prime fuel cacheDisk bzhash h = GOk tt.

Lemma VerifySeal_iff bzhash h ws ds n :
  epoch_data bzhash (Uint64 (Number h)) ws ds n -> Uint64 (Number h) / epochLength < 2048 ->
  fakeMode bzhash = false -> shared bzhash = None -> 0 < Difficulty h ->
  verifies bzhash h <->
  exists digest res, hashimotoLight Keccak512 (64 * n) ws (be_bytes 32 (HashNoNonce h)) (SetBytes (Nonce h)) = Some (digest, res) /\
    be_bytes 32 (MixDigest h) = digest /\ SetBytes res <= maxUint256 / Difficulty h.
Proof.
  intros (_ & _ & Hc & _ & Hsz & _) He Hf Hs Hd. unfold verifies. destruct bzhash as [cd ci dd di t f ff fl sh]; cbn [fakeMode shared tester] in *. subst f sh.
  cbn [VerifySeal fakeMode shared tester]. replace (zlen cacheSizes) with 2048 by (unfold zlen; by rewrite length_cacheSizes).
  rewrite Z.geb_leb, (proj2 (Z.leb_gt 2048 _)), (proj2 (Z.leb_gt (Difficulty h) 0)) by lia. cbn [negb guard gbind].
  rewrite Hc, Hsz. cbn [gbind of_option].
  destruct (hashimotoLight _ _ _ _ _) as [[digest res]|]; cbn [of_option gbind]; [|split; [done|naive_solver]].
  case_bool_decide; cbn [guard gbind].
  - rewrite guard_ok, negb_true_iff, Z.gtb_ltb, Z.ltb_ge. naive_solver.
  - split; [done|]. intros (? & ? & [= <- <-] & ? & _). done.
Qed.

Lemma nonce_at_0 seed : 0 <= seed < 2 ^ 64 -> nonce_at seed 0 = seed.
Proof. intros Hs. unfold nonce_at. rewrite Z.add_0_r. by apply Z.mod_small. Qed.
Lemma nonce_at_S seed k : nonce_at (u64 (seed + 1)) k = nonce_at seed (S k).
Proof. unfold nonce_at, u64. rewrite Zplus_mod_idemp_l. f_equal. lia. Qed.

(** The search returns the first nonce whose value is at most [target]. *)
Lemma mine_loop_ok attempts header ds target seed (f : Z -> list byte * list byte) :
  (forall nonce, hashimotoFull Keccak512 ds (be_bytes 32 (HashNoNonce header)) nonce = Some (f nonce)) ->
  0 <= seed < 2 ^ 64 ->
  let good k := SetBytes (f (nonce_at seed k)).2 <= target in
  exists r, mine_loop Keccak512 attempts header ds target seed = GOk r /\
    match r with
    | Some h => exists k, (k < attempts)%nat /\ good k /\ (forall j, (j < k)%nat -> ~ good j) /\
        h = set_seal (BytesToHash (f (nonce_at seed k)).1) (be_bytes 8 (nonce_at seed k)) header
    | None => forall j, (j < attempts)%nat -> ~ good j
    end.
Proof.
  intros Hf. revert seed. induction attempts as [|attempts IH]; intros seed Hs; cbv zeta in *; [exists None; split; [done|lia]|].
  cbn [mine_loop]. rewrite Hf. cbn [of_option gbind]. destruct (f seed) as [digest res] eqn:E.
  assert (f (nonce_at seed 0) = (digest, res)) as E0 by (by rewrite nonce_at_0).
  destruct (Z.leb_spec (SetBytes res) target).
  { eexists. split; [done|]. exists 0%nat. rewrite E0, nonce_at_0 by done. split_and!; try done; lia. }
  assert (forall j, (forall i, (i < j)%nat -> ~ SetBytes (f (nonce_at (u64 (seed + 1)) i)).2 <= target) ->
    forall i, (i < S j)%nat -> ~ SetBytes (f (nonce_at seed i)).2 <= target) as Hstep.
  { intros j Hj [|i] Hi; [rewrite E0; cbn [snd]; lia|]. rewrite <- nonce_at_S. apply Hj. lia. }
  destruct (IH (u64 (seed + 1))) as (r & -> & Hr); [by apply Z.mod_pos_bound|]. exists r. split; [done|]. destruct r as [h|]; [|by apply Hstep].
  destruct Hr as (k & Hk & Hg & Hno & ->). exists (S k). rewrite <- nonce_at_S. split_and!; [lia|done|by apply Hstep|done].
Qed.

Lemma seal_wait_updates bzhash header events updates :
  seal_wait Keccak512 little prime fuel dagDisk bzhash schedule header (replicate updates Update ++ events) =
  seal_wait Keccak512 little prime fuel dagDisk bzhash schedule header events.
Proof. by induction updates. Qed.

(** C21: What the miner finds is valid, and it misses nothing.  For a full engine (or a test engine), a
    block of an epoch before 385 with a positive difficulty, and files that hold what would be
    generated, the search returns.  If it returns a block within the given number of attempts,
    the block is the header with a nonce from the searched range, [VerifySeal] accepts it, and
    no nonce before it has a seal that would be accepted; if not, no nonce of the range has
    one.  This holds for every thread count, interleaving and byte order, and however often the
    search is restarted. *)
Theorem Seal_exact bzhash header seed attempts updates :
  let number := Uint64 (Number header) in
  let e := number / epochLength in
  let tried k mix := set_seal mix (be_bytes 8 (nonce_at seed k)) header in
  fakeMode bzhash = false -> shared bzhash = None -> 0 < Difficulty header -> 0 <= seed < 2 ^ 64 -> e < 385 ->
  writable (dagDisk e) = true ->
  holds (cacheDisk e) (cache_generate Keccak512 little prime fuel fresh (cachedir bzhash) (tester bzhash) e) ->
  holds (dagDisk e) (dataset_generate Keccak512 little prime fuel schedule fresh (dagdir bzhash) (tester bzhash) e) ->
  exists r, Seal Keccak512 little prime fuel dagDisk bzhash schedule header (replicate updates Update ++ [Found seed attempts]) = GOk r /\
    match r with
    | Some h => exists k mix, (k < attempts)%nat /\ h = tried k mix /\ verifies bzhash h /\
        forall j mix', (j < k)%nat -> ~ verifies bzhash (tried j mix')
    | None => forall j mix', (j < attempts)%nat -> ~ verifies bzhash (tried j mix')
    end.
Proof.
  intros number e tried Hfm Hsh Hd Hs He Hw Hc Hds.
  assert (0 <= e) as He0 by (apply Z.div_pos; [by apply Z.mod_pos_bound|done]).
  destruct (epoch_data_total bzhash number ltac:(fold e; lia) Hw Hc Hds) as (ws & ds & n & Hdata).
  pose proof Hdata as ([r Hws] & Hn & _ & Hdset & _ & Hag).
  assert (forall k mix, verifies bzhash (tried k mix) <-> exists digest res,
    hashimotoFull Keccak512 ds (be_bytes 32 (HashNoNonce header)) (nonce_at seed k) = Some (digest, res) /\
    be_bytes 32 mix = digest /\ SetBytes res <= maxUint256 / Difficulty header) as Hv.
  { intros k mix. rewrite (VerifySeal_iff bzhash (tried k mix) ws ds n Hdata ltac:(change (e < 2048); lia) Hfm Hsh Hd). rewrite Hag.
    change (Nonce (tried k mix)) with (be_bytes 8 (nonce_at seed k)). rewrite SetBytes_be_bytes, Z.mod_small by (by apply Z.mod_pos_bound). done. }
  set (f nonce := default ([], []) (hashimotoFull Keccak512 ds (be_bytes 32 (HashNoNonce header)) nonce)).
  assert (forall nonce, hashimotoFull Keccak512 ds (be_bytes 32 (HashNoNonce header)) nonce = Some (f nonce) /\ length (f nonce).1 = 32%nat) as Hf.
  { intros nonce. unfold f. rewrite Hag. destruct (hashimotoLight_total Keccak512 keccak512_len ws r (64 * n) (be_bytes 32 (HashNoNonce header)) nonce Hws ltac:(lia)) as (digest & res & -> & Hl & _). done. }
  destruct (mine_loop_ok attempts header ds (maxUint256 / Difficulty header) seed f (fun nonce => proj1 (Hf nonce)) Hs) as (res & E & Hr).
  assert (forall j mix, verifies bzhash (tried j mix) -> SetBytes (f (nonce_at seed j)).2 <= maxUint256 / Difficulty header) as Hgood.
  { intros j mix (digest & x & Ex & _ & Hx)%Hv. rewrite (proj1 (Hf _)) in Ex. apply Some_inj in Ex. rewrite Ex. done. }
  exists res. split.
  { destruct bzhash as [cd ci dd di t fm ff fl sh]; cbn [fakeMode shared] in Hfm, Hsh. subst fm sh. cbn [Seal fakeMode shared].
    rewrite seal_wait_updates. cbn [seal_wait]. unfold mine. rewrite (proj2 (Z.eqb_neq _ _)) by lia. fold number. rewrite Hdset. cbn [gbind].
    replace (bigDiv maxUint256 (Difficulty header)) with (maxUint256 / Difficulty header); [done|]. unfold bigDiv. rewrite Z.sgn_pos, Z.abs_eq by lia. lia. }
  destruct res as [h|]; [|intros j mix' Hj Hver; by apply (Hr j Hj), (Hgood j mix')].
  destruct Hr as (k & Hk & Hg & Hno & ->). eexists k, _. split_and!; [done|done| |intros j mix' Hj Hver; by apply (Hno j Hj), (Hgood j mix')].
  apply Hv. destruct (Hf (nonce_at seed k)) as [Ek Hlk]. destruct (f (nonce_at seed k)) as [digest x]. exists digest, x. split_and!; [done| |done].
  unfold BytesToHash. cbn [fst] in *. rewrite setArray_spec. rewrite <- Hlk at 1. rewrite Z.mod_small; [apply be_bytes_SetBytes|]. rewrite <- Hlk. apply SetBytes_bound.
Qed.

(** When the file of a dataset can be neither read nor written, [dataset.generate] falls back to
    memory with half of the size in bytes as the number of words, where a quarter is right.  The
    dataset is then twice as large as [datasetSize] says: mining evaluates the function for the
    doubled size, while verification uses [datasetSize]. *)
Theorem fallback_doubles bzhash number :
  let e := number / epochLength in
  0 <= e < 128 -> tester bzhash = false -> file (dagDisk e) = None -> writable (dagDisk e) = false ->
  holds (cacheDisk e) (cache_generate Keccak512 little prime fuel fresh (cachedir bzhash) false e) ->
  exists ws ds dsize, cache Keccak512 little prime fuel cacheDisk bzhash number = GOk ws /\
    dataset Keccak512 little prime fuel dagDisk schedule bzhash number = GOk ds /\
    datasetSize fuel prime number = Some dsize /\
    forall hash nonce, hashimotoFull Keccak512 ds hash nonce = hashimotoLight Keccak512 (2 * dsize) ws hash nonce.
Proof.
  intros e He Ht Hf Hw Hc. destruct (cache_total _ _ e ltac:(lia) Hc) as (ws & r & Hws & Ec & Hcs & Hmk). destruct (first_block e ltac:(lia)) as [Hu Hfb].
  destruct (epoch_table (e * epochLength + 1) e ltac:(lia) Hfb) as (r' & n & _ & Eds & _ & Hn & _ & Hn2).
  assert (datasetSize fuel prime number = Some (64 * n)) as Enum by (rewrite <- Eds; unfold datasetSize; by rewrite Hfb).
  destruct (make_dataset_ok ws r (2 * n) Hws) as (ds & E & Hag); [lia|].
  destruct (make_dataset_ok ws r n Hws) as (ds0 & E0 & _); [lia|]. exists ws, ds, (64 * n).
  unfold cache, dataset. fold e. rewrite Ht, Ec, Enum. split_and!; [done| |done|intros; rewrite Hag; replace (64 * (2 * n)) with (2 * (64 * n)) by lia; reflexivity].
  unfold dataset_generate. rewrite Hu, Hcs, Eds. cbn [of_option gbind]. rewrite Hmk. cbn [gbind].
  replace (64 * n / 4) with (16 * n) by (replace (64 * n) with (16 * n * 4) by lia; by rewrite Z.div_mul).
  replace (64 * n / 2) with (16 * (2 * n)) by (replace (64 * n) with (16 * (2 * n) * 2) by lia; by rewrite Z.div_mul).
  rewrite E0, E, Hf. unfold memoryMapAndGenerate. rewrite Hw. by case_bool_decide.
Qed.
End seal.

Definition demo_schedule (n : nat) : list Z := all_indices (4 * Z.of_nat n) 2.
Definition demo_header : Header :=
  mkHeader 7 0 0 0 0 0 [] 131072 250000 5000 0 1015 [] 0 (replicate 8 Byte.x00).
Definition demo_prime (n : Z) : bool := false.
Definition demo_sealed : Prop :=
  exists r, Seal (H := mix_prims) mix_512 true demo_prime 0 (fun _ => fresh) NewTester demo_schedule demo_header (replicate 1 Update ++ [Found 17 3]) = GOk r /\
    match r with
    | Some h => exists k mix, (k < 3)%nat /\ h = set_seal mix (be_bytes 8 (nonce_at 17 k)) demo_header /\
        verifies (H := mix_prims) mix_512 true demo_prime 0 (fun _ => fresh) NewTester h /\
        forall j mix', (j < k)%nat -> ~ verifies (H := mix_prims) mix_512 true demo_prime 0 (fun _ => fresh) NewTester (set_seal mix' (be_bytes 8 (nonce_at 17 j)) demo_header)
    | None => forall j mix', (j < 3)%nat -> ~ verifies (H := mix_prims) mix_512 true demo_prime 0 (fun _ => fresh) NewTester (set_seal mix' (be_bytes 8 (nonce_at 17 j)) demo_header)
    end.
Lemma Seal_exact_witness : demo_sealed.
Proof.
  apply (Seal_exact (H := mix_prims) mix_512 length_mix_512 true demo_prime 0 (fun _ => fresh) (fun _ => fresh) 2 ltac:(lia) ltac:(lia)
    demo_schedule (fun n => reflexivity _) NewTester demo_header 17 3 1).
  - reflexivity.
  - reflexivity.
  - reflexivity.
  - lia.
  - reflexivity.
  - reflexivity.
  - exact I.
  - exact I.
Defined.

Definition full_disk (epoch : Z) : Disk := mkDisk None false.
Lemma fallback_doubles_witness :
  exists ws ds dsize, cache (H := mix_prims) mix_512 true demo_prime 0 (fun _ => fresh) (New EmptyString 1 EmptyString 1) 250000 = GOk ws /\
    dataset (H := mix_prims) mix_512 true demo_prime 0 full_disk demo_schedule (New EmptyString 1 EmptyString 1) 250000 = GOk ds /\
    datasetSize 0 demo_prime 250000 = Some dsize /\
    forall hash nonce, hashimotoFull (H := mix_prims) mix_512 ds hash nonce = hashimotoLight (H := mix_prims) mix_512 (2 * dsize) ws hash nonce.
Proof.
  apply (fallback_doubles (H := mix_prims) mix_512 length_mix_512 true demo_prime 0 (fun _ => fresh) full_disk 2 ltac:(lia) ltac:(lia)
    demo_schedule (fun n => reflexivity _) (New EmptyString 1 EmptyString 1) 250000).
  - split; [discriminate|reflexivity].
  - reflexivity.
  - reflexivity.
  - reflexivity.
  - exact I.
Defined.
End BzhashSeal.
