(* ===== verification/BzhashRewards.v ===== *)
(** * Uncles, rewards and the DAO fork: theorems

    What [VerifyUncles] guarantees about the uncles of a block, what the rewards add to the supply
    of any state database that keeps the interface's promises, and what the DAO fork does to the
    balances of the journalled database. *)

From S2P Require Import Prelude GoMath Params World WorldFacts Rlp State StateProofs Ideal StateThms Types Misc Demo Hashimoto Bzhash.

Module BzhashRewards.
Import WorldFacts Types Misc Bzhash.

Section uncles.
Context `{CryptoPrims} (Keccak512 : list byte -> list byte) (little : bool) (prime : Z -> bool) (fuel : nat).
Context (cacheDisk : Z -> Disk).

(** [GetBlock] finds a block by its hash and its number. *)
Definition chain_ok (chain : Chain) : Prop := forall hash number b,
  GetBlock chain hash number = Some b ->
  header_Hash (b_header b) = hash /\ Number (b_header b) = number /\ number < 2 ^ 63.

(** ** Ancestors *)

Lemma gather_ancestors_ok n chain parent number us anc k a :
  chain_ok chain -> (n <= 7)%nat -> 0 <= number < 2 ^ 64 ->
  (gather_ancestors n chain parent number us anc).2 !! k = Some a ->
  anc !! k = Some a \/
  (number - Z.of_nat n < Number a <= number /\ Number a < 2 ^ 63 /\ (Number a = number -> k = parent)).
Proof.
  intros Hc. revert parent number us anc. induction n as [|n IH]; intros parent number us anc Hn7 Hn Hk; cbn [gather_ancestors] in Hk; [by left|].
  destruct (GetBlock chain parent number) as [b|] eqn:Eb; [|by left]. destruct (Hc _ _ _ Eb) as (Hh & Hnum & Hlt).
  assert (0 <= u64 (number - 1) < 2 ^ 64) as Hu by (by apply Z.mod_pos_bound).
  apply IH in Hk; [|lia|done]. destruct Hk as [Hk|(Hr & H63 & _)].
  - apply lookup_insert_Some in Hk as [[<- <-]|[_ Hk]]; [right; split_and!; [lia..|done]|by left].
  - destruct (decide (number = 0)) as [->|].
    + change (u64 (0 - 1)) with (2 ^ 64 - 1) in Hr. lia.
    + unfold u64 in Hr. rewrite (Z.mod_small (number - 1)) in Hr by lia. right. split_and!; lia.
Qed.

(** ** Uncles *)

Lemma verifyHeader_number bzhash chain h parent uncle seal :
  verifyHeader Keccak512 little prime fuel cacheDisk bzhash chain h parent uncle seal = GOk tt -> Number h = Number parent + 1.
Proof. intros Hv. unfold verifyHeader in Hv. ginv Hv. match goal with E : guard (_ =? 1) _ = _ |- _ => apply guard_ok in E; lia end. Qed.

Lemma verify_uncles_ok bzhash chain block anc us uncles :
  verify_uncles Keccak512 little prime fuel cacheDisk bzhash chain block anc uncles us = GOk tt ->
  NoDup (map header_Hash us) /\
  Forall (fun u => header_Hash u ∉ uncles /\ anc !! header_Hash u = None /\ ParentHash u <> ParentHash (b_header block) /\
    exists parent, anc !! ParentHash u = Some parent /\
      verifyHeader Keccak512 little prime fuel cacheDisk bzhash chain u parent true true = GOk tt) us.
Proof.
  revert uncles. induction us as [|u us IH]; intros uncles Hv; cbn [verify_uncles map] in *; [split; constructor|].
  cbv zeta in Hv. rewrite !gbind_ok in Hv. destruct Hv as (? & E1 & Hv). rewrite gbind_ok in Hv. destruct Hv as (? & E2 & Hv).
  destruct (anc !! ParentHash u) as [parent|] eqn:Ep; [|done]. rewrite !gbind_ok in Hv. destruct Hv as (? & E3 & Hv).
  rewrite gbind_ok in Hv. destruct Hv as ([] & E4 & Hv). apply guard_ok in E1, E2, E3. apply IH in Hv as [Hnd Hall].
  apply negb_true_iff, bool_decide_eq_false in E1. apply bool_decide_eq_true in E2. split.
  - constructor; [|done]. intros (u' & E & Hu')%list_elem_of_fmap. rewrite Forall_forall in Hall. destruct (Hall u' Hu') as [Hnot _]. set_solver.
  - constructor; [split_and!; [done|done|lia|by eexists]|]. eapply Forall_impl; [exact Hall|]. intros u' (Hn & ?). split; [set_solver|done].
Qed.

(** The uncles of the last seven ancestors *)
Definition past_uncles (chain : Chain) (block : Block) : gset Hash :=
  (gather_ancestors 7 chain (ParentHash (b_header block)) (u64 (Uint64 (Number (b_header block)) - 1)) ∅ ∅).1.

Lemma VerifyUncles_ok bzhash chain block :
  chain_ok chain -> 0 < Number (b_header block) < 2 ^ 63 -> fakeFull bzhash = false ->
  Forall (fun u => ParentHash u <> header_Hash (b_header block)) (Uncles block) ->
  VerifyUncles Keccak512 little prime fuel cacheDisk bzhash chain block = GOk tt ->
  (length (Uncles block) <= 2)%nat /\ NoDup (map header_Hash (Uncles block)) /\
  Forall (fun u => header_Hash u ∉ past_uncles chain block /\
    Number (b_header block) - 6 <= Number u <= Number (b_header block) - 1) (Uncles block).
Proof.
  intros Hc Hn Hf Hself Hv. unfold VerifyUncles in Hv. rewrite Hf, gbind_ok in Hv. destruct Hv as ([] & E1 & Hv). apply guard_ok in E1.
  assert (u64 (Uint64 (Number (b_header block)) - 1) = Number (b_header block) - 1) as En.
  { unfold Uint64, u64. rewrite Z.abs_eq, (Z.mod_small (Number _)), Z.mod_small by lia. done. }
  unfold past_uncles. rewrite En in *. destruct (gather_ancestors _ _ _ _ _ _) as [uncles anc] eqn:Eg. cbn [fst].
  apply verify_uncles_ok in Hv as [Hnd Hall]. split; [unfold zlen, maxUncles in E1; lia|]. split; [done|].
  rewrite Forall_forall in *. intros u Hu. destruct (Hall u Hu) as (Hno & _ & Hpar & parent & Hp & Hver). split; [set_solver|].
  apply verifyHeader_number in Hver. rewrite lookup_insert_ne in Hp by (intros E; by apply (Hself u Hu)).
  replace anc with (gather_ancestors 7 chain (ParentHash (b_header block)) (Number (b_header block) - 1) ∅ ∅).2 in Hp by (by rewrite Eg).
  apply gather_ancestors_ok in Hp as [Hp|(Hr & _ & Hfirst)]; [done| |done|lia..].
  assert (Number parent <> Number (b_header block) - 1) by (intros E; by apply Hpar, Hfirst). lia.
Qed.

(** ** Rewards *)

Definition sum_uncles (header : Header) (us : list Header) : Z :=
  foldr (fun u t => uncle_reward header u + t) 0 us.

Section state.
Context {S : Type} `{StateDBI S} `{!StateDBSpec S}.

Lemma supply_add a v w : supply (w_add_balance a v w) = supply w + v.
Proof. by apply supply_balance_upd. Qed.

Lemma reward_uncles_ok header us reward (s : S) : sd_wf s ->
  (reward_uncles header us reward s).1 = reward + zlen us * (blockReward / 32) /\
  sd_wf (reward_uncles header us reward s).2 /\
  supply (sd_abs (reward_uncles header us reward s).2) = supply (sd_abs s) + sum_uncles header us.
Proof.
  revert reward s. induction us as [|u us IH]; intros reward s Hs; cbn [reward_uncles fst snd]; [split_and!; [unfold zlen; cbn; lia|done|cbn; lia]|].
  destruct (AddBalance_ok (Coinbase u) (uncle_reward header u) s Hs) as (Hs' & Ha & _).
  destruct (IH (reward + blockReward / 32) _ Hs') as (-> & Hw & ->). split_and!; [rewrite zlen_cons; lia|done|].
  rewrite Ha, supply_add. unfold sum_uncles. cbn [foldr]. lia.
Qed.

Lemma sum_uncles_bounds header us :
  Forall (fun u => Number header - 6 <= Number u <= Number header - 1) us ->
  zlen us * (blockReward / 8 * 2) <= sum_uncles header us <= zlen us * (blockReward / 8 * 7).
Proof.
  induction 1 as [|u us Hu _ IH]; [done|]. rewrite zlen_cons. unfold sum_uncles in *. cbn [foldr].
  assert (uncle_reward header u = blockReward / 8 * (Number u + 8 - Number header)) as ->.
  2: { assert (0 <= blockReward / 8) as Hc by (vm_compute; discriminate). set (c := blockReward / 8) in *. set (m := Number u + 8 - Number header).
       assert (c * 2 <= c * m <= c * 7) by (split; apply Z.mul_le_mono_nonneg_l; lia). clearbody c. lia. }
  unfold uncle_reward. change blockReward with (blockReward / 8 * 8). rewrite Z.mul_assoc, !Z.div_mul by done. lia.
Qed.

(** C22: The money that a block creates is exact and bounded.  If [VerifyUncles] accepts a block of
    number between 1 and [2 ^ 63] (none of whose uncles names the block itself as its parent, a
    cycle of hashes), it has at most two uncles, with different hashes, none of them an uncle of
    the last seven ancestors, each one to six generations old.  [AccumulateRewards] then adds to
    the supply of the state exactly the block reward, 1/32 of it per uncle and the uncles'
    rewards, and each uncle is paid between 2/8 and 7/8 of the block reward. *)
Theorem rewards_bounded bzhash chain block (s : S) :
  chain_ok chain -> 0 < Number (b_header block) < 2 ^ 63 -> fakeFull bzhash = false ->
  Forall (fun u => ParentHash u <> header_Hash (b_header block)) (Uncles block) ->
  VerifyUncles Keccak512 little prime fuel cacheDisk bzhash chain block = GOk tt -> sd_wf s ->
  let s' := AccumulateRewards s (b_header block) (Uncles block) in
  let n := zlen (Uncles block) in
  n <= 2 /\ NoDup (map header_Hash (Uncles block)) /\
  Forall (fun u => header_Hash u ∉ past_uncles chain block /\
    Number (b_header block) - 6 <= Number u <= Number (b_header block) - 1) (Uncles block) /\
  sd_wf s' /\
  supply (sd_abs s') = supply (sd_abs s) + blockReward + n * (blockReward / 32) + sum_uncles (b_header block) (Uncles block) /\
  n * (blockReward / 8 * 2) <= sum_uncles (b_header block) (Uncles block) <= n * (blockReward / 8 * 7).
Proof.
  intros Hc Hn Hf Hself Hv Hs. cbv zeta. destruct (VerifyUncles_ok bzhash chain block Hc Hn Hf Hself Hv) as (Hl & Hnd & Hall).
  split; [unfold zlen; lia|]. split; [done|]. split; [done|].
  destruct (reward_uncles_ok (b_header block) (Uncles block) blockReward s Hs) as (Hr & Hw & Hsup). unfold AccumulateRewards.
  destruct (reward_uncles _ _ _ s) as [reward s1]. cbn [fst snd] in *. subst reward.
  destruct (AddBalance_ok (Coinbase (b_header block)) (blockReward + zlen (Uncles block) * (blockReward / 32)) s1 Hw) as (Hw' & -> & _).
  split; [done|]. split; [rewrite supply_add; lia|]. apply sum_uncles_bounds. eapply Forall_impl; [exact Hall|]. by intros u [_ ?].
Qed.
End state.
End uncles.

(** ** The DAO fork *)

Section dao.
Context `{CryptoPrims}.
Import Dao StateProofs.

Definition w_set_balance (a : Address) (v : Z) : world -> world := w_upd a (ac_set_balance v).
Lemma SetBalance_upd a v : upd_ok wf abs later (State.SetBalance a v) (w_set_balance a v).
Proof. exact (on_object_ok _ _ a (SetBalance_method v) (fun x H => H)). Qed.

Definition total (accounts : list Address) (w : world) : Z := foldr (fun a t => w_balance a w + t) 0 accounts.
Lemma total_ext accounts w w' : (forall a, a ∈ accounts -> w_balance a w = w_balance a w') -> total accounts w = total accounts w'.
Proof. induction accounts as [|a l IH]; intros He; [done|]. unfold total in *. cbn. rewrite He by left. f_equal. apply IH. intros. apply He. by right. Qed.

(** One account is emptied into the refund contract. *)
Definition w_move (a : Address) (w : world) : world := w_set_balance a 0 (w_add_balance DAORefundContract (w_balance a w) w).
Lemma w_move_acct a b w : b <> a -> b <> DAORefundContract -> w_acct b (w_move a w) = w_acct b w.
Proof. intros Ha Hb. unfold w_move, w_set_balance, w_add_balance, w_acct, w_upd. cbn. by rewrite !lookup_insert_ne by done. Qed.
Lemma w_move_balance a w : a <> DAORefundContract ->
  w_balance a (w_move a w) = 0 /\ w_balance DAORefundContract (w_move a w) = w_balance DAORefundContract w + w_balance a w /\
  supply (w_move a w) = supply w.
Proof.
  intros Ha. unfold w_move, w_set_balance. split_and!; [by rewrite w_balance_upd_eq| |].
  - rewrite w_balance_upd_ne by done. unfold w_add_balance. rewrite w_balance_upd_eq. unfold w_balance, w_acct. by destruct (w_accts w !! DAORefundContract).
  - set (w1 := w_add_balance _ _ w). assert (w_balance a w1 = w_balance a w) as E1 by (by apply w_balance_upd_ne).
    change (w_upd a (ac_set_balance 0) w1) with (set_accts (fun m => <[a := ac_set_balance 0 (default new_acct (w_accts w1 !! a))]> m) w1).
    rewrite supply_set, E1. unfold w1. rewrite supply_add. cbn. lia.
Qed.

Lemma drain_ok l s : NoDup l -> DAORefundContract ∉ l -> wf s ->
  wf (drain l s) /\ supply (abs (drain l s)) = supply (abs s) /\
  (forall a, a ∈ l -> w_balance a (abs (drain l s)) = 0) /\
  (forall a, a ∉ l -> a <> DAORefundContract -> w_acct a (abs (drain l s)) = w_acct a (abs s)) /\
  w_balance DAORefundContract (abs (drain l s)) = w_balance DAORefundContract (abs s) + total l (abs s).
Proof.
  revert s. induction l as [|a l IH]; intros s Hnd Hnot Hs.
  { cbn. split_and!; try done; [intros a Ha; by apply elem_of_nil in Ha|lia]. }
  apply NoDup_cons in Hnd as [Ha Hnd]. apply not_elem_of_cons in Hnot as [Har Hnot]. cbn [drain].
  destruct (GetBalance_get a s Hs) as (Eb & Hs1 & Ea1 & _). destruct (State.GetBalance a s) as [balance s1]. cbn [fst snd] in *. subst balance.
  destruct (AddBalance_upd DAORefundContract (w_balance a (abs s)) s1 Hs1) as (Hs2 & Ea2 & _).
  destruct (SetBalance_upd a 0 _ Hs2) as (Hs3 & Ea3 & _). rewrite Ea2, Ea1 in Ea3. fold (w_move a (abs s)) in Ea3.
  set (s3 := State.SetBalance _ _ _) in *. destruct (IH s3 Hnd Hnot Hs3) as (Hw & Hsup & Hz & Ho & Hr). rewrite Ea3 in *.
  destruct (w_move_balance a (abs s) ltac:(done)) as (Hb0 & Hbr & Hbs). split_and!; [done|by rewrite Hsup| | |].
  - intros b [->|Hb]%elem_of_cons; [|by apply Hz]. unfold w_balance. rewrite Ho by done. exact Hb0.
  - intros b [Hba Hbl]%not_elem_of_cons Hbr'. rewrite Ho, w_move_acct by done. done.
  - rewrite Hr, Hbr. unfold total at 2. cbn [foldr]. fold (total l (abs s)). rewrite (total_ext l (w_move a (abs s)) (abs s)); [lia|].
    intros b Hb. unfold w_balance. rewrite w_move_acct; [done|congruence|congruence].
Qed.

Lemma DAODrainList_ok : NoDup DAODrainList /\ DAORefundContract ∉ DAODrainList.
Proof. split; [apply (bool_decide_unpack _)|apply (bool_decide_unpack _)]; vm_compute; exact I. Qed.

(** The DAO fork moves money and creates none.  On every well-formed state database
    [ApplyDAOHardFork] keeps it well-formed and keeps the total supply; every listed account is
    left with nothing, the refund contract gets the sum of their balances on top of its own, and
    no other account changes in any way. *)
Theorem ApplyDAOHardFork_conserves (s : State.StateDB) : wf s ->
  let w := abs s in
  let w' := abs (ApplyDAOHardFork s) in
  wf (ApplyDAOHardFork s) /\ supply w' = supply w /\
  (forall a, a ∈ DAODrainList -> w_balance a w' = 0) /\
  w_balance DAORefundContract w' = w_balance DAORefundContract w + total DAODrainList w /\
  (forall a, a ∉ DAODrainList -> a <> DAORefundContract -> w_acct a w' = w_acct a w).
Proof.
  intros Hs. cbv zeta. destruct DAODrainList_ok as [Hnd Hnot]. unfold ApplyDAOHardFork.
  destruct (Exist_get DAORefundContract s Hs) as (_ & Hs1 & Ea1 & _). destruct (State.Exist DAORefundContract s) as [ex s1]. cbn [fst snd] in *.
  set (s2 := if ex then s1 else _).
  assert (wf s2 /\ supply (abs s2) = supply (abs s) /\ (forall a, w_balance a (abs s2) = w_balance a (abs s)) /\
    (forall a, a <> DAORefundContract -> w_acct a (abs s2) = w_acct a (abs s))) as (Hs2 & Hsup & Hbal & Hacct).
  { unfold s2. destruct ex; [by rewrite Ea1|]. destruct (CreateAccount_upd DAORefundContract s1 Hs1) as (Hs2 & -> & _). rewrite Ea1.
    split; [done|]. unfold w_create. split; [rewrite supply_set; cbn; lia|]. split.
    - intros a. unfold w_balance at 1, w_acct. cbn. destruct (decide (a = DAORefundContract)) as [->|];
        [rewrite lookup_insert_eq|rewrite lookup_insert_ne by done]; done.
    - intros a Ha. unfold w_acct. cbn. by rewrite lookup_insert_ne. }
  destruct (drain_ok DAODrainList s2 Hnd Hnot Hs2) as (Hw & Hsup' & Hz & Ho & Hr).
  split_and!; [done|by rewrite Hsup'|done| |intros a H1 H2; rewrite Ho by done; by apply Hacct].
  rewrite Hr, Hbal, (total_ext DAODrainList (abs s2) (abs s)); auto.
Qed.
End dao.

Definition demo_homestead : ChainConfig := mkChainConfig None (Some 0) None false None 0 None None None.
Definition demo_head (parent : Hash) (number time : Z) (difficulty : Z) : Header :=
  mkHeader parent 0 11 0 0 0 [] difficulty number 4712388 0 time [] 0 (replicate 8 Byte.x00).
Definition demo_b8 : Block := mkBlock (demo_head 1 8 1000 200000) [].
Definition demo_b9 : Block := mkBlock (demo_head (header_Hash (b_header demo_b8)) 9 1010 200000) [].
Definition demo_uncle : Header :=
  demo_head (header_Hash (b_header demo_b8)) 9 1015 (CalcDifficulty demo_homestead 1015 (b_header demo_b8)).
Definition demo_block : Block := mkBlock (demo_head (header_Hash (b_header demo_b9)) 10 1030 200000) [demo_uncle].
Definition demo_chain : Chain :=
  mkChain demo_homestead (fun _ _ => None)
    (fun h n => if (h =? header_Hash (b_header demo_b9)) && (n =? 9) then Some demo_b9
                else if (h =? header_Hash (b_header demo_b8)) && (n =? 8) then Some demo_b8 else None) 2000.
Definition demo_disk (epoch : Z) : Disk := mkDisk None true.
Lemma demo_block_numbers : Number (b_header demo_b8) = 8 /\ Number (b_header demo_b9) = 9.
Proof. split; reflexivity. Qed.
#[local] Opaque header_Hash demo_b8 demo_b9.
Lemma demo_uncle_chain_ok : chain_ok demo_chain.
Proof.
  intros hash number b Hb. unfold demo_chain in Hb. cbn [GetBlock] in Hb.
  destruct (_ && _) eqn:E9 in Hb.
  - apply andb_prop in E9 as [E%Z.eqb_eq N%Z.eqb_eq]. apply Some_inj in Hb. subst b. rewrite N.
    split; [exact (eq_sym E)|]. split; [exact (proj2 demo_block_numbers)|reflexivity].
  - destruct (_ && _) eqn:E8 in Hb; [|discriminate Hb]. apply andb_prop in E8 as [E%Z.eqb_eq N%Z.eqb_eq].
    apply Some_inj in Hb. subst b. rewrite N. split; [exact (eq_sym E)|]. split; [exact (proj1 demo_block_numbers)|reflexivity].
Qed.
#[local] Transparent header_Hash demo_b8 demo_b9.
Lemma demo_uncles_accepted :
  VerifyUncles mix_512 true (fun _ => false) 0 demo_disk NewFaker demo_chain demo_block = GOk tt.
Proof. vm_compute. reflexivity. Qed.
Lemma demo_not_own_parent : Forall (fun u => ParentHash u <> header_Hash (b_header demo_block)) (Uncles demo_block).
Proof. apply Forall_cons. split; [|apply Forall_nil; exact I]. apply Z.eqb_neq. vm_compute. reflexivity. Qed.

Import StateProofs.
Lemma rewards_bounded_witness :
  let s' := AccumulateRewards (State.New ∅ ∅ ∅) (b_header demo_block) (Uncles demo_block) in
  let n := zlen (Uncles demo_block) in
  n <= 2 /\ NoDup (map header_Hash (Uncles demo_block)) /\
  Forall (fun u => header_Hash u ∉ past_uncles demo_chain demo_block /\
    Number (b_header demo_block) - 6 <= Number u <= Number (b_header demo_block) - 1) (Uncles demo_block) /\
  sd_wf s' /\
  supply (sd_abs s') = supply (sd_abs (State.New ∅ ∅ ∅)) + blockReward + n * (blockReward / 32) + sum_uncles (b_header demo_block) (Uncles demo_block) /\
  n * (blockReward / 8 * 2) <= sum_uncles (b_header demo_block) (Uncles demo_block) <= n * (blockReward / 8 * 7).
Proof.
  exact (rewards_bounded mix_512 true (fun _ => false) 0 demo_disk NewFaker demo_chain demo_block (State.New ∅ ∅ ∅)
    demo_uncle_chain_ok (conj eq_refl eq_refl) eq_refl demo_not_own_parent demo_uncles_accepted (StateThms.wf_New_empty ∅)).
Defined.

Definition demo_dao : State.StateDB := State.AddBalance 0xd4fe7bc31cedb7bfb8a345f31e668033056b2728 77 (State.New ∅ ∅ ∅).
Lemma demo_dao_wf : StateProofs.wf demo_dao.
Proof.
  exact (proj1 (StateProofs.AddBalance_upd 0xd4fe7bc31cedb7bfb8a345f31e668033056b2728 77 (State.New ∅ ∅ ∅) (StateThms.wf_New_empty ∅))).
Qed.
Lemma ApplyDAOHardFork_conserves_witness :
  let w := StateProofs.abs demo_dao in
  let w' := StateProofs.abs (Dao.ApplyDAOHardFork demo_dao) in
  StateProofs.wf (Dao.ApplyDAOHardFork demo_dao) /\ supply w' = supply w /\
  (forall a, a ∈ Dao.DAODrainList -> w_balance a w' = 0) /\
  w_balance Dao.DAORefundContract w' = w_balance Dao.DAORefundContract w + total Dao.DAODrainList w /\
  (forall a, a ∉ Dao.DAODrainList -> a <> Dao.DAORefundContract -> w_acct a w' = w_acct a w).
Proof. exact (ApplyDAOHardFork_conserves demo_dao demo_dao_wf). Defined.
End BzhashRewards.
