(* ===== verification/Bloom.v ===== *)
(** * Receipts and log blooms ([core/types/bloom9.go], [receipt.go])

    A bloom is an array of 256 bytes, written through big integers.  [None] is a panic. *)

From S2P Require Import Prelude GoMath World Types.

Module Bloom.

Definition bloomLength : nat := 256.
Definition Bloom := list byte.
Definition zero_bloom : Bloom := zeros bloomLength.

(** ** Blooms *)

(** [copy(b[bloomLength-len(d):], d)] *)
Definition bloom_SetBytes (b : Bloom) (d : list byte) : option Bloom :=
  if (length b <? length d)%nat then None else Some (take (bloomLength - length d) b ++ d).
Definition BytesToBloom (b : list byte) : option Bloom := bloom_SetBytes zero_bloom b.
Definition Big (b : Bloom) : Z := SetBytes b.

Section prims.
Context `{CryptoPrims}.

(** The three bits of an entry: the low 11 bits of the first three pairs of bytes of its hash *)
Definition bloom_bit (h : list byte) (i : nat) : Z :=
  Z.land (byte_to_Z (nth (i + 1) h Byte.x00) + Z.shiftl (byte_to_Z (nth i h Byte.x00)) 8) 2047.
Definition bloom9 (b : list byte) : Z :=
  let h := Keccak256 b in
  fold_left (fun r i => Z.lor r (Z.shiftl 1 (bloom_bit h i))) [0; 2; 4]%nat 0.

Definition bloom_Add (d : Z) (b : Bloom) : option Bloom :=
  bloom_SetBytes b (Bytes (Z.lor (SetBytes b) (bloom9 (Bytes d)))).
(** [topic] is [topic.Bytes()]. *)
Definition BloomLookup (bin : Bloom) (topic : list byte) : bool :=
  let cmp := bloom9 topic in Z.land (Big bin) cmp =? cmp.
Definition Test (b : Bloom) (test : Z) : bool := BloomLookup b (Bytes test).
Definition TestBytes (b : Bloom) (test : list byte) : bool := Test b (SetBytes test).

Definition log_bloom (bin : Z) (log : Log) : Z :=
  fold_left (fun bin t => Z.lor bin (bloom9 (be_bytes 32 t))) (log_Topics log)
            (Z.lor bin (bloom9 (be_bytes 20 (log_Address log)))).
Definition LogsBloom (logs : list Log) : Z := fold_left log_bloom logs 0.
End prims.

(** ** Receipts *)

Record Receipt := mkReceipt {
  PostState : list byte;
  CumulativeGasUsed : Z;
  r_Bloom : Bloom;
  Logs : list Log;
  r_TxHash : Hash;
  ContractAddress : Address;
  r_GasUsed : Z;
}.
Definition NewReceipt (root : list byte) (cumulativeGasUsed : Z) : Receipt :=
  mkReceipt root cumulativeGasUsed zero_bloom [] 0 0 0.

Definition receipts_bloom `{CryptoPrims} (receipts : list Receipt) : Z :=
  fold_left (fun bin receipt => Z.lor bin (LogsBloom (Logs receipt))) receipts 0.
Definition CreateBloom `{CryptoPrims} (receipts : list Receipt) : option Bloom :=
  BytesToBloom (Bytes (receipts_bloom receipts)).

(** ** Bits *)

(** All bits of [x] are bits of [y]. *)
Definition within (x y : Z) : Prop := Z.land y x = x.
Definition in_bloom (x : Z) : Prop := 0 <= x < 2 ^ 2048.

Lemma within_spec x y : within x y <-> forall i, Z.testbit x i = true -> Z.testbit y i = true.
Proof.
  unfold within. split.
  - intros E i Hi. rewrite <- E, Z.land_spec in Hi. by apply andb_true_iff in Hi as [? _].
  - intros Hi. apply Z.bits_inj'. intros i _. rewrite Z.land_spec. destruct (Z.testbit x i) eqn:E; [by rewrite Hi|by rewrite andb_false_r].
Qed.
Lemma within_refl x : within x x.
Proof. apply Z.land_diag. Qed.
Lemma within_or_l x y z : within x y -> within x (Z.lor y z).
Proof. rewrite !within_spec. intros Hi i Hx. by rewrite Z.lor_spec, Hi. Qed.
Lemma within_or_r x y z : within x z -> within x (Z.lor y z).
Proof. rewrite Z.lor_comm. apply within_or_l. Qed.
Lemma in_bloom_or x y : in_bloom x -> in_bloom y -> in_bloom (Z.lor x y).
Proof.
  unfold in_bloom. intros [X1 X2] [Y1 Y2]. assert (0 <= Z.lor x y) as Hp by (by apply Z.lor_nonneg). split; [done|].
  destruct (decide (Z.lor x y = 0)) as [->|Hne]; [done|]. apply Z.log2_lt_pow2; [lia|]. rewrite Z.log2_lor by done.
  apply Z.max_lub_lt; [destruct (decide (x = 0)) as [->|]; [done|]|destruct (decide (y = 0)) as [->|]; [done|]]; apply Z.log2_lt_pow2; lia.
Qed.
Lemma lor_le a b : 0 <= a -> 0 <= b -> a <= Z.lor a b.
Proof.
  intros Ha Hb. assert (Z.ldiff a (Z.lor a b) = 0) as E.
  { apply Z.bits_inj'. intros i _. rewrite Z.ldiff_spec, Z.lor_spec, Z.bits_0. by destruct (Z.testbit a i). }
  apply Z.sub_nocarry_ldiff in E. assert (0 <= Z.ldiff (Z.lor a b) a) by (apply Z.ldiff_nonneg; left; by apply Z.lor_nonneg). lia.
Qed.
#[export] Hint Resolve within_refl within_or_l within_or_r in_bloom_or : bloom.

Section facts.
Context `{CryptoPrims}.

Lemma bloom_bit_range h i : 0 <= bloom_bit h i < 2048.
Proof. unfold bloom_bit. rewrite (Z.land_ones _ 11) by lia. by apply Z.mod_pos_bound. Qed.
Lemma bloom9_in b : in_bloom (bloom9 b).
Proof.
  unfold bloom9. cbn [fold_left]. assert (forall h i, in_bloom (Z.shiftl 1 (bloom_bit h i))) as Hs.
  { intros h i. pose proof (bloom_bit_range h i). rewrite Z.shiftl_1_l. split; [apply Z.pow_nonneg; lia|apply Z.pow_lt_mono_r; lia]. }
  repeat apply in_bloom_or; done.
Qed.
Lemma fold_lor {A} (f : A -> Z) l x : fold_left (fun r a => Z.lor r (f a)) l x = Z.lor x (foldr (fun a r => Z.lor (f a) r) 0 l).
Proof. revert x. induction l as [|a l IH]; intros x; cbn; [by rewrite Z.lor_0_r|]. by rewrite IH, Z.lor_assoc. Qed.
(** The entries of the bloom of a log *)
Definition entries (log : Log) : list (list byte) := be_bytes 20 (log_Address log) :: map (be_bytes 32) (log_Topics log).
Fixpoint bits_of (es : list (list byte)) : Z := match es with [] => 0 | e :: es' => Z.lor (bloom9 e) (bits_of es') end.
Lemma bits_of_app a b : bits_of (a ++ b) = Z.lor (bits_of a) (bits_of b).
Proof. induction a as [|x a IH]; [done|]. cbn [app bits_of]. by rewrite IH, Z.lor_assoc. Qed.
Lemma bits_of_in es : in_bloom (bits_of es).
Proof. induction es as [|e es IH]; [done|]. apply in_bloom_or; [apply bloom9_in|done]. Qed.
Lemma bits_of_within e es : e ∈ es -> within (bloom9 e) (bits_of es).
Proof. induction 1; cbn [bits_of]; eauto with bloom. Qed.
Lemma log_bloom_entries bin log : log_bloom bin log = Z.lor bin (bits_of (entries log)).
Proof.
  unfold log_bloom. rewrite fold_lor. cbn [entries bits_of]. rewrite Z.lor_assoc. f_equal. induction (log_Topics log) as [|t l IH]; [done|]. cbn [foldr map bits_of]. by rewrite IH.
Qed.
Lemma LogsBloom_entries logs : LogsBloom logs = bits_of (concat (map entries logs)).
Proof.
  unfold LogsBloom. assert (forall x, fold_left log_bloom logs x = Z.lor x (bits_of (concat (map entries logs)))) as E; [|by rewrite E].
  induction logs as [|log logs IH]; intros x; [symmetry; apply Z.lor_0_r|]. cbn [fold_left map concat]. by rewrite IH, log_bloom_entries, bits_of_app, Z.lor_assoc.
Qed.
Definition all_logs (receipts : list Receipt) : list Log := concat (map Logs receipts).
(** The bloom of the receipts is the bloom of all their logs. *)
Lemma receipts_bloom_entries receipts : receipts_bloom receipts = bits_of (concat (map entries (all_logs receipts))).
Proof.
  unfold receipts_bloom. rewrite fold_lor. change (Z.lor 0 ?x) with x. unfold all_logs. induction receipts as [|r rs IH]; [done|].
  cbn [foldr map concat]. by rewrite IH, LogsBloom_entries, map_app, concat_app, bits_of_app.
Qed.

Lemma length_Bytes_bloom x : in_bloom x -> (length (Bytes x) <= 256)%nat.
Proof.
  intros Hx. unfold Bytes. rewrite length_be_bytes. assert (BitLen x <= 2048) as Hb by (apply BitLen_bound; unfold in_bloom in *; lia).
  assert ((BitLen x + 7) / 8 <= 256); [|lia]. apply Z.lt_succ_r, Z.div_lt_upper_bound; lia.
Qed.
Lemma BytesToBloom_ok x : in_bloom x -> exists b, BytesToBloom (Bytes x) = Some b /\ length b = 256%nat /\ Big b = x.
Proof.
  intros Hx. pose proof (length_Bytes_bloom x Hx) as Hl. unfold BytesToBloom, bloom_SetBytes. rewrite (proj2 (Nat.ltb_ge _ _)) by done. eexists. split; [done|].
  unfold bloomLength, zero_bloom, zeros, bloomLength. rewrite take_replicate, length_app, length_replicate. split; [lia|].
  unfold Big. rewrite SetBytes_app. fold (zeros (Nat.min (256 - length (Bytes x)) 256)). rewrite SetBytes_zeros, SetBytes_Bytes by (unfold in_bloom in Hx; lia). lia.
Qed.
(** Blooms only grow: what is left of the old bytes in front of the new ones is zero. *)
Lemma bloom_Add_ok d b : length b = 256%nat -> exists b', bloom_Add d b = Some b' /\ length b' = 256%nat /\ Big b' = Z.lor (Big b) (bloom9 (Bytes d)).
Proof.
  intros Hb. set (x := Z.lor (SetBytes b) (bloom9 (Bytes d))). assert (in_bloom (SetBytes b)) as Hs.
  { pose proof (SetBytes_bound b) as Hr. unfold zlen in Hr. rewrite Hb in Hr. exact Hr. }
  assert (in_bloom x) as Hx by (apply in_bloom_or; [done|apply bloom9_in]). pose proof (length_Bytes_bloom x Hx) as Hl.
  unfold bloom_Add, bloom_SetBytes. fold x. rewrite (proj2 (Nat.ltb_ge _ _)) by lia. eexists. split; [done|]. unfold bloomLength.
  rewrite length_app, length_take, Hb. split; [lia|]. unfold Big. rewrite SetBytes_app, SetBytes_Bytes by (unfold in_bloom in Hx; lia).
  set (k := (256 - length (Bytes x))%nat). assert (SetBytes (take k b) = 0) as ->; [|unfold x; lia].
  pose proof (lor_le (SetBytes b) (bloom9 (Bytes d))) as Hle. fold x in Hle. destruct Hs as [Hs _]. specialize (Hle Hs (proj1 (bloom9_in (Bytes d)))).
  pose proof (SetBytes_bound (Bytes x)) as Hr. rewrite SetBytes_Bytes in Hr by (unfold in_bloom in Hx; lia).
  rewrite <- (take_drop k b), SetBytes_app in Hle. assert (zlen (drop k b) = zlen (Bytes x)) as El by (unfold zlen; rewrite length_drop; lia). rewrite El in Hle.
  pose proof (SetBytes_bound (take k b)). pose proof (SetBytes_bound (drop k b)). nia.
Qed.

(** A lookup is a test of all bits. *)
Lemma BloomLookup_within b e : BloomLookup b e = true <-> within (bloom9 e) (Big b).
Proof. apply Z.eqb_eq. Qed.
Lemma CreateBloom_ok receipts : exists b, CreateBloom receipts = Some b /\ length b = 256%nat /\ Big b = bits_of (concat (map entries (all_logs receipts))).
Proof. unfold CreateBloom. rewrite receipts_bloom_entries. apply BytesToBloom_ok, bits_of_in. Qed.
Lemma CreateBloom_finds receipts b log e : CreateBloom receipts = Some b -> log ∈ all_logs receipts -> e ∈ entries log -> BloomLookup b e = true.
Proof.
  intros E Hl He. destruct (CreateBloom_ok receipts) as (b' & E' & _ & Eb). rewrite E in E'. injection E' as <-. apply BloomLookup_within. rewrite Eb. apply bits_of_within.
  apply list_elem_of_In, in_concat. exists (entries log). split; [|by apply list_elem_of_In]. apply in_map. by apply list_elem_of_In.
Qed.
End facts.
End Bloom.
