(* ===== verification/ChainTypes.v ===== *)
(** * Blocks, receipts and logs on the wire ([core/types])

    The RLP forms of transactions, headers, logs, receipts and blocks ([EncodeRLP] and [DecodeRLP], on
    the wire and for storage), the root hash of a list ([derive_sha.go]), the construction of blocks
    ([block.go]) and the checks of a block against its body and its receipts ([block_validator.go]).  The
    fields of a block that cache or track something are left out. *)

From S2P Require Import Prelude GoMath World Rlp RlpStream Trie Types Transactions Bloom.

Module ChainTypes.
Import Rlp RlpStream Types Transactions Bloom.

(** ** Types, as the decoder sees them *)

Definition hash_type : dtype := TByteArray 32.
Definition address_type : dtype := TByteArray 20.
Definition txdata_type : dtype :=
  TStruct [TUint 64; TBigInt; TBigInt; TOptPtr address_type; TBigInt; TByteSlice; TBigInt; TBigInt; TBigInt].
Definition header_type : dtype :=
  TStruct [hash_type; hash_type; address_type; hash_type; hash_type; hash_type; TByteArray 256; TBigInt; TBigInt; TBigInt; TBigInt; TBigInt;
           TByteSlice; hash_type; TByteArray 8].
Definition rlpLog : dtype := TStruct [address_type; TSlice false hash_type; TByteSlice].
Definition rlpStorageLog : dtype :=
  TStruct [address_type; TSlice false hash_type; TByteSlice; TUint 64; hash_type; TUint 64; hash_type; TUint 64].
Definition receipt_type : dtype := TStruct [TByteSlice; TBigInt; TByteArray 256; TSlice false rlpLog].
Definition receiptForStorage_type : dtype :=
  TStruct [TByteSlice; TBigInt; TByteArray 256; hash_type; address_type; TSlice false rlpStorageLog; TBigInt].
Definition extblock : dtype := TStruct [TPtr header_type; TSlice false txdata_type; TSlice false (TPtr header_type)].

(** ** Blocks *)

Record Block := mkBlock { b_header : Header; transactions : list Transaction; uncles : list Header }.

(** ** Values *)

Definition log_value (l : Log) : value :=
  VStruct [VBytes (be_bytes 20 (log_Address l)); VSlice false (map (fun t => VBytes (be_bytes 32 t)) (log_Topics l)); VBytes (log_Data l)].
Definition storageLog_value (l : Log) : value :=
  VStruct [VBytes (be_bytes 20 (log_Address l)); VSlice false (map (fun t => VBytes (be_bytes 32 t)) (log_Topics l)); VBytes (log_Data l);
           VUint (log_BlockNumber l); VBytes (be_bytes 32 (log_TxHash l)); VUint (log_TxIndex l); VBytes (be_bytes 32 (log_BlockHash l)); VUint (log_Index l)].
(** A receipt is written as a list of interfaces and read as a struct. *)
Definition receipt_fields (r : Receipt) : list value :=
  [VBytes (PostState r); VBigInt (Some (CumulativeGasUsed r)); VBytes (r_Bloom r); VSlice false (map log_value (Logs r))].
Definition receipt_value (r : Receipt) : value := VSlice false (receipt_fields r).
Definition storageReceipt_fields (r : Receipt) : list value :=
  [VBytes (PostState r); VBigInt (Some (CumulativeGasUsed r)); VBytes (r_Bloom r); VBytes (be_bytes 32 (r_TxHash r));
   VBytes (be_bytes 20 (ContractAddress r)); VSlice false (map storageLog_value (Logs r)); VBigInt (Some (r_GasUsed r))].
Definition storageReceipt_value (r : Receipt) : value := VSlice false (storageReceipt_fields r).
Definition block_value (b : Block) : value :=
  VStruct [header_value (b_header b); VSlice false (map tx_value (transactions b)); VSlice false (map header_value (uncles b))].

(** What is assigned from a decoded value; [None] when it does not have the type. *)
Definition fixed_of (v : value) : option Z := match v with VBytes b => Some (SetBytes b) | _ => None end.
Definition bytes_of (v : value) : option (list byte) := match v with VBytes b => Some b | _ => None end.
Definition big_of (v : value) : option Z := match v with VBigInt i => i | _ => None end.
Definition uint_of (v : value) : option Z := match v with VUint i => Some i | _ => None end.
Definition list_of {A} (f : value -> option A) (v : value) : option (list A) := match v with VSlice false l => mapM f l | _ => None end.
Definition recipient_of (v : value) : option (option Address) :=
  match v with VNilByteArray => Some None | VBytes b => Some (Some (SetBytes b)) | _ => None end.

Definition tx_of (v : value) : option Transaction :=
  match v with
  | VStruct [n; p; g; r; a; d; sv; sr; ss] =>
      n ← uint_of n; p ← big_of p; g ← big_of g; r ← recipient_of r; a ← big_of a; d ← bytes_of d;
      sv ← big_of sv; sr ← big_of sr; ss ← big_of ss; Some (mkTransaction n p g r a d sv sr ss)
  | _ => None
  end.
Definition header_of (v : value) : option Header :=
  match v with
  | VStruct [ph; uh; cb; rt; th; rh; bl; df; nr; gl; gu; tm; ex; mx; nc] =>
      ph ← fixed_of ph; uh ← fixed_of uh; cb ← fixed_of cb; rt ← fixed_of rt; th ← fixed_of th; rh ← fixed_of rh; bl ← bytes_of bl;
      df ← big_of df; nr ← big_of nr; gl ← big_of gl; gu ← big_of gu; tm ← big_of tm; ex ← bytes_of ex; mx ← fixed_of mx; nc ← bytes_of nc;
      Some (mkHeader ph uh cb rt th rh bl df nr gl gu tm ex mx nc)
  | _ => None
  end.
(** [DecodeRLP] of a log leaves the fields outside the consensus as they are: [l]. *)
Definition log_of (l : Log) (v : value) : option Log :=
  match v with
  | VStruct [a; t; d] =>
      a ← fixed_of a; t ← list_of fixed_of t; d ← bytes_of d;
      Some (mkLog a t d (log_BlockNumber l) (log_TxHash l) (log_TxIndex l) (log_BlockHash l) (log_Index l))
  | _ => None
  end.
Definition storageLog_of (v : value) : option Log :=
  match v with
  | VStruct [a; t; d; bn; th; ti; bh; i] =>
      a ← fixed_of a; t ← list_of fixed_of t; d ← bytes_of d; bn ← uint_of bn; th ← fixed_of th; ti ← uint_of ti; bh ← fixed_of bh; i ← uint_of i;
      Some (mkLog a t d bn th ti bh i)
  | _ => None
  end.
Definition new_log : Log := mkLog 0 [] [] 0 0 0 0 0.
Definition receipt_of (r : Receipt) (v : value) : option Receipt :=
  match v with
  | VStruct [ps; cg; bl; ls] =>
      ps ← bytes_of ps; cg ← big_of cg; bl ← bytes_of bl; ls ← list_of (log_of new_log) ls;
      Some (mkReceipt ps cg bl ls (r_TxHash r) (ContractAddress r) (r_GasUsed r))
  | _ => None
  end.
Definition storageReceipt_of (v : value) : option Receipt :=
  match v with
  | VStruct [ps; cg; bl; th; ca; ls; gu] =>
      ps ← bytes_of ps; cg ← big_of cg; bl ← bytes_of bl; th ← fixed_of th; ca ← fixed_of ca; ls ← list_of storageLog_of ls; gu ← big_of gu;
      Some (mkReceipt ps cg bl ls th ca gu)
  | _ => None
  end.
Definition block_of (v : value) : option Block :=
  match v with
  | VStruct [h; txs; us] => h ← header_of h; txs ← list_of tx_of txs; us ← list_of header_of us; Some (mkBlock h txs us)
  | _ => None
  end.

(** [rlp.DecodeBytes] into a value of the type *)
Definition decode_as {A} (t : dtype) (from : value -> option A) (b : list byte) : option A :=
  match DecodeBytes b t with inr v => from v | inl _ => None end.

Section prims.
Context `{CryptoPrims}.

(** ** The root of a list ([derive_sha.go]) *)

Notation res := Trie.res.
(** [Update] logs the errors of [TryUpdate]. *)
Definition Update (t : Trie.Trie) (key value : list byte) : res Trie.Trie :=
  match Trie.TryUpdate t key value with
  | Trie.Missing _ | Trie.Invalid => Trie.Done t
  | x => x
  end.
Definition derive_key (i : Z) : list byte := default [] (EncodeToBytes (VUint i)).
Fixpoint derive_loop (i : Z) (list : list (list byte)) (trie : Trie.Trie) : res Trie.Trie :=
  match list with
  | [] => Trie.Done trie
  | x :: list' => Trie.rbind (Update trie (derive_key i) x) (derive_loop (i + 1) list')
  end.
(** [list] holds the encodings [GetRlp] returns. *)
Definition DeriveSha (list : list (list byte)) : res Hash :=
  Trie.rbind (derive_loop 0 list (Trie.mkTrie Trie.NilN None 0 0 0)) (fun trie => Trie.rbind (Trie.Hash trie) (fun '(h, _) => Trie.Done h)).

(** [Transactions.GetRlp] ignores the error, [Receipts.GetRlp] panics. *)
Definition tx_GetRlp (tx : Transaction) : list byte := default [] (EncodeToBytes (tx_value tx)).
Definition tx_rlps (txs : list Transaction) : list (list byte) := map tx_GetRlp txs.
Definition receipt_GetRlp (r : Receipt) : option (list byte) := EncodeToBytes (receipt_value r).
Definition receipt_rlps (rs : list Receipt) : option (list (list byte)) := mapM receipt_GetRlp rs.
Definition receipts_sha (rs : list Receipt) : res Hash := Trie.rbind (Trie.index (receipt_rlps rs)) DeriveSha.

(** ** Making blocks *)

Definition EmptyRootHash : res Hash := DeriveSha (tx_rlps []).
Definition EmptyUncleHash : Hash := CalcUncleHash [].
Definition set_txHash x h := mkHeader (ParentHash h) (UncleHash h) (Coinbase h) (Root h) x (ReceiptHash h) (Types.Bloom h) (Difficulty h) (Number h) (GasLimit h) (GasUsed h) (Time h) (Extra h) (MixDigest h) (Nonce h).
Definition set_receiptHash x h := mkHeader (ParentHash h) (UncleHash h) (Coinbase h) (Root h) (TxHash h) x (Types.Bloom h) (Difficulty h) (Number h) (GasLimit h) (GasUsed h) (Time h) (Extra h) (MixDigest h) (Nonce h).
Definition set_uncleHash x h := mkHeader (ParentHash h) x (Coinbase h) (Root h) (TxHash h) (ReceiptHash h) (Types.Bloom h) (Difficulty h) (Number h) (GasLimit h) (GasUsed h) (Time h) (Extra h) (MixDigest h) (Nonce h).
Definition set_bloom x h := mkHeader (ParentHash h) (UncleHash h) (Coinbase h) (Root h) (TxHash h) (ReceiptHash h) x (Difficulty h) (Number h) (GasLimit h) (GasUsed h) (Time h) (Extra h) (MixDigest h) (Nonce h).
(** The header is copied; without receipts its bloom is kept. *)
Definition NewBlock (header : Header) (txs : list Transaction) (uncles : list Header) (receipts : list Receipt) : res Block :=
  Trie.rbind (match txs with [] => EmptyRootHash | _ => DeriveSha (tx_rlps txs) end) (fun txHash =>
  let h := set_txHash txHash header in
  Trie.rbind
    (match receipts with
     | [] => Trie.rbind EmptyRootHash (fun x => Trie.Done (set_receiptHash x h))
     | _ => Trie.rbind (receipts_sha receipts) (fun x =>
            Trie.rbind (Trie.index (CreateBloom receipts)) (fun bloom => Trie.Done (set_bloom bloom (set_receiptHash x h))))
     end) (fun h =>
  let h := set_uncleHash (match uncles with [] => EmptyUncleHash | _ => CalcUncleHash uncles end) h in
  Trie.Done (mkBlock h txs uncles))).

(** ** Checking blocks ([block_validator.go]) *)

Inductive validError :=
| ErrKnownBlock | ErrUnknownAncestor | errUncles | errUncleRoot | errTxRoot
| errGasUsed | errBloom | errReceiptRoot | errStateRoot.
(** What the checks ask of the chain and of the consensus engine *)
Record Chain := mkChain {
  HasBlock : Hash -> bool;
  has_state : Hash -> bool;                      (* [state.New] succeeds *)
  GetBlock : Hash -> Z -> option Block;
  VerifyUncles : Block -> bool;
}.
Definition of_res {A} (x : res A) : gores validError A := match x with Trie.Done a => GOk a | _ => GPanic end.
Definition ValidateBody (bc : Chain) (block : Block) : gores validError unit :=
  let header := b_header block in
  check negb (HasBlock bc (header_Hash header) && has_state bc (Root header)) or ErrKnownBlock;
  match GetBlock bc (ParentHash header) (u64 (Uint64 (Number header) - 1)) with
  | None => GErr ErrUnknownAncestor
  | Some parent =>
      check has_state bc (Root (b_header parent)) or ErrUnknownAncestor;
      check VerifyUncles bc block or errUncles;
      check CalcUncleHash (uncles block) =? UncleHash header or errUncleRoot;
      let+ hash := of_res (DeriveSha (tx_rlps (transactions block))) in
      check hash =? TxHash header or errTxRoot;
      GOk tt
  end.
(** [root] is the root hash that [IntermediateRoot] returns. *)
Definition ValidateState (block : Block) (root : Hash) (receipts : list Receipt) (usedGas : Z) : gores validError unit :=
  let header := b_header block in
  check GasUsed header =? usedGas or errGasUsed;
  let+ rbloom := of_res (Trie.index (CreateBloom receipts)) in
  check bool_decide (rbloom = Types.Bloom header) or errBloom;
  let+ receiptSha := of_res (receipts_sha receipts) in
  check receiptSha =? ReceiptHash header or errReceiptRoot;
  check Root header =? root or errStateRoot;
  GOk tt.
End prims.
End ChainTypes.
