(* ===== verification/ChainCodec.v ===== *)
(** * The types of the chain on the wire: codecs

    A [Codec] is a Go type with its RLP form: the type of the decoder, the value that is written and
    what is assigned from a value that was read.  Every codec round-trips, whatever it is made of. *)

From S2P Require Import Prelude GoMath World Rlp RlpProofs RlpStream RlpLang RlpDecode Types Transactions Bloom ChainTypes.

Module ChainCodec.
Import Rlp RlpProofs RlpStream RlpLang RlpDecode Types Transactions Bloom ChainTypes.

Class Codec {A : Type} (t : dtype) (to : A -> value) (from : value -> option A) (ok : A -> Prop) : Prop := {
  codec_type : wf_type t = true;
  codec_nils : nils_ok t = true;
  codec_typed a : ok a -> typed t (to a);
  codec_from a : ok a -> from (to a) = Some a;
}.
(** Small enough to be encoded *)
Definition fits (v : value) : Prop := zlen (enc v) < 2 ^ 64.

Section codec.
Context {A : Type} {t : dtype} {to : A -> value} {from : value -> option A} {ok : A -> Prop} {C : Codec t to from ok}.
Lemma codec_roundtrip a : ok a -> fits (to a) -> exists b, EncodeToBytes (to a) = Some b /\ decode_as t from b = Some a.
Proof.
  intros Ha Hs. destruct (encode_decode t (to a)) as [E D]; [apply codec_type|apply codec_nils|by apply codec_typed|done|].
  exists (enc (to a)). split; [done|]. unfold decode_as. rewrite D. by apply codec_from.
Qed.
Lemma codec_encode a : ok a -> fits (to a) -> EncodeToBytes (to a) = Some (enc (to a)).
Proof. intros Ha Hs. apply (encode_decode t); [apply codec_type|apply codec_nils|by apply codec_typed|done]. Qed.
Lemma codec_inj a1 a2 : ok a1 -> ok a2 -> fits (to a1) -> enc (to a1) = enc (to a2) -> a1 = a2.
Proof.
  intros H1 H2 Hs E. assert (fits (to a2)) as Hs2 by (unfold fits in *; by rewrite <- E).
  destruct (codec_roundtrip a1 H1 Hs) as (b1 & E1 & D1), (codec_roundtrip a2 H2 Hs2) as (b2 & E2 & D2).
  rewrite codec_encode in E1, E2 by done. congruence.
Qed.
End codec.

(** ** Fields *)

Definition fixed_ok (n : nat) (z : Z) : Prop := 0 <= z < 256 ^ Z.of_nat n.
Lemma typed_fixed n z : typed (TByteArray (Z.of_nat n)) (VBytes (be_bytes n z)).
Proof. exists (be_bytes n z). split; [done|]. unfold zlen. by rewrite length_be_bytes. Qed.
Lemma typed_hash z : typed hash_type (VBytes (be_bytes 32 z)).
Proof. apply (typed_fixed 32). Qed.
Lemma typed_address z : typed address_type (VBytes (be_bytes 20 z)).
Proof. apply (typed_fixed 20). Qed.
Lemma typed_array n b : zlen b = n -> typed (TByteArray n) (VBytes b).
Proof. intros Hb. by exists b. Qed.
Lemma typed_big i : 0 <= i -> typed TBigInt (VBigInt (Some i)).
Proof. intros Hi. by exists i. Qed.
Lemma typed_bytes b : typed TByteSlice (VBytes b).
Proof. by exists b. Qed.
Lemma typed_uint i : 0 <= i < 2 ^ 64 -> typed (TUint 64) (VUint i).
Proof. intros Hi. by exists i. Qed.
Lemma typed_list {A} (f : A -> value) e l : (forall a, a ∈ l -> typed e (f a)) -> typed (TSlice false e) (VSlice false (map f l)).
Proof. intros Hl. exists (map f l). split; [done|]. apply Forall_fmap, Forall_forall. exact Hl. Qed.
Lemma typed_ptr e v : typed e v -> typed (TPtr e) v.
Proof. done. Qed.
Lemma fixed_of_bytes n z : fixed_ok n z -> fixed_of (VBytes (be_bytes n z)) = Some z.
Proof. intros Hz. cbn. by rewrite SetBytes_be_bytes, Z.mod_small. Qed.
Lemma list_of_map {A} (f : A -> value) (g : value -> option A) l : (forall a, a ∈ l -> g (f a) = Some a) -> list_of g (VSlice false (map f l)) = Some l.
Proof. intros Hl. cbn [list_of]. apply mapM_Some, Forall2_fmap_l, Forall_Forall2_diag, Forall_forall. exact Hl. Qed.
Create HintDb codec.
#[export] Hint Resolve typed_hash typed_address typed_array typed_big typed_bytes typed_uint typed_ptr : codec.
#[export] Hint Rewrite fixed_of_bytes using done : codec.
(** The fields of a struct, one by one *)
Ltac fields := apply typed_struct; eexists; split; [reflexivity|]; repeat (apply Forall2_cons; split); [..|by apply Forall2_nil]; eauto with codec.

(** ** The types *)

Record tx_ok (tx : Transaction) : Prop := {
  tx_nonce : 0 <= AccountNonce tx < 2 ^ 64;
  tx_price : 0 <= Price tx; tx_gas : 0 <= tx_GasLimit tx; tx_amount : 0 <= Amount tx;
  tx_to a : Recipient tx = Some a -> fixed_ok 20 a;
  tx_V : 0 <= sigV tx; tx_R : 0 <= sigR tx; tx_S : 0 <= sigS tx;
}.
Lemma typed_recipient o : typed (TOptPtr address_type) (recipient_value o).
Proof.
  destruct o as [a|]; [right|by left]. split; [|apply typed_address]. cbn [recipient_value]. rewrite enc_VBytes. intros Hin.
  assert (1 < zlen (rlp (Str (be_bytes 20 a)))) as Hl by (pose proof (zlen_Str (be_bytes 20 a)) as Hz; unfold zlen in *; rewrite length_be_bytes in Hz; lia).
  assert (rlp (Str (be_bytes 20 a)) = [Byte.x80] \/ rlp (Str (be_bytes 20 a)) = [Byte.xc0]) as [E|E] by (unfold empty_headers in Hin; set_solver); by rewrite E in Hl.
Qed.
#[export] Instance tx_codec : Codec txdata_type tx_value tx_of tx_ok.
Proof.
  split; [reflexivity|reflexivity|..]; intros tx [Hn Hp Hg Ha Ht Hv Hr Hs].
  - unfold txdata_type, tx_value, unsigned_fields. cbn [app]. pose proof (typed_recipient (Recipient tx)). fields.
  - destruct tx as [n p g r a d sv sr ss]. unfold tx_value, unsigned_fields. cbn [tx_of app uint_of big_of bytes_of mbind option_bind Transactions.Recipient] in *.
    assert (recipient_of (recipient_value r) = Some r) as ->; [|done]. destruct r as [x|]; [|done]. cbn [recipient_of recipient_value]. rewrite SetBytes_be_bytes, Z.mod_small; [done|by apply Ht].
Qed.

Record header_ok (h : Header) : Prop := {
  ho_parent : fixed_ok 32 (ParentHash h); ho_uncle : fixed_ok 32 (UncleHash h); ho_coinbase : fixed_ok 20 (Coinbase h);
  ho_root : fixed_ok 32 (Root h); ho_tx : fixed_ok 32 (TxHash h); ho_receipt : fixed_ok 32 (ReceiptHash h);
  ho_bloom : zlen (Types.Bloom h) = 256;
  ho_difficulty : 0 <= Difficulty h; ho_number : 0 <= Number h; ho_gasLimit : 0 <= GasLimit h; ho_gasUsed : 0 <= GasUsed h; ho_time : 0 <= Time h;
  ho_mix : fixed_ok 32 (MixDigest h); ho_nonce : zlen (Nonce h) = 8;
}.
#[export] Instance header_codec : Codec header_type header_value header_of header_ok.
Proof.
  split; [reflexivity|reflexivity|..]; intros h [].
  - unfold header_type, header_value, header_fields. cbn [app]. fields.
  - destruct h as [ph uh cb rt th rh bl df nr gl gu tm ex mx nc]. unfold header_value, header_fields. cbn [header_of app ParentHash UncleHash Coinbase Root TxHash ReceiptHash MixDigest] in *.
    by rewrite !fixed_of_bytes by done.
Qed.

Record log_ok (l : Log) : Prop := { lo_address : fixed_ok 20 (log_Address l); lo_topics : Forall (fixed_ok 32) (log_Topics l) }.
Lemma topics_codec l : Forall (fixed_ok 32) l -> list_of fixed_of (VSlice false (map (fun t => VBytes (be_bytes 32 t)) l)) = Some l.
Proof. intros Hl. apply list_of_map. intros t Ht. eapply Forall_forall in Hl; [|exact Ht]. by apply fixed_of_bytes. Qed.
(** The fields outside the consensus are those of a new log. *)
Definition bare_log (l : Log) : Prop := log_ok l /\ log_BlockNumber l = 0 /\ log_TxHash l = 0 /\ log_TxIndex l = 0 /\ log_BlockHash l = 0 /\ log_Index l = 0.
#[export] Instance log_codec : Codec rlpLog log_value (log_of new_log) bare_log.
Proof.
  split; [reflexivity|reflexivity|..]; intros l [[Ha Ht] H0].
  - unfold rlpLog, log_value. pose proof (typed_list (fun t => VBytes (be_bytes 32 t)) hash_type (log_Topics l) ltac:(intros; apply typed_hash)). fields.
  - destruct l as [a t d bn th ti bh i]. cbn in H0. destruct H0 as (-> & -> & -> & -> & ->). unfold log_value. cbn [log_of log_Address log_Topics log_Data] in *.
    by rewrite fixed_of_bytes, topics_codec by done.
Qed.
Record storageLog_ok (l : Log) : Prop := {
  sl_log : log_ok l;
  sl_number : 0 <= log_BlockNumber l < 2 ^ 64; sl_txHash : fixed_ok 32 (log_TxHash l); sl_txIndex : 0 <= log_TxIndex l < 2 ^ 64;
  sl_blockHash : fixed_ok 32 (log_BlockHash l); sl_index : 0 <= log_Index l < 2 ^ 64;
}.
#[export] Instance storageLog_codec : Codec rlpStorageLog storageLog_value storageLog_of storageLog_ok.
Proof.
  split; [reflexivity|reflexivity|..]; intros l [[Ha Ht] Hn Hth Hti Hbh Hi].
  - unfold rlpStorageLog, storageLog_value. pose proof (typed_list (fun t => VBytes (be_bytes 32 t)) hash_type (log_Topics l) ltac:(intros; apply typed_hash)). fields.
  - destruct l as [a t d bn th ti bh i]. unfold storageLog_value. cbn [storageLog_of log_Address log_Topics log_Data log_BlockNumber log_TxHash log_TxIndex log_BlockHash log_Index] in *.
    by rewrite !fixed_of_bytes, topics_codec by done.
Qed.

Record receipt_ok (r : Receipt) : Prop := {
  ro_gas : 0 <= CumulativeGasUsed r; ro_bloom : zlen (r_Bloom r) = 256; ro_logs : Forall bare_log (Logs r);
}.
(** Read as a struct, with the other fields of a new receipt *)
Definition new_receipt : Receipt := mkReceipt [] 0 zero_bloom [] 0 0 0.
Definition bare_receipt (r : Receipt) : Prop := receipt_ok r /\ r_TxHash r = 0 /\ ContractAddress r = 0 /\ r_GasUsed r = 0.
#[export] Instance receipt_codec : Codec receipt_type (fun r => VStruct (receipt_fields r)) (receipt_of new_receipt) bare_receipt.
Proof.
  split; [reflexivity|reflexivity|..]; intros r [[Hg Hb Hl] H0].
  - unfold receipt_type, receipt_fields. pose proof (typed_list log_value rlpLog (Logs r)) as Ht.
    assert (typed (TSlice false rlpLog) (VSlice false (map log_value (Logs r)))) by (apply Ht; intros l Hin; apply codec_typed; by eapply Forall_forall in Hl). fields.
  - destruct r as [ps cg bl ls th ca gu]. cbn in H0. destruct H0 as (-> & -> & ->). unfold receipt_fields. cbn [receipt_of bytes_of big_of mbind option_bind Logs] in *.
    rewrite (list_of_map log_value (log_of new_log)); [done|]. intros l Hin. apply (codec_from (t := rlpLog)). by eapply Forall_forall in Hl.
Qed.
Record storageReceipt_ok (r : Receipt) : Prop := {
  sr_gas : 0 <= CumulativeGasUsed r; sr_bloom : zlen (r_Bloom r) = 256; sr_logs : Forall storageLog_ok (Logs r);
  sr_txHash : fixed_ok 32 (r_TxHash r); sr_address : fixed_ok 20 (ContractAddress r); sr_gasUsed : 0 <= r_GasUsed r;
}.
Lemma storageReceipt_typed r : storageReceipt_ok r -> typed receiptForStorage_type (VStruct (storageReceipt_fields r)).
Proof.
  intros [Hg Hb Hl Hth Hca Hgu]. unfold receiptForStorage_type, storageReceipt_fields. pose proof (typed_list storageLog_value rlpStorageLog (Logs r)) as Ht.
  assert (typed (TSlice false rlpStorageLog) (VSlice false (map storageLog_value (Logs r)))) by (apply Ht; intros l Hin; apply codec_typed; by eapply Forall_forall in Hl). fields.
Qed.
Lemma storageReceipt_from r : storageReceipt_ok r -> storageReceipt_of (VStruct (storageReceipt_fields r)) = Some r.
Proof.
  intros [Hg Hb Hl Hth Hca Hgu]. destruct r as [ps cg bl ls th ca gu]. unfold storageReceipt_fields. cbn [storageReceipt_of Logs r_TxHash ContractAddress] in *.
  rewrite !fixed_of_bytes by done. rewrite (list_of_map storageLog_value storageLog_of); [done|]. intros l Hin. apply (codec_from (t := rlpStorageLog)). by eapply Forall_forall in Hl.
Qed.
#[export] Instance storageReceipt_codec : Codec receiptForStorage_type (fun r => VStruct (storageReceipt_fields r)) storageReceipt_of storageReceipt_ok.
Proof. split; [reflexivity|reflexivity|apply storageReceipt_typed|apply storageReceipt_from]. Qed.

Record block_ok (b : Block) : Prop := { bo_header : header_ok (b_header b); bo_txs : Forall tx_ok (transactions b); bo_uncles : Forall header_ok (uncles b) }.
#[export] Instance block_codec : Codec extblock block_value block_of block_ok.
Proof.
  split; [reflexivity|reflexivity|..]; intros b [Hh Ht Hu].
  - unfold extblock, block_value. assert (typed (TPtr header_type) (header_value (b_header b))) by (apply typed_ptr, codec_typed; done).
    assert (typed (TSlice false txdata_type) (VSlice false (map tx_value (transactions b)))) by (apply typed_list; intros x Hx; apply codec_typed; by eapply Forall_forall in Ht).
    assert (typed (TSlice false (TPtr header_type)) (VSlice false (map header_value (uncles b)))) by (apply typed_list; intros x Hx; apply typed_ptr, codec_typed; by eapply Forall_forall in Hu). fields.
  - destruct b as [h txs us]. unfold block_value. cbn [block_of b_header transactions uncles] in *. rewrite (codec_from (t := header_type)) by done. cbn [mbind option_bind].
    rewrite (list_of_map tx_value tx_of) by (intros x Hx; apply (codec_from (t := txdata_type)); by eapply Forall_forall in Ht). cbn [mbind option_bind].
    rewrite (list_of_map header_value header_of) by (intros x Hx; apply (codec_from (t := header_type)); by eapply Forall_forall in Hu). done.
Qed.
End ChainCodec.
