(* ===== verification/ChainThms.v ===== *)
(** * The types of the chain: theorems

    Blocks and receipts survive their encodings, the root of a list determines the list, and the hash of
    a block its header and its body; a block that is made passes the checks. *)

From S2P Require Import Prelude GoMath World Rlp RlpProofs RlpStream RlpLang RlpDecode Demo Trie TrieCodec TrieHash TrieSpec TrieThms Types Transactions Bloom ChainTypes ChainCodec.

Module ChainThms.
Import Rlp RlpProofs RlpStream RlpDecode Types Transactions Bloom ChainTypes ChainCodec TrieThms.
Notation database := (gmap (list byte) (list byte)) (only parsing).

#[export] Instance list_codec {A} t (to : A -> value) from ok : Codec t to from ok -> Codec (TSlice false t) (fun l => VSlice false (map to l)) (list_of from) (Forall ok).
Proof.
  intros C. split; [exact (codec_type (Codec := C))|exact (codec_nils (Codec := C))|..]; intros l Hl.
  - apply typed_list. intros a Ha. apply codec_typed. by eapply Forall_forall in Hl.
  - apply list_of_map. intros a Ha. apply (codec_from (Codec := C)). by eapply Forall_forall in Hl.
Qed.

Section prims.
Context `{CryptoPrims}.

(** ** Roots of lists *)

Lemma uint_codec : Codec (TUint 64) VUint uint_of (fun i => 0 <= i < 2 ^ 64).
Proof. split; [reflexivity|reflexivity|apply typed_uint|done]. Qed.
Lemma derive_key_enc i : 0 <= i < 2 ^ 64 -> derive_key i = enc (VUint i) /\ 0 < zlen (enc (VUint i)) <= 10.
Proof.
  intros Hi. assert (zlen (Bytes i) <= 8) as Hb by (apply (RlpStreamThms.RlpStreamThms.Bytes_bits i 8); [exact Hi|lia]).
  assert (0 < zlen (enc (VUint i)) <= 10) as Hz.
  { rewrite enc_VUint. destruct (rlp_Str (Bytes i)) as [(x & -> & _ & ->)|[-> _]]; [done|]. pose proof (zlen_nonneg (Bytes i)). rewrite zlen_app, zlen_puthead by lia. unfold headsize. rewrite (proj2 (Z.ltb_lt _ _)) by lia. lia. }
  split; [|done]. unfold derive_key. rewrite (codec_encode (C := uint_codec)); [done|done|]. unfold fits. lia.
Qed.
Lemma derive_key_inj i j : 0 <= i < 2 ^ 64 -> 0 <= j < 2 ^ 64 -> derive_key i = derive_key j -> i = j.
Proof.
  intros Hi Hj E. destruct (derive_key_enc i Hi) as [Ei Hz], (derive_key_enc j Hj) as [Ej _]. apply (codec_inj (C := uint_codec)); [done|done|unfold fits; lia|congruence].
Qed.

(** The entries of the trie *)
Fixpoint index_map (i : Z) (l : list (list byte)) (m : database) : database :=
  match l with [] => m | x :: l' => index_map (i + 1) l' (<[derive_key i := x]> m) end.
Lemma index_map_lookup l i m j : 0 <= i -> i + zlen l <= 2 ^ 64 -> 0 <= j < 2 ^ 64 ->
  index_map i l m !! derive_key j = if (i <=? j) && (j <? i + zlen l) then l !! Z.to_nat (j - i) else m !! derive_key j.
Proof.
  revert i m. induction l as [|x l IH]; intros i m Hi Hl Hj; cbn [index_map].
  { change (zlen (@nil (list byte))) with 0. rewrite Z.add_0_r. destruct (Z.leb_spec i j); [rewrite (proj2 (Z.ltb_ge _ _)) by lia|]; done. }
  rewrite zlen_cons in *. pose proof (zlen_nonneg l). rewrite IH by lia. destruct (Z.eq_dec i j) as [->|Hne].
  - rewrite (proj2 (Z.leb_gt (j + 1) j)), (proj2 (Z.leb_le j j)), (proj2 (Z.ltb_lt j (j + (zlen l + 1)))) by lia. cbn [andb]. rewrite lookup_insert_eq, Z.sub_diag. done.
  - rewrite lookup_insert_ne by (intros E; apply Hne; apply derive_key_inj in E; lia). replace (i + (zlen l + 1)) with (i + 1 + zlen l) by lia.
    destruct (Z.leb_spec (i + 1) j), (Z.leb_spec i j); try lia; cbn [andb]; [|done]. destruct (j <? i + 1 + zlen l); [|done].
    replace (Z.to_nat (j - i)) with (S (Z.to_nat (j - (i + 1)))) by lia. done.
Qed.
Lemma index_map_inj l1 l2 : zlen l1 < 2 ^ 64 -> zlen l2 < 2 ^ 64 -> index_map 0 l1 ∅ = index_map 0 l2 ∅ -> l1 = l2.
Proof.
  intros H1 H2 E. apply list_eq. intros i. destruct (Z.lt_ge_cases (Z.of_nat i) (2 ^ 64)) as [Hi|Hi].
  - assert (forall l, zlen l < 2 ^ 64 -> index_map 0 l ∅ !! derive_key (Z.of_nat i) = l !! i) as Hl; [|by rewrite <- !Hl, E].
    intros l Hl. rewrite index_map_lookup by lia. rewrite (proj2 (Z.leb_le _ _)) by lia. cbn [andb]. destruct (Z.ltb_spec (Z.of_nat i) (0 + zlen l)) as [|Hge].
    + f_equal. lia.
    + rewrite lookup_empty. symmetry. apply lookup_ge_None. unfold zlen in Hge. lia.
  - unfold zlen in *. rewrite !lookup_ge_None_2 by lia. done.
Qed.
(** The encodings of a list: none is empty, none is huge *)
Definition rlps_ok (l : list (list byte)) : Prop := zlen l < 2 ^ 64 /\ Forall (fun x => x <> [] /\ zlen x < 2 ^ 32) l.
Lemma index_map_ok (P : list byte -> list byte -> Prop) l i m : 0 <= i -> i + zlen l <= 2 ^ 64 -> map_Forall P m -> (forall j x, 0 <= j < 2 ^ 64 -> x ∈ l -> P (derive_key j) x) -> map_Forall P (index_map i l m).
Proof.
  revert i m. induction l as [|x l IH]; intros i m Hi Hl Hm Hx; [done|]. rewrite zlen_cons in Hl. pose proof (zlen_nonneg l). cbn [index_map].
  apply IH; [lia|lia|apply map_Forall_insert_2; [apply Hx; [lia|left]|done]|]. intros j y Hj Hy. apply Hx; [done|by right].
Qed.
Lemma rlps_small l : rlps_ok l -> small (index_map 0 l ∅) /\ map_Forall (fun _ v => v <> []) (index_map 0 l ∅).
Proof.
  intros [Hl Hx]. rewrite Forall_forall in Hx. split; (apply index_map_ok; [lia|lia|apply map_Forall_empty|]); intros j x Hj Hin; destruct (Hx x Hin); [|done].
  destruct (derive_key_enc j Hj) as [-> Hz]. lia.
Qed.
Lemma derive_loop_ok l i T m : holds T m -> Forall (fun x => x <> [] /\ zlen x < 2 ^ 32) l -> exists T', derive_loop i l T = Trie.Done T' /\ holds T' (index_map i l m).
Proof.
  intros HT Hl. revert i T m HT. induction Hl as [|x l [Hx _] _ IH]; intros i T m HT; [by exists T|]. cbn [derive_loop index_map].
  destruct (TryUpdate_holds T m (derive_key i) x HT Hx) as (T' & E & HT' & _). unfold Update. rewrite E. by apply IH.
Qed.
Lemma DeriveSha_ok l : rlps_ok l -> DeriveSha l = Trie.Done (root_of (index_map 0 l ∅)).
Proof.
  intros Hl. destruct (derive_loop_ok l 0 (Trie.mkTrie Trie.NilN None 0 0 0) ∅) as (T & E & HT); [apply holds_empty|apply Hl|].
  unfold DeriveSha. rewrite E. cbn [Trie.rbind]. destruct (rlps_small l Hl) as [Hs _]. destruct (Hash_holds T _ HT Hs) as (T' & -> & _). done.
Qed.
Lemma DeriveSha_empty : DeriveSha [] = Trie.Done Trie.emptyRoot.
Proof. rewrite DeriveSha_ok by (split; [done|constructor]). unfold root_of. by rewrite decide_True. Qed.
(** The nodes of the trie of a list *)
Definition list_nodes (l : list (list byte)) : list (list byte) := TrieCodec.encs true (canon (index_map 0 l ∅)).
Lemma index_map_nonempty l : zlen l < 2 ^ 64 -> l <> [] -> index_map 0 l ∅ <> ∅.
Proof. intros Hl Hne E. apply Hne. apply index_map_inj; [done|done|exact E]. Qed.
Lemma DeriveSha_inj l1 l2 : rlps_ok l1 -> rlps_ok l2 -> l1 <> [] -> l2 <> [] -> no_collision (list_nodes l1 ++ list_nodes l2) -> DeriveSha l1 = DeriveSha l2 -> l1 = l2.
Proof.
  intros H1 H2 N1 N2 Hno E. rewrite !DeriveSha_ok in E by done. injection E as E. destruct (rlps_small l1 H1) as [S1 V1], (rlps_small l2 H2) as [S2 V2].
  apply index_map_inj; [apply H1|apply H2|]. apply root_inj; try done; [apply index_map_nonempty; [apply H1|done]|apply index_map_nonempty; [apply H2|done]].
Qed.

(** ** Blocks *)

Record block_fits (b : Block) : Prop := {
  bf_header : fits (header_value (b_header b));
  bf_uncles : fits (VSlice false (map header_value (uncles b)));
  bf_count : zlen (transactions b) < 2 ^ 64;
  bf_txs : Forall (fun tx => zlen (enc (tx_value tx)) < 2 ^ 32) (transactions b);
}.
Lemma tx_GetRlp_enc tx : tx_ok tx -> zlen (enc (tx_value tx)) < 2 ^ 32 -> tx_GetRlp tx = enc (tx_value tx) /\ enc (tx_value tx) <> [].
Proof.
  intros Ht Hs. assert (fits (tx_value tx)) as Hf by (unfold fits; lia). unfold tx_GetRlp. rewrite (codec_encode (C := tx_codec)) by done. split; [done|].
  unfold tx_value. rewrite enc_VStruct. intros E. apply app_nil in E as [E _]. unfold puthead in E. by destruct (_ <? 56).
Qed.
Lemma tx_rlps_ok txs : Forall tx_ok txs -> Forall (fun tx => zlen (enc (tx_value tx)) < 2 ^ 32) txs -> zlen txs < 2 ^ 64 -> rlps_ok (tx_rlps txs).
Proof.
  intros Ht Hs Hl. split; [unfold tx_rlps, zlen in *; by rewrite length_map|]. apply Forall_fmap, Forall_forall. intros tx Hin. rewrite Forall_forall in Ht, Hs.
  destruct (tx_GetRlp_enc tx (Ht tx Hin) (Hs tx Hin)) as [E Hne]. cbn. rewrite E. split; [done|by apply Hs].
Qed.
Lemma tx_rlps_inj l1 l2 : Forall tx_ok l1 -> Forall tx_ok l2 -> Forall (fun tx => zlen (enc (tx_value tx)) < 2 ^ 32) l1 -> Forall (fun tx => zlen (enc (tx_value tx)) < 2 ^ 32) l2 ->
  tx_rlps l1 = tx_rlps l2 -> l1 = l2.
Proof.
  intros O1. revert l2. induction O1 as [|x l1 Hx _ IH]; intros [|y l2] O2 S1 S2 E; try done. cbn [tx_rlps map] in E. injection E as E El.
  apply Forall_cons in O2 as [Hy O2]. apply Forall_cons in S1 as [Sx S1]. apply Forall_cons in S2 as [Sy S2]. f_equal; [|by apply IH].
  rewrite (proj1 (tx_GetRlp_enc x Hx Sx)), (proj1 (tx_GetRlp_enc y Hy Sy)) in E. apply (codec_inj (C := tx_codec)); [done|done|unfold fits; lia|done].
Qed.
Lemma header_Hash_enc h : header_ok h -> fits (header_value h) -> header_Hash h = Keccak256Hash (enc (header_value h)).
Proof. intros Hh Hf. unfold header_Hash, rlpHash. by rewrite (codec_encode (C := header_codec)). Qed.
Definition uncles_codec := list_codec header_type header_value header_of header_ok header_codec.
Lemma CalcUncleHash_enc us : Forall header_ok us -> fits (VSlice false (map header_value us)) -> CalcUncleHash us = Keccak256Hash (enc (VSlice false (map header_value us))).
Proof. intros Hu Hf. unfold CalcUncleHash, rlpHash. by rewrite (codec_encode (C := uncles_codec)). Qed.

(** What is hashed for a block *)
Definition preimages (b : Block) : list (list byte) :=
  [enc (header_value (b_header b)); enc (VSlice false (map header_value (uncles b)))] ++ list_nodes (tx_rlps (transactions b)).
Lemma ValidateBody_roots bc b : ValidateBody bc b = GOk tt -> CalcUncleHash (uncles b) = UncleHash (b_header b) /\ DeriveSha (tx_rlps (transactions b)) = Trie.Done (TxHash (b_header b)).
Proof.
  unfold ValidateBody. intros E. ginv E. destruct (GetBlock bc _ _) as [p|]; [|done]. ginv E. apply guard_ok, Z.eqb_eq in E3. apply guard_ok, Z.eqb_eq in E5.
  unfold of_res in E4. destruct (DeriveSha _); [|done..]. injection E4 as ->. split; [done|by f_equal].
Qed.
Lemma digest_inj E e e' : no_collision E -> e ∈ E -> e' ∈ E -> Keccak256Hash e = Keccak256Hash e' -> e = e'.
Proof. intros Hno He He' Ek. apply Hno; [done|done|]. unfold Keccak256. by rewrite Ek. Qed.
Lemma no_collision_mono E E' : no_collision E -> (forall e, e ∈ E' -> e ∈ E) -> no_collision E'.
Proof. intros Hno Hin e e' He He'. apply Hno; auto. Qed.

Section binds.
Context (bc : Chain) (b1 b2 : Block) (O1 : block_ok b1) (O2 : block_ok b2) (F1 : block_fits b1) (F2 : block_fits b2).
Context (Hno : no_collision (preimages b1 ++ preimages b2)).
Lemma headers_bind : header_Hash (b_header b1) = header_Hash (b_header b2) -> b_header b1 = b_header b2.
Proof.
  destruct O1 as [H1 _ _], O2 as [H2 _ _], F1 as [G1 _ _ _], F2 as [G2 _ _ _]. intros E. rewrite !header_Hash_enc in E by done. apply digest_inj with (E := preimages b1 ++ preimages b2) in E; [|done|apply elem_of_app; left; left|apply elem_of_app; right; left].
  by apply (codec_inj (C := header_codec)).
Qed.
Lemma uncles_bind : CalcUncleHash (uncles b1) = CalcUncleHash (uncles b2) -> uncles b1 = uncles b2.
Proof.
  destruct O1 as [_ _ H1], O2 as [_ _ H2], F1 as [_ G1 _ _], F2 as [_ G2 _ _]. intros E. rewrite !CalcUncleHash_enc in E by done.
  apply digest_inj with (E := preimages b1 ++ preimages b2) in E; [|done|apply elem_of_app; left; right; left|apply elem_of_app; right; right; left]. by apply (codec_inj (C := uncles_codec)).
Qed.
Lemma txs_bind : (transactions b1 = [] <-> transactions b2 = []) -> DeriveSha (tx_rlps (transactions b1)) = DeriveSha (tx_rlps (transactions b2)) -> transactions b1 = transactions b2.
Proof.
  destruct O1 as [_ H1 _], O2 as [_ H2 _], F1 as [_ _ C1 G1], F2 as [_ _ C2 G2]. intros Hemp E. apply tx_rlps_inj; try done.
  destruct (decide (transactions b1 = [])) as [E1|N1]; [by rewrite E1, (proj1 Hemp E1)|]. assert (transactions b2 <> []) as N2 by (intros ?; by apply N1, Hemp).
  apply DeriveSha_inj; try done; [by apply tx_rlps_ok|by apply tx_rlps_ok|by destruct (transactions b1)|by destruct (transactions b2)|].
  apply (no_collision_mono (preimages b1 ++ preimages b2)); [done|]. intros e He. unfold preimages. set_solver.
Qed.
End binds.

(** C34: The hash of a block commits to the whole block: two blocks that pass [ValidateBody] and have the
    same hash have the same header, the same transactions and the same uncles, unless two of the strings
    that are hashed for them collide. *)
Theorem block_hash_binds (bc : Chain) (b1 b2 : Block) :
  block_ok b1 -> block_ok b2 -> block_fits b1 -> block_fits b2 ->
  no_collision (preimages b1 ++ preimages b2) ->
  (forall b, b = b1 \/ b = b2 -> transactions b <> [] -> DeriveSha (tx_rlps (transactions b)) <> Trie.Done Trie.emptyRoot) ->
  ValidateBody bc b1 = GOk tt -> ValidateBody bc b2 = GOk tt ->
  header_Hash (b_header b1) = header_Hash (b_header b2) -> b1 = b2.
Proof.
  intros O1 O2 F1 F2 Hno Hne V1 V2 E. destruct (ValidateBody_roots bc b1 V1) as [U1 T1], (ValidateBody_roots bc b2 V2) as [U2 T2].
  pose proof (headers_bind b1 b2 O1 O2 F1 F2 Hno E) as Eh. rewrite Eh in U1, T1.
  pose proof (uncles_bind b1 b2 O1 O2 F1 F2 Hno ltac:(congruence)) as Eu. assert (transactions b1 = transactions b2) as Et.
  { apply (txs_bind b1 b2 O1 O2 F1 F2 Hno); [|congruence]. split; intros E0.
    - destruct (decide (transactions b2 = [])) as [|N2]; [done|]. exfalso. apply (Hne b2); [by right|done|]. rewrite T2, <- T1, E0. apply DeriveSha_empty.
    - destruct (decide (transactions b1 = [])) as [|N1]; [done|]. exfalso. apply (Hne b1); [by left|done|]. rewrite T1, <- T2, E0. apply DeriveSha_empty. }
  destruct b1, b2. cbn in *. by subst.
Qed.

(** ** Encoding *)

(** C35: A block that is encoded and decoded is the same block: header, transactions with and without a
    recipient, and uncles. *)
Theorem block_roundtrip (b : Block) :
  block_ok b -> fits (block_value b) -> exists e, EncodeToBytes (block_value b) = Some e /\ decode_as extblock block_of e = Some b.
Proof. intros Hb Hf. by apply (codec_roundtrip (C := block_codec)). Qed.
(** A receipt that is stored and loaded is the same receipt, with the logs and the fields outside the consensus. *)
Theorem receipt_roundtrip (r : Receipt) :
  storageReceipt_ok r -> fits (storageReceipt_value r) ->
  exists e, EncodeToBytes (storageReceipt_value r) = Some e /\ decode_as receiptForStorage_type storageReceipt_of e = Some r.
Proof.
  intros Hr Hf. destruct (codec_roundtrip (C := storageReceipt_codec) r Hr) as (e & E & D); [exact Hf|]. exists e. split; [|done].
  destruct (typed_encodable receiptForStorage_type (or_introl eq_refl) _ (storageReceipt_typed r Hr)) as [Hu He].
  rewrite (codec_encode (C := storageReceipt_codec)) in E by done. rewrite <- E. rewrite EncodeToBytes_enc; [|exact Hu|exact Hf]. assert (encodable (storageReceipt_value r) = true) as -> by exact He. done.
Qed.

(** ** Making blocks *)

Definition receipt_small (r : Receipt) : Prop := 0 <= CumulativeGasUsed r /\ zlen (enc (receipt_value r)) < 2 ^ 32.
Lemma receipt_GetRlp_enc r : receipt_small r -> receipt_GetRlp r = Some (enc (receipt_value r)) /\ enc (receipt_value r) <> [].
Proof.
  intros [Hg Hs]. split.
  - unfold receipt_GetRlp. rewrite EncodeToBytes_enc; [| |unfold fits; lia].
    + assert (encodable (receipt_value r) = true) as ->; [|done]. cbn. rewrite (proj2 (Z.leb_le _ _)) by done. cbn. rewrite andb_true_r. apply forallb_forall.
      intros v Hv. apply in_map_iff in Hv as (l & <- & _). cbn. rewrite andb_true_r. apply forallb_forall. intros w Hw. by apply in_map_iff in Hw as (t & <- & _).
    + cbn. rewrite andb_true_r. apply forallb_forall. intros v Hv. apply in_map_iff in Hv as (l & <- & _). cbn. rewrite andb_true_r. apply forallb_forall. intros w Hw. by apply in_map_iff in Hw as (t & <- & _).
  - unfold receipt_value. rewrite RlpLang.RlpLang.enc_VSlice. intros E. apply app_nil in E as [E _]. unfold puthead in E. by destruct (_ <? 56).
Qed.
Lemma receipts_sha_ok rs : Forall receipt_small rs -> zlen rs < 2 ^ 64 -> exists h, receipts_sha rs = Trie.Done h.
Proof.
  intros Hr Hl. unfold receipts_sha, receipt_rlps. assert (mapM receipt_GetRlp rs = Some (map (fun r => enc (receipt_value r)) rs)) as ->.
  { apply mapM_Some, Forall2_fmap_r, Forall_Forall2_diag. eapply Forall_impl; [exact Hr|]. intros r Hs. by apply receipt_GetRlp_enc. }
  cbn [Trie.index Trie.rbind]. eexists. apply DeriveSha_ok. split; [unfold zlen in *; by rewrite length_map|]. apply Forall_fmap. eapply Forall_impl; [exact Hr|]. intros r Hs.
  split; [by apply receipt_GetRlp_enc|apply Hs].
Qed.
Lemma NewBlock_ok header txs us rs : Forall tx_ok txs -> Forall (fun tx => zlen (enc (tx_value tx)) < 2 ^ 32) txs -> zlen txs < 2 ^ 64 -> Forall receipt_small rs -> zlen rs < 2 ^ 64 ->
  exists th rh bl, DeriveSha (tx_rlps txs) = Trie.Done th /\ receipts_sha rs = Trie.Done rh /\
    bl = match rs with [] => Types.Bloom header | _ => default [] (CreateBloom rs) end /\
    NewBlock header txs us rs = Trie.Done (mkBlock (set_uncleHash (CalcUncleHash us) (set_bloom bl (set_receiptHash rh (set_txHash th header)))) txs us).
Proof.
  intros Ht Hts Htl Hr Hrl. destruct (receipts_sha_ok rs Hr Hrl) as [rh Er]. exists (root_of (index_map 0 (tx_rlps txs) ∅)), rh. eexists. split; [apply DeriveSha_ok; by apply tx_rlps_ok|].
  split; [done|]. split; [done|]. unfold NewBlock. assert (match txs with [] => EmptyRootHash | _ => DeriveSha (tx_rlps txs) end = DeriveSha (tx_rlps txs)) as -> by (by destruct txs).
  rewrite DeriveSha_ok by (by apply tx_rlps_ok). cbn [Trie.rbind]. assert (match us with [] => EmptyUncleHash | _ => CalcUncleHash us end = CalcUncleHash us) as -> by (by destruct us).
  destruct rs as [|r rs]; [|rewrite Er; cbn [Trie.rbind]; destruct (CreateBloom_ok (r :: rs)) as (bl & -> & _); done].
  change (receipts_sha []) with EmptyRootHash in Er. rewrite Er. done.
Qed.

(** C36: A block that [NewBlock] makes commits to its content: [ValidateBody] finds the right roots and
    accepts it exactly when the chain does not have it, has the parent with its state, and the engine
    accepts the uncles; and [ValidateState] accepts it with the receipts it was made from, when the header
    was made with the gas and the state root of their execution and, if there are no receipts, with a
    zero bloom. *)
Theorem NewBlock_valid (header : Header) (txs : list Transaction) (us : list Header) (rs : list Receipt) :
  Forall tx_ok txs -> Forall (fun tx => zlen (enc (tx_value tx)) < 2 ^ 32) txs -> zlen txs < 2 ^ 64 -> Forall receipt_small rs -> zlen rs < 2 ^ 64 ->
  exists b, NewBlock header txs us rs = Trie.Done b /\ transactions b = txs /\ uncles b = us /\
    (forall bc, ValidateBody bc b <> GErr errUncleRoot /\ ValidateBody bc b <> GErr errTxRoot /\ ValidateBody bc b <> GPanic /\
       (ValidateBody bc b = GOk tt <->
        (HasBlock bc (header_Hash (b_header b)) = false \/ has_state bc (Root header) = false) /\
        (exists parent, GetBlock bc (ParentHash header) (u64 (Uint64 (Number header) - 1)) = Some parent /\ has_state bc (Root (b_header parent)) = true) /\
        VerifyUncles bc b = true)) /\
    ((rs = [] -> Types.Bloom header = zero_bloom) -> ValidateState b (Root header) rs (GasUsed header) = GOk tt).
Proof.
  intros Ht Hts Htl Hr Hrl. destruct (NewBlock_ok header txs us rs Ht Hts Htl Hr Hrl) as (th & rh & bl & Eth & Erh & Ebl & E). eexists. split; [exact E|]. split_and!; try done.
  - intros bc. unfold ValidateBody. cbn [b_header uncles transactions]. rewrite Eth. set (b := mkBlock _ _ _). change (Root (set_uncleHash _ _)) with (Root header).
    change (ParentHash (set_uncleHash _ _)) with (ParentHash header). change (Number (set_uncleHash _ _)) with (Number header). cbn [of_res gbind set_uncleHash set_bloom set_receiptHash set_txHash UncleHash TxHash].
    rewrite !Z.eqb_refl. destruct (HasBlock _ _), (has_state bc (Root header)), (GetBlock _ _ _) as [parent|]; cbn [andb negb guard gbind]; try destruct (has_state bc (Root (b_header parent))) eqn:Hp;
      destruct (VerifyUncles bc b); cbn [guard gbind]; (split_and!; [discriminate..|]); split; try discriminate.
    all: first [intros _; split_and!; auto; by exists parent|intros ([] & (p & [= <-] & Hp') & Hu); congruence|intros (_ & (p & [=] & _) & _)].
  - intros Hb. unfold ValidateState. cbn [b_header set_uncleHash set_bloom set_receiptHash set_txHash GasUsed Root Types.Bloom ReceiptHash]. rewrite Z.eqb_refl. cbn [guard gbind].
    destruct (CreateBloom_ok rs) as (bloom & Ecb & _). rewrite Ecb. cbn [Trie.index of_res gbind]. rewrite Erh. cbn [of_res].
    assert (bloom = bl) as <-; [|rewrite bool_decide_eq_true_2 by done; cbn [guard gbind]; by rewrite !Z.eqb_refl].
    rewrite Ebl. destruct rs; [|by rewrite Ecb]. rewrite Hb by done. by injection Ecb.
Qed.
(** Without receipts the bloom of the header is kept, and the block is refused. *)
Theorem NewBlock_keeps_bloom (header : Header) (txs : list Transaction) :
  Forall tx_ok txs -> Forall (fun tx => zlen (enc (tx_value tx)) < 2 ^ 32) txs -> zlen txs < 2 ^ 64 -> Types.Bloom header <> zero_bloom ->
  exists b, NewBlock header txs [] [] = Trie.Done b /\ ValidateState b (Root header) [] (GasUsed header) = GErr errBloom.
Proof.
  intros Ht Hts Htl Hne. destruct (NewBlock_ok header txs [] [] Ht Hts Htl) as (th & rh & bl & Eth & Erh & -> & E); [constructor|done|]. eexists. split; [exact E|].
  unfold ValidateState. cbn [b_header set_uncleHash set_bloom set_receiptHash set_txHash GasUsed Root Types.Bloom ReceiptHash]. rewrite Z.eqb_refl. cbn [guard gbind].
  change (CreateBloom []) with (Some zero_bloom). cbn [Trie.index of_res gbind]. by rewrite bool_decide_eq_false_2.
Qed.
End prims.

(** ** Examples *)

Definition demo_tx (nonce : Z) (to : option Address) : Transaction := mkTransaction nonce 1 21000 to 5 (bs [1; 2]) 27 3 4.
Definition demo_head : Header := mkHeader 1 0 2 3 0 0 zero_bloom 131072 1 4712388 0 10 [] 0 (zeros 8).
Definition demo_block (txs : list Transaction) : Block :=
  match NewBlock (H := mix_prims) demo_head txs [] [] with Trie.Done b => b | _ => mkBlock demo_head [] [] end.
Definition demo_bc : Chain := mkChain (fun _ => false) (fun _ => true) (fun _ _ => Some (mkBlock demo_head [] [])) (fun _ => true).
Definition demo1 : Block := Eval vm_compute in demo_block [demo_tx 0 None].
Definition demo2 : Block := Eval vm_compute in demo_block [demo_tx 0 (Some 0x1234)].
Ltac concrete := vm_compute; repeat split; try reflexivity; try discriminate.
Lemma demo_tx_ok n to : 0 <= n < 2 ^ 64 -> (forall a, to = Some a -> fixed_ok 20 a) -> tx_ok (demo_tx n to).
Proof. intros Hn Ht. split; cbn; try lia. exact Ht. Qed.
Lemma demo_ok b : b = demo1 \/ b = demo2 -> block_ok b /\ block_fits b.
Proof.
  assert (tx_ok (demo_tx 0 None)) as T1 by (apply demo_tx_ok; [lia|done]).
  assert (tx_ok (demo_tx 0 (Some 0x1234))) as T2 by (apply demo_tx_ok; [lia|intros a [= <-]; concrete]).
  intros [-> | ->]; (split; [split; [|by apply Forall_singleton|constructor]; concrete|split; [concrete|concrete|concrete|apply Forall_singleton; concrete]]).
Qed.
Lemma demo_free : no_collision (H := mix_prims) (preimages (H := mix_prims) demo1 ++ preimages (H := mix_prims) demo2).
Proof. unfold no_collision. intros e e'. apply no_collisionb_ok. vm_compute. reflexivity. Qed.
Lemma block_hash_binds_witness : header_Hash (H := mix_prims) (b_header demo1) <> header_Hash (H := mix_prims) (b_header demo2).
Proof.
  intros E. apply (block_hash_binds (H := mix_prims) demo_bc demo1 demo2) in E; [discriminate E|..].
  - apply demo_ok. by left.
  - apply demo_ok. by right.
  - apply demo_ok. by left.
  - apply demo_ok. by right.
  - exact demo_free.
  - intros b [-> | ->] _; vm_compute; discriminate.
  - vm_compute. reflexivity.
  - vm_compute. reflexivity.
Defined.
Lemma block_roundtrip_witness : exists e, EncodeToBytes (block_value demo2) = Some e /\ decode_as extblock block_of e = Some demo2.
Proof. apply (block_roundtrip demo2); [apply demo_ok; by right|concrete]. Defined.
Definition demo_receipt : Receipt := mkReceipt (zeros 32) 21000 zero_bloom [mkLog 0xabcd [7] [] 0 0 0 0 0] 0 0 0.
Lemma NewBlock_valid_witness : exists b, NewBlock (H := mix_prims) demo_head [demo_tx 0 None] [] [demo_receipt] = Trie.Done b /\
  ValidateBody (H := mix_prims) demo_bc b = GOk tt /\ ValidateState (H := mix_prims) b 3 [demo_receipt] 0 = GOk tt.
Proof.
  destruct (NewBlock_valid (H := mix_prims) demo_head [demo_tx 0 None] [] [demo_receipt]) as (b & E & _ & _ & Vb & Vs).
  - apply Forall_singleton, demo_tx_ok; [lia|done].
  - apply Forall_singleton. concrete.
  - concrete.
  - apply Forall_singleton. concrete.
  - concrete.
  - exists b. split; [exact E|]. split; [apply (Vb demo_bc); split; [exact (or_introl eq_refl)|]; split; [exact (ex_intro _ (mkBlock demo_head [] []) (conj eq_refl eq_refl))|exact eq_refl]|by apply Vs].
Defined.
End ChainThms.
