(* ===== verification/StateRoot.v ===== *)
(** * The state in tries ([core/state/statedb.go], [state_object.go])

    [State] keeps the account trie and the storage tries as the finite maps they stand for.  This
    file has what the source does to the tries themselves: how accounts and slots are encoded, read
    and written.  The root of a state is the root hash of the trie with its accounts, in which the
    root of an account's storage is again a root hash. *)

From S2P Require Import Prelude GoMath World Rlp RlpStream State Trie TrieSpec SecureTrie ChainTypes.

Module StateRoot.
Import Rlp RlpStream State ChainTypes.

(** ** Encodings *)

(** [Account], with the root of the storage as a hash *)
Record wireAccount := mkWire { wa_Nonce : Z; wa_Balance : Z; wa_Root : Hash; wa_CodeHash : list byte }.
Definition account_type : dtype := TStruct [TUint 64; TBigInt; hash_type; TByteSlice].
Definition account_value (d : wireAccount) : value :=
  VStruct [VUint (wa_Nonce d); VBigInt (Some (wa_Balance d)); VBytes (be_bytes 32 (wa_Root d)); VBytes (wa_CodeHash d)].
Definition account_of (v : value) : option wireAccount :=
  match v with
  | VStruct [n; b; r; c] => n ← uint_of n; b ← big_of b; r ← fixed_of r; c ← bytes_of c; Some (mkWire n b r c)
  | _ => None
  end.

(** [bytes.TrimLeft(value[:], "\x00")] *)
Fixpoint TrimLeft (b : list byte) : list byte :=
  match b with x :: b' => if byte_to_Z x =? 0 then TrimLeft b' else b | [] => [] end.
Definition slot_data (value : Hash) : list byte := default [] (EncodeToBytes (VBytes (TrimLeft (be_bytes 32 value)))).
(** The value that [GetState] reads from the trie; the error is remembered. *)
Definition read_slot (enc : list byte) : Trie.res (Hash * bool) :=
  if zlen enc >? 0 then
    match Split enc with
    | Ok (_, content, _) => Trie.Done (BytesToHash content, false)
    | Err _ => Trie.Done (0, true)
    | IndexPanic => Trie.Crash
    end
  else Trie.Done (0, false).

(** A map whose keys are numbers of [n] bytes and whose values are encoded *)
Definition encoded {A} (n : nat) (f : A -> list byte) (m : gmap Z A) : gmap (list byte) (list byte) := kmap (be_bytes n) (f <$> m).

Section prims.
Context `{CryptoPrims}.
Notation res := Trie.res.
Notation "'let^' x := e 'in' k" := (Trie.rbind e (fun x => k)) (at level 200, x pattern at level 0, e at level 100, k at level 200, right associativity).

(** ** The storage of an account *)

Definition put_slot (key value : Hash) (tr : SecureTrie.SecureTrie) : res SecureTrie.SecureTrie :=
  if value =? 0 then SecureTrie.Delete tr (be_bytes 32 key) else SecureTrie.Update tr (be_bytes 32 key) (slot_data value).
(** [updateTrie] on the trie; [dirty] is the dirty storage in the order in which Go ranges over it. *)
Fixpoint put_slots (dirty : list (Hash * Hash)) (tr : SecureTrie.SecureTrie) : res SecureTrie.SecureTrie :=
  match dirty with
  | [] => Trie.Done tr
  | (key, value) :: dirty' => let^ tr := put_slot key value tr in put_slots dirty' tr
  end.
Definition get_slot (key : Hash) (tr : SecureTrie.SecureTrie) : res (Hash * bool * SecureTrie.SecureTrie) :=
  let^ (enc, tr) := SecureTrie.Get tr (be_bytes 32 key) in
  let^ (value, err) := read_slot (default [] enc) in Trie.Done (value, err, tr).
(** The content of the storage trie that stands for [st] *)
Definition storage_map (st : gmap Hash Hash) : gmap (list byte) (list byte) := encoded 32 slot_data st.
Definition storage_root (st : gmap Hash Hash) : Hash := root_of (kmap Keccak256 (storage_map st)).

(** ** Accounts *)

Definition wire (d : Account) : wireAccount := mkWire (Nonce d) (Balance d) (storage_root (Root d)) (be_bytes 32 (CodeHash d)).
Definition account_data (d : Account) : list byte := default [] (EncodeToBytes (account_value (wire d))).
(** [updateStateObject] and [deleteStateObject] on the trie; an object that cannot be encoded panics.  The
    root of the storage in the record is [storage_root]: [updateRoot], which runs before, has set it to the
    hash of the storage trie, and [updateRoot_root] proves that this is [storage_root]. *)
Definition put_account (o : stateObject) (tr : SecureTrie.SecureTrie) : res SecureTrie.SecureTrie :=
  let^ data := Trie.index (EncodeToBytes (account_value (wire (so_data o)))) in
  SecureTrie.Update tr (be_bytes 20 (so_address o)) data.
Definition drop_account (o : stateObject) (tr : SecureTrie.SecureTrie) : res SecureTrie.SecureTrie :=
  SecureTrie.Delete tr (be_bytes 20 (so_address o)).
(** What [getStateObject] reads *)
Definition get_account (a : Address) (tr : SecureTrie.SecureTrie) : res (option wireAccount * SecureTrie.SecureTrie) :=
  let^ (enc, tr) := SecureTrie.Get tr (be_bytes 20 a) in
  match enc with
  | None | Some [] => Trie.Done (None, tr)
  | Some enc => Trie.Done (decode_as account_type account_of enc, tr)
  end.

(** [IntermediateRoot] on the trie: the dirty objects are written in the order in which Go ranges
    over them.  The roots of their storage are those of [updateRoot]. *)
Fixpoint put_objects (deleteEmptyObjects : bool) (order : list Address) (s : StateDB) (tr : SecureTrie.SecureTrie)
    : res SecureTrie.SecureTrie :=
  match order with
  | [] => Trie.Done tr
  | a :: order' =>
      let^ o := Trie.index (stateObjects s !! a) in
      let^ tr := if so_suicided o || (deleteEmptyObjects && so_empty o) then drop_account o tr else put_account (updateRoot o) tr in
      put_objects deleteEmptyObjects order' s tr
  end.
Definition state_map (tr : gmap Address Account) : gmap (list byte) (list byte) := encoded 20 account_data tr.
Definition state_root (tr : gmap Address Account) : Hash := root_of (kmap Keccak256 (state_map tr)).
End prims.
End StateRoot.
