(* ===== verification/StateRootThms.v ===== *)
(** * The state in tries: theorems

    The finite maps of [State] stand for the tries: what [IntermediateRoot] writes to a trie of
    accounts and to the tries of their storage is what it does to the maps, the hashes it returns
    are the roots of the maps, and a root determines the state. *)

From S2P Require Import Prelude GoMath World Rlp RlpProofs RlpRaw RlpStream RlpStreamThms RlpLang RlpDecode State Demo.
From S2P Require Import Trie TrieFacts TrieCodec TrieOps TrieHash TrieMerkle TrieSpec TrieThms SecureTrie.
From S2P Require Import Types Transactions Bloom ChainTypes ChainCodec StateRoot.

Module StateRootThms.
Import Rlp RlpProofs RlpLang RlpDecode State ChainTypes ChainCodec StateRoot SecureTrieThms.
Notation database := (gmap (list byte) (list byte)) (only parsing).

(** ** Encodings *)

Lemma TrimLeft_Bytes b : TrimLeft b = Bytes (SetBytes b).
Proof.
  induction b as [|x b IH]; [done|]. cbn [TrimLeft]. destruct (Z.eqb_spec (byte_to_Z x) 0) as [E|E].
  - rewrite IH, SetBytes_cons, E. done.
  - by rewrite Bytes_SetBytes.
Qed.
Lemma TrimLeft_length b : (length (TrimLeft b) <= length b)%nat.
Proof. induction b as [|x b IH]; [done|]. cbn. destruct (_ =? _); cbn; lia. Qed.
Lemma headsize_range n : 0 <= n < 2 ^ 64 -> 1 <= headsize n <= 9.
Proof. intros Hn. unfold headsize. destruct (_ <? _); [lia|]. destruct (intsize_spec n Hn) as (k & Hk & _ & _ & ->). lia. Qed.
Lemma zlen_Str_le c : zlen c < 2 ^ 64 -> zlen (rlp (Str c)) <= zlen c + 9.
Proof.
  intros Hc. pose proof (zlen_nonneg c). destruct (rlp_Str c) as [(x & -> & _ & ->)|[-> _]]; [cbn; lia|].
  rewrite zlen_app, zlen_puthead by lia. pose proof (headsize_range (zlen c)). lia.
Qed.

Definition word (z : Z) : Prop := 0 <= z < 2 ^ 256.
Lemma Bytes_32 z : word z -> Bytes z = TrimLeft (be_bytes 32 z) /\ zlen (Bytes z) <= 32.
Proof.
  intros Hz. assert (Bytes z = TrimLeft (be_bytes 32 z)) as E.
  { rewrite TrimLeft_Bytes, SetBytes_be_bytes. by rewrite Z.mod_small. }
  split; [done|]. rewrite E. pose proof (TrimLeft_length (be_bytes 32 z)) as Hl. rewrite length_be_bytes in Hl. unfold zlen. lia.
Qed.
Lemma slot_data_eq v : word v -> slot_data v = rlp (Str (Bytes v)) /\ slot_data v <> [] /\ zlen (slot_data v) < 2 ^ 32.
Proof.
  intros Hv. destruct (Bytes_32 v Hv) as [E Hl]. pose proof (zlen_Str_le (Bytes v) ltac:(lia)) as Hb.
  assert (slot_data v = rlp (Str (Bytes v))) as Ed.
  { unfold slot_data. rewrite <- E. rewrite EncodeToBytes_enc; [|done|rewrite enc_VBytes; lia]. cbn [encodable default]. by rewrite enc_VBytes. }
  rewrite Ed. split_and!; [done| |lia]. destruct (rlp_Str (Bytes v)) as [(x & _ & _ & ->)|[-> _]]; [done|].
  pose proof (zlen_nonneg (Bytes v)). intros En%(f_equal zlen). rewrite zlen_app, zlen_puthead in En by lia.
  pose proof (headsize_range (zlen (Bytes v))). change (zlen []) with 0 in En. lia.
Qed.
Lemma read_slot_data v : word v -> read_slot (slot_data v) = Trie.Done (v, false).
Proof.
  intros Hv. destruct (slot_data_eq v Hv) as (E & Hne & Hl). unfold read_slot. pose proof (zlen_nonneg (slot_data v)).
  destruct (Z.gtb_spec (zlen (slot_data v)) 0) as [_|H0].
  - assert (Split (slot_data v) = Ok (RlpRaw.kind_of (Str (Bytes v)), Bytes v, [])) as ->.
    { rewrite E, <- (app_nil_r (rlp _)). apply (RlpRaw.Split_item (Str (Bytes v))); [done|]. rewrite app_nil_r, <- E. lia. }
    unfold BytesToHash. by rewrite setArray_spec, SetBytes_Bytes, Z.mod_small by apply Hv.
  - destruct (slot_data v); [done|]. unfold zlen in H0. cbn in H0. lia.
Qed.

(** Accounts and storage as the Go types have them *)
Definition storage_ok (st : gmap Hash Hash) : Prop := map_Forall (fun k v => word k /\ 0 < v < 2 ^ 256) st.
Record account_ok (d : Account) : Prop := {
  ac_nonce : 0 <= Nonce d < 2 ^ 64; ac_balance : word (Balance d); ac_code : word (CodeHash d); ac_storage : storage_ok (Root d) }.
Definition state_ok (tr : gmap Address Account) : Prop := map_Forall (fun a d => fixed_ok 20 a /\ account_ok d) tr.

Record wire_ok (d : wireAccount) : Prop := {
  wo_nonce : 0 <= wa_Nonce d < 2 ^ 64; wo_balance : word (wa_Balance d); wo_root : fixed_ok 32 (wa_Root d); wo_code : zlen (wa_CodeHash d) = 32 }.
#[export] Instance account_codec : Codec account_type account_value account_of wire_ok.
Proof.
  split; [reflexivity|reflexivity|..]; intros d [Hn Hb Hr Hc].
  - unfold account_type, account_value. assert (0 <= wa_Balance d) by apply Hb. fields.
  - destruct d as [n b r c]. unfold account_value. cbn [account_of wa_Root wa_Nonce wa_Balance wa_CodeHash] in *. by rewrite fixed_of_bytes.
Qed.
Lemma account_fits d : wire_ok d -> zlen (enc (account_value d)) < 2 ^ 32.
Proof.
  intros [Hn Hb Hr Hc]. unfold account_value. rewrite enc_VStruct. set (es := encs _).
  assert (zlen es <= 164) as Hes.
  { unfold es. rewrite !encs_cons, !zlen_app, !enc_VBytes, enc_VUint, enc_VBigInt.
    destruct (Bytes_32 (wa_Nonce d)) as [_ H1]; [unfold word; lia|]. destruct (Bytes_32 (wa_Balance d) Hb) as [_ H2].
    assert (zlen (be_bytes 32 (wa_Root d)) = 32) as H3 by (unfold zlen; by rewrite length_be_bytes).
    pose proof (zlen_Str_le (Bytes (wa_Nonce d))). pose proof (zlen_Str_le (Bytes (wa_Balance d))).
    pose proof (zlen_Str_le (be_bytes 32 (wa_Root d))). pose proof (zlen_Str_le (wa_CodeHash d)). change (zlen (encs [])) with 0. lia. }
  pose proof (zlen_nonneg es). rewrite zlen_app, zlen_puthead by lia. pose proof (headsize_range (zlen es)). lia.
Qed.

Section prims.
Context `{CryptoPrims}.

Lemma root_of_range m : fixed_ok 32 (root_of m).
Proof. unfold root_of. case_decide; [by vm_compute|]. apply BytesToHash_range. Qed.
Lemma wire_account_ok d : account_ok d -> wire_ok (wire d).
Proof.
  intros [Hn Hb Hc _]. split; [done|done|apply root_of_range|]. unfold zlen, wire. cbn [wa_CodeHash]. by rewrite length_be_bytes.
Qed.
Lemma account_data_eq d : account_ok d ->
  EncodeToBytes (account_value (wire d)) = Some (account_data d) /\ account_data d = enc (account_value (wire d)) /\
  account_data d <> [] /\ zlen (account_data d) < 2 ^ 32.
Proof.
  intros Hd%wire_account_ok. pose proof (account_fits _ Hd) as Hl. assert (fits (account_value (wire d))) as Hf by (unfold fits; lia).
  pose proof (codec_encode (wire d) Hd Hf) as E. assert (account_data d = enc (account_value (wire d))) as Ed by (unfold account_data; by rewrite E).
  rewrite Ed. split_and!; [done|done| |done]. unfold account_value. rewrite enc_VStruct. set (es := encs _).
  destruct (puthead _ _ _) eqn:Ep; [|done]. unfold puthead in Ep. by destruct (_ <? _) in Ep.
Qed.

(** Maps whose keys and values are encoded *)
Section encoded.
Context {A : Type} (n : nat) (f : A -> list byte).
#[local] Notation encoded := (encoded n f).
Lemma fixed_inj k k' : fixed_ok n k -> fixed_ok n k' -> be_bytes n k = be_bytes n k' -> k = k'.
Proof. intros Hk Hk' E%(f_equal SetBytes). rewrite !SetBytes_be_bytes in E. by rewrite !Z.mod_small in E. Qed.
Lemma keys_fmap m : keys_on (fixed_ok n) m -> keys_on (fixed_ok n) (f <$> m).
Proof. intros Hm. by apply map_Forall_fmap. Qed.
Lemma encoded_Some m b e : keys_on (fixed_ok n) m -> encoded m !! b = Some e <-> exists k v, b = be_bytes n k /\ m !! k = Some v /\ e = f v.
Proof. intros Hm%keys_fmap. unfold encoded. rewrite (kmap_on_Some _ _ fixed_inj) by done. setoid_rewrite lookup_fmap_Some. naive_solver. Qed.
Lemma encoded_lookup m k : keys_on (fixed_ok n) m -> fixed_ok n k -> encoded m !! be_bytes n k = f <$> m !! k.
Proof. intros Hm%keys_fmap Hk. unfold encoded. by rewrite (kmap_on_lookup _ _ fixed_inj), lookup_fmap. Qed.
Lemma encoded_insert m k v : keys_on (fixed_ok n) m -> fixed_ok n k -> encoded (<[k := v]> m) = <[be_bytes n k := f v]> (encoded m).
Proof. intros Hm%keys_fmap Hk. unfold encoded. by rewrite fmap_insert, (kmap_on_insert _ _ fixed_inj). Qed.
Lemma encoded_delete m k : keys_on (fixed_ok n) m -> fixed_ok n k -> encoded (delete k m) = delete (be_bytes n k) (encoded m).
Proof. intros Hm%keys_fmap Hk. unfold encoded. by rewrite fmap_delete, (kmap_on_delete _ _ fixed_inj). Qed.
(** A map is determined by its encoding where values are. *)
Lemma encoded_inj m1 m2 : keys_on (fixed_ok n) m1 -> keys_on (fixed_ok n) m2 ->
  (forall k v1 v2, m1 !! k = Some v1 -> m2 !! k = Some v2 -> f v1 = f v2 -> v1 = v2) -> encoded m1 = encoded m2 -> m1 = m2.
Proof.
  intros H1 H2 Hf E. apply kmap_on_inj with (P := fixed_ok n) in E; [|exact fixed_inj|by apply keys_fmap..].
  apply map_eq. intros k. apply (f_equal (.!! k)) in E. rewrite !lookup_fmap in E.
  destruct (m1 !! k) as [v1|] eqn:E1, (m2 !! k) as [v2|] eqn:E2; try done. f_equal. injection E as E. by eapply Hf.
Qed.
End encoded.

(** ** The storage of an account *)

Lemma storage_keys st : storage_ok st -> keys_on (fixed_ok 32) st.
Proof. intros Hst. eapply map_Forall_impl; [exact Hst|]. by intros k v []. Qed.
Lemma storage_map_each (P : list byte -> Prop) st : (forall v, word v -> P (slot_data v)) -> storage_ok st -> map_Forall (fun _ => P) (storage_map st).
Proof.
  intros HP Hst b e (k & v & _ & Ev & ->)%encoded_Some; [|by apply storage_keys]. destruct (Hst _ _ Ev). apply HP. unfold word. lia.
Qed.
Lemma storage_map_small st : storage_ok st -> values_small (storage_map st).
Proof. apply storage_map_each. intros v Hv. by apply slot_data_eq. Qed.
Lemma storage_map_values st : storage_ok st -> map_Forall (fun _ e => e <> []) (storage_map st).
Proof. apply storage_map_each. intros v Hv. by apply slot_data_eq. Qed.

(** What becomes of a slot *)
Definition set_slot (st : gmap Hash Hash) (k v : Hash) : gmap Hash Hash := if v =? 0 then delete k st else <[k := v]> st.
Lemma set_slot_ok st k v : storage_ok st -> word k -> word v -> storage_ok (set_slot st k v).
Proof.
  intros Hst Hk Hv. unfold set_slot. destruct (Z.eqb_spec v 0) as [_|Hne]; [by apply map_Forall_delete|].
  apply map_Forall_insert_2; [|done]. unfold word in Hv. split; [done|lia].
Qed.
Definition after (l : option Hash) (old : option Hash) : option Hash :=
  match l with Some v => if v =? 0 then None else Some v | None => old end.
Lemma set_slot_lookup st k v x : set_slot st k v !! x = if decide (x = k) then after (Some v) None else st !! x.
Proof.
  unfold set_slot, after. destruct (Z.eqb_spec v 0); case_decide; subst;
    by rewrite ?lookup_delete_eq, ?lookup_insert_eq, ?lookup_delete_ne, ?lookup_insert_ne by done.
Qed.
Lemma updateTrie_lookup o k : getTrie (updateTrie o) !! k = after (so_dirtyStorage o !! k) (getTrie o !! k).
Proof.
  unfold updateTrie, getTrie at 1. cbn [so_trie so_upd_storage]. generalize (getTrie o) as st. intros st. revert k.
  apply (map_fold_weak_ind (fun r m => forall k, r !! k = after (m !! k) (st !! k))); [intros k; by rewrite lookup_empty|].
  intros i v m r Hi IH k. change (if v =? 0 then delete i r else <[i := v]> r) with (set_slot r i v). rewrite set_slot_lookup.
  case_decide as E; [subst; by rewrite lookup_insert_eq|]. by rewrite lookup_insert_ne.
Qed.
Lemma set_slots_lookup (l : list (Hash * Hash)) st k : NoDup l.*1 ->
  fold_left (fun st kv => set_slot st kv.1 kv.2) l st !! k = after (list_to_map (M := gmap Hash Hash) l !! k) (st !! k).
Proof.
  revert st. induction l as [|[i v] l IH]; intros st Hnd; [done|]. apply NoDup_cons in Hnd as [Hi Hnd]. cbn [fold_left list_to_map foldr fst snd].
  rewrite IH, set_slot_lookup by done. case_decide as E.
  - subst. rewrite lookup_insert_eq. by rewrite (not_elem_of_list_to_map_1 l i).
  - by rewrite lookup_insert_ne.
Qed.
Lemma put_all o l : l ≡ₚ map_to_list (so_dirtyStorage o) ->
  fold_left (fun st kv => set_slot st kv.1 kv.2) l (getTrie o) = getTrie (updateTrie o).
Proof.
  intros Hl. assert (NoDup l.*1) as Hnd by (rewrite Hl; apply NoDup_fst_map_to_list). apply map_eq. intros k. rewrite set_slots_lookup, updateTrie_lookup by done.
  f_equal. rewrite <- (list_to_map_to_list (so_dirtyStorage o)). f_equal. symmetry. apply list_to_map_proper; [|done]. apply NoDup_fst_map_to_list.
Qed.

(** ** Accounts *)

Lemma state_keys m : state_ok m -> keys_on (fixed_ok 20) m.
Proof. intros Hm. eapply map_Forall_impl; [exact Hm|]. by intros a d []. Qed.
Lemma state_map_each (P : list byte -> Prop) m : (forall d, account_ok d -> P (account_data d)) -> state_ok m -> map_Forall (fun _ => P) (state_map m).
Proof. intros HP Hm b e (a & d & _ & Ed & ->)%encoded_Some; [|by apply state_keys]. destruct (Hm _ _ Ed). by apply HP. Qed.
Lemma state_map_small m : state_ok m -> values_small (state_map m).
Proof. apply state_map_each. intros d Hd. by apply account_data_eq. Qed.
Lemma state_map_values m : state_ok m -> map_Forall (fun _ e => e <> []) (state_map m).
Proof. apply state_map_each. intros d Hd. by apply account_data_eq. Qed.

(** ** Tries with a given content *)

Section tries.
(** The keys in use: no two of them have one hash. *)
Context (K : list byte -> Prop).
Hypothesis (HK : forall k k', K k -> K k' -> Keccak256 k = Keccak256 k' -> k = k').
#[local] Notation sholds := (sholds K).

Lemma put_slot_ok st k v tr : sholds tr (storage_map st) -> storage_ok st -> word k -> word v -> K (be_bytes 32 k) ->
  exists tr', put_slot k v tr = Trie.Done tr' /\ sholds tr' (storage_map (set_slot st k v)).
Proof.
  intros Ht Hst Hk Hv Kk. unfold put_slot, set_slot. destruct (Z.eqb_spec v 0) as [->|Hne].
  - unfold storage_map in *. rewrite encoded_delete by (done || by apply storage_keys). destruct (TryDelete_sholds K HK _ _ _ Ht Kk) as (tr' & E & Ht'). exists tr'.
    unfold SecureTrie.Delete. by rewrite E.
  - unfold storage_map in *. rewrite encoded_insert by (done || by apply storage_keys). destruct (TryUpdate_sholds K HK _ _ _ (slot_data v) Ht Kk) as (tr' & E & Ht'). exists tr'.
    unfold SecureTrie.Update. rewrite E. split; [done|]. rewrite decide_False in Ht'; [done|]. by apply slot_data_eq.
Qed.
Lemma put_slots_ok l st tr : sholds tr (storage_map st) -> storage_ok st ->
  Forall (fun kv => word kv.1 /\ word kv.2 /\ K (be_bytes 32 kv.1)) l ->
  let st' := fold_left (fun st kv => set_slot st kv.1 kv.2) l st in
  exists tr', put_slots l tr = Trie.Done tr' /\ sholds tr' (storage_map st') /\ storage_ok st'.
Proof.
  intros Ht Hst Hl. revert st tr Ht Hst. induction Hl as [|[k v] l (Hk & Hv & Kk) _ IH]; intros st tr Ht Hst; [by exists tr|].
  cbn [fst snd] in *. destruct (put_slot_ok st k v tr) as (tr1 & E & Ht1); try done. cbn [put_slots fold_left fst snd]. rewrite E. cbn [Trie.rbind].
  apply IH; [done|by apply set_slot_ok].
Qed.
Lemma get_slot_ok st k tr : sholds tr (storage_map st) -> storage_ok st -> word k -> K (be_bytes 32 k) ->
  exists tr', get_slot k tr = Trie.Done (default 0 (st !! k), false, tr') /\ sholds tr' (storage_map st).
Proof.
  intros Ht Hst Hk Kk. destruct (TryGet_sholds K HK _ _ _ Ht Kk) as (tr' & E & Ht'). exists tr'. split; [|done]. unfold get_slot, SecureTrie.Get. rewrite E.
  cbn [SecureTrie.logged Trie.rbind]. unfold storage_map; rewrite encoded_lookup by (done || by apply storage_keys). destruct (st !! k) as [v|] eqn:Ev; [|done]. change (default [] (slot_data <$> Some v)) with (slot_data v).
  destruct (Hst _ _ Ev). by rewrite read_slot_data by (unfold word; lia).
Qed.

(** [updateRoot]: whatever the order in which the dirty slots are written, the storage trie holds
    the storage that [State] computes, and its hash is the root of that storage. *)
Theorem updateRoot_root o l tr :
  l ≡ₚ map_to_list (so_dirtyStorage o) -> sholds tr (storage_map (getTrie o)) -> storage_ok (getTrie o) ->
  map_Forall (fun k v => word k /\ word v /\ K (be_bytes 32 k)) (so_dirtyStorage o) ->
  exists tr' tr'', put_slots l tr = Trie.Done tr' /\ sholds tr' (storage_map (Root (so_data (updateRoot o)))) /\
    SecureTrie.Hash tr' = Trie.Done (storage_root (Root (so_data (updateRoot o))), tr'').
Proof.
  intros Hl Ht Hst Hd. change (Root (so_data (updateRoot o))) with (getTrie (updateTrie o)). rewrite <- (put_all o l Hl).
  destruct (put_slots_ok l (getTrie o) tr Ht Hst) as (tr' & E & Ht' & Hst').
  { rewrite Hl. apply map_Forall_to_list in Hd. eapply Forall_impl; [exact Hd|]. by intros [k v]. }
  destruct (Hash_sholds K HK _ _ Ht') as (tr'' & EH & _); [by apply storage_map_small|]. by exists tr', tr''.
Qed.

Lemma put_account_ok m o tr : sholds tr (state_map m) -> state_ok m -> fixed_ok 20 (so_address o) -> account_ok (so_data o) -> K (be_bytes 20 (so_address o)) ->
  exists tr', put_account o tr = Trie.Done tr' /\ sholds tr' (state_map (<[so_address o := so_data o]> m)).
Proof.
  intros Ht Hm Ha Hd Ka. destruct (account_data_eq _ Hd) as (E & _ & Hne & _). unfold put_account. rewrite E. cbn [Trie.index Trie.rbind].
  destruct (TryUpdate_sholds K HK _ _ _ (account_data (so_data o)) Ht Ka) as (tr' & E' & Ht'). exists tr'. unfold SecureTrie.Update. rewrite E'. split; [done|].
  rewrite decide_False in Ht' by done. unfold state_map. by rewrite encoded_insert by (done || by apply state_keys).
Qed.
Lemma drop_account_ok m o tr : sholds tr (state_map m) -> state_ok m -> fixed_ok 20 (so_address o) -> K (be_bytes 20 (so_address o)) ->
  exists tr', drop_account o tr = Trie.Done tr' /\ sholds tr' (state_map (delete (so_address o) m)).
Proof.
  intros Ht Hm Ha Ka. destruct (TryDelete_sholds K HK _ _ _ Ht Ka) as (tr' & E' & Ht'). exists tr'. unfold drop_account, SecureTrie.Delete. rewrite E'. split; [done|].
  unfold state_map. by rewrite encoded_delete by (done || by apply state_keys).
Qed.
Lemma get_account_ok m a tr : sholds tr (state_map m) -> state_ok m -> fixed_ok 20 a -> K (be_bytes 20 a) ->
  exists tr', get_account a tr = Trie.Done (wire <$> m !! a, tr') /\ sholds tr' (state_map m).
Proof.
  intros Ht Hm Ha Ka. destruct (TryGet_sholds K HK _ _ _ Ht Ka) as (tr' & E & Ht'). exists tr'. split; [|done]. unfold get_account, SecureTrie.Get. rewrite E.
  cbn [SecureTrie.logged Trie.rbind]. unfold state_map. rewrite encoded_lookup by (done || by apply state_keys). destruct (m !! a) as [d|] eqn:Ed; [|done].
  destruct (Hm _ _ Ed) as [_ Hd]. destruct (account_data_eq d Hd) as (Ee & Eq & Hne & Hl). change (account_data <$> Some d) with (Some (account_data d)).
  destruct (codec_roundtrip (wire d) (wire_account_ok d Hd)) as (b & Eb & Hb); [unfold fits; rewrite <- Eq; lia|].
  assert (b = account_data d) as -> by congruence. destruct (account_data d); [done|]. by rewrite Hb.
Qed.

(** What is written for an object *)
Record object_ok (a : Address) (o : stateObject) : Prop := {
  oo_address : so_address o = a; oo_fixed : fixed_ok 20 a; oo_key : K (be_bytes 20 a); oo_data : account_ok (so_data (updateRoot o)) }.
Definition objects_ok (order : list Address) (s : StateDB) : Prop := forall a o, a ∈ order -> stateObjects s !! a = Some o -> object_ok a o.

Lemma put_objects_frame del order s s' tr : (forall a, a ∈ order -> stateObjects s' !! a = stateObjects s !! a) -> put_objects del order s' tr = put_objects del order s tr.
Proof.
  revert tr. induction order as [|a order IH]; intros tr Hs; [done|]. cbn [put_objects]. rewrite Hs by left. destruct (stateObjects s !! a) as [o|]; [|done].
  cbn [Trie.index Trie.rbind]. destruct (if _ || _ then _ else _) as [tr1| | | |]; try done. apply IH. intros b Hb. apply Hs. by right.
Qed.
(** One object is written to the trie and to the map. *)
Lemma put_object_ok del a s s1 o tr :
  stateObjects s !! a = Some o -> object_ok a o -> state_ok (trie s) -> sholds tr (state_map (trie s)) -> flush_object del a s = Some s1 ->
  (exists tr1, (if so_suicided o || (del && so_empty o) then drop_account o tr else put_account (updateRoot o) tr) = Trie.Done tr1 /\ sholds tr1 (state_map (trie s1))) /\
  state_ok (trie s1) /\ forall b, b <> a -> stateObjects s1 !! b = stateObjects s !! b.
Proof.
  intros Eo [<- Hf Ka Hd] Hm Ht E. unfold flush_object in E. rewrite Eo in E. destruct (so_suicided o || _).
  - injection E as <-. split_and!; [by apply (drop_account_ok (trie s))|by apply map_Forall_delete|]. intros b Hb. cbn. by rewrite lookup_insert_ne.
  - injection E as <-. split_and!; [by apply (put_account_ok (trie s) (updateRoot o))|by apply map_Forall_insert_2|]. intros b Hb. cbn. by rewrite lookup_insert_ne.
Qed.
Lemma put_objects_ok del order s s' tr :
  NoDup order -> objects_ok order s -> state_ok (trie s) -> sholds tr (state_map (trie s)) -> flush_objects del order s = Some s' ->
  exists tr', put_objects del order s tr = Trie.Done tr' /\ sholds tr' (state_map (trie s')) /\ state_ok (trie s').
Proof.
  revert s tr. induction order as [|a order IH]; intros s tr Hnd Ho Hm Ht E; [injection E as <-; by exists tr|]. apply NoDup_cons in Hnd as [Ha Hnd].
  cbn [flush_objects put_objects] in *. destruct (flush_object del a s) as [s1|] eqn:E1; [|done].
  destruct (stateObjects s !! a) as [o|] eqn:Eo; [|unfold flush_object in E1; by rewrite Eo in E1].
  destruct (put_object_ok del a s s1 o tr Eo (Ho a o ltac:(left) Eo) Hm Ht E1) as ((tr1 & Et & Ht1) & Hm1 & Hfr). cbn [Trie.index Trie.rbind]. rewrite Et. cbn [Trie.rbind].
  assert (forall b, b ∈ order -> stateObjects s1 !! b = stateObjects s !! b) as Hfr' by (intros b Hb; apply Hfr; by intros ->).
  rewrite <- (put_objects_frame del order s s1) by done. apply IH; try done. intros b x Hb Ex. rewrite Hfr' in Ex by done. apply Ho; [by right|done].
Qed.
End tries.

(** C30: [IntermediateRoot] on the tries: the secure trie of the accounts that the dirty objects are
    written to stands for the map of accounts that the model keeps, whatever the order of the map, and its
    hash is the root of that map; reading an account from it gives what the map holds. *)
Theorem IntermediateRoot_root (K : list byte -> Prop) (del : bool) (order : list Address) (s s' : StateDB) (tr : SecureTrie.SecureTrie) :
  (forall k k', K k -> K k' -> Keccak256 k = Keccak256 k' -> k = k') ->
  NoDup order -> objects_ok K order s -> state_ok (trie s) -> sholds K tr (state_map (trie s)) ->
  IntermediateRoot del order s = Some s' ->
  exists tr' tr'', put_objects del order s tr = Trie.Done tr' /\ sholds K tr' (state_map (trie s')) /\
    SecureTrie.Hash tr' = Trie.Done (state_root (trie s'), tr'') /\
    forall a, fixed_ok 20 a -> K (be_bytes 20 a) -> exists tr2, get_account a tr' = Trie.Done (wire <$> trie s' !! a, tr2).
Proof.
  intros HK Hnd Ho Hm Ht E. unfold IntermediateRoot in E. apply fmap_Some in E as (s1 & E & ->).
  destruct (put_objects_ok K HK del order s s1 tr Hnd Ho Hm Ht E) as (tr' & Et & Ht' & Hm'). change (trie (clearJournalAndRefund s1)) with (trie s1).
  destruct (Hash_sholds K HK _ _ Ht') as (tr'' & EH & _); [by apply state_map_small|]. exists tr', tr''. split_and!; try done.
  intros a Ha Ka. destruct (get_account_ok K HK (trie s1) a tr' Ht' Hm' Ha Ka) as (tr2 & E2 & _). by exists tr2.
Qed.

(** ** Roots determine states *)

Definition keys_of (m : database) : list (list byte) := (map_to_list m).*1.
(** The strings that are hashed for the secure trie of a map *)
Definition hashed_for (m : database) : list (list byte) := TrieCodec.encs true (canon (hashed m)) ++ keys_of m.
Lemma hashed_root_inj m1 m2 :
  map_Forall (fun _ v => v <> []) m1 -> map_Forall (fun _ v => v <> []) m2 -> values_small m1 -> values_small m2 ->
  no_collision (hashed_for m1 ++ hashed_for m2) ->
  (m1 <> ∅ -> root_of (hashed m1) <> Trie.emptyRoot) -> (m2 <> ∅ -> root_of (hashed m2) <> Trie.emptyRoot) ->
  root_of (hashed m1) = root_of (hashed m2) -> m1 = m2.
Proof.
  intros V1 V2 S1 S2 Hno N1 N2 E. set (K k := k ∈ keys_of m1 ++ keys_of m2).
  assert (forall k k', K k -> K k' -> Keccak256 k = Keccak256 k' -> k = k') as HK.
  { intros k k' Hk Hk'. apply Hno; unfold K, hashed_for in *; rewrite !elem_of_app in *; tauto. }
  assert (keys_on K m1 /\ keys_on K m2) as [K1 K2].
  { split; intros k v Ek%elem_of_map_to_list; apply elem_of_app; [left|right]; apply list_elem_of_fmap; by exists (k, v). }
  assert (forall m : database, keys_on K m -> hashed m = ∅ -> m = ∅) as He.
  { intros m Km Em. apply map_empty. intros k. apply eq_None_not_Some. intros [v Ev].
    assert (hashed m !! Keccak256 k = Some v) as Ek by (apply (kmap_on_Some _ K HK); eauto). by rewrite Em, lookup_empty in Ek. }
  assert (forall m : database, keys_on K m -> map_Forall (fun _ v => v <> []) m -> map_Forall (fun _ v => v <> []) (hashed m)) as Hv.
  { intros m Km Vm h v (k & _ & Ev)%(kmap_on_Some _ K HK); [exact (Vm _ _ Ev)|done]. }
  assert (root_of ∅ = Trie.emptyRoot) as E0 by (unfold root_of; by rewrite decide_True).
  destruct (decide (m1 = ∅)) as [->|D1], (decide (m2 = ∅)) as [->|D2]; [done| | |].
  - exfalso. rewrite kmap_empty, E0 in E. by apply N2.
  - exfalso. rewrite kmap_empty, E0 in E. by apply N1.
  - apply (kmap_on_inj Keccak256 K HK); [done..|]. apply TrieThms.root_inj; auto; [by apply (hashed_small K HK)..|].
    intros e e' H1 H2. apply Hno; unfold hashed_for; rewrite !elem_of_app in *; tauto.
Qed.

(** The strings that are hashed for a state: the nodes and keys of its account trie and of its storage tries *)
Definition state_preimages (m : gmap Address Account) : list (list byte) :=
  hashed_for (state_map m) ++ concat (map (fun ad => hashed_for (storage_map (Root ad.2))) (map_to_list m)).
(** No trie that is not empty has the root of the empty trie. *)
Definition roots_fresh (m : gmap Address Account) : Prop :=
  (m <> ∅ -> state_root m <> Trie.emptyRoot) /\ map_Forall (fun _ d => Root d <> ∅ -> storage_root (Root d) <> Trie.emptyRoot) m.

Lemma storage_root_inj st1 st2 :
  storage_ok st1 -> storage_ok st2 -> no_collision (hashed_for (storage_map st1) ++ hashed_for (storage_map st2)) ->
  (st1 <> ∅ -> storage_root st1 <> Trie.emptyRoot) -> (st2 <> ∅ -> storage_root st2 <> Trie.emptyRoot) -> storage_root st1 = storage_root st2 -> st1 = st2.
Proof.
  intros H1 H2 Hno N1 N2 E. assert (storage_map st1 = storage_map st2) as Em.
  { apply hashed_root_inj; try done; try (by apply storage_map_values); try (by apply storage_map_small);
      [intros Hne; apply N1|intros Hne; apply N2]; intros ->; apply Hne; unfold storage_map, encoded; by rewrite fmap_empty, kmap_empty. }
  apply encoded_inj in Em; [done|by apply storage_keys..|]. intros k v1 v2 E1 E2 Ev. destruct (H1 _ _ E1) as [_ W1], (H2 _ _ E2) as [_ W2].
  assert (word v1 /\ word v2) as [X1 X2] by (unfold word; lia). apply (f_equal read_slot) in Ev. rewrite !read_slot_data in Ev by done. by injection Ev.
Qed.
Lemma account_data_inj d1 d2 :
  account_ok d1 -> account_ok d2 -> no_collision (hashed_for (storage_map (Root d1)) ++ hashed_for (storage_map (Root d2))) ->
  (Root d1 <> ∅ -> storage_root (Root d1) <> Trie.emptyRoot) -> (Root d2 <> ∅ -> storage_root (Root d2) <> Trie.emptyRoot) ->
  account_data d1 = account_data d2 -> d1 = d2.
Proof.
  intros H1 H2 Hno N1 N2 E. destruct (account_data_eq d1 H1) as (_ & E1 & _ & Hl), (account_data_eq d2 H2) as (_ & E2 & _).
  rewrite E1, E2 in E. apply codec_inj in E; [|by apply wire_account_ok..|unfold fits; rewrite <- E1; lia].
  pose proof (f_equal wa_Root E) as Er. cbn [wire wa_Root] in Er. destruct H1 as [_ _ Hc1 Hs1], H2 as [_ _ Hc2 Hs2]. apply storage_root_inj in Er; try done.
  pose proof (f_equal wa_Nonce E) as En. pose proof (f_equal wa_Balance E) as Eb. pose proof (f_equal wa_CodeHash E) as Ec. cbn [wire wa_Nonce wa_Balance wa_CodeHash] in *.
  apply (fixed_inj 32) in Ec; [|done..]. destruct d1, d2. cbn in *. by subst.
Qed.

(** C29: The root of a state commits to the whole state: two states with the same root have the same
    accounts with the same nonces, balances, codes and storage, unless two of the strings that are hashed for
    them collide. *)
Theorem state_root_binds (m1 m2 : gmap Address Account) :
  state_ok m1 -> state_ok m2 -> no_collision (state_preimages m1 ++ state_preimages m2) -> roots_fresh m1 -> roots_fresh m2 ->
  state_root m1 = state_root m2 -> m1 = m2.
Proof.
  intros H1 H2 Hno [N1 F1] [N2 F2] E. assert (state_map m1 = state_map m2) as Em.
  { apply hashed_root_inj; try done; try (by apply state_map_values); try (by apply state_map_small).
    - intros e e' X1 X2. apply Hno; unfold state_preimages; rewrite !elem_of_app in *; tauto.
    - intros Hne. apply N1. intros ->. apply Hne. unfold state_map, encoded. by rewrite fmap_empty, kmap_empty.
    - intros Hne. apply N2. intros ->. apply Hne. unfold state_map, encoded. by rewrite fmap_empty, kmap_empty. }
  apply encoded_inj in Em; [done|by apply state_keys..|]. intros a d1 d2 E1 E2 Ed. destruct (H1 _ _ E1) as [_ A1], (H2 _ _ E2) as [_ A2].
  apply account_data_inj; try done; [|exact (F1 _ _ E1)|exact (F2 _ _ E2)].
  assert (forall m d e, m !! a = Some d -> e ∈ hashed_for (storage_map (Root d)) -> e ∈ state_preimages m) as Hin.
  { intros m d e Ex He. apply elem_of_app. right. apply list_elem_of_In, in_concat. exists (hashed_for (storage_map (Root d))). split; [|by apply list_elem_of_In].
    apply in_map_iff. exists (a, d). split; [done|]. by apply list_elem_of_In, elem_of_map_to_list. }
  assert (forall e, e ∈ hashed_for (storage_map (Root d1)) ++ hashed_for (storage_map (Root d2)) -> e ∈ state_preimages m1 ++ state_preimages m2) as Hsub.
  { intros e [He|He]%elem_of_app; apply elem_of_app; [left|right]; by eapply Hin. }
  intros e e' X1 X2. apply Hno; by apply Hsub.
Qed.
End prims.

(** ** Examples *)

#[local] Existing Instance mix_prims.

(** One account with a slot in storage *)
Definition demo_account (v : Z) : Account := mkAccount 3 1000 {[ 1 := v ]} 77.
Definition stored_state (v : Z) : gmap Address Account := {[ 7 := demo_account v ]}.
Lemma stored_state_ok v : 0 < v < 2 ^ 256 -> state_ok (stored_state v).
Proof.
  intros Hv. apply map_Forall_singleton. split; [by vm_compute|]. split; [by vm_compute|by vm_compute|by vm_compute|].
  apply map_Forall_singleton. split; [by vm_compute|exact Hv].
Qed.
Lemma stored_state_fresh v : v = 5 \/ v = 6 -> roots_fresh (stored_state v).
Proof.
  intros [-> | ->]; (split; [intros _; apply Z.eqb_neq; vm_compute; reflexivity|]);
    apply map_Forall_singleton; intros _; apply Z.eqb_neq; vm_compute; reflexivity.
Qed.
Lemma stored_states_free : no_collision (state_preimages (stored_state 5) ++ state_preimages (stored_state 6)).
Proof. intros e e'. apply no_collisionb_ok. vm_compute. reflexivity. Qed.
Lemma state_root_binds_witness : state_root (stored_state 5) <> state_root (stored_state 6).
Proof.
  intros E. pose proof (state_root_binds (stored_state 5) (stored_state 6) (stored_state_ok 5 ltac:(lia)) (stored_state_ok 6 ltac:(lia))
    stored_states_free (stored_state_fresh 5 (or_introl eq_refl)) (stored_state_fresh 6 (or_intror eq_refl)) E) as Em.
  apply (f_equal (fun m : gmap Address Account => m !! 7 ≫= fun d => Root d !! 1)) in Em. discriminate Em.
Defined.

(** The account is dirty with that slot, over an empty trie. *)
Definition demo_object : stateObject := mkObject 7 (mkAccount 3 1000 ∅ 77) false None None {[ 1 := 5 ]} {[ 1 := 5 ]} false false false false false.
Definition demo_db : StateDB := upd_dirty (fun _ => {[ 7 ]}) (setStateObject demo_object (New ∅ ∅ ∅)).
Definition demo_secure : SecureTrie.SecureTrie := SecureTrie.mkSecure (Trie.mkTrie Trie.NilN (Some ∅) 0 0 0) ∅ true.
Definition demo_K (k : list byte) : Prop := k = be_bytes 20 7.
Lemma demo_secure_holds : sholds demo_K demo_secure (state_map (trie demo_db)).
Proof.
  change (trie demo_db) with (∅ : gmap Address Account). unfold state_map, encoded. rewrite fmap_empty, kmap_empty.
  split; [rewrite kmap_empty; apply holds_empty|apply map_Forall_empty|by eexists|done| |].
  - intros k [v Hv]. by rewrite lookup_empty in Hv.
  - intros k x _ Hx. change ((∅ : gmap (list byte) (list byte)) !! SecureTrie.secKey (Keccak256 k) = Some x) in Hx. by rewrite lookup_empty in Hx.
Qed.
Lemma demo_objects_ok : objects_ok demo_K [7] demo_db.
Proof.
  intros a o Ha Eo. apply list_elem_of_singleton in Ha as ->. assert (o = demo_object) as -> by (injection Eo as <-; reflexivity).
  split; [done|by vm_compute|done|]. apply (proj2 (stored_state_ok 5 ltac:(lia) 7 (demo_account 5) eq_refl)).
Qed.
Lemma IntermediateRoot_root_witness :
  exists s' tr' tr'', IntermediateRoot true [7] demo_db = Some s' /\ trie s' = stored_state 5 /\
    put_objects true [7] demo_db demo_secure = Trie.Done tr' /\ SecureTrie.Hash tr' = Trie.Done (state_root (stored_state 5), tr'').
Proof.
  destruct (IntermediateRoot true [7] demo_db) as [s'|] eqn:E; [|discriminate E].
  assert (trie s' = stored_state 5) as Et by (vm_compute in E; injection E as <-; reflexivity).
  assert (forall k k', demo_K k -> demo_K k' -> Keccak256 k = Keccak256 k' -> k = k') as HK by (intros k k' -> -> _; reflexivity).
  destruct (IntermediateRoot_root demo_K true [7] demo_db s' demo_secure HK (NoDup_singleton 7) demo_objects_ok (map_Forall_empty _) demo_secure_holds E)
    as (tr' & tr'' & E1 & _ & E2 & _).
  exists s', tr', tr''. rewrite Et in E2. auto.
Defined.
End StateRootThms.
