(* ===== verification/Filters.v ===== *)
(** * Log filters ([bzc/filters/filter.go]) and the mipmap of log blooms ([core/database_util.go])

    A filter searches a range of blocks for logs by address and topic.  It looks at the bloom of a
    block's header before it loads the receipts, and a filter with addresses goes through the range
    in batches of decreasing size, which have blooms in the database.  The node behind the filter is
    the class [Backend].  A run ends with [GOk], or needs more rounds than the fuel allows ([GErr]),
    or panics. *)

From Stdlib Require Strings.String.
From S2P Require Import Prelude GoMath World Trie Types Bloom.
Import (notations) Strings.String.

Module Filters.
Import Types Bloom.

Notation database := (gmap (list byte) (list byte)) (only parsing).

(** A header or an error, the receipts of a block or an error *)
Class Backend (E : Type) := {
  HeaderByNumber : Z -> option Header * option E;
  GetReceipts : Hash -> list Receipt * option E;
}.
Definition LatestBlockNumber : Z := -1.
Definition PendingBlockNumber : Z := -2.

(** ** The mipmap *)

Definition mipmapPre : list byte := Strings.String.list_byte_of_string "mipmap-log-bloom-"%string.
Definition MIPMapLevels : list Z := [1000000; 500000; 100000; 50000; 1000].
Definition mipmapKey (num level : Z) : list byte := mipmapPre ++ be_bytes 8 level ++ Bytes (num / level * level).

Definition GetMipmapBloom (db : database) (number level : Z) : option Bloom := BytesToBloom (default [] (db !! mipmapKey number level)).

Section prims.
Context `{CryptoPrims}.

Definition add_logs (bloom : option Bloom) (logs : list Log) : option Bloom :=
  fold_left (fun bloom log => b ← bloom; bloom_Add (SetBytes (be_bytes 20 (log_Address log))) b) logs bloom.
Definition level_bloom (db : database) (number level : Z) (receipts : list Receipt) : option Bloom :=
  fold_left (fun bloom receipt => add_logs bloom (Logs receipt)) receipts (GetMipmapBloom db number level).
(** The batch: all blooms are read before any is written. *)
Fixpoint mipmap_batch (db : database) (number : Z) (receipts : list Receipt) (levels : list Z) (batch : list (list byte * list byte))
    : option (list (list byte * list byte)) :=
  match levels with
  | [] => Some batch
  | level :: levels' =>
      bloom ← level_bloom db number level receipts;
      mipmap_batch db number receipts levels' (batch ++ [(mipmapKey number level, bloom)])
  end.
(** The batch is written at once, or not at all when [write] is false. *)
Definition WriteMipmapBloom (write : bool) (db : database) (number : Z) (receipts : list Receipt) : option database :=
  batch ← mipmap_batch db number receipts MIPMapLevels [];
  Some (if write then fold_left (fun db e => <[e.1 := e.2]> db) batch db else db).

(** ** Matching *)

Definition includes (addresses : list Address) (a : Address) : bool := existsb (fun addr => addr =? a) addresses.
(** A zero topic is a wildcard. *)
Definition topic_match (sub : list Hash) (t : Hash) : bool := existsb (fun topic => (topic =? 0) || (t =? topic)) sub.
Fixpoint topics_match (topics : list (list Hash)) (logTopics : list Hash) : bool :=
  match topics, logTopics with
  | [], _ => true
  | sub :: topics', t :: logTopics' => topic_match sub t && topics_match topics' logTopics'
  | _ :: _, [] => false
  end.
Definition log_match (fromBlock toBlock : option Z) (addresses : list Address) (topics : list (list Hash)) (log : Log) : bool :=
  if match fromBlock with Some b => (0 <=? Int64 b) && (log_BlockNumber log <? Uint64 b) | None => false end then false
  else if match toBlock with Some b => (0 <=? Int64 b) && (Uint64 b <? log_BlockNumber log) | None => false end then false
  else if match addresses with [] => false | _ => negb (includes addresses (log_Address log)) end then false
  else if (length (log_Topics log) <? length topics)%nat then false
  else topics_match topics (log_Topics log).
Definition filterLogs (logs : list Log) (fromBlock toBlock : option Z) (addresses : list Address) (topics : list (list Hash)) : list Log :=
  base.filter (fun log => log_match fromBlock toBlock addresses topics log = true) logs.

Definition bloomFilter (bloom : Bloom) (addresses : list Address) (topics : list (list Hash)) : bool :=
  match addresses with [] => true | _ => existsb (fun addr => BloomLookup bloom (be_bytes 20 addr)) addresses end &&
  forallb (fun sub => existsb (fun topic => (topic =? 0) || BloomLookup bloom (be_bytes 32 topic)) sub) topics.

(** ** Searching *)

Record Filter := mkFilter {
  useMipMap : bool;
  db : database;
  f_begin : Z;
  f_end : Z;
  addresses : list Address;
  topics : list (list Hash);
}.
Definition New (chainDb : database) (useMipMap : bool) : Filter := mkFilter useMipMap chainDb 0 0 [] [].
Definition SetBeginBlock (begin : Z) (f : Filter) : Filter := mkFilter (useMipMap f) (db f) begin (f_end f) (addresses f) (topics f).
Definition SetEndBlock (end_ : Z) (f : Filter) : Filter := mkFilter (useMipMap f) (db f) (f_begin f) end_ (addresses f) (topics f).
Definition SetAddresses (addr : list Address) (f : Filter) : Filter := mkFilter (useMipMap f) (db f) (f_begin f) (f_end f) addr (topics f).
Definition SetTopics (t : list (list Hash)) (f : Filter) : Filter := mkFilter (useMipMap f) (db f) (f_begin f) (f_end f) (addresses f) t.

(** [float64] of a [uint64], rounded to 53 bits and to even, and back; a value of 2^64 converts as on amd64. *)
Definition float64 (z : Z) : Z :=
  if z <? 2 ^ 53 then z
  else
    let e := Z.log2 z - 52 in
    let q := Z.shiftr z e in
    let r := z mod 2 ^ e in
    let half := 2 ^ (e - 1) in
    Z.shiftl (if (half <? r) || ((r =? half) && Z.odd q) then q + 1 else q) e.
Definition uint64_of_float (x : Z) : Z := if x <? 2 ^ 64 then x else 2 ^ 63.

Inductive fuelErr := OutOfFuel.

Section search.
Context {E : Type} `{Backend E}.

Fixpoint getLogs_loop (fuel : nat) (f : Filter) (i end_ : Z) (logs : list Log) : gores fuelErr (list Log * Z * option E) :=
  match fuel with
  | O => GErr OutOfFuel
  | S fuel' =>
      if i <=? end_ then
        let blockNumber := i64 i in
        match HeaderByNumber blockNumber with
        | (None, err) => GOk (logs, end_, err)
        | (Some _, Some err) => GOk (logs, end_, Some err)
        | (Some header, None) =>
            if bloomFilter (Types.Bloom header) (addresses f) (topics f) then
              match GetReceipts (header_Hash header) with
              | (_, Some err) => GOk ([], end_, Some err)
              | (receipts, None) =>
                  let unfiltered := fold_left (fun l receipt => l ++ Logs receipt) receipts [] in
                  match filterLogs unfiltered None None (addresses f) (topics f) with
                  | [] => getLogs_loop fuel' f (u64 (i + 1)) end_ []
                  | logs => GOk (logs, u64 blockNumber, None)
                  end
              end
            else getLogs_loop fuel' f (u64 (i + 1)) end_ logs
        end
      else GOk (logs, end_, None)
  end.
Definition getLogs (fuel : nat) (f : Filter) (start end_ : Z) : gores fuelErr (list Log * Z * option E) := getLogs_loop fuel f start end_ [].

(** The addresses of a filter on one batch; [deeper] searches the batch. *)
Fixpoint try_addresses (deeper : gores fuelErr (list Log * Z)) (bloom : Bloom) (first : bool) (addrs : list Address)
    : gores fuelErr (option (list Log * Z)) :=
  match addrs with
  | [] => GOk None
  | addr :: addrs' =>
      if first || TestBytes bloom (be_bytes 20 addr) then
        let+ r := deeper in
        match r.1 with [] => try_addresses deeper bloom false addrs' | _ => GOk (Some r) end
      else try_addresses deeper bloom first addrs'
  end.
Fixpoint batches (fuel : nat) (f : Filter) (level : Z) (deeper : Z -> Z -> gores fuelErr (list Log * Z)) (num start end_ : Z)
    : gores fuelErr (list Log * Z) :=
  match fuel with
  | O => GErr OutOfFuel
  | S fuel' =>
      if num <=? end_ then
        match GetMipmapBloom (db f) num level with
        | None => GPanic
        | Some bloom =>
            let start' := uint64_of_float (Z.max (float64 num) (float64 start)) in
            let end' := uint64_of_float (Z.min (float64 (u64 (num + level - 1))) (float64 end_)) in
            let+ r := try_addresses (deeper start' end') bloom true (addresses f) in
            match r with
            | Some found => GOk found
            | None => batches fuel' f level deeper (u64 (num + level)) start end_
            end
        end
      else GOk ([], end_)
  end.
(** [levels] are the levels from the depth on; an index out of range panics. *)
Fixpoint mipFind (fuel : nat) (f : Filter) (start end_ : Z) (levels : list Z) : gores fuelErr (list Log * Z) :=
  match levels with
  | [] => GPanic
  | level :: levels' =>
      let deeper start end_ :=
        match levels' with
        | [] => let+ (l, blockNumber, _) := getLogs fuel f start end_ in GOk (l, blockNumber)
        | _ => mipFind fuel f start end_ levels'
        end in
      batches fuel f level deeper (start / level * level) start end_
  end.

Definition FindOnce (fuel : nat) (f : Filter) : gores fuelErr (list Log * option E * Filter) :=
  match HeaderByNumber LatestBlockNumber with
  | (None, _) => GOk ([], None, f)
  | (Some head, _) =>
      let headBlockNumber := Uint64 (Number head) in
      let beginBlockNo := if f_begin f =? -1 then headBlockNumber else u64 (f_begin f) in
      let endBlockNo := if f_end f =? -1 then headBlockNumber else u64 (f_end f) in
      if negb (useMipMap f) || match addresses f with [] => true | _ => false end then
        let+ (logs, blockNumber, err) := getLogs fuel f beginBlockNo endBlockNo in
        GOk (logs, err, SetBeginBlock (i64 (u64 (blockNumber + 1))) f)
      else
        let+ (logs, blockNumber) := mipFind fuel f beginBlockNo endBlockNo MIPMapLevels in
        GOk (logs, None, SetBeginBlock (i64 (u64 (blockNumber + 1))) f)
  end.
Fixpoint Find_loop (rounds fuel : nat) (f : Filter) (logs : list Log) : gores fuelErr (list Log * option E * Filter) :=
  match rounds with
  | O => GErr OutOfFuel
  | S rounds' =>
      let+ (newLogs, err, f) := FindOnce fuel f in
      match newLogs, err with
      | [], _ | _, Some _ => GOk (logs, err, f)
      | _, None => Find_loop rounds' fuel f (logs ++ newLogs)
      end
  end.
Definition Find (fuel : nat) (f : Filter) : gores fuelErr (list Log * option E * Filter) := Find_loop fuel fuel f [].
End search.
End prims.
End Filters.
