(* ===== verification/FiltersThms.v ===== *)
(** * Log filters: theorems

    The blooms have no false negatives, so that a search finds exactly the matching logs of the range,
    with the mipmap or without; and the mipmap never loses an address that was written to it. *)

From S2P Require Import Prelude GoMath World Demo Trie Types Bloom Filters.

Module FiltersThms.
Import Types Bloom Filters.

(** ** Blooms and matching *)

Lemma topics_match_length topics ts : topics_match topics ts = true -> (length topics <= length ts)%nat.
Proof. revert ts. induction topics as [|sub topics IH]; intros [|t ts]; cbn; [lia..|done|]. rewrite andb_true_iff. intros [_ ?%IH]. lia. Qed.
Lemma log_match_spec addrs topics log : log_match None None addrs topics log = true <->
  (addrs = [] \/ log_Address log ∈ addrs) /\ topics_match topics (log_Topics log) = true.
Proof.
  unfold log_match. assert (match addrs with [] => false | _ => negb (includes addrs (log_Address log)) end = false <-> addrs = [] \/ log_Address log ∈ addrs) as Ha.
  { destruct addrs as [|a addrs]; [by split; [left|]|]. rewrite negb_false_iff. unfold includes. rewrite existsb_exists. split.
    - intros (x & Hx & E%Z.eqb_eq). right. subst x. by apply list_elem_of_In.
    - intros [?|Hx]; [done|]. exists (log_Address log). split; [by apply list_elem_of_In|apply Z.eqb_refl]. }
  destruct (match addrs with [] => false | _ => negb _ end); [split; [done|intros [Hn _]; apply Ha in Hn; done]|].
  destruct (Nat.ltb_spec (length (log_Topics log)) (length topics)) as [Hl|Hl].
  - split; [done|]. intros [_ ?%topics_match_length]. lia.
  - split; [intros ?; split; [by apply Ha|done]|by intros [_ ?]].
Qed.

(** A log matches if it is by one of the addresses, any address if there are none, and has a topic at the
    place of each list of topics, which is in the list unless the list has the wildcard zero. *)
Definition matches (addrs : list Address) (topics : list (list Hash)) (log : Log) : Prop :=
  (addrs = [] \/ log_Address log ∈ addrs) /\
  forall i sub, topics !! i = Some sub -> exists t, log_Topics log !! i = Some t /\ (0 ∈ sub \/ t ∈ sub).
Lemma topic_match_spec sub t : topic_match sub t = true <-> 0 ∈ sub \/ t ∈ sub.
Proof.
  unfold topic_match. rewrite existsb_exists. split.
  - intros (x & Hx%list_elem_of_In & [->%Z.eqb_eq| ->%Z.eqb_eq]%orb_true_iff); auto.
  - intros [Hx|Hx]; eexists; (split; [by apply list_elem_of_In|]); by rewrite Z.eqb_refl, ?orb_true_r.
Qed.
Lemma topics_match_spec topics ts : topics_match topics ts = true <-> forall i sub, topics !! i = Some sub -> exists t, ts !! i = Some t /\ (0 ∈ sub \/ t ∈ sub).
Proof.
  revert ts. induction topics as [|sub topics IH]; intros [|t ts]; cbn [topics_match].
  - done.
  - done.
  - split; [done|]. intros Hf. by destruct (Hf O sub eq_refl) as (t & ? & _).
  - rewrite andb_true_iff, topic_match_spec, IH. split.
    + intros [H0 Hs] [|i] sub' E; [injection E as <-; by exists t|by apply Hs].
    + intros Hf. split; [by destruct (Hf O sub eq_refl) as (? & [= <-] & ?)|]. intros i sub' E. by apply (Hf (S i)).
Qed.
Lemma log_matches addrs topics log : log_match None None addrs topics log = true <-> matches addrs topics log.
Proof. by rewrite log_match_spec, topics_match_spec. Qed.
#[export] Instance matches_dec addrs topics log : Decision (matches addrs topics log).
Proof. refine (cast_if (decide (log_match None None addrs topics log = true))); by rewrite <- log_matches. Defined.
Lemma filterLogs_matches logs addrs topics : filterLogs logs None None addrs topics = base.filter (matches addrs topics) logs.
Proof. apply list_filter_iff. intros log. apply log_matches. Qed.

Section prims.
Context `{CryptoPrims}.

Lemma topics_bloom bloom topics ts : (forall t, t ∈ ts -> BloomLookup bloom (be_bytes 32 t) = true) -> topics_match topics ts = true ->
  forallb (fun sub => existsb (fun topic => (topic =? 0) || BloomLookup bloom (be_bytes 32 topic)) sub) topics = true.
Proof.
  revert ts. induction topics as [|sub topics IH]; intros [|t ts] Hb; cbn [topics_match forallb]; try done. rewrite !andb_true_iff. intros [Hm Ht]. split.
  - unfold topic_match in Hm. apply existsb_exists in Hm as (x & Hx & E). apply existsb_exists. exists x. split; [done|]. rewrite orb_true_iff in E |- *.
    destruct E as [E|E%Z.eqb_eq]; [by left|right]. subst x. apply Hb. left.
  - apply (IH ts); [|done]. intros x Hx. apply Hb. by right.
Qed.
(** A block with a matching log passes the bloom filter. *)
Lemma bloomFilter_passes receipts bloom addrs topics : CreateBloom receipts = Some bloom -> filterLogs (all_logs receipts) None None addrs topics <> [] -> bloomFilter bloom addrs topics = true.
Proof.
  intros Eb Hne. assert (exists log, log ∈ all_logs receipts /\ log_match None None addrs topics log = true) as (log & Hin & Hm).
  { destruct (filterLogs _ _ _ _ _) as [|log l] eqn:Ef; [done|]. exists log. assert (log ∈ filterLogs (all_logs receipts) None None addrs topics) as Hl by (rewrite Ef; left).
    unfold filterLogs in Hl. by apply list_elem_of_filter in Hl as [? ?]. }
  apply log_match_spec in Hm as [Ha Ht]. unfold bloomFilter. apply andb_true_iff. split.
  - destruct addrs as [|a addrs]; [done|]. destruct Ha as [?|Ha]; [done|]. apply existsb_exists. exists (log_Address log). split; [by apply list_elem_of_In|].
    eapply CreateBloom_finds; [done|done|left].
  - eapply topics_bloom; [|done]. intros t Hx. eapply CreateBloom_finds; [done|done|]. right. by apply list_elem_of_fmap_2.
Qed.

(** ** Searching a range *)

Section chain.
Context {E : Type} `{Backend E} (hi : Z) (rs : Z -> list Receipt).

(** The canonical chain up to its head [hi]: every header has the bloom of its receipts, and there is
    none above the head. *)
Record chain_to : Prop := {
  ch_head : exists h e, HeaderByNumber LatestBlockNumber = (Some h, e) /\ Number h = hi;
  ch_range : 0 <= hi < 2 ^ 52;
  ch_block i : 0 <= i <= hi -> exists h, HeaderByNumber i = (Some h, None) /\ GetReceipts (header_Hash h) = (rs i, None) /\ CreateBloom (rs i) = Some (Types.Bloom h);
  ch_above i : hi < i < 2 ^ 63 -> HeaderByNumber i = (None, None);
}.
Context (Hch : chain_to) (f : Filter).

(** The logs of block [i] that match *)
Definition found (i : Z) : list Log := if i <=? hi then base.filter (matches (addresses f) (topics f)) (all_logs (rs i)) else [].
(** The first block of a list of blocks with matching logs *)
Fixpoint first_found (l : list Z) : option Z :=
  match l with [] => None | i :: l' => match found i with [] => first_found l' | _ => Some i end end.
Definition range (s e : Z) : list Z := seqZ s (e - s + 1).
Definition answer (s e : Z) : list Log * Z := match first_found (range s e) with Some i => (found i, i) | None => ([], e) end.

Lemma range_cons s e : s <= e -> range s e = s :: range (s + 1) e.
Proof. intros Hs. unfold range. rewrite seqZ_cons by lia. unfold Z.succ, Z.pred. do 2 f_equal. lia. Qed.
Lemma range_nil s e : e < s -> range s e = [].
Proof. intros Hs. unfold range. apply seqZ_nil. lia. Qed.
Lemma range_app s m e : s <= m + 1 -> m <= e -> range s e = range s m ++ range (m + 1) e.
Proof. intros Hs Hm. unfold range. replace (e - s + 1) with ((m - s + 1) + (e - (m + 1) + 1)) by lia. rewrite seqZ_app by lia. do 2 f_equal; lia. Qed.
Lemma first_found_app a b : first_found (a ++ b) = match first_found a with Some i => Some i | None => first_found b end.
Proof. induction a as [|i a IH]; [done|]. cbn [app first_found]. by destruct (found i). Qed.
Lemma first_found_above s e : hi < s -> first_found (range s e) = None.
Proof.
  intros Hs. destruct (Z.lt_ge_cases e s) as [?|Hle]; [by rewrite range_nil|]. unfold range. assert (forall i, i ∈ seqZ s (e - s + 1) -> hi < i) as Hi by (intros i Hi%elem_of_seqZ; lia).
  induction (seqZ s (e - s + 1)) as [|i l IH]; [done|]. cbn [first_found]. assert (found i = []) as ->; [|apply IH; intros j Hj; apply Hi; by right].
  unfold found. rewrite (proj2 (Z.leb_gt _ _)); [done|]. apply Hi. left.
Qed.
Lemma fold_logs receipts acc : fold_left (fun l receipt => l ++ Logs receipt) receipts acc = acc ++ all_logs receipts.
Proof. revert acc. induction receipts as [|r rs' IH]; intros acc; cbn; [by rewrite app_nil_r|]. by rewrite IH, <- app_assoc. Qed.

Lemma small_block i : 0 <= i < 2 ^ 63 -> i64 i = i /\ u64 i = i.
Proof. intros Hi. unfold i64, u64. rewrite Z.mod_small by lia. rewrite (proj2 (Z.ltb_lt _ _)) by lia. done. Qed.
(** Whatever the fuel, the answer is right. *)
Lemma getLogs_any fuel s e : 0 <= s -> e < 2 ^ 63 - 1 ->
  getLogs fuel f s e = GErr OutOfFuel \/ getLogs fuel f s e = GOk ((answer s e).1, (answer s e).2, None).
Proof.
  unfold getLogs. revert s. induction fuel as [|fuel IH]; intros s Hs He; [by left|]. cbn [getLogs_loop]. unfold answer.
  destruct (Z.leb_spec s e) as [Hle|Hgt]; [|right; by rewrite range_nil by done]. destruct (small_block s) as [Ei Eu]; [lia|]. rewrite Ei.
  destruct (Z.lt_ge_cases hi s) as [Hab|Hin].
  { rewrite (ch_above Hch) by lia. right. by rewrite first_found_above by done. }
  destruct (ch_block Hch s) as (h & -> & -> & Eb); [lia|]. assert (u64 (s + 1) = s + 1) as -> by (apply small_block; lia). rewrite range_cons by done. cbn [first_found].
  assert (found s = filterLogs (all_logs (rs s)) None None (addresses f) (topics f)) as Ef by (unfold found; by rewrite filterLogs_matches, (proj2 (Z.leb_le _ _))). rewrite Ef.
  specialize (IH (s + 1) ltac:(lia) He). unfold answer in IH. rewrite fold_logs. cbn [app]. destruct (filterLogs _ _ _ _ _) as [|log l] eqn:El.
  - destruct (bloomFilter _ _ _); exact IH.
  - rewrite (bloomFilter_passes (rs s) _ _ _ Eb) by (by rewrite El). right. by rewrite Eu, Ef.
Qed.
Lemma getLogs_enough fuel s e : 0 <= s -> e < 2 ^ 63 - 1 -> (Z.to_nat (Z.min e hi - s + 1) < fuel)%nat -> getLogs fuel f s e <> GErr OutOfFuel.
Proof.
  unfold getLogs. revert s. induction fuel as [|fuel IH]; intros s Hs He Hf; [lia|]. cbn [getLogs_loop]. destruct (Z.leb_spec s e) as [Hle|Hgt]; [|done].
  destruct (small_block s) as [Ei Eu]; [lia|]. rewrite Ei. destruct (Z.lt_ge_cases hi s) as [Hab|Hin]; [by rewrite (ch_above Hch) by lia|].
  destruct (ch_block Hch s) as (h & -> & -> & Eb); [lia|]. assert (u64 (s + 1) = s + 1) as -> by (apply small_block; lia).
  assert (getLogs_loop fuel f (s + 1) e [] <> GErr OutOfFuel) as Hn by (apply IH; lia). destruct (bloomFilter _ _ _); [|done]. by destruct (filterLogs _ _ _ _ _).
Qed.

(** ** Batches *)

Lemma float_exact z : 0 <= z < 2 ^ 53 -> float64 z = z.
Proof. intros Hz. unfold float64. by rewrite (proj2 (Z.ltb_lt _ _)) by lia. Qed.
Lemma uint64_exact z : 0 <= z < 2 ^ 53 -> uint64_of_float z = z.
Proof. intros Hz. unfold uint64_of_float. by rewrite (proj2 (Z.ltb_lt _ _)) by lia. Qed.
Lemma try_empty d bloom r addrs : d = GOk r -> r.1 = [] -> try_addresses d bloom false addrs = GOk None.
Proof. intros -> Er. induction addrs as [|a addrs IH]; [done|]. cbn. destruct (TestBytes _ _); [|done]. cbn. by rewrite Er. Qed.
(** The first address is always searched for: the blooms do not matter. *)
Lemma try_addresses_eq d bloom addrs : addrs <> [] ->
  try_addresses d bloom true addrs = (let+ r := d in match r.1 with [] => GOk None | _ => GOk (Some r) end).
Proof.
  destruct addrs as [|a addrs]; [done|]. intros _. cbn. destruct d as [r| |] eqn:Ed; [|done..]. cbn. destruct r.1 eqn:Er; [|done]. by apply (try_empty _ _ r).
Qed.
(** A level of the mipmap *)
Definition level_ok (level : Z) : Prop := 0 < level <= 1000000.
Context (Hdb : forall num level, is_Some (GetMipmapBloom (db f) num level)) (Haddr : addresses f <> []).

(** One round of the loop over batches *)
Lemma batches_step fuel level deeper num s e : level_ok level -> 0 <= num -> 0 <= s <= 2 ^ 52 -> num <= e -> e < 2 ^ 52 ->
  batches (S fuel) f level deeper num s e =
    (let+ r := deeper (Z.max num s) (Z.min (num + level - 1) e) in
     match r.1 with [] => batches fuel f level deeper (num + level) s e | _ => GOk r end).
Proof.
  intros Hl Hn Hs Hle He. unfold level_ok in Hl. cbn [batches]. rewrite (proj2 (Z.leb_le _ _)) by done. destruct (Hdb num level) as [bloom ->].
  rewrite (u64_small (num + level - 1)), (u64_small (num + level)), !float_exact, !uint64_exact by lia.
  rewrite try_addresses_eq by done. destruct (deeper _ _) as [r| |]; [|done..]. cbn. by destruct r.1.
Qed.
Lemma batches_done fuel level deeper num s e : e < num -> batches (S fuel) f level deeper num s e = GOk ([], e).
Proof. intros Hn. cbn [batches]. by rewrite (proj2 (Z.leb_gt _ _)). Qed.
Lemma answer_batch num level s e : level_ok level -> num <= e -> s < num + level ->
  first_found (range (Z.max num s) e) =
    match first_found (range (Z.max num s) (Z.min (num + level - 1) e)) with Some i => Some i | None => first_found (range (num + level) e) end.
Proof.
  intros Hl Hn Hs. unfold level_ok in Hl. destruct (Z.lt_ge_cases e (Z.max num s)) as [Ho|Ho]; [rewrite !range_nil by lia; done|].
  destruct (Z.le_gt_cases (num + level) e) as [Hm|Hm].
  - rewrite Z.min_l by lia. rewrite (range_app _ (num + level - 1) e), first_found_app by lia. by replace (num + level - 1 + 1) with (num + level) by lia.
  - rewrite Z.min_r, (range_nil (num + level)) by lia. by destruct (first_found _).
Qed.
Lemma found_nonempty l i : first_found l = Some i -> found i <> [].
Proof. induction l as [|j l IH]; [done|]. cbn. destruct (found j) eqn:Ej; [done|]. intros [= ->]. by rewrite Ej. Qed.
Definition right_answer (x : gores fuelErr (list Log * Z)) (s e : Z) : Prop := x = GErr OutOfFuel \/ x = GOk (answer s e).
Lemma batches_any fuel level deeper s e : level_ok level -> 0 <= s <= 2 ^ 52 -> e < 2 ^ 52 ->
  (forall s' e', s <= s' <= 2 ^ 52 -> e' <= e -> right_answer (deeper s' e') s' e') -> forall num, 0 <= num -> s < num + level ->
  right_answer (batches fuel f level deeper num s e) (Z.max num s) e.
Proof.
  intros Hl Hs He Hd. unfold level_ok in Hl. unfold right_answer. induction fuel as [|fuel IH]; intros num Hn Hns; [by left|].
  destruct (Z.lt_ge_cases e num) as [Hlt|Hle]; [right; rewrite batches_done by done; unfold answer; by rewrite range_nil by lia|].
  rewrite batches_step by done. destruct (Hd (Z.max num s) (Z.min (num + level - 1) e)) as [-> | ->]; [lia..|by left|]. cbn [gbind].
  unfold answer. rewrite (answer_batch num level s e) by done. destruct (first_found (range (Z.max num s) (Z.min (num + level - 1) e))) as [i|] eqn:Ei; cbn [fst].
  - right. pose proof (found_nonempty _ _ Ei). by destruct (found i).
  - specialize (IH (num + level) ltac:(lia) ltac:(lia)). unfold answer in IH. rewrite (Z.max_l (num + level) s) in IH by lia. exact IH.
Qed.
Lemma batches_enough fuel level deeper s e : level_ok level -> 0 <= s <= 2 ^ 52 -> e < 2 ^ 52 ->
  (forall s' e', s <= s' <= 2 ^ 52 -> e' <= e -> deeper s' e' <> GErr OutOfFuel) -> forall num, 0 <= num -> (Z.to_nat ((e - num) / level + 1) < fuel)%nat ->
  batches fuel f level deeper num s e <> GErr OutOfFuel.
Proof.
  intros Hl Hs He Hd. unfold level_ok in Hl. induction fuel as [|fuel IH]; intros num Hn Hf; [lia|].
  destruct (Z.lt_ge_cases e num) as [Hlt|Hle]; [by rewrite batches_done|]. rewrite batches_step by done.
  pose proof (Hd (Z.max num s) (Z.min (num + level - 1) e) ltac:(lia) ltac:(lia)) as Hd1. destruct (deeper _ _) as [r|[]|]; [|done..]. cbn. destruct r.1; [|done].
  apply IH; [lia|]. replace (e - (num + level)) with (e - num + (-1) * level) by lia. rewrite Z.div_add by lia. pose proof (Z.div_pos (e - num) level ltac:(lia) ltac:(lia)). lia.
Qed.
Lemma mip_start level s : level_ok level -> 0 <= s -> 0 <= s / level * level <= s /\ s < s / level * level + level.
Proof. unfold level_ok. intros Hl Hs. pose proof (Z.div_mod s level ltac:(lia)). pose proof (Z.mod_pos_bound s level ltac:(lia)). pose proof (Z.div_pos s level Hs ltac:(lia)). nia. Qed.
Lemma mipFind_any fuel levels s e : levels <> [] -> Forall level_ok levels -> 0 <= s <= 2 ^ 52 -> e < 2 ^ 52 -> right_answer (mipFind fuel f s e levels) s e.
Proof.
  intros Hne Hl. revert s e. induction Hl as [|level levels Hl Hls IH]; [done|]. intros s e Hs He. cbn [mipFind]. destruct (mip_start level s Hl ltac:(lia)) as [H1 H2].
  rewrite <- (Z.max_r (s / level * level) s) at 3 by lia. apply batches_any; try done; [|lia]. intros s' e' Hs' He'. destruct levels as [|l2 levels]; [|apply IH; [done|lia..]].
  unfold right_answer. destruct (getLogs_any fuel s' e') as [-> | ->]; [lia..|by left|right]. cbn. by destruct (answer s' e').
Qed.
Lemma mipFind_enough fuel levels s e : levels <> [] -> Forall level_ok levels -> 0 <= s <= 2 ^ 52 -> e < 2 ^ 52 -> (Z.to_nat (Z.max 0 (e - s) + 2) < fuel)%nat ->
  mipFind fuel f s e levels <> GErr OutOfFuel.
Proof.
  intros Hne Hl. revert s e. induction Hl as [|level levels Hl Hls IH]; [done|]. intros s e Hs He Hf. cbn [mipFind]. destruct (mip_start level s Hl ltac:(lia)) as [H1 H2].
  pose proof Hl as Hl'. unfold level_ok in Hl'.
  assert ((e - s / level * level) / level <= Z.max 0 (e - s) + 1) by (apply Z.lt_succ_r, Z.div_lt_upper_bound; nia).
  apply batches_enough; try done; [|lia|lia]. intros s' e' Hs' He'. destruct levels as [|l2 levels]; [|apply IH; [done|lia..]].
  pose proof (getLogs_enough fuel s' e' ltac:(lia) ltac:(lia) ltac:(lia)) as Hg. destruct (getLogs fuel f s' e') as [[[] ?]|[]|]; done.
Qed.
Lemma MIPMapLevels_ok : Forall level_ok MIPMapLevels.
Proof. unfold MIPMapLevels, level_ok. repeat constructor; lia. Qed.

(** ** All matching logs *)

Lemma first_found_none l : first_found l = None -> concat (map found l) = [].
Proof. induction l as [|i l IH]; [done|]. cbn. destruct (found i) eqn:Ei; [|done]. by intros ->%IH. Qed.
Lemma first_found_some s e i : first_found (range s e) = Some i -> s <= i <= e /\ concat (map found (range s e)) = found i ++ concat (map found (range (i + 1) e)).
Proof.
  remember (Z.to_nat (e - s + 1)) as n eqn:En. revert s En. induction n as [|n IH]; intros s En Hi; [by rewrite range_nil in Hi by lia|].
  rewrite range_cons in Hi |- * by lia. cbn [first_found map concat] in *. destruct (found s) as [|x l] eqn:Es; [|injection Hi as <-; rewrite Es; split; [lia|done]].
  destruct (IH (s + 1) ltac:(lia) Hi) as [? ->]. split; [lia|done].
Qed.
End chain.

Section find.
Context {E : Type} `{Backend E} (hi : Z) (rs : Z -> list Receipt) (Hch : chain_to hi rs).

(** The range a filter stands for *)
Definition first_block (f : Filter) : Z := if f_begin f =? -1 then hi else f_begin f.
Definition last_block (f : Filter) : Z := if f_end f =? -1 then hi else f_end f.
Record filter_ok (f : Filter) : Prop := {
  fo_begin : 0 <= first_block f <= 2 ^ 52;
  fo_end : 0 <= last_block f < 2 ^ 52;
  fo_mip : useMipMap f = true -> forall num level, is_Some (GetMipmapBloom (db f) num level);
}.
Definition enough (fuel : nat) (f : Filter) : Prop := (Z.to_nat (Z.max 0 (last_block f - first_block f) + 2) < fuel)%nat.
Definition next (f : Filter) (b : Z) : Filter := SetBeginBlock b f.

Lemma FindOnce_ok fuel f : filter_ok f -> enough fuel f ->
  let a := answer hi rs f (first_block f) (last_block f) in FindOnce fuel f = GOk (a.1, None, next f (a.2 + 1)).
Proof.
  intros [Hb He Hm] Hf a. pose proof (ch_range _ _ Hch) as Hr. destruct (ch_head _ _ Hch) as (h & err & Eh & En). unfold FindOnce. rewrite Eh, En.
  assert (Uint64 hi = hi) as -> by (unfold Uint64; rewrite Z.abs_eq by lia; apply u64_small; lia).
  assert ((if f_begin f =? -1 then hi else u64 (f_begin f)) = first_block f) as -> by (unfold first_block in *; destruct (f_begin f =? -1); [done|apply u64_small; lia]).
  assert ((if f_end f =? -1 then hi else u64 (f_end f)) = last_block f) as -> by (unfold last_block in *; destruct (f_end f =? -1); [done|apply u64_small; lia]).
  assert (0 <= a.2 < 2 ^ 52) as Ha.
  { unfold a, answer. destruct (first_found _ _ _ _) as [i|] eqn:Ei; [apply first_found_some in Ei as [Hi _]; cbn; lia|done]. }
  assert (i64 (u64 (a.2 + 1)) = a.2 + 1) as Ea by (rewrite u64_small by lia; apply small_block; lia). unfold next, enough in *.
  destruct (negb (useMipMap f) || _) eqn:Ec.
  - destruct (getLogs_any hi rs Hch f fuel (first_block f) (last_block f)) as [En'|En']; [lia..| |].
    + exfalso. revert En'. apply (getLogs_enough hi rs Hch); lia.
    + rewrite En'. cbn [gbind]. fold a. by rewrite Ea.
  - apply orb_false_iff in Ec as [Em%negb_false_iff Ead]. assert (addresses f <> []) as Hne by (by destruct (addresses f)).
    destruct (mipFind_any hi rs Hch f (Hm Em) Hne fuel MIPMapLevels (first_block f) (last_block f)) as [En'|En']; [done|apply MIPMapLevels_ok|lia..| |].
    + exfalso. revert En'. apply (mipFind_enough hi rs Hch f (Hm Em) Hne); [done|apply MIPMapLevels_ok|lia..].
    + rewrite En'. fold a. destruct a as [l b] eqn:Ea'. cbn [gbind fst snd] in *. by rewrite Ea.
Qed.
Lemma Find_loop_ok rounds fuel f acc : filter_ok f -> enough fuel f -> (Z.to_nat (last_block f - first_block f + 1) < rounds)%nat ->
  Find_loop rounds fuel f acc = GOk (acc ++ concat (map (found hi rs f) (range (first_block f) (last_block f))), None, next f (last_block f + 1)).
Proof.
  revert f acc. induction rounds as [|rounds IH]; intros f acc Hok Hf Hn; [lia|]. cbn [Find_loop]. rewrite (FindOnce_ok fuel f Hok Hf). cbn [gbind]. destruct Hok as [Hb He Hm].
  unfold answer. destruct (first_found _ _ _ _) as [i|] eqn:Ei; cbn [fst snd].
  - pose proof (found_nonempty _ _ _ _ _ Ei) as Hne. apply first_found_some in Ei as [Hi ->]. rewrite app_assoc.
    assert (first_block (next f (i + 1)) = i + 1) as Eb by (unfold first_block; cbn; rewrite (proj2 (Z.eqb_neq _ _)) by lia; done).
    pose proof (IH (next f (i + 1)) (acc ++ found hi rs f i)) as IH'. change (last_block (next f (i + 1))) with (last_block f) in IH'. rewrite Eb in IH'.
    change (found hi rs (next f (i + 1))) with (found hi rs f) in IH'. change (next (next f (i + 1)) (last_block f + 1)) with (next f (last_block f + 1)) in IH'.
    destruct (found hi rs f i) as [|x l]; [done|]. apply IH'; [|unfold enough in *; rewrite Eb; change (last_block (next f (i + 1))) with (last_block f); lia|lia].
    split; [rewrite Eb; lia|done|done].
  - apply first_found_none in Ei as ->. by rewrite app_nil_r.
Qed.
End find.

(** ** The mipmap *)

(** The bits of an address, as [Add] and [TestBytes] compute them *)
Definition addr_bits (a : Address) : Z := bloom9 (Bytes (SetBytes (be_bytes 20 a))).
Lemma TestBytes_within b a : TestBytes b (be_bytes 20 a) = true <-> within (addr_bits a) (Big b).
Proof. apply BloomLookup_within. Qed.
Definition grown (b b' : Bloom) : Prop := length b' = 256%nat /\ forall x, within x (Big b) -> within x (Big b').
Lemma grown_refl b : length b = 256%nat -> grown b b.
Proof. done. Qed.
Lemma grown_trans a b c : grown a b -> grown b c -> grown a c.
Proof. intros [_ A] [? B]. split; [done|auto]. Qed.
Lemma add_logs_ok logs (b : Bloom) : length b = 256%nat -> exists b', add_logs (Some b) logs = Some b' /\ grown b b' /\ forall log, log ∈ logs -> within (addr_bits (log_Address log)) (Big b').
Proof.
  revert b. induction logs as [|log logs IH]; intros b Hb.
  { exists b. split_and!; [done|by apply grown_refl|intros log Hl; by apply not_elem_of_nil in Hl]. }
  unfold add_logs. cbn [fold_left mbind option_bind]. destruct (bloom_Add_ok (SetBytes (be_bytes 20 (log_Address log))) b Hb) as (b1 & -> & Hl1 & E1).
  destruct (IH b1 Hl1) as (b2 & E2 & [Hl2 G2] & Ha). exists b2. split_and!; [exact E2|split; [done|intros x Hx; apply G2; rewrite E1; eauto with bloom]|].
  intros l [->|Hl]%elem_of_cons; [|by apply Ha]. apply G2. rewrite E1. apply within_or_r, within_refl.
Qed.
Lemma level_bloom_ok db number level receipts (b : Bloom) : GetMipmapBloom db number level = Some b -> length b = 256%nat ->
  exists b', level_bloom db number level receipts = Some b' /\ grown b b' /\ forall log, log ∈ all_logs receipts -> within (addr_bits (log_Address log)) (Big b').
Proof.
  unfold level_bloom. intros -> . revert b. induction receipts as [|r rs IH]; intros b Hb.
  { exists b. split_and!; [done|by apply grown_refl|intros log Hl; by apply not_elem_of_nil in Hl]. }
  cbn [fold_left]. destruct (add_logs_ok (Logs r) b Hb) as (b1 & -> & G1 & A1). destruct (IH b1 (proj1 G1)) as (b2 & E2 & G2 & A2).
  exists b2. split_and!; [done|by eapply grown_trans|]. intros log [Hl|Hl]%elem_of_app; [by apply G2, A1|by apply A2].
Qed.
(** Every entry of the mipmap is a bloom. *)
Definition mip_ok (db : database) : Prop := forall num level, exists b, GetMipmapBloom db num level = Some b /\ length b = 256%nat.
Lemma BytesToBloom_length d b : BytesToBloom d = Some b -> length b = 256%nat.
Proof.
  unfold BytesToBloom, bloom_SetBytes, bloomLength, zero_bloom. rewrite length_zeros. destruct (Nat.ltb_spec bloomLength (length d)) as [|Hl]; [done|]. intros [= <-].
  unfold bloomLength in Hl. rewrite length_app, length_take, length_zeros. unfold bloomLength. lia.
Qed.
Lemma BytesToBloom_id b : length b = 256%nat -> BytesToBloom b = Some b.
Proof. intros Hb. unfold BytesToBloom, bloom_SetBytes, zero_bloom. rewrite length_zeros, Hb. cbn [Nat.ltb Nat.leb]. by rewrite Nat.sub_diag. Qed.
(** The entries of the batch are grown from those of the database and have all the addresses. *)
Definition batch_ok (db : database) (number : Z) (receipts : list Receipt) (batch : list (list byte * list byte)) : Prop :=
  Forall (fun e => exists level b, e.1 = mipmapKey number level /\ GetMipmapBloom db number level = Some b /\ grown b e.2 /\
    forall log, log ∈ all_logs receipts -> within (addr_bits (log_Address log)) (Big e.2)) batch.
Lemma mipmap_batch_ok db number receipts levels batch : mip_ok db -> batch_ok db number receipts batch ->
  exists batch', mipmap_batch db number receipts levels batch = Some batch' /\ batch_ok db number receipts batch' /\
    (forall level, level ∈ levels -> mipmapKey number level ∈ batch'.*1) /\ forall e, e ∈ batch -> e ∈ batch'.
Proof.
  intros Hdb. revert batch. induction levels as [|level levels IH]; intros batch Hb.
  { exists batch. split_and!; try done. intros l Hl. by apply not_elem_of_nil in Hl. }
  cbn [mipmap_batch]. destruct (Hdb number level) as (b & Eb & Hl). destruct (level_bloom_ok db number level receipts b Eb Hl) as (b' & -> & G & A). cbn [mbind option_bind].
  destruct (IH (batch ++ [(mipmapKey number level, b')])) as (batch' & E & Hb' & Hk & Hi).
  { apply Forall_app. split; [done|]. apply Forall_singleton. exists level, b. by split_and!. }
  exists batch'. split_and!; try done; [|intros e He; apply Hi; apply elem_of_app; by left]. intros l [->|Hl']%elem_of_cons; [|by apply Hk].
  apply list_elem_of_fmap. exists (mipmapKey number level, b'). split; [done|]. apply Hi, elem_of_app. right. left.
Qed.
Lemma write_lookup (batch : list (list byte * list byte)) (db : database) k :
  (exists v, (k, v) ∈ batch /\ fold_left (fun db e => <[e.1 := e.2]> db) batch db !! k = Some v) \/
  k ∉ batch.*1 /\ fold_left (fun db e => <[e.1 := e.2]> db) batch db !! k = db !! k.
Proof.
  revert db. induction batch as [|[k1 v1] batch IH]; intros db; cbn [fold_left fst snd]; [right; by split; [apply not_elem_of_nil|]|].
  destruct (IH (<[k1 := v1]> db)) as [(v & Hv & E)|[Hk E]]; [left; exists v; split; [by right|done]|]. destruct (decide (k1 = k)) as [->|Hne].
  - left. exists v1. split; [left|]. by rewrite E, lookup_insert_eq.
  - right. rewrite E, lookup_insert_ne by done. split; [|done]. cbn. rewrite not_elem_of_cons. by split.
Qed.
(** A write keeps the blooms, lets them grow, and adds the addresses of the logs at every level. *)
Lemma WriteMipmapBloom_ok write db number receipts : mip_ok db -> exists db', WriteMipmapBloom write db number receipts = Some db' /\ mip_ok db' /\
  (forall num level b b', GetMipmapBloom db num level = Some b -> GetMipmapBloom db' num level = Some b' -> grown b b') /\
  (write = true -> forall log level b', log ∈ all_logs receipts -> level ∈ MIPMapLevels -> GetMipmapBloom db' number level = Some b' -> within (addr_bits (log_Address log)) (Big b')).
Proof.
  intros Hdb. unfold WriteMipmapBloom. destruct (mipmap_batch_ok db number receipts MIPMapLevels [] Hdb) as (batch & -> & Hb & Hk & _); [constructor|]. cbn [mbind option_bind]. eexists. split; [done|].
  destruct write.
  2: { split_and!; [done| |done]. intros num level b b' Eb Eb'. rewrite Eb in Eb'. injection Eb' as <-. apply grown_refl. by eapply BytesToBloom_length. }
  set (db' := fold_left _ batch db). assert (forall num level, exists b b', GetMipmapBloom db num level = Some b /\ GetMipmapBloom db' num level = Some b' /\ grown b b' /\
    (mipmapKey num level ∈ batch.*1 -> forall log, log ∈ all_logs receipts -> within (addr_bits (log_Address log)) (Big b'))) as Hall.
  { intros num level. destruct (Hdb num level) as (b & Eb & Hl). destruct (write_lookup batch db (mipmapKey num level)) as [(v & Hv & E)|[Hn E]]; fold db' in E.
    - eapply Forall_forall in Hb as (level' & b0 & Ek & Eb0 & G & A); [|exact Hv]. cbn [fst snd] in *. exists b, v. unfold GetMipmapBloom in *. rewrite E. cbn [default].
      rewrite Ek in Eb. rewrite Eb0 in Eb. injection Eb as ->. split_and!; try done; [by rewrite <- Ek in Eb0|apply BytesToBloom_id, G].
    - exists b, b. unfold GetMipmapBloom in *. rewrite E. split_and!; try done. }
  split_and!.
  - intros num level. destruct (Hall num level) as (b & b' & _ & E & G & _). exists b'. split; [done|apply G].
  - intros num level b b' Eb Eb'. destruct (Hall num level) as (b1 & b2 & E1 & E2 & G & _). congruence.
  - intros _ log level b' Hlog Hlev Eb'. destruct (Hall number level) as (b1 & b2 & _ & E2 & _ & A). rewrite Eb' in E2. injection E2 as <-. apply A; [by apply Hk|done].
Qed.

(** ** Properties *)

(** The writes of the mipmap so far, the last one first *)
Inductive written : database -> list (Z * list Receipt) -> Prop :=
| written_nil : written ∅ []
| written_cons db db' number receipts hs : written db hs -> WriteMipmapBloom true db number receipts = Some db' -> written db' ((number, receipts) :: hs).
Lemma mip_ok_empty : mip_ok ∅.
Proof. intros num level. unfold GetMipmapBloom. rewrite lookup_empty. exists zero_bloom. by split. Qed.
Lemma written_ok db hs : written db hs -> mip_ok db /\ forall number receipts log level, (number, receipts) ∈ hs -> log ∈ all_logs receipts -> level ∈ MIPMapLevels ->
  exists b, GetMipmapBloom db number level = Some b /\ within (addr_bits (log_Address log)) (Big b).
Proof.
  induction 1 as [|db db' number receipts hs _ [IH1 IH2] E]; [split; [apply mip_ok_empty|intros number receipts log level Hn; by apply not_elem_of_nil in Hn]|].
  destruct (WriteMipmapBloom_ok true db number receipts IH1) as (db2 & E2 & Hok & Hg & Ha). rewrite E in E2. injection E2 as <-. split; [done|].
  intros n r log level Hin Hl Hlev. destruct (Hok n level) as (b' & Eb' & _). exists b'. split; [done|]. apply elem_of_cons in Hin as [[= -> ->]|Hin]; [by eapply Ha|].
  destruct (IH2 n r log level Hin Hl Hlev) as (b & Eb & Hw). by eapply Hg.
Qed.

(** The mipmap has no false negatives: when the addresses of a block's logs have been written to it,
    every later bloom of every level that covers the block has them, whatever else is written; writing never
    panics. *)
Theorem mipmap_keeps (db : database) (hs : list (Z * list Receipt)) :
  written db hs ->
  (forall write number receipts, exists db', WriteMipmapBloom write db number receipts = Some db') /\
  forall number receipts log num level, (number, receipts) ∈ hs -> log ∈ all_logs receipts -> level ∈ MIPMapLevels -> num / level = number / level ->
  exists b, GetMipmapBloom db num level = Some b /\ TestBytes b (be_bytes 20 (log_Address log)) = true.
Proof.
  intros Hw. destruct (written_ok db hs Hw) as [Hok Ha]. split.
  - intros write number receipts. destruct (WriteMipmapBloom_ok write db number receipts Hok) as (db' & E & _). eauto.
  - intros number receipts log num level Hn Hl Hlev Hd. destruct (Ha number receipts log level Hn Hl Hlev) as (b & Eb & Hb). exists b. split; [|by apply TestBytes_within].
    unfold GetMipmapBloom, mipmapKey in *. by rewrite Hd.
Qed.

(** C37: A search returns exactly the matching logs of the blocks of its range, in order, and ends, with the
    mipmap and without: no log is lost to a bloom, and none is returned twice. *)
Theorem Find_exact {E : Type} `{Backend E} (hi : Z) (rs : Z -> list Receipt) (f : Filter) (fuel : nat) :
  chain_to hi rs -> filter_ok hi f -> enough hi fuel f ->
  exists f', Find fuel f = GOk (concat (map (found hi rs f) (range (first_block hi f) (last_block hi f))), None, f').
Proof.
  intros Hch Hok Hf. eexists. unfold Find. apply (Find_loop_ok hi rs Hch); [done..|]. unfold enough in Hf. lia.
Qed.

Lemma batches_same {E : Type} `{Backend E} f f' d d' level s e :
  (forall num level, is_Some (GetMipmapBloom (db f) num level)) -> (forall num level, is_Some (GetMipmapBloom (db f') num level)) ->
  addresses f <> [] -> addresses f' <> [] -> level_ok level -> 0 <= s <= 2 ^ 52 -> e < 2 ^ 52 -> (forall s' e', s <= s' <= 2 ^ 52 -> e' <= e -> d s' e' = d' s' e') ->
  forall fuel num, 0 <= num -> batches fuel f level d num s e = batches fuel f' level d' num s e.
Proof.
  intros H1 H2 A1 A2 Hl Hs He Hd fuel. pose proof Hl as Hl'. unfold level_ok in Hl'. induction fuel as [|fuel IH]; intros num Hn; [done|].
  destruct (Z.lt_ge_cases e num) as [Hlt|Hle]; [by rewrite !batches_done|]. rewrite !batches_step, Hd by done || lia. destruct (d' _ _) as [r| |]; [|done..]. cbn. destruct r.1; [apply IH; lia|done].
Qed.
Lemma getLogs_same {E : Type} `{Backend E} f f' : addresses f' = addresses f -> topics f' = topics f -> forall fuel s e, getLogs fuel f s e = getLogs fuel f' s e.
Proof.
  intros E1 E2 fuel s e. unfold getLogs. generalize (@nil Log) as acc. revert s. induction fuel as [|n IH]; intros s acc; [done|]. cbn [getLogs_loop]. rewrite E1, E2. by repeat case_match.
Qed.
(** C38: The blooms of the mipmap never let a batch be skipped: a search over the mipmap is the same
    whatever blooms the database has. *)
Theorem mipmap_never_skips {E : Type} `{Backend E} (fuel : nat) (f f' : Filter) (levels : list Z) (s e : Z) :
  (forall num level, is_Some (GetMipmapBloom (db f) num level)) -> (forall num level, is_Some (GetMipmapBloom (db f') num level)) ->
  addresses f <> [] -> addresses f' = addresses f -> topics f' = topics f -> Forall level_ok levels -> 0 <= s <= 2 ^ 52 -> e < 2 ^ 52 ->
  mipFind fuel f s e levels = mipFind fuel f' s e levels.
Proof.
  intros H1 H2 Ha E1 E2 Hl. revert s e. induction Hl as [|level levels Hl _ IH]; intros s e Hs He; [done|]. cbn [mipFind]. destruct (mip_start level s Hl ltac:(lia)) as [H3 _].
  apply batches_same; try done; [by rewrite E1| |lia]. intros s' e' Hs' He'. destruct levels; [by rewrite (getLogs_same f f')|apply IH; lia].
Qed.

(** The rounds of a search over the mipmap grow with the end of the range that is asked for, not with
    the chain: above the head, where there are no blocks, it goes on in batches. *)
Theorem mipFind_rounds {E : Type} `{Backend E} (hi : Z) (rs : Z -> list Receipt) (f : Filter) (fuel : nat) (s e : Z) :
  chain_to hi rs -> (forall num level, is_Some (GetMipmapBloom (db f) num level)) -> addresses f <> [] -> hi < s <= 2 ^ 52 -> e < 2 ^ 52 ->
  Z.of_nat fuel * 1000000 <= e - s -> mipFind fuel f s e MIPMapLevels = GErr OutOfFuel.
Proof.
  intros Hch Hdb Ha Hs He Hf. pose proof (ch_range _ _ Hch) as Hr. pose proof MIPMapLevels_ok as Hlev. unfold MIPMapLevels in *. apply Forall_cons in Hlev as [Hl Hls].
  cbn [mipFind]. destruct (mip_start 1000000 s Hl ltac:(lia)) as [H3 H4].
  assert (forall s' e', s <= s' <= 2 ^ 52 -> e' <= e -> right_answer hi rs f (mipFind fuel f s' e' [500000; 100000; 50000; 1000]) s' e') as Hd by (intros s' e' Hs' He'; apply mipFind_any; [done..|lia|lia]).
  assert (forall n num, 0 <= num -> num + Z.of_nat n * 1000000 <= e -> batches n f 1000000 (fun s e => mipFind fuel f s e [500000; 100000; 50000; 1000]) num s e = GErr OutOfFuel) as Hb.
  { intros n. induction n as [|n IH]; intros num Hn Hle; [done|]. rewrite batches_step by (done || lia).
    destruct (Hd (Z.max num s) (Z.min (num + 1000000 - 1) e)) as [-> | ->]; [lia..|done|]. cbn [gbind]. unfold answer. rewrite first_found_above by lia. cbn [fst]. apply IH; lia. }
  apply Hb; lia.
Qed.
End prims.

(** ** Examples *)

Definition demo_log : Log := mkLog 0xabcdef [7; 9] [] 1 0 0 0 0.
Definition demo_rs (i : Z) : list Receipt := if i =? 1 then [mkReceipt [] 21000 zero_bloom [demo_log] 0 0 21000] else [].
Definition demo_header (i : Z) : Header :=
  Types.mkHeader 0 0 0 0 0 0 (default [] (CreateBloom (H := mix_prims) (demo_rs i))) 1 i 4712388 0 0 [] 0 (be_bytes 8 i).
(** A chain of two blocks, the second one with a log *)
#[local] Instance demo_backend : Backend unit := {|
  HeaderByNumber := fun i =>
    if i =? -1 then (Some (demo_header 1), None) else if (0 <=? i) && (i <=? 1) then (Some (demo_header i), None) else (None, None);
  GetReceipts := fun h => (if h =? header_Hash (H := mix_prims) (demo_header 1) then demo_rs 1 else [], None);
|}.
Lemma demo_chain_to : chain_to (H := mix_prims) 1 demo_rs.
Proof.
  split.
  - by exists (demo_header 1), None.
  - lia.
  - intros i Hi. exists (demo_header i). assert (i = 0 \/ i = 1) as [-> | ->] by lia; (split; [reflexivity|]); (split; [vm_compute; reflexivity|vm_compute; reflexivity]).
  - intros i Hi. cbn. rewrite (proj2 (Z.eqb_neq _ _)) by lia. rewrite (proj2 (Z.leb_gt i 1)) by lia. by rewrite andb_false_r.
Qed.
Definition demo_filter : Filter := SetTopics [[7]; [0]] (SetAddresses [1; 0xabcdef] (SetEndBlock (-1) (New ∅ true))).
Lemma demo_mip num level : is_Some (GetMipmapBloom ∅ num level).
Proof. destruct (mip_ok_empty num level) as (b & E & _). by exists b. Qed.
Lemma Find_exact_witness : exists f', Find (H := mix_prims) 10 demo_filter = GOk ([demo_log], None, f').
Proof.
  apply (Find_exact (H := mix_prims) 1 demo_rs demo_filter); [apply demo_chain_to| |unfold enough; cbn; lia].
  split; [cbn; lia|cbn; lia|intros _; apply demo_mip].
Defined.
Lemma mipmap_keeps_witness : exists db, written (H := mix_prims) db [(1, demo_rs 1)] /\
  exists b, GetMipmapBloom db 999 1000 = Some b /\ TestBytes (H := mix_prims) b (be_bytes 20 (log_Address demo_log)) = true.
Proof.
  destruct (WriteMipmapBloom_ok (H := mix_prims) true ∅ 1 (demo_rs 1) mip_ok_empty) as (db & E & _). exists db.
  assert (written (H := mix_prims) db [(1, demo_rs 1)]) as Hw by (by eapply written_cons; [apply written_nil|]). split; [done|].
  destruct (mipmap_keeps (H := mix_prims) db _ Hw) as [_ Hk]. apply (Hk 1 (demo_rs 1) demo_log 999 1000); [left|left|do 4 right; left|reflexivity].
Defined.
Definition full_bloom : Bloom := replicate 256 Byte.xff.
Lemma mipmap_never_skips_witness :
  mipFind (H := mix_prims) 10 demo_filter 0 1 MIPMapLevels = mipFind (H := mix_prims) 10 (mkFilter true {[mipmapKey 0 1000 := full_bloom]} 0 (-1) [1; 0xabcdef] [[7]; [0]]) 0 1 MIPMapLevels.
Proof.
  apply (mipmap_never_skips (H := mix_prims)); [intros; apply demo_mip| |done|done|done|apply MIPMapLevels_ok|lia|lia].
  intros num level. cbn [db]. unfold GetMipmapBloom. destruct (decide (mipmapKey 0 1000 = mipmapKey num level)) as [E|E].
  - rewrite <- E, lookup_singleton_eq. cbn [default]. rewrite BytesToBloom_id by reflexivity. by eexists.
  - rewrite lookup_singleton_ne by done. by eexists.
Defined.
Lemma mipFind_rounds_witness : mipFind (H := mix_prims) 5 demo_filter 2 6000000 MIPMapLevels = GErr OutOfFuel.
Proof. apply (mipFind_rounds (H := mix_prims) 1 demo_rs); [apply demo_chain_to|intros; apply demo_mip|done|lia|lia|lia]. Defined.
End FiltersThms.
